(* ===== verification/_CoqProject ===== *)
-Q . S2P
Prelude.v
Netip.v
GoStrings.v
NetipParse.v
NetipShow.v
GoUtf8.v
Policy.v
Sdk.v
Aggregate.v
BotVerify.v
AiVerdict.v
AiClean.v
AiQueue.v
Store.v
Rules.v
EventsAgg.v
Retention.v
StoreReport.v
SSHPeers.v
AuthPeers.v
NotifyEdge.v
NotifySuppress.v
Rfc3339.v
StoreIface.v
Decision.v
DecisionSafety.v
DecisionGuards.v
Gate.v
Canon.v
NftNames.v
GoTime.v
NftScript.v
Helper.v
HelperSafety.v
NftTest.v
HelperScripts.v
NftLayout.v
NftClient.v
NftSync.v
NftHost.v
EnfState.v
Recheck.v
Feeds.v
FeedParse.v
GoNet.v
Regex.v
Json.v
Secrets.v
Config.v
ConfigSafety.v
ConfigSave.v
EdgeNet.v
CfRules.v
CfLists.v
CfListsSafety.v
CfListsServer.v
CfListsHonest.v
CfFaults.v
Bunny.v
AwsWaf.v
AwsCreds.v
ParserCore.v
ParserSSH.v
ParserHTTP.v
ParserMail.v
ParserApp.v
ParserSet.v
CollHealth.v
Daemon.v
AiConsult.v
DaemonSpec.v
ControlSocket.v
DaemonSteps.v
DaemonSafety.v
DaemonArming.v
Notify.v
DashAuth.v
DashServer.v
DashSafety.v
Siem.v
