(* ===== verification/Prelude.v ===== *)
(** * Ezy-Shield, verified

    Ezy-Shield is a host intrusion-prevention daemon.  Collectors read logs,
    parsers turn lines into events, an aggregator keeps a sliding window per
    address, rules (and optionally an AI provider) produce verdicts, a decision
    engine turns a verdict into a ban with a strike and an end, a gate lets only
    admissible bans through to the enforcers, and the nftables enforcer asks a
    small privileged helper to edit the kernel's sets; other enforcers keep the
    blocklists of Cloudflare, bunny.net and AWS WAF.  The operator talks to the
    daemon over a control socket or a dashboard; notifications and a SIEM hear of
    what happens; everything that must survive a restart is in an SQLite store.

    ** How the parts fit

<<
  Prelude GoStrings GoUtf8 GoNet Netip NetipParse NetipShow GoTime Rfc3339
  Regex Json                         Go's library
     |
  Secrets Config ConfigSafety ConfigSave        internal/config
  ParserCore ParserSSH ParserHTTP ParserMail ParserApp ParserSet    internal/parser
  Sdk Policy Aggregate Rules         vocabulary, policy file, window, rules
  AiVerdict AiClean AiQueue AiConsult     internal/ai and daemon/aiasync.go
  FeedParse Feeds                    internal/feeds and daemon/feeds.go
  SSHPeers AuthPeers NotifyEdge NotifySuppress BotVerify    the engine's helpers
  Store EventsAgg Retention StoreReport         internal/store
     |  StoreIface (class StoreOps)
  Decision DecisionSafety DecisionGuards        internal/decision
  Gate Canon                         internal/enforce/gate.go, multi.go, canon.go
  NftNames NftScript Helper HelperSafety NftTest HelperScripts NftLayout
                                     internal/enforcerd and nftnames
     |  NftSync (class HelperSpec), discharged in NftHost
  NftClient NftSync NftHost          internal/enforce/nftables.go
  EdgeNet CfRules CfLists CfListsSafety CfListsServer CfListsHonest CfFaults
  Bunny AwsWaf AwsCreds              internal/enforce, the enforcers at the edge
  EnfState Recheck CollHealth Daemon ControlSocket    internal/daemon
     |  DaemonSpec (relations moves, astep)
  DaemonSteps DaemonSafety DaemonArming         what the daemon guarantees
  Notify Siem                        internal/notify/notify.go, internal/siem
  DashAuth DashServer DashSafety     internal/dashboard
>>

    ** Source and model

    - [Netip], [NetipParse], [NetipShow], [GoStrings], [GoUtf8], [GoTime], [Rfc3339]:
      the parts of [net/netip], [strings], [strconv], [utf8] and [time] the program
      leans on.  Not mapped to the repository; they carry the round trips
      (printing and parsing addresses, prefixes and instants).
    - [GoNet], [Regex], [Json]: [net.SplitHostPort] and file paths, the leftmost-first
      matching of [regexp] for the patterns of the source, [encoding/json].  Not
      mapped to the repository either.
    - [Secrets], [Config], [ConfigSave]: the credential scan over the decoded YAML
      tree, the defaults and every validation of config.yaml (error texts are
      shortened), the write-back that keeps a backup.
    - [Parser*]: the log formats: sshd, nginx, Apache and their X-Forwarded-For
      chain, mail servers, web applications, and the set that routes a line.
    - [Policy]: policy.yaml's defaults and validation, the ASN reader, the armed
      flag and [RewriteArmed], which edits one line of the file in place.
    - [Aggregate]: aggregator.go; a bucket per address, the sample cap with its
      overflow slots, the LRU cap.
    - [Rules]: the rule engine: overlay of drop-ins, validation, counter kinds,
      matching, evidence.
    - [SSHPeers], [AuthPeers], [NotifyEdge], [NotifySuppress], [BotVerify]: the
      anti-lockout probe of /proc, the logind filter, rising edges of
      notifications, their folding under load, the verification of search bots.
    - [AiVerdict], [AiClean], [AiQueue], [AiConsult]: what becomes of a provider's
      answer (decoding, binding to the batch, clamps, retries), what a provider is
      shown of the logs, the queue of addresses to analyse, and the consultation
      with its cache, daily budget and provider chain.
    - [FeedParse]: the reader of feed lists, the conditional fetch, the refresh.
    - [Store], [EventsAgg], [Retention], [StoreReport]: the store's tables as maps
      and lists; every query and mutation as a transaction that may fail at a
      statement; hourly counters with watermarks; pruning; report queries.
    - [StoreIface], [Decision*]: [Engine.Decide] and the operator's bans as a monad
      over the engine's fields, the store and a trace of effects; the store is
      any instance of [StoreOps].
    - [Gate], [Canon]: [Gate.Ban] and the [Multi] fan-out over any enforcers.
    - [NftNames], [NftScript], [Helper*], [NftTest], [NftLayout]: the privileged
      helper: every verb of [dispatch] over a kernel that is a class, scripts as
      lists of statements, the meaning of the table layout for packets.
    - [NftClient], [NftSync], [NftHost]: the client side and its reconcile.
    - [EdgeNet], [Cf*], [Bunny], [AwsWaf], [AwsCreds]: the edge enforcers as programs
      over the answers of the vendor's API ([io]): Cloudflare zone rules and shared
      lists with their mirrors and asynchronous operations, bunny.net pull zones,
      AWS IP sets under their lock token, credentials and request signing.
      [CfListsServer] is a Lists API that does its job.
    - [EnfState], [Recheck], [CollHealth], [Feeds], [Daemon], [ControlSocket]: the
      daemon's shared state as one record, its pipeline, queues, tickers and
      socket verbs as operations on it; [processAIAsyncItem] is the worker of [AiQueue].
    - [Notify]: the dispatcher's quotas and deduplication window; sends interleave.
    - [Siem]: the CEF and RFC 5424 formatters and the forwarding queues.
    - [DashAuth], [DashServer]: the dashboard's login throttle, sessions, roles and
      passwords; its routes, pages and writes as functions of a request, the server
      and the daemon's answers; the live-update bus.

    ** What the theorems show

    - The daemon as a whole.  [DaemonSpec] gives the elementary steps an operation
      may be made of; [DaemonSteps] walks the code of every operation once and
      shows it is a sequence of them; [DaemonSafety] and [DaemonArming] conclude:
      no address of a static allowlist, nor of the runtime allowlist once it is
      loaded, is ever asked to be banned, and no feed contributes one, an unarmed
      daemon never asks for a ban, each event can sentence only its own source, arming
      asks that the operator's address is covered and reverts unless it is
      confirmed, the panic button empties what it promises and disarms the policy
      file, the read-only tier changes nothing.
    - The decision.  Guards before every ban, the strike table and its escalation,
      the ban-rate cap over any minute, the lock discipline on traces, no panic.
    - The store.  The audit log is append-only and explains the ban rows, strikes
      never go backwards, expiry, pruning and its dry run agree, counters equal
      the event log, a long window never counts evidence twice.
    - The packet filter.  The helper's cache never claims what the kernel does not
      hold; a reconcile leaves exactly the wanted elements; every script is made
      of clean identifiers and addresses; the layout accepts allowlisted packets
      before it drops any.
    - The outside world.  An AI answer, a feed body, a DNS answer and a log field are
      attacker-written: a verdict speaks of its batch within the policy's bounds and
      a replayed one of the address that asks, a provider's report adds up every
      attempt and the tokens of its answers stop at the budget and the cost of one
      call, what it is shown is sanitized, a feed contributes no reserved range and
      keeps its last good set when it fails or nothing of its answer can be read, a
      crawler is spared only when confirmed.
    - The edge.  Whatever a vendor's API answers, an enforcer adds, removes and
      rewrites only what is its own and what it was asked for; on a Lists API that
      does its job a reconcile ends with the wanted addresses; bunny.net's bans are
      given up oldest first; an AWS ban or unban changes one entry of what the set
      holds at that moment (and the one a full set gives up), a reconcile replaces
      the set.
    - Logs and configuration.  A client cannot move the blame from its own address
      with the name it gives sshd or with a forwarding header, a line gives at most one bounded
      event; a configuration that loads meets what the components rely on and
      holds no pasted credential.
    - The operator's side.  A dashboard write reaches the daemon only for a proven
      user who holds the role now, guesses at a name are bounded; delivered notifications are
      neither doubled within the window nor crowded out; hostile text cannot forge
      a line or a field of a SIEM record, and a forwarded event is written, held or
      counted as dropped.
    - The components: equivalence of the aggregator's incremental counts with a
      count over the log, of the edge map and the suppression window with their
      specifications, parsers and validations with what they admit.

    ** Interfaces and hypotheses

    - [StoreOps] and [StoreLaws]: what the engine needs of a store; the SQLite model
      is an instance.
    - [Nft], [NftLaws], [NftStrict]: nft applies a script as one transaction or
      fails and changes nothing, a listing shows what a set holds, and the error
      texts the helper looks for mean what they say.  [NftTest], the model of the
      repository's fake kernel, is an instance.
    - [HelperSpec]: what the client's reconcile relies on; [NftHost] proves it of
      [Helper] over any strict kernel.
    - [LimitLaws] ([EnfState]'s rate limiter), [op_ok] and [feed_source_ok]
      (DaemonSafety): addresses handed to an operation are well formed, a feed is
      one of the configuration.  Each theorem that has hypotheses has a witness on
      concrete data.

    ** Fuel and bounds

    Recursion is structural, or over a list the call itself computes; the parsers
    that walk a text take its length as fuel, which is enough because every round
    consumes a character.  Integers are [Z]; where the width matters (durations,
    counters, [leadingInt], extended durations) the wrap-around or the bound is
    written out.  Durations in seconds that Go computes through [float64] are
    exact here, so a duration beyond 2^53 nanoseconds may differ by a rounding.

    ** Conventions

    - A mutex makes its section one step.  [enforceMu] spans each kernel-and-store
      section, [mutateMu] a helper request; an operation of the daemon is a
      sequence of such sections, run without another in between.  Interleavings
      between two sections of one operation (for example a disarm between
      [Decide] and its dispatch) are not modelled.
    - A clock is read once per call; map iteration orders, files, peers, command
      output and vendor answers are arguments.
    - White space and letter case are ASCII; [%q] is the text between quotation
      marks; RFC 3339 texts are parsed strictly; the fraction of a duration text
      is exact.
    - Log lines, metrics and the stream's event time are left out.

    ** Not modelled

    HTTP itself, JSON decoding of vendor answers, hash functions, and the mutexes
    of the edge enforcers (their operations run one at a time, other writers of
    the vendor's lists apart); the prompts, HTTP calls and narrator of the AI layer;
    the SMTP, Telegram, Slack, Discord and webhook clients; file tailing, journald
    and docker readers; YAML decoding; HTML templates and the WebSocket loop; the
    JSON format of a SIEM; the command line, the installers and the TUI; plugins;
    GeoIP look-ups and CDN detection; webshell and exec scanners; schema
    migrations, which are SQL text, and VACUUM; in the daemon, evidence rendering,
    the self check, and the goroutines of exec activity, webshell scanning and log
    shipping.

    Dashboard requests are served one at a time: requests that arrive together
    pass the throttle together ([DashSafety.concurrent_guesses]).

    ** What is left

    The collectors' line assembly and rotation, the plugin manifest and protocol,
    the notification clients' message texts, and the command line's setup flow,
    which writes the configuration [Config] validates. *)
From stdpp Require Export base tactics numbers list gmap strings pretty.
From Stdlib Require Export ZArith Lia.

#[global] Open Scope Z_scope.

(** Bit operations and powers stay folded in goals. *)
#[global] Arguments Z.shiftr : simpl never.
#[global] Arguments Z.shiftl : simpl never.
#[global] Arguments Z.land : simpl never.
#[global] Arguments Z.lor : simpl never.
#[global] Arguments Z.lxor : simpl never.
#[global] Arguments Z.ones : simpl never.
#[global] Arguments Z.pow : simpl never.

(** ** Results of fallible calls

    Go functions that return a value and an [error] return [Ok] or [Err]. *)
Inductive result (E A : Type) : Type :=
| Ok (a : A)
| Err (e : E).
Arguments Ok {E A} _.
Arguments Err {E A} _.

Definition result_bind {E A B} (f : A → result E B) (r : result E A) : result E B :=
  match r with Ok a => f a | Err e => Err e end.

Definition is_ok {E A} (r : result E A) : bool :=
  match r with Ok _ => true | Err _ => false end.

#[export] Instance result_mret {E} : MRet (result E) := λ A a, Ok a.
#[export] Instance result_mbind {E} : MBind (result E) := λ A B f r, result_bind f r.
#[export] Instance result_fmap {E} : FMap (result E) := λ A B f r, result_bind (λ a, Ok (f a)) r.

(** The first error of a list of checks, in order; [Ok] when every check passes. *)
Fixpoint check_all {E A} (f : nat → A → result E unit) (i : nat) (l : list A) : result E unit :=
  match l with
  | [] => Ok tt
  | x :: l => match f i x with Ok _ => check_all f (S i) l | Err e => Err e end
  end.

(** A fallible map that stops at the first error. *)
Fixpoint map_result {E A B} (f : A → result E B) (l : list A) : result E (list B) :=
  match l with
  | [] => Ok []
  | x :: l => match f x with
              | Ok y => match map_result f l with Ok ys => Ok (y :: ys) | Err e => Err e end
              | Err e => Err e
              end
  end.

(** ** Time

    A [time.Time] is the number of nanoseconds since the Unix epoch, a
    [time.Duration] a number of nanoseconds. *)
Abbreviation time := Z (only parsing).
Abbreviation duration := Z (only parsing).

Definition Nanosecond : duration := 1.
Definition Microsecond : duration := 1000.
Definition Millisecond : duration := 1000000.
Definition Second : duration := 1000000000.
Definition Minute : duration := 60 * Second.
Definition Hour : duration := 60 * Minute.

(** [time.Time.Unix]: whole seconds, rounded towards minus infinity. *)
Definition Unix (t : time) : Z := t `div` Second.

(** Seconds between the zero [time.Time] (year 1) and the Unix epoch. *)
Definition unixToInternal : Z := 62135596800.

(** [time.Time.Truncate]: down to a multiple of [d] since the zero time. *)
Definition time_truncate (t : time) (d : duration) : time :=
  if decide (d <= 0) then t else t - (t + unixToInternal * Second) `mod` d.

(** [time.Duration.Truncate]: towards zero, to a multiple of [m]. *)
Definition dur_truncate (d m : duration) : duration :=
  if decide (m <= 0) then d else d - Z.rem d m.

(** [time.Duration.Seconds] cut to an integer, as [int64(d.Seconds())]. *)
Definition dur_seconds (d : duration) : Z := Z.quot d Second.

(** ** Signed machine words *)
Definition wrap64 (x : Z) : Z := (x + 2 ^ 63) `mod` 2 ^ 64 - 2 ^ 63.

Lemma wrap64_range x : - 2 ^ 63 <= wrap64 x < 2 ^ 63.
Proof. unfold wrap64. pose proof (Z.mod_pos_bound (x + 2 ^ 63) (2 ^ 64)). lia. Qed.

Lemma wrap64_id x : - 2 ^ 63 <= x < 2 ^ 63 → wrap64 x = x.
Proof. intros ?. unfold wrap64. rewrite Z.mod_small; lia. Qed.

(** ** Automation *)
Create HintDb ezy discriminated.

(** Case analysis on every match of the goal and the hypotheses. *)
Ltac cases := repeat (case_match; simplify_eq/=).

(** Booleans to propositions: decisions, comparisons, connectives. *)
Ltac bool_hyps :=
  repeat match goal with
  | H : bool_decide _ = true |- _ => apply bool_decide_eq_true_1 in H
  | H : bool_decide _ = false |- _ => apply bool_decide_eq_false_1 in H
  | H : (_ && _)%bool = true |- _ => apply andb_true_iff in H as [? ?]
  | H : (_ || _)%bool = false |- _ => apply orb_false_iff in H as [? ?]
  | H : negb _ = true |- _ => apply negb_true_iff in H
  | H : negb _ = false |- _ => apply negb_false_iff in H
  | H : (_ <? _)%Z = true |- _ => apply Z.ltb_lt in H
  | H : (_ <? _)%Z = false |- _ => apply Z.ltb_ge in H
  | H : (_ <=? _)%Z = true |- _ => apply Z.leb_le in H
  | H : (_ <=? _)%Z = false |- _ => apply Z.leb_gt in H
  | H : (_ =? _)%Z = true |- _ => apply Z.eqb_eq in H
  | H : (_ =? _)%Z = false |- _ => apply Z.eqb_neq in H
  end.

(** Split the whole goal by cases and close what arithmetic closes. *)
Ltac crush := cases; bool_hyps; try lia; eauto with ezy.

(** ** Generic lemmas *)
Section lists.
Context {A : Type}.
Implicit Types l : list A.

Lemma existsb_exists_elem (f : A → bool) l :
  existsb f l = true ↔ ∃ x, x ∈ l ∧ f x = true.
Proof.
  rewrite existsb_exists. by setoid_rewrite list_elem_of_In.
Qed.

Lemma existsb_false_elem (f : A → bool) l :
  existsb f l = false ↔ ∀ x, x ∈ l → f x = false.
Proof.
  induction l as [|y l IH]; simpl.
  - split; [intros _ x Hx; by apply not_elem_of_nil in Hx | done].
  - rewrite orb_false_iff, IH. setoid_rewrite elem_of_cons.
    split; [intros [? ?] x [->|?]; auto | auto].
Qed.

Lemma forallb_true_elem (f : A → bool) l :
  forallb f l = true ↔ ∀ x, x ∈ l → f x = true.
Proof.
  rewrite forallb_forall. by setoid_rewrite list_elem_of_In.
Qed.

Lemma find_Some_elem (f : A → bool) l x :
  List.find f l = Some x → x ∈ l ∧ f x = true.
Proof. intros H%List.find_some. by rewrite list_elem_of_In. Qed.

Lemma find_None_elem (f : A → bool) l :
  List.find f l = None ↔ ∀ x, x ∈ l → f x = false.
Proof.
  split.
  - intros H x Hx. eapply List.find_none; [done|]. by apply list_elem_of_In.
  - intros H. destruct (List.find f l) as [y|] eqn:E; [|done].
    apply find_Some_elem in E as [Hy Hf]. rewrite H in Hf; done.
Qed.
End lists.

Lemma check_all_ok {E A} (f : nat → A → result E unit) l i :
  check_all f i l = Ok tt ↔ ∀ j x, l !! j = Some x → f (i + j)%nat x = Ok tt.
Proof.
  revert i. induction l as [|y l IH]; intros i; simpl.
  { split; [intros _ j x ?; by rewrite lookup_nil in * | done]. }
  destruct (f i y) as [[]|e] eqn:Hf.
  - rewrite IH. split.
    + intros H [|j] x Hx; simplify_eq/=; [by rewrite Nat.add_0_r|].
      specialize (H j x Hx). by rewrite Nat.add_succ_r.
    + intros H j x Hx. specialize (H (S j) x Hx). by rewrite Nat.add_succ_r in H.
  - split; [done|]. intros H. specialize (H 0%nat y eq_refl).
    by rewrite Nat.add_0_r, Hf in H.
Qed.

Lemma map_result_ok {E A B} (f : A → result E B) l k :
  map_result f l = Ok k ↔ Forall2 (λ x y, f x = Ok y) l k.
Proof.
  revert k. induction l as [|x l IH]; intros k; simpl.
  - split; [intros [= <-]; constructor | by inversion 1].
  - split.
    + intros H. destruct (f x) eqn:Hf; [|done].
      destruct (map_result f l) eqn:Hl; [|done]. simplify_eq.
      constructor; [done|]. by apply IH.
    + inversion 1 as [|?? ? ? Hf Hl]; simplify_eq. apply IH in Hl.
      by rewrite Hf, Hl.
Qed.

#[export] Hint Resolve wrap64_range : ezy.

(** ** Sums and counters *)
Fixpoint sumZ {A} (f : A → Z) (l : list A) : Z :=
  match l with [] => 0 | x :: l => f x + sumZ f l end.

Lemma sumZ_app {A} (f : A → Z) l k : sumZ f (l ++ k) = sumZ f l + sumZ f k.
Proof. induction l as [|x l IH]; simpl; lia. Qed.

Lemma sumZ_nonneg {A} (f : A → Z) l : (∀ x, 0 <= f x) → 0 <= sumZ f l.
Proof. intros Hf. induction l as [|x l IH]; simpl; [lia|]. specialize (Hf x). lia. Qed.

Lemma sumZ_le {A} (f g : A → Z) l : (∀ x, x ∈ l → f x <= g x) → sumZ f l <= sumZ g l.
Proof.
  induction l as [|x l IH]; intros H; simpl; [lia|].
  assert (f x <= g x) by (apply H; left). assert (sumZ f l <= sumZ g l); [|lia].
  apply IH. intros y Hy. apply H. by right.
Qed.

Lemma sumZ_ext {A} (f g : A → Z) l : (∀ x, x ∈ l → f x = g x) → sumZ f l = sumZ g l.
Proof.
  intros H. apply Z.le_antisymm; apply sumZ_le; intros x Hx; rewrite H by done; lia.
Qed.

Lemma sumZ_zero {A} (f : A → Z) l : (∀ x, x ∈ l → f x = 0) → sumZ f l = 0.
Proof. intros H. rewrite (sumZ_ext f (λ _, 0)) by done. clear. induction l; simpl; lia. Qed.

Lemma sumZ_length {A} (l : list A) : sumZ (λ _, 1) l = Z.of_nat (length l).
Proof. induction l as [|x l IH]; simpl; lia. Qed.

Lemma sumZ_filter {A} (f : A → Z) (P : A → bool) l :
  sumZ f (List.filter P l) = sumZ (λ x, if P x then f x else 0) l.
Proof. induction l as [|x l IH]; simpl; [done|]. destruct (P x); simpl; lia. Qed.

(** The sum of [g key value] over a map. *)
Section map_sum.
Context {K V : Type} `{Countable K}.

Definition map_sum (g : K → V → Z) (m : gmap K V) : Z := map_fold (λ k v acc, g k v + acc) 0 m.

Lemma map_sum_empty g : map_sum g ∅ = 0.
Proof. apply map_fold_empty. Qed.

Lemma map_sum_insert_new g k v m : m !! k = None → map_sum g (<[k := v]> m) = g k v + map_sum g m.
Proof.
  intros Hk. unfold map_sum. rewrite map_fold_insert_L; [done| |done].
  intros. lia.
Qed.

Lemma map_sum_delete g k v m : m !! k = Some v → map_sum g m = g k v + map_sum g (delete k m).
Proof.
  intros Hk. rewrite <- (insert_delete_id m k v Hk) at 1.
  rewrite map_sum_insert_new; [done|]. apply lookup_delete_eq.
Qed.

Lemma map_sum_insert g k v m :
  map_sum g (<[k := v]> m) = map_sum g m - default 0 (g k <$> m !! k) + g k v.
Proof.
  destruct (m !! k) as [w|] eqn:E; simpl.
  - rewrite (map_sum_delete g k w m E), (map_sum_delete g k v) by apply lookup_insert_eq.
    rewrite delete_insert_eq. lia.
  - rewrite map_sum_insert_new by done. lia.
Qed.

Lemma map_sum_ext g h m : (∀ k v, m !! k = Some v → g k v = h k v) → map_sum g m = map_sum h m.
Proof.
  induction m as [|k v m Hk IH] using map_ind; intros Hgh; [by rewrite !map_sum_empty|].
  rewrite !map_sum_insert_new by done. rewrite IH, Hgh; [done|apply lookup_insert_eq|].
  intros k' v' Hk'. apply Hgh. rewrite lookup_insert_ne; [done|]. congruence.
Qed.

Lemma map_sum_le g h m : (∀ k v, m !! k = Some v → g k v <= h k v) → map_sum g m <= map_sum h m.
Proof.
  induction m as [|k v m Hk IH] using map_ind; intros Hgh; [by rewrite !map_sum_empty|].
  rewrite !map_sum_insert_new by done. pose proof (Hgh k v (lookup_insert_eq _ _ _)).
  assert (map_sum g m <= map_sum h m); [|lia]. apply IH. intros k' v' Hk'. apply Hgh. rewrite lookup_insert_ne; [done|congruence].
Qed.

Lemma map_sum_zero g m : (∀ k v, m !! k = Some v → g k v = 0) → map_sum g m = 0.
Proof.
  intros Hg. rewrite (map_sum_ext g (λ _ _, 0)) by done. clear.
  induction m as [|k v m Hk IH] using map_ind; [apply map_sum_empty|]. by rewrite map_sum_insert_new, IH by done.
Qed.

Lemma map_sum_filter g (P : K * V → Prop) `{∀ x, Decision (P x)} m :
  map_sum g (filter P m) = map_sum (λ k v, if decide (P (k, v)) then g k v else 0) m.
Proof.
  induction m as [|k v m Hk IH] using map_ind; [done|].
  rewrite (map_sum_insert_new _ _ _ m) by done. case_decide.
  - rewrite map_filter_insert_True, map_sum_insert_new by (done || by apply map_lookup_filter_None; left).
    by rewrite IH.
  - rewrite map_filter_insert_False by done. rewrite delete_id by done. by rewrite IH.
Qed.
End map_sum.

(** Reading a counter map: absent is zero. *)
Definition get {K} `{Countable K} (k : K) (m : gmap K Z) : Z := default 0 (m !! k).

Lemma get_insert {K} `{Countable K} (k j : K) n (m : gmap K Z) :
  get k (<[j := n]> m) = if decide (j = k) then n else get k m.
Proof. unfold get. rewrite lookup_insert. by case_decide. Qed.

Lemma get_empty {K} `{Countable K} (k : K) : get k ∅ = 0.
Proof. unfold get. by rewrite lookup_empty. Qed.

Lemma get_None {K} `{Countable K} (k : K) (m : gmap K Z) : m !! k = None → get k m = 0.
Proof. unfold get. by intros ->. Qed.
