(* ===== verification/Netip.v ===== *)
(** The part of Go's [net/netip] the program relies on: addresses, prefixes,
    the mapped-IPv6 normalisation, masking, containment and overlap, with the
    set-theoretic meaning of each.

    An IPv4 address is a 32-bit integer, an IPv6 address a 128-bit integer with
    its zone; the zero [netip.Addr] is [AddrNone].  Standard-library code, so
    nothing here is mapped to the repository. *)
From S2P Require Import Prelude.

Inductive addr : Type :=
| AddrNone
| Addr4 (v : Z)
| Addr6 (v : Z) (zone : string).

#[export] Instance addr_eq_dec : EqDecision addr.
Proof. solve_decision. Defined.
#[export] Instance addr_countable : Countable addr.
Proof.
  refine (inj_countable'
    (λ a, match a with
          | AddrNone => inl ()
          | Addr4 v => inr (inl v)
          | Addr6 v z => inr (inr (v, z)) end)
    (λ s : unit + (Z + Z * string), match s with
          | inl _ => AddrNone
          | inr (inl v) => Addr4 v
          | inr (inr (v, z)) => Addr6 v z end) _).
  by intros [].
Defined.

Definition IsValid (a : addr) : bool := match a with AddrNone => false | _ => true end.
Definition Is4 (a : addr) : bool := match a with Addr4 _ => true | _ => false end.
Definition BitLen (a : addr) : Z :=
  match a with AddrNone => 0 | Addr4 _ => 32 | Addr6 _ _ => 128 end.
Definition bits_of (a : addr) : Z :=
  match a with AddrNone => 0 | Addr4 v => v | Addr6 v _ => v end.
Definition hasZone (a : addr) : bool :=
  match a with Addr6 _ z => negb (bool_decide (z = EmptyString)) | _ => false end.
Definition withoutZone (a : addr) : addr :=
  match a with Addr6 v _ => Addr6 v EmptyString | _ => a end.

(** [::ffff:a.b.c.d]: the top 96 bits are 80 zeros and 16 ones. *)
Definition Is4In6 (a : addr) : bool :=
  match a with Addr6 v _ => Z.shiftr v 32 =? 0xffff | _ => false end.

Definition Unmap (a : addr) : addr :=
  match a with
  | Addr6 v _ => if Is4In6 a then Addr4 (Z.land v (Z.ones 32)) else a
  | _ => a
  end.

(** A [netip.Prefix]: its address never has a zone; [pbits = -1] is an invalid one. *)
Record prefix := Prefix { paddr : addr; pbits : Z }.

#[export] Instance prefix_eq_dec : EqDecision prefix.
Proof. solve_decision. Defined.
#[export] Instance prefix_countable : Countable prefix.
Proof.
  refine (inj_countable' (λ p, (paddr p, pbits p)) (λ q, Prefix q.1 q.2) _).
  by intros [].
Defined.

Definition PrefixNone : prefix := Prefix AddrNone (-1).

Definition PrefixFrom (a : addr) (b : Z) : prefix :=
  Prefix (withoutZone a)
    (if (IsValid a && (0 <=? b) && (b <=? BitLen a))%bool then b else -1).

Definition PIsValid (p : prefix) : bool := 0 <=? pbits p.

Definition IsSingleIP (p : prefix) : bool := PIsValid p && (pbits p =? BitLen (paddr p)).

(** [n] leading ones out of [w] bits. *)
Definition mask (w n : Z) : Z := Z.shiftl (Z.ones n) (w - n).

Definition set_bits (a : addr) (v : Z) : addr :=
  match a with AddrNone => AddrNone | Addr4 _ => Addr4 v | Addr6 _ z => Addr6 v z end.

(** [Addr.Prefix]: the masked prefix, or an error when [b] is out of range.
    The zero address yields the zero prefix and no error. *)
Definition AddrPrefix (a : addr) (b : Z) : option prefix :=
  if b <? 0 then None else
  match a with
  | AddrNone => Some PrefixNone
  | _ => if BitLen a <? b then None
         else Some (PrefixFrom (set_bits a (Z.land (bits_of a) (mask (BitLen a) b))) b)
  end.

(** [Prefix.Masked] ignores the error and keeps the zero prefix. *)
Definition Masked (p : prefix) : prefix := default PrefixNone (AddrPrefix (paddr p) (pbits p)).

Definition Contains (p : prefix) (a : addr) : bool :=
  if (negb (PIsValid p) || hasZone a)%bool then false
  else if (BitLen (paddr p) =? 0) || (BitLen a =? 0) || negb (BitLen (paddr p) =? BitLen a)
  then false
  else if Is4 a
  then Z.shiftr (Z.lxor (bits_of a) (bits_of (paddr p))) (32 - pbits p) =? 0
  else Z.land (Z.lxor (bits_of a) (bits_of (paddr p))) (mask 128 (pbits p)) =? 0.

Definition Overlaps (p o : prefix) : bool :=
  if (negb (PIsValid p) || negb (PIsValid o))%bool then false
  else if decide (p = o) then true
  else if negb (Bool.eqb (Is4 (paddr p)) (Is4 (paddr o))) then false
  else
    let minBits := Z.min (pbits p) (pbits o) in
    if minBits =? 0 then true
    else match AddrPrefix (paddr p) minBits, AddrPrefix (paddr o) minBits with
         | Some p', Some o' => bool_decide (paddr p' = paddr o')
         | _, _ => false
         end.

(** ** Well-formed values: what [net/netip] can construct *)
Definition wf_addr (a : addr) : Prop :=
  match a with
  | AddrNone => True
  | Addr4 v => 0 <= v < 2 ^ 32
  | Addr6 v _ => 0 <= v < 2 ^ 128
  end.

(** A valid prefix of a well-formed address without a zone. *)
Definition wf_prefix (p : prefix) : Prop :=
  wf_addr (paddr p) ∧ hasZone (paddr p) = false ∧ IsValid (paddr p) = true ∧
  0 <= pbits p <= BitLen (paddr p).

(** An address a filter can match on the wire: no zone. *)
Definition plain (a : addr) : Prop := wf_addr a ∧ IsValid a = true ∧ hasZone a = false.

(** ** Bit-level lemmas *)
Section bits.
Variables (w n : Z).
Hypothesis (Hn : 0 <= n <= w).

Lemma land_mask x : 0 <= x < 2 ^ w → Z.land x (mask w n) = Z.shiftl (Z.shiftr x (w - n)) (w - n).
Proof using Hn.
  intros Hx. unfold mask.
  rewrite <- (Z.ldiff_ones_r x (w - n)) by lia.
  apply Z.bits_inj'. intros i Hi.
  rewrite Z.land_spec, Z.shiftl_spec, Z.ldiff_spec by lia.
  destruct (decide (i < w - n)).
  { rewrite (Z.testbit_neg_r (Z.ones n)), (Z.ones_spec_low (w - n)) by lia.
    by rewrite andb_false_r, andb_false_r. }
  rewrite (Z.ones_spec_high (w - n)) by lia. simpl. rewrite andb_true_r.
  destruct (decide (i < w)).
  { rewrite Z.ones_spec_low by lia. by rewrite andb_true_r. }
  rewrite Z.ones_spec_high by lia. rewrite andb_false_r.
  symmetry. destruct (decide (x = 0)) as [->|]; [apply Z.bits_0|].
  apply Z.bits_above_log2; [lia|].
  apply Z.log2_lt_pow2; [lia|]. eapply Z.lt_le_trans; [apply Hx|].
  apply Z.pow_le_mono_r; lia.
Qed.

Lemma land_mask_range x : 0 <= x < 2 ^ w → 0 <= Z.land x (mask w n) < 2 ^ w.
Proof using Hn.
  intros Hx. rewrite land_mask by done. rewrite Z.shiftl_mul_pow2, Z.shiftr_div_pow2 by lia.
  pose proof (Z.pow_pos_nonneg 2 (w - n)). 
  pose proof (Z.mul_div_le x (2 ^ (w - n))). pose proof (Z.div_pos x (2 ^ (w - n))). nia.
Qed.

Lemma shiftr_land_mask x : 0 <= x < 2 ^ w →
  Z.shiftr (Z.land x (mask w n)) (w - n) = Z.shiftr x (w - n).
Proof using Hn.
  intros Hx. rewrite land_mask by done.
  rewrite Z.shiftr_shiftl_l by lia. by rewrite Z.sub_diag, Z.shiftl_0_r.
Qed.

Lemma land_mask_inj x y : 0 <= x < 2 ^ w → 0 <= y < 2 ^ w →
  Z.land x (mask w n) = Z.land y (mask w n) ↔ Z.shiftr x (w - n) = Z.shiftr y (w - n).
Proof using Hn.
  intros Hx Hy. split.
  - intros H. by rewrite <- (shiftr_land_mask x), <- (shiftr_land_mask y), H.
  - intros H. by rewrite !land_mask, H.
Qed.

Lemma lxor_shiftr_zero x y k : 0 <= k →
  Z.shiftr (Z.lxor x y) k = 0 ↔ Z.shiftr x k = Z.shiftr y k.
Proof using.
  intros. rewrite Z.shiftr_lxor. split; [apply Z.lxor_eq|].
  intros ->. apply Z.lxor_nilpotent.
Qed.

Lemma lxor_range x y : 0 <= x < 2 ^ w → 0 <= y < 2 ^ w → 0 <= Z.lxor x y < 2 ^ w.
Proof using Hn.
  intros Hx Hy. assert (0 <= Z.lxor x y) by (apply Z.lxor_nonneg; lia).
  split; [done|]. destruct (decide (Z.lxor x y = 0)) as [->|]; [apply Z.pow_pos_nonneg; lia|].
  apply Z.log2_lt_pow2; [lia|].
  eapply Z.le_lt_trans; [apply Z.log2_lxor; lia|].
  assert (∀ z, 0 <= z < 2 ^ w → Z.log2 z < w ∨ w = 0) as Hl.
  { intros z Hz. destruct (decide (z = 0)) as [->|]; [simpl; lia|].
    left. apply Z.log2_lt_pow2; lia. }
  destruct (decide (w = 0)) as [->|]; [|destruct (Hl x), (Hl y); lia].
  change (2 ^ 0) with 1 in *. assert (x = 0) by lia. assert (y = 0) by lia. subst.
  done.
Qed.

Lemma land_lxor_mask_zero x y : 0 <= x < 2 ^ w → 0 <= y < 2 ^ w →
  Z.land (Z.lxor x y) (mask w n) = 0 ↔ Z.shiftr x (w - n) = Z.shiftr y (w - n).
Proof using Hn.
  intros Hx Hy. rewrite <- lxor_shiftr_zero by lia.
  rewrite land_mask by (by apply lxor_range).
  split; [|intros ->; apply Z.shiftl_0_l].
  rewrite Z.shiftl_mul_pow2 by lia. intros H. apply Z.mul_eq_0_l in H; [done|].
  pose proof (Z.pow_pos_nonneg 2 (w - n)). lia.
Qed.
End bits.

(** ** Addresses *)
Lemma BitLen_nonneg a : 0 <= BitLen a.
Proof. by destruct a. Qed.

Lemma wf_addr_bits a : IsValid a = true → wf_addr a → 0 <= bits_of a < 2 ^ BitLen a.
Proof. by destruct a. Qed.

Lemma Unmap_valid a : IsValid (Unmap a) = IsValid a.
Proof. destruct a as [| |v z]; [done..|]. unfold Unmap. by destruct (Is4In6 _). Qed.

Lemma Unmap_wf a : wf_addr a → wf_addr (Unmap a).
Proof.
  destruct a as [| |v z]; [done..|]. unfold Unmap. destruct (Is4In6 _); [|done]. intros Hv.
  simpl. rewrite Z.land_ones by lia. apply Z.mod_pos_bound. lia.
Qed.

(** The normal form is never a mapped IPv6 address, so [Unmap] is idempotent. *)
Lemma Unmap_not_4in6 a : Is4In6 (Unmap a) = false.
Proof.
  destruct a as [| |v z]; [done..|]. unfold Unmap.
  destruct (Is4In6 (Addr6 v z)) eqn:E; [done|exact E].
Qed.

Lemma Unmap_idemp a : Unmap (Unmap a) = Unmap a.
Proof.
  destruct a as [| |v z]; [done..|]. unfold Unmap.
  destruct (Is4In6 (Addr6 v z)) eqn:E; [done|]. by rewrite E.
Qed.

Lemma Unmap_id a : Is4In6 a = false → Unmap a = a.
Proof. destruct a; [done..|]. unfold Unmap. by intros ->. Qed.

(** The IPv4 address a mapped IPv6 address stands for. *)
Lemma Unmap_mapped v z : 0 <= v < 2 ^ 32 →
  Unmap (Addr6 (0xffff * 2 ^ 32 + v) z) = Addr4 v.
Proof.
  intros Hv. unfold Unmap, Is4In6.
  rewrite Z.shiftr_div_pow2 by lia. rewrite Z.div_add_l by lia.
  rewrite (Z.div_small v) by lia. rewrite Z.add_0_r, Z.eqb_refl. f_equal.
  rewrite Z.land_ones by lia. rewrite Z.add_comm, Z_mod_plus_full. by apply Z.mod_small.
Qed.

(** ** Containment and overlap, by the bits they compare *)
Definition same_family (a b : addr) : bool :=
  match a, b with Addr4 _, Addr4 _ | Addr6 _ _, Addr6 _ _ => true | _, _ => false end.

(** The leading [n] bits of [a]. *)
Definition lead (n : Z) (a : addr) : Z := Z.shiftr (bits_of a) (BitLen a - n).

Lemma Contains_spec p a : wf_prefix p → wf_addr a →
  Contains p a = true ↔
    same_family (paddr p) a = true ∧ hasZone a = false ∧ lead (pbits p) a = lead (pbits p) (paddr p).
Proof.
  destruct p as [pa n]. intros (Hpa & Hz & Hv & Hn) Ha. simpl in *.
  unfold Contains, lead, PIsValid. simpl.
  replace (0 <=? n) with true by (symmetry; apply Z.leb_le; lia). simpl.
  destruct (hasZone a) eqn:Hza; [naive_solver|].
  destruct pa as [|v|v z], a as [|u|u zu]; simpl in *; try naive_solver.
  - rewrite Z.eqb_eq, lxor_shiftr_zero by lia. naive_solver.
  - rewrite Z.eqb_eq, land_lxor_mask_zero by lia. naive_solver.
Qed.

Lemma lead_trans m n a b : 0 <= m <= n → n <= BitLen a → BitLen a = BitLen b →
  lead n a = lead n b → lead m a = lead m b.
Proof.
  intros Hmn Hn HL H. unfold lead in *. rewrite <- HL in *.
  replace (BitLen a - m) with ((BitLen a - n) + (n - m)) by lia.
  by rewrite <- !Z.shiftr_shiftr, H by lia.
Qed.

Lemma same_family_bitlen a b : same_family a b = true → BitLen a = BitLen b.
Proof. by destruct a, b. Qed.

Lemma same_family_sym a b : same_family a b = same_family b a.
Proof. by destruct a, b. Qed.

Lemma same_family_trans a b c :
  same_family a b = true → same_family b c = true → same_family a c = true.
Proof. by destruct a, b, c. Qed.

Lemma AddrPrefix_wf a n : wf_addr a → IsValid a = true → 0 <= n <= BitLen a → hasZone a = false →
  AddrPrefix a n = Some (Prefix (set_bits a (Z.land (bits_of a) (mask (BitLen a) n))) n).
Proof.
  intros Ha Hv Hn Hz. unfold AddrPrefix, PrefixFrom.
  replace (n <? 0) with false by (symmetry; apply Z.ltb_ge; lia).
  destruct a as [|v|v z]; simpl in *; [done|..].
  - replace (32 <? n) with false by (symmetry; apply Z.ltb_ge; lia).
    replace (0 <=? n) with true by (symmetry; apply Z.leb_le; lia).
    replace (n <=? 32) with true by (symmetry; apply Z.leb_le; lia). done.
  - apply negb_false_iff, bool_decide_eq_true_1 in Hz as ->.
    replace (128 <? n) with false by (symmetry; apply Z.ltb_ge; lia).
    replace (0 <=? n) with true by (symmetry; apply Z.leb_le; lia).
    replace (n <=? 128) with true by (symmetry; apply Z.leb_le; lia). done.
Qed.

Lemma hasZone_nil v z : hasZone (Addr6 v z) = false → z = EmptyString.
Proof. simpl. intros H. by apply negb_false_iff, bool_decide_eq_true_1 in H. Qed.

Lemma set_bits_inj a b x y : same_family a b = true → hasZone a = false → hasZone b = false →
  set_bits a x = set_bits b y ↔ x = y.
Proof.
  destruct a as [|u|u zu], b as [|v|v zv]; intros Hf Ha Hb; try done; simpl.
  - split; congruence.
  - apply hasZone_nil in Ha as ->. apply hasZone_nil in Hb as ->. split; congruence.
Qed.

Lemma Is4_family a b : IsValid a = true → IsValid b = true →
  Bool.eqb (Is4 a) (Is4 b) = same_family a b.
Proof. by destruct a, b. Qed.

Lemma Overlaps_spec p o : wf_prefix p → wf_prefix o →
  Overlaps p o = true ↔
    same_family (paddr p) (paddr o) = true ∧
    lead (pbits p `min` pbits o) (paddr p) = lead (pbits p `min` pbits o) (paddr o).
Proof.
  intros (Hp & Hzp & Hvp & Hnp) (Ho & Hzo & Hvo & Hno).
  unfold Overlaps, PIsValid.
  replace (0 <=? pbits p) with true by (symmetry; apply Z.leb_le; lia).
  replace (0 <=? pbits o) with true by (symmetry; apply Z.leb_le; lia).
  cbv beta iota delta [negb orb]. destruct (decide (p = o)) as [<-|Hne].
  { split; [|done]. intros _. split; [by destruct (paddr p)|done]. }
  pose proof (Is4_family _ _ Hvp Hvo) as Hfam. unfold negb in *. rewrite Hfam.
  destruct (same_family (paddr p) (paddr o)) eqn:Hf; [|naive_solver].
  pose proof (same_family_bitlen _ _ Hf) as HL.
  set (m := pbits p `min` pbits o). assert (0 <= m <= BitLen (paddr p)) as Hm by lia.
  destruct (m =? 0) eqn:Hm0.
  { apply Z.eqb_eq in Hm0. rewrite Hm0. split; [|done]. intros _. split; [done|].
    unfold lead. rewrite !Z.sub_0_r, !Z.shiftr_div_pow2 by lia.
    rewrite !Z.div_small; [done|..]; by apply wf_addr_bits. }
  rewrite !AddrPrefix_wf by (done || lia). simpl.
  pose proof (wf_addr_bits _ Hvp Hp) as Hbp. pose proof (wf_addr_bits _ Hvo Ho) as Hbo.
  rewrite bool_decide_eq_true, set_bits_inj by done.
  rewrite <- HL in *. rewrite land_mask_inj by done.
  unfold lead. rewrite <- HL. naive_solver.
Qed.

(** Two prefixes overlap exactly when some address lies in both. *)
Lemma Overlaps_iff p o : wf_prefix p → wf_prefix o →
  Overlaps p o = true ↔ ∃ a, plain a ∧ Contains p a = true ∧ Contains o a = true.
Proof.
  intros Hp Ho. rewrite Overlaps_spec by done. split.
  - intros [Hf Hl]. pose proof Hp as (Hpa & Hzp & Hvp & Hnp). pose proof Ho as (Hoa & Hzo & Hvo & Hno).
    destruct (decide (pbits p <= pbits o)) as [Hle|Hgt].
    + exists (paddr o). rewrite Z.min_l in Hl by lia. rewrite !Contains_spec by done.
      repeat split; try done. by destruct (paddr o).
    + exists (paddr p). rewrite Z.min_r in Hl by lia. rewrite !Contains_spec by done.
      repeat split; try done; [by destruct (paddr p)|]. by rewrite same_family_sym.
  - intros (a & (Ha & Hva & Hza) & Hc1 & Hc2).
    apply Contains_spec in Hc1 as (Hf1 & _ & Hl1); [|done..].
    apply Contains_spec in Hc2 as (Hf2 & _ & Hl2); [|done..].
    destruct Hp as (_ & _ & _ & Hnp), Ho as (_ & _ & _ & Hno).
    pose proof (same_family_bitlen _ _ Hf1) as HL1. pose proof (same_family_bitlen _ _ Hf2) as HL2.
    split. { eapply same_family_trans; [done|]. by rewrite same_family_sym. }
    transitivity (lead (pbits p `min` pbits o) a).
    + symmetry. eapply (lead_trans _ (pbits p)); [lia..|done].
    + eapply (lead_trans _ (pbits o)); [lia..|done].
Qed.

(** ** Host prefixes and mapped prefixes *)
Lemma PrefixFrom_wf a n : plain a → 0 <= n <= BitLen a → PrefixFrom a n = Prefix a n ∧ wf_prefix (Prefix a n).
Proof.
  intros (Ha & Hv & Hz) Hn. unfold PrefixFrom. rewrite Hv.
  replace (0 <=? n) with true by (symmetry; apply Z.leb_le; lia).
  replace (n <=? BitLen a) with true by (symmetry; apply Z.leb_le; lia). simpl.
  split; [|by unfold wf_prefix; simpl; repeat split; try lia]. destruct a as [| |v z]; [done..|]. by rewrite (hasZone_nil _ _ Hz).
Qed.

(** The host prefix of an address contains that address only. *)
Lemma host_contains a b : plain a → wf_addr b → Contains (PrefixFrom a (BitLen a)) b = true ↔ b = a.
Proof.
  intros Hp Hb. pose proof Hp as (Ha & Hv & Hz).
  assert (0 <= BitLen a) by (by destruct a).
  destruct (PrefixFrom_wf a (BitLen a) Hp) as [-> Hwf]; [lia|].
  rewrite Contains_spec by done. simpl. unfold lead. rewrite Z.sub_diag. split.
  - intros (Hf & Hzb & Hl). rewrite <- (same_family_bitlen _ _ Hf), Z.sub_diag, !Z.shiftr_0_r in Hl.
    destruct a as [|v|v z], b as [|u|u y]; simpl in *; try done; [congruence|].
    apply negb_false_iff, bool_decide_eq_true_1 in Hz as ->.
    apply negb_false_iff, bool_decide_eq_true_1 in Hzb as ->. congruence.
  - intros ->. split; [by destruct a|]. split; [done|]. by rewrite Z.sub_diag.
Qed.

Lemma Unmap_plain a : plain a → plain (Unmap a).
Proof.
  intros (Ha & Hv & Hz). split; [by apply Unmap_wf|]. split; [by rewrite Unmap_valid|].
  destruct a as [| |v z]; [done..|]. unfold Unmap. by destruct (Is4In6 _).
Qed.

(** A mapped prefix of 96 bits or more is its IPv4 prefix, on mapped addresses. *)
Lemma mapped_contains q a : wf_prefix q → Is4In6 (paddr q) = true → 96 <= pbits q →
  plain a → Is4In6 a = true →
  Contains (PrefixFrom (Unmap (paddr q)) (pbits q - 96)) (Unmap a) = Contains q a.
Proof.
  intros Hq Hm Hb Hp Ham. pose proof Hq as (Hqa & Hqz & Hqv & Hqb). destruct q as [qa n]. simpl in *.
  destruct qa as [| |v z]; [done..|]. apply hasZone_nil in Hqz as ->. simpl in Hqb.
  destruct a as [| |u y]; [done..|]. pose proof Hp as (Hua & _ & Huz). apply hasZone_nil in Huz as ->.
  assert (∀ x, Is4In6 (Addr6 x EmptyString) = true → Unmap (Addr6 x EmptyString) = Addr4 (Z.land x (Z.ones 32))) as Hun.
  { intros x Hx. unfold Unmap. by rewrite Hx. }
  assert (∀ x, 0 <= Z.land x (Z.ones 32) < 2 ^ 32) as Hr.
  { intros x. rewrite Z.land_ones by lia. apply Z.mod_pos_bound. lia. }
  destruct (PrefixFrom_wf (Unmap (Addr6 v EmptyString)) (n - 96)) as [-> Hwf].
  { by apply Unmap_plain. }
  { rewrite (Hun v Hm). simpl. lia. }
  apply eq_true_iff_eq. rewrite (Contains_spec _ _ Hwf (Unmap_wf _ Hua)), (Contains_spec _ _ Hq Hua).
  rewrite (Hun v Hm), (Hun u Ham). cbn [paddr pbits same_family hasZone]. unfold lead. cbn [bits_of BitLen].
  replace (32 - (n - 96)) with (128 - n) by lia. set (k := 128 - n).
  assert (∀ x, Z.shiftr (Z.land x (Z.ones 32)) k = Z.land (Z.shiftr x k) (Z.shiftr (Z.ones 32) k)) as Hs.
  { intros x. apply Z.shiftr_land. }
  rewrite !Hs. split; intros (_ & _ & H); (split; [reflexivity|]); (split; [reflexivity|]); [|by rewrite H].
  apply Z.bits_inj'. intros i Hi. rewrite !Z.shiftr_spec by lia.
  destruct (decide (i + k < 32)) as [Hlt|Hge].
  - assert (Z.testbit (Z.land (Z.shiftr u k) (Z.shiftr (Z.ones 32) k)) i = Z.testbit (Z.land (Z.shiftr v k) (Z.shiftr (Z.ones 32) k)) i)
      as Hbit by (by rewrite H).
    rewrite !Z.land_spec, !Z.shiftr_spec, Z.ones_spec_low in Hbit by (unfold k in *; lia).
    by rewrite !andb_true_r in Hbit.
  - unfold Is4In6 in Hm, Ham. apply Z.eqb_eq in Hm, Ham.
    replace (i + k) with ((i + k - 32) + 32) by lia. rewrite <- !Z.shiftr_spec by lia. congruence.
Qed.

Lemma unmapped_prefix_wf q : wf_prefix q → Is4In6 (paddr q) = true → 96 <= pbits q →
  wf_prefix (PrefixFrom (Unmap (paddr q)) (pbits q - 96)).
Proof.
  intros (Ha & Hz & Hv & Hb) Em Hn.
  assert (BitLen (Unmap (paddr q)) = 32 ∧ BitLen (paddr q) = 128) as [H1 H2].
  { revert Em. clear. destruct (paddr q) as [| |x z]; [discriminate..|]. unfold Unmap. intros ->. by split. }
  destruct (PrefixFrom_wf (Unmap (paddr q)) (pbits q - 96)) as [-> Hwf]; [|lia|exact Hwf].
  apply Unmap_plain. exact (conj Ha (conj Hv Hz)).
Qed.

(** Masking keeps the addresses a prefix contains. *)
Lemma Masked_wf p : wf_prefix p → wf_prefix (Masked p).
Proof.
  intros (Ha & Hz & Hv & Hb). unfold Masked. rewrite AddrPrefix_wf by done.
  pose proof (wf_addr_bits _ Hv Ha) as Hr. pose proof (land_mask_range _ _ Hb _ Hr) as Hm.
  destruct p as [[|v|v z] n]; [done|..]; repeat split; simpl in *; try done; lia.
Qed.

Lemma Masked_contains p a : wf_prefix p → wf_addr a → Contains (Masked p) a = Contains p a.
Proof.
  intros Hp Ha. apply eq_true_iff_eq. rewrite !Contains_spec by (done || by apply Masked_wf).
  pose proof Hp as (Hpa & Hz & Hv & Hb). unfold Masked. rewrite AddrPrefix_wf by done.
  pose proof (wf_addr_bits _ Hv Hpa) as Hr. pose proof (shiftr_land_mask _ _ Hb _ Hr) as Hs.
  destruct p as [[|v|v z] n]; [done|..]; unfold lead; simpl in *; by rewrite Hs.
Qed.
