(* ===== verification/GoStrings.v ===== *)
(** The string operations of Go's standard library the program uses, on byte
    strings: [strings.HasPrefix], [Contains], [IndexByte], [LastIndexByte],
    [Split], [Fields], [TrimSpace], [Join], [ToLower], [EqualFold],
    [strconv] decimal and hexadecimal parsing, and [time.Duration.String].
    White space and letter case are the ASCII ones. *)
From Stdlib Require Import Ascii.
From S2P Require Import Prelude.

#[global] Arguments String.append !_ _ / : simpl nomatch.

Abbreviation str_len := String.length (only parsing).

(** Decimal rendering, as [%d] prints it. *)
Definition show_Z (n : Z) : string := pretty n.

Fixpoint has_prefix (p s : string) : bool :=
  match p, s with
  | EmptyString, _ => true
  | String a p, String b s => if decide (a = b) then has_prefix p s else false
  | _, EmptyString => false
  end.

Fixpoint str_contains (s sub : string) : bool :=
  has_prefix sub s ||
  match s with EmptyString => false | String _ s => str_contains s sub end.

(** The text before the first [c] and, when there is one, the text after it. *)
Fixpoint cut (c : ascii) (s : string) : string * option string :=
  match s with
  | EmptyString => (EmptyString, None)
  | String a s => if decide (a = c) then (EmptyString, Some s)
                  else let '(l, r) := cut c s in (String a l, r)
  end.

(** The text before and after the last [c]. *)
Fixpoint cut_last (c : ascii) (s : string) : option (string * string) :=
  match s with
  | EmptyString => None
  | String a s =>
    match cut_last c s with
    | Some (l, r) => Some (String a l, r)
    | None => if decide (a = c) then Some (EmptyString, s) else None
    end
  end.

(** [strings.Split] on a one-byte separator. *)
Fixpoint split_on (c : ascii) (s : string) : list string :=
  match s with
  | EmptyString => [EmptyString]
  | String a s =>
    match split_on c s with
    | [] => []
    | w :: ws => if decide (a = c) then EmptyString :: w :: ws else String a w :: ws
    end
  end.

Definition is_space (a : ascii) : bool :=
  let n := Ascii.N_of_ascii a in
  ((n =? 32) || ((9 <=? n) && (n <=? 13)))%N.

Fixpoint trim_left (s : string) : string :=
  match s with
  | EmptyString => EmptyString
  | String a s' => if is_space a then trim_left s' else s
  end.

Fixpoint trim_right (s : string) : string :=
  match s with
  | EmptyString => EmptyString
  | String a s' =>
    match trim_right s' with
    | EmptyString => if is_space a then EmptyString else String a EmptyString
    | t => String a t
    end
  end.

Definition TrimSpace (s : string) : string := trim_right (trim_left s).

(** [strings.Fields]: the maximal runs of non-space bytes. *)
Fixpoint fields_aux (s : string) : string * list string :=
  match s with
  | EmptyString => (EmptyString, [])
  | String a s =>
    let '(w, ws) := fields_aux s in
    if is_space a
    then (EmptyString, match w with EmptyString => ws | _ => w :: ws end)
    else (String a w, ws)
  end.

Definition StrFields (s : string) : list string :=
  let '(w, ws) := fields_aux s in
  match w with EmptyString => ws | _ => w :: ws end.

Fixpoint Join (ws : list string) (sep : string) : string :=
  match ws with
  | [] => EmptyString
  | [w] => w
  | w :: ws => w +:+ sep +:+ Join ws sep
  end.

Definition lower_ascii (a : ascii) : ascii :=
  let n := Ascii.N_of_ascii a in
  if ((65 <=? n) && (n <=? 90))%N then Ascii.ascii_of_N (n + 32) else a.

Fixpoint ToLower (s : string) : string :=
  match s with
  | EmptyString => EmptyString
  | String a s => String (lower_ascii a) (ToLower s)
  end.

Definition EqualFold (s t : string) : bool := bool_decide (ToLower s = ToLower t).

(** The first [n] bytes. *)
Fixpoint str_take (n : nat) (s : string) : string :=
  match n, s with
  | S n, String a s => String a (str_take n s)
  | _, _ => EmptyString
  end.

Fixpoint str_drop (n : nat) (s : string) : string :=
  match n, s with
  | S n, String _ s => str_drop n s
  | _, _ => s
  end.

(** ** Digits *)
Definition digit_val (a : ascii) : option Z :=
  let n := Z.of_N (Ascii.N_of_ascii a) in
  if (48 <=? n) && (n <=? 57) then Some (n - 48) else None.

Definition hex_val (a : ascii) : option Z :=
  let n := Z.of_N (Ascii.N_of_ascii a) in
  if (48 <=? n) && (n <=? 57) then Some (n - 48)
  else if (97 <=? n) && (n <=? 102) then Some (n - 87)
  else if (65 <=? n) && (n <=? 70) then Some (n - 55)
  else None.

Fixpoint parse_base (dv : ascii → option Z) (base acc : Z) (s : string) : option Z :=
  match s with
  | EmptyString => Some acc
  | String a s => match dv a with
                  | Some d => parse_base dv base (acc * base + d) s
                  | None => None
                  end
  end.

(** [strconv.ParseUint(s, base, bits)] for base 10 and 16: digits only, at
    least one, and the value must fit. *)
Definition ParseUint (dv : ascii → option Z) (base bits : Z) (s : string) : option Z :=
  match s with
  | EmptyString => None
  | _ => match parse_base dv base 0 s with
         | Some n => if n <? 2 ^ bits then Some n else None
         | None => None
         end
  end.

Definition ParseUint10 := ParseUint digit_val 10.
Definition ParseUint16 := ParseUint hex_val 16.

(** [strconv.Atoi]: a sign, decimal digits, 64 bits. *)
Definition Atoi (s : string) : option Z :=
  match s with
  | String c t =>
    if bool_decide (c = "-"%char) then n ← ParseUint10 64 t; if n <=? 2 ^ 63 then Some (- n) else None
    else n ← ParseUint10 64 (if bool_decide (c = "+"%char) then t else s); if n <? 2 ^ 63 then Some n else None
  | EmptyString => None
  end.

(** [hex.DecodeString]. *)
Fixpoint hex_decode (s : string) : option (list Z) :=
  match s with
  | EmptyString => Some []
  | String a (String b s) =>
    match hex_val a, hex_val b, hex_decode s with
    | Some x, Some y, Some bs => Some (x * 16 + y :: bs)
    | _, _, _ => None
    end
  | String _ EmptyString => None
  end.

(** ** Decimal fractions and durations *)

(** [n] digits of [v], most significant first. *)
Fixpoint digits (n : nat) (v : Z) : string :=
  match n with
  | O => EmptyString
  | S n => digits n (v `div` 10) +:+ String (Ascii.ascii_of_N (Z.to_N (48 + v `mod` 10))) EmptyString
  end.

Fixpoint trim_zeros (s : string) : string :=
  match s with
  | EmptyString => EmptyString
  | String a s' =>
    match trim_zeros s' with
    | EmptyString => if decide (a = "0"%char) then EmptyString else String a EmptyString
    | t => String a t
    end
  end.

(** The fraction [v / 10^n] without trailing zeros, with its point unless it is zero. *)
Definition frac (n : nat) (v : Z) : string :=
  match trim_zeros (digits n v) with
  | EmptyString => EmptyString
  | t => String "." t
  end.

(** [time.Duration.String]. *)
Definition dur_string (d : duration) : string :=
  let u := Z.abs d in
  let sign := if d <? 0 then "-" else EmptyString in
  let body :=
    if u =? 0 then "0s"
    else if u <? Microsecond then show_Z u +:+ "ns"
    else if u <? Millisecond then
      show_Z (u `div` 1000) +:+ frac 3 (u `mod` 1000) +:+
      String (Ascii.ascii_of_N 194) (String (Ascii.ascii_of_N 181) "s")
    else if u <? Second then
      show_Z (u `div` 1000000) +:+ frac 6 (u `mod` 1000000) +:+ "ms"
    else
      let s := u `div` Second in
      let secs := show_Z (s `mod` 60) +:+ frac 9 (u `mod` Second) +:+ "s" in
      let m := s `div` 60 in
      if m =? 0 then secs
      else
        let mins := show_Z (m `mod` 60) +:+ "m" +:+ secs in
        let h := m `div` 60 in
        if h =? 0 then mins else show_Z h +:+ "h" +:+ mins in
  sign +:+ body.

Example dur_string_minute : dur_string Minute = "1m0s".
Proof. vm_compute. reflexivity. Qed.
Example dur_string_frac : dur_string (1500 * Millisecond) = "1.5s".
Proof. vm_compute. reflexivity. Qed.
Example dur_string_hours : dur_string (168 * Hour) = "168h0m0s".
Proof. vm_compute. reflexivity. Qed.

(** ** Lemmas *)
Lemma has_prefix_app p s : has_prefix p (p +:+ s) = true.
Proof. induction p as [|a p IH]; simpl; [done|]. by rewrite decide_True. Qed.

Lemma has_prefix_spec p s : has_prefix p s = true ↔ ∃ t, s = p +:+ t.
Proof.
  split; [|intros [t ->]; apply has_prefix_app].
  revert s. induction p as [|a p IH]; intros s; simpl; [eauto|].
  destruct s as [|b s]; [done|]. case_decide; [|done]. intros [t ->]%IH. subst. by exists t.
Qed.

Lemma str_app_assoc (a b c : string) : (a +:+ b) +:+ c = a +:+ (b +:+ c).
Proof. induction a as [|x a IH]; simpl; [done|]. by rewrite IH. Qed.

Lemma str_app_nil_r (a : string) : a +:+ EmptyString = a.
Proof. induction a as [|x a IH]; simpl; [done|]. by rewrite IH. Qed.

Lemma str_app_inj (a b c : string) : a +:+ b = a +:+ c → b = c.
Proof. induction a as [|x a IH]; simpl; [done|]. intros [= H]. by apply IH. Qed.

Lemma str_length_app a b : str_len (a +:+ b) = (str_len a + str_len b)%nat.
Proof. induction a as [|x a IH]; simpl; [done|]. by rewrite IH. Qed.

(** [strings.Contains] finds exactly the substrings. *)
Lemma str_contains_spec s sub : str_contains s sub = true ↔ ∃ a b, s = a +:+ sub +:+ b.
Proof.
  induction s as [|c s IH]; simpl.
  - rewrite orb_false_r, has_prefix_spec. split.
    + intros [t Ht]. by exists EmptyString, t.
    + intros (a & b & H). destruct a; simpl in *; [|done]. eauto.
  - rewrite orb_true_iff, has_prefix_spec, IH. split.
    + intros [[t Ht]|(a & b & ->)]; [by exists EmptyString, t|]. by exists (String c a), b.
    + intros (a & b & H). destruct a as [|x a]; simpl in *; [by left; exists b|].
      right. simplify_eq. eauto.
Qed.

Lemma cut_spec c s l r : cut c s = (l, r) →
  s = l +:+ match r with None => EmptyString | Some t => String c t end.
Proof.
  revert l r. induction s as [|a s IH]; intros l r; simpl; [by intros [= <- <-]|].
  case_decide; [by intros [= <- <-]; subst|].
  destruct (cut c s) as [l' r'] eqn:E. intros [= <- <-]. simpl. f_equal. by apply IH.
Qed.

Lemma str_take_length n s : (str_len (str_take n s) ≤ n)%nat.
Proof. revert s. induction n as [|n IH]; intros [|a s]; simpl; try lia. specialize (IH s). lia. Qed.

Lemma str_take_ge n s : (str_len s ≤ n)%nat → str_take n s = s.
Proof.
  revert s. induction n as [|n IH]; intros [|a s]; simpl; intros; try done; try lia.
  rewrite IH; [done|lia].
Qed.

Lemma Join_cons w ws sep : ws ≠ [] → Join (w :: ws) sep = w +:+ sep +:+ Join ws sep.
Proof. by destruct ws. Qed.

Lemma ToLower_length s : str_len (ToLower s) = str_len s.
Proof. induction s as [|a s IH]; simpl; [done|]. by rewrite IH. Qed.

Lemma lower_ascii_idemp a : lower_ascii (lower_ascii a) = lower_ascii a.
Proof. by destruct a as [[] [] [] [] [] [] [] []]. Qed.

Lemma ToLower_idemp s : ToLower (ToLower s) = ToLower s.
Proof. induction s as [|a s IH]; simpl; [done|]. by rewrite IH, lower_ascii_idemp. Qed.

Create Rewrite HintDb str.
#[export] Hint Rewrite str_app_assoc str_app_nil_r str_length_app : str.

(** ** Splitting and joining lines *)
Fixpoint no_char (c : ascii) (s : string) : bool :=
  match s with EmptyString => true | String a s => negb (bool_decide (a = c)) && no_char c s end.

Lemma split_on_cons c s : ∃ w ws, split_on c s = w :: ws.
Proof.
  induction s as [|a s (w & ws & IH)]; simpl; [eauto|].
  rewrite IH. case_decide; eauto.
Qed.

Lemma Join_split c s : Join (split_on c s) (String c EmptyString) = s.
Proof.
  induction s as [|a s IH]; [done|]. simpl.
  destruct (split_on_cons c s) as (w & ws & E). rewrite E in *.
  destruct (decide (a = c)) as [->|].
  - by rewrite Join_cons, IH.
  - destruct ws as [|w' ws]; simpl in *; by rewrite IH.
Qed.

Lemma split_on_no_char c s w : w ∈ split_on c s → no_char c w = true.
Proof.
  revert w. induction s as [|a s IH]; intros w; simpl.
  { by intros ->%list_elem_of_singleton. }
  destruct (split_on_cons c s) as (x & xs & E). rewrite E in *.
  destruct (decide (a = c)) as [->|]; rewrite ?elem_of_cons.
  - intros [->|Hw]; [done|]. apply IH. by rewrite elem_of_cons.
  - intros [->|Hw]; [|apply IH; by rewrite elem_of_cons; right].
    simpl. rewrite bool_decide_eq_false_2 by done. simpl. apply IH. by left.
Qed.

Lemma split_on_single c w : no_char c w = true → split_on c w = [w].
Proof.
  induction w as [|a w IH]; simpl; [done|]. intros [Ha Hw]%andb_true_iff.
  rewrite IH by done. apply negb_true_iff, bool_decide_eq_false_1 in Ha.
  by rewrite decide_False.
Qed.

Lemma split_on_app c w s : no_char c w = true → split_on c (w +:+ String c s) = w :: split_on c s.
Proof.
  intros Hw. induction w as [|a w IH]; simpl.
  - destruct (split_on_cons c s) as (x & xs & E). rewrite E. by rewrite decide_True.
  - simpl in Hw. apply andb_true_iff in Hw as [Ha Hw]. rewrite IH by done.
    apply negb_true_iff, bool_decide_eq_false_1 in Ha. by rewrite decide_False.
Qed.

Lemma split_Join c ws : ws ≠ [] → Forall (λ w, no_char c w = true) ws →
  split_on c (Join ws (String c EmptyString)) = ws.
Proof.
  induction ws as [|w ws IH]; [done|]. intros _ [Hw Hws]%Forall_cons.
  destruct ws as [|w' ws]; [by apply split_on_single|].
  rewrite Join_cons by done. simpl (String c EmptyString +:+ _). rewrite split_on_app by done.
  f_equal. by apply IH.
Qed.

Lemma no_char_app c a b : no_char c (a +:+ b) = no_char c a && no_char c b.
Proof. induction a as [|x a IH]; simpl; [done|]. by rewrite IH, andb_assoc. Qed.

Lemma Join_at pre post sep : ∃ a b, ∀ y, Join (pre ++ y :: post) sep = a +:+ y +:+ b.
Proof.
  induction pre as [|w pre (a & b & IH)]; simpl.
  - destruct post as [|z post]; [exists EmptyString, EmptyString; intros y; by rewrite str_app_nil_r|].
    exists EmptyString, (sep +:+ Join (z :: post) sep). intros y. done.
  - exists (w +:+ sep +:+ a), b. intros y. specialize (IH y).
    rewrite !str_app_assoc, <- IH. by destruct pre.
Qed.

(** ** Words without white space *)
Fixpoint no_space (s : string) : bool :=
  match s with EmptyString => true | String a s => negb (is_space a) && no_space s end.

Lemma no_space_app a b : no_space (a +:+ b) = no_space a && no_space b.
Proof. induction a as [|x a IH]; simpl; [done|]. rewrite IH. by rewrite andb_assoc. Qed.

Lemma StrFields_space s : StrFields (String " "%char s) = StrFields s.
Proof. unfold StrFields. simpl. destruct (fields_aux s) as [w ws]. by destruct w. Qed.

Lemma StrFields_word w s : no_space w = true → w ≠ EmptyString →
  StrFields (w +:+ String " "%char s) = w :: StrFields s.
Proof.
  intros Hw Hne. assert (fields_aux (w +:+ String " "%char s) = (w, StrFields s)) as E.
  { clear Hne. induction w as [|a w IH]; simpl.
    - unfold StrFields. by destruct (fields_aux s) as [[] ?].
    - simpl in Hw. bool_hyps. rewrite IH by done. by rewrite H. }
  unfold StrFields at 1. rewrite E. by destruct w.
Qed.

Lemma cut_last_None c s : no_char c s = true → cut_last c s = None.
Proof.
  induction s as [|a s IH]; simpl; [done|]. intros [Ha Hs]%andb_true_iff. rewrite (IH Hs).
  bool_hyps. by rewrite decide_False.
Qed.

Lemma cut_last_app c a b : no_char c b = true → cut_last c (a +:+ String c b) = Some (a, b).
Proof.
  intros Hb. induction a as [|x a IH]; simpl; [|by rewrite IH].
  rewrite cut_last_None by done. by rewrite decide_True.
Qed.

(** ** Suffixes: [strings.HasSuffix], [TrimSuffix] *)
Fixpoint has_suffix (p s : string) : bool :=
  bool_decide (s = p) || match s with EmptyString => false | String _ s => has_suffix p s end.

Fixpoint TrimSuffix (p s : string) : string :=
  if bool_decide (s = p) then EmptyString else
  match s with EmptyString => EmptyString | String c s => String c (TrimSuffix p s) end.

Lemma has_suffix_spec p s : has_suffix p s = true ↔ ∃ t, s = t +:+ p.
Proof.
  induction s as [|c s IH]; simpl; rewrite orb_true_iff, bool_decide_eq_true; [|rewrite IH]; split.
  - intros [<-|?]; [by exists EmptyString|done].
  - intros ([|c t] & Ht); [by left|done].
  - intros [<-|(t & ->)]; [by exists EmptyString|by exists (String c t)].
  - intros ([|d t] & Ht); simpl in *; [by left|right]. exists t. congruence.
Qed.

Lemma TrimSuffix_spec p s : if has_suffix p s then s = TrimSuffix p s +:+ p else TrimSuffix p s = s.
Proof.
  induction s as [|c s IH]; simpl; case_bool_decide; simpl; try done.
  destruct (has_suffix p s); f_equal; done.
Qed.

(** ** Texts over a set of characters *)
Fixpoint str_forall (P : ascii → bool) (s : string) : bool :=
  match s with EmptyString => true | String a s => P a && str_forall P s end.

Lemma str_forall_app P a b : str_forall P (a +:+ b) = str_forall P a && str_forall P b.
Proof. induction a as [|c a IH]; simpl; [done|]. by rewrite IH, andb_assoc. Qed.

Lemma str_forall_impl (P Q : ascii → bool) s :
  (∀ a, P a = true → Q a = true) → str_forall P s = true → str_forall Q s = true.
Proof. intros H. induction s as [|a s IH]; simpl; [done|]. rewrite !andb_true_iff. naive_solver. Qed.

Lemma str_forall_no_char c s : str_forall (λ a, negb (bool_decide (a = c))) s = no_char c s.
Proof. induction s as [|a s IH]; simpl; [done|]. by rewrite IH. Qed.

Lemma str_forall_Join P ws sep :
  Forall (λ w, str_forall P w = true) ws → str_forall P sep = true → str_forall P (Join ws sep) = true.
Proof.
  intros Hws Hsep. induction Hws as [|w ws Hw Hws IH]; [done|].
  destruct ws as [|w' ws]; [done|]. rewrite Join_cons by done. rewrite !str_forall_app, Hw, Hsep, IH. done.
Qed.

Lemma no_char_forall c (P : ascii → bool) s : P c = false → str_forall P s = true → no_char c s = true.
Proof.
  intros Hc. rewrite <- str_forall_no_char. apply str_forall_impl. intros a Ha.
  destruct (decide (a = c)) as [->|Hn]; [congruence|]. by rewrite bool_decide_eq_false_2.
Qed.

Lemma cut_no_char c s : no_char c s = true → cut c s = (s, None).
Proof.
  induction s as [|a s IH]; simpl; [done|]. rewrite andb_true_iff, negb_true_iff, bool_decide_eq_false.
  intros [Ha Hs]. rewrite IH by done. by rewrite decide_False.
Qed.

(** ** Prefixes: [strings.CutPrefix], [TrimPrefix] *)
Definition CutPrefix (p s : string) : option string := if has_prefix p s then Some (str_drop (str_len p) s) else None.
Definition TrimPrefix (p s : string) : string := if has_prefix p s then str_drop (str_len p) s else s.

Lemma str_drop_app p s : str_drop (str_len p) (p +:+ s) = s.
Proof. induction p as [|a p IH]; simpl; [by destruct s|]. apply IH. Qed.

Lemma has_prefix_split p s : has_prefix p s = true → s = p +:+ str_drop (str_len p) s.
Proof. intros (t & ->)%has_prefix_spec. by rewrite str_drop_app. Qed.

Lemma TrimPrefix_app p s : TrimPrefix p (p +:+ s) = s.
Proof. unfold TrimPrefix. by rewrite has_prefix_app, str_drop_app. Qed.

Lemma CutPrefix_spec p s t : CutPrefix p s = Some t ↔ s = p +:+ t.
Proof.
  unfold CutPrefix. destruct (has_prefix p s) eqn:E.
  - apply has_prefix_split in E. split; [intros [= <-]; done|]. intros ->. by rewrite str_drop_app.
  - split; [done|]. intros ->. by rewrite has_prefix_app in E.
Qed.

(** [strings.TrimRight] of line ends. *)
Fixpoint TrimEOL (s : string) : string :=
  match s with
  | EmptyString => EmptyString
  | String a s =>
    match TrimEOL s with
    | EmptyString => if bool_decide (a = "010"%char ∨ a = "013"%char) then EmptyString else String a EmptyString
    | t => String a t
    end
  end.

Lemma TrimEOL_prefix s : ∃ t, s = TrimEOL s +:+ t.
Proof.
  induction s as [|a s (t & IH)]; simpl; [by exists EmptyString|].
  destruct (TrimEOL s) as [|b u]; simpl in *; [|exists t; by rewrite IH at 1].
  case_bool_decide; [by exists (String a s)|]. exists t. by rewrite IH at 1.
Qed.
