(* ===== verification/NetipParse.v ===== *)
(** Parsing and printing of addresses and prefixes: [netip.ParseAddr],
    [netip.ParsePrefix], [Addr.String], [Prefix.String], as the standard
    library defines them. *)
From Stdlib Require Import Ascii.
From S2P Require Import Prelude GoStrings Netip.

(** ** IPv4 *)

(** One octet: one to three digits, no leading zero, at most 255. *)
Definition parse_octet (s : string) : option Z :=
  match s with
  | EmptyString => None
  | String "0" (String _ _) => None
  | _ => match ParseUint10 32 s with
         | Some n => if n <=? 255 then Some n else None
         | None => None
         end
  end.

Definition parse_ipv4 (s : string) : option Z :=
  match split_on "." s with
  | [a; b; c; d] =>
    match parse_octet a, parse_octet b, parse_octet c, parse_octet d with
    | Some a, Some b, Some c, Some d => Some (((a * 256 + b) * 256 + c) * 256 + d)
    | _, _, _, _ => None
    end
  | _ => None
  end.

(** ** IPv6 *)

(** A run of hexadecimal digits and the rest of the text. *)
Fixpoint hex_run (s : string) : string * string :=
  match s with
  | EmptyString => (EmptyString, EmptyString)
  | String a s' => match hex_val a with
                   | Some _ => let '(l, r) := hex_run s' in (String a l, r)
                   | None => (EmptyString, s)
                   end
  end.

(** The groups read so far (reversed), and the number of groups before the
    ellipsis when there is one.  [n] is the number of 16-bit groups left. *)
Fixpoint parse_groups (n : nat) (s : string) (acc : list Z) (ell : option nat)
    : option (list Z * option nat) :=
  match n with
  | O => if decide (s = EmptyString) then Some (acc, ell) else None
  | S n' =>
    let '(h, r) := hex_run s in
    if (str_len h =? 0)%nat || (4 <? str_len h)%nat then None else
    match r with
    | String "." _ =>
      if bool_decide (ell = None) && negb (n =? 2)%nat then None
      else if (n <? 2)%nat then None
      else match parse_ipv4 s with
           | Some v => Some (v `mod` 2 ^ 16 :: v `div` 2 ^ 16 :: acc, ell)
           | None => None
           end
    | _ =>
      match ParseUint16 16 h with
      | None => None
      | Some g =>
        let acc := g :: acc in
        match r with
        | EmptyString => Some (acc, ell)
        | String ":" EmptyString => None
        | String ":" (String ":" r') =>
          match ell with
          | Some _ => None
          | None =>
            match r' with
            | EmptyString => Some (acc, Some (length acc))
            | _ => parse_groups n' r' acc (Some (length acc))
            end
          end
        | String ":" r' => parse_groups n' r' acc ell
        | _ => None
        end
      end
    end
  end.

(** Eight groups, the ellipsis standing for at least one group of zeros. *)
Definition expand_groups (gs : list Z) (ell : option nat) : option (list Z) :=
  match ell with
  | None => if (length gs =? 8)%nat then Some gs else None
  | Some k => if (length gs <? 8)%nat
              then Some (take k gs ++ replicate (8 - length gs) 0 ++ drop k gs)
              else None
  end.

Definition groups_value (gs : list Z) : Z := fold_left (λ v g, v * 2 ^ 16 + g) gs 0.

Definition parse_ipv6 (s : string) : option addr :=
  let '(body, zo) := cut "%" s in
  match zo with
  | Some EmptyString => None
  | _ =>
    let zone := default EmptyString zo in
    let r := match body with
             | String ":" (String ":" EmptyString) => Some ([], Some 0%nat)
             | String ":" (String ":" b) => parse_groups 8 b [] (Some 0%nat)
             | b => parse_groups 8 b [] None
             end in
    match r with
    | Some (acc, ell) =>
      match expand_groups (reverse acc) ell with
      | Some gs => Some (Addr6 (groups_value gs) zone)
      | None => None
      end
    | None => None
    end
  end.

(** The first of [.], [:], [%] decides. *)
Fixpoint first_mark (s : string) : option ascii :=
  match s with
  | EmptyString => None
  | String a s => if bool_decide (a = "."%char) || bool_decide (a = ":"%char) || bool_decide (a = "%"%char)
                  then Some a else first_mark s
  end.

Definition ParseAddr (s : string) : option addr :=
  match first_mark s with
  | Some "."%char => Addr4 <$> parse_ipv4 s
  | Some ":"%char => parse_ipv6 s
  | _ => None
  end.

Definition ParsePrefix (s : string) : option prefix :=
  match cut_last "/" s with
  | None => None
  | Some (l, bs) =>
    match ParseAddr l with
    | None => None
    | Some a =>
      if hasZone a then None
      else match bs with
           | String "0" (String _ _) => None
           | _ => match ParseUint10 63 bs with
                  | Some n => if n <=? BitLen a then Some (PrefixFrom a n) else None
                  | None => None
                  end
           end
    end
  end.

(** ** Printing *)
Definition show_v4 (v : Z) : string :=
  Join (show_Z <$> [v `div` 2 ^ 24; (v `div` 2 ^ 16) `mod` 256; (v `div` 2 ^ 8) `mod` 256; v `mod` 256]) ".".

Definition hex_digit (d : Z) : ascii :=
  Ascii.ascii_of_N (Z.to_N (if d <? 10 then 48 + d else 87 + d)).

(** At most four hexadecimal digits, without leading zeros. *)
Definition show_hex16 (g : Z) : string :=
  let d3 := g `div` 4096 in let d2 := (g `div` 256) `mod` 16 in
  let d1 := (g `div` 16) `mod` 16 in let d0 := g `mod` 16 in
  if 4096 <=? g then String (hex_digit d3) (String (hex_digit d2) (String (hex_digit d1) (String (hex_digit d0) EmptyString)))
  else if 256 <=? g then String (hex_digit d2) (String (hex_digit d1) (String (hex_digit d0) EmptyString))
  else if 16 <=? g then String (hex_digit d1) (String (hex_digit d0) EmptyString)
  else String (hex_digit d0) EmptyString.

Definition groups (v : Z) : list Z :=
  (λ k, (v `div` 2 ^ (16 * k)) `mod` 2 ^ 16) <$> [7; 6; 5; 4; 3; 2; 1; 0].

(** Leading zeros of a list of groups. *)
Fixpoint zero_run (gs : list Z) : nat :=
  match gs with g :: gs => if g =? 0 then S (zero_run gs) else 0 | [] => 0 end.

(** The first longest run of at least two zero groups. *)
Fixpoint longest_run (i : nat) (gs : list Z) (best : option (nat * nat)) : option (nat * nat) :=
  match gs with
  | [] => best
  | g :: gs' =>
    let l := zero_run gs in
    let cur := match best with Some (_, n) => n | None => 0%nat end in
    longest_run (S i) gs' (if (2 <=? l)%nat && (cur <? l)%nat then Some (i, l) else best)
  end.

Definition show_v6 (v : Z) : string :=
  let gs := groups v in
  match longest_run 0 gs None with
  | None => Join (show_hex16 <$> gs) ":"
  | Some (i, l) => Join (show_hex16 <$> take i gs) ":" +:+ "::" +:+ Join (show_hex16 <$> drop (i + l) gs) ":"
  end.

Definition show_zone (z : string) : string :=
  match z with EmptyString => EmptyString | _ => "%" +:+ z end.

Definition show_addr (a : addr) : string :=
  match a with
  | AddrNone => "invalid IP"
  | Addr4 v => show_v4 v
  | Addr6 v z =>
    if Is4In6 a then "::ffff:" +:+ show_v4 (Z.land v (Z.ones 32)) +:+ show_zone z
    else show_v6 v +:+ show_zone z
  end.

Definition show_prefix (p : prefix) : string :=
  if PIsValid p then show_addr (paddr p) +:+ "/" +:+ show_Z (pbits p) else "invalid Prefix".

(** ** Checks against the documented behaviour *)
Example parse_v4 : ParseAddr "192.0.2.9" = Some (Addr4 0xC0000209).
Proof. vm_compute. reflexivity. Qed.
Example parse_v4_zero : ParseAddr "192.0.02.9" = None.
Proof. vm_compute. reflexivity. Qed.
Example parse_v6 : ParseAddr "2001:db8::1" = Some (Addr6 0x20010db8000000000000000000000001 EmptyString).
Proof. vm_compute. reflexivity. Qed.
Example parse_mapped : Unmap <$> ParseAddr "::ffff:192.0.2.9" = Some (Addr4 0xC0000209).
Proof. vm_compute. reflexivity. Qed.
Example parse_bad_v6 : ParseAddr "1:2:3:4:5:6:7:8::" = None ∧ ParseAddr "1:2:3" = None ∧ ParseAddr "::1%" = None.
Proof. vm_compute. done. Qed.
Example parse_pfx : ParsePrefix "10.0.0.0/8" = Some (Prefix (Addr4 0x0A000000) 8).
Proof. vm_compute. reflexivity. Qed.
Example parse_pfx_bad : ParsePrefix "10.0.0.0/08" = None ∧ ParsePrefix "10.0.0.0/33" = None.
Proof. vm_compute. done. Qed.
Example show_v6_ex : show_addr (Addr6 0x20010db8000000000000000000000001 EmptyString) = "2001:db8::1".
Proof. vm_compute. reflexivity. Qed.
Example show_v6_all : show_addr (Addr6 0 EmptyString) = "::" ∧ show_addr (Addr6 1 EmptyString) = "::1".
Proof. vm_compute. done. Qed.

(** ** What parsing yields is well formed *)
Lemma parse_base_nonneg dv base acc s n :
  (∀ a d, dv a = Some d → 0 <= d) → 0 <= base → 0 <= acc →
  parse_base dv base acc s = Some n → 0 <= n.
Proof.
  intros Hdv Hb. revert acc. induction s as [|a s IH]; intros acc Ha; simpl; [by intros [= <-]|].
  destruct (dv a) as [d|] eqn:E; [|done]. apply IH. specialize (Hdv _ _ E). nia.
Qed.

Lemma digit_val_nonneg a d : digit_val a = Some d → 0 <= d.
Proof. unfold digit_val. intros. cases. bool_hyps. lia. Qed.

Lemma hex_val_nonneg a d : hex_val a = Some d → 0 <= d.
Proof. unfold hex_val. intros. cases; bool_hyps; lia. Qed.

Lemma ParseUint10_range b s n : ParseUint10 b s = Some n → 0 <= n < 2 ^ b.
Proof.
  unfold ParseUint10, ParseUint. destruct s as [|c s]; [done|].
  destruct (parse_base _ _ _ _) as [m|] eqn:E; [|done].
  destruct (m <? 2 ^ b) eqn:Hm; [|done]. intros [= <-]. bool_hyps. split; [|done].
  refine (parse_base_nonneg _ _ _ _ _ digit_val_nonneg _ _ E); lia.
Qed.

Lemma ParseUint16_range b s n : ParseUint16 b s = Some n → 0 <= n < 2 ^ b.
Proof.
  unfold ParseUint16, ParseUint. destruct s as [|c s]; [done|].
  destruct (parse_base _ _ _ _) as [m|] eqn:E; [|done].
  destruct (m <? 2 ^ b) eqn:Hm; [|done]. intros [= <-]. bool_hyps. split; [|done].
  refine (parse_base_nonneg _ _ _ _ _ hex_val_nonneg _ _ E); lia.
Qed.

Lemma parse_octet_range s n : parse_octet s = Some n → 0 <= n <= 255.
Proof.
  intros H. assert (∃ t, ParseUint10 32 t = Some n ∧ n <= 255) as (t & Ht & ?).
  { unfold parse_octet in H. exists s. cases; bool_hyps; done. }
  apply ParseUint10_range in Ht. lia.
Qed.

Lemma parse_ipv4_range s v : parse_ipv4 s = Some v → 0 <= v < 2 ^ 32.
Proof.
  unfold parse_ipv4. intros H. cases.
  repeat match goal with H : parse_octet _ = Some _ |- _ => apply parse_octet_range in H end.
  change (2 ^ 32) with 4294967296. lia.
Qed.

Definition group_ok (g : Z) : Prop := 0 <= g < 2 ^ 16.

Lemma parse_groups_ok n s acc ell acc' ell' :
  parse_groups n s acc ell = Some (acc', ell') → Forall group_ok acc → Forall group_ok acc'.
Proof.
  revert s acc ell. induction n as [|n IH]; intros s acc ell.
  { simpl. intros. by cases. }
  intros H Hacc. cbn [parse_groups] in H. destruct (hex_run s) as [h r].
  destruct (_ || _); [done|].
  assert (∀ g, ParseUint16 16 h = Some g → Forall group_ok (g :: acc)) as Hg.
  { intros g Hg. constructor; [by apply ParseUint16_range in Hg|done]. }
  assert (∀ v, parse_ipv4 s = Some v →
    Forall group_ok (v `mod` 2 ^ 16 :: v `div` 2 ^ 16 :: acc)) as H4.
  { intros v Hv%parse_ipv4_range. repeat constructor; try done; try apply Z.mod_pos_bound; try lia.
    - apply Z.div_pos; lia.
    - apply Z.div_lt_upper_bound; [lia|]. change (2 ^ 16 * 2 ^ 16) with (2 ^ 32). lia. }
  clear Hacc. repeat (case_match; simplify_eq; try done); eauto.
Qed.

Lemma groups_value_range gs v k : 0 <= v < 2 ^ k → 0 <= k → Forall group_ok gs →
  0 <= fold_left (λ v g, v * 2 ^ 16 + g) gs v < 2 ^ (k + 16 * Z.of_nat (length gs)).
Proof.
  revert v k. induction gs as [|g gs IH]; intros v k Hv Hk Hgs; simpl.
  { by rewrite Z.add_0_r. }
  inversion Hgs as [|? ? Hg Hrest]; subst. unfold group_ok in Hg.
  replace (k + 16 * Z.of_nat (S (length gs))) with ((k + 16) + 16 * Z.of_nat (length gs)) by lia.
  apply IH; [|lia|done]. rewrite Z.pow_add_r by lia. nia.
Qed.

Lemma parse_ipv6_wf s a : parse_ipv6 s = Some a → wf_addr a ∧ IsValid a = true.
Proof.
  unfold parse_ipv6. destruct (cut "%" s) as [body zo]. intros H.
  set (r := match body with
             | String ":" (String ":" EmptyString) => Some ([], Some 0%nat)
             | String ":" (String ":" b) => parse_groups 8 b [] (Some 0%nat)
             | b => parse_groups 8 b [] None
             end) in H.
  assert (∀ acc ell, r = Some (acc, ell) → Forall group_ok acc) as Hr.
  { subst r. intros acc ell Hr.
    repeat (case_match; simplify_eq; try by constructor); by eapply parse_groups_ok. }
  clearbody r. assert (∃ acc ell gs z, r = Some (acc, ell) ∧
    expand_groups (reverse acc) ell = Some gs ∧ a = Addr6 (groups_value gs) z)
    as (acc & ell & gs & z & Hr' & He & ->).
  { repeat (case_match; simplify_eq; try done); eauto 10. }
  apply Hr in Hr'. split; [|done].
  assert (length gs = 8%nat ∧ Forall group_ok gs) as [Hlen Hok].
  { unfold expand_groups in He. pose proof Hr' as Hrev%Forall_reverse.
    destruct ell as [k|]; case_match; simplify_eq.
    - apply Nat.ltb_lt in H0. split.
      + rewrite !length_app, length_replicate, length_take, length_drop. lia.
      + apply Forall_app; split; [by apply Forall_take|].
        apply Forall_app; split; [|by apply Forall_drop].
        apply Forall_replicate. by unfold group_ok.
    - apply Nat.eqb_eq in H0. done. }
  pose proof (groups_value_range gs 0 0) as Hv. rewrite Hlen in Hv. simpl.
  unfold groups_value. apply Hv; [by change (2 ^ 0) with 1|lia|done].
Qed.

Lemma ParseAddr_wf s a : ParseAddr s = Some a → wf_addr a ∧ IsValid a = true.
Proof.
  unfold ParseAddr. intros H.
  assert (Addr4 <$> parse_ipv4 s = Some a ∨ parse_ipv6 s = Some a) as [Ha|Ha].
  { destruct (first_mark s) as [[[] [] [] [] [] [] [] []]|]; try done; auto. }
  - destruct (parse_ipv4 s) as [v|] eqn:E; simplify_eq/=. by apply parse_ipv4_range in E.
  - by eapply parse_ipv6_wf.
Qed.

Lemma ParsePrefix_wf s p : ParsePrefix s = Some p → wf_prefix p.
Proof.
  unfold ParsePrefix. intros H.
  destruct (cut_last "/" s) as [[l bs]|]; [|done].
  destruct (ParseAddr l) as [a|] eqn:Ea; [|done]. apply ParseAddr_wf in Ea as [Ha Hv].
  destruct (hasZone a) eqn:Hz; [done|].
  assert (∃ n, 0 <= n <= BitLen a ∧ p = PrefixFrom a n) as (n & Hn & ->).
  { assert (∃ n, ParseUint10 63 bs = Some n ∧ n <= BitLen a ∧ p = PrefixFrom a n)
      as (n & Hn%ParseUint10_range & ? & ->); [|exists n; split; [lia|done]].
    destruct (ParseUint10 63 bs) as [n|] eqn:En.
    - exists n. destruct (n <=? BitLen a) eqn:Hle.
      + bool_hyps. repeat (case_match; simplify_eq; try done).
      + repeat (case_match; simplify_eq; try done).
    - repeat (case_match; simplify_eq; try done). }
  unfold PrefixFrom, wf_prefix. rewrite Hv. simpl.
  replace (0 <=? n) with true by (symmetry; apply Z.leb_le; lia).
  replace (n <=? BitLen a) with true by (symmetry; apply Z.leb_le; lia). simpl.
  by destruct a.
Qed.
