(* ===== verification/NetipShow.v ===== *)
(** Printing and parsing agree: [netip.Addr.String] and [netip.Prefix.String]
    are read back by [netip.ParseAddr] and [netip.ParsePrefix], and a text
    these accept without a zone is made of hexadecimal digits, dots, colons and
    at most one slash.  The keys of the store and of the packet filter rely on
    both. *)
From Stdlib Require Import Ascii.
From S2P Require Import Prelude GoStrings Netip NetipParse.

(** ** Characters *)
Definition is_hex (a : ascii) : bool := match hex_val a with Some _ => true | None => false end.
Definition is_digit (a : ascii) : bool := match digit_val a with Some _ => true | None => false end.
Definition addr_char (a : ascii) : bool :=
  is_hex a || bool_decide (a = "."%char) || bool_decide (a = ":"%char).

Lemma is_digit_hex a : is_digit a = true → is_hex a = true.
Proof.
  unfold is_digit, is_hex, digit_val, hex_val. cbv zeta. destruct (_ && _) eqn:E; [done|done].
Qed.

(** ** Decimal numbers *)
Lemma pretty_N_char_digit x : (x < 10)%N → digit_val (pretty_N_char x) = Some (Z.of_N x).
Proof. intros Hx. assert (x = 0 ∨ x = 1 ∨ x = 2 ∨ x = 3 ∨ x = 4 ∨ x = 5 ∨ x = 6 ∨ x = 7 ∨ x = 8 ∨ x = 9)%N by lia. naive_solver. Qed.

Lemma pretty_N_go_spec x s :
  parse_base digit_val 10 0 (pretty_N_go x s) = parse_base digit_val 10 (Z.of_N x) s ∧
  (str_forall is_digit s = true → str_forall is_digit (pretty_N_go x s) = true).
Proof.
  revert s. induction (N.lt_wf_0 x) as [x _ IH]; intros s.
  assert (x = 0 ∨ 0 < x)%N as [->|Hx] by lia; [by rewrite pretty_N_go_0|].
  rewrite pretty_N_go_step by done. destruct (IH (x `div` 10)%N (N.div_lt x 10 Hx eq_refl) (String (pretty_N_char (x `mod` 10)) s)) as [Hp Hd].
  pose proof (pretty_N_char_digit (x `mod` 10) (N.mod_lt x 10 ltac:(done))) as Hv.
  split.
  - rewrite Hp. simpl. rewrite Hv. f_equal. rewrite N2Z.inj_div, N2Z.inj_mod by done.
    pose proof (Z.div_mod (Z.of_N x) 10). lia.
  - intros Hs. apply Hd. simpl. unfold is_digit at 1. by rewrite Hv.
Qed.

Lemma show_Z_parse n : 0 <= n → parse_base digit_val 10 0 (show_Z n) = Some n ∧ str_forall is_digit (show_Z n) = true.
Proof.
  intros Hn. destruct n as [|p|p]; [done| |lia].
  assert (show_Z (Zpos p) = pretty_N_go (Npos p) "") as -> by done.
  destruct (pretty_N_go_spec (Npos p) EmptyString) as [-> Hd]. split; [done|]. by apply Hd.
Qed.

Lemma show_Z_chars n : str_forall (λ a, is_digit a || bool_decide (a = "-"%char)) (show_Z n) = true.
Proof.
  destruct (decide (0 <= n)) as [Hn|Hn].
  - destruct (show_Z_parse n Hn) as [_ Hd]. eapply str_forall_impl; [|exact Hd]. by intros a ->.
  - destruct n as [|p|p]; [lia..|]. assert (show_Z (Zneg p) = "-" +:+ show_Z (Zpos p)) as -> by done.
    rewrite str_forall_app. destruct (show_Z_parse (Zpos p) ltac:(lia)) as [_ Hd].
    apply andb_true_iff. split; [done|]. eapply str_forall_impl; [|exact Hd]. by intros a ->.
Qed.

(** A finite check by computation, read as a statement on a range. *)
Lemma range_check (P : Z → bool) n :
  forallb P (seqZ 0 n) = true → ∀ d, 0 <= d < n → P d = true.
Proof. rewrite forallb_true_elem. intros H d Hd. apply H. rewrite elem_of_seqZ. lia. Qed.

(** ** IPv4 *)
Definition octet_ok (d : Z) : bool :=
  bool_decide (parse_octet (show_Z d) = Some d) && str_forall is_digit (show_Z d) &&
  (1 <=? str_len (show_Z d))%nat && (str_len (show_Z d) <=? 3)%nat.

Lemma octets d : 0 <= d < 256 → octet_ok d = true.
Proof. apply range_check. vm_compute. reflexivity. Qed.

Definition octets_of (v : Z) : list Z := [v `div` 2 ^ 24; (v `div` 2 ^ 16) `mod` 256; (v `div` 2 ^ 8) `mod` 256; v `mod` 256].

Lemma octets_of_range v : 0 <= v < 2 ^ 32 → Forall (λ d, 0 <= d < 256) (octets_of v).
Proof.
  intros Hv. repeat constructor; try (apply Z.mod_pos_bound; lia).
  - apply Z.div_pos; lia.
  - apply Z.div_lt_upper_bound; lia.
Qed.

Lemma digits_no_dot s : str_forall is_digit s = true → no_char "." s = true.
Proof. by apply no_char_forall. Qed.

Lemma octets_text v : 0 <= v < 2 ^ 32 →
  Forall (λ w, str_forall is_digit w = true) (show_Z <$> octets_of v).
Proof.
  intros Hv%octets_of_range. apply Forall_fmap. eapply Forall_impl; [exact Hv|]. intros d Hd%octets.
  unfold octet_ok in Hd. simpl. rewrite !andb_true_iff in Hd. tauto.
Qed.

Lemma parse_show_v4 v : 0 <= v < 2 ^ 32 → parse_ipv4 (show_v4 v) = Some v.
Proof.
  intros Hv. unfold parse_ipv4, show_v4. fold (octets_of v). pose proof (octets_text v Hv) as Ht.
  change "."%string with (String "." EmptyString). rewrite split_Join; [|done|].
  2: { eapply Forall_impl; [exact Ht|]. intros w Hw. by apply digits_no_dot. }
  pose proof (octets_of_range v Hv) as Hr. unfold octets_of in *. csimpl.
  rewrite !Forall_cons in Hr. destruct Hr as (H1 & H2 & H3 & H4 & _).
  assert (∀ d, 0 <= d < 256 → parse_octet (show_Z d) = Some d) as Hp.
  { intros d Hd%octets. unfold octet_ok in Hd. rewrite !andb_true_iff in Hd.
    destruct Hd as [[[Hd _] _] _]. by apply bool_decide_eq_true in Hd. }
  rewrite !Hp by done. f_equal.
  change (2 ^ 24) with 16777216. change (2 ^ 16) with 65536. change (2 ^ 8) with 256.
  clear -Hv. Z.div_mod_to_equations. lia.
Qed.

(** ** IPv6 groups *)
Lemma hex_digit_val d : 0 <= d < 16 → hex_val (hex_digit d) = Some d ∧ is_hex (hex_digit d) = true.
Proof.
  intros Hd. assert (forallb (λ d, bool_decide (hex_val (hex_digit d) = Some d)) (seqZ 0 16) = true) as H.
  { vm_compute. reflexivity. }
  pose proof (range_check _ 16 H d Hd) as Hv. apply bool_decide_eq_true in Hv.
  unfold is_hex. by rewrite Hv.
Qed.

Lemma hex16_spec g : group_ok g →
  ParseUint16 16 (show_hex16 g) = Some g ∧ str_forall is_hex (show_hex16 g) = true ∧
  (str_len (show_hex16 g) =? 0)%nat || (4 <? str_len (show_hex16 g))%nat = false.
Proof.
  unfold group_ok. intros Hg. unfold show_hex16. set (d3 := g `div` 4096). set (d2 := (g `div` 256) `mod` 16).
  set (d1 := (g `div` 16) `mod` 16). set (d0 := g `mod` 16). change (2 ^ 16) with 65536 in Hg.
  assert (0 <= d3 < 16 ∧ 0 <= d2 < 16 ∧ 0 <= d1 < 16 ∧ 0 <= d0 < 16 ∧ ((d3 * 16 + d2) * 16 + d1) * 16 + d0 = g)
    as (H3 & H2 & H1 & H0 & Hsum) by (unfold d3, d2, d1, d0; Z.div_mod_to_equations; lia).
  clearbody d3 d2 d1 d0.
  pose proof (hex_digit_val d3 H3) as [V3 X3]. pose proof (hex_digit_val d2 H2) as [V2 X2].
  pose proof (hex_digit_val d1 H1) as [V1 X1]. pose proof (hex_digit_val d0 H0) as [V0 X0].
  unfold ParseUint16, ParseUint.
  destruct (Z.leb_spec 4096 g); [|destruct (Z.leb_spec 256 g); [|destruct (Z.leb_spec 16 g)]];
    cbn [parse_base str_forall]; rewrite ?V3, ?V2, ?V1, ?V0, ?X3, ?X2, ?X1, ?X0; (split; [|done]);
    rewrite (proj2 (Z.ltb_lt _ _)) by lia; f_equal; lia.
Qed.

Definition stops (r : string) : Prop := match r with EmptyString => True | String a _ => is_hex a = false end.

Lemma hex_run_app h r : str_forall is_hex h = true → stops r → hex_run (h +:+ r) = (h, r).
Proof.
  intros Hh Hr. induction h as [|a h IH]; simpl in *.
  - destruct r as [|b r]; [done|]. simpl in *. unfold is_hex in Hr. by destruct (hex_val b).
  - apply andb_true_iff in Hh as [Ha Hh]. unfold is_hex in Ha. destruct (hex_val a); [|done]. by rewrite IH.
Qed.

Lemma hex_head g : group_ok g → ∃ c t, show_hex16 g = String c t ∧ is_hex c = true.
Proof.
  intros (_ & Hh & Hl)%hex16_spec. destruct (show_hex16 g) as [|c t]; [done|].
  simpl in Hh. apply andb_true_iff in Hh as [? _]. eauto.
Qed.

(** One group of a text: what follows decides. *)
Lemma parse_group_end n g acc ell : group_ok g → parse_groups (S n) (show_hex16 g) acc ell = Some (g :: acc, ell).
Proof.
  intros Hg. destruct (hex16_spec g Hg) as (Hp & Hh & Hl). cbn [parse_groups].
  pose proof (hex_run_app _ EmptyString Hh I) as Hr. rewrite str_app_nil_r in Hr. rewrite Hr, Hl, Hp. done.
Qed.

Definition starts_hex (r : string) : Prop := match r with String c _ => is_hex c = true | _ => False end.

Lemma parse_group_more n g r acc ell : group_ok g → starts_hex r →
  parse_groups (S n) (show_hex16 g +:+ String ":" r) acc ell = parse_groups n r (g :: acc) ell.
Proof.
  intros Hg Hr. destruct (hex16_spec g Hg) as (Hp & Hh & Hl). cbn [parse_groups].
  rewrite hex_run_app, Hl, Hp by done. destruct r as [|c r]; [done|]. simpl in Hr.
  destruct c as [[] [] [] [] [] [] [] []]; try done.
Qed.

Lemma parse_group_ellipsis n g r acc : group_ok g → starts_hex r →
  parse_groups (S n) (show_hex16 g +:+ String ":" (String ":" r)) acc None =
  parse_groups n r (g :: acc) (Some (length (g :: acc))).
Proof.
  intros Hg Hr. destruct (hex16_spec g Hg) as (Hp & Hh & Hl). cbn [parse_groups].
  rewrite hex_run_app, Hl, Hp by done. by destruct r as [|c r].
Qed.

Lemma parse_group_last_ellipsis n g acc : group_ok g →
  parse_groups (S n) (show_hex16 g +:+ String ":" (String ":" EmptyString)) acc None =
  Some (g :: acc, Some (length (g :: acc))).
Proof.
  intros Hg. destruct (hex16_spec g Hg) as (Hp & Hh & Hl). cbn [parse_groups].
  rewrite hex_run_app, Hl, Hp by done. done.
Qed.

(** ** Joined groups *)
Definition text (gs : list Z) : string := Join (show_hex16 <$> gs) ":".

Lemma text_cons g gs : gs ≠ [] → text (g :: gs) = show_hex16 g +:+ String ":" (text gs).
Proof. intros H. unfold text. rewrite fmap_cons, Join_cons; [done|]. by destruct gs. Qed.

Lemma text_single g : text [g] = show_hex16 g.
Proof. done. Qed.

Lemma text_starts g gs r : group_ok g → starts_hex (text (g :: gs) +:+ r).
Proof.
  intros Hg. destruct (hex_head g Hg) as (c & t & Ht & Hc).
  destruct gs as [|g' gs]; [rewrite text_single|rewrite text_cons by done]; by rewrite Ht.
Qed.

Lemma parse_text n gs acc ell : Forall group_ok gs → gs ≠ [] → (length gs ≤ n)%nat →
  parse_groups n (text gs) acc ell = Some (reverse gs ++ acc, ell).
Proof.
  intros Hgs Hne. revert n acc. induction Hgs as [|g gs Hg Hgs IH]; intros n acc Hn; [done|].
  destruct n as [|n]; [simpl in Hn; lia|]. destruct gs as [|g' gs].
  - rewrite text_single, parse_group_end by done. done.
  - rewrite text_cons by done. rewrite parse_group_more; [|done|].
    + rewrite IH; [|done|simpl in *; lia]. f_equal. f_equal. by rewrite (reverse_cons (g' :: gs) g), <- app_assoc.
    + pose proof (text_starts g' gs EmptyString) as Hs. rewrite str_app_nil_r in Hs.
      apply Hs. by inversion Hgs.
Qed.

Lemma parse_text_ellipsis n l r acc : Forall group_ok (l ++ r) → l ≠ [] → (length l + length r < n)%nat →
  parse_groups n (text l +:+ String ":" (String ":" (text r))) acc None =
  Some (reverse r ++ reverse l ++ acc, Some (length acc + length l)%nat).
Proof.
  intros Hok Hne. revert n acc. induction l as [|g l IH]; intros n acc Hn; [done|].
  destruct n as [|n]; [simpl in Hn; lia|]. apply Forall_cons in Hok as [Hg Hok].
  destruct l as [|g' l].
  - rewrite text_single. destruct r as [|h r].
    + rewrite parse_group_last_ellipsis by done. simpl. by rewrite Nat.add_1_r.
    + rewrite parse_group_ellipsis; [|done|].
      * rewrite parse_text; [|done|done|simpl in *; lia]. rewrite reverse_singleton. simpl. by rewrite Nat.add_1_r.
      * pose proof (text_starts h r EmptyString) as Hs. rewrite str_app_nil_r in Hs. apply Hs.
        simpl in Hok. by inversion Hok.
  - rewrite text_cons by done. rewrite str_app_assoc. change (String ":" (text (g' :: l)) +:+ ?x) with (String ":" (text (g' :: l) +:+ x)).
    rewrite parse_group_more; [|done|apply text_starts; simpl in Hok; by inversion Hok].
    rewrite IH; [|done|done|simpl in *; lia]. f_equal. f_equal.
    + rewrite (reverse_cons (g' :: l) g), <- !app_assoc. done.
    + simpl. f_equal. lia.
Qed.

(** ** Zero runs *)
Lemma zero_run_spec gs : take (zero_run gs) gs = replicate (zero_run gs) 0 ∧ (zero_run gs ≤ length gs)%nat.
Proof.
  induction gs as [|g gs IH]; simpl; [done|]. destruct (Z.eqb_spec g 0) as [->|]; simpl; [|split; [done|lia]].
  destruct IH as [-> ?]. split; [done|lia].
Qed.

Definition run_at (gs : list Z) (i l : nat) : Prop :=
  take l (drop i gs) = replicate l 0 ∧ (2 ≤ l)%nat ∧ (i + l ≤ length gs)%nat.

Lemma longest_run_spec all i gs best i' l' :
  drop i all = gs → (i ≤ length all)%nat → (∀ j m, best = Some (j, m) → run_at all j m) →
  longest_run i gs best = Some (i', l') → run_at all i' l'.
Proof.
  revert i best. induction gs as [|g gs IH]; intros i best Hd Hi Hb; [by apply Hb|].
  cbn [longest_run]. set (l := zero_run (g :: gs)). intros H.
  assert (length (drop i all) = S (length gs)) as Hlen by by rewrite Hd. rewrite length_drop in Hlen.
  eapply (IH (S i)); [| |  |exact H].
  - replace (S i) with (i + 1)%nat by lia. rewrite <- drop_drop, Hd. done.
  - lia.
  - intros j m Hj. destruct (_ && _) eqn:E; [|by apply Hb].
    injection Hj as <- <-. apply andb_true_iff in E as [E _]. apply Nat.leb_le in E.
    destruct (zero_run_spec (g :: gs)) as [Ht Hl]. fold l in Ht, Hl. split; [by rewrite Hd|]. simpl in Hl. lia.
Qed.

Lemma run_split gs i l : run_at gs i l → gs = take i gs ++ replicate l 0 ++ drop (i + l) gs.
Proof.
  intros (H & _ & _). rewrite <- H, <- drop_drop. by rewrite take_drop, take_drop.
Qed.

(** ** Values *)
Lemma groups_ok v : Forall group_ok (groups v).
Proof. unfold groups. apply Forall_fmap. apply Forall_forall. intros k _. apply Z.mod_pos_bound. lia. Qed.

Lemma groups_value_groups v : 0 <= v < 2 ^ 128 → groups_value (groups v) = v.
Proof.
  intros Hv. unfold groups, groups_value. cbn [fmap list_fmap fold_left].
  assert (∀ k, 0 <= k → v `div` 2 ^ (16 * k) = (v `div` 2 ^ (16 * (k + 1))) * 2 ^ 16 + (v `div` 2 ^ (16 * k)) `mod` 2 ^ 16) as Hstep.
  { intros k Hk. rewrite (Z.div_mod (v `div` 2 ^ (16 * k)) (2 ^ 16)) at 1 by lia.
    rewrite Z.div_div by lia. rewrite <- Z.pow_add_r by lia.
    replace (16 * k + 16) with (16 * (k + 1)) by lia. lia. }
  assert (v `div` 2 ^ (16 * 8) = 0) as H8 by (apply Z.div_small; exact Hv).
  pose proof (Hstep 7 ltac:(lia)) as H7. change (7 + 1) with 8 in H7. rewrite H8 in H7.
  pose proof (Hstep 6 ltac:(lia)) as H6. change (6 + 1) with 7 in H6.
  pose proof (Hstep 5 ltac:(lia)) as H5. change (5 + 1) with 6 in H5.
  pose proof (Hstep 4 ltac:(lia)) as H4. change (4 + 1) with 5 in H4.
  pose proof (Hstep 3 ltac:(lia)) as H3. change (3 + 1) with 4 in H3.
  pose proof (Hstep 2 ltac:(lia)) as H2. change (2 + 1) with 3 in H2.
  pose proof (Hstep 1 ltac:(lia)) as H1. change (1 + 1) with 2 in H1.
  pose proof (Hstep 0 ltac:(lia)) as H0. change (0 + 1) with 1 in H0.
  rewrite <- H7, <- H6, <- H5, <- H4, <- H3, <- H2, <- H1, <- H0. change (2 ^ (16 * 0)) with 1. apply Z.div_1_r.
Qed.

(** ** Addresses *)
Definition no_mark (a : ascii) : bool :=
  negb (bool_decide (a = "%"%char)) && negb (bool_decide (a = "/"%char)).

Lemma text_chars gs : Forall group_ok gs → str_forall (λ a, is_hex a || bool_decide (a = ":"%char)) (text gs) = true.
Proof.
  intros H. apply str_forall_Join; [|done]. apply Forall_fmap. eapply Forall_impl; [exact H|].
  intros g (_ & Hh & _)%hex16_spec. simpl. eapply str_forall_impl; [|exact Hh]. intros a ->. done.
Qed.

Definition v6_body (s : string) : option (list Z * option nat) :=
  match s with
  | String ":" (String ":" EmptyString) => Some ([], Some 0%nat)
  | String ":" (String ":" b) => parse_groups 8 b [] (Some 0%nat)
  | b => parse_groups 8 b [] None
  end.

Lemma v6_body_text s : starts_hex s → v6_body s = parse_groups 8 s [] None.
Proof.
  unfold v6_body. generalize (parse_groups 8). intros pg H. destruct s as [|c s]; [done|].
  destruct c as [[] [] [] [] [] [] [] []]; try reflexivity. discriminate H.
Qed.

Lemma v6_body_ellipsis s : starts_hex s → v6_body (String ":" (String ":" s)) = parse_groups 8 s [] (Some 0%nat).
Proof. unfold v6_body. generalize (parse_groups 8). intros pg H. by destruct s as [|c s]. Qed.

Lemma show_v6_body v : 0 <= v < 2 ^ 128 → ∃ acc ell,
  v6_body (show_v6 v) = Some (acc, ell) ∧ expand_groups (reverse acc) ell = Some (groups v).
Proof.
  intros Hv. pose proof (groups_ok v) as Hok. assert (length (groups v) = 8%nat) as Hlen by done.
  unfold show_v6. remember (groups v) as gs eqn:E. clear E Hv v.
  destruct (longest_run 0 gs None) as [[i l]|] eqn:El.
  - apply (longest_run_spec gs) in El; [|done|lia|done]. pose proof (run_split _ _ _ El) as Hs.
    destruct El as (_ & Hl2 & Hil). set (L := take i gs) in *. set (R := drop (i + l) gs) in *.
    assert (length L = i) as HL by (apply length_take_le; lia).
    assert (length R = (8 - i - l)%nat) as HR by (unfold R; rewrite length_drop; lia).
    assert (Forall group_ok L ∧ Forall group_ok R) as [HokL HokR] by (split; [by apply Forall_take|by apply Forall_drop]).
    fold (text L). fold (text R).
    assert (∃ acc, v6_body (text L +:+ String ":" (String ":" (text R))) = Some (acc, Some (length L)) ∧ reverse acc = L ++ R)
      as (acc & Hb & Hacc).
    { destruct L as [|g L'].
      - change (text []) with EmptyString. change (EmptyString +:+ ?x) with x. destruct R as [|h R']; [by exists []|].
        exists (reverse (h :: R')). rewrite v6_body_ellipsis.
        + rewrite parse_text by (done || (simpl in *; lia)). rewrite app_nil_r, reverse_involutive. done.
        + pose proof (text_starts h R' EmptyString) as Hst. rewrite str_app_nil_r in Hst. apply Hst. by inversion HokR.
      - exists (reverse R ++ reverse (g :: L')). rewrite v6_body_text by (apply text_starts; by inversion HokL).
        rewrite parse_text_ellipsis; [|by apply Forall_app|done|lia]. rewrite app_nil_r. split; [done|].
        by rewrite reverse_app, !reverse_involutive. }
    exists acc, (Some (length L)). split; [exact Hb|]. rewrite Hacc. unfold expand_groups.
    rewrite length_app, HL, HR. rewrite (proj2 (Nat.ltb_lt _ _)) by lia. f_equal.
    rewrite take_app_length' by done. rewrite drop_app_length' by done.
    replace (8 - (i + (8 - i - l)))%nat with l by lia. by symmetry.
  - fold (text gs). exists (reverse gs), None. destruct gs as [|g gs]; [done|]. rewrite v6_body_text.
    + rewrite parse_text by (done || lia). rewrite app_nil_r, reverse_involutive. unfold expand_groups. by rewrite Hlen.
    + pose proof (text_starts g gs EmptyString) as Hst. rewrite str_app_nil_r in Hst. apply Hst. by inversion Hok.
Qed.

Lemma parse_group_dotted n s h r v acc k :
  hex_run s = (h, String "." r) → (str_len h =? 0)%nat || (4 <? str_len h)%nat = false → parse_ipv4 s = Some v →
  parse_groups (S (S n)) s acc (Some k) = Some (v `mod` 2 ^ 16 :: v `div` 2 ^ 16 :: acc, Some k).
Proof. intros Hr Hl Hv. cbn [parse_groups]. by rewrite Hr, Hl, Hv. Qed.

Lemma mapped_body w : 0 <= w < 2 ^ 32 → ∃ acc ell gs,
  v6_body ("::ffff:" +:+ show_v4 w) = Some (acc, ell) ∧ expand_groups (reverse acc) ell = Some gs ∧
  groups_value gs = 0xffff * 2 ^ 32 + w.
Proof.
  intros Hw. change ("::ffff:" +:+ show_v4 w) with (String ":" (String ":" (show_hex16 0xffff +:+ String ":" (show_v4 w)))).
  assert (∃ d1 rest, show_v4 w = d1 +:+ String "." rest ∧ str_forall is_digit d1 = true ∧
    (str_len d1 =? 0)%nat || (4 <? str_len d1)%nat = false) as (d1 & rest & He & Hd & Hl).
  { unfold show_v4. fold (octets_of w). pose proof (octets_of_range w Hw) as Hr. unfold octets_of in *. rewrite fmap_cons.
    inversion Hr as [|? ? Ho _]; subst. apply octets in Ho. unfold octet_ok in Ho. rewrite !andb_true_iff in Ho.
    destruct Ho as [[[_ Ho] Hlo%Nat.leb_le] Hhi%Nat.leb_le]. rewrite Join_cons by done. do 2 eexists. split; [reflexivity|].
    split; [exact Ho|]. apply orb_false_iff. split; [apply Nat.eqb_neq; lia|apply Nat.ltb_ge; lia]. }
  rewrite v6_body_ellipsis by reflexivity. rewrite parse_group_more; [|by unfold group_ok|].
  2: { rewrite He. destruct d1 as [|c d1]; [done|]. simpl in *. apply andb_true_iff in Hd as [? _]. by apply is_digit_hex. }
  rewrite (parse_group_dotted 5 (show_v4 w) d1 rest w); [|rewrite He; apply hex_run_app|done|by apply parse_show_v4].
  2: { eapply str_forall_impl; [apply is_digit_hex|done]. }
  2: done.
  do 3 eexists. split; [reflexivity|]. split; [reflexivity|].
  cbn. change (Z.pow_pos 2 16) with 65536. change (Z.pow_pos 2 32) with 4294967296.
  Z.div_mod_to_equations. lia.
Qed.

Lemma first_mark_hex h c r : str_forall is_hex h = true → c = "."%char ∨ c = ":"%char →
  first_mark (h +:+ String c r) = Some c.
Proof.
  intros Hh Hc. induction h as [|a h IH]; simpl in *; [by destruct Hc as [-> | ->]|].
  apply andb_true_iff in Hh as [Ha Hh]. rewrite !bool_decide_eq_false_2; [by apply IH|..]; by intros ->.
Qed.

Lemma parse_ipv6_cut s body zo : cut "%" s = (body, zo) → zo ≠ Some EmptyString →
  parse_ipv6 s =
  match v6_body body with
  | Some (acc, ell) => match expand_groups (reverse acc) ell with
                       | Some gs => Some (Addr6 (groups_value gs) (default EmptyString zo))
                       | None => None end
  | None => None
  end.
Proof. unfold parse_ipv6. intros -> Hz. destruct zo as [[|c z]|]; [done|reflexivity..]. Qed.

Lemma parse_ipv6_zone b z acc ell gs : no_char "%" b = true →
  v6_body b = Some (acc, ell) → expand_groups (reverse acc) ell = Some gs →
  parse_ipv6 (b +:+ show_zone z) = Some (Addr6 (groups_value gs) z).
Proof.
  intros Hb Hv He.
  assert (cut "%" (b +:+ show_zone z) = (b, match z with EmptyString => None | _ => Some z end)) as Hc.
  { clear -Hb. induction b as [|c b IH]; simpl in *.
    - destruct z; [done|]. simpl. done.
    - apply andb_true_iff in Hb as [Hc Hb]. specialize (IH Hb). revert IH. destruct (cut "%" (b +:+ show_zone z)).
      intros. simplify_eq. apply negb_true_iff in Hc. cbn [cut]. 
      destruct (decide (c = "%"%char)); [by rewrite bool_decide_eq_true_2 in Hc|done]. }
  rewrite (parse_ipv6_cut _ _ _ Hc) by (by destruct z). rewrite Hv, He. by destruct z.
Qed.

Lemma show_v6_chars v : str_forall (λ a, is_hex a || bool_decide (a = ":"%char)) (show_v6 v) = true.
Proof.
  unfold show_v6. destruct (longest_run _ _ _) as [[i l]|]; [|apply text_chars, groups_ok].
  rewrite !str_forall_app. fold (text (take i (groups v))) (text (drop (i + l) (groups v))).
  rewrite !text_chars by (apply Forall_take || apply Forall_drop; apply groups_ok). done.
Qed.

Lemma show_v6_mark v r : 0 <= v < 2 ^ 128 → first_mark (show_v6 v +:+ r) = Some ":"%char.
Proof.
  intros Hv. pose proof (groups_ok v) as Hok. unfold show_v6. assert (length (groups v) = 8%nat) as Hl by done.
  assert (∀ gs s, Forall group_ok gs → (∃ t, s = String ":" t) → first_mark ((text gs +:+ s) +:+ r) = Some ":"%char) as Hm.
  { intros gs s Hgs [t ->]. rewrite str_app_assoc. destruct gs as [|g [|g' gs]]; [done|..].
    - rewrite text_single. apply first_mark_hex; [by apply hex16_spec; inversion Hgs|auto].
    - rewrite text_cons, str_app_assoc by done. apply first_mark_hex; [by apply hex16_spec; inversion Hgs|auto]. }
  destruct (longest_run 0 (groups v) None) as [[i l]|].
  - apply Hm; [by apply Forall_take|]. eexists. reflexivity.
  - fold (text (groups v)). destruct (groups v) as [|g [|g' gs]]; [done..|].
    rewrite text_cons, str_app_assoc by done. apply first_mark_hex; [by apply hex16_spec; inversion Hok|auto].
Qed.

Lemma show_v4_shape v : 0 <= v < 2 ^ 32 → ∃ d r, show_v4 v = d +:+ String "." r ∧ str_forall is_hex d = true.
Proof.
  intros Hv. pose proof (octets_text v Hv) as Ht. change (show_v4 v) with (Join (show_Z <$> octets_of v) ".").
  unfold octets_of in *. rewrite fmap_cons in *. inversion Ht as [|? ? Hd _]; subst.
  rewrite Join_cons by done. do 2 eexists. split; [reflexivity|]. eapply str_forall_impl; [apply is_digit_hex|done].
Qed.

Lemma show_v4_chars v : 0 <= v < 2 ^ 32 → str_forall (λ a, is_digit a || bool_decide (a = "."%char)) (show_v4 v) = true.
Proof.
  intros Hv. apply str_forall_Join; [|done]. eapply Forall_impl; [by apply octets_text|].
  intros w Hw. eapply str_forall_impl; [|exact Hw]. intros a ->. done.
Qed.

(** Every valid address, IPv4, IPv6, mapped, zoned, is read back from its text. *)
Lemma ParseAddr_show a : wf_addr a → IsValid a = true → ParseAddr (show_addr a) = Some a.
Proof.
  destruct a as [|v|v z]; [done|..]; intros Ha _; unfold ParseAddr, show_addr.
  - destruct (show_v4_shape v Ha) as (d & r & He & Hd). rewrite He, (first_mark_hex d "." r) by auto.
    rewrite <- He, parse_show_v4 by done. done.
  - destruct (Is4In6 (Addr6 v z)) eqn:Em.
    + assert (0 <= Z.land v (Z.ones 32) < 2 ^ 32) as Hw.
      { rewrite Z.land_ones by lia. apply Z.mod_pos_bound. lia. }
      destruct (mapped_body _ Hw) as (acc & ell & gs & Hb & He & Hv).
      rewrite <- str_app_assoc. change (first_mark _) with (Some ":"%char) at 1.
      rewrite (parse_ipv6_zone _ z acc ell gs) by
        (done || (rewrite no_char_app; apply andb_true_iff; split; [done|];
          eapply no_char_forall; [|by apply show_v4_chars]; done)).
      rewrite Hv. f_equal. f_equal. unfold Is4In6 in Em. apply Z.eqb_eq in Em.
      rewrite Z.shiftr_div_pow2 in Em by lia. rewrite Z.land_ones by lia.
      rewrite <- Em. rewrite Z.mul_comm. symmetry. apply Z.div_mod. lia.
    + rewrite show_v6_mark by done. destruct (show_v6_body v Ha) as (acc & ell & Hb & He).
      rewrite (parse_ipv6_zone _ z acc ell (groups v)); [by rewrite groups_value_groups| |done|done].
      eapply no_char_forall; [|apply show_v6_chars]. done.
Qed.

(** ** What a parsed text is made of *)
Lemma parse_base_chars dv base acc s n : parse_base dv base acc s = Some n →
  str_forall (λ a, match dv a with Some _ => true | None => false end) s = true.
Proof.
  revert acc. induction s as [|a s IH]; intros acc; simpl; [done|].
  destruct (dv a); [|done]. apply IH.
Qed.

Lemma ParseUint_chars dv base bits s n : ParseUint dv base bits s = Some n →
  str_forall (λ a, match dv a with Some _ => true | None => false end) s = true.
Proof.
  unfold ParseUint. destruct s as [|c s]; [done|]. destruct (parse_base _ _ _ _) eqn:E; [|done].
  intros _. by eapply parse_base_chars.
Qed.

Lemma parse_octet_chars s d : parse_octet s = Some d → str_forall is_digit s = true.
Proof.
  intros H. assert (∃ n, ParseUint10 32 s = Some n) as [n Hn].
  { destruct (ParseUint10 32 s) as [n|] eqn:E; [by exists n|]. exfalso. unfold parse_octet in H. rewrite E in H.
    repeat (case_match; simplify_eq). }
  exact (ParseUint_chars _ _ _ _ _ Hn).
Qed.

Lemma parse_ipv4_chars s v : parse_ipv4 s = Some v → str_forall addr_char s = true.
Proof.
  unfold parse_ipv4. intros H. rewrite <- (Join_split "." s).
  assert (∀ w, str_forall is_digit w = true → str_forall addr_char w = true) as Hd.
  { intros w. apply str_forall_impl. intros a Ha. unfold addr_char. by rewrite (is_digit_hex a Ha). }
  apply str_forall_Join; [|done]. repeat (case_match; simplify_eq).
  repeat constructor; apply Hd; by eapply parse_octet_chars.
Qed.

Lemma hex_run_split s h r : hex_run s = (h, r) → s = h +:+ r ∧ str_forall is_hex h = true.
Proof.
  revert h r. induction s as [|a s IH]; intros h r; simpl; [by intros [= <- <-]|].
  destruct (hex_val a) eqn:E; [|by intros [= <- <-]]. destruct (hex_run s) as [h' r'] eqn:Er.
  intros [= <- <-]. destruct (IH _ _ eq_refl) as [-> Hh]. split; [done|]. simpl. unfold is_hex at 1. by rewrite E.
Qed.

Lemma hex_addr h : str_forall is_hex h = true → str_forall addr_char h = true.
Proof. apply str_forall_impl. intros a Ha. unfold addr_char. by rewrite Ha. Qed.

Lemma parse_groups_chars n s acc ell r : parse_groups n s acc ell = Some r → str_forall addr_char s = true.
Proof.
  revert s acc ell. induction n as [|n IH]; intros s acc ell; cbn [parse_groups].
  { case_decide; [|done]. by subst. }
  destruct (hex_run s) as [h t] eqn:Eh. destruct (hex_run_split _ _ _ Eh) as [Hs Hh%hex_addr].
  destruct (_ || _); [done|]. intros H.
  assert (is_Some (parse_ipv4 s) ∨ t = EmptyString ∨ (∃ t', t = String ":" t' ∧
    (∃ acc' ell', parse_groups n t' acc' ell' = Some r)) ∨
    (∃ t', t = String ":" (String ":" t') ∧ (t' = EmptyString ∨ ∃ acc' ell', parse_groups n t' acc' ell' = Some r)))
    as [[v Hv]|[->|[(t' & -> & acc' & ell' & Hp)|(t' & -> & Hp)]]].
  { repeat (case_match; simplify_eq; try done); eauto 10. }
  - by eapply parse_ipv4_chars.
  - by rewrite Hs, str_app_nil_r.
  - rewrite Hs, str_forall_app, Hh. simpl. by eapply IH.
  - rewrite Hs, str_forall_app, Hh. simpl. destruct Hp as [->|(acc' & ell' & Hp)]; [done|]. by eapply IH.
Qed.

Lemma ParseAddr_chars s a : ParseAddr s = Some a → hasZone a = false → str_forall addr_char s = true.
Proof.
  unfold ParseAddr. intros H Hz.
  assert (Addr4 <$> parse_ipv4 s = Some a ∨ parse_ipv6 s = Some a) as [Ha|Ha].
  { destruct (first_mark s) as [[[] [] [] [] [] [] [] []]|]; try done; auto. }
  - destruct (parse_ipv4 s) eqn:E; [|done]. by eapply parse_ipv4_chars.
  - destruct (cut "%" s) as [body zo] eqn:Ec. pose proof (cut_spec _ _ _ _ Ec) as Hs.
    destruct (decide (zo = Some EmptyString)) as [->|Hzo]; [unfold parse_ipv6 in Ha; by rewrite Ec in Ha|].
    rewrite (parse_ipv6_cut _ _ _ Ec Hzo) in Ha.
    destruct (v6_body body) as [[acc ell]|] eqn:Eb; [|done].
    destruct (expand_groups _ _) as [gs|]; [|done]. injection Ha as <-. apply hasZone_nil in Hz.
    destruct zo as [[|c z]|]; [done..|]. rewrite str_app_nil_r in Hs. subst s.
    clear -Eb. unfold v6_body in Eb.
    assert ((∃ b, body = String ":" (String ":" b) ∧ (b = EmptyString ∨ ∃ r, parse_groups 8 b [] (Some 0%nat) = Some r)) ∨
      ∃ r, parse_groups 8 body [] None = Some r) as [(b & -> & [->|[r Hr]])|[r Hr]].
    { revert Eb. generalize (parse_groups 8). intros pg Eb. repeat (case_match; simplify_eq); eauto 10. }
    + done.
    + simpl. by eapply parse_groups_chars.
    + by eapply parse_groups_chars.
Qed.

(** ** Prefixes *)
Definition bits_ok (n : Z) : bool :=
  bool_decide (ParseUint10 63 (show_Z n) = Some n) && str_forall is_digit (show_Z n) &&
  match show_Z n with String "0" (String _ _) => false | _ => true end.

Lemma bits_text n : 0 <= n < 129 → bits_ok n = true.
Proof. apply range_check. vm_compute. reflexivity. Qed.

Lemma show_addr_no_slash a : wf_addr a → IsValid a = true → hasZone a = false → str_forall addr_char (show_addr a) = true.
Proof. intros Ha Hv Hz. by eapply ParseAddr_chars; [apply ParseAddr_show|]. Qed.

(** Every valid prefix is read back from its text. *)
Lemma ParsePrefix_show p : wf_prefix p → ParsePrefix (show_prefix p) = Some p.
Proof.
  intros (Ha & Hz & Hv & Hn). unfold show_prefix, PIsValid. rewrite (proj2 (Z.leb_le 0 (pbits p))) by lia.
  assert (BitLen (paddr p) <= 128) as HB by (by destruct (paddr p)).
  pose proof (bits_text (pbits p) ltac:(lia)) as Hb. unfold bits_ok in Hb. rewrite !andb_true_iff in Hb.
  destruct Hb as [[Hb Hd] H0]. apply bool_decide_eq_true in Hb.
  unfold ParsePrefix. change ("/" +:+ show_Z (pbits p)) with (String "/" (show_Z (pbits p))).
  rewrite cut_last_app by (eapply no_char_forall; [|exact Hd]; done).
  rewrite ParseAddr_show, Hz by done.
  assert (PrefixFrom (paddr p) (pbits p) = p) as Hp.
  { destruct (PrefixFrom_wf (paddr p) (pbits p)) as [-> _]; [by split|done|]. by destruct p. }
  rewrite Hb, (proj2 (Z.leb_le _ _)), Hp by lia.
  repeat (case_match; simplify_eq; try done).
Qed.

Lemma ParseAddr_no_zone s a : no_char "%" s = true → ParseAddr s = Some a → hasZone a = false.
Proof.
  unfold ParseAddr. intros Hs H.
  assert (Addr4 <$> parse_ipv4 s = Some a ∨ parse_ipv6 s = Some a) as [Ha|Ha].
  { destruct (first_mark s) as [[[] [] [] [] [] [] [] []]|]; try done; auto. }
  - destruct (parse_ipv4 s); by simplify_eq/=.
  - rewrite (parse_ipv6_cut _ _ _ (cut_no_char _ _ Hs)) in Ha by done.
    destruct (v6_body s) as [[acc ell]|]; [|done]. destruct (expand_groups _ _); by simplify_eq/=.
Qed.

Lemma ParseAddr_slash l r : no_char "%" (l +:+ String "/" r) = true → ParseAddr (l +:+ String "/" r) = None.
Proof.
  intros Hz. destruct (ParseAddr _) as [a|] eqn:E; [|done]. exfalso.
  assert (str_forall addr_char (l +:+ String "/" r) = true) as Hc by (eapply ParseAddr_chars, ParseAddr_no_zone; done).
  rewrite str_forall_app in Hc. simpl in Hc. by rewrite andb_false_r in Hc.
Qed.
