(* ===== verification/GoUtf8.v ===== *)
(** UTF-8 texts as Go reads and writes them: [range] over a string,
    [utf8.AppendRune] and [utf8.ValidString].  Standard-library code, not mapped
    to the repository. *)
From Stdlib Require Import Ascii NArith.
From S2P Require Import Prelude GoStrings.
#[local] Open Scope Z_scope.

Definition byte (a : ascii) : Z := Z.of_N (N_of_ascii a).
Definition chr (z : Z) : ascii := ascii_of_N (Z.to_N z).

Lemma utf8_byte_range a : 0 <= byte a < 256.
Proof. unfold byte. pose proof (N_ascii_bounded a). lia. Qed.

Lemma byte_chr z : 0 <= z < 256 → byte (chr z) = z.
Proof. intros H. unfold byte, chr. rewrite N_ascii_embedding; lia. Qed.

Lemma chr_byte a : chr (byte a) = a.
Proof. unfold byte, chr. rewrite N2Z.id. apply ascii_N_embedding. Qed.

Definition RuneError : Z := 0xFFFD.
Definition MaxRune : Z := 0x10FFFF.

Definition cont (b : Z) : bool := (0x80 <=? b) && (b <=? 0xBF).

(** The range of the second byte after the first. *)
Definition second_lo (b0 : Z) : Z := if b0 =? 0xE0 then 0xA0 else if b0 =? 0xF0 then 0x90 else 0x80.
Definition second_hi (b0 : Z) : Z := if b0 =? 0xED then 0x9F else if b0 =? 0xF4 then 0x8F else 0xBF.

(** The runes of a text; a byte that starts no rune is [RuneError], of width 1. *)
Fixpoint runes (s : string) : list Z :=
  match s with
  | EmptyString => []
  | String a s1 =>
      let b0 := byte a in
      if b0 <? 0x80 then b0 :: runes s1
      else if (b0 <? 0xC2) || (0xF4 <? b0) then RuneError :: runes s1
      else match s1 with
      | EmptyString => [RuneError]
      | String b s2 =>
          let b1 := byte b in
          if negb ((second_lo b0 <=? b1) && (b1 <=? second_hi b0)) then RuneError :: runes s1
          else if b0 <? 0xE0 then ((b0 - 0xC0) * 64 + (b1 - 0x80)) :: runes s2
          else match s2 with
          | EmptyString => RuneError :: runes s1
          | String c s3 =>
              let b2 := byte c in
              if negb (cont b2) then RuneError :: runes s1
              else if b0 <? 0xF0 then ((b0 - 0xE0) * 4096 + (b1 - 0x80) * 64 + (b2 - 0x80)) :: runes s3
              else match s3 with
              | EmptyString => RuneError :: runes s1
              | String d s4 =>
                  let b3 := byte d in
                  if negb (cont b3) then RuneError :: runes s1
                  else ((b0 - 0xF0) * 262144 + (b1 - 0x80) * 4096 + (b2 - 0x80) * 64 + (b3 - 0x80)) :: runes s4
              end
          end
      end
  end.

Definition valid_rune (r : Z) : bool := (0 <=? r) && (r <=? MaxRune) && negb ((0xD800 <=? r) && (r <=? 0xDFFF)).

Definition str1 (z : Z) : string := String (chr z) EmptyString.

Definition encode (r : Z) : string :=
  let r := if valid_rune r then r else RuneError in
  if r <? 0x80 then str1 r
  else if r <? 0x800 then str1 (0xC0 + r / 64) +:+ str1 (0x80 + r mod 64)
  else if r <? 0x10000 then str1 (0xE0 + r / 4096) +:+ str1 (0x80 + r / 64 mod 64) +:+ str1 (0x80 + r mod 64)
  else str1 (0xF0 + r / 262144) +:+ str1 (0x80 + r / 4096 mod 64) +:+ str1 (0x80 + r / 64 mod 64) +:+ str1 (0x80 + r mod 64).

Fixpoint encode_all (rs : list Z) : string := match rs with [] => EmptyString | r :: rs => encode r +:+ encode_all rs end.

Lemma encode_len r : (1 ≤ str_len (encode r) ≤ 4)%nat.
Proof. unfold encode. repeat case_match; simpl; lia. Qed.

Lemma encode_all_app a b : encode_all (a ++ b) = encode_all a +:+ encode_all b.
Proof. induction a as [|r a IH]; simpl; [done|]. by rewrite IH, str_app_assoc. Qed.

(** Texts of ASCII characters are their bytes. *)
Definition is_ascii (a : ascii) : bool := byte a <? 0x80.

Lemma runes_ascii a s : is_ascii a = true → runes (String a s) = byte a :: runes s.
Proof. unfold is_ascii. intros H. simpl. by rewrite H. Qed.

Lemma encode_ascii r : 0 <= r < 0x80 → encode r = str1 r.
Proof.
  intros H. unfold encode, valid_rune, MaxRune. replace (_ && _ && _) with true; [|symmetry; rewrite !andb_true_iff, negb_true_iff, andb_false_iff, !Z.leb_le, !Z.leb_gt; lia].
  by replace (r <? 128) with true by (symmetry; apply Z.ltb_lt; lia).
Qed.

#[local] Ltac side := repeat first
  [ rewrite byte_chr by lia
  | match goal with
    | |- context [Z.ltb ?a ?b] => first [replace (Z.ltb a b) with true by (symmetry; apply Z.ltb_lt; lia)
                                        |replace (Z.ltb a b) with false by (symmetry; apply Z.ltb_ge; lia)]
    | |- context [Z.leb ?a ?b] => first [replace (Z.leb a b) with true by (symmetry; apply Z.leb_le; lia)
                                        |replace (Z.leb a b) with false by (symmetry; apply Z.leb_gt; lia)]
    end ].

Lemma second_range b0 b1 : (b0 = 0xE0 → 0xA0 <= b1) → (b0 = 0xF0 → 0x90 <= b1) → (b0 = 0xED → b1 <= 0x9F) → (b0 = 0xF4 → b1 <= 0x8F) →
  0x80 <= b1 <= 0xBF → (second_lo b0 <=? b1) && (b1 <=? second_hi b0) = true.
Proof.
  intros H1 H2 H3 H4 H. apply andb_true_iff. rewrite !Z.leb_le. unfold second_lo, second_hi.
  destruct (Z.eqb_spec b0 0xE0), (Z.eqb_spec b0 0xF0), (Z.eqb_spec b0 0xED), (Z.eqb_spec b0 0xF4); lia.
Qed.

(** Reading back what was written. *)
Lemma runes_encode r s : runes (encode r +:+ s) = (if valid_rune r then r else RuneError) :: runes s.
Proof.
  unfold encode. set (q := if valid_rune r then r else RuneError).
  assert (0 <= q <= MaxRune ∧ ¬ (0xD800 <= q <= 0xDFFF)) as [Hq Hs].
  { unfold q, RuneError, MaxRune. destruct (valid_rune r) eqn:E; [|lia]. unfold valid_rune, MaxRune in E.
    rewrite !andb_true_iff, negb_true_iff, andb_false_iff, !Z.leb_le, !Z.leb_gt in E. lia. }
  clearbody q. unfold MaxRune in Hq.
  destruct (Z.ltb_spec q 0x80); [simpl; side; done|].
  pose proof (Z.mod_pos_bound q 64 ltac:(lia)). pose proof (Z.div_mod q 64 ltac:(lia)).
  destruct (Z.ltb_spec q 0x800).
  { assert (2 <= q / 64 < 32) by lia. simpl. side. cbn [orb]. rewrite second_range by lia. simpl. f_equal. lia. }
  pose proof (Z.mod_pos_bound (q / 64) 64 ltac:(lia)). pose proof (Z.div_mod (q / 64) 64 ltac:(lia)).
  destruct (Z.ltb_spec q 0x10000).
  { replace (q / 4096) with (q / 64 / 64) by (rewrite Z.div_div by lia; done). assert (0 <= q / 64 / 64 < 16) by lia.
    simpl. side. cbn [orb]. rewrite second_range by lia. cbn [negb]. side. unfold cont. side. cbn [andb negb]. side. f_equal. lia. }
  replace (q / 4096) with (q / 64 / 64) by (rewrite Z.div_div by lia; done).
  replace (q / 262144) with (q / 64 / 64 / 64) by (rewrite !Z.div_div by lia; done).
  pose proof (Z.mod_pos_bound (q / 64 / 64) 64 ltac:(lia)). pose proof (Z.div_mod (q / 64 / 64) 64 ltac:(lia)).
  assert (0 <= q / 64 / 64 / 64 <= 4) by lia.
  simpl. side. cbn [orb]. rewrite second_range by lia. cbn [negb]. side. unfold cont. side. cbn [andb negb]. side. cbn [andb negb]. f_equal. lia.
Qed.

Lemma runes_encode_all rs : Forall (λ r, valid_rune r = true) rs → runes (encode_all rs) = rs.
Proof. intros H. induction H as [|r rs Hr _ IH]; simpl; [done|]. by rewrite runes_encode, Hr, IH. Qed.

(** Every rune read is a valid one. *)
Lemma runes_valid s : Forall (λ r, valid_rune r = true) (runes s).
Proof.
  remember (str_len s) as n eqn:Hn. revert s Hn. induction (lt_wf n) as [n _ IH]. intros s ->.
  assert (∀ t, (str_len t < str_len s)%nat → Forall (λ r, valid_rune r = true) (runes t)) as Ht by (intros t Hl; by apply (IH _ Hl)).
  assert (valid_rune RuneError = true) as He by reflexivity.
  assert (∀ r, 0 <= r < 0xD800 ∨ 0xE000 <= r <= MaxRune → valid_rune r = true) as Hv.
  { intros r Hr. unfold valid_rune, MaxRune in *. rewrite !andb_true_iff, negb_true_iff, andb_false_iff, !Z.leb_le, !Z.leb_gt. lia. }
  destruct s as [|a s1]; [constructor|]. simpl. pose proof (utf8_byte_range a).
  destruct (Z.ltb_spec (byte a) 0x80); [constructor; [apply Hv; lia|apply Ht; simpl; lia]|].
  destruct (Z.ltb_spec (byte a) 0xC2), (Z.ltb_spec 0xF4 (byte a)); cbn [orb]; try (constructor; [done|apply Ht; simpl; lia]).
  destruct s1 as [|b s2]; [by repeat constructor|]. pose proof (utf8_byte_range b).
  destruct ((second_lo (byte a) <=? byte b) && (byte b <=? second_hi (byte a))) eqn:E; [|constructor; [done|apply Ht; simpl; lia]].
  apply andb_true_iff in E as [E1%Z.leb_le E2%Z.leb_le]. unfold second_lo, second_hi in E1, E2. cbn [negb].
  destruct (Z.ltb_spec (byte a) 0xE0).
  { constructor; [|apply Ht; simpl; lia]. apply Hv.
    destruct (Z.eqb_spec (byte a) 0xE0), (Z.eqb_spec (byte a) 0xF0), (Z.eqb_spec (byte a) 0xED), (Z.eqb_spec (byte a) 0xF4); lia. }
  destruct s2 as [|c s3]; [constructor; [done|apply Ht; simpl; lia]|]. pose proof (utf8_byte_range c).
  destruct (cont (byte c)) eqn:Ec; [|constructor; [done|apply Ht; simpl; lia]]. unfold cont in Ec.
  apply andb_true_iff in Ec as [Ec1%Z.leb_le Ec2%Z.leb_le]. cbn [negb].
  destruct (Z.ltb_spec (byte a) 0xF0).
  { constructor; [|apply Ht; simpl; lia]. apply Hv.
    destruct (Z.eqb_spec (byte a) 0xE0), (Z.eqb_spec (byte a) 0xF0), (Z.eqb_spec (byte a) 0xED), (Z.eqb_spec (byte a) 0xF4); unfold MaxRune; lia. }
  destruct s3 as [|d s4]; [constructor; [done|apply Ht; simpl; lia]|].
  destruct (cont (byte d)) eqn:Ed; [|constructor; [done|apply Ht; simpl; lia]]. unfold cont in Ed.
  apply andb_true_iff in Ed as [Ed1%Z.leb_le Ed2%Z.leb_le]. cbn [negb].
  constructor; [|apply Ht; simpl; lia]. apply Hv.
  destruct (Z.eqb_spec (byte a) 0xE0), (Z.eqb_spec (byte a) 0xF0), (Z.eqb_spec (byte a) 0xED), (Z.eqb_spec (byte a) 0xF4); unfold MaxRune; lia.
Qed.

(** [strings.TrimSpace], with the white space beyond ASCII. *)
Definition wide_spaces : list string := encode <$>
  [0x85; 0xA0; 0x1680; 0x2000; 0x2001; 0x2002; 0x2003; 0x2004; 0x2005; 0x2006; 0x2007; 0x2008; 0x2009; 0x200A; 0x2028; 0x2029; 0x202F; 0x205F; 0x3000].
Definition space_width (s : string) : nat :=
  match s with
  | EmptyString => 0
  | String a _ => if is_space a then 1 else from_option str_len 0%nat (List.find (λ p, has_prefix p s) wide_spaces)
  end.

Fixpoint utrim_left (skip : nat) (s : string) : string :=
  match s with
  | EmptyString => EmptyString
  | String a t =>
      match skip with
      | S k => utrim_left k t
      | O => match space_width s with O => s | S k => utrim_left k t end
      end
  end.
Fixpoint utrim_right (s : string) : string :=
  match s with
  | EmptyString => EmptyString
  | String a t => if bool_decide (utrim_left 0 s = EmptyString) then EmptyString else String a (utrim_right t)
  end.
Definition UTrimSpace (s : string) : string := utrim_right (utrim_left 0 s).

Lemma utrim_left_suffix k s : ∃ t, s = t +:+ utrim_left k s.
Proof.
  revert k. induction s as [|a s IH]; intros k; simpl; [by exists EmptyString|].
  destruct k as [|k]; [destruct (_ : nat) as [|k]; [by exists EmptyString|]|]; destruct (IH k) as (t & E); exists (String a t); simpl; by rewrite <- E.
Qed.

Example utrim_example : UTrimSpace (encode 0xA0 +:+ " a b" +:+ encode 0x3000 +:+ str1 9) = "a b"%string.
Proof. vm_compute. done. Qed.
