(* ===== verification/Policy.v ===== *)
(** Enforcement policy: [internal/config/policy.go].

    The [Policy] record, its defaults, its validation, the accessors the
    decision engine reads, and the surgical rewrite of the [armed:] line.
    YAML decoding is third-party code: [LoadPolicyReader] takes its outcome. *)
From Stdlib Require Import Ascii.
From S2P Require Import Prelude GoStrings Netip NetipParse.

Definition DefaultBanThreshold : Z := 70.
Definition DefaultObserveThreshold : Z := 40.
Definition DefaultMaxBansPerMinute : Z := 30.
Definition DefaultBanIneffectiveGrace : duration := 90 * Second.
Definition DefaultBanIneffectiveMinEvents : Z := 3.
Definition DefaultBanIneffectiveMinEventsInGrace : Z := 200.
Definition DefaultEscalationExemptWindow : duration := 24 * Hour.
Definition MaxEscalationExemptWindow : duration := 7 * 24 * Hour.
Definition GeoBlockScore : Z := 100.

(** The default ladder; a TTL of zero is a permanent ban. *)
Definition DefaultStrikes : list duration := [5 * Minute; Hour; 24 * Hour; 168 * Hour; 0].

Record Policy := MkPolicy {
  Armed : bool;
  BanThreshold : Z;
  ObserveThreshold : Z;
  Strikes : list duration;
  MaxBansPerMinute : Z;
  Allowlist : list string;
  AdminCIDRs : list string;
  BlockCountries : list string;
  BlockASNs : list string;
  BanIneffectiveGrace : duration;
  BanIneffectiveMinEvents : Z;
  BanIneffectiveMinEventsInGrace : option Z;
  EscalationExemptWindow : duration;
  AntiLockout : option bool
}.

Definition InGraceIneffectiveThreshold (p : Policy) : Z :=
  match BanIneffectiveMinEventsInGrace p with
  | None => DefaultBanIneffectiveMinEventsInGrace
  | Some n => if n <? 0 then 1 else n
  end.

Definition RequireAuthenticatedPeer (p : Policy) : bool :=
  match AntiLockout p with Some b => b | None => false end.

Definition IsArmed (p : Policy) : bool := Armed p.

Definition SetArmed (armed : bool) (p : Policy) : Policy :=
  MkPolicy armed (BanThreshold p) (ObserveThreshold p) (Strikes p) (MaxBansPerMinute p)
    (Allowlist p) (AdminCIDRs p) (BlockCountries p) (BlockASNs p) (BanIneffectiveGrace p)
    (BanIneffectiveMinEvents p) (BanIneffectiveMinEventsInGrace p) (EscalationExemptWindow p)
    (AntiLockout p).

(** [escalation_exempt_window]: the default when omitted, then the ceiling. *)
Definition default_exempt_window (w : duration) : duration :=
  let w := if w <=? 0 then DefaultEscalationExemptWindow else w in
  if MaxEscalationExemptWindow <? w then MaxEscalationExemptWindow else w.

Definition applyDefaults (p : Policy) : Policy := {|
  Armed := Armed p;
  BanThreshold := if BanThreshold p =? 0 then DefaultBanThreshold else BanThreshold p;
  ObserveThreshold := ObserveThreshold p;
  Strikes := match Strikes p with [] => DefaultStrikes | l => l end;
  MaxBansPerMinute :=
    if MaxBansPerMinute p =? 0 then DefaultMaxBansPerMinute else MaxBansPerMinute p;
  Allowlist := Allowlist p;
  AdminCIDRs := AdminCIDRs p;
  BlockCountries := BlockCountries p;
  BlockASNs := BlockASNs p;
  BanIneffectiveGrace :=
    if BanIneffectiveGrace p <? DefaultBanIneffectiveGrace
    then DefaultBanIneffectiveGrace else BanIneffectiveGrace p;
  BanIneffectiveMinEvents :=
    if BanIneffectiveMinEvents p <? DefaultBanIneffectiveMinEvents
    then DefaultBanIneffectiveMinEvents else BanIneffectiveMinEvents p;
  BanIneffectiveMinEventsInGrace := Some
    match BanIneffectiveMinEventsInGrace p with
    | None => DefaultBanIneffectiveMinEventsInGrace
    | Some n => if n <? 0 then 1 else n
    end;
  EscalationExemptWindow := default_exempt_window (EscalationExemptWindow p);
  AntiLockout := AntiLockout p
|}.

(** What a rejected policy is rejected for. *)
Inductive policy_error :=
| EBanThreshold | EObserveThreshold | EMaxBans
| EAllowlist (i : nat) | EAdminCIDR (i : nat) | ECountry (i : nat) | EASN (i : nat)
| EDecode.

Definition parseIPOrPrefix (s : string) : bool :=
  bool_decide (is_Some (ParseAddr s)) || bool_decide (is_Some (ParsePrefix s)).

Inductive asn_error := EASNForm | EASNRange.

Fixpoint parse_asn_digits (n : Z) (s : string) : result asn_error Z :=
  match s with
  | EmptyString => Ok n
  | String c s =>
    match digit_val c with
    | None => Err EASNForm
    | Some d =>
      let n := (n * 10 + d) `mod` 2 ^ 64 in
      if 4294967295 <? n then Err EASNRange else parse_asn_digits n s
    end
  end.

Definition parseASN (s : string) : result asn_error Z :=
  if (str_len s <? 3)%nat then Err EASNForm else
  match s with
  | String a (String b rest) =>
    if (bool_decide (a = "A"%char) || bool_decide (a = "a"%char)) &&
       (bool_decide (b = "S"%char) || bool_decide (b = "s"%char))
    then parse_asn_digits 0 rest else Err EASNForm
  | _ => Err EASNForm
  end.

Definition Validate (p : Policy) : result policy_error unit :=
  if (BanThreshold p <? 1) || (100 <? BanThreshold p) then Err EBanThreshold else
  if (ObserveThreshold p <? 0) || (BanThreshold p <=? ObserveThreshold p) then Err EObserveThreshold else
  if MaxBansPerMinute p <=? 0 then Err EMaxBans else
  _ ← check_all (λ i s, if parseIPOrPrefix s then Ok tt else Err (EAllowlist i)) 0 (Allowlist p);
  _ ← check_all (λ i s, match ParsePrefix s with Some _ => Ok tt | None => Err (EAdminCIDR i) end)
        0 (AdminCIDRs p);
  _ ← check_all (λ i s, if (str_len s =? 2)%nat then Ok tt else Err (ECountry i)) 0 (BlockCountries p);
  check_all (λ i s, if is_ok (parseASN s) then Ok tt else Err (EASN i)) 0 (BlockASNs p).

(** [decoded] is what the YAML decoder returns for the file. *)
Definition LoadPolicyReader (decoded : result policy_error Policy) : result policy_error Policy :=
  p ← decoded;
  let p := applyDefaults p in
  _ ← Validate p;
  Ok p.

(** ** The [armed:] line

    [armedLineRe], in multi-line mode, applied line by line: [armed], blanks, a
    colon, blanks; [true] or [false]; blanks and an optional comment. *)
Definition is_blank (a : ascii) : bool :=
  bool_decide (a = " "%char) || bool_decide (a = "009"%char).

Fixpoint span_blank (s : string) : string * string :=
  match s with
  | String a s' => if is_blank a then let '(l, r) := span_blank s' in (String a l, r)
                   else (EmptyString, s)
  | EmptyString => (EmptyString, EmptyString)
  end.

Definition strip (p s : string) : option string :=
  if has_prefix p s then Some (str_drop (str_len p) s) else None.

Definition armed_tail (s : string) : bool :=
  match (span_blank s).2 with
  | EmptyString => true
  | String "#" _ => true
  | _ => false
  end.

(** The three captures of a matching line. *)
Definition match_armed (line : string) : option (string * bool * string) :=
  rest ← strip "armed" line;
  let '(b1, rest) := span_blank rest in
  rest ← strip ":" rest;
  let '(b2, rest) := span_blank rest in
  let lead := "armed" +:+ b1 +:+ ":" +:+ b2 in
  match strip "true" rest, strip "false" rest with
  | Some t, _ => if armed_tail t then Some (lead, true, t) else None
  | None, Some t => if armed_tail t then Some (lead, false, t) else None
  | None, None => None
  end.

Definition NL : ascii := "010"%char.
Definition NLs : string := String NL EmptyString.
Definition show_bool (b : bool) : string := if b then "true" else "false".

Definition rewrite_line (armed : bool) (line : string) : string :=
  match match_armed line with
  | Some (l, _, t) => l +:+ show_bool armed +:+ t
  | None => line
  end.

Definition armed_matches (lines : list string) : list bool :=
  omap (λ l, (λ m, m.1.2) <$> match_armed l) lines.

(** The file system calls of [RewriteArmed] that can fail. *)
Record fs_outcome := MkFs { fs_read : bool; fs_stat : bool; fs_write : bool; fs_rename : bool }.

Inductive rewrite_error := ERead | EAmbiguous (n : nat) | EStat | EWrite | ERename.

(** The content of the policy file afterwards, with the error returned. *)
Definition RewriteArmed (fs : fs_outcome) (data : string) (armed : bool)
    : string * result rewrite_error unit :=
  if negb (fs_read fs) then (data, Err ERead) else
  let lines := split_on NL data in
  let n := length (armed_matches lines) in
  if negb (n =? 1)%nat then (data, Err (EAmbiguous n)) else
  let updated := Join (rewrite_line armed <$> lines) NLs in
  if negb (fs_stat fs) then (data, Err EStat) else
  if negb (fs_write fs) then (data, Err EWrite) else
  if negb (fs_rename fs) then (data, Err ERename) else
  (updated, Ok tt).

(** ** What loading guarantees *)
Record policy_wf (p : Policy) : Prop := {
  wf_ban : 1 <= BanThreshold p <= 100;
  wf_observe : 0 <= ObserveThreshold p < BanThreshold p;
  wf_max : 0 < MaxBansPerMinute p;
  wf_strikes : Strikes p ≠ [];
  wf_grace : DefaultBanIneffectiveGrace <= BanIneffectiveGrace p;
  wf_min_events : DefaultBanIneffectiveMinEvents <= BanIneffectiveMinEvents p;
  wf_in_grace : 0 <= InGraceIneffectiveThreshold p;
  wf_window : 0 < EscalationExemptWindow p <= MaxEscalationExemptWindow;
  wf_allow : Forall (λ s, parseIPOrPrefix s = true) (Allowlist p);
  wf_admin : Forall (λ s, is_Some (ParsePrefix s)) (AdminCIDRs p);
  wf_asn : Forall (λ s, ∃ n, parseASN s = Ok n) (BlockASNs p)
}.

Lemma default_exempt_window_range w :
  0 < default_exempt_window w <= MaxEscalationExemptWindow.
Proof.
  unfold default_exempt_window, MaxEscalationExemptWindow, DefaultEscalationExemptWindow, Hour, Minute, Second.
  repeat case_match; bool_hyps; lia.
Qed.

Lemma check_all_Forall {E A} (f : nat → A → result E unit) (P : A → Prop) l :
  (∀ i x, f i x = Ok tt → P x) → check_all f 0 l = Ok tt → Forall P l.
Proof.
  intros Hf H. apply Forall_lookup. intros i x Hx.
  rewrite check_all_ok in H. exact (Hf _ _ (H i x Hx)).
Qed.

Lemma Validate_spec p : Validate p = Ok tt →
  1 <= BanThreshold p <= 100 ∧ 0 <= ObserveThreshold p < BanThreshold p ∧ 0 < MaxBansPerMinute p ∧
  Forall (λ s, parseIPOrPrefix s = true) (Allowlist p) ∧
  Forall (λ s, is_Some (ParsePrefix s)) (AdminCIDRs p) ∧
  Forall (λ s, ∃ n, parseASN s = Ok n) (BlockASNs p).
Proof.
  unfold Validate, mbind, result_mbind, result_bind. intros H.
  destruct (_ || _) eqn:H1 in H; [done|]. destruct (_ || _) eqn:H2 in H; [done|].
  destruct (_ <=? 0) eqn:H3 in H; [done|].
  destruct (check_all _ 0 (Allowlist p)) as [[]|] eqn:H4; [|done].
  destruct (check_all _ 0 (AdminCIDRs p)) as [[]|] eqn:H5; [|done].
  destruct (check_all _ 0 (BlockCountries p)) as [[]|] eqn:H6; [|done].
  bool_hyps. repeat split; try lia; (eapply check_all_Forall; [|eassumption]); simpl.
  - intros i x. by destruct (parseIPOrPrefix x).
  - intros i x. destruct (ParsePrefix x); [eauto|done].
  - intros i x. destruct (parseASN x); [eauto|done].
Qed.

Lemma applyDefaults_strikes p : Strikes (applyDefaults p) ≠ [].
Proof. simpl. by destruct (Strikes p). Qed.

Lemma in_grace_threshold_applyDefaults p :
  InGraceIneffectiveThreshold (applyDefaults p) = InGraceIneffectiveThreshold p.
Proof.
  unfold InGraceIneffectiveThreshold. simpl.
  destruct (BanIneffectiveMinEventsInGrace p) as [n|]; [|done].
  destruct (n <? 0) eqn:E; [done|]. by rewrite E.
Qed.

Lemma InGraceIneffectiveThreshold_nonneg p : 0 <= InGraceIneffectiveThreshold p.
Proof.
  unfold InGraceIneffectiveThreshold, DefaultBanIneffectiveMinEventsInGrace.
  destruct (BanIneffectiveMinEventsInGrace p) as [n|]; [|lia]. destruct (n <? 0) eqn:E; bool_hyps; lia.
Qed.

(** A policy file that loads satisfies every bound the safety rules rely
    on: thresholds in range and ordered, a positive ban cap, a non-empty
    ladder, the minimum grace and event counts, an exemption window that is
    positive and never beyond seven days, and allowlist, admin and ASN entries
    that all parse. *)
Theorem LoadPolicyReader_wf decoded p :
  LoadPolicyReader decoded = Ok p → policy_wf p.
Proof.
  unfold LoadPolicyReader, mbind, result_mbind, result_bind. intros H.
  destruct decoded as [q|]; [|done].
  destruct (Validate (applyDefaults q)) as [[]|] eqn:HV; [|done]. simplify_eq.
  apply Validate_spec in HV as (? & ? & ? & ? & ? & ?).
  split; try done.
  - apply applyDefaults_strikes.
  - simpl. case_match; bool_hyps; lia.
  - simpl. case_match; bool_hyps; lia.
  - apply InGraceIneffectiveThreshold_nonneg.
  - apply default_exempt_window_range.
Qed.

(** The YAML zero value with nothing but an allowlist entry. *)
Definition sample_decoded : Policy :=
  MkPolicy false 0 40 [] 0 ["192.0.2.0/24"] [] [] ["AS64500"] 0 0 None 0 None.

Definition sample_policy : Policy := applyDefaults sample_decoded.

Lemma LoadPolicyReader_wf_witness :
  LoadPolicyReader (Ok sample_decoded) = Ok sample_policy ∧ policy_wf sample_policy.
Proof.
  assert (H : LoadPolicyReader (Ok sample_decoded) = Ok sample_policy) by (vm_compute; reflexivity).
  split; [exact H|]. exact (LoadPolicyReader_wf _ _ H).
Defined.

(** Applying the defaults twice changes nothing: a policy that was loaded
    and rendered back loads to itself. *)
Theorem applyDefaults_idemp p : applyDefaults (applyDefaults p) = applyDefaults p.
Proof.
  unfold applyDefaults, default_exempt_window. simpl. f_equal.
  - by destruct (BanThreshold p =? 0) eqn:E; rewrite ?E.
  - by destruct (Strikes p).
  - by destruct (MaxBansPerMinute p =? 0) eqn:E; rewrite ?E.
  - by destruct (BanIneffectiveGrace p <? _) eqn:E; rewrite ?E.
  - by destruct (BanIneffectiveMinEvents p <? _) eqn:E; rewrite ?E.
  - f_equal. destruct (BanIneffectiveMinEventsInGrace p) as [n|]; [|done].
    by destruct (n <? 0) eqn:E; rewrite ?E.
  - change (default_exempt_window (default_exempt_window (EscalationExemptWindow p)) =
            default_exempt_window (EscalationExemptWindow p)).
    pose proof (default_exempt_window_range (EscalationExemptWindow p)) as Hw.
    set (w := default_exempt_window (EscalationExemptWindow p)) in *. clearbody w.
    unfold default_exempt_window. rewrite (proj2 (Z.leb_gt _ _)) by lia.
    by rewrite (proj2 (Z.ltb_ge _ _)) by lia.
Qed.

(** ** ASN entries *)
Lemma parse_base_mono acc s n : 0 <= acc → parse_base digit_val 10 acc s = Some n → acc <= n.
Proof.
  revert acc. induction s as [|a s IH]; intros acc Ha; simpl; [intros [= ->]; lia|].
  destruct (digit_val a) as [d|] eqn:E; [|done]. apply digit_val_nonneg in E.
  intros H. apply IH in H; lia.
Qed.

Lemma digit_val_lt a d : digit_val a = Some d → d < 10.
Proof. unfold digit_val. intros. cases. bool_hyps. lia. Qed.

Lemma parse_asn_digits_spec s acc n : 0 <= acc < 2 ^ 32 →
  parse_asn_digits acc s = Ok n ↔ parse_base digit_val 10 acc s = Some n ∧ n < 2 ^ 32.
Proof.
  change (2 ^ 32) with 4294967296.
  revert acc. induction s as [|c s IH]; intros acc Ha; simpl.
  { split; [intros [= <-]; split; [done|lia]|intros [[= <-] _]; done]. }
  destruct (digit_val c) as [d|] eqn:E; [|split; [done|by intros [? _]]].
  pose proof (digit_val_nonneg _ _ E). pose proof (digit_val_lt _ _ E).
  rewrite Z.mod_small by (change (2 ^ 64) with 18446744073709551616; lia).
  destruct (4294967295 <? acc * 10 + d) eqn:Hlt; bool_hyps.
  - split; [done|]. intros [Hp%parse_base_mono ?]; lia.
  - apply IH. lia.
Qed.

(** [parseASN] accepts exactly the texts "AS" (in either case) followed by
    at least one decimal digit whose value fits 32 bits, and returns that
    value: the guard inside its loop keeps the 64-bit accumulator from ever
    wrapping. *)
Theorem parseASN_spec s n :
  parseASN s = Ok n ↔
    ∃ a b d, s = String a (String b d) ∧ (a = "A" ∨ a = "a")%char ∧ (b = "S" ∨ b = "s")%char ∧
      d ≠ EmptyString ∧ parse_base digit_val 10 0 d = Some n ∧ n < 2 ^ 32.
Proof.
  unfold parseASN. destruct (str_len s <? 3)%nat eqn:Hlen.
  { apply Nat.ltb_lt in Hlen. split; [done|]. intros (a & b & d & -> & _ & _ & Hd & _).
    destruct d; simpl in *; [done|lia]. }
  apply Nat.ltb_ge in Hlen. destruct s as [|a [|b d]]; simpl in Hlen; try lia.
  destruct ((_ || _) && (_ || _)) eqn:Hab.
  - rewrite parse_asn_digits_spec by lia.
    apply andb_true_iff in Hab as [Ha Hb]. apply orb_true_iff in Ha, Hb.
    rewrite !bool_decide_eq_true in Ha, Hb. split.
    + intros [??]. exists a, b, d. destruct d; [simpl in *; lia|]. done.
    + intros (? & ? & ? & [= <- <- <-] & _ & _ & _ & ?). done.
  - split; [done|]. intros (? & ? & ? & [= <- <- <-] & Ha & Hb & _).
    destruct Ha as [-> | ->], Hb as [-> | ->]; done.
Qed.

(** ** Rewriting the armed line *)
Definition blank_str (s : string) : Prop := (span_blank s).2 = EmptyString.

Definition no_blank_head (s : string) : Prop :=
  match s with String a _ => is_blank a = false | EmptyString => True end.

Lemma span_blank_spec s l r : span_blank s = (l, r) →
  s = l +:+ r ∧ no_blank_head r ∧ (∀ t, no_blank_head t → span_blank (l +:+ t) = (l, t)).
Proof.
  revert l r. induction s as [|a s IH]; intros l r; simpl.
  { intros [= <- <-]. repeat split. intros [|b t]; simpl; [done|]. by intros ->. }
  destruct (is_blank a) eqn:Ha.
  - destruct (span_blank s) as [l' r'] eqn:E. intros [= <- <-].
    destruct (IH _ _ eq_refl) as (-> & Hr & Ht). repeat split; [done|].
    intros t Hh. simpl. by rewrite Ha, Ht.
  - intros [= <- <-]. repeat split; [done|]. intros [|b t]; simpl; [done|]. by intros ->.
Qed.

Lemma strip_Some p s t : strip p s = Some t ↔ s = p +:+ t.
Proof.
  unfold strip. split.
  - destruct (has_prefix p s) eqn:E; [|done]. apply has_prefix_spec in E as [u ->].
    rewrite str_drop_app. by intros [= ->].
  - intros ->. by rewrite has_prefix_app, str_drop_app.
Qed.

Lemma strip_app p s : strip p (p +:+ s) = Some s.
Proof. by apply strip_Some. Qed.

(** A matching line is lead, value, tail, and any other value matches in its place. *)
Lemma match_armed_spec line l v t : match_armed line = Some (l, v, t) →
  line = l +:+ show_bool v +:+ t ∧ ∀ b, match_armed (l +:+ show_bool b +:+ t) = Some (l, b, t).
Proof.
  unfold match_armed, mbind, option_bind. intros H.
  destruct (strip "armed" line) as [s1|] eqn:E1; [|done]. apply strip_Some in E1 as ->.
  destruct (span_blank s1) as [b1 s2] eqn:E2. apply span_blank_spec in E2 as (-> & _ & Hb1).
  destruct (strip ":" s2) as [s3|] eqn:E3; [|done]. apply strip_Some in E3 as ->.
  destruct (span_blank s3) as [b2 s4] eqn:E4. apply span_blank_spec in E4 as (-> & _ & Hb2).
  assert (l = "armed" +:+ b1 +:+ ":" +:+ b2 ∧ s4 = show_bool v +:+ t ∧ armed_tail t = true)
    as (-> & -> & Ht).
  { destruct (strip "true" s4) as [u|] eqn:E5.
    - apply strip_Some in E5 as ->. destruct (armed_tail u) eqn:Eu; by simplify_eq.
    - destruct (strip "false" s4) as [u|] eqn:E6; [|done].
      apply strip_Some in E6 as ->. destruct (armed_tail u) eqn:Eu; by simplify_eq. }
  assert (∀ b, match_armed (("armed" +:+ b1 +:+ ":" +:+ b2) +:+ show_bool b +:+ t) =
    Some ("armed" +:+ b1 +:+ ":" +:+ b2, b, t)) as Hm.
  { intros b. rewrite !str_app_assoc. unfold match_armed, mbind, option_bind.
    rewrite strip_app, Hb1, strip_app, Hb2 by (by destruct b).
    destruct b; simpl show_bool.
    - by rewrite strip_app, Ht.
    - change (strip "true" ("false" +:+ t)) with (@None string). by rewrite strip_app, Ht. }
  split; [by rewrite !str_app_assoc|done].
Qed.

Lemma omap_nil_match lines : armed_matches lines = [] → ∀ b, rewrite_line b <$> lines = lines.
Proof.
  unfold armed_matches. induction lines as [|l lines IH]; simpl; [done|]. intros H b.
  unfold rewrite_line at 1. destruct (match_armed l) as [m|] eqn:E; simpl in H; [done|].
  f_equal. by apply IH.
Qed.

(** The only matching line of a file, and what surrounds it. *)
Lemma armed_matches_one lines : length (armed_matches lines) = 1%nat →
  ∃ pre x post l v t, lines = pre ++ x :: post ∧ match_armed x = Some (l, v, t) ∧
    armed_matches pre = [] ∧ armed_matches post = [].
Proof.
  induction lines as [|y lines IH]; simpl; [done|]. unfold armed_matches. simpl.
  destruct (match_armed y) as [[[l v] t]|] eqn:E; simpl.
  - intros [= Hz%nil_length_inv]. by exists [], y, lines, l, v, t.
  - intros H. destruct (IH H) as (pre & x & post & l & v & t & -> & Hx & Hp & Hq).
    exists (y :: pre), x, post, l, v, t. repeat split; try done.
    unfold armed_matches. simpl. by rewrite E.
Qed.

Lemma armed_matches_app a b : armed_matches (a ++ b) = armed_matches a ++ armed_matches b.
Proof. unfold armed_matches. apply omap_app. Qed.

Lemma armed_matches_cons x ls : armed_matches (x :: ls) =
  match match_armed x with Some m => m.1.2 :: armed_matches ls | None => armed_matches ls end.
Proof. unfold armed_matches. simpl. by destruct (match_armed x). Qed.

Definition fs_ok : fs_outcome := MkFs true true true true.

Lemma RewriteArmed_at pre x post l v t b :
  match_armed x = Some (l, v, t) → armed_matches pre = [] → armed_matches post = [] →
  Forall (λ w, no_char NL w = true) (pre ++ x :: post) →
  RewriteArmed fs_ok (Join (pre ++ x :: post) NLs) b =
    (Join (pre ++ (l +:+ show_bool b +:+ t) :: post) NLs, Ok tt).
Proof.
  intros Hx Hp Hq Hnl. unfold RewriteArmed. simpl.
  rewrite split_Join by (done || by destruct pre).
  rewrite armed_matches_app, armed_matches_cons, Hp, Hx, Hq. simpl.
  rewrite fmap_app, fmap_cons, !omap_nil_match by done.
  unfold rewrite_line. by rewrite Hx.
Qed.

(** The line of the switch: the key, blanks allowed around the colon, a value,
    blanks and perhaps a comment; what stands before and after the value. *)
Record armed_line (lead tail : string) : Prop := {
  al_lead : ∃ b1 b2, lead = "armed" +:+ b1 +:+ ":" +:+ b2 ∧ str_forall is_blank (b1 +:+ b2) = true;
  al_tail : ∃ b3 c, tail = b3 +:+ c ∧ str_forall is_blank b3 = true ∧ (c = EmptyString ∨ ∃ u, c = String "#" u);
  al_one : no_char NL (lead +:+ tail) = true
}.

(** [data'] is [data] with the value of that line replaced, every other byte kept. *)
Definition switched (b : bool) (data data' : string) : Prop :=
  ∃ pre lead v tail post, armed_line lead tail ∧
    data = Join (pre ++ (lead +:+ show_bool v +:+ tail) :: post) NLs ∧
    data' = Join (pre ++ (lead +:+ show_bool b +:+ tail) :: post) NLs.

Lemma span_blank_forall s : str_forall is_blank (span_blank s).1 = true.
Proof.
  induction s as [|a s IH]; simpl; [done|]. destruct (is_blank a) eqn:Ha; [|done].
  destruct (span_blank s) as [l r]. simpl in *. by rewrite Ha.
Qed.

Lemma armed_tail_spec t : armed_tail t = true → ∃ b c, t = b +:+ c ∧ str_forall is_blank b = true ∧ (c = EmptyString ∨ ∃ u, c = String "#" u).
Proof.
  unfold armed_tail. pose proof (span_blank_forall t) as Hb. destruct (span_blank t) as [b c] eqn:E.
  apply span_blank_spec in E as (-> & _ & _). simpl in *. intros H. exists b, c. split_and!; [done..|].
  destruct c as [|a c]; [by left|right]. exists c. by repeat case_match.
Qed.

Lemma match_armed_line line l v t : match_armed line = Some (l, v, t) → no_char NL line = true → armed_line l t.
Proof.
  intros H Hnl. pose proof (match_armed_spec _ _ _ _ H) as [Hl _].
  assert (armed_tail t = true ∧ ∃ b1 b2, l = "armed" +:+ b1 +:+ ":" +:+ b2 ∧ str_forall is_blank (b1 +:+ b2) = true) as [Ht Hb].
  { unfold match_armed, mbind, option_bind in H. destruct (strip "armed" line) as [s1|]; [|done].
    pose proof (span_blank_forall s1) as B1. destruct (span_blank s1) as [b1 s2]. destruct (strip ":" s2) as [s3|]; [|done].
    pose proof (span_blank_forall s3) as B2. destruct (span_blank s3) as [b2 s4]. simpl in B1, B2.
    assert (str_forall is_blank (b1 +:+ b2) = true) as B by (rewrite str_forall_app, B1; done).
    destruct (strip "true" s4) as [u|]; [destruct (armed_tail u) eqn:Eu; simplify_eq; eauto|].
    destruct (strip "false" s4) as [u|]; [destruct (armed_tail u) eqn:Eu; simplify_eq; eauto|done]. }
  split; [done|by apply armed_tail_spec|]. rewrite Hl, !no_char_app in Hnl. rewrite no_char_app. bool_hyps. by apply andb_true_iff.
Qed.

Lemma RewriteArmed_switched fs data b data' : RewriteArmed fs data b = (data', Ok tt) → switched b data data'.
Proof.
  intros H. pose proof (Join_split NL data) as HJ. fold NLs in HJ.
  assert (length (armed_matches (split_on NL data)) = 1%nat ∧ data' = Join (rewrite_line b <$> split_on NL data) NLs) as [Hn ->].
  { unfold RewriteArmed in H. destruct fs as [[] [] [] []]; simpl in H; simplify_eq;
      destruct (_ =? 1)%nat eqn:E in H; simplify_eq/=; by apply Nat.eqb_eq in E. }
  destruct (armed_matches_one _ Hn) as (pre & x & post & l & v & t & HL & Hx & Hp & Hq).
  exists pre, l, v, t, post. split; [|split].
  - apply (match_armed_line x l v); [done|]. apply (split_on_no_char NL data). rewrite HL. apply elem_of_app. right. by left.
  - rewrite <- HJ, HL. by rewrite (proj1 (match_armed_spec _ _ _ _ Hx)).
  - rewrite HL, fmap_app, fmap_cons, !omap_nil_match by done. unfold rewrite_line. by rewrite Hx.
Qed.

(** Arming is surgical: when [RewriteArmed] succeeds, exactly the
    [true]/[false] of the one recognised line changes and every other byte of
    the file is kept; the new file reads back as the requested value; and
    rewriting the old value restores the file byte for byte. *)
Theorem RewriteArmed_surgical fs data b data' :
  RewriteArmed fs data b = (data', Ok tt) →
  ∃ before v after,
    armed_matches (split_on NL data) = [v] ∧
    data = before +:+ show_bool v +:+ after ∧
    data' = before +:+ show_bool b +:+ after ∧
    armed_matches (split_on NL data') = [b] ∧
    RewriteArmed fs_ok data' v = (data, Ok tt).
Proof.
  intros H. pose proof (Join_split NL data) as HJ. fold NLs in HJ.
  assert (length (armed_matches (split_on NL data)) = 1%nat ∧
          data' = Join (rewrite_line b <$> split_on NL data) NLs) as [Hn ->].
  { unfold RewriteArmed in H. destruct fs as [[] [] [] []]; simpl in H; simplify_eq;
      destruct (_ =? 1)%nat eqn:E in H; simplify_eq/=; by apply Nat.eqb_eq in E. }
  assert (Forall (λ w, no_char NL w = true) (split_on NL data)) as Hnl.
  { apply Forall_forall. intros w Hw. by eapply split_on_no_char. }
  destruct (armed_matches_one _ Hn) as (pre & x & post & l & v & t & HL & Hx & Hp & Hq).
  rewrite HL in *. clear H Hn. pose proof (match_armed_spec _ _ _ _ Hx) as [Hxe Hxb].
  set (x' := l +:+ show_bool b +:+ t).
  assert (rewrite_line b <$> pre ++ x :: post = pre ++ x' :: post) as Hrw.
  { rewrite fmap_app, fmap_cons, !omap_nil_match by done. unfold rewrite_line. by rewrite Hx. }
  assert (Forall (λ w, no_char NL w = true) (pre ++ x' :: post)) as Hnl'.
  { apply Forall_app in Hnl as [? [Hxn ?]%Forall_cons]. apply Forall_app. split; [done|].
    constructor; [|done]. subst x'. rewrite Hxe, !no_char_app in Hxn. rewrite !no_char_app.
    bool_hyps. repeat (apply andb_true_iff; split); try done. by destruct b. }
  destruct (Join_at pre post NLs) as (a & c & Hac).
  exists (a +:+ l), v, (t +:+ c). rewrite Hrw.
  assert (∀ y, armed_matches (pre ++ y :: post) = match match_armed y with Some m => [m.1.2] | None => [] end) as Hm.
  { intros y. by rewrite armed_matches_app, armed_matches_cons, Hp, Hq. }
  rewrite Hm, Hx. repeat split.
  - rewrite <- HJ, Hac, Hxe, !str_app_assoc. reflexivity.
  - rewrite Hac. unfold x'. rewrite !str_app_assoc. reflexivity.
  - rewrite split_Join by (done || by destruct pre). unfold x'. by rewrite Hm, Hxb.
  - rewrite (RewriteArmed_at _ _ _ _ _ _ _ (Hxb b) Hp Hq Hnl'). by rewrite <- Hxe, HJ.
Qed.

Definition sample_policy_file : string :=
  "# my policy" +:+ NLs +:+ "armed: false   # flip me" +:+ NLs +:+ "ban_threshold: 70" +:+ NLs.

Lemma RewriteArmed_surgical_witness :
  ∃ data', RewriteArmed fs_ok sample_policy_file true = (data', Ok tt) ∧
    ∃ before v after, armed_matches (split_on NL sample_policy_file) = [v] ∧
      sample_policy_file = before +:+ show_bool v +:+ after ∧
      data' = before +:+ show_bool true +:+ after ∧
      armed_matches (split_on NL data') = [true] ∧
      RewriteArmed fs_ok data' v = (sample_policy_file, Ok tt).
Proof.
  eexists. assert (H : RewriteArmed fs_ok sample_policy_file true =
    (_, Ok tt)) by (vm_compute; reflexivity).
  split; [exact H|]. exact (RewriteArmed_surgical _ _ _ _ H).
Defined.

(** Any failure leaves the policy file as it was: no outcome of the file
    system and no ambiguous file can make [RewriteArmed] report an error after
    changing a byte. *)
Theorem RewriteArmed_error_unchanged fs data b data' e :
  RewriteArmed fs data b = (data', Err e) → data' = data.
Proof.
  unfold RewriteArmed. intros H. destruct fs as [[] [] [] []]; simpl in H; simplify_eq; try done;
    destruct (negb _) in H; by simplify_eq.
Qed.

Lemma RewriteArmed_error_unchanged_witness :
  RewriteArmed fs_ok "armed: maybe" true = ("armed: maybe", Err (EAmbiguous 0)) ∧
  "armed: maybe" = "armed: maybe".
Proof.
  assert (H : RewriteArmed fs_ok "armed: maybe" true = ("armed: maybe", Err (EAmbiguous 0)))
    by (vm_compute; reflexivity).
  split; [exact H|]. exact (RewriteArmed_error_unchanged _ _ _ _ _ H).
Defined.
