(* ===== verification/Sdk.v ===== *)
(** The shared vocabulary of the components: [pkg/sdk/types.go].

    [Confidence] and [CostUSD] are floats the modelled code only carries;
    they are rationals here.  An absent [Raw] is the empty string. *)
From Stdlib Require Import QArith.
From S2P Require Import Prelude Netip.
#[local] Open Scope Z_scope.

#[export] Instance Q_eq_dec : EqDecision Q.
Proof. solve_decision. Defined.

Definition EvidenceRawCap : nat := 512.
Definition EvidenceMaxLines : nat := 5.

Record Event := MkEvent {
  ev_Time : time;
  SourceIP : addr;
  Kind : string;
  Fields : gmap string string;
  Origin : string;
  Raw : string
}.

Record Aggregate := MkAggregate {
  agg_IP : addr;
  Window : duration;
  Count : Z;
  Kinds : gmap string Z;
  Sample : list Event
}.

Record Verdict := MkVerdict {
  v_IP : addr;
  Score : Z;
  Category : string;
  Confidence : Q;
  v_Reason : string;
  v_Source : string;
  SuggestTTL : duration;
  Evidence : list string
}.

#[export] Instance Verdict_eq_dec : EqDecision Verdict.
Proof. solve_decision. Defined.

(** The closed action vocabulary; [expire], [allow_expire], [retention_prune]
    and the like appear only in audit rows. *)
Inductive Op :=
| ban | dry_ban | unban | expired | record | notify_only | already_banned | allow_add.

#[export] Instance Op_eq_dec : EqDecision Op.
Proof. solve_decision. Defined.

Record Action := MkAction {
  act_IP : addr;
  act_Op : Op;
  act_TTL : duration;
  Permanent : bool;
  Strike : Z;
  act_Reason : string;
  Verdicts : list Verdict
}.

#[export] Instance Action_eq_dec : EqDecision Action.
Proof. solve_decision. Defined.

(** An action that carries no ban: no TTL, no strike. *)
Definition plain_action (ip : addr) (op : Op) (reason : string) (vs : list Verdict) : Action :=
  MkAction ip op 0 false 0 reason vs.

(** Exactly one of the four is set; the zero values are [AddrNone], an invalid
    prefix, ASN 0 and the empty country. *)
Record Target := MkTarget {
  t_IP : addr;
  t_Prefix : prefix;
  t_ASN : Z;
  t_Country : string;
  t_TTL : duration
}.

#[export] Instance Target_eq_dec : EqDecision Target.
Proof. solve_decision. Defined.

Record Usage := MkUsage { InputTokens : Z; OutputTokens : Z; CostUSD : Q }.

Record TokenBudget := MkBudget { Remaining : Z; DailyLimit : Z }.
