(* ===== verification/Aggregate.v ===== *)
(** Per-IP sliding-window aggregation: [internal/aggregate/aggregate.go].

    One bucket per IP holds the newest events (the raw sample, in arrival
    order) and, once the sample cap was hit, per-time-slot counters of the
    events the cap evicted.  The mutex makes every method atomic, so methods
    are functions on the aggregator state; the iteration order of the Go map,
    which only [evictLRU] depends on, is an argument. *)
From Stdlib Require Import Sorted.
From S2P Require Import Prelude Netip Sdk.

Definition DefaultMaxSamples : Z := 4096.
Definition minOverflowBucket : duration := Second.
Definition maxOverflowBucket : duration := Minute.
Definition overflowBucketDiv : Z := 12.

Record entry := MkEntry { at_ : time; ev : Event; counters : list string }.

Record overflowSlot := MkSlot { events : Z; slot_kinds : gmap string Z }.

(** [overflow = None] is the nil map. *)
Record ipBucket := MkBucket {
  entries : list entry;
  overflow : option (gmap Z overflowSlot);
  overflowMin : Z;
  lastSeen : time
}.

Record Aggregator := MkAggregator {
  windows : list duration;
  maxWindow : duration;
  bucket : duration;
  maxSamp : Z;
  maxIPs : Z;
  classify : option (Event → list string);
  buckets : gmap addr ipBucket
}.

Definition set_buckets (m : gmap addr ipBucket) (a : Aggregator) : Aggregator :=
  MkAggregator (windows a) (maxWindow a) (bucket a) (maxSamp a) (maxIPs a) (classify a) m.

(** [New] indexes [windows[0]]: an empty list panics, modelled as [None]. *)
Definition New (ws : list duration) (maxSamples : Z) : option Aggregator :=
  match ws with
  | [] => None
  | w0 :: rest =>
    let maxSamples := if maxSamples <=? 0 then DefaultMaxSamples else maxSamples in
    let maxW := fold_left (λ m w, if m <? w then w else m) rest w0 in
    let minW := fold_left (λ m w, if w <? m then w else m) rest w0 in
    let b := dur_truncate (Z.quot minW overflowBucketDiv) Second in
    let b := if maxOverflowBucket <? b then maxOverflowBucket else b in
    let b := if b <? minOverflowBucket then minOverflowBucket else b in
    Some (MkAggregator ws maxW b maxSamples 0 None ∅)
  end.

Definition WithClassifier (fn : Event → list string) (a : Aggregator) : Aggregator :=
  MkAggregator (windows a) (maxWindow a) (bucket a) (maxSamp a) (maxIPs a) (Some fn) (buckets a).

Definition WithMaxIPs (n : Z) (a : Aggregator) : Aggregator :=
  MkAggregator (windows a) (maxWindow a) (bucket a) (maxSamp a) n (classify a) (buckets a).

Definition Len (a : Aggregator) : nat := size (buckets a).

Definition Entries (ip : addr) (a : Aggregator) : nat :=
  match buckets a !! ip with Some b => length (entries b) | None => 0 end.

(** [slotBefore]: the slot starting at [key] seconds starts before [cutoff]. *)
Definition slotBefore (key : Z) (cutoff : time) : bool := key * Second <? cutoff.

Fixpoint drop_before (cutoff : time) (es : list entry) : list entry :=
  match es with
  | e :: es' => if at_ e <? cutoff then drop_before cutoff es' else es
  | [] => []
  end.

(** The smallest key of a map, 0 for the empty one. *)
Definition min_key (m : gmap Z overflowSlot) : Z :=
  match map_to_list m with
  | [] => 0
  | (k, _) :: l => fold_left (λ mk kv, Z.min mk kv.1) l k
  end.

Definition trimBefore (cutoff : time) (b : ipBucket) : ipBucket :=
  let es := drop_before cutoff (entries b) in
  match overflow b with
  | None => MkBucket es None (overflowMin b) (lastSeen b)
  | Some m =>
    if decide (es = []) then MkBucket es None 0 (lastSeen b)
    else if negb (slotBefore (overflowMin b) cutoff) then MkBucket es (Some m) (overflowMin b) (lastSeen b)
    else
      let m' := filter (λ kv, slotBefore kv.1 cutoff = false) m in
      MkBucket es (if decide (m' = ∅) then None else Some m') (min_key m') (lastSeen b)
  end.

(** [m[k] += n] on a map of counters. *)
Definition add_count (k : string) (n : Z) (m : gmap string Z) : gmap string Z :=
  <[k := default 0 (m !! k) + n]> m.

(** The kinds an entry increments: its own, then its counters. *)
Definition entry_kinds (e : entry) : list string := Kind (ev e) :: counters e.

Definition count_entry (e : entry) (m : gmap string Z) : gmap string Z :=
  fold_left (λ m k, add_count k 1 m) (entry_kinds e) m.

Definition slot_key (bw : duration) (e : entry) : Z := Unix (time_truncate (at_ e) bw).

(** Folding one evicted entry into the overflow counters. *)
Definition fold_entry (bw : duration) (mm : gmap Z overflowSlot * Z) (e : entry)
    : gmap Z overflowSlot * Z :=
  let '(m, mn) := mm in
  let key := slot_key bw e in
  let slot := default (MkSlot 0 ∅) (m !! key) in
  let mn' := match m !! key with
             | Some _ => mn
             | None => if (size m =? 0)%nat || (key <? mn) then key else mn
             end in
  (<[key := MkSlot (events slot + 1) (count_entry e (slot_kinds slot))]> m, mn').

(** The part of [Add] that works on the IP's own bucket. *)
Definition bucket_add (maxW bw : duration) (maxS : Z) (e : entry) (b : ipBucket) : ipBucket :=
  let b := MkBucket (entries b ++ [e]) (overflow b) (overflowMin b) (at_ e) in
  let b := trimBefore (at_ e - maxW) b in
  let surplus := Z.of_nat (length (entries b)) - maxS in
  if 0 <? surplus then
    let n := Z.to_nat surplus in
    let '(m, mn) := fold_left (fold_entry bw) (take n (entries b))
                      (default ∅ (overflow b), overflowMin b) in
    MkBucket (drop n (entries b)) (Some m) mn (lastSeen b)
  else b.

Definition emptyBucket : ipBucket := MkBucket [] None 0 0.

(** [evictLRU]: [order] is the order the Go runtime iterates the map in. *)
Definition evictLRU (order : list addr) (m : gmap addr ipBucket) : gmap addr ipBucket :=
  let '(lru, _) := fold_left (λ acc ip,
      match m !! ip with
      | None => acc
      | Some b => match acc with
                  | (lru, None) => (ip, Some (lastSeen b))
                  | (lru, Some t) => if lastSeen b <? t then (ip, Some (lastSeen b)) else acc
                  end
      end) order (AddrNone, None) in
  if IsValid lru then delete lru m else m.

Definition Add (order : list addr) (e : Event) (a : Aggregator) : Aggregator :=
  let cs := match classify a with Some f => f e | None => [] end in
  let b := default emptyBucket (buckets a !! SourceIP e) in
  let b := bucket_add (maxWindow a) (bucket a) (maxSamp a) (MkEntry (ev_Time e) e cs) b in
  let m := <[SourceIP e := b]> (buckets a) in
  set_buckets (if (0 <? maxIPs a) && (maxIPs a <? Z.of_nat (size m)) then evictLRU order m else m) a.

(** Merging a slot's counters into the result map. *)
Definition merge_kinds (slot kinds : gmap string Z) : gmap string Z :=
  map_fold add_count kinds slot.

Definition in_window (cutoff : time) (e : entry) : bool := cutoff <=? at_ e.

Definition AggregateIP (ip : addr) (window : duration) (now : time) (a : Aggregator) : Aggregate :=
  let cutoff := now - window in
  match buckets a !! ip with
  | None => MkAggregate ip window 0 ∅ []
  | Some b =>
    let es := List.filter (in_window cutoff) (entries b) in
    let kinds := fold_left (λ m e, count_entry e m) es ∅ in
    let '(total, kinds) := map_fold (λ key slot acc,
        if slotBefore key cutoff then acc
        else (acc.1 + events slot, merge_kinds (slot_kinds slot) acc.2))
      (Z.of_nat (length es), kinds) (default ∅ (overflow b)) in
    MkAggregate ip window total kinds (ev <$> es)
  end.

Definition Reset (ip : addr) (a : Aggregator) : Aggregator := set_buckets (delete ip (buckets a)) a.

(** [Flush] over the buckets reached before the context is cancelled
    ([reached] is that prefix of the iteration order). *)
Definition Flush (reached : list addr) (cutoff : time) (a : Aggregator) : Aggregator :=
  set_buckets (fold_left (λ m ip,
    match m !! ip with
    | None => m
    | Some b => let b := trimBefore cutoff b in
                if decide (entries b = []) then delete ip m else <[ip := b]> m
    end) reached (buckets a)) a.

(** ** Counting *)
Definition weight (k : string) (e : entry) : Z :=
  sumZ (λ x, if decide (x = k) then 1 else 0) (entry_kinds e).

Lemma weight_nonneg k e : 0 <= weight k e.
Proof. apply sumZ_nonneg. intros x. case_decide; lia. Qed.

Lemma get_add_count k j n m : get k (add_count j n m) = get k m + (if decide (j = k) then n else 0).
Proof.
  unfold add_count. fold (get j m). rewrite get_insert. case_decide; subst; lia.
Qed.

Lemma get_fold_count k ks m :
  get k (fold_left (λ m k, add_count k 1 m) ks m) =
  get k m + sumZ (λ x, if decide (x = k) then 1 else 0) ks.
Proof.
  revert m. induction ks as [|j ks IH]; intros m; simpl; [lia|].
  rewrite IH, get_add_count. lia.
Qed.

Lemma get_count_entry k e m : get k (count_entry e m) = get k m + weight k e.
Proof. apply get_fold_count. Qed.

Lemma get_count_entries k es m :
  get k (fold_left (λ m e, count_entry e m) es m) = get k m + sumZ (weight k) es.
Proof.
  revert m. induction es as [|e es IH]; intros m; simpl; [lia|].
  rewrite IH, get_count_entry. lia.
Qed.

Lemma get_merge_kinds k slot kinds : get k (merge_kinds slot kinds) = get k kinds + get k slot.
Proof.
  unfold merge_kinds. induction slot as [|j n m Hj Hfst IH] using map_first_key_ind.
  { rewrite map_fold_empty, get_empty. lia. }
  rewrite map_fold_insert_first_key by done. rewrite get_add_count, IH, get_insert.
  case_decide; subst; [rewrite (get_None k m) by done|]; lia.
Qed.

(** What the overflow slots that start at or after [c] add to kind [k]. *)
Definition over_kind (c : time) (k : string) (m : gmap Z overflowSlot) : Z :=
  map_sum (λ key s, if slotBefore key c then 0 else get k (slot_kinds s)) m.

Definition over_events (c : time) (m : gmap Z overflowSlot) : Z :=
  map_sum (λ key s, if slotBefore key c then 0 else events s) m.

Lemma overflow_fold c m n0 k0 :
  let r := map_fold (λ key slot acc,
        if slotBefore key c then acc
        else (acc.1 + events slot, merge_kinds (slot_kinds slot) acc.2)) (n0, k0) m in
  r.1 = n0 + over_events c m ∧ ∀ k, get k r.2 = get k k0 + over_kind c k m.
Proof.
  unfold over_events, over_kind.
  induction m as [|key s m Hk Hfst IH] using map_first_key_ind; cbv zeta in *.
  { rewrite map_fold_empty, map_sum_empty. simpl. split; [lia|]. intros. rewrite map_sum_empty. lia. }
  rewrite map_fold_insert_first_key by done. destruct IH as [IH1 IH2].
  rewrite map_sum_insert_new by done. split.
  - destruct (slotBefore key c); simpl; rewrite IH1; lia.
  - intros k. rewrite map_sum_insert_new by done.
    destruct (slotBefore key c); simpl; rewrite ?get_merge_kinds, IH2; lia.
Qed.

(** The aggregate of one bucket, in closed form. *)
Lemma AggregateIP_spec ip w now a b : buckets a !! ip = Some b →
  let c := now - w in let r := AggregateIP ip w now a in
  Count r = sumZ (λ e, if in_window c e then 1 else 0) (entries b)
            + over_events c (default ∅ (overflow b)) ∧
  (∀ k, get k (Kinds r) = sumZ (λ e, if in_window c e then weight k e else 0) (entries b)
            + over_kind c k (default ∅ (overflow b))) ∧
  Sample r = ev <$> List.filter (in_window c) (entries b).
Proof.
  intros Hb. cbv zeta. unfold AggregateIP. rewrite Hb.
  set (c := now - w). set (es := List.filter (in_window c) (entries b)).
  pose proof (overflow_fold c (default ∅ (overflow b)) (Z.of_nat (length es))
    (fold_left (λ m e, count_entry e m) es ∅)) as [H1 H2].
  destruct (map_fold _ _ _) as [total kinds]. simpl in *. split; [|split; [|done]].
  - rewrite H1. f_equal. by rewrite <- sumZ_length, <- sumZ_filter.
  - intros k. rewrite H2, get_count_entries, get_empty, Z.add_0_l.
    by rewrite <- sumZ_filter.
Qed.

(** ** The bucket invariant

    [old] is what left the sample, [c0] the newest cutoff the bucket was
    trimmed at.  From any later cutoff the overflow slots count exactly the
    old events whose slot starts in the window. *)
Section bucket.
Context (maxW bw : duration) (maxS : Z).
Hypothesis HmaxW : 0 <= maxW.
Hypothesis HmaxS : 0 < maxS.
Hypothesis Hbw : ∃ q, 0 < q ∧ bw = q * Second.

Lemma slot_key_range e :
  slot_key bw e * Second <= at_ e < slot_key bw e * Second + bw.
Proof using Hbw.
  destruct Hbw as (q & Hq & ->). unfold slot_key, time_truncate, Unix, Second.
  rewrite decide_False by lia.
  set (x := at_ e + unixToInternal * 1000000000). set (w := q * 1000000000).
  assert (0 < w) by lia.
  pose proof (Z.div_mod x w). pose proof (Z.mod_pos_bound x w).
  assert (at_ e - x `mod` w = (q * (x `div` w) - unixToInternal) * 1000000000) as -> by (unfold x, w in *; lia).
  rewrite Z.div_mul by lia. unfold x, w in *. lia.
Qed.

Definition slot_from (c : time) (e : entry) : bool := c <=? slot_key bw e * Second.

Definition old_kind (c : time) (k : string) (old : list entry) : Z :=
  sumZ (λ e, if slot_from c e then weight k e else 0) old.
Definition old_events (c : time) (old : list entry) : Z :=
  sumZ (λ e, if slot_from c e then 1 else 0) old.

Record overflow_inv (old : list entry) (c0 : time) (m : gmap Z overflowSlot) (mn : Z) : Prop := {
  oi_min : ∀ key s, m !! key = Some s → mn <= key;
  oi_kind : ∀ c k, c0 <= c → over_kind c k m = old_kind c k old;
  oi_events : ∀ c, c0 <= c → over_events c m = old_events c old
}.

Definition bucket_inv (old : list entry) (c0 : time) (b : ipBucket) : Prop :=
  overflow_inv old c0 (default ∅ (overflow b)) (overflowMin b).

Lemma slot_from_before c e : at_ e < c → slot_from c e = false.
Proof using Hbw.
  intros. pose proof (slot_key_range e). unfold slot_from. apply Z.leb_gt. lia.
Qed.

Lemma drop_before_split c es : ∃ pre, es = pre ++ drop_before c es ∧ ∀ e, e ∈ pre → at_ e < c.
Proof using.
  induction es as [|e es (pre & IH & Hpre)]; simpl; [by exists []; split; [|intros ? ?%not_elem_of_nil]|].
  destruct (at_ e <? c) eqn:E; bool_hyps.
  - exists (e :: pre). simpl. rewrite <- IH. split; [done|].
    intros e' [->|?]%elem_of_cons; [lia|by apply Hpre].
  - exists []. split; [done|]. by intros ? ?%not_elem_of_nil.
Qed.

Lemma min_key_le m key s : m !! key = Some s → min_key m <= key.
Proof using.
  intros Hm%elem_of_map_to_list. unfold min_key.
  destruct (map_to_list m) as [|[k v] l]; [by apply not_elem_of_nil in Hm|].
  assert (∀ l a, fold_left (λ mk (kv : Z * overflowSlot), mk `min` kv.1) l a <= a ∧
    ∀ kv, kv ∈ l → fold_left (λ mk (kv : Z * overflowSlot), mk `min` kv.1) l a <= kv.1) as Hf.
  { clear. induction l as [|kv l IH]; intros a; simpl; [by split; [|intros ? ?%not_elem_of_nil]|].
    destruct (IH (a `min` kv.1)) as [H1 H2]. split; [lia|].
    intros kv' [->|Hin]%elem_of_cons; [lia|by apply H2]. }
  destruct (Hf l k) as [H1 H2]. apply elem_of_cons in Hm as [[= -> ->]|Hm]; [done|].
  by apply (H2 (key, s)).
Qed.

Lemma over_filter_kind c1 c k (m : gmap Z overflowSlot) : c1 <= c →
  over_kind c k (filter (λ kv, slotBefore kv.1 c1 = false) m) = over_kind c k m.
Proof using.
  intros Hc. unfold over_kind. rewrite map_sum_filter. apply map_sum_ext. intros key s _.
  case_decide as Hd; [done|]. simpl in Hd. unfold slotBefore in *.
  destruct (key * Second <? c1) eqn:E; [|done]. bool_hyps.
  rewrite (proj2 (Z.ltb_lt _ _)); [done|lia].
Qed.

Lemma over_filter_events c1 c (m : gmap Z overflowSlot) : c1 <= c →
  over_events c (filter (λ kv, slotBefore kv.1 c1 = false) m) = over_events c m.
Proof using.
  intros Hc. unfold over_events. rewrite map_sum_filter. apply map_sum_ext. intros key s _.
  case_decide as Hd; [done|]. simpl in Hd. unfold slotBefore in *.
  destruct (key * Second <? c1) eqn:E; [|done]. bool_hyps.
  rewrite (proj2 (Z.ltb_lt _ _)); [done|lia].
Qed.

Lemma old_before_zero c pre : (∀ e, e ∈ pre → at_ e < c) →
  (∀ k, old_kind c k pre = 0) ∧ old_events c pre = 0.
Proof using Hbw.
  intros H. unfold old_kind, old_events.
  split; intros; apply sumZ_zero; intros e He; by rewrite slot_from_before by auto.
Qed.

Lemma old_kind_app c k a b : old_kind c k (a ++ b) = old_kind c k a + old_kind c k b.
Proof using. apply sumZ_app. Qed.
Lemma old_events_app c a b : old_events c (a ++ b) = old_events c a + old_events c b.
Proof using. apply sumZ_app. Qed.

Lemma overflow_inv_old old pre c0 c1 m mn : c0 <= c1 → (∀ e, e ∈ pre → at_ e < c1) →
  overflow_inv old c0 m mn → overflow_inv (old ++ pre) c1 m mn.
Proof using Hbw.
  intros Hc Hpre [Hm Hk He]. split; [done|..].
  - intros c k ?. rewrite old_kind_app, Hk by lia.
    rewrite (proj1 (old_before_zero c pre ltac:(intros e ?%Hpre; lia)) k). lia.
  - intros c ?. rewrite old_events_app, He by lia.
    rewrite (proj2 (old_before_zero c pre ltac:(intros e ?%Hpre; lia))). lia.
Qed.

Lemma overflow_inv_filter old c0 m mn : overflow_inv old c0 m mn →
  overflow_inv old c0 (filter (λ kv, slotBefore kv.1 c0 = false) m)
    (min_key (filter (λ kv, slotBefore kv.1 c0 = false) m)).
Proof using.
  intros [Hm Hk He]. split.
  - intros key s. apply min_key_le.
  - intros c k ?. by rewrite over_filter_kind, Hk.
  - intros c ?. by rewrite over_filter_events, He.
Qed.

(** Trimming drops a prefix of the sample and keeps the invariant at the new
    cutoff: the [overflowMin] shortcut changes nothing that is counted. *)
Lemma trimBefore_inv old c0 c1 b : c0 <= c1 →
  (drop_before c1 (entries b) = [] → ∀ e, e ∈ old → at_ e < c1) →
  bucket_inv old c0 b →
  ∃ pre, entries b = pre ++ entries (trimBefore c1 b) ∧
    entries (trimBefore c1 b) = drop_before c1 (entries b) ∧
    lastSeen (trimBefore c1 b) = lastSeen b ∧
    bucket_inv (old ++ pre) c1 (trimBefore c1 b).
Proof using Hbw.
  intros Hc Hempty Hinv. destruct (drop_before_split c1 (entries b)) as (pre & Hpre & Hlt).
  exists pre. unfold bucket_inv, trimBefore in *.
  pose proof (overflow_inv_old _ pre _ _ _ _ Hc Hlt Hinv) as Hi.
  destruct (overflow b) as [m|] eqn:Eo; simpl in *; [|done].
  case_decide as Hd.
  - simpl. repeat split; try done.
    + intros c k ?. unfold over_kind. rewrite map_sum_empty. symmetry.
      apply old_before_zero. intros e [He|He]%elem_of_app; [specialize (Hempty Hd e He)|specialize (Hlt e He)]; lia.
    + intros c ?. unfold over_events. rewrite map_sum_empty. symmetry.
      apply old_before_zero. intros e [He|He]%elem_of_app; [specialize (Hempty Hd e He)|specialize (Hlt e He)]; lia.
  - destruct (negb _) eqn:En; [done|].
    apply overflow_inv_filter in Hi. set (m' := filter _ _) in *.
    case_decide as Hm'; simpl; [rewrite Hm' in Hi |- *|]; done.
Qed.

Lemma fold_entry_inv old c0 m mn e : overflow_inv old c0 m mn →
  overflow_inv (old ++ [e]) c0 (fold_entry bw (m, mn) e).1 (fold_entry bw (m, mn) e).2.
Proof using.
  intros [Hm Hk He]. unfold fold_entry. set (key := slot_key bw e). cbn [fst snd]. split.
  - intros key' s. rewrite lookup_insert. case_decide as Hd.
    + intros _. subst key'. destruct (m !! key) as [s0|] eqn:E; [by eapply Hm|].
      destruct (_ || _) eqn:Eb; bool_hyps; lia.
    + intros Hl. pose proof (Hm _ _ Hl). destruct (m !! key) as [s0|] eqn:E; [done|].
      destruct (size m =? 0)%nat eqn:Es; simpl.
      { apply Nat.eqb_eq, map_size_empty_inv in Es. subst m. by rewrite lookup_empty in Hl. }
      destruct (key <? mn) eqn:Ek; bool_hyps; lia.
  - intros c k Hc. unfold over_kind. rewrite map_sum_insert. fold (over_kind c k m).
    rewrite Hk, old_kind_app by done. unfold old_kind at 3. simpl. unfold slot_from, slotBefore. fold key.
    destruct (key * Second <? c) eqn:Eb; bool_hyps.
    + rewrite (proj2 (Z.leb_gt _ _)) by lia. destruct (m !! key); simpl; lia.
    + rewrite (proj2 (Z.leb_le _ _)) by lia. rewrite get_count_entry.
      destruct (m !! key); simpl; rewrite ?get_empty; lia.
  - intros c Hc. unfold over_events. rewrite map_sum_insert. fold (over_events c m).
    rewrite He, old_events_app by done. unfold old_events at 3. simpl. unfold slot_from, slotBefore. fold key.
    destruct (key * Second <? c) eqn:Eb; bool_hyps.
    + rewrite (proj2 (Z.leb_gt _ _)) by lia. destruct (m !! key); simpl; lia.
    + rewrite (proj2 (Z.leb_le _ _)) by lia. destruct (m !! key); simpl; lia.
Qed.

Lemma fold_entries_inv es old c0 mm : overflow_inv old c0 mm.1 mm.2 →
  overflow_inv (old ++ es) c0 (fold_left (fold_entry bw) es mm).1 (fold_left (fold_entry bw) es mm).2.
Proof using.
  revert old mm. induction es as [|e es IH]; intros old [m mn] Hi; simpl; [by rewrite app_nil_r|].
  replace (old ++ e :: es) with ((old ++ [e]) ++ es) by (by rewrite <- app_assoc).
  apply IH. by apply fold_entry_inv.
Qed.

Lemma drop_before_last c es e : c <= at_ e → drop_before c (es ++ [e]) ≠ [].
Proof using.
  intros Hc. induction es as [|x es IH]; simpl; [|by destruct (_ <? _)].
  by rewrite (proj2 (Z.ltb_ge _ _)).
Qed.

(** One event: the sample stays a suffix of everything added, within its cap,
    and the overflow counters stay exact from the new cutoff on. *)
Lemma bucket_add_inv old c0 b e : c0 <= at_ e - maxW → bucket_inv old c0 b →
  let b' := bucket_add maxW bw maxS e b in
  ∃ pre, entries b ++ [e] = pre ++ entries b' ∧
    Z.of_nat (length (entries b')) <= maxS ∧ lastSeen b' = at_ e ∧
    bucket_inv (old ++ pre) (at_ e - maxW) b'.
Proof using Hbw HmaxW HmaxS.
  intros Hc Hinv b'. subst b'. unfold bucket_add.
  set (b1 := MkBucket (entries b ++ [e]) (overflow b) (overflowMin b) (at_ e)).
  destruct (trimBefore_inv old c0 (at_ e - maxW) b1) as (pre & Hsp & Hes & Hls & Hi); [done| |done|].
  { simpl. intros Hd. by apply drop_before_last in Hd; [|lia]. }
  set (b2 := trimBefore (at_ e - maxW) b1) in *. simpl in Hsp, Hls.
  destruct (0 <? _) eqn:Es; bool_hyps.
  - set (n := Z.to_nat (Z.of_nat (length (entries b2)) - maxS)).
    destruct (fold_left _ _ _) as [m mn] eqn:Ef. simpl.
    pose proof (fold_entries_inv (take n (entries b2)) _ _
      (default ∅ (overflow b2), overflowMin b2) Hi) as Hf.
    rewrite Ef, <- app_assoc in Hf. exists (pre ++ take n (entries b2)). repeat split.
    + by rewrite Hsp, <- app_assoc, take_drop.
    + rewrite length_drop. lia.
    + done.
    + apply Hf.
    + apply Hf.
    + apply Hf.
  - exists pre. repeat split; try done; try lia; apply Hi.
Qed.

Lemma emptyBucket_inv c0 : bucket_inv [] c0 emptyBucket.
Proof using.
  split; simpl.
  - intros key s. by rewrite lookup_empty.
  - intros. unfold over_kind. by rewrite map_sum_empty.
  - intros. unfold over_events. by rewrite map_sum_empty.
Qed.

(** Adding a whole history, oldest first. *)
Definition bucket_run (es : list entry) : ipBucket :=
  fold_left (λ b e, bucket_add maxW bw maxS e b) es emptyBucket.

(** Times never go back. *)
Definition in_order (es : list entry) : Prop := StronglySorted (λ e f, at_ e <= at_ f) es.

Lemma in_order_snoc es e : in_order (es ++ [e]) ↔ in_order es ∧ ∀ f, f ∈ es → at_ f <= at_ e.
Proof using.
  unfold in_order. induction es as [|x es IH]; simpl.
  - split; [intros _|intros _; repeat constructor]. split; [constructor|by intros ? ?%not_elem_of_nil].
  - split.
    + inversion 1 as [|? ? Hs Hf]; subst. apply IH in Hs as [Hs Hall]. split.
      * constructor; [done|]. by apply Forall_app in Hf as [? _].
      * intros f [->|Hin]%elem_of_cons; [|by apply Hall].
        apply Forall_app in Hf as [_ Hf]. by inversion Hf.
    + intros [Hs Hall]. inversion Hs as [|? ? Hs' Hf]; subst. constructor.
      * apply IH. split; [done|]. intros f Hin. apply Hall. by right.
      * apply Forall_app. split; [done|]. repeat constructor. apply Hall. by left.
Qed.

Lemma bucket_run_inv es e : in_order (es ++ [e]) →
  ∃ old, es ++ [e] = old ++ entries (bucket_run (es ++ [e])) ∧
    Z.of_nat (length (entries (bucket_run (es ++ [e])))) <= maxS ∧
    lastSeen (bucket_run (es ++ [e])) = at_ e ∧
    bucket_inv old (at_ e - maxW) (bucket_run (es ++ [e])).
Proof using Hbw HmaxW HmaxS.
  revert e. induction es as [|x es IH] using rev_ind; intros e Ho.
  - destruct (bucket_add_inv [] (at_ e - maxW) emptyBucket e) as (pre & Hp & ? & ? & ?);
      [lia|apply emptyBucket_inv|]. exists pre. by simpl in *.
  - unfold bucket_run in *. rewrite fold_left_app. simpl.
    apply in_order_snoc in Ho as [Ho Hle]. destruct (IH x Ho) as (old & Hsp & _ & _ & Hi).
    set (b := fold_left _ (es ++ [x]) emptyBucket) in *.
    destruct (bucket_add_inv old (at_ x - maxW) b e) as (pre & Hp & Hn & Hl & Hi'); [|done|].
    { assert (at_ x <= at_ e); [|lia]. apply Hle, elem_of_app. right. by apply list_elem_of_singleton. }
    exists (old ++ pre). repeat split; try done; try apply Hi'.
    rewrite Hsp, <- !app_assoc. by f_equal.
Qed.
End bucket.

(** ** The aggregator *)

(** What [New] establishes, whatever windows it is given. *)
Record agg_wf (a : Aggregator) : Prop := {
  aw_samp : 0 < maxSamp a;
  aw_bucket : ∃ q, 0 < q ∧ bucket a = q * Second;
  aw_range : minOverflowBucket <= bucket a <= maxOverflowBucket;
  aw_max : ∀ w, w ∈ windows a → w <= maxWindow a
}.

Lemma fold_max_ge ws w0 : let m := fold_left (λ m w : Z, if m <? w then w else m) ws w0 in
  w0 <= m ∧ ∀ w, w ∈ ws → w <= m.
Proof.
  revert w0. induction ws as [|w ws IH]; intros w0; simpl; [split; [lia|by intros ? ?%not_elem_of_nil]|].
  destruct (IH (if w0 <? w then w else w0)) as [H1 H2].
  destruct (w0 <? w) eqn:E; bool_hyps; (split; [lia|intros v [->|Hv]%elem_of_cons; [lia|auto]]).
Qed.

Lemma dur_truncate_mult d m : 0 < m → ∃ q, dur_truncate d m = q * m.
Proof.
  intros Hm. unfold dur_truncate. rewrite decide_False by lia.
  exists (Z.quot d m). pose proof (Z.quot_rem' d m). lia.
Qed.

Lemma New_wf ws n a : New ws n = Some a → agg_wf a.
Proof.
  unfold New. destruct ws as [|w0 rest]; [done|]. intros [= <-].
  set (m := fold_left (λ m w : Z, if w <? m then w else m) rest w0).
  destruct (dur_truncate_mult (Z.quot m overflowBucketDiv) Second) as [q Hq]; [done|].
  split; simpl.
  - destruct (n <=? 0) eqn:E; bool_hyps; [done|lia].
  - rewrite Hq. unfold maxOverflowBucket, minOverflowBucket, Minute, Second in *.
    destruct (60 * 1000000000 <? q * 1000000000) eqn:E1; bool_hyps.
    + exists 60. vm_compute. done.
    + destruct (_ <? _) eqn:E2; bool_hyps; [exists 1; lia|exists q; lia].
  - unfold maxOverflowBucket, minOverflowBucket, Minute, Second.
    repeat case_match; bool_hyps; lia.
  - destruct (fold_max_ge rest w0) as [H1 H2].
    intros w [->|Hw]%elem_of_cons; [done|by apply H2].
Qed.

(** The entry an event becomes, and the history of one address. *)
Definition entry_of (a : Aggregator) (e : Event) : entry :=
  MkEntry (ev_Time e) e (match classify a with Some f => f e | None => [] end).

Definition history (ip : addr) (a : Aggregator) (evs : list Event) : list entry :=
  entry_of a <$> List.filter (λ e, bool_decide (SourceIP e = ip)) evs.

(** [Add] without an IP cap never looks at the map's iteration order. *)
Definition AddAll (evs : list Event) (a : Aggregator) : Aggregator :=
  fold_left (λ a e, Add [] e a) evs a.

Lemma Add_params order e a :
  windows (Add order e a) = windows a ∧ maxWindow (Add order e a) = maxWindow a ∧
  bucket (Add order e a) = bucket a ∧ maxSamp (Add order e a) = maxSamp a ∧
  maxIPs (Add order e a) = maxIPs a ∧ classify (Add order e a) = classify a.
Proof. done. Qed.

Lemma Add_buckets e a : maxIPs a <= 0 →
  buckets (Add [] e a) = <[SourceIP e := bucket_add (maxWindow a) (bucket a) (maxSamp a) (entry_of a e)
    (default emptyBucket (buckets a !! SourceIP e))]> (buckets a).
Proof. intros H. unfold Add. simpl. by rewrite (proj2 (Z.ltb_ge _ _)). Qed.

Lemma AddAll_params evs a :
  windows (AddAll evs a) = windows a ∧ maxWindow (AddAll evs a) = maxWindow a ∧
  bucket (AddAll evs a) = bucket a ∧ maxSamp (AddAll evs a) = maxSamp a ∧
  maxIPs (AddAll evs a) = maxIPs a ∧ classify (AddAll evs a) = classify a.
Proof. revert a. induction evs as [|e evs IH]; intros a; simpl; [done|]. apply (IH (Add [] e a)). Qed.

Lemma AddAll_snoc evs e a : AddAll (evs ++ [e]) a = Add [] e (AddAll evs a).
Proof. unfold AddAll. by rewrite fold_left_app. Qed.

Lemma history_snoc ip a evs e : history ip a (evs ++ [e]) =
  history ip a evs ++ (if decide (SourceIP e = ip) then [entry_of a e] else []).
Proof.
  unfold history. rewrite List.filter_app, fmap_app. simpl. f_equal.
  case_decide; [by rewrite bool_decide_eq_true_2|by rewrite bool_decide_eq_false_2].
Qed.

(** Each address's bucket depends on its own events only. *)
Lemma AddAll_bucket ip evs a : maxIPs a <= 0 → buckets a = ∅ →
  buckets (AddAll evs a) !! ip =
    match history ip a evs with
    | [] => None
    | es => Some (bucket_run (maxWindow a) (bucket a) (maxSamp a) es)
    end.
Proof.
  intros HIP He. induction evs as [|e evs IH] using rev_ind; [simpl; by rewrite He, lookup_empty|].
  destruct (AddAll_params evs a) as (_ & Hw & Hb & Hs & Hi & Hc).
  rewrite AddAll_snoc, Add_buckets, Hw, Hb, Hs, history_snoc by lia.
  assert (entry_of (AddAll evs a) e = entry_of a e) as Hent by (unfold entry_of; by rewrite Hc).
  rewrite lookup_insert, Hent. case_decide as Hd.
  - subst ip. rewrite IH. destruct (history _ a evs) as [|x xs] eqn:Eh; [done|].
    rewrite <- app_comm_cons. f_equal. unfold bucket_run.
    rewrite app_comm_cons, fold_left_app. done.
  - by rewrite app_nil_r.
Qed.

Section exact.
Context (a : Aggregator) (Hwf : agg_wf a) (Hcap : maxIPs a <= 0) (Hnew : buckets a = ∅).
Context (evs : list Event) (ip : addr) (w : duration) (now : time).
Let H := history ip a evs.
Hypothesis Hmax : 0 <= maxWindow a.
Hypothesis Hord : in_order H.
Hypothesis Hw : w <= maxWindow a.
Hypothesis Hnow : ∀ e, e ∈ H → at_ e <= now.

(** Every aggregate of a run, as sums over the two halves of the history. *)
Lemma aggregate_run_split :
  let r := AggregateIP ip w now (AddAll evs a) in
  ∃ old es, H = old ++ es ∧ Z.of_nat (length es) <= maxSamp a ∧
    Count r = sumZ (λ e, if in_window (now - w) e then 1 else 0) es + old_events (bucket a) (now - w) old ∧
    (∀ k, get k (Kinds r) = sumZ (λ e, if in_window (now - w) e then weight k e else 0) es
                          + old_kind (bucket a) (now - w) k old) ∧
    Sample r = ev <$> List.filter (in_window (now - w)) es.
Proof using Hwf Hcap Hnew Hmax Hord Hw Hnow.
  destruct Hwf as [Hs Hb _ _]. cbv zeta.
  pose proof (AddAll_bucket ip evs a Hcap Hnew) as HB. fold H in HB.
  clearbody H. destruct (decide (H = [])) as [->|Hne].
  - exists [], []. unfold AggregateIP. rewrite HB. simpl.
    split; [done|]. split; [lia|]. split; [done|]. split; [|done]. intros k. by rewrite get_empty.
  - destruct (exists_last Hne) as (xs & x & ->).
    assert (∃ b, buckets (AddAll evs a) !! ip = Some b ∧
      b = bucket_run (maxWindow a) (bucket a) (maxSamp a) (xs ++ [x])) as (b & Hlb & ->).
    { destruct (xs ++ [x]) eqn:E; [by destruct xs|]. eauto. }
    destruct (AggregateIP_spec ip w now _ _ Hlb) as (HC & HK & HS).
    destruct (bucket_run_inv (maxWindow a) (bucket a) (maxSamp a) Hmax Hs Hb xs x) as (old & Hsp & Hn & _ & Hi);
      [done|].
    assert (at_ x - maxWindow a <= now - w) as Hc.
    { assert (at_ x <= now); [|lia]. apply Hnow, elem_of_app. right. by apply list_elem_of_singleton. }
    exists old, (entries (bucket_run (maxWindow a) (bucket a) (maxSamp a) (xs ++ [x]))).
    repeat split; try done.
    + rewrite HC. f_equal. by apply Hi.
    + intros k. rewrite HK. f_equal. by apply Hi.
Qed.
End exact.

(** Events of the history at or after [c], counted for kind [k]. *)
Definition true_kind (c : time) (k : string) (h : list entry) : Z :=
  sumZ (λ e, if in_window c e then weight k e else 0) h.
Definition true_count (c : time) (h : list entry) : Z :=
  sumZ (λ e, if in_window c e then 1 else 0) h.

Lemma slot_from_window bw c e : (∃ q, 0 < q ∧ bw = q * Second) →
  (slot_from bw c e = true → in_window c e = true) ∧
  (in_window (c + bw) e = true → slot_from bw c e = true ∧ in_window c e = true).
Proof.
  intros Hbw. pose proof (slot_key_range bw Hbw e). unfold slot_from, in_window.
  rewrite !Z.leb_le. destruct Hbw as (q & ? & ->). unfold Second in *. lia.
Qed.

Lemma old_kind_bounds bw c k old : (∃ q, 0 < q ∧ bw = q * Second) →
  true_kind (c + bw) k old <= old_kind bw c k old <= true_kind c k old.
Proof.
  intros Hbw. split; apply sumZ_le; intros e _; pose proof (weight_nonneg k e);
    destruct (slot_from_window bw c e Hbw) as [H1 H2];
    destruct (in_window (c + bw) e), (slot_from bw c e), (in_window c e); naive_solver lia.
Qed.

Lemma old_events_bounds bw c old : (∃ q, 0 < q ∧ bw = q * Second) →
  true_count (c + bw) old <= old_events bw c old <= true_count c old.
Proof.
  intros Hbw. split; apply sumZ_le; intros e _;
    destruct (slot_from_window bw c e Hbw) as [H1 H2];
    destruct (in_window (c + bw) e), (slot_from bw c e), (in_window c e); naive_solver lia.
Qed.

Lemma true_kind_app c k a b : true_kind c k (a ++ b) = true_kind c k a + true_kind c k b.
Proof. apply sumZ_app. Qed.
Lemma true_count_app c a b : true_count c (a ++ b) = true_count c a + true_count c b.
Proof. apply sumZ_app. Qed.

Lemma true_kind_mono c d k h : c <= d → true_kind d k h <= true_kind c k h.
Proof.
  intros. apply sumZ_le. intros e _. pose proof (weight_nonneg k e). unfold in_window.
  destruct (d <=? at_ e) eqn:E; bool_hyps; [rewrite (proj2 (Z.leb_le _ _)) by lia; lia|].
  by destruct (c <=? at_ e).
Qed.
Lemma true_count_mono c d h : c <= d → true_count d h <= true_count c h.
Proof.
  intros. apply sumZ_le. intros e _. unfold in_window.
  destruct (d <=? at_ e) eqn:E; bool_hyps; [rewrite (proj2 (Z.leb_le _ _)) by lia; lia|].
  by destruct (c <=? at_ e).
Qed.

(** What a new aggregator with a classifier satisfies. *)
Lemma New_classified ws n a0 fn : New ws n = Some a0 →
  let a := WithClassifier fn a0 in
  agg_wf a ∧ maxIPs a <= 0 ∧ buckets a = ∅ ∧ bucket a = bucket a0 ∧ maxWindow a = maxWindow a0 ∧ maxSamp a = maxSamp a0.
Proof.
  intros HN. pose proof (New_wf _ _ _ HN) as [H1 H2 H3 H4]. split; [by split|].
  unfold New in HN. destruct ws; [done|]. by injection HN as <-.
Qed.

Section bounds.
Context (a : Aggregator) (Hwf : agg_wf a) (Hcap : maxIPs a <= 0) (Hnew : buckets a = ∅).
Context (evs : list Event) (ip : addr) (w : duration) (now : time).
Context (Hmax : 0 <= maxWindow a) (Hw : w <= maxWindow a).
Context (Hord : in_order (history ip a evs)) (Hnow : ∀ e, e ∈ history ip a evs → at_ e <= now).

(** The bounds on every kind, and on the part of the window still sampled. *)
Lemma aggregate_bounds :
  let r := AggregateIP ip w now (AddAll evs a) in
  ∃ old es, history ip a evs = old ++ es ∧ Z.of_nat (length es) <= maxSamp a ∧
    Sample r = ev <$> List.filter (in_window (now - w)) es ∧
    (∀ k, true_kind (now - w + bucket a) k (history ip a evs) <= get k (Kinds r)
          <= true_kind (now - w) k (history ip a evs) ∧
          true_kind (now - w) k es <= get k (Kinds r)) ∧
    true_count (now - w + bucket a) (history ip a evs) <= Count r
    <= true_count (now - w) (history ip a evs).
Proof using Hwf Hcap Hnew Hmax Hord Hw Hnow.
  cbv zeta. destruct (aggregate_run_split a Hwf Hcap Hnew evs ip w now Hmax Hord Hw Hnow)
    as (old & es & Hsp & Hn & HC & HK & HS).
  pose proof (aw_bucket _ Hwf) as Hb. pose proof (aw_range _ Hwf) as Hr.
  unfold minOverflowBucket, Second in Hr. exists old, es.
  split; [done|]. split; [done|]. split; [done|]. rewrite Hsp. split.
  - intros k. rewrite HK, !true_kind_app. pose proof (old_kind_bounds (bucket a) (now - w) k old Hb).
    pose proof (true_kind_mono (now - w) (now - w + bucket a) k es ltac:(lia)).
    assert (0 <= true_kind (now - w + bucket a) k old); [|unfold true_kind in *; lia].
    apply sumZ_nonneg. intros x. pose proof (weight_nonneg k x). by destruct (in_window _ x).
  - rewrite HC, !true_count_app. pose proof (old_events_bounds (bucket a) (now - w) old Hb).
    pose proof (true_count_mono (now - w) (now - w + bucket a) es ltac:(lia)).
    unfold true_count in *. lia.
Qed.
End bounds.

(** C37. Counts survive the sample cap.  For events that arrive in time order at an
    aggregator without an address cap, whatever their rate and the classifier, for every IP, every window up to the longest and every kind,
    the reported count never includes an event older than the window, and
    misses at most the events that fall in the first overflow-bucket width of
    the window; the sample stays within its cap and holds the newest events of
    the window. *)
Theorem Aggregate_counts ws n a0 fn evs ip w now :
  let a := WithClassifier fn a0 in
  New ws n = Some a0 → 0 <= maxWindow a0 → w <= maxWindow a0 →
  in_order (history ip a evs) → (∀ e, e ∈ history ip a evs → at_ e <= now) →
  let r := AggregateIP ip w now (AddAll evs a) in
  (∀ k, true_kind (now - w + bucket a) k (history ip a evs) <= get k (Kinds r)
        <= true_kind (now - w) k (history ip a evs)) ∧
  true_count (now - w + bucket a) (history ip a evs) <= Count r
        <= true_count (now - w) (history ip a evs) ∧
  Z.of_nat (length (Sample r)) <= maxSamp a ∧
  ∃ old es, history ip a evs = old ++ es ∧
    Sample r = ev <$> List.filter (in_window (now - w)) es.
Proof.
  intros a HN Hmax Hw Ho Hnow. destruct (New_classified _ _ _ fn HN) as (Hwf & Hcap & Hnew & _).
  destruct (aggregate_bounds a Hwf Hcap Hnew evs ip w now Hmax Hw Ho Hnow) as (old & es & Hsp & Hn & HS & HK & HC).
  split; [intros k; apply HK|]. split; [done|]. split; [|eauto].
  rewrite HS, length_fmap. pose proof (List.filter_length_le (in_window (now - w)) es). lia.
Qed.

(** A saturated client: cap 2, five failures one second apart. *)
Definition sample_ip : addr := Addr4 0xC0000209.
Definition fail_at (s : Z) : Event := MkEvent (s * Second) sample_ip "ssh_fail" ∅ "sshd" EmptyString.
Definition sample_events : list Event := fail_at <$> [100; 101; 102; 103; 104].

Lemma Aggregate_counts_witness :
  ∃ a0, New [Minute; Hour] 2 = Some a0 ∧ let a := WithClassifier (λ _, ["x"]) a0 in
    get "ssh_fail" (Kinds (AggregateIP sample_ip Minute (105 * Second) (AddAll sample_events a))) = 5 ∧
    true_kind (105 * Second - Minute + bucket a) "ssh_fail" (history sample_ip a sample_events) <=
    get "ssh_fail" (Kinds (AggregateIP sample_ip Minute (105 * Second) (AddAll sample_events a))).
Proof.
  eexists. assert (HN : New [Minute; Hour] 2 = Some _) by (vm_compute; reflexivity).
  split; [exact HN|]. split; [vm_compute; reflexivity|].
  refine (proj1 (proj1 (Aggregate_counts _ _ _ (λ _, ["x"]) sample_events sample_ip Minute (105 * Second) HN _ _ _ _) "ssh_fail")).
  - vm_compute. discriminate.
  - vm_compute. discriminate.
  - unfold in_order, history, sample_events. simpl. repeat constructor; vm_compute; discriminate.
  - apply Forall_forall. unfold history, sample_events. simpl. repeat constructor; vm_compute; discriminate.
Defined.

(** ** The LRU cap *)
Definition lru_step (m : gmap addr ipBucket) (acc : addr * option time) (ip : addr) : addr * option time :=
  match m !! ip with
  | None => acc
  | Some b => match acc with
              | (lru, None) => (ip, Some (lastSeen b))
              | (lru, Some t) => if lastSeen b <? t then (ip, Some (lastSeen b)) else acc
              end
  end.

Definition lru_ok (m : gmap addr ipBucket) (seen : list addr) (acc : addr * option time) : Prop :=
  match acc.2 with
  | None => ∀ ip, ip ∈ seen → m !! ip = None
  | Some t => ∃ b, m !! acc.1 = Some b ∧ lastSeen b = t ∧
                ∀ ip b', ip ∈ seen → m !! ip = Some b' → t <= lastSeen b'
  end.

Lemma lru_fold_ok m order seen acc : lru_ok m seen acc →
  lru_ok m (seen ++ order) (fold_left (lru_step m) order acc).
Proof.
  revert seen acc. induction order as [|ip order IH]; intros seen acc Hok; simpl; [by rewrite app_nil_r|].
  replace (seen ++ ip :: order) with ((seen ++ [ip]) ++ order) by (by rewrite <- app_assoc).
  apply IH. destruct acc as [lru [t|]]; unfold lru_ok, lru_step in *; simpl in *.
  - destruct Hok as (b & Hb & Ht & Hall).
    destruct (m !! ip) as [b1|] eqn:E1.
    + destruct (lastSeen b1 <? t) eqn:Et; bool_hyps; simpl.
      * exists b1. repeat split; [done|]. intros ip' b' [Hi|Hi%list_elem_of_singleton]%elem_of_app Hl.
        -- specialize (Hall _ _ Hi Hl). lia.
        -- simplify_eq. lia.
      * exists b. repeat split; [done..|]. intros ip' b' [Hi|Hi%list_elem_of_singleton]%elem_of_app Hl.
        -- by apply (Hall ip').
        -- simplify_eq. lia.
    + simpl. exists b. repeat split; [done..|].
      intros ip' b' [Hi|Hi%list_elem_of_singleton]%elem_of_app Hl; [by apply (Hall ip')|]. by simplify_eq.
  - destruct (m !! ip) as [b1|] eqn:E1; simpl.
    + exists b1. repeat split; [done|]. intros ip' b' [Hi|Hi%list_elem_of_singleton]%elem_of_app Hl.
      * by rewrite Hok in Hl.
      * simplify_eq. lia.
    + intros ip' [Hi|Hi%list_elem_of_singleton]%elem_of_app; [by apply Hok|by subst].
Qed.

(** The victim is a bucket seen no later than any other. *)
Lemma evictLRU_spec order m : (∀ ip, is_Some (m !! ip) → ip ∈ order) →
  (∀ ip, is_Some (m !! ip) → IsValid ip = true) → m ≠ ∅ →
  ∃ victim b, evictLRU order m = delete victim m ∧ m !! victim = Some b ∧
    ∀ ip b', m !! ip = Some b' → lastSeen b <= lastSeen b'.
Proof.
  intros Hord Hval Hne. unfold evictLRU.
  change (λ (acc : addr * option time) ip, _) with (lru_step m).
  pose proof (lru_fold_ok m order [] (AddrNone, None)) as Hok. simpl in Hok.
  destruct (fold_left (lru_step m) order (AddrNone, None)) as [lru [t|]]; unfold lru_ok in Hok; simpl in Hok.
  - destruct Hok as (b & Hb & Ht & Hall); [by intros ? ?%not_elem_of_nil|].
    rewrite Hval by eauto. exists lru, b. repeat split; [done|]. subst t.
    intros ip b' Hl. apply (Hall ip); [|done]. apply Hord. eauto.
  - exfalso. apply Hne, map_empty. intros ip. destruct (m !! ip) as [b|] eqn:E; [|done].
    rewrite Hok in E; [done|by intros ? ?%not_elem_of_nil|]. apply Hord. eauto.
Qed.

Definition keys_valid (a : Aggregator) : Prop := ∀ ip, is_Some (buckets a !! ip) → IsValid ip = true.

(** Memory is bounded in the number of IPs: adding an event never leaves
    more than the configured number of buckets, and when one must go it is one
    whose last event is no later than that of every other tracked IP; all the
    other buckets are untouched, whatever order the map is iterated in. *)
Theorem Add_lru_bound order e a :
  0 < maxIPs a → Z.of_nat (Len a) <= maxIPs a → keys_valid a → IsValid (SourceIP e) = true →
  let m := <[SourceIP e := bucket_add (maxWindow a) (bucket a) (maxSamp a) (entry_of a e)
              (default emptyBucket (buckets a !! SourceIP e))]> (buckets a) in
  (∀ ip, is_Some (m !! ip) → ip ∈ order) →
  let a' := Add order e a in
  Z.of_nat (Len a') <= maxIPs a' ∧ keys_valid a' ∧
  (buckets a' = m ∨ ∃ victim b, buckets a' = delete victim m ∧ m !! victim = Some b ∧
     ∀ ip b', m !! ip = Some b' → lastSeen b <= lastSeen b').
Proof.
  intros Hpos Hlen Hval Hsrc. cbv zeta. intros Hord.
  unfold Add, Len in *. fold (entry_of a e). simpl.
  set (m := <[SourceIP e := _]> (buckets a)) in *.
  assert (∀ ip, is_Some (m !! ip) → IsValid ip = true) as Hvm.
  { intros ip. unfold m. rewrite lookup_insert. case_decide; [by subst|apply Hval]. }
  assert (size m <= S (size (buckets a)))%nat as Hsz.
  { unfold m. rewrite map_size_insert. case_match; [apply Nat.le_succ_diag_r|reflexivity]. }
  rewrite (proj2 (Z.ltb_lt _ _) Hpos). simpl.
  destruct (maxIPs a <? Z.of_nat (size m)) eqn:E; bool_hyps.
  - destruct (evictLRU_spec order m Hord Hvm) as (v & b & -> & Hb & Hall).
    { intros Hm. rewrite Hm, map_size_empty in E. lia. }
    split; [|split].
    + rewrite map_size_delete, Hb. lia.
    + intros ip. simpl. rewrite lookup_delete. case_decide; [by intros [? ?]|apply Hvm].
    + right. eauto.
  - split; [done|]. split; [exact Hvm|]. by left.
Qed.

Lemma Add_lru_bound_witness :
  let a := MkAggregator [Minute] Minute (5 * Second) 10 1 None {[ sample_ip := emptyBucket ]} in
  let e := MkEvent Second (Addr4 7) "x" ∅ EmptyString EmptyString in
  Len (Add [sample_ip; Addr4 7] e a) = 1%nat ∧
  Z.of_nat (Len (Add [sample_ip; Addr4 7] e a)) <= 1.
Proof.
  cbv zeta. split; [vm_compute; reflexivity|].
  refine (proj1 (Add_lru_bound [sample_ip; Addr4 7] _ (MkAggregator [Minute] Minute (5 * Second) 10 1 None {[ sample_ip := emptyBucket ]}) _ _ _ _ _)).
  - done.
  - vm_compute. discriminate.
  - intros ip [b Hb]. cbn [buckets] in Hb. apply lookup_singleton_Some in Hb as [<- _]. done.
  - done.
  - intros ip [b Hb]. apply lookup_insert_Some in Hb as [[<- _]|[_ Hb]]; [set_solver|].
    cbn [buckets] in Hb. apply lookup_singleton_Some in Hb as [<- _]. set_solver.
Defined.

(** ** Reset and Flush *)

(** A strike consumes its evidence: after [Reset] an IP's aggregate over
    any window is empty until new events arrive, and no other IP's aggregate
    changes. *)
Theorem Reset_spec ip a ip' w now :
  AggregateIP ip' w now (Reset ip a) =
    if decide (ip' = ip) then MkAggregate ip' w 0 ∅ [] else AggregateIP ip' w now a.
Proof.
  unfold AggregateIP, Reset. simpl. rewrite lookup_delete.
  case_decide; case_decide; simplify_eq; done.
Qed.
