(* ===== verification/BotVerify.v ===== *)
(** Verified crawlers: [internal/botverify/botverify.go] and
    [internal/daemon/verifiedbot.go].

    The resolver is a function from queries to answers, [None] for an error or a
    timeout.  [Verify] reads the clock once; its two critical sections and the
    look-ups between them are one step. *)
From Stdlib Require Import Ascii.
From S2P Require Import Prelude GoStrings Netip NetipParse Sdk Aggregate.
#[local] Open Scope Z_scope.

Record Provider := MkProvider { p_Name : string; UAContains : list string; Domains : list string }.

#[export] Instance Provider_eq_dec : EqDecision Provider.
Proof. solve_decision. Defined.

Definition DefaultProviders : list Provider :=
  [MkProvider "googlebot" ["googlebot"] ["googlebot.com"; "google.com"];
   MkProvider "bingbot" ["bingbot"; "msnbot"] ["search.msn.com"];
   MkProvider "applebot" ["applebot"] ["applebot.apple.com"];
   MkProvider "yandexbot" ["yandexbot"] ["yandex.com"; "yandex.ru"; "yandex.net"];
   MkProvider "baiduspider" ["baiduspider"] ["baidu.com"; "baidu.jp"];
   MkProvider "duckduckbot" ["duckduckbot"] ["duckduckgo.com"]]%string.

(** The index of each name, the last one when it is repeated. *)
Definition name_index (ps : list Provider) : gmap string nat :=
  (foldl (λ '(i, m) p, (S i, <[p_Name p := i]> m)) (O, ∅) ps).2.

Definition merge_one (s : list Provider * gmap string nat) (p : Provider) : list Provider * gmap string nat :=
  let '(out, index) := s in
  match index !! p_Name p with
  | Some i => (<[i := p]> out, index)
  | None => (out ++ [p], <[p_Name p := length out]> index)
  end.

Definition Merge (base custom : list Provider) : list Provider := (foldl merge_one (base, name_index base) custom).1.

Definition ClaimedProvider (ps : list Provider) (ua : string) : option Provider :=
  if bool_decide (ua = EmptyString) then None
  else let low := ToLower ua in
       List.find (λ p, existsb (λ sub, negb (bool_decide (sub = EmptyString)) && str_contains low sub) (UAContains p)) ps.

Definition maxPTRNames : nat := 3.
Definition maxFwdAddrs : nat := 16.
Definition maxNameLength : nat := 253.
Definition positiveTTL : duration := 6 * Hour.
Definition negativeTTL : duration := 15 * Minute.
Definition maxCache : nat := 4096.

Record Resolver := MkResolver { LookupAddr : string → option (list string); LookupHost : string → option (list string) }.

Definition domainMatches (host : string) (domains : list string) : bool :=
  existsb (λ d, let d := ToLower (TrimSpace d) in
    negb (bool_decide (d = EmptyString)) && (bool_decide (host = d) || has_suffix (String "." d) host)) domains.

Definition forwardConfirms (r : Resolver) (host : string) (ip : addr) : bool :=
  match LookupHost r host with
  | None => false
  | Some answers => existsb (λ a, match ParseAddr a with
                                  | Some got => bool_decide (Unmap got = Unmap ip)
                                  | None => false
                                  end) (take maxFwdAddrs answers)
  end.

Definition ptr_host (name : string) : string := ToLower (TrimSuffix "." name).

Definition fcrdns (r : Resolver) (ip : addr) (p : Provider) : bool :=
  match LookupAddr r (show_addr ip) with
  | None => false
  | Some names => existsb (λ name, let host := ptr_host name in
      negb (bool_decide (host = EmptyString)) && (str_len host <=? maxNameLength)%nat &&
      domainMatches host (Domains p) && forwardConfirms r host ip) (take maxPTRNames names)
  end.

Record cacheEntry := MkCacheEntry { verified : bool; until : time }.
Abbreviation cache := (gmap addr cacheEntry) (only parsing).

Definition cached (now : time) (ip : addr) (c : cache) : option bool :=
  match c !! ip with
  | Some e => if now <? until e then Some (verified e) else None
  | None => None
  end.

Definition ttl_of (v : bool) : duration := if v then positiveTTL else negativeTTL.

(** A full cache drops what has expired; with nothing expired the answer is not kept. *)
Definition remember (now : time) (ip : addr) (v : bool) (c : cache) : cache :=
  let c := if (maxCache <=? size c)%nat then filter (λ kv, now < until kv.2) c else c in
  if (size c <? maxCache)%nat then <[ip := MkCacheEntry v (now + ttl_of v)]> c else c.

Definition Verify (r : Resolver) (now : time) (ip : addr) (p : Provider) (c : cache) : bool * cache :=
  match cached now ip c with
  | Some v => (v, c)
  | None => let v := fcrdns r ip p in (v, remember now ip v c)
  end.

(** ** The daemon's side *)
Definition botProvidersFromConfig (custom : list Provider) : list Provider :=
  Merge DefaultProviders ((λ p, MkProvider (p_Name p)
    (List.filter (λ s, negb (bool_decide (s = EmptyString))) ((λ s, ToLower (TrimSpace s)) <$> UAContains p)) (Domains p)) <$> custom).

Definition event_claim (ps : list Provider) (e : Event) : option Provider :=
  match Fields e !! "ua"%string with
  | Some ua => if bool_decide (ua = EmptyString) then None else ClaimedProvider ps ua
  | None => None
  end.

Fixpoint first_some {A B} (f : A → option B) (l : list A) : option B :=
  match l with [] => None | x :: l => match f x with Some y => Some y | None => first_some f l end end.

Definition botUAClaim (ps : list Provider) (now : time) (a : Aggregator) (ip : addr) : option Provider :=
  first_some (λ w, first_some (event_claim ps) (Sample (AggregateIP ip w now a))) (windows a).

Definition verifiedBotCheck (ps : list Provider) (r : Resolver) (now : time) (a : Aggregator) (ip : addr) (c : cache) :
    option string * cache :=
  match botUAClaim ps now a ip with
  | None => (None, c)
  | Some p => let '(v, c) := Verify r now ip p c in (if v then Some (p_Name p) else None, c)
  end.

(** ** What confirmation means *)

(** [host] is one of the domains or below one, at a dot. *)
Definition under (host d : string) : Prop := host = d ∨ ∃ x, host = x +:+ String "." d.

Lemma domainMatches_spec host ds : domainMatches host ds = true ↔
  ∃ d, d ∈ ds ∧ ToLower (TrimSpace d) ≠ EmptyString ∧ under host (ToLower (TrimSpace d)).
Proof.
  unfold domainMatches. rewrite existsb_exists_elem. apply exist_proper. intros d. unfold under. cbv zeta.
  rewrite andb_true_iff, orb_true_iff, negb_true_iff, bool_decide_eq_false, bool_decide_eq_true, has_suffix_spec. done.
Qed.

(** Both directions: a PTR name among the first three is under a domain of the
    provider, and one of the first sixteen addresses of that name is [ip]. *)
Definition confirmed (r : Resolver) (ip : addr) (p : Provider) : Prop :=
  ∃ names name d answers a got,
    LookupAddr r (show_addr ip) = Some names ∧ name ∈ take maxPTRNames names ∧
    ptr_host name ≠ EmptyString ∧ (str_len (ptr_host name) ≤ maxNameLength)%nat ∧
    d ∈ Domains p ∧ ToLower (TrimSpace d) ≠ EmptyString ∧ under (ptr_host name) (ToLower (TrimSpace d)) ∧
    LookupHost r (ptr_host name) = Some answers ∧ a ∈ take maxFwdAddrs answers ∧ ParseAddr a = Some got ∧ Unmap got = Unmap ip.

Lemma fcrdns_confirmed r ip p : fcrdns r ip p = true ↔ confirmed r ip p.
Proof.
  unfold fcrdns, confirmed. split.
  - destruct (LookupAddr r (show_addr ip)) as [names|] eqn:En; [|done].
    intros (name & Hin & H)%existsb_exists_elem. bool_hyps.
    match goal with H : domainMatches _ _ = true |- _ => apply domainMatches_spec in H as (d & Hd & Hne & Hu) end.
    match goal with H : (_ <=? _)%nat = true |- _ => apply Nat.leb_le in H end.
    unfold forwardConfirms in *. destruct (LookupHost r (ptr_host name)) as [answers|] eqn:Eh; [|done].
    match goal with H : existsb _ _ = true |- _ => apply existsb_exists_elem in H as (a & Ha & Hp) end.
    destruct (ParseAddr a) as [got|] eqn:Ep; [|done]. bool_hyps. exists names, name, d, answers, a, got. done.
  - intros (names & name & d & answers & a & got & -> & Hin & Hne & Hlen & Hd & Hdne & Hu & Hh & Ha & Hp & Hg).
    apply existsb_exists_elem. exists name. split; [done|]. cbv zeta.
    rewrite bool_decide_eq_false_2 by done. replace (str_len (ptr_host name) <=? maxNameLength)%nat with true by (symmetry; by apply Nat.leb_le).
    replace (domainMatches (ptr_host name) (Domains p)) with true by (symmetry; apply domainMatches_spec; eauto). simpl.
    unfold forwardConfirms. rewrite Hh. apply existsb_exists_elem. exists a. split; [done|]. rewrite Hp. by apply bool_decide_eq_true.
Qed.

(** ** The cache *)
Record call := MkCall { c_now : time; c_res : Resolver; c_ip : addr; c_prov : Provider }.

Definition run_call (c : cache) (k : call) : cache := (Verify (c_res k) (c_now k) (c_ip k) (c_prov k) c).2.

(** An answer a call of the history computed, and until when it serves. *)
Definition computed (h : list call) (ip : addr) (e : cacheEntry) : Prop :=
  ∃ k, k ∈ h ∧ c_ip k = ip ∧ verified e = fcrdns (c_res k) ip (c_prov k) ∧ until e = c_now k + ttl_of (verified e).

Definition cache_ok (h : list call) (c : cache) : Prop := map_Forall (computed h) c ∧ (size c ≤ maxCache)%nat.

Lemma size_filter_le (P : addr * cacheEntry → Prop) `{∀ x, Decision (P x)} (c : cache) : (size (filter P c) ≤ size c)%nat.
Proof. rewrite <- !size_dom. apply subseteq_size, dom_filter_subseteq. Qed.

Lemma remember_ok h now r ip p c : cache_ok h c →
  cache_ok (h ++ [MkCall now r ip p]) (remember now ip (fcrdns r ip p) c).
Proof.
  intros [Hc Hs]. unfold remember. set (c1 := if (maxCache <=? size c)%nat then _ else c).
  assert (c1 ⊆ c ∧ (size c1 ≤ size c)%nat) as [Hsub Hs1].
  { unfold c1. case_match; [|done]. split; [apply map_filter_subseteq|apply size_filter_le]. }
  assert (map_Forall (computed (h ++ [MkCall now r ip p])) c1) as H1.
  { intros j e Hj. destruct (Hc j e) as (k & Hk & ?); [by eapply lookup_weaken|]. exists k. rewrite elem_of_app. auto. }
  destruct (Nat.ltb_spec (size c1) maxCache); [|split; [done|lia]]. split.
  - apply map_Forall_insert_2; [|done]. exists (MkCall now r ip p). rewrite elem_of_app, list_elem_of_singleton. auto.
  - rewrite map_size_insert. case_match; unfold id; lia.
Qed.

Lemma Verify_ok h now r ip p c : cache_ok h c →
  let '(v, c') := Verify r now ip p c in
  cache_ok (h ++ [MkCall now r ip p]) c' ∧
  ∃ e, computed (h ++ [MkCall now r ip p]) ip e ∧ verified e = v ∧ now < until e.
Proof.
  intros Hc. unfold Verify, cached. destruct (c !! ip) as [e|] eqn:E.
  - destruct (Z.ltb_spec now (until e)).
    + assert (∀ j x, computed h j x → computed (h ++ [MkCall now r ip p]) j x) as Hm.
      { intros j x (k & Hk & ?). exists k. rewrite elem_of_app. auto. }
      destruct Hc as [Hc Hs]. split; [split; [|done]; intros j x Hj; apply Hm, (Hc j x Hj)|].
      exists e. split; [apply Hm, (Hc ip e E)|done].
    + split; [by apply remember_ok|]. exists (MkCacheEntry (fcrdns r ip p) (now + ttl_of (fcrdns r ip p))). split; [|split; [done|]].
      * exists (MkCall now r ip p). rewrite elem_of_app, list_elem_of_singleton. auto.
      * simpl. unfold ttl_of, positiveTTL, negativeTTL, Hour, Minute, Second. case_match; lia.
  - split; [by apply remember_ok|]. exists (MkCacheEntry (fcrdns r ip p) (now + ttl_of (fcrdns r ip p))). split; [|split; [done|]].
    * exists (MkCall now r ip p). rewrite elem_of_app, list_elem_of_singleton. auto.
    * simpl. unfold ttl_of, positiveTTL, negativeTTL, Hour, Minute, Second. case_match; lia.
Qed.

Lemma calls_ok h : cache_ok h (foldl run_call ∅ h).
Proof.
  induction h as [|k h IH] using rev_ind; [split; [apply map_Forall_empty|apply Nat.le_0_l]|].
  rewrite foldl_app. simpl. unfold run_call at 1. destruct k as [t r ip p]. simpl.
  pose proof (Verify_ok h t r ip p _ IH) as H. destruct (Verify r t ip p (foldl run_call ∅ h)) as [v c']. by destruct H.
Qed.

(** ** The provider table *)
Lemma ClaimedProvider_spec ps ua p : ClaimedProvider ps ua = Some p →
  p ∈ ps ∧ ∃ sub, sub ∈ UAContains p ∧ sub ≠ EmptyString ∧ str_contains (ToLower ua) sub = true.
Proof.
  unfold ClaimedProvider. case_bool_decide; [done|]. intros (Hp & (sub & Hs & Hc)%existsb_exists_elem)%find_Some_elem.
  bool_hyps. eauto.
Qed.

Lemma first_some_Some {A B} (f : A → option B) l y : first_some f l = Some y → ∃ x, x ∈ l ∧ f x = Some y.
Proof.
  induction l as [|x l IH]; simpl; [done|]. destruct (f x) eqn:E.
  - intros [= ->]. exists x. rewrite elem_of_cons. auto.
  - intros H. destruct (IH H) as (z & ? & ?). exists z. rewrite elem_of_cons. auto.
Qed.

(** The claim is read off one of the address's own events in a window. *)
Definition claims (ps : list Provider) (now : time) (a : Aggregator) (ip : addr) (p : Provider) : Prop :=
  p ∈ ps ∧ ∃ w e ua sub, w ∈ windows a ∧ e ∈ Sample (AggregateIP ip w now a) ∧ Fields e !! "ua"%string = Some ua ∧
    sub ∈ UAContains p ∧ sub ≠ EmptyString ∧ str_contains (ToLower ua) sub = true.

Lemma botUAClaim_claims ps now a ip p : botUAClaim ps now a ip = Some p → claims ps now a ip p.
Proof.
  unfold botUAClaim. intros (w & Hw & (e & He & H)%first_some_Some)%first_some_Some. unfold event_claim in H.
  destruct (Fields e !! "ua"%string) as [ua|] eqn:Eu; [|done]. case_bool_decide; [done|].
  apply ClaimedProvider_spec in H as (Hp & sub & ? & ? & ?). split; [done|]. exists w, e, ua, sub. by split_and!.
Qed.

(** The index of each name, names being distinct. *)
Definition indexed (l : list Provider) (m : gmap string nat) : Prop :=
  NoDup (p_Name <$> l) ∧ ∀ n i, m !! n = Some i ↔ (p_Name <$> l) !! i = Some n.

Lemma indexed_snoc l m p : indexed l m → m !! p_Name p = None → indexed (l ++ [p]) (<[p_Name p := length l]> m).
Proof.
  intros [Hd Hi] Hn. assert (p_Name p ∉ p_Name <$> l) as Hp.
  { intros (i & Hl)%list_elem_of_lookup_1. apply Hi in Hl. congruence. }
  rewrite <- (length_fmap p_Name l). split.
  - rewrite fmap_app. apply NoDup_app. split; [done|]. split; [|apply NoDup_singleton]. by intros n Hin ->%list_elem_of_singleton.
  - intros n i. rewrite fmap_app. simpl. destruct (decide (p_Name p = n)) as [<-|Hne].
    + rewrite lookup_insert_eq. split; [intros [= <-]; by apply list_lookup_middle|].
      intros [Hl|[Hle Hl]]%lookup_app_Some; [by apply list_elem_of_lookup_2 in Hl|]. apply list_lookup_singleton_Some in Hl as [? _].
      f_equal. lia.
    + rewrite lookup_insert_ne by done. rewrite Hi. split; [by apply lookup_app_l_Some|].
      intros [Hl|[Hle Hl]]%lookup_app_Some; [done|]. apply list_lookup_singleton_Some in Hl as [_ ?]. congruence.
Qed.

Lemma name_index_indexed ps : NoDup (p_Name <$> ps) → indexed ps (name_index ps).
Proof.
  unfold name_index. assert (∀ l, (foldl (λ '(i, m) p, (S i, <[p_Name p := i]> m)) (O, ∅ : gmap string nat) l).1 = length l) as Hl.
  { intros l. induction l as [|q l IH] using rev_ind; [done|]. rewrite foldl_app, length_app. simpl.
    destruct (foldl _ _ l) as [i m]. simpl in *. lia. }
  induction ps as [|p ps IH] using rev_ind; [by split|]. intros Hd. rewrite foldl_app. simpl. specialize (Hl ps).
  rewrite fmap_app, NoDup_app in Hd. destruct Hd as (Hd & Hp & _). specialize (IH Hd). destruct (foldl _ _ ps) as [i m]. simpl in *. subst.
  apply indexed_snoc; [done|]. destruct (m !! p_Name p) as [j|] eqn:E; [|done]. apply IH in E.
  apply list_elem_of_lookup_2, Hp in E. by rewrite list_elem_of_singleton in E.
Qed.

Lemma merge_one_spec s p : indexed s.1 s.2 →
  let s' := merge_one s p in
  indexed s'.1 s'.2 ∧ ∀ q, q ∈ s'.1 ↔ q = p ∨ (q ∈ s.1 ∧ p_Name q ≠ p_Name p).
Proof.
  destruct s as [out m]. intros H. unfold merge_one. simpl in H. pose proof H as [Hd Hi].
  destruct (m !! p_Name p) as [i|] eqn:Em; simpl.
  - apply Hi in Em as Hn. assert (p_Name <$> <[i:=p]> out = p_Name <$> out) as Hnames.
    { rewrite list_fmap_insert. by apply list_insert_id. }
    split; [unfold indexed; by rewrite Hnames|]. intros q.
    assert (i < length out)%nat by (apply lookup_lt_Some in Hn; by rewrite length_fmap in Hn). split.
    + intros (j & Hj)%list_elem_of_lookup_1. destruct (decide (i = j)) as [->|Hij].
      { rewrite list_lookup_insert_eq in Hj by done. left. congruence. }
      rewrite list_lookup_insert_ne in Hj by done. right. split; [by eapply list_elem_of_lookup_2|]. intros Hq. apply Hij.
      eapply NoDup_lookup; [exact Hd|exact Hn|]. rewrite list_lookup_fmap, Hj. simpl. congruence.
    + intros [->|((j & Hj)%list_elem_of_lookup_1 & Hne)]; [by eapply list_elem_of_lookup_2, list_lookup_insert_eq|].
      apply (list_elem_of_lookup_2 _ j). rewrite list_lookup_insert_ne; [done|]. intros ->.
      rewrite list_lookup_fmap, Hj in Hn. simpl in Hn. congruence.
  - split; [by apply indexed_snoc|]. intros q. rewrite elem_of_app, list_elem_of_singleton. split; [|tauto].
    intros [Hq|?]; [right|by left]. split; [done|]. intros Hqn. apply list_elem_of_lookup_1 in Hq as (j & Hj).
    assert (m !! p_Name p = Some j); [|congruence]. apply Hi. rewrite list_lookup_fmap, Hj. simpl. congruence.
Qed.

(** The table keeps one provider per name, the operator's last one when there is any. *)
Lemma Merge_spec base custom : NoDup (p_Name <$> base) →
  NoDup (p_Name <$> Merge base custom) ∧
  ∀ q, q ∈ Merge base custom ↔
    (∃ l r, custom = l ++ q :: r ∧ p_Name q ∉ p_Name <$> r) ∨ (q ∈ base ∧ p_Name q ∉ p_Name <$> custom).
Proof.
  intros Hb. unfold Merge. pose proof (name_index_indexed _ Hb) as Hi.
  assert (indexed (base, name_index base).1 (base, name_index base).2) as H0 by done.
  assert (∀ s, indexed s.1 s.2 → let s' := foldl merge_one s custom in indexed s'.1 s'.2 ∧
    ∀ q, q ∈ s'.1 ↔ (∃ l r, custom = l ++ q :: r ∧ p_Name q ∉ p_Name <$> r) ∨ (q ∈ s.1 ∧ p_Name q ∉ p_Name <$> custom)) as H.
  { clear. induction custom as [|p cs IH] using rev_ind; intros s Hs; simpl.
    { split; [done|]. intros q. split; [intros; right; split; [done|apply not_elem_of_nil]|].
      intros [([|? ?] & r & ? & _)|[? _]]; done. }
    rewrite foldl_app. simpl. destruct (IH s Hs) as [H1 H2]. destruct (merge_one_spec _ p H1) as [H3 H4].
    split; [done|]. intros q. rewrite H4, H2. rewrite fmap_app. simpl. rewrite not_elem_of_app, list_elem_of_singleton. split.
    - intros [->|[[(l & r & -> & Hr)|[Hq Hc]] Hn]]; [left; exists cs, []; split; [done|apply not_elem_of_nil]| |right; done].
      left. exists l, (r ++ [p]). rewrite fmap_app. simpl. rewrite not_elem_of_app, list_elem_of_singleton, <- app_assoc. done.
    - intros [(l & r & E & Hr)|(Hq & Hc & Hn)]; [|right; auto].
      destruct r as [|x r _] using rev_ind; [apply app_inj_tail in E as [_ ->]; by left|].
      rewrite app_comm_cons, app_assoc in E. apply app_inj_tail in E as [-> ->]. rewrite fmap_app in Hr. simpl in Hr.
      rewrite not_elem_of_app, list_elem_of_singleton in Hr. destruct Hr as [Hr Hn]. right. split; [left; eauto|done]. }
  destruct (H _ H0) as [[Hd _] Hq]. done.
Qed.

(** ** Properties *)

(** C32. A ban is spared for a crawler only when the address's own traffic in a
    window claimed a provider of the table, and some verification of that address,
    now or within the last six hours, confirmed it in both directions: a PTR name
    under a published domain, at a dot, that resolves back to the address; a
    failed verification is not held against it longer than a quarter of an hour,
    and the cache stays within its cap, whatever the resolvers answered before. *)
Theorem spared_is_confirmed ps h r now a ip :
  let c := foldl run_call ∅ h in
  let '(o, c') := verifiedBotCheck ps r now a ip c in
  (size c' ≤ maxCache)%nat ∧
  match o with
  | Some name => ∃ p, p_Name p = name ∧ claims ps now a ip p ∧
      ∃ k, k ∈ h ++ [MkCall now r ip p] ∧ c_ip k = ip ∧ now < c_now k + positiveTTL ∧ confirmed (c_res k) ip (c_prov k)
  | None => ∀ p, botUAClaim ps now a ip = Some p →
      ∃ k, k ∈ h ++ [MkCall now r ip p] ∧ c_ip k = ip ∧ now < c_now k + negativeTTL ∧ ¬ confirmed (c_res k) ip (c_prov k)
  end.
Proof.
  cbv zeta. pose proof (calls_ok h) as Hc. unfold verifiedBotCheck.
  destruct (botUAClaim ps now a ip) as [p|] eqn:Eb; [|by split; [apply Hc|]].
  pose proof (Verify_ok h now r ip p _ Hc) as Hv. destruct (Verify r now ip p (foldl run_call ∅ h)) as [v c'].
  destruct Hv as ([_ Hs] & e & (k & Hk & Hip & Hver & Hu) & Hev & Hlt). split; [done|].
  rewrite Hu, Hev in Hlt. rewrite Hev in Hver. destruct v.
  - exists p. split; [done|]. split; [by apply botUAClaim_claims|]. exists k. repeat (split; [done|]). by apply fcrdns_confirmed.
  - intros p' [= <-]. exists k. repeat (split; [done|]). intros Hcf%fcrdns_confirmed. congruence.
Qed.

(** ** Witnesses *)
Definition google : addr := Addr4 0x42f94201.
Definition dns : Resolver := MkResolver
  (λ q, if bool_decide (q = "66.249.66.1"%string) then Some ["crawl-66-249-66-1.googlebot.com."]%string else Some ["evilgooglebot.com."]%string)
  (λ h, if bool_decide (h = "crawl-66-249-66-1.googlebot.com"%string) then Some ["66.249.66.1"]%string else Some ["203.0.113.9"]%string).

Example real_bot : (Verify dns 0 google (MkProvider "googlebot" ["googlebot"] ["googlebot.com"]) ∅).1 = true.
Proof. vm_compute. done. Qed.
Example dot_anchored : (Verify dns 0 (Addr4 0xcb007109) (MkProvider "googlebot" ["googlebot"] ["googlebot.com"]) ∅).1 = false.
Proof. vm_compute. done. Qed.

(** The cache is keyed by the address alone: an answer about one provider is
    given for another. *)
Example cache_ignores_provider :
  let '(_, c) := Verify dns 0 google (MkProvider "googlebot" ["googlebot"] ["googlebot.com"]) ∅ in
  (Verify dns 1 google (MkProvider "bingbot" ["bingbot"] ["search.msn.com"]) c).1 = true ∧
  fcrdns dns google (MkProvider "bingbot" ["bingbot"] ["search.msn.com"]) = false.
Proof. vm_compute. done. Qed.

Definition crawl_event : Event := MkEvent (5 * Second) google "http_404" {["ua" := "Mozilla/5.0 (compatible; GoogleBot/2.1)"]} EmptyString EmptyString.
Definition crawled : Aggregator := default (MkAggregator [] 0 0 0 0 None ∅) (Add [] crawl_event <$> New [Minute] 0).

Lemma spared_is_confirmed_witness :
  (verifiedBotCheck DefaultProviders dns (10 * Second) crawled google ∅).1 = Some "googlebot"%string ∧
  ∃ p, p_Name p = "googlebot"%string ∧ claims DefaultProviders (10 * Second) crawled google p ∧
    ∃ k, k ∈ [] ++ [MkCall (10 * Second) dns google p] ∧ c_ip k = google ∧ 10 * Second < c_now k + positiveTTL ∧
      confirmed (c_res k) google (c_prov k).
Proof.
  assert ((verifiedBotCheck DefaultProviders dns (10 * Second) crawled google ∅).1 = Some "googlebot"%string) as E
    by (vm_compute; reflexivity).
  split; [exact E|]. pose proof (spared_is_confirmed DefaultProviders [] dns (10 * Second) crawled google) as H.
  cbv zeta in H. change (foldl run_call ∅ []) with (∅ : gmap addr cacheEntry) in H.
  destruct (verifiedBotCheck DefaultProviders dns (10 * Second) crawled google ∅) as [o c']. simpl in E. subst o.
  exact (proj2 H).
Defined.
