(* ===== verification/AiVerdict.v ===== *)
(** Verdicts of an AI provider: [internal/ai/verdict.go], [retry.go] and the
    round trip the three providers share ([Analyze], [callOnce] and [clamp] of
    [anthropic.go], [openai.go], [ollama.go]).

    One attempt is what the HTTP call came back with; decoding the model's text
    ([json.Unmarshal] into the verdict schema) is an argument.  Token counts are
    exact integers, costs rationals.  The prompt is left out: it carries the
    payload of AiClean.v and nothing else of the logs. *)
From Stdlib Require Import Ascii QArith.
From S2P Require Import Prelude GoStrings Netip NetipParse Sdk.
#[local] Open Scope Z_scope.

Definition ReasonAllowlistClamped : string := "clamped: allowlisted".
Definition AllowlistClampSourceSuffix : string := "+allowlist-clamp".

Definition IsAllowlistClamped (v : Verdict) : bool := has_suffix AllowlistClampSourceSuffix (v_Source v).

Definition with_IP (a : addr) (v : Verdict) : Verdict :=
  MkVerdict a (Score v) (Category v) (Confidence v) (v_Reason v) (v_Source v) (SuggestTTL v) (Evidence v).

(** The last aggregate of an address gives its spelling. *)
Definition observed (batch : list Aggregate) : gmap addr addr :=
  foldl (λ m a, <[Unmap (agg_IP a) := agg_IP a]> m) ∅ batch.

Definition boundToBatch (vs : list Verdict) (batch : list Aggregate) : list Verdict :=
  omap (λ v, (λ canonical, with_IP canonical v) <$> observed batch !! Unmap (v_IP v)) vs.

(** ** The wrapping of the model's text *)
Definition fence : string := "```".
Definition in_cutset (a : ascii) : bool :=
  bool_decide (a = " "%char ∨ a = "009"%char ∨ a = "013"%char ∨ a = "010"%char).

(** [strings.TrimRight(s, " \t\r\n")]. *)
Fixpoint trim_cutset (s : string) : string :=
  match s with
  | EmptyString => EmptyString
  | String c s => let t := trim_cutset s in
                  if in_cutset c && bool_decide (t = EmptyString) then EmptyString else String c t
  end.

Definition stripCodeFence (s : string) : string :=
  if negb (has_prefix fence s) then s else
  match cut "010" s with
  | (_, None) => s
  | (_, Some body) =>
      let body := trim_cutset body in
      if has_suffix fence body then trim_cutset (TrimSuffix fence body) else body
  end.

Record verdictItem := MkItem { i_IP : string; i_Score : Z; i_Category : string; i_Confidence : Q; i_Reason : string; SuggestTTLSecs : Z }.

Section decode.
(** [json.Unmarshal] into [verdictSchema]: the results, or an error. *)
Context (unmarshal : string → option (list verdictItem)).

Definition parseVerdictJSON (text : string) : option (list verdictItem) := unmarshal (stripCodeFence (TrimSpace text)).

Definition clamp_score (s : Z) : Z := if s <? 0 then 0 else if 100 <? s then 100 else s.

Definition item_verdict (source : string) (r : verdictItem) : option Verdict :=
  (λ ip, MkVerdict ip (clamp_score (i_Score r)) (i_Category r) (i_Confidence r) (i_Reason r) source
           (wrap64 (SuggestTTLSecs r * Second)) []) <$> ParseAddr (i_IP r).

(** ** One attempt *)
Inductive ctx_error := Canceled | DeadlineExceeded.
Inductive call_error := RateLimited (retryAfter : option duration) | Ctx (c : ctx_error) | CallFailed.

Inductive http :=
| HttpError (c : option ctx_error)         (* no answer: the context's end, or the network *)
| Http429 (retry_after : string)
| HttpStatus                               (* another status, or a body that does not decode *)
| HttpText (text : string) (u : Usage).    (* [text] is empty when there is none *)

Definition noUsage : Usage := MkUsage 0 0 0.

Definition newRateLimitError (header : string) : call_error :=
  RateLimited (if bool_decide (header = EmptyString) then None else
               match Atoi header with
               | Some secs => if 0 <=? secs then Some (wrap64 (secs * Second)) else None
               | None => None
               end).

Definition callOnce (source : string) (h : http) : result call_error (list Verdict) * Usage :=
  match h with
  | HttpError (Some c) => (Err (Ctx c), noUsage)
  | HttpError None => (Err CallFailed, noUsage)
  | Http429 header => (Err (newRateLimitError header), noUsage)
  | HttpStatus => (Err CallFailed, noUsage)
  | HttpText text u =>
      if bool_decide (text = EmptyString) then (Err CallFailed, u) else
      match parseVerdictJSON text with
      | None | Some [] => (Err CallFailed, u)
      | Some items => (Ok (omap (item_verdict source) items), u)
      end
  end.

(** ** Retries *)
Definition aiMaxRetries : nat := 3.
Definition aiRetryAfterCap : duration := 30 * Second.
Definition aiBackoffBase : duration := Second.

Definition retryDelay (e : call_error) (attempt : nat) : duration :=
  match e with
  | RateLimited (Some d) => Z.min d aiRetryAfterCap
  | _ => let d := wrap64 (Z.shiftl aiBackoffBase (Z.of_nat (attempt `min` 30))) in
         if (d <=? 0) || (aiRetryAfterCap <? d) then aiRetryAfterCap else d
  end.

Definition addUsage (a b : Usage) : Usage :=
  MkUsage (InputTokens a + InputTokens b) (OutputTokens a + OutputTokens b) (CostUSD a + CostUSD b)%Q.

(** [more] attempts may follow this one; [stop] is the context's error when it
    ends while waiting.  The delays slept are returned too. *)
Fixpoint attempts (call : nat → result call_error (list Verdict) * Usage) (stop : nat → option ctx_error)
    (more attempt : nat) (total : Usage) : result call_error (list Verdict) * Usage * list duration :=
  let '(r, u) := call attempt in
  let total := addUsage total u in
  match r with
  | Ok vs => (Ok vs, total, [])
  | Err e =>
      match more with
      | O => (Err e, total, [])
      | S more =>
          let d := retryDelay e attempt in
          match stop attempt with
          | Some c => (Err (Ctx c), total, [d])
          | None => let '(r, t, ds) := attempts call stop more (S attempt) total in (r, t, d :: ds)
          end
      end
  end.

Definition analyzeWithRetry call stop := attempts call stop aiMaxRetries 0 noUsage.

(** ** The provider *)
Record provider := MkProv {
  prov_Name : string;
  prov_allowlist : list prefix;
  prov_maxTTL : duration;
  fallback : option (list Aggregate → list Verdict)
}.

Definition clamp1 (p : provider) (v : Verdict) : Verdict :=
  let v := if existsb (λ q, Contains q (v_IP v)) (prov_allowlist p)
           then MkVerdict (v_IP v) 0 (Category v) (Confidence v) ReasonAllowlistClamped
                  (v_Source v +:+ AllowlistClampSourceSuffix) 0 (Evidence v)
           else v in
  if (0 <? prov_maxTTL p) && (prov_maxTTL p <? SuggestTTL v)
  then MkVerdict (v_IP v) (Score v) (Category v) (Confidence v) (v_Reason v) (v_Source v) (prov_maxTTL p) (Evidence v)
  else v.

Definition clamp (p : provider) (vs : list Verdict) : list Verdict := clamp1 p <$> vs.

Definition Analyze (p : provider) (https : nat → http) (stop : nat → option ctx_error) (batch : list Aggregate) :
    result call_error (list Verdict) * Usage :=
  match batch with
  | [] => (Ok [], noUsage)
  | _ =>
      let '(r, u, _) := analyzeWithRetry (λ i, callOnce ("ai:" +:+ prov_Name p) (https i)) stop in
      match r with
      | Ok vs => (Ok (clamp p (boundToBatch vs batch)), u)
      | Err (Ctx c) => (Err (Ctx c), u)
      | Err e => match fallback p with
                 | Some f => (Ok (f batch), u)
                 | None => (Err e, u)
                 end
      end
  end.
End decode.

(** ** What a provider can say *)
Section provider.
Context (unmarshal : string → option (list verdictItem)).

Lemma observed_spec batch a c : observed batch !! a = Some c → ∃ g, g ∈ batch ∧ agg_IP g = c ∧ Unmap c = a.
Proof.
  unfold observed. induction batch as [|g l IH] using rev_ind; [simpl; by rewrite lookup_empty|].
  rewrite foldl_app. simpl. intros [[<- <-]|[_ H]]%lookup_insert_Some.
  - exists g. rewrite elem_of_app, list_elem_of_singleton. auto.
  - destruct (IH H) as (x & ? & ?). exists x. rewrite elem_of_app. auto.
Qed.

Lemma observed_covers batch g : g ∈ batch → ∃ c, observed batch !! Unmap (agg_IP g) = Some c.
Proof.
  unfold observed. induction batch as [|x l IH] using rev_ind; [by intros ?%not_elem_of_nil|].
  rewrite foldl_app. simpl. rewrite elem_of_app, list_elem_of_singleton. intros Hg.
  destruct (decide (Unmap (agg_IP x) = Unmap (agg_IP g))) as [->|Hne]; [rewrite lookup_insert_eq; eauto|].
  rewrite lookup_insert_ne by done. destruct Hg as [Hg| ->]; [auto|done].
Qed.

(** Only verdicts about the batch survive, respelled. *)
Lemma boundToBatch_spec vs batch w : w ∈ boundToBatch vs batch ↔
  ∃ v c, v ∈ vs ∧ observed batch !! Unmap (v_IP v) = Some c ∧ w = with_IP c v.
Proof.
  unfold boundToBatch. rewrite list_elem_of_omap. split.
  - intros (v & Hv & (c & Hc & ->)%fmap_Some). eauto.
  - intros (v & c & Hv & Hc & ->). exists v. split; [done|]. by rewrite Hc.
Qed.

(** A verdict as a provider may return it. *)
Record bounded (p : provider) (batch : list Aggregate) (v : Verdict) : Prop := {
  bd_ip : ∃ g, g ∈ batch ∧ v_IP v = agg_IP g;
  bd_score : 0 <= Score v <= 100;
  bd_ttl : 0 < prov_maxTTL p → SuggestTTL v <= prov_maxTTL p;
  bd_allow : (∃ q, q ∈ prov_allowlist p ∧ Contains q (v_IP v) = true) → Score v = 0 ∧ SuggestTTL v <= 0 ∧ IsAllowlistClamped v = true;
  bd_source : has_prefix "ai:" (v_Source v) = true
}.

Lemma clamp1_spec p v : let w := clamp1 p v in
  v_IP w = v_IP v ∧ (0 <= Score v <= 100 → 0 <= Score w <= 100) ∧ (0 < prov_maxTTL p → SuggestTTL w <= prov_maxTTL p) ∧
  (existsb (λ q, Contains q (v_IP v)) (prov_allowlist p) = true → Score w = 0 ∧ SuggestTTL w <= 0 ∧ IsAllowlistClamped w = true) ∧
  (has_prefix "ai:" (v_Source v) = true → has_prefix "ai:" (v_Source w) = true) ∧
  (existsb (λ q, Contains q (v_IP v)) (prov_allowlist p) = false → IsAllowlistClamped w = IsAllowlistClamped v).
Proof.
  unfold clamp1, IsAllowlistClamped.
  assert (∀ t, has_suffix t (v_Source v +:+ t) = true) as Hsuf by (intros t; apply has_suffix_spec; eauto).
  assert (has_prefix "ai:" (v_Source v) = true → has_prefix "ai:" (v_Source v +:+ AllowlistClampSourceSuffix) = true) as Hpre.
  { intros (t & ->)%has_prefix_spec. apply has_prefix_spec. exists (t +:+ AllowlistClampSourceSuffix). by rewrite str_app_assoc. }
  destruct (existsb _ _) eqn:Ea; destruct (Z.ltb_spec 0 (prov_maxTTL p)) as [Hm|Hm]; cbn [andb SuggestTTL Score v_IP v_Source];
    destruct (Z.ltb_spec (prov_maxTTL p) (SuggestTTL v)); destruct (Z.ltb_spec (prov_maxTTL p) 0);
    cbn [andb SuggestTTL Score v_IP v_Source]; repeat split; intros; try lia; auto.
Qed.

Lemma item_verdict_spec source r v : item_verdict source r = Some v → 0 <= Score v <= 100 ∧ v_Source v = source.
Proof.
  unfold item_verdict. intros (ip & _ & ->)%fmap_Some. simpl. split; [|done]. unfold clamp_score. repeat case_match; bool_hyps; lia.
Qed.

(** ** Retries *)
Section retries.
Context (call : nat → result call_error (list Verdict) * Usage) (stop : nat → option ctx_error).

(** Exactly the attempts [i .. i + n - 1] are made: every one but the last failed
    and its pause went by; the last answered, or was the last allowed, or the
    context ended in the pause after it. *)
Definition made (more i n : nat) (r : result call_error (list Verdict)) : Prop :=
  (1 ≤ n ≤ S more)%nat ∧
  (∀ j, (i ≤ j)%nat → (S j < i + n)%nat → stop j = None ∧ ∃ e, (call j).1 = Err e) ∧
  let last := (i + n - 1)%nat in
  match r with
  | Ok vs => (call last).1 = Ok vs
  | Err e => ((call last).1 = Err e ∧ n = S more) ∨ ∃ c, e = Ctx c ∧ stop last = Some c ∧ ∃ e', (call last).1 = Err e'
  end.

Definition tokens (get : Usage → Z) (i n : nat) : Z := sumZ (λ j, get (call j).2) (seq i n).

Lemma attempts_spec more i total : let '(r, u, ds) := attempts call stop more i total in
  ∃ n, made more i n r ∧ (length ds ≤ more)%nat ∧ (n - 1 ≤ length ds ≤ n)%nat ∧
    InputTokens u = InputTokens total + tokens InputTokens i n ∧ OutputTokens u = OutputTokens total + tokens OutputTokens i n ∧
    (∀ j d, ds !! j = Some d → ∃ e, (call (i + j)%nat).1 = Err e ∧ d = retryDelay e (i + j)).
Proof.
  assert (∀ more i total r d0, (call i).1 = d0 → match r, d0 with Ok vs, Ok ws => vs = ws
      | Err e, Err e' => e = e' ∧ more = 0%nat ∨ ∃ c, e = Ctx c ∧ stop i = Some c | _, _ => False end →
    made more i 1 r ∧ InputTokens (addUsage total (call i).2) = InputTokens total + tokens InputTokens i 1 ∧
    OutputTokens (addUsage total (call i).2) = OutputTokens total + tokens OutputTokens i 1) as Hone.
  { intros m k tot r d0 Hc Hr. unfold tokens. simpl. split; [|lia]. split; [lia|]. split; [intros; lia|]. cbv zeta.
    replace (k + 1 - 1)%nat with k by lia. rewrite Hc. destruct r, d0; simplify_eq; try done.
    destruct Hr as [[-> ->]|(x & -> & Hs)]; [by left|right]. exists x. split; [done|]. split; [done|eauto]. }
  revert i total. induction more as [|more IH]; intros i total; simpl; destruct (call i) as [[ws|e] uc] eqn:E.
  1-3: exists 1%nat; match goal with |- made ?m _ _ ?r ∧ _ => destruct (Hone m i total r (call i).1 eq_refl) as (H1 & H2 & H3) end;
    [rewrite E; by try (left; split)|]; rewrite E in H2, H3; simpl in *; split_and!; try done; try lia.
  destruct (stop i) as [c|] eqn:Es.
  { exists 1%nat. destruct (Hone (S more) i total (Err (Ctx c)) (call i).1 eq_refl) as (H1 & H2 & H3); [rewrite E; right; eauto|].
    rewrite E in H2, H3. simpl in *. split_and!; try done; try lia. intros [|j] d; [|done]. intros [= <-].
    exists e. rewrite Nat.add_0_r, E. done. }
  specialize (IH (S i) (addUsage total uc)). destruct (attempts call stop more (S i) _) as [[r' t'] ds'].
  destruct IH as (n & (Hn & Hf & Hl) & Hd1 & Hd2 & Hi & Ho & Hj). exists (S n). split; [|simpl; split_and!; try lia].
  - split; [lia|]. split.
    + intros j Hij Hjn. destruct (decide (j = i)) as [->|]; [split; [done|rewrite E; eauto]|]. apply Hf; lia.
    + cbv zeta in *. replace (i + S n - 1)%nat with (S i + n - 1)%nat by lia. destruct r'; [done|].
      destruct Hl as [[? ->]|?]; [by left|by right].
  - rewrite Hi. unfold tokens. simpl. rewrite E. simpl. lia.
  - rewrite Ho. unfold tokens. simpl. rewrite E. simpl. lia.
  - intros [|j] d; simpl; [intros [= <-]; exists e; by rewrite Nat.add_0_r, E|]. intros Hd. destruct (Hj j d Hd) as (e' & ? & ?).
    exists e'. by replace (i + S j)%nat with (S i + j)%nat by lia.
Qed.
End retries.

Lemma retryDelay_le e i : retryDelay e i <= aiRetryAfterCap.
Proof. unfold retryDelay, aiRetryAfterCap. repeat case_match; bool_hyps; lia. Qed.

(** Without a server-given delay the pause is at least a second. *)
Lemma retryDelay_backoff e i : (∀ d, e ≠ RateLimited (Some d)) → Second <= retryDelay e i.
Proof.
  intros He. assert (∀ k, (k ≤ 30)%nat → Second <= wrap64 (Z.shiftl aiBackoffBase (Z.of_nat k)) ∨
    wrap64 (Z.shiftl aiBackoffBase (Z.of_nat k)) <= 0) as Hk.
  { intros k Hk. left. rewrite Z.shiftl_mul_pow2 by lia. assert (1 <= 2 ^ Z.of_nat k <= 2 ^ 30).
    { split; [change 1 with (2 ^ 0); apply Z.pow_le_mono_r; lia|apply Z.pow_le_mono_r; lia]. }
    rewrite wrap64_id; unfold aiBackoffBase, Second in *; lia. }
  unfold retryDelay. specialize (Hk (i `min` 30)%nat ltac:(lia)).
  destruct e as [[d|]| |]; [by destruct (He d)|..]; (case_match; [unfold aiRetryAfterCap, Second in *; lia|bool_hyps; lia]).
Qed.

Lemma callOnce_spec source h : match (callOnce unmarshal source h).1 with
  | Ok vs => Forall (λ v, 0 <= Score v <= 100 ∧ v_Source v = source) vs
  | Err (RateLimited _) => ∃ header, h = Http429 header
  | Err _ => True
  end.
Proof.
  destruct h as [[c|]|header| |text u]; simpl; eauto. case_bool_decide; simpl; [done|].
  destruct (parseVerdictJSON unmarshal text) as [[|it its]|]; simpl; try done.
  change (Forall (λ v, 0 <= Score v <= 100 ∧ v_Source v = source) (omap (item_verdict source) (it :: its))).
  apply Forall_forall. intros v (x & _ & Hx)%list_elem_of_omap. by eapply item_verdict_spec.
Qed.

Lemma Analyze_bounded p https stop batch vs u : fallback p = None → Analyze unmarshal p https stop batch = (Ok vs, u) →
  Forall (bounded p batch) vs.
Proof.
  intros Hf. unfold Analyze. destruct batch as [|g0 batch']; [by intros [= <- _]|]. set (batch := g0 :: batch').
  pose proof (attempts_spec (λ i, callOnce unmarshal ("ai:" +:+ prov_Name p) (https i)) stop aiMaxRetries 0 noUsage) as Hm.
  unfold analyzeWithRetry. destruct (attempts _ stop _ _ _) as [[[ws|e] u'] ds]; [|destruct e; rewrite ?Hf; done]. intros [= <- _].
  destruct Hm as (n & (_ & _ & Hj) & _). cbv zeta beta in Hj. set (j := (0 + n - 1)%nat) in Hj. apply Forall_forall. intros w (v & -> & Hv)%list_elem_of_fmap.
  apply boundToBatch_spec in Hv as (v0 & c & Hv0 & Hc & ->). apply observed_spec in Hc as (g & Hg & <- & _).
  assert (0 <= Score v0 <= 100 ∧ v_Source v0 = "ai:" +:+ prov_Name p) as [Hs Hsrc].
  { pose proof (callOnce_spec ("ai:" +:+ prov_Name p) (https j)) as H. rewrite Hj, Forall_forall in H. by apply H. }
  destruct (clamp1_spec p (with_IP (agg_IP g) v0)) as (C1 & C2 & C3 & C4 & C5 & _). split.
  - exists g. by rewrite C1.
  - by apply C2.
  - exact C3.
  - intros (q & Hq & Hcq). apply C4, existsb_exists_elem. exists q. by rewrite C1 in Hcq.
  - apply C5. change (v_Source (with_IP (agg_IP g) v0)) with (v_Source v0). rewrite Hsrc. apply has_prefix_app.
Qed.
End provider.

(** A fenced answer is the text between the fences. *)
Lemma str_app_inj_r (a b c : string) : a +:+ c = b +:+ c → a = b.
Proof.
  revert b. induction a as [|x a IH]; intros [|y b]; simpl; [done|..].
  - intros H. apply (f_equal str_len) in H. simpl in H. rewrite str_length_app in H. lia.
  - intros H. apply (f_equal str_len) in H. simpl in H. rewrite str_length_app in H. lia.
  - intros [= -> H]. f_equal. by apply IH.
Qed.

Lemma TrimSuffix_app p s : TrimSuffix p (s +:+ p) = s.
Proof.
  pose proof (TrimSuffix_spec p (s +:+ p)) as H. assert (has_suffix p (s +:+ p) = true) as E by (apply has_suffix_spec; eauto).
  rewrite E in H. by apply str_app_inj_r in H.
Qed.

Lemma trim_cutset_app s t : trim_cutset t ≠ EmptyString → trim_cutset (s +:+ t) = s +:+ trim_cutset t.
Proof.
  intros Ht. induction s as [|c s IH]; simpl; [done|]. rewrite IH.
  rewrite (bool_decide_eq_false_2 (s +:+ trim_cutset t = EmptyString)); [by rewrite andb_false_r|]. by destruct s.
Qed.

Lemma trim_cutset_newline s : trim_cutset (s +:+ String "010" EmptyString) = trim_cutset s.
Proof.
  induction s as [|c s IH]; simpl; [|by rewrite IH]. reflexivity.
Qed.

Lemma cut_app c a b : no_char c a = true → cut c (a +:+ String c b) = (a, Some b).
Proof.
  induction a as [|x a IH]; simpl; [by rewrite decide_True|]. rewrite andb_true_iff, negb_true_iff, bool_decide_eq_false.
  intros [Hx Ha]. rewrite decide_False by done. by rewrite IH.
Qed.

Lemma fenced_answer lang body : no_char "010" lang = true → trim_cutset body = body →
  stripCodeFence (fence +:+ lang +:+ String "010" (body +:+ String "010" fence)) = body.
Proof.
  intros Hl Hb. unfold stripCodeFence. rewrite has_prefix_app. cbn [negb]. rewrite <- str_app_assoc, cut_app by (by rewrite no_char_app, Hl).
  rewrite trim_cutset_app by done. change (trim_cutset (String "010" fence)) with (String "010" fence).
  replace (body +:+ String "010" fence) with ((body +:+ String "010" EmptyString) +:+ fence) by (by rewrite str_app_assoc).
  replace (has_suffix fence ((body +:+ String "010" EmptyString) +:+ fence)) with true by (symmetry; apply has_suffix_spec; eauto).
  rewrite TrimSuffix_app, trim_cutset_newline. done.
Qed.

(** ** Properties *)

(** The tokens an answer says it took. *)
Definition http_usage (h : http) : Usage := match h with HttpText _ u => u | _ => noUsage end.

Lemma callOnce_usage unmarshal source h : (callOnce unmarshal source h).2 = http_usage h.
Proof. destruct h as [[c|]|header| |text u]; simpl; try done. case_bool_decide; [done|]. by destruct (parseVerdictJSON _ _) as [[|]|]. Qed.

(** C33. Whatever a provider's servers answer, in whatever attempts, without a
    fallback its verdicts are about addresses of the batch, scored 0 to 100, with
    their duration within the policy's longest, named as the provider's, and for
    an address of the allowlist of score 0, without duration and marked.  A call
    for a batch that is not empty, whether it ends in verdicts or in an error,
    makes one to four attempts, each but the last after a failure whose pause went
    by, and ends with the answer or the failure of the last one or with the
    context's end; it reports, as input and as output tokens, the sums of what the
    answers to exactly those attempts say; it pauses at most three times, each at
    most half a minute and, unless the server set the delay, at least a second.
    An empty batch makes no attempt. *)
Theorem provider_bounded unmarshal p https stop batch r u : fallback p = None → Analyze unmarshal p https stop batch = (r, u) →
  let call := λ i, callOnce unmarshal ("ai:" +:+ prov_Name p) (https i) in
  (∀ vs, r = Ok vs → Forall (bounded p batch) vs) ∧
  match batch with
  | [] => r = Ok [] ∧ u = noUsage
  | _ => ∃ n x ds, analyzeWithRetry call stop = (x, u, ds) ∧ made call stop 3 0 n x ∧
      match r with Ok _ => ∃ ws, x = Ok ws | Err e => x = Err e end ∧
      InputTokens u = sumZ (λ j, InputTokens (http_usage (https j))) (seq 0 n) ∧
      OutputTokens u = sumZ (λ j, OutputTokens (http_usage (https j))) (seq 0 n) ∧
      (length ds ≤ 3)%nat ∧ (n - 1 ≤ length ds ≤ n)%nat ∧ Forall (λ d, d <= 30 * Second) ds ∧
      (∀ j d, ds !! j = Some d → (∀ h, https j ≠ Http429 h) → Second <= d)
  end.
Proof.
  intros Hf H call. split; [intros vs ->; by eapply Analyze_bounded|]. unfold Analyze in H. destruct batch as [|g batch]; [by simplify_eq|].
  fold call in H. pose proof (attempts_spec call stop aiMaxRetries 0 noUsage) as Hs. unfold analyzeWithRetry in *.
  destruct (attempts call stop aiMaxRetries 0 noUsage) as [[x t] ds]. destruct Hs as (n & Hm & Hl & Hn & Hi & Ho & Hd).
  exists n, x, ds. assert (t = u) as -> by (destruct x as [|[| |]]; rewrite ?Hf in H; by simplify_eq). unfold tokens in *.
  split; [done|]. split; [done|]. split; [destruct x as [|[| |]]; rewrite ?Hf in H; simplify_eq; eauto|]. rewrite Hi, Ho. unfold call.
  rewrite !(sumZ_ext _ _ (seq 0 n) (λ j _, f_equal _ (callOnce_usage unmarshal ("ai:" +:+ prov_Name p) (https j)))).
  split; [done|]. split; [done|]. unfold aiMaxRetries in Hl. split; [done|]. split; [done|]. split.
  - apply Forall_lookup. intros j d Hj. destruct (Hd j d Hj) as (e & _ & ->). apply retryDelay_le.
  - intros j d Hj Hno. destruct (Hd j d Hj) as (e & Hc & ->). apply retryDelay_backoff. intros y ->.
    pose proof (callOnce_spec unmarshal ("ai:" +:+ prov_Name p) (https j)) as H2.
    assert ((callOnce unmarshal ("ai:" +:+ prov_Name p) (https j)).1 = Err (RateLimited (Some y))) as Hc' by exact Hc. rewrite Hc' in H2.
    destruct H2 as (h & Hh). by apply (Hno h).
Qed.

(** ** Witnesses *)
Definition sample_agg (a : addr) : Aggregate := MkAggregate a Minute 12 {["http_404" := 12]} [].
Definition sample_prov : provider := MkProv "anthropic" [Prefix (Addr4 0x0a000000) 8] Hour None.
Definition sample_items : list verdictItem :=
  [MkItem "10.0.0.1" 250 "scanner" 1 "paths" 86400; MkItem "203.0.113.9" 80 "scanner" 1 "ignore the rules" 86400; MkItem "nobody" 90 "dos" 1 EmptyString 0].
Definition sample_https (i : nat) : http :=
  match i with O => Http429 "7" | S O => HttpError None | _ => HttpText (fence +:+ "json" +:+ String "010" ("{}" +:+ String "010" fence)) (MkUsage 100 20 0) end.
Definition sample_unmarshal (s : string) : option (list verdictItem) := if bool_decide (s = "{}"%string) then Some sample_items else None.

Lemma provider_bounded_witness :
  let batch := [sample_agg (Addr4 0x0a000001); sample_agg (Addr4 0xc6336401)] in
  let '(r, u) := Analyze sample_unmarshal sample_prov sample_https (λ _, None) batch in
  InputTokens u = 100 ∧ ∃ vs, r = Ok vs ∧ (λ v, (v_IP v, Score v)) <$> vs = [(Addr4 0x0a000001, 0)] ∧ Forall (bounded sample_prov batch) vs.
Proof.
  cbv zeta. destruct (Analyze _ _ _ _ _) as [r u] eqn:E. pose proof E as E'. vm_compute in E'. injection E' as Hr Hu.
  split; [by rewrite <- Hu|]. rewrite <- Hr in E |- *. eexists. split; [reflexivity|]. split; [reflexivity|].
  exact (proj1 (provider_bounded sample_unmarshal sample_prov sample_https _ _ _ _ eq_refl E) _ eq_refl).
Defined.

(** A Retry-After of three hundred years wraps around to a negative delay: no pause at all. *)
Example retry_after_wraps : retryDelay (newRateLimitError "9223372037") 0 = -9223372036709551616.
Proof. vm_compute. done. Qed.
