(* ===== verification/AiQueue.v ===== *)
(** The queue in front of the asynchronous AI layer: [aiAsyncQueue] of
    [internal/daemon/aiasync.go].

    The mutex makes each method one step; the wake-up channel is left out.  The
    one worker pops an item and ends its episode with [done]. *)
From S2P Require Import Prelude Netip.
#[local] Open Scope Z_scope.

Definition defaultAIQueueCap : Z := 256.
Definition aiAsyncPerIPCooldown : duration := Minute.
Definition aiAsyncErrorBackoff : duration := 10 * Second.

Record aiAsyncItem := MkAsync { q_ip : addr; q_ruleScore : Z; q_queuedAt : time }.

Record aiAsyncQueue := MkQueue {
  q_items : list aiAsyncItem; q_pending : gset addr; q_lastDone : gmap addr time; q_cap : Z; q_dropped : Z
}.

Definition newAIAsyncQueue (capacity : Z) : aiAsyncQueue :=
  MkQueue [] ∅ ∅ (if capacity <=? 0 then defaultAIQueueCap else capacity) 0.

Definition pruneCooldownsLocked (now : time) (m : gmap addr time) : gmap addr time :=
  if (size m <? 1024)%nat then m else filter (λ kv, ¬ aiAsyncPerIPCooldown <= now - kv.2) m.

Definition cooling (now : time) (ip : addr) (q : aiAsyncQueue) : bool :=
  match q_lastDone q !! ip with Some last => now - last <? aiAsyncPerIPCooldown | None => false end.

Definition push (now : time) (it : aiAsyncItem) (q : aiAsyncQueue) : aiAsyncQueue :=
  if bool_decide (q_ip it ∈ q_pending q) then q
  else if cooling now (q_ip it) q then q
  else
    let last := pruneCooldownsLocked now (q_lastDone q) in
    let '(items, pending, dropped) :=
      if q_cap q <=? Z.of_nat (length (q_items q)) then
        match q_items q with
        | oldest :: items => (items, q_pending q ∖ {[q_ip oldest]}, q_dropped q + 1)
        | [] => ([], q_pending q, q_dropped q)   (* the capacity is positive *)
        end
      else (q_items q, q_pending q, q_dropped q) in
    MkQueue (items ++ [it]) ({[q_ip it]} ∪ pending) last (q_cap q) dropped.

Definition pop (q : aiAsyncQueue) : option (aiAsyncItem * aiAsyncQueue) :=
  match q_items q with
  | [] => None
  | it :: items => Some (it, MkQueue items (q_pending q) (q_lastDone q) (q_cap q) (q_dropped q))
  end.

Definition done_ (now : time) (ip : addr) (answered : bool) (q : aiAsyncQueue) : aiAsyncQueue :=
  MkQueue (q_items q) (q_pending q ∖ {[ip]})
    (<[ip := if answered then now else now + (aiAsyncErrorBackoff - aiAsyncPerIPCooldown)]> (q_lastDone q)) (q_cap q) (q_dropped q).

Definition isPending (ip : addr) (q : aiAsyncQueue) : bool := bool_decide (ip ∈ q_pending q).
Definition depth (q : aiAsyncQueue) : nat := length (q_items q).

(** ** The worker and the queue *)

(** The queue, the item in the worker's hands, the clock, and every episode that
    ended: its address, when, and whether the layer answered. *)
Record qstate := MkQState { st_q : aiAsyncQueue; inflight : option aiAsyncItem; st_now : time; ended : list (addr * time * bool) }.

Inductive qstep : qstate → qstate → Prop :=
| QPush s now it : st_now s <= now →
    qstep s (MkQState (push now it (st_q s)) (inflight s) now (ended s))
| QPop s it q : inflight s = None → pop (st_q s) = Some (it, q) →
    qstep s (MkQState q (Some it) (st_now s) (ended s))
| QDone s now it answered : st_now s <= now → inflight s = Some it →
    qstep s (MkQState (done_ now (q_ip it) answered (st_q s)) None now ((q_ip it, now, answered) :: ended s)).

Definition qinit (capacity : Z) (t : time) : qstate := MkQState (newAIAsyncQueue capacity) None t [].

(** How long an address rests after an episode. *)
Definition rest_of (answered : bool) : duration := if answered then aiAsyncPerIPCooldown else aiAsyncErrorBackoff.

Definition ips (q : aiAsyncQueue) : list addr := q_ip <$> q_items q.
Definition hands (o : option aiAsyncItem) : gset addr := match o with Some it => {[q_ip it]} | None => ∅ end.

Record qinv (s : qstate) : Prop := {
  qi_nodup : NoDup (ips (st_q s));
  qi_pending : q_pending (st_q s) = list_to_set (ips (st_q s)) ∪ hands (inflight s);
  qi_apart : ∀ it, inflight s = Some it → q_ip it ∉ ips (st_q s);
  qi_cap : 0 < q_cap (st_q s) ∧ Z.of_nat (length (q_items (st_q s))) <= q_cap (st_q s);
  qi_rest : ∀ ip t b, (ip, t, b) ∈ ended s →
    (ip ∈ q_pending (st_q s) → t + rest_of b <= st_now s) ∧
    match q_lastDone (st_q s) !! ip with
    | Some m => t + rest_of b <= m + aiAsyncPerIPCooldown
    | None => t + rest_of b <= st_now s
    end
}.

Lemma qinit_inv capacity t : qinv (qinit capacity t).
Proof.
  split; simpl; [constructor|set_solver|done|unfold defaultAIQueueCap; destruct (Z.leb_spec capacity 0); lia|].
  intros ip t' b Hin. by apply not_elem_of_nil in Hin.
Qed.

Lemma prune_lookup now m ip : pruneCooldownsLocked now m !! ip = m !! ip ∨
  (pruneCooldownsLocked now m !! ip = None ∧ ∃ t, m !! ip = Some t ∧ aiAsyncPerIPCooldown <= now - t).
Proof.
  unfold pruneCooldownsLocked. case_match; [by left|]. destruct (m !! ip) as [t|] eqn:E.
  - destruct (decide (aiAsyncPerIPCooldown <= now - t)) as [Hle|Hn].
    + right. split; [|eauto]. apply map_lookup_filter_None. right. intros x Hx. simplify_eq. simpl. tauto.
    + left. apply map_lookup_filter_Some. done.
  - left. apply map_lookup_filter_None. by left.
Qed.

(** What a push does when it does anything. *)
Definition enters (now : time) (it : aiAsyncItem) (q : aiAsyncQueue) : Prop := (q_ip it ∉ q_pending q) ∧ cooling now (q_ip it) q = false.

Lemma push_spec now it q : 0 < q_cap q → ((¬ enters now it q) ∧ push now it q = q) ∨
  (enters now it q ∧ ∃ items pending dropped,
     push now it q = MkQueue (items ++ [it]) ({[q_ip it]} ∪ pending) (pruneCooldownsLocked now (q_lastDone q)) (q_cap q) dropped ∧
     ((items = q_items q ∧ pending = q_pending q ∧ dropped = q_dropped q ∧ Z.of_nat (length (q_items q)) < q_cap q) ∨
      ∃ o, q_items q = o :: items ∧ pending = q_pending q ∖ {[q_ip o]} ∧ dropped = q_dropped q + 1)).
Proof.
  intros Hc. unfold push, enters. case_bool_decide as Hp; [left; tauto|]. destruct (cooling now (q_ip it) q) eqn:Ec; [left; split; [by intros []|done]|].
  right. split; [done|]. destruct (Z.leb_spec (q_cap q) (Z.of_nat (length (q_items q)))) as [Hle|Hlt]; [|by eexists _, _, _; split; [done|left]].
  destruct (q_items q) as [|o items] eqn:Ei; [simpl in Hle; lia|]. eexists _, _, _. split; [done|]. right. eauto.
Qed.

Lemma cooling_false now ip q : cooling now ip q = false ↔ ∀ m, q_lastDone q !! ip = Some m → m + aiAsyncPerIPCooldown <= now.
Proof.
  unfold cooling. destruct (q_lastDone q !! ip) as [m|]; [|split; [done|by intros]]. rewrite Z.ltb_ge. split.
  - intros ? ? [= <-]. lia.
  - intros H. specialize (H m eq_refl). lia.
Qed.

(** An address that enters has rested after each of its episodes. *)
Lemma enters_rested s now it : qinv s → st_now s <= now → enters now it (st_q s) →
  ∀ t b, (q_ip it, t, b) ∈ ended s → t + rest_of b <= now.
Proof.
  intros H Hn [_ Hc] t b Hin. destruct (qi_rest _ H _ _ _ Hin) as [_ Hr]. rewrite cooling_false in Hc.
  destruct (q_lastDone (st_q s) !! q_ip it) as [m|]; [specialize (Hc m eq_refl)|]; lia.
Qed.

Lemma qstep_inv s s' : qinv s → qstep s s' → qinv s'.
Proof.
  intros H Hs. pose proof H as [H1 H2 H3 H4 H5]. destruct Hs as [s now it Hn|s it q Hf Hp|s now it answered Hn Hf].
  - destruct (push_spec now it (st_q s)) as [[Hne ->]|[He (items & pending & dropped & -> & Hq)]]; [lia|..].
    { split; simpl; try done. intros ip t b Hin. destruct (H5 ip t b Hin) as [Ha Hb].
      split; [intros Hp; specialize (Ha Hp); lia|]. case_match; lia. }
    pose proof (enters_rested _ _ _ H Hn He) as Hrest. destruct He as [Hnp _].
    assert ((q_ip it ∉ ips (st_q s)) ∧ hands (inflight s) ⊆ q_pending (st_q s) ∧ q_ip it ∉ hands (inflight s)) as (Hni & Hh & Hnh) by set_solver.
    assert (NoDup (q_ip <$> items) ∧ (∀ x, x ∈ q_ip <$> items → x ∈ ips (st_q s)) ∧
      pending = list_to_set (q_ip <$> items) ∪ hands (inflight s) ∧ Z.of_nat (length items) < q_cap (st_q s) ∧ pending ⊆ q_pending (st_q s))
      as (Hd & Hsub & Hpend & Hlen & Hps).
    { unfold ips in *. destruct Hq as [(-> & -> & _ & Hlt)|(o & Ho & -> & _)]; [by repeat split|].
      rewrite Ho in *. simpl in *. apply NoDup_cons in H1 as [Ho1 Hd]. split; [done|]. split; [intros x; rewrite elem_of_cons; auto|].
      split; [|split; [lia|set_solver]]. rewrite H2. assert (q_ip o ∉ hands (inflight s)) as Hoh.
      { destruct (inflight s) as [x|] eqn:Ei; simpl; [|set_solver]. specialize (H3 x eq_refl). set_solver. }
      set_solver. }
    split; simpl.
    + unfold ips. simpl. rewrite fmap_app. apply NoDup_app. split; [done|]. split; [|apply NoDup_singleton].
      intros x Hx ->%list_elem_of_singleton. by apply Hni, Hsub.
    + unfold ips. simpl. rewrite Hpend, fmap_app, list_to_set_app_L. simpl. set_solver.
    + intros x Hx. unfold ips. simpl. rewrite fmap_app, elem_of_app. intros [Hin|Hin].
      * by apply (H3 x Hx), Hsub.
      * rewrite Hx in Hnh. set_solver.
    + rewrite length_app. simpl. lia.
    + intros ip t b Hin. destruct (H5 ip t b Hin) as [Ha Hb]. split.
      * intros [->%elem_of_singleton|Hp]%elem_of_union; [by apply Hrest|]. specialize (Ha (Hps _ Hp)). lia.
      * destruct (prune_lookup now (q_lastDone (st_q s)) ip) as [->|(-> & m & Hm & Hle)]; [case_match; lia|]. rewrite Hm in Hb. lia.
  - unfold pop in Hp. destruct (q_items (st_q s)) as [|it' items] eqn:Ei; [done|]. injection Hp as -> <-.
    unfold ips in *. rewrite Ei, Hf in *. simpl in *. apply NoDup_cons in H1 as [Ho1 Hd].
    split; simpl; [done|set_solver|by intros ? [= <-]|lia|]. intros ip t b Hin. by apply H5.
  - split; simpl; [done| |done|done|].
    + rewrite H2, Hf. specialize (H3 it Hf). simpl. set_solver.
    + intros ip t b [[= -> -> ->]|Hin]%elem_of_cons.
      * split; [set_solver|]. rewrite lookup_insert_eq. unfold rest_of. destruct answered; lia.
      * destruct (H5 ip t b Hin) as [Ha Hb]. assert (q_ip it ∈ q_pending (st_q s)) as Hpd by (rewrite H2, Hf; set_solver).
        split; [intros Hp; assert (ip ∈ q_pending (st_q s)) as Hx by set_solver; specialize (Ha Hx); lia|].
        destruct (decide (q_ip it = ip)) as [<-|Hne].
        -- rewrite lookup_insert_eq. specialize (Ha Hpd). unfold aiAsyncErrorBackoff, aiAsyncPerIPCooldown, Minute, Second in *. destruct answered; lia.
        -- rewrite lookup_insert_ne by done. case_match; lia.
Qed.

Lemma reachable_inv capacity t s : rtc qstep (qinit capacity t) s → qinv s.
Proof.
  intros H. assert (∀ a b, rtc qstep a b → qinv a → qinv b) as Hi by (intros a b Hr; induction Hr; eauto using qstep_inv).
  eapply Hi; [exact H|apply qinit_inv].
Qed.

(** ** Properties *)

(** In every state the worker and the pushes can reach, an address is queued
    at most once and not while its analysis is running, the queue keeps to its
    capacity, and a push lets an address in exactly when it is neither queued nor
    being analysed and then only a minute after every episode the layer answered
    and ten seconds after every episode it did not. *)
Theorem queue_fair capacity t0 s now it : rtc qstep (qinit capacity t0) s → st_now s <= now →
  NoDup (ips (st_q s)) ∧ (∀ x, inflight s = Some x → q_ip x ∉ ips (st_q s)) ∧
  Z.of_nat (depth (st_q s)) <= q_cap (st_q s) ∧
  (push now it (st_q s) = st_q s ∨ it ∈ q_items (push now it (st_q s))) ∧
  (q_ip it ∈ ips (st_q s) ∨ inflight s = Some it → push now it (st_q s) = st_q s) ∧
  (push now it (st_q s) ≠ st_q s → ∀ t b, (q_ip it, t, b) ∈ ended s → t + rest_of b <= now).
Proof.
  intros Hr Hn. pose proof (reachable_inv _ _ _ Hr) as H. pose proof H as [H1 H2 H3 H4 H5].
  split; [done|]. split; [done|]. split; [unfold depth; lia|].
  destruct (push_spec now it (st_q s)) as [[Hne ->]|[He (items & pending & dropped & E & _)]]; [lia|by repeat split; auto|].
  split; [right; rewrite E; simpl; set_solver|]. split.
  - intros Hin. destruct He as [Hnp _]. exfalso. apply Hnp. rewrite H2. destruct Hin as [Hin| ->]; set_solver.
  - intros _. by eapply enters_rested.
Qed.

Lemma queue_fair_witness :
  let q := push 5 (MkAsync (Addr4 7) 40 5) (newAIAsyncQueue 1) in
  let s := MkQState q None 5 [] in
  rtc qstep (qinit 1 0) s ∧ push 6 (MkAsync (Addr4 7) 50 6) q = q ∧ q_dropped (push 6 (MkAsync (Addr4 8) 50 6) q) = 1.
Proof.
  cbv zeta. assert (rtc qstep (qinit 1 0) (MkQState (push 5 (MkAsync (Addr4 7) 40 5) (newAIAsyncQueue 1)) None 5 [])) as Hr.
  { apply rtc_once. apply (QPush (qinit 1 0) 5 (MkAsync (Addr4 7) 40 5)). simpl. lia. }
  split; [exact Hr|]. split; [|vm_compute; reflexivity].
  refine (proj1 (proj2 (proj2 (proj2 (proj2 (queue_fair 1 0 _ 6 (MkAsync (Addr4 7) 50 6) Hr _))))) _); [simpl; lia|].
  left. vm_compute. left.
Defined.
