(* ===== verification/Store.v ===== *)
(** The SQLite store: [internal/store/store.go].

    Tables are maps and row lists.  A statement either takes effect or fails:
    the driver's verdicts are a list of outcomes the statements consume in
    order (the empty list is a driver that never fails), so every error path of
    the Go code is a path of the model.  [tx] is [BeginTx] ... [Commit] with
    the deferred [Rollback].  Column timestamps are the times they denote;
    where SQL compares them as RFC 3339 text, [text_lt] compares the text.
    The store clock is read once per call. *)
From Stdlib Require Import QArith Sorted.
From S2P Require Import Prelude GoStrings Netip Sdk.
#[local] Open Scope Z_scope.

(** [sec.fraction] without trailing zeros, then [Z]: the tail of RFC3339Nano. *)
Definition frac_text (t : time) : string := frac 9 (t `mod` Second) +:+ "Z".

(** Comparing two RFC3339Nano columns as text.  The part before the fraction
    has a fixed width for years 0 to 9999, where its order is that of the
    seconds. *)
Definition text_lt (a b : time) : bool :=
  (Unix a <? Unix b) || ((Unix a =? Unix b) && (frac_text a <? frac_text b)%string).

Record offender := MkOffender {
  first_seen : time; last_seen : time; total_strikes : Z; had_ineffective : bool
}.

Record strike_row := MkStrikeRow {
  s_ip : addr; s_recorded_at : time; s_num : Z; s_ttl : Z; s_reason : string; s_verdicts : list Verdict
}.

Record ban_row := MkBan {
  banned_at : time; expires_at : option time; strike_num : Z; b_reason : string; dry_run : bool;
  suppressed_total : Z; suppressed_after_grace : Z; ineffective_fired : bool;
  last_suppressed_at : option time
}.

(** What the [ip] column of an audit row holds. *)
Inductive subject := OnIP (a : addr) | OnPrefix (p : prefix) | OnSystem | OnAll.  (* "system", "-" *)

Record AuditEntry := MkAudit {
  a_id : Z; a_recorded_at : time; a_op : string; a_subject : subject;
  a_ttl : Z; a_strike : Z; a_reason : string
}.

Record AllowEntry := MkAllow { al_expires : option time; al_reason : string; al_created : time }.

Record usage_row := MkUsageRow {
  u_called : time; u_provider : string; u_usage : Usage; u_ip : option string
}.

Record db := MkDb {
  offenders : gmap addr offender;
  strikes : list strike_row;
  bans : gmap addr ban_row;
  audit : list AuditEntry;
  audit_next : Z;
  allowlist : gmap prefix AllowEntry;
  daemon_state : gmap string string;
  ai_usage : list usage_row;
  events_agg : gmap (addr * string * Z) Z;            (* (ip, kind, bucket_start) ↦ count *)
  events_consumed : gmap (addr * Z * string) (Z * Z)  (* (ip, window_s, kind) ↦ (consumed, recorded_at) *)
}.

Definition emptyDb : db := MkDb ∅ [] ∅ [] 1 ∅ ∅ [] ∅ ∅.

Definition on_offenders f d := MkDb (f (offenders d)) (strikes d) (bans d) (audit d) (audit_next d) (allowlist d) (daemon_state d) (ai_usage d) (events_agg d) (events_consumed d).
Definition on_strikes f d := MkDb (offenders d) (f (strikes d)) (bans d) (audit d) (audit_next d) (allowlist d) (daemon_state d) (ai_usage d) (events_agg d) (events_consumed d).
Definition on_bans f d := MkDb (offenders d) (strikes d) (f (bans d)) (audit d) (audit_next d) (allowlist d) (daemon_state d) (ai_usage d) (events_agg d) (events_consumed d).
Definition on_allowlist f d := MkDb (offenders d) (strikes d) (bans d) (audit d) (audit_next d) (f (allowlist d)) (daemon_state d) (ai_usage d) (events_agg d) (events_consumed d).
Definition on_state f d := MkDb (offenders d) (strikes d) (bans d) (audit d) (audit_next d) (allowlist d) (f (daemon_state d)) (ai_usage d) (events_agg d) (events_consumed d).
Definition on_usage f d := MkDb (offenders d) (strikes d) (bans d) (audit d) (audit_next d) (allowlist d) (daemon_state d) (f (ai_usage d)) (events_agg d) (events_consumed d).
Definition on_events_agg f d := MkDb (offenders d) (strikes d) (bans d) (audit d) (audit_next d) (allowlist d) (daemon_state d) (ai_usage d) (f (events_agg d)) (events_consumed d).
Definition on_events_consumed f d := MkDb (offenders d) (strikes d) (bans d) (audit d) (audit_next d) (allowlist d) (daemon_state d) (ai_usage d) (events_agg d) (f (events_consumed d)).

(** [INSERT INTO audit_log]: the key is the next one of the sequence. *)
Definition insert_audit (t : time) (op : string) (s : subject) (ttl strike : Z) (reason : string) (d : db) : db :=
  MkDb (offenders d) (strikes d) (bans d)
    (audit d ++ [MkAudit (audit_next d) t op s ttl strike reason]) (audit_next d + 1)
    (allowlist d) (daemon_state d) (ai_usage d) (events_agg d) (events_consumed d).

(** ** Statements and transactions *)
Inductive store_error := ESql | ENegativeTTL.

Record world := MkWorld { tables : db; faults : list bool }.

Definition sql (A : Type) : Type := world → result store_error A * world.

#[export] Instance sql_mret : MRet sql := λ A x w, (Ok x, w).
#[export] Instance sql_mbind : MBind sql := λ A B k m w,
  match m w with
  | (Ok x, w') => k x w'
  | (Err e, w') => (Err e, w')
  end.

Definition raise {A} (e : store_error) : sql A := λ w, (Err e, w).

(** One driver call: it consumes the next outcome. *)
Definition driver : sql unit := λ w,
  match faults w with
  | false :: o => (Err ESql, MkWorld (tables w) o)
  | _ :: o => (Ok tt, MkWorld (tables w) o)
  | [] => (Ok tt, w)
  end.

Definition modify (f : db → db) : sql unit := λ w, (Ok tt, MkWorld (f (tables w)) (faults w)).
Definition read {A} (f : db → A) : sql A := λ w, (Ok (f (tables w)), w).

Definition exec (f : db → db) : sql unit := _ ← driver; modify f.
Definition query {A} (f : db → A) : sql A := _ ← driver; read f.

(** [BeginTx], the body, [Commit]; any failure rolls the tables back. *)
Definition tx {A} (body : sql A) : sql A := λ w,
  match (_ ← driver; x ← body; _ ← driver; mret x) w with
  | (Ok x, w') => (Ok x, w')
  | (Err e, w') => (Err e, MkWorld (tables w) (faults w'))
  end.

Definition op_string (o : Op) : string :=
  match o with
  | ban => "ban" | dry_ban => "dry_ban" | unban => "unban" | expired => "expired"
  | record => "record" | notify_only => "notify_only" | already_banned => "already_banned"
  | allow_add => "allow_add"
  end.

Definition IneffectiveRearmAfter : duration := 24 * Hour.

(** ** Bans and strikes *)
Definition upsert_offender (now : time) (inc : Z) (ip : addr) (m : gmap addr offender) : gmap addr offender :=
  <[ip := match m !! ip with
          | Some o => MkOffender (first_seen o) now (total_strikes o + inc) (had_ineffective o)
          | None => MkOffender now now inc false
          end]> m.

Definition expiry (now : time) (ttl : duration) : option time :=
  if 0 <? ttl then Some (now + ttl) else None.

Definition fresh_ban (now : time) (exp : option time) (strike : Z) (reason : string) (dry : bool) : ban_row :=
  MkBan now exp strike reason dry 0 0 false None.

Definition RecordStrike (now : time) (a : Action) : sql unit :=
  let ip := act_IP a in
  let ttlSec := dur_seconds (act_TTL a) in
  let dry := bool_decide (act_Op a = dry_ban) in
  tx (
    _ ← exec (on_offenders (upsert_offender now 1 ip));
    _ ← exec (on_strikes (λ l, l ++ [MkStrikeRow ip now (Strike a) ttlSec (act_Reason a) (Verdicts a)]));
    _ ← exec (on_bans (λ m, <[ip := fresh_ban now (expiry now (act_TTL a)) (Strike a) (act_Reason a) dry]> m));
    exec (insert_audit now (op_string (act_Op a)) (OnIP ip) ttlSec (Strike a) (act_Reason a))).

(** When the ban was applied, its strike, whether it is simulated. *)
Definition GetBanInfo (now : time) (ip : addr) : sql (option (time * Z * bool)) :=
  row ← query (λ d, bans d !! ip);
  mret match row with
  | None => None
  | Some b =>
    match expires_at b with
    | Some t => if t <=? now then None else Some (banned_at b, strike_num b, dry_run b)
    | None => Some (banned_at b, strike_num b, dry_run b)
    end
  end.

Definition rearm (before : time) (b : ban_row) : ban_row :=
  if ineffective_fired b &&
     match last_suppressed_at b with None => true | Some t => text_lt t before end
  then MkBan (banned_at b) (expires_at b) (strike_num b) (b_reason b) (dry_run b)
         (suppressed_total b) 0 false (last_suppressed_at b)
  else b.

Definition suppress (now : time) (ag : Z) (b : ban_row) : ban_row :=
  MkBan (banned_at b) (expires_at b) (strike_num b) (b_reason b) (dry_run b)
    (suppressed_total b + 1) (suppressed_after_grace b + ag) (ineffective_fired b) (Some now).

Definition RecordSuppressed (now : time) (ip : addr) (afterGrace : bool) : sql (Z * Z * bool) :=
  let ag := if afterGrace then 1 else 0 in
  tx (
    _ ← exec (on_bans (alter (rearm (now - IneffectiveRearmAfter)) ip));
    _ ← exec (on_bans (alter (suppress now ag) ip));
    row ← query (λ d, bans d !! ip);
    mret match row with
         | None => (0, 0, false)
         | Some b => (suppressed_total b, suppressed_after_grace b, ineffective_fired b)
         end).

Definition fire (b : ban_row) : ban_row :=
  MkBan (banned_at b) (expires_at b) (strike_num b) (b_reason b) (dry_run b)
    (suppressed_total b) (suppressed_after_grace b) true (last_suppressed_at b).

Definition mark_offender (o : offender) : offender :=
  MkOffender (first_seen o) (last_seen o) (total_strikes o) true.

Definition MarkBanIneffective (ip : addr) : sql bool :=
  tx (
    n ← read (λ d, match bans d !! ip with Some b => negb (ineffective_fired b) | None => false end);
    _ ← exec (on_bans (alter fire ip));
    if (n : bool) then (_ ← exec (on_offenders (alter mark_offender ip)); mret true)
    else mret false).

Definition HadIneffectiveBan (ip : addr) : sql bool :=
  query (λ d, match offenders d !! ip with Some o => had_ineffective o | None => false end).

Definition last_strike (ip : addr) (l : list strike_row) : option strike_row :=
  last (List.filter (λ s, bool_decide (s_ip s = ip)) l).

Definition LastStrike (ip : addr) : sql (option (time * duration)) :=
  query (λ d, (λ s, (s_recorded_at s, s_ttl s * Second)) <$> last_strike ip (strikes d)).

Definition BumpLastSeen (now : time) (ip : addr) : sql unit :=
  exec (on_offenders (upsert_offender now 0 ip)).

Definition GetStrikeCount (ip : addr) : sql Z :=
  query (λ d, match offenders d !! ip with Some o => total_strikes o | None => 0 end).

(** The active bans, in the order SQLite returns the rows (the map's). *)
Definition active_action (now : time) (ip : addr) (b : ban_row) : option Action :=
  let op := if dry_run b then dry_ban else ban in
  match expires_at b with
  | None => Some (MkAction ip op 0 true (strike_num b) (b_reason b) [])
  | Some t => if t - now <=? 0 then None
              else Some (MkAction ip op (t - now) false (strike_num b) (b_reason b) [])
  end.

Definition ActiveBans (now : time) : sql (list Action) :=
  query (λ d, omap (λ kv, active_action now kv.1 kv.2) (map_to_list (bans d))).

Definition ban_expired (now : time) (b : ban_row) : bool :=
  match expires_at b with Some t => text_lt t now | None => false end.

Definition audit_expired (now : time) (d : db) : db :=
  fold_left (λ d kv, if ban_expired now kv.2
    then insert_audit now "expire" (OnIP kv.1) 0 (strike_num kv.2)
           (if dry_run kv.2 then "simulated ttl expired" else "ttl expired") d
    else d) (map_to_list (bans d)) d.

Definition ExpireBans (now : time) : sql Z :=
  _ ← exec (audit_expired now);
  n ← read (λ d, Z.of_nat (size (filter (λ kv, ban_expired now kv.2 = true) (bans d))));
  _ ← exec (on_bans (filter (λ kv, ban_expired now kv.2 = false)));
  mret n.

Definition Unban (now : time) (ip : addr) : sql unit :=
  tx (
    _ ← exec (on_bans (delete ip));
    exec (insert_audit now "unban" (OnIP ip) 0 0 "manual unban")).

Definition RecordManualBan (now : time) (ip : addr) (ttl : duration) (reason : string) (dryRun : bool) : sql unit :=
  if ttl <? 0 then raise ENegativeTTL else
  let ttlSec := dur_seconds ttl in
  let op := if dryRun then "dry_ban" else "ban" in
  tx (
    _ ← exec (on_bans (λ m,
          let n := match m !! ip with Some b => strike_num b | None => 1 end in
          <[ip := fresh_ban now (expiry now ttl) n reason dryRun]> m));
    exec (insert_audit now op (OnIP ip) ttlSec 1 reason)).

(** ** Audit log *)
Definition Audit (now : time) (a : Action) : sql unit :=
  exec (insert_audit now (op_string (act_Op a)) (OnIP (act_IP a)) (dur_seconds (act_TTL a)) (Strike a) (act_Reason a)).

Definition AuditOp (now : time) (op : string) (p : prefix) (ttl : duration) (reason : string) : sql unit :=
  exec (insert_audit now op (OnPrefix (Masked p)) (dur_seconds ttl) 0 reason).

Definition AuditSystem (now : time) (op reason : string) : sql unit :=
  exec (insert_audit now op OnSystem 0 0 reason).

Definition clamp_list_limit (limit : Z) : Z :=
  if limit <=? 0 then 1 else if 1000 <? limit then 1000 else limit.

Definition ListAuditLog (limit : Z) : sql (list AuditEntry) :=
  query (λ d, take (Z.to_nat (clamp_list_limit limit)) (reverse (audit d))).

Definition clamp_tail_limit (limit : Z) : Z :=
  if limit <=? 0 then 100 else if 1000 <? limit then 1000 else limit.

Definition AuditLogAfter (afterID limit : Z) : sql (list AuditEntry) :=
  query (λ d, take (Z.to_nat (clamp_tail_limit limit)) (List.filter (λ e, afterID <? a_id e) (audit d))).

(** ** Runtime allowlist *)
Definition AddAllow (now : time) (p : prefix) (exp : option time) (reason : string) : sql unit :=
  exec (on_allowlist (<[Masked p := MkAllow exp reason now]>)).

Definition RemoveAllow (p : prefix) : sql Z :=
  n ← read (λ d, if decide (is_Some (allowlist d !! Masked p)) then 1 else 0);
  _ ← exec (on_allowlist (delete (Masked p)));
  mret n.

Definition ListAllow : sql (list (prefix * AllowEntry)) :=
  query (λ d, map_to_list (allowlist d)).

Definition allow_expired (now : time) (e : AllowEntry) : bool :=
  match al_expires e with Some t => text_lt t now | None => false end.

Definition audit_allow_expired (now : time) (d : db) : db :=
  fold_left (λ d kv, if allow_expired now kv.2
    then insert_audit now "allow_expire" (OnPrefix kv.1) 0 0 "allowlist ttl expired" d else d)
    (map_to_list (allowlist d)) d.

Definition ExpireAllows (now : time) : sql Z :=
  _ ← exec (audit_allow_expired now);
  n ← read (λ d, Z.of_nat (size (filter (λ kv, allow_expired now kv.2 = true) (allowlist d))));
  _ ← exec (on_allowlist (filter (λ kv, allow_expired now kv.2 = false)));
  mret n.

Fixpoint unban_each (now : time) (reason : string) (ips : list addr) : sql unit :=
  match ips with
  | [] => mret tt
  | ip :: ips =>
    _ ← exec (on_bans (delete ip));
    _ ← exec (insert_audit now "unban" (OnIP ip) 0 0 reason);
    unban_each now reason ips
  end.

Definition UnbanCovered (now : time) (p : prefix) (reason : string) : sql (list addr) :=
  matches ← query (λ d, List.filter (Contains p) (map_to_list (bans d)).*1);
  match matches with
  | [] => mret []
  | _ => (_ ← tx (unban_each now reason matches); mret matches)
  end.

Definition UnbanPrefix (now : time) (p : prefix) (show : prefix → string) : sql Z :=
  ips ← UnbanCovered now p ("manual unban via " +:+ show (Masked p));
  mret (Z.of_nat (length ips)).

(** The panic button: one summary row for all. *)
Definition UnbanAll (now : time) (reason : string) : sql Z :=
  tx (
    n ← read (λ d, Z.of_nat (size (bans d)));
    _ ← exec (on_bans (λ _, ∅));
    _ ← exec (insert_audit now "disable_all" OnAll 0 0 (reason +:+ " (removed " +:+ show_Z n +:+ " active bans)"));
    mret n).

(** ** Daemon state and AI accounting *)
Definition SetState (k v : string) : sql unit := exec (on_state (<[k := v]>)).
Definition GetState (k : string) : sql (option string) := query (λ d, daemon_state d !! k).
Definition DeleteState (k : string) : sql unit := exec (on_state (delete k)).

Definition RecordUsage (now : time) (provider : string) (u : Usage) (ip : string) : sql unit :=
  exec (on_usage (λ l, l ++ [MkUsageRow now provider u
                              (if decide (ip = EmptyString) then None else Some ip)])).

Definition day_start (now : time) : time := now - now `mod` (24 * Hour).

Definition TodayUsage (now : time) (provider : string) : sql Usage :=
  query (λ d,
    let rows := List.filter (λ r, bool_decide (u_provider r = provider) && (day_start now <=? u_called r)) (ai_usage d) in
    MkUsage (sumZ (λ r, InputTokens (u_usage r)) rows) (sumZ (λ r, OutputTokens (u_usage r)) rows)
      (fold_left (λ s r, (s + CostUSD (u_usage r))%Q) rows 0%Q)).

(** ** Reasoning about statements

    [Does m f g]: when [m] succeeds it maps the tables by [f] and returns [g]
    of them.  [Live m]: with a driver that does not fail, [m] succeeds.
    [Keeps R m]: whatever the driver does, the tables before and after are
    related by [R]. *)
Class Does {A} (m : sql A) (f : db → db) (g : db → A) : Prop :=
  does : ∀ w x w', m w = (Ok x, w') → tables w' = f (tables w) ∧ x = g (tables w).
Class Live {A} (m : sql A) : Prop :=
  live : ∀ d, ∃ x d', m (MkWorld d []) = (Ok x, MkWorld d' []).
Class Keeps {A} (R : relation db) (m : sql A) : Prop :=
  keeps : ∀ w, R (tables w) (tables (m w).2).

Lemma driver_cases w : (∃ o, driver w = (Ok tt, MkWorld (tables w) o)) ∨
                       (∃ o, driver w = (Err ESql, MkWorld (tables w) o)).
Proof. destruct w as [d [|[] o]]; unfold driver; simpl; eauto. Qed.

#[export] Instance does_ret {A} (x : A) : Does (mret x) id (λ _, x).
Proof. intros w y w' H. unfold mret, sql_mret in H. by simplify_eq. Qed.
#[export] Instance does_modify f : Does (modify f) f (λ _, tt).
Proof. intros w y w' H. unfold modify in H. by simplify_eq. Qed.
#[export] Instance does_read {A} (f : db → A) : Does (read f) id f.
Proof. intros w y w' H. unfold read in H. by simplify_eq. Qed.
#[export] Instance does_driver : Does driver id (λ _, tt).
Proof. intros w [] w' H. destruct (driver_cases w) as [[o E]|[o E]]; rewrite E in H; by simplify_eq. Qed.
#[export] Instance does_bind {A B} (m : sql A) (k : A → sql B) f1 g1 f2 g2 :
  Does m f1 g1 → (∀ x, Does (k x) (f2 x) (g2 x)) →
  Does (x ← m; k x) (λ d, f2 (g1 d) (f1 d)) (λ d, g2 (g1 d) (f1 d)) | 5.
Proof.
  intros Hm Hk w y w'. unfold mbind, sql_mbind. destruct (m w) as [[x|e] w1] eqn:E; [|done].
  intros Hx. destruct (Hm _ _ _ E) as [H1 ->]. destruct (Hk _ _ _ _ Hx) as [H2 ->].
  by rewrite H2, H1.
Qed.
#[export] Instance does_exec f : Does (exec f) f (λ _, tt).
Proof. unfold exec. exact (does_bind _ _ _ _ _ _ _ _). Qed.
#[export] Instance does_query {A} (f : db → A) : Does (query f) id f.
Proof. unfold query. exact (does_bind _ _ _ _ _ _ _ _). Qed.
#[export] Instance does_if {A} (b : bool) (m n : sql A) f1 g1 f2 g2 :
  Does m f1 g1 → Does n f2 g2 →
  Does (if b then m else n) (λ d, if b then f1 d else f2 d) (λ d, if b then g1 d else g2 d).
Proof. by destruct b. Qed.
#[export] Instance does_tx {A} (m : sql A) f g : Does m f g → Does (tx m) f g.
Proof.
  intros Hm w y w'. unfold tx.
  destruct (mbind (M:=sql) _ _ w) as [[x|e] w1] eqn:E; [|done]. intros [= <- <-].
  eapply (does (m := (_ ← driver; x ← m; _ ← driver; mret x))) in E. simpl in E. exact E.
Qed.

Lemma does_eq {A} (m : sql A) f g f' g' :
  Does m f g → (∀ d, f d = f' d) → (∀ d, g d = g' d) → Does m f' g'.
Proof. intros Hm Hf Hg w x w' H. rewrite <- Hf, <- Hg. by eapply Hm. Qed.

#[export] Instance live_ret {A} (x : A) : Live (mret x).
Proof. intros d. unfold mret, sql_mret. eauto. Qed.
#[export] Instance live_modify f : Live (modify f).
Proof. intros d. unfold modify. simpl. eauto. Qed.
#[export] Instance live_read {A} (f : db → A) : Live (read f).
Proof. intros d. unfold read. simpl. eauto. Qed.
#[export] Instance live_driver : Live driver.
Proof. intros d. unfold driver. simpl. eauto. Qed.
#[export] Instance live_bind {A B} (m : sql A) (k : A → sql B) :
  Live m → (∀ x, Live (k x)) → Live (x ← m; k x).
Proof.
  intros Hm Hk d. destruct (Hm d) as (x & d1 & E). unfold mbind, sql_mbind. rewrite E. apply Hk.
Qed.
#[export] Instance live_exec f : Live (exec f).
Proof. unfold exec. apply _. Qed.
#[export] Instance live_query {A} (f : db → A) : Live (query f).
Proof. unfold query. apply _. Qed.
#[export] Instance live_if {A} (b : bool) (m n : sql A) : Live m → Live n → Live (if b then m else n).
Proof. by destruct b. Qed.
#[export] Instance live_tx {A} (m : sql A) : Live m → Live (tx m).
Proof.
  intros Hm d. destruct (live (m := (_ ← driver; x ← m; _ ← driver; mret x)) d) as (x & d1 & E).
  exists x, d1. unfold tx. by rewrite E.
Qed.

(** A failed transaction leaves every table as it was. *)
Lemma tx_rollback {A} (m : sql A) w e w' : tx m w = (Err e, w') → tables w' = tables w.
Proof. unfold tx. destruct (mbind (M:=sql) _ _ w) as [[x|e'] w1]; intros; by simplify_eq. Qed.

Section keeps.
Context (R : relation db) `{!Reflexive R, !Transitive R}.
#[export] Instance keeps_ret {A} (x : A) : Keeps R (mret x).
Proof. intros w. unfold mret, sql_mret. simpl. reflexivity. Qed.
#[export] Instance keeps_raise {A} e : Keeps (A := A) R (raise e).
Proof. intros w. unfold raise. simpl. reflexivity. Qed.
#[export] Instance keeps_driver : Keeps R driver.
Proof. intros w. destruct (driver_cases w) as [[o ->]|[o ->]]; simpl; reflexivity. Qed.
#[export] Instance keeps_read {A} (f : db → A) : Keeps R (read f).
Proof. intros w. unfold read. simpl. reflexivity. Qed.
#[export] Instance keeps_bind {A B} (m : sql A) (k : A → sql B) :
  Keeps R m → (∀ x, Keeps R (k x)) → Keeps R (x ← m; k x).
Proof.
  intros Hm Hk w. unfold mbind, sql_mbind. specialize (Hm w).
  destruct (m w) as [[x|e] w1]; simpl in *; [|done]. etransitivity; [done|]. apply Hk.
Qed.
#[export] Instance keeps_query {A} (f : db → A) : Keeps R (query f).
Proof. unfold query. apply _. Qed.
Lemma keeps_exec f : (∀ d, R d (f d)) → Keeps R (exec f).
Proof.
  intros Hf. unfold exec. apply keeps_bind; [apply _|]. intros _ w. unfold modify. apply Hf.
Qed.
#[export] Instance keeps_if {A} (b : bool) (m n : sql A) : Keeps R m → Keeps R n → Keeps R (if b then m else n).
Proof. by destruct b. Qed.
#[export] Instance keeps_tx {A} (m : sql A) : Keeps R m → Keeps R (tx m).
Proof.
  intros Hm w. unfold tx. pose proof (keeps (m := (_ ← driver; x ← m; _ ← driver; mret x)) w) as H.
  destruct (mbind (M:=sql) _ _ w) as [[x|e] w1]; simpl in *; [done|reflexivity].
Qed.
(** A transaction whose success is described by [Does] only needs [R] there. *)
Lemma keeps_tx_does {A} (m : sql A) f g : Does m f g → (∀ d, R d (f d)) → Keeps R (tx m).
Proof.
  intros Hm Hf w. destruct (tx m w) as [[x|e] w'] eqn:E; simpl.
  - apply (does (m := tx m)) in E as [-> _]. apply Hf.
  - apply tx_rollback in E as ->. reflexivity.
Qed.
End keeps.

(** ** Every mutation of the store *)
Inductive call :=
| CRecordStrike (now : time) (a : Action)
| CRecordSuppressed (now : time) (ip : addr) (ag : bool)
| CMarkBanIneffective (ip : addr)
| CBumpLastSeen (now : time) (ip : addr)
| CExpireBans (now : time)
| CUnban (now : time) (ip : addr)
| CRecordManualBan (now : time) (ip : addr) (ttl : duration) (reason : string) (dry : bool)
| CAudit (now : time) (a : Action)
| CAuditOp (now : time) (op : string) (p : prefix) (ttl : duration) (reason : string)
| CAuditSystem (now : time) (op reason : string)
| CAddAllow (now : time) (p : prefix) (exp : option time) (reason : string)
| CRemoveAllow (p : prefix)
| CExpireAllows (now : time)
| CUnbanCovered (now : time) (p : prefix) (reason : string)
| CUnbanAll (now : time) (reason : string)
| CSetState (k v : string)
| CDeleteState (k : string)
| CRecordUsage (now : time) (provider : string) (u : Usage) (ip : string).

Definition ignore {A} (m : sql A) : sql unit := _ ← m; mret tt.

Definition run_call (c : call) : sql unit :=
  match c with
  | CRecordStrike now a => RecordStrike now a
  | CRecordSuppressed now ip ag => ignore (RecordSuppressed now ip ag)
  | CMarkBanIneffective ip => ignore (MarkBanIneffective ip)
  | CBumpLastSeen now ip => BumpLastSeen now ip
  | CExpireBans now => ignore (ExpireBans now)
  | CUnban now ip => Unban now ip
  | CRecordManualBan now ip ttl reason dry => RecordManualBan now ip ttl reason dry
  | CAudit now a => Audit now a
  | CAuditOp now op p ttl reason => AuditOp now op p ttl reason
  | CAuditSystem now op reason => AuditSystem now op reason
  | CAddAllow now p exp reason => AddAllow now p exp reason
  | CRemoveAllow p => ignore (RemoveAllow p)
  | CExpireAllows now => ignore (ExpireAllows now)
  | CUnbanCovered now p reason => ignore (UnbanCovered now p reason)
  | CUnbanAll now reason => ignore (UnbanAll now reason)
  | CSetState k v => SetState k v
  | CDeleteState k => DeleteState k
  | CRecordUsage now provider u ip => RecordUsage now provider u ip
  end.

(** A store reached from the empty one by calls, each with its own driver outcomes. *)
Inductive reachable : db → Prop :=
| reach_empty : reachable emptyDb
| reach_call d c o : reachable d → reachable (tables (run_call c (MkWorld d o)).2).

(** *** The audit log only grows *)
Definition audit_grows (d d' : db) : Prop :=
  audit d `prefix_of` audit d' ∧ audit_next d <= audit_next d' ∧
  (Forall (λ e, a_id e < audit_next d) (audit d) ∧ StronglySorted (λ e f, a_id e < a_id f) (audit d) →
   Forall (λ e, a_id e < audit_next d') (audit d') ∧ StronglySorted (λ e f, a_id e < a_id f) (audit d')).

#[export] Instance audit_grows_refl : Reflexive audit_grows.
Proof. intros d. split; [done|]. split; [lia|done]. Qed.
#[export] Instance audit_grows_trans : Transitive audit_grows.
Proof.
  intros a b c (H1 & H2 & H3) (H4 & H5 & H6). split; [by etransitivity|]. split; [lia|]. tauto.
Qed.

Lemma audit_grows_insert t op s ttl n r d : audit_grows d (insert_audit t op s ttl n r d).
Proof.
  unfold audit_grows, insert_audit. cbn [audit audit_next].
  split; [by apply prefix_app_r|]. split; [lia|]. intros [HF HS]. split.
  - apply Forall_app. split; [|repeat constructor; simpl; lia].
    eapply Forall_impl; [done|]. cbn. intros. lia.
  - induction (audit d) as [|x l IH]; simpl; [repeat constructor|].
    apply Forall_cons in HF as [Hx HF]. inversion HS as [|? ? HS' HA]; subst. constructor; [by apply IH|].
    apply Forall_app. split; [done|]. by repeat constructor.
Qed.

Lemma audit_grows_same d d' : audit d' = audit d → audit_next d' = audit_next d → audit_grows d d'.
Proof. intros H1 H2. unfold audit_grows. rewrite H1, H2. split; [done|]. split; [lia|done]. Qed.

Lemma audit_grows_fold {A} (f : A → bool) (g : A → db → db) (l : list A) d :
  (∀ x d, audit_grows d (g x d)) → audit_grows d (fold_left (λ d x, if f x then g x d else d) l d).
Proof.
  intros Hg. revert d. induction l as [|x l IH]; intros d; simpl; [reflexivity|].
  etransitivity; [|apply IH]. destruct (f x); [apply Hg|reflexivity].
Qed.

#[export] Hint Resolve audit_grows_insert audit_grows_fold : ezy.
#[export] Hint Extern 1 (audit_grows _ _) => by apply audit_grows_same : ezy.
#[export] Hint Extern 2 (Keeps audit_grows (exec _)) =>
  apply keeps_exec; [apply _|apply _|intros ?; eauto with ezy] : typeclass_instances.

#[export] Instance keeps_unban_each now r ips : Keeps audit_grows (unban_each now r ips).
Proof. induction ips; simpl; apply _. Qed.

#[export] Instance keeps_ExpireBans now : Keeps audit_grows (ExpireBans now).
Proof.
  apply keeps_bind; [apply _| |intros; apply _]. apply keeps_exec; [apply _..|].
  intros d. apply audit_grows_fold. eauto with ezy.
Qed.
#[export] Instance keeps_ExpireAllows now : Keeps audit_grows (ExpireAllows now).
Proof.
  apply keeps_bind; [apply _| |intros; apply _]. apply keeps_exec; [apply _..|].
  intros d. apply audit_grows_fold. eauto with ezy.
Qed.
#[export] Instance keeps_UnbanCovered now p r : Keeps audit_grows (UnbanCovered now p r).
Proof. apply keeps_bind; [apply _..|]. intros [|ip ips]; apply _. Qed.

#[export] Instance keeps_audit c : Keeps audit_grows (run_call c).
Proof.
  destruct c; simpl; unfold ignore, RecordStrike, RecordSuppressed, MarkBanIneffective, BumpLastSeen,
    Unban, UnbanAll, RecordManualBan, Audit, AuditOp, AuditSystem, AddAllow, RemoveAllow, SetState, DeleteState,
    RecordUsage; apply _.
Qed.

Lemma audit_sorted_reachable d : reachable d → StronglySorted (λ e f, a_id e < a_id f) (audit d).
Proof.
  intros Hd.
  assert (Forall (λ e, a_id e < audit_next d) (audit d) ∧ StronglySorted (λ e f, a_id e < a_id f) (audit d)) as [_ H];
    [|done].
  induction Hd as [|d c' o' _ IH]; [by repeat constructor|].
  pose proof (keeps (R := audit_grows) (m := run_call c') (MkWorld d o')) as (_ & _ & H). by apply H.
Qed.

(** The audit log is append-only: whatever calls reach the store and
    whichever of their statements fail, every entry stays, unchanged and in
    place, new entries come after it, and entry ids are strictly increasing. *)
Theorem audit_append_only d c o :
  reachable d →
  let d' := tables (run_call c (MkWorld d o)).2 in
  audit d `prefix_of` audit d' ∧ StronglySorted (λ e f, a_id e < a_id f) (audit d').
Proof.
  intros Hd. cbv zeta. split.
  - apply (keeps (R := audit_grows) (m := run_call c) (MkWorld d o)).
  - apply audit_sorted_reachable. by constructor.
Qed.

(** ** Helper facts *)
Lemma count_upsert now inc ip jp m :
  total_strikes <$> upsert_offender now inc ip m !! jp =
  if decide (jp = ip) then Some (match m !! ip with Some o => total_strikes o + inc | None => inc end)
  else total_strikes <$> m !! jp.
Proof.
  unfold upsert_offender. case_decide as E.
  - subst. rewrite lookup_insert_eq. by destruct (m !! ip).
  - by rewrite lookup_insert_ne.
Qed.

(** The strike count column, absent rows counting zero. *)
Definition strike_count (d : db) (ip : addr) : Z :=
  match offenders d !! ip with Some o => total_strikes o | None => 0 end.

Definition strikes_of (d : db) (ip : addr) : list strike_row :=
  List.filter (λ s, bool_decide (s_ip s = ip)) (strikes d).

Lemma strike_count_upsert now inc ip jp d :
  strike_count (on_offenders (upsert_offender now inc ip) d) jp =
  strike_count d jp + (if decide (jp = ip) then inc else 0).
Proof.
  unfold strike_count. simpl. unfold upsert_offender. case_decide as E.
  - subst. rewrite lookup_insert_eq. destruct (offenders d !! ip); simpl; lia.
  - rewrite lookup_insert_ne by done. lia.
Qed.

(** The tables after a successful [RecordStrike]. *)
Definition struck (now : time) (a : Action) (d : db) : db :=
  let ip := act_IP a in
  let ttlSec := dur_seconds (act_TTL a) in
  insert_audit now (op_string (act_Op a)) (OnIP ip) ttlSec (Strike a) (act_Reason a)
    (on_bans (λ m, <[ip := fresh_ban now (expiry now (act_TTL a)) (Strike a) (act_Reason a)
                             (bool_decide (act_Op a = dry_ban))]> m)
      (on_strikes (λ l, l ++ [MkStrikeRow ip now (Strike a) ttlSec (act_Reason a) (Verdicts a)])
        (on_offenders (upsert_offender now 1 ip) d))).

#[export] Instance does_RecordStrike now a : Does (RecordStrike now a) (struck now a) (λ _, tt).
Proof. unfold RecordStrike. by eapply does_eq; [apply _|..]. Qed.
#[export] Instance live_RecordStrike now a : Live (RecordStrike now a).
Proof. unfold RecordStrike. apply _. Qed.

(** A live operation described by [Does] has that result on a driver that does not fail. *)
Lemma live_does {A} (m : sql A) f g d : Live m → Does m f g → m (MkWorld d []) = (Ok (g d), MkWorld (f d) []).
Proof.
  intros Hl Hd. destruct (Hl d) as (x & d' & E). rewrite E. destruct (Hd _ _ _ E) as [H ->].
  simpl in H. by rewrite H.
Qed.

(** ** Text order of timestamps

    The order is that of the seconds; inside one second it is unreliable. *)
Lemma text_lt_sound a b : text_lt a b = true → a < b + Second.
Proof.
  unfold text_lt, Unix, Second. intros H.
  assert (a `div` 1000000000 <= b `div` 1000000000).
  { apply orb_true_iff in H as [H|H]; bool_hyps; lia. }
  pose proof (Z.div_mod a 1000000000). pose proof (Z.div_mod b 1000000000).
  pose proof (Z.mod_pos_bound a 1000000000). pose proof (Z.mod_pos_bound b 1000000000). lia.
Qed.

Lemma text_lt_complete a b : a + Second <= b → text_lt a b = true.
Proof.
  unfold text_lt, Unix, Second. intros H. apply orb_true_iff. left. apply Z.ltb_lt.
  pose proof (Z.div_le_mono (a + 1 * 1000000000) b 1000000000).
  rewrite Z.div_add in H0 by done. lia.
Qed.

(** [RecordStrike] is atomic and complete: it fails and leaves every table
    as it was, or it succeeds with the count raised by one, one strike row
    appended, the ban replaced by a fresh one with counters at zero and the
    expiry the TTL gives, and one audit entry; other addresses are untouched;
    and it succeeds when no statement fails. *)
Theorem RecordStrike_atomic now a w :
  let ip := act_IP a in
  let '(r, w') := RecordStrike now a w in
  match r with
  | Err _ => tables w' = tables w
  | Ok _ =>
    strike_count (tables w') ip = strike_count (tables w) ip + 1 ∧
    strikes_of (tables w') ip = strikes_of (tables w) ip ++
      [MkStrikeRow ip now (Strike a) (dur_seconds (act_TTL a)) (act_Reason a) (Verdicts a)] ∧
    bans (tables w') !! ip = Some (MkBan now (if 0 <? act_TTL a then Some (now + act_TTL a) else None)
      (Strike a) (act_Reason a) (bool_decide (act_Op a = dry_ban)) 0 0 false None) ∧
    (∃ e, audit (tables w') = audit (tables w) ++ [e] ∧ a_subject e = OnIP ip ∧ a_op e = op_string (act_Op a)) ∧
    (∀ jp, jp ≠ ip → strike_count (tables w') jp = strike_count (tables w) jp ∧
       bans (tables w') !! jp = bans (tables w) !! jp ∧ strikes_of (tables w') jp = strikes_of (tables w) jp)
  end ∧ (faults w = [] → r = Ok tt).
Proof.
  intros ip. destruct (RecordStrike now a w) as [[[]|e] w'] eqn:E.
  - split; [|done]. apply (does (m := RecordStrike now a)) in E as [-> _].
    assert (∀ jp, strike_count (struck now a (tables w)) jp =
              strike_count (tables w) jp + (if decide (jp = ip) then 1 else 0)) as Hc.
    { intros jp. apply (strike_count_upsert now 1 ip jp (tables w)). }
    repeat split.
    + rewrite Hc, decide_True by done. lia.
    + unfold strikes_of, struck. simpl. rewrite List.filter_app. simpl. by rewrite bool_decide_true.
    + simpl. by rewrite lookup_insert_eq.
    + simpl. by eexists.
    + rewrite Hc, decide_False by done. lia.
    + simpl. by rewrite lookup_insert_ne.
    + unfold strikes_of, struck. simpl. rewrite List.filter_app. simpl.
      by rewrite bool_decide_false, app_nil_r by done.
  - split; [by apply tx_rollback in E|]. intros Hw. destruct w as [d o]; simpl in Hw; subst.
    by rewrite (live_does _ _ _ d (live_RecordStrike now a) _) in E.
Qed.

(** Round trip: right after a strike, and until another call changes the
    ban, [GetBanInfo] at time [t] finds the ban exactly when the strike was
    permanent (TTL not positive) or [t] is before its expiry, and returns the
    time, the number and the simulated flag of that strike. *)
Theorem GetBanInfo_RecordStrike now a t d d' :
  RecordStrike now a (MkWorld d []) = (Ok tt, MkWorld d' []) →
  GetBanInfo t (act_IP a) (MkWorld d' []) =
  (Ok (if (0 <? act_TTL a) && (now + act_TTL a <=? t) then None
       else Some (now, Strike a, bool_decide (act_Op a = dry_ban))), MkWorld d' []).
Proof.
  intros H. apply (does (m := RecordStrike now a)) in H as [Hd _]. simpl in Hd. subst d'.
  unfold GetBanInfo. erewrite (live_does _ _ _ _ _ _). unfold id. do 2 f_equal. simpl.
  rewrite lookup_insert_eq. unfold fresh_ban, expiry. simpl.
  destruct (0 <? act_TTL a); simpl; [|done]. by destruct (_ <=? t).
Qed.

Definition strike_at_1 : Action := MkAction (Addr4 1) ban (5 * Minute) false 1 "bruteforce" [].

Lemma GetBanInfo_RecordStrike_witness :
  GetBanInfo (3 * Minute) (Addr4 1) (MkWorld (struck 0 strike_at_1 emptyDb) []) =
  (Ok (Some (0, 1, false)), MkWorld (struck 0 strike_at_1 emptyDb) []).
Proof. exact (GetBanInfo_RecordStrike 0 strike_at_1 (3 * Minute) emptyDb _ eq_refl). Defined.

(** *** The strike counter *)
Definition counts_strikes (d : db) : Prop :=
  ∀ ip, strike_count d ip = Z.of_nat (length (strikes_of d ip)).

Definition keeps_counts (d d' : db) : Prop := counts_strikes d → counts_strikes d'.

#[export] Instance keeps_counts_refl : Reflexive keeps_counts.
Proof. by intros d H. Qed.
#[export] Instance keeps_counts_trans : Transitive keeps_counts.
Proof. intros a b c H1 H2 H. auto. Qed.

(** A change that leaves the counts and the strike rows alone. *)
Lemma keeps_counts_same d d' :
  (∀ ip, strike_count d' ip = strike_count d ip) → strikes d' = strikes d → keeps_counts d d'.
Proof. intros H1 H2 H ip. unfold strikes_of. rewrite H1, H2. apply H. Qed.

Lemma keeps_counts_bump now ip d : keeps_counts d (on_offenders (upsert_offender now 0 ip) d).
Proof. apply keeps_counts_same; [|done]. intros jp. rewrite strike_count_upsert. case_decide; lia. Qed.

Lemma keeps_counts_mark ip d : keeps_counts d (on_offenders (alter mark_offender ip) d).
Proof.
  apply keeps_counts_same; [|done]. intros jp. unfold strike_count. simpl.
  destruct (decide (ip = jp)) as [->|]; [|by rewrite lookup_alter_ne].
  rewrite lookup_alter_eq. by destruct (offenders d !! jp).
Qed.

Lemma keeps_counts_struck now a d : keeps_counts d (struck now a d).
Proof.
  intros H ip. unfold strikes_of, struck. simpl. rewrite List.filter_app, length_app. simpl.
  change (strike_count (on_offenders (upsert_offender now 1 (act_IP a)) d) ip = Z.of_nat (length (strikes_of d ip) +
    length (if bool_decide (act_IP a = ip) then [MkStrikeRow (act_IP a) now (Strike a) (dur_seconds (act_TTL a)) (act_Reason a) (Verdicts a)] else []))).
  rewrite strike_count_upsert, H. case_decide; case_bool_decide; simpl; try congruence; lia.
Qed.

Lemma keeps_counts_fold {A} (f : A → bool) (g : A → db → db) (l : list A) d :
  (∀ x d, offenders (g x d) = offenders d ∧ strikes (g x d) = strikes d) →
  keeps_counts d (fold_left (λ d x, if f x then g x d else d) l d).
Proof.
  intros Hg. revert d. induction l as [|x l IH]; intros d; simpl; [reflexivity|].
  etransitivity; [|apply IH]. destruct (f x); [|reflexivity].
  destruct (Hg x d) as [H1 H2]. apply keeps_counts_same; [|done]. intros ip. unfold strike_count. by rewrite H1.
Qed.

#[export] Hint Resolve keeps_counts_bump keeps_counts_mark : ezy.
#[export] Hint Extern 3 (keeps_counts _ _) => by apply keeps_counts_same : ezy.
#[export] Hint Extern 2 (Keeps keeps_counts (exec _)) =>
  apply keeps_exec; [apply _|apply _|intros ?; eauto with ezy] : typeclass_instances.

#[export] Instance counts_RecordStrike now a : Keeps keeps_counts (RecordStrike now a).
Proof. unfold RecordStrike. eapply keeps_tx_does; [apply _..|]. apply keeps_counts_struck. Qed.
#[export] Instance counts_unban_each now r ips : Keeps keeps_counts (unban_each now r ips).
Proof. induction ips; simpl; apply _. Qed.
#[export] Instance counts_UnbanCovered now p r : Keeps keeps_counts (UnbanCovered now p r).
Proof. apply keeps_bind; [apply _..|]. intros [|ip ips]; apply _. Qed.
#[export] Instance counts_ExpireBans now : Keeps keeps_counts (ExpireBans now).
Proof.
  apply keeps_bind; [apply _| |intros; apply _]. apply keeps_exec; [apply _..|].
  intros d. by apply keeps_counts_fold.
Qed.
#[export] Instance counts_ExpireAllows now : Keeps keeps_counts (ExpireAllows now).
Proof.
  apply keeps_bind; [apply _| |intros; apply _]. apply keeps_exec; [apply _..|].
  intros d. by apply keeps_counts_fold.
Qed.
#[export] Instance counts_call c : Keeps keeps_counts (run_call c).
Proof.
  destruct c; simpl; unfold ignore, RecordSuppressed, MarkBanIneffective, BumpLastSeen,
    Unban, UnbanAll, RecordManualBan, Audit, AuditOp, AuditSystem, AddAllow, RemoveAllow, SetState, DeleteState,
    RecordUsage; apply _.
Qed.

(** The escalation counter is the number of recorded strikes: in every
    store reached by any calls with any statement failures, the strike count
    [GetStrikeCount] reads for an address is the number of its strike rows. *)
Theorem strike_count_reachable d ip :
  reachable d → GetStrikeCount ip (MkWorld d []) = (Ok (Z.of_nat (length (strikes_of d ip))), MkWorld d []).
Proof.
  intros Hd.
  assert (counts_strikes d) as Hc.
  { induction Hd as [|d c o _ IH]; [by intros jp|].
    by apply (keeps (R := keeps_counts) (m := run_call c) (MkWorld d o)). }
  rewrite <- (Hc ip). unfold GetStrikeCount. by erewrite (live_does _ _ _ _ _ _).
Qed.

Lemma strike_count_reachable_witness :
  GetStrikeCount (Addr4 1) (MkWorld (tables (run_call (CRecordStrike 0 strike_at_1) (MkWorld emptyDb [])).2) []) =
  (Ok (Z.of_nat 1), MkWorld (tables (run_call (CRecordStrike 0 strike_at_1) (MkWorld emptyDb [])).2) []).
Proof. exact (strike_count_reachable _ (Addr4 1) (reach_call emptyDb (CRecordStrike 0 strike_at_1) [] reach_empty)). Defined.

Lemma audit_append_only_witness :
  let d := tables (run_call (CRecordStrike 0 strike_at_1) (MkWorld emptyDb [])).2 in
  let d' := tables (run_call (CUnban 5 (Addr4 1)) (MkWorld d [])).2 in
  audit d `prefix_of` audit d' ∧ StronglySorted (λ e f, a_id e < a_id f) (audit d').
Proof.
  exact (audit_append_only _ (CUnban 5 (Addr4 1)) [] (reach_call emptyDb (CRecordStrike 0 strike_at_1) [] reach_empty)).
Defined.

(** *** The ineffective-ban diagnostic *)
Fixpoint run_calls (cs : list (call * list bool)) (d : db) : db :=
  match cs with
  | [] => d
  | (c, o) :: cs => run_calls cs (tables (run_call c (MkWorld d o)).2)
  end.

(** Calls that neither replace the ban of [ip] nor come a day (less the second
    in which timestamps do not order) after [t0]. *)
Definition quiet (t0 : time) (ip : addr) (c : call) : bool :=
  match c with
  | CRecordStrike _ a => bool_decide (act_IP a ≠ ip)
  | CRecordManualBan _ jp _ _ _ => bool_decide (jp ≠ ip)
  | CRecordSuppressed now jp _ =>
    bool_decide (jp ≠ ip) || ((t0 <=? now) && (now + Second <=? t0 + IneffectiveRearmAfter))
  | _ => true
  end.

(** The ban of [ip] is gone, or has fired and was last suppressed at [t0] or later. *)
Definition fired_since (t0 : time) (ip : addr) (m : gmap addr ban_row) : Prop :=
  ∀ b, m !! ip = Some b → ineffective_fired b = true ∧ ∃ t, last_suppressed_at b = Some t ∧ t0 <= t.

Definition keeps_fired t0 ip (d d' : db) : Prop :=
  fired_since t0 ip (bans d) → fired_since t0 ip (bans d').

#[export] Instance keeps_fired_refl t0 ip : Reflexive (keeps_fired t0 ip).
Proof. by intros d H. Qed.
#[export] Instance keeps_fired_trans t0 ip : Transitive (keeps_fired t0 ip).
Proof. intros a b c H1 H2 H. by apply H2, H1. Qed.

Lemma keeps_fired_same t0 ip d d' : bans d' = bans d → keeps_fired t0 ip d d'.
Proof. intros H1 H. by rewrite H1. Qed.
Lemma keeps_fired_delete t0 ip jp d : keeps_fired t0 ip d (on_bans (delete jp) d).
Proof. intros H b Hb. simpl in Hb. apply lookup_delete_Some in Hb as [_ Hb]. by apply H. Qed.
Lemma keeps_fired_clear t0 ip d : keeps_fired t0 ip d (on_bans (λ _, ∅) d).
Proof. intros _ b Hb. simpl in Hb. by rewrite lookup_empty in Hb. Qed.
Lemma keeps_fired_filter t0 ip (P : addr * ban_row → Prop) `{∀ x, Decision (P x)} d :
  keeps_fired t0 ip d (on_bans (filter P) d).
Proof. intros Hf b Hb. simpl in Hb. apply map_lookup_filter_Some in Hb as [Hb _]. by apply Hf. Qed.
Lemma keeps_fired_other t0 ip jp f d :
  jp ≠ ip → (∀ m, f m !! ip = m !! ip) → keeps_fired t0 ip d (on_bans f d).
Proof. intros Hj Hf H b Hb. simpl in Hb. rewrite Hf in Hb. by apply H. Qed.
Lemma keeps_fired_alter t0 ip jp f d :
  (jp = ip → ∀ b t, ineffective_fired b = true → last_suppressed_at b = Some t → t0 <= t →
     ineffective_fired (f b) = true ∧ ∃ t', last_suppressed_at (f b) = Some t' ∧ t0 <= t') →
  keeps_fired t0 ip d (on_bans (alter f jp) d).
Proof.
  intros Hf H b. simpl. destruct (decide (jp = ip)) as [->|Hne].
  - rewrite lookup_alter_eq. destruct (bans d !! ip) as [b'|] eqn:E; simpl; intros [= <-].
    destruct (H _ E) as (H1 & t & H2 & H3). by eapply Hf.
  - rewrite lookup_alter_ne by done. apply H.
Qed.

(** A fired ban suppressed since [t0] is not re-armed within the day. *)
Lemma rearm_recent b t0 t now :
  ineffective_fired b = true → last_suppressed_at b = Some t → t0 <= t →
  now + Second <= t0 + IneffectiveRearmAfter → rearm (now - IneffectiveRearmAfter) b = b.
Proof.
  intros Hf Hl H1 H2. unfold rearm. rewrite Hf, Hl. simpl.
  destruct (text_lt t (now - IneffectiveRearmAfter)) eqn:E; [|done].
  apply text_lt_sound in E. lia.
Qed.

#[export] Hint Resolve keeps_fired_delete keeps_fired_clear keeps_fired_filter : ezy.
#[export] Hint Extern 3 (keeps_fired _ _ _ _) => by apply keeps_fired_same : ezy.
#[export] Hint Extern 2 (Keeps (keeps_fired _ _) (exec _)) =>
  apply keeps_exec; [apply _|apply _|intros ?; eauto with ezy] : typeclass_instances.

Lemma bans_audit_fold {A} (f : A → bool) (g : A → db → db) (l : list A) d :
  (∀ x d, bans (g x d) = bans d) → bans (fold_left (λ d x, if f x then g x d else d) l d) = bans d.
Proof.
  intros Hg. revert d. induction l as [|x l IH]; intros d; simpl; [done|]. rewrite IH. by destruct (f x).
Qed.

#[export] Instance fired_unban_each t0 ip now r ips : Keeps (keeps_fired t0 ip) (unban_each now r ips).
Proof. induction ips; simpl; apply _. Qed.
#[export] Instance fired_UnbanCovered t0 ip now p r : Keeps (keeps_fired t0 ip) (UnbanCovered now p r).
Proof. apply keeps_bind; [apply _..|]. intros [|jp ips]; apply _. Qed.
#[export] Instance fired_ExpireBans t0 ip now : Keeps (keeps_fired t0 ip) (ExpireBans now).
Proof.
  apply keeps_bind; [apply _| |intros; apply _]. apply keeps_exec; [apply _..|].
  intros d. apply keeps_fired_same, bans_audit_fold. done.
Qed.
#[export] Instance fired_ExpireAllows t0 ip now : Keeps (keeps_fired t0 ip) (ExpireAllows now).
Proof.
  apply keeps_bind; [apply _| |intros; apply _]. apply keeps_exec; [apply _..|].
  intros d. apply keeps_fired_same, bans_audit_fold. done.
Qed.
#[export] Instance fired_MarkBanIneffective t0 ip jp : Keeps (keeps_fired t0 ip) (MarkBanIneffective jp).
Proof.
  apply keeps_tx; [apply _..|]. apply keeps_bind; [apply _..|]. intros n.
  apply keeps_bind; [apply _| |intros; apply _]. apply keeps_exec; [apply _..|].
  intros d. apply keeps_fired_alter. simpl. eauto.
Qed.
Lemma fired_RecordSuppressed t0 ip now jp ag :
  quiet t0 ip (CRecordSuppressed now jp ag) = true → Keeps (keeps_fired t0 ip) (RecordSuppressed now jp ag).
Proof.
  simpl. intros Hq. apply keeps_tx; [apply _..|].
  assert (jp = ip → t0 <= now ∧ now + Second <= t0 + IneffectiveRearmAfter) as Hn.
  { intros ->. rewrite bool_decide_false in Hq by auto. simpl in Hq. by bool_hyps. }
  apply keeps_bind; [apply _| |intros _; apply keeps_bind; [apply _| |apply _]];
    (apply keeps_exec; [apply _..|]; intros d; apply keeps_fired_alter; intros Hj b t Hf Hl Ht;
     destruct (Hn Hj)).
  - rewrite (rearm_recent b t0 t) by done. eauto.
  - simpl. eauto.
Qed.

Lemma fired_call t0 ip c : quiet t0 ip c = true → Keeps (keeps_fired t0 ip) (run_call c).
Proof.
  intros Hq.
  assert (∀ jp x, jp ≠ ip → ∀ d, keeps_fired t0 ip d (on_bans (λ m, <[jp := x m]> m) d)) as Ho.
  { intros jp x Hj d. apply (keeps_fired_other _ _ jp); [done|]. intros m. by rewrite lookup_insert_ne. }
  destruct c; simpl in *; unfold ignore, RecordManualBan, RecordStrike, BumpLastSeen, Unban, UnbanAll,
    Audit, AuditOp, AuditSystem, AddAllow, RemoveAllow, SetState, DeleteState, RecordUsage;
    try apply _.
  - apply bool_decide_eq_true_1 in Hq. apply keeps_tx; [apply _..|].
    do 2 (apply keeps_bind; [apply _|apply _|intros _]).
    apply keeps_bind; [apply _| |intros; apply _]. apply keeps_exec; [apply _..|]. by apply Ho.
  - apply keeps_bind; [apply _| |intros; apply _]. by apply fired_RecordSuppressed.
  - apply bool_decide_eq_true_1 in Hq. destruct (ttl <? 0); [apply _|]. apply keeps_tx; [apply _..|].
    apply keeps_bind; [apply _| |intros; apply _]. apply keeps_exec; [apply _..|]. by apply Ho.
Qed.

Lemma fired_calls t0 ip cs d :
  forallb (λ co, quiet t0 ip co.1) cs = true → fired_since t0 ip (bans d) → fired_since t0 ip (bans (run_calls cs d)).
Proof.
  revert d. induction cs as [|[c o] cs IH]; intros d; simpl; [done|]. intros [Hc Hcs]%andb_true_iff Hd.
  apply IH; [done|]. by apply (fired_call t0 ip c Hc (MkWorld d o)).
Qed.

(** The verdict and the tables of a successful [MarkBanIneffective]. *)
Definition mark_wins (ip : addr) (d : db) : bool :=
  match bans d !! ip with Some b => negb (ineffective_fired b) | None => false end.

#[export] Instance live_MarkBanIneffective ip : Live (MarkBanIneffective ip).
Proof. unfold MarkBanIneffective. apply _. Qed.
#[export] Instance does_MarkBanIneffective ip :
  Does (MarkBanIneffective ip)
    (λ d, if mark_wins ip d then on_offenders (alter mark_offender ip) (on_bans (alter fire ip) d)
          else on_bans (alter fire ip) d) (mark_wins ip).
Proof.
  unfold MarkBanIneffective. eapply does_eq; [apply _|..]; intros d; simpl; unfold mark_wins, id;
    (destruct (bans d !! ip) as [b|]; [by destruct (ineffective_fired b)|done]).
Qed.

(** The ineffective-ban diagnostic fires once: after [MarkBanIneffective]
    has won for a ban last suppressed at [t0], it does not win again after any
    calls, with any statement failures, that do not replace the ban and whose
    suppressions come within the re-arm period (24 h, less one second) of [t0]. *)
Theorem ineffective_fires_once ip w w' b t0 cs :
  bans (tables w) !! ip = Some b → last_suppressed_at b = Some t0 →
  MarkBanIneffective ip w = (Ok true, w') →
  forallb (λ co, quiet t0 ip co.1) cs = true →
  ∃ d, MarkBanIneffective ip (MkWorld (run_calls cs (tables w')) []) = (Ok false, d).
Proof.
  intros Hb Hl Hm Hq. apply (does (m := MarkBanIneffective ip)) in Hm as [Hw Hwin].
  assert (fired_since t0 ip (bans (tables w'))) as H0.
  { rewrite Hw, <- Hwin. intros b'. simpl. rewrite lookup_alter_eq, Hb. intros [= <-]. simpl.
    rewrite Hl. eauto with lia. }
  apply (fired_calls _ _ cs) in H0; [|done]. erewrite (live_does _ _ _ _ _ _). eexists. do 2 f_equal.
  unfold mark_wins. destruct (bans (run_calls cs (tables w')) !! ip) as [b'|] eqn:E; [|done].
  by destruct (H0 _ E) as [-> _].
Qed.

Definition suppressed_store : db :=
  tables (run_call (CRecordSuppressed (6 * Minute) (Addr4 1) true)
    (MkWorld (struck 0 (MkAction (Addr4 1) ban Hour false 1 "bruteforce" []) emptyDb) [])).2.

Lemma ineffective_fires_once_witness :
  ∃ d, MarkBanIneffective (Addr4 1)
         (MkWorld (run_calls [(CRecordSuppressed (7 * Minute) (Addr4 1) true, []);
                              (CExpireBans (8 * Minute), [false])]
                    (tables (MarkBanIneffective (Addr4 1) (MkWorld suppressed_store [])).2)) []) = (Ok false, d).
Proof.
  refine (ineffective_fires_once (Addr4 1) (MkWorld suppressed_store [])
    (MarkBanIneffective (Addr4 1) (MkWorld suppressed_store [])).2 _ (6 * Minute) _ _ _ _ _).
  - vm_compute. reflexivity.
  - reflexivity.
  - vm_compute. reflexivity.
  - vm_compute. reflexivity.
Defined.

(** *** Expiry *)
Lemma audit_fold_only {A} (f : A → bool) (g : A → db → db) (l : list A) d :
  (∀ x d, bans (g x d) = bans d) → (∀ x d, ∃ e, audit (g x d) = audit d ++ [e] ∧ a_op e = "expire") →
  ∃ es, audit (fold_left (λ d x, if f x then g x d else d) l d) = audit d ++ es ∧
        length es = length (List.filter f l) ∧ Forall (λ e, a_op e = "expire") es.
Proof.
  intros Hb Ha. revert d. induction l as [|x l IH]; intros d; simpl.
  { exists []. by rewrite app_nil_r. }
  destruct (IH (if f x then g x d else d)) as (es & -> & Hl & Hf). destruct (f x); [|by exists es].
  destruct (Ha x d) as (e & -> & He). exists (e :: es). rewrite <- app_assoc. simpl. auto.
Qed.

Lemma size_filter_list {K V} `{Countable K} (f : V → bool) (m : gmap K V) :
  size (filter (λ kv, f kv.2 = true) m) = length (List.filter (λ kv, f kv.2) (map_to_list m)).
Proof.
  induction m as [|k v m Hk IH] using map_ind; [done|].
  rewrite (Permutation_length (l' := List.filter (λ kv, f kv.2) ((k, v) :: map_to_list m))).
  - simpl. destruct (f v) eqn:E.
    + rewrite map_filter_insert_True by done. rewrite map_size_insert_None; [simpl; by rewrite IH|].
      by apply map_lookup_filter_None; left.
    + rewrite map_filter_insert_False by (simpl; congruence). by rewrite delete_id.
  - pose proof (map_to_list_insert m k v Hk) as Hp. revert Hp. generalize (map_to_list (<[k:=v]> m)).
    generalize ((k, v) :: map_to_list m). clear.
    induction 1; simpl; repeat case_match; try done; eauto using Permutation.
Qed.

Lemma size_filter_split {K V} `{Countable K} (f : V → bool) (m : gmap K V) :
  size m = (size (filter (λ kv, f kv.2 = true) m) + size (filter (λ kv, f kv.2 = false) m))%nat.
Proof.
  induction m as [|k v m Hk IH] using map_ind; [done|]. rewrite map_size_insert_None by done.
  destruct (f v) eqn:E.
  - rewrite map_filter_insert_True, map_filter_insert_False by (simpl; congruence).
    rewrite map_size_insert_None by (by apply map_lookup_filter_None; left). rewrite delete_id by done. lia.
  - rewrite map_filter_insert_False, map_filter_insert_True by (simpl; congruence).
    rewrite map_size_insert_None by (by apply map_lookup_filter_None; left). rewrite delete_id by done. lia.
Qed.

#[export] Instance live_ExpireBans now : Live (ExpireBans now).
Proof. unfold ExpireBans. apply _. Qed.
Definition pruned (now : time) (d : db) : db :=
  on_bans (filter (λ kv, ban_expired now kv.2 = false)) (audit_expired now d).
#[export] Instance does_ExpireBans now :
  Does (ExpireBans now) (pruned now)
    (λ d, Z.of_nat (size (filter (λ kv, ban_expired now kv.2 = true) (bans (audit_expired now d))))).
Proof. unfold ExpireBans. eapply does_eq; [apply _|..]; done. Qed.

Lemma bans_audit_expired now d : bans (audit_expired now d) = bans d.
Proof. by apply bans_audit_fold. Qed.

(** [ExpireBans] removes what has run out and nothing else, to within the
    second RFC 3339 text orders by: when it succeeds a permanent ban stays, a
    ban that has been over for a second is gone, one with a second or more to
    run stays unchanged, no ban appears, and every audit row it adds is an
    "expire" row. *)
Theorem ExpireBans_bounds now w n w' :
  ExpireBans now w = (Ok n, w') →
  (∀ ip b, bans (tables w) !! ip = Some b →
     (expires_at b = None → bans (tables w') !! ip = Some b) ∧
     (∀ t, expires_at b = Some t → t + Second <= now → bans (tables w') !! ip = None) ∧
     (∀ t, expires_at b = Some t → now + Second <= t → bans (tables w') !! ip = Some b)) ∧
  bans (tables w') ⊆ bans (tables w) ∧
  n = Z.of_nat (size (bans (tables w))) - Z.of_nat (size (bans (tables w'))) ∧
  ∃ es, audit (tables w') = audit (tables w) ++ es ∧ Z.of_nat (length es) = n ∧ Forall (λ e, a_op e = "expire") es.
Proof.
  intros H. apply (does (m := ExpireBans now)) in H as [-> Hn].
  rewrite bans_audit_expired, size_filter_list in Hn.
  destruct (audit_fold_only (λ kv, ban_expired now kv.2) (λ kv, insert_audit now "expire" (OnIP kv.1) 0
    (strike_num kv.2) (if dry_run kv.2 then "simulated ttl expired" else "ttl expired"))
    (map_to_list (bans (tables w))) (tables w)) as (es & Hes & Hlen & Hall); [done|simpl; eauto|].
  assert (bans (pruned now (tables w)) = filter (λ kv, ban_expired now kv.2 = false) (bans (tables w))) as Hb.
  { unfold pruned. simpl. by rewrite bans_audit_expired. }
  rewrite Hb. split; [|split; [|split]].
  - intros ip b Hip. unfold ban_expired. split; [|split].
    + intros He. apply map_lookup_filter_Some. simpl. by rewrite He.
    + intros t He Ht. apply map_lookup_filter_None. right. intros b' Hb'. simplify_eq. simpl.
      rewrite He. by rewrite text_lt_complete.
    + intros t He Ht. apply map_lookup_filter_Some. simpl. rewrite He. split; [done|].
      apply not_true_iff_false. intros Hlt%text_lt_sound. lia.
  - apply map_filter_subseteq.
  - pose proof (size_filter_split (ban_expired now) (bans (tables w))). rewrite size_filter_list in H. lia.
  - exists es. split; [exact Hes|]. split; [lia|done].
Qed.

Lemma ExpireBans_bounds_witness :
  let w := MkWorld (struck 0 strike_at_1 emptyDb) [] in
  bans (tables (ExpireBans (5 * Minute + Second) w).2) !! Addr4 1 = None.
Proof.
  cbv zeta. refine (proj1 (proj2 (proj1 (ExpireBans_bounds (5 * Minute + Second)
    (MkWorld (struck 0 strike_at_1 emptyDb) []) 1 _ _) (Addr4 1) _ _)) (5 * Minute) _ _).
  - vm_compute. reflexivity.
  - vm_compute. reflexivity.
  - reflexivity.
  - vm_compute. discriminate.
Defined.

(** A ban that ends at 10.5 s is deleted at 10 s: [".5Z"] sorts before ["Z"]. *)
Lemma ExpireBans_early :
  bans (tables (ExpireBans (10 * Second) (MkWorld (struck 0
    (MkAction (Addr4 1) ban (10 * Second + 500 * Millisecond) false 1 "bruteforce" []) emptyDb) [])).2) !! Addr4 1 = None.
Proof. vm_compute. reflexivity. Qed.

(** *** Clearing the bans an allow entry covers *)
Fixpoint unbanned (now : time) (r : string) (ips : list addr) (d : db) : db :=
  match ips with
  | [] => d
  | ip :: ips => unbanned now r ips (insert_audit now "unban" (OnIP ip) 0 0 r (on_bans (delete ip) d))
  end.

#[export] Instance does_unban_each now r ips : Does (unban_each now r ips) (unbanned now r ips) (λ _, tt).
Proof.
  induction ips as [|ip ips IH]; simpl; [apply does_ret|].
  eapply does_eq; [apply _|..]; done.
Qed.

Lemma unbanned_bans now r ips d ip :
  bans (unbanned now r ips d) !! ip = if decide (ip ∈ ips) then None else bans d !! ip.
Proof.
  revert d. induction ips as [|jp ips IH]; intros d; simpl.
  { done. }
  rewrite IH. simpl. repeat case_decide; set_unfold; try naive_solver.
  - assert (jp = ip) as -> by naive_solver. apply lookup_delete_eq.
  - apply lookup_delete_ne. naive_solver.
Qed.

Lemma unbanned_audit now r ips d :
  ∃ es, audit (unbanned now r ips d) = audit d ++ es ∧ a_subject <$> es = OnIP <$> ips ∧
        Forall (λ e, a_op e = "unban" ∧ a_reason e = r) es.
Proof.
  revert d. induction ips as [|ip ips IH]; intros d; simpl.
  { exists []. by rewrite app_nil_r. }
  destruct (IH (insert_audit now "unban" (OnIP ip) 0 0 r (on_bans (delete ip) d))) as (es & -> & Hs & Hf).
  simpl. rewrite <- app_assoc. eexists (_ :: es). split; [done|]. split; [|by constructor].
  csimpl. by rewrite Hs.
Qed.

(** Clearing the bans an allow prefix covers is exact and atomic: when
    [UnbanCovered] succeeds the bans left are exactly those whose address the
    prefix does not contain, it returns each removed address once, and the
    audit log has one "unban" row with the given reason for each; when it
    fails every table is as it was. *)
Theorem UnbanCovered_exact now p r w :
  let '(res, w') := UnbanCovered now p r w in
  match res with
  | Err _ => tables w' = tables w
  | Ok ips =>
    bans (tables w') = filter (λ kv, Contains p kv.1 = false) (bans (tables w)) ∧
    NoDup ips ∧ (∀ ip, ip ∈ ips ↔ is_Some (bans (tables w) !! ip) ∧ Contains p ip = true) ∧
    ∃ es, audit (tables w') = audit (tables w) ++ es ∧ a_subject <$> es = OnIP <$> ips ∧
          Forall (λ e, a_op e = "unban" ∧ a_reason e = r) es
  end.
Proof.
  set (l := List.filter (Contains p) (map_to_list (bans (tables w))).*1).
  assert (∀ ip, ip ∈ l ↔ is_Some (bans (tables w) !! ip) ∧ Contains p ip = true) as Hl.
  { intros ip. unfold l. rewrite list_elem_of_In, List.filter_In, <- list_elem_of_In, list_elem_of_fmap.
    split; intros [Hx Hc]; split; try done.
    - destruct Hx as ([k v] & -> & Hk%elem_of_map_to_list). by eexists.
    - destruct Hx as [v Hv]. exists (ip, v). split; [done|]. by apply elem_of_map_to_list. }
  assert (NoDup l) as Hnd.
  { unfold l. apply NoDup_ListNoDup, List.NoDup_filter, NoDup_ListNoDup, NoDup_fst_map_to_list. }
  assert (∀ ips, ips = l → bans (unbanned now r ips (tables w)) = filter (λ kv, Contains p kv.1 = false) (bans (tables w))) as Hb.
  { intros ips ->. apply map_eq. intros ip. rewrite unbanned_bans. symmetry. case_decide as Hi; rewrite Hl in Hi.
    - apply map_lookup_filter_None. right. intros v Hv. simpl. destruct Hi. congruence.
    - destruct (bans (tables w) !! ip) as [v|] eqn:Hv; [|by apply map_lookup_filter_None; left].
      apply map_lookup_filter_Some. simpl. split; [done|]. apply not_true_iff_false. naive_solver. }
  unfold UnbanCovered, mbind, sql_mbind.
  destruct (query _ w) as [[ips|e] w1] eqn:E.
  - pose proof E as E'. apply (does (m := query _)) in E' as [Hw1 Hips].
    change (ips = l) in Hips. unfold id in Hw1. clear E. specialize (Hb ips Hips).
    destruct ips as [|ip ips].
    + unfold mret, sql_mret. rewrite Hw1. simpl in Hb. rewrite <- Hips in *.
      split; [done|]. split; [done|]. split; [done|]. exists []. by rewrite app_nil_r.
    + destruct (tx _ w1) as [[[]|e] w2] eqn:E.
      * apply (does (m := tx _)) in E as [Hw2 _]. unfold mret, sql_mret. rewrite Hw2, Hw1.
        split; [done|]. rewrite Hips. split; [done|]. split; [done|]. apply unbanned_audit.
      * apply tx_rollback in E. congruence.
  - pose proof (keeps (R := eq) (m := query (λ d, List.filter (Contains p) (map_to_list (bans d)).*1)) w) as H.
    by rewrite E in H.
Qed.

(** *** Reading the audit log by pages *)
Lemma split_after (l : list AuditEntry) k :
  StronglySorted (λ e f, a_id e < a_id f) l →
  ∃ l1 l2, l = l1 ++ l2 ∧ List.filter (λ f, k <? a_id f) l1 = [] ∧ List.filter (λ f, k <? a_id f) l = l2.
Proof.
  induction 1 as [|e l Hs IH HA]; simpl; [by exists [], []|].
  destruct (Z.ltb_spec k (a_id e)) as [Hk|Hk].
  - exists [], (e :: l). split; [done|]. split; [done|]. f_equal. clear IH Hs.
    induction l as [|f l IH]; [done|]. apply Forall_cons in HA as [Hf HA]. simpl.
    destruct (Z.ltb_spec k (a_id f)); [|lia]. by rewrite IH.
  - destruct IH as (l1 & l2 & H1 & H2 & H3). exists (e :: l1), l2. simpl.
    destruct (Z.ltb_spec k (a_id e)); [lia|]. by rewrite <- H1.
Qed.

Lemma filter_after_elem (l : list AuditEntry) i e :
  StronglySorted (λ e f, a_id e < a_id f) l → l !! i = Some e →
  List.filter (λ f, a_id e <? a_id f) l = drop (S i) l.
Proof.
  revert i. induction l as [|f l IH]; intros i Hs Hi; [by rewrite lookup_nil in Hi|].
  inversion Hs as [|? ? Hs' HA]; subst. destruct i as [|i]; simplify_eq/=.
  - destruct (Z.ltb_spec (a_id e) (a_id e)); [lia|]. rewrite drop_0.
    clear IH Hs Hs'. induction l as [|g l IH]; [done|]. apply Forall_cons in HA as [Hg HA].
    simpl. destruct (Z.ltb_spec (a_id e) (a_id g)); [|lia]. by rewrite IH.
  - rewrite Forall_forall in HA. specialize (HA e (list_elem_of_lookup_2 _ _ _ Hi)).
    destruct (Z.ltb_spec (a_id e) (a_id f)); [lia|]. by apply IH.
Qed.

#[export] Instance does_AuditLogAfter k n :
  Does (AuditLogAfter k n) id
    (λ d, take (Z.to_nat (clamp_tail_limit n)) (List.filter (λ e, k <? a_id e) (audit d))).
Proof. unfold AuditLogAfter. apply _. Qed.

(** Following the log by pages misses nothing and repeats nothing: in a
    reachable store, if a page after [k] is non-empty and ends in the entry
    [e], the page followed by everything after [e] is everything after [k],
    and an empty page means there is nothing after [k]. *)
Theorem AuditLogAfter_pages d k n page :
  reachable d → AuditLogAfter k n (MkWorld d []) = (Ok page, MkWorld d []) →
  match last page with
  | None => List.filter (λ f, k <? a_id f) (audit d) = []
  | Some e => page ++ List.filter (λ f, a_id e <? a_id f) (audit d) = List.filter (λ f, k <? a_id f) (audit d)
              ∧ k < a_id e ∧ Z.of_nat (length page) <= clamp_tail_limit n
  end.
Proof.
  intros Hd%audit_sorted_reachable Hp. apply (does (m := AuditLogAfter k n)) in Hp as [_ ->]. simpl.
  assert (1 <= clamp_tail_limit n) as Hn by (unfold clamp_tail_limit; crush).
  assert (∃ m, Z.to_nat (clamp_tail_limit n) = S m) as [m Hm] by (exists (pred (Z.to_nat (clamp_tail_limit n))); lia).
  destruct (split_after (audit d) k Hd) as (l1 & l2 & Hl & H1 & H2). rewrite H2.
  destruct (last (take _ l2)) as [e|] eqn:E.
  - apply last_Some in E as [l' El].
    assert (l2 = l' ++ e :: drop (length (l' ++ [e])) l2) as Hl2.
    { rewrite <- (take_drop (Z.to_nat (clamp_tail_limit n)) l2) at 1. rewrite El, <- app_assoc. simpl.
      do 2 f_equal. rewrite <- El, length_take.
      destruct (le_gt_dec (length l2) (Z.to_nat (clamp_tail_limit n))).
      - rewrite Nat.min_r by done. by rewrite !drop_ge.
      - by rewrite Nat.min_l by lia. }
    assert (audit d !! (length l1 + length l')%nat = Some e) as Hi.
    { rewrite Hl, lookup_app_r by lia. rewrite Nat.add_comm, Nat.add_sub, Hl2.
      rewrite lookup_app_r by lia. by rewrite Nat.sub_diag. }
    rewrite (filter_after_elem _ _ _ Hd Hi), El, Hl, drop_app_ge by lia. split_and!.
    + replace (S (length l1 + length l') - length l1)%nat with (length (l' ++ [e])) by (rewrite length_app; simpl; lia).
      rewrite <- app_assoc. simpl. by rewrite <- Hl2.
    + assert (e ∈ List.filter (λ f, k <? a_id f) (audit d)) as He.
      { rewrite H2, Hl2. apply elem_of_app. right. left. }
      apply list_elem_of_In, List.filter_In in He as [_ He]. by bool_hyps.
    + rewrite <- El, length_take. lia.
  - apply last_None in E. rewrite Hm in E. by destruct l2.
Qed.

Lemma AuditLogAfter_pages_witness :
  let d := tables (run_call (CUnban 5 (Addr4 1)) (MkWorld (tables (run_call (CUnban 3 (Addr4 1)) (MkWorld emptyDb [])).2) [])).2 in
  [MkAudit 1 3 "unban" (OnIP (Addr4 1)) 0 0 "manual unban"] ++ List.filter (λ f, 1 <? a_id f) (audit d) =
  List.filter (λ f, 0 <? a_id f) (audit d).
Proof.
  exact (proj1 (AuditLogAfter_pages _ 0 1 [MkAudit 1 3 "unban" (OnIP (Addr4 1)) 0 0 "manual unban"]
    (reach_call _ (CUnban 5 (Addr4 1)) [] (reach_call _ (CUnban 3 (Addr4 1)) [] reach_empty)) eq_refl)).
Defined.
