(* ===== verification/Rules.v ===== *)
(** The rule engine: [internal/rules/engine.go] and [ruletest.go].

    YAML decoding is third-party code: a rules file is what opening and
    decoding it gives ([file]).  The directory listing and the embedded base
    are arguments of [New].  [ctx] of [Evaluate] is the outcome of
    [ctx.Err() != nil] at each rule. *)
From Stdlib Require Import QArith Ascii.
From S2P Require Import Prelude GoStrings Netip Sdk.
From S2P Require Aggregate.
#[local] Open Scope Z_scope.

Record spec := MkSpec {
  Name : string; Description : string; rKinds : list string; Field : string; Value : string;
  rContains : string; ContainsAny : list string; rWindow : duration; Threshold : Z;
  rScore : Z; rCategory : string
}.

#[export] Instance spec_eq_dec : EqDecision spec.
Proof. solve_decision. Defined.

Inductive file := Unopenable | Undecodable | Decoded (rules : list spec).

Record dirent := MkDirent { d_name : string; d_isDir : bool; d_file : file }.

(** [rulesDir]: empty, missing, failing to list, or listed. *)
Inductive dropins := NoDir | MissingDir | UnreadableDir | Listed (es : list dirent).

Inductive rule_error :=
| ENameRequired (i : nat) | EKinds (n : string) | EThreshold (n : string) | EScore (n : string)
| EWindow (n : string) | EExclusive (n : string) | EFieldRequired (n : string)
| EMatcherRequired (n : string) | ECategory (n : string) | EReserved (n : string).

Inductive load_error :=
| EOpen (path : string) | EDecode (path : string) | EReadDir
| ENoRules
| EInvalid (from : string) (e : rule_error).

Record Engine := MkEngine { rules : list spec }.

Definition LongWindowCutoff : duration := Hour.
Definition LongCounterKindPrefix : string := "rule:".
Definition LongCounterKind (rule : string) : string := LongCounterKindPrefix +:+ rule.
Definition IsLongCounterKind (kind : string) : bool := has_prefix LongCounterKindPrefix kind.

Definition nonempty (s : string) : bool := negb (bool_decide (s = EmptyString)).
Definition nonnil {A} (l : list A) : bool := match l with [] => false | _ => true end.

Definition isLongField (r : spec) : bool := (LongWindowCutoff <? rWindow r) && nonempty (Field r).

(** ** Loading *)
Definition validateRule (i : nat) (r : spec) : result rule_error unit :=
  if bool_decide (Name r = EmptyString) then Err (ENameRequired i) else
  if negb (nonnil (rKinds r)) then Err (EKinds (Name r)) else
  if Threshold r <=? 0 then Err (EThreshold (Name r)) else
  if (rScore r <? 0) || (100 <? rScore r) then Err (EScore (Name r)) else
  if rWindow r <=? 0 then Err (EWindow (Name r)) else
  if (nonempty (Value r) && nonempty (rContains r)) || (nonempty (Value r) && nonnil (ContainsAny r)) ||
     (nonempty (rContains r) && nonnil (ContainsAny r)) then Err (EExclusive (Name r)) else
  let hasMatcher := nonempty (Value r) || nonempty (rContains r) || nonnil (ContainsAny r) in
  if hasMatcher && bool_decide (Field r = EmptyString) then Err (EFieldRequired (Name r)) else
  if nonempty (Field r) && negb hasMatcher then Err (EMatcherRequired (Name r)) else
  if bool_decide (rCategory r = EmptyString) then Err (ECategory (Name r)) else
  if IsLongCounterKind (Name r) then Err (EReserved (Name r)) else Ok tt.

(** [origin]: the file that contributed each name, absent for none. *)
Definition validateRules (rs : list spec) (origin : gmap string string) : result load_error unit :=
  check_all (λ i r, match validateRule i r with
    | Ok _ => Ok tt
    | Err e => Err (EInvalid (default EmptyString (origin !! Name r)) e)
    end) 0 rs.

(** [filepath.Ext] of a name without separators. *)
Definition Ext (name : string) : string :=
  match cut_last "."%char name with Some (_, s) => String "."%char s | None => EmptyString end.

Definition is_dropin (e : dirent) : bool :=
  negb (d_isDir e) && negb (has_prefix "." (d_name e)) &&
  (bool_decide (ToLower (Ext (d_name e)) = ".yaml") || bool_decide (ToLower (Ext (d_name e)) = ".yml")).

(** [sort.Strings]. *)
Fixpoint insert_by_name (e : dirent) (l : list dirent) : list dirent :=
  match l with
  | [] => [e]
  | f :: l' => if String.leb (d_name e) (d_name f) then e :: l else f :: insert_by_name e l'
  end.
Definition sort_names (l : list dirent) : list dirent := foldr insert_by_name [] l.

Record overlay := MkOverlay { merged : list spec; origin : gmap string string; index : gmap string nat }.

Definition init_overlay (base : list spec) : overlay :=
  MkOverlay base
    (fold_left (λ m r, <[Name r := EmptyString]> m) base ∅)
    (fold_left (λ mi r, (<[Name r := mi.2]> mi.1, S mi.2)) base (∅, 0%nat)).1.

Definition overlay_rule (path : string) (o : overlay) (r : spec) : overlay :=
  match index o !! Name r with
  | Some i => MkOverlay (<[i := r]> (merged o)) (<[Name r := path]> (origin o)) (index o)
  | None => MkOverlay (merged o ++ [r]) (<[Name r := path]> (origin o))
              (<[Name r := length (merged o)]> (index o))
  end.

Fixpoint overlay_files (es : list dirent) (o : overlay) : result load_error overlay :=
  match es with
  | [] => Ok o
  | e :: es =>
    match d_file e with
    | Unopenable => Err (EOpen (d_name e))
    | Undecodable => Err (EDecode (d_name e))
    | Decoded rs => overlay_files es (fold_left (overlay_rule (d_name e)) rs o)
    end
  end.

Definition applyDropins (base : list spec) (d : dropins) : result load_error (list spec * gmap string string) :=
  match d with
  | NoDir | MissingDir => Ok (base, ∅)
  | UnreadableDir => Err EReadDir
  | Listed es =>
    o ← overlay_files (sort_names (List.filter is_dropin es)) (init_overlay base);
    mret (merged o, origin o)
  end.

Definition New (override : option file) (base : file) (d : dropins) : result load_error Engine :=
  match override with
  | Some Unopenable => Err (EOpen "rules_path")
  | Some Undecodable => Err (EDecode "rules_path")
  | Some (Decoded rs) => _ ← validateRules rs ∅; mret (MkEngine rs)
  | None =>
    match base with
    | Unopenable => Err (EOpen "rules.yaml")
    | Undecodable => Err (EDecode "rules.yaml")
    | Decoded b =>
      mo ← applyDropins b d;
      _ ← validateRules mo.1 mo.2;
      mret (MkEngine mo.1)
    end
  end.

Definition LoadStandaloneFile (f : file) : result load_error (list spec) :=
  match f with
  | Unopenable => Err (EOpen "path")
  | Undecodable => Err (EDecode "path")
  | Decoded [] => Err ENoRules
  | Decoded rs => _ ← validateRules rs ∅; mret rs
  end.

(** ** Counter kinds and windows *)

(** Append the kinds not yet in the list, once each. *)
Definition add_kinds (ks : list string) (l : list string) : list string :=
  fold_left (λ l k, if bool_decide (k ∈ l) then l else l ++ [k]) ks l.

(** The counter kinds a long-window rule reads. *)
Definition counter_kinds_of (r : spec) : list string :=
  if nonempty (Field r) then [LongCounterKind (Name r)] else rKinds r.

Definition KindsForLongWindows (e : Engine) : gmap duration (list string) :=
  fold_left (λ out r,
    if rWindow r <=? LongWindowCutoff then out
    else match add_kinds (counter_kinds_of r) (default [] (out !! rWindow r)) with
         | [] => out
         | ks => <[rWindow r := ks]> out
         end) (rules e) ∅.

Definition LongFieldEventKinds (e : Engine) : gset string :=
  fold_left (λ out r, if isLongField r then out ∪ list_to_set (rKinds r) else out) (rules e) ∅.

(** ** Matching *)
Definition fieldMatches (r : spec) (ev : Event) : bool :=
  match Fields ev !! Field r with
  | None => false
  | Some val =>
    if nonempty (Value r) then bool_decide (val = Value r)
    else if nonempty (rContains r) then str_contains val (rContains r)
    else existsb (str_contains val) (ContainsAny r)
  end.

Definition counter_of (ev : Event) (long : bool) (r : spec) : option string :=
  if bool_decide (Field r = EmptyString) || negb (Bool.eqb (isLongField r) long) then None
  else if existsb (λ k, bool_decide (k = Kind ev)) (rKinds r) && fieldMatches r ev
  then Some (LongCounterKind (Name r)) else None.

Definition counterKinds (e : Engine) (ev : Event) (long : bool) : list string :=
  omap (counter_of ev long) (rules e).

Definition LongCounterKinds (e : Engine) (ev : Event) : list string := counterKinds e ev true.
Definition MemoryCounterKinds (e : Engine) (ev : Event) : list string := counterKinds e ev false.

Definition Windows (e : Engine) : list duration :=
  fold_left (λ out r, if bool_decide (rWindow r ∈ out) then out else out ++ [rWindow r]) (rules e) [].

Definition in_kinds (r : spec) (k : string) : bool := bool_decide (k ∈ rKinds r).

Definition countMatches (r : spec) (agg : Aggregate) : Z :=
  if bool_decide (Field r = EmptyString) then
    map_sum (λ k n, if in_kinds r k then n else 0) (Kinds agg)
  else match Kinds agg !! LongCounterKind (Name r) with
       | Some n => n
       | None => Z.of_nat (length (List.filter (λ ev, in_kinds r (Kind ev) && fieldMatches r ev) (Sample agg)))
       end.

(** The events whose lines the evidence may quote. *)
Definition evidence_event (r : spec) (ev : Event) : bool :=
  in_kinds r (Kind ev) && nonempty (Raw ev) && (bool_decide (Field r = EmptyString) || fieldMatches r ev).

Fixpoint evidence_scan (r : spec) (out : list string) (evs : list Event) : list string :=
  match evs with
  | [] => out
  | ev :: evs =>
    if (EvidenceMaxLines <=? length out)%nat then out
    else if negb (in_kinds r (Kind ev)) || negb (nonempty (Raw ev)) then evidence_scan r out evs
    else if nonempty (Field r) && negb (fieldMatches r ev) then evidence_scan r out evs
    else evidence_scan r (out ++ [Raw ev]) evs
  end.

Definition evidenceLines (r : spec) (agg : Aggregate) : list string := evidence_scan r [] (Sample agg).

Definition applyRule (r : spec) (agg : Aggregate) : option Verdict :=
  let count := countMatches r agg in
  if count <? Threshold r then None
  else Some (MkVerdict (agg_IP agg) (rScore r) (rCategory r) 1
    ("rule/" +:+ Name r +:+ ": " +:+ show_Z count +:+ " events in " +:+ dur_string (rWindow r) +:+
       " (threshold " +:+ show_Z (Threshold r) +:+ ")")
    "rules" 0 (evidenceLines r agg)).

Fixpoint evaluate_rules (ctx : nat → bool) (i : nat) (rs : list spec) (agg : Aggregate) : list Verdict :=
  match rs with
  | [] => []
  | r :: rs =>
    if ctx i then []
    else if negb (rWindow r =? Window agg) then evaluate_rules ctx (S i) rs agg
    else match applyRule r agg with
         | Some v => v :: evaluate_rules ctx (S i) rs agg
         | None => evaluate_rules ctx (S i) rs agg
         end
  end.

Definition Evaluate (e : Engine) (ctx : nat → bool) (agg : Aggregate) : list Verdict :=
  evaluate_rules ctx 0 (rules e) agg.

Definition Rule (e : Engine) (name : string) : option spec :=
  List.find (λ r, bool_decide (Name r = name)) (rules e).

(** ** Example rules *)
Definition bruteforce : spec :=
  MkSpec "ssh-bruteforce" EmptyString ["ssh_fail"; "ssh_invalid_user"] EmptyString EmptyString EmptyString [] (10 * Minute) 5 80 "bruteforce".
Definition wplogin : spec :=
  MkSpec "wp-login" EmptyString ["http"] "path" EmptyString "/wp-login.php" [] (10 * Minute) 3 70 "bruteforce".

Example wplogin_valid : validateRules [bruteforce; wplogin] ∅ = Ok tt.
Proof. vm_compute. reflexivity. Qed.

(** ** Validation *)
Record rule_wf (r : spec) : Prop := {
  rw_name : Name r ≠ EmptyString;
  rw_reserved : IsLongCounterKind (Name r) = false;
  rw_kinds : rKinds r ≠ [];
  rw_threshold : 0 < Threshold r;
  rw_score : 0 <= rScore r <= 100;
  rw_window : 0 < rWindow r;
  rw_category : rCategory r ≠ EmptyString;
  (** exactly one matcher with a field, none without *)
  rw_matcher : (if bool_decide (Field r = EmptyString) then 0 else 1)%nat =
    ((if nonempty (Value r) then 1 else 0) + (if nonempty (rContains r) then 1 else 0) +
     (if nonnil (ContainsAny r) then 1 else 0))%nat
}.

Lemma validateRule_ok i r : validateRule i r = Ok tt → rule_wf r.
Proof.
  unfold validateRule. intros H. repeat (case_match; simplify_eq/=). bool_hyps.
  split; try done; try lia.
  - by destruct (rKinds r).
  - unfold nonempty in *. repeat case_bool_decide; destruct (ContainsAny r); simplify_eq/=; done.
Qed.

Lemma validateRules_ok rs o : validateRules rs o = Ok tt → Forall rule_wf rs.
Proof.
  intros H. apply Forall_lookup_2. intros i r Hi. apply (validateRule_ok i).
  unfold validateRules in H. rewrite check_all_ok in H. specialize (H i r Hi). simpl in H.
  by destruct (validateRule i r) as [[]|].
Qed.

(** ** Overlay *)
Definition decoded_rules (e : dirent) : list spec := match d_file e with Decoded rs => rs | _ => [] end.

(** Every layer's rules in the order they are applied. *)
Definition layers (base : list spec) (es : list dirent) : list spec :=
  base ++ mjoin (decoded_rules <$> sort_names (List.filter is_dropin es)).

Definition named (n : string) (r : spec) : bool := bool_decide (Name r = n).

Record overlay_ok (base done : list spec) (o : overlay) : Prop := {
  oo_index : ∀ n i, index o !! n = Some i ↔ ∃ r, merged o !! i = Some r ∧ Name r = n;
  oo_last : ∀ n, last (List.filter (named n) done) = (index o !! n) ≫= λ i, merged o !! i;
  oo_base : (Name <$> base) `prefix_of` (Name <$> merged o)
}.

Lemma init_index (base : list spec) : NoDup (Name <$> base) → ∀ n i,
  (fold_left (λ mi r, (<[Name r := mi.2]> mi.1, S mi.2)) base (∅ : gmap string nat, 0%nat)).1 !! n = Some i ↔
  ∃ r, base !! i = Some r ∧ Name r = n.
Proof.
  assert (∀ l, (fold_left (λ mi r, (<[Name r := mi.2]> mi.1, S mi.2)) l (∅ : gmap string nat, 0%nat)).2 = length l) as Hlen.
  { intros l. induction l as [|r l IH] using rev_ind; [done|].
    rewrite fold_left_app, length_app. simpl. rewrite IH. lia. }
  induction base as [|r base IH] using rev_ind; intros Hnd n i; simpl.
  { split; [by rewrite lookup_empty|]. intros (? & H & _). by rewrite lookup_nil in H. }
  rewrite fmap_app in Hnd. apply NoDup_app in Hnd as (Hnd & Hd & _).
  rewrite fold_left_app. simpl. rewrite Hlen. destruct (decide (n = Name r)) as [->|Hne].
  - rewrite lookup_insert_eq. split; [intros [= <-]; exists r; by rewrite lookup_app_r, Nat.sub_diag by lia|].
    intros (r' & Hr' & Hn). apply lookup_app_Some in Hr' as [Hr'|[Hl Hr']].
    + destruct (Hd (Name r)); [|by left]. rewrite <- Hn. apply list_elem_of_fmap_2. by eapply list_elem_of_lookup_2.
    + apply list_lookup_singleton_Some in Hr' as [H0 _]. f_equal. lia.
  - rewrite lookup_insert_ne by done. rewrite IH by done. split; intros (r' & Hr' & Hn); exists r'; (split; [|done]).
    + by apply lookup_app_l_Some.
    + apply lookup_app_Some in Hr' as [Hr'|[Hl Hr']]; [done|].
      apply list_lookup_singleton_Some in Hr' as [_ ->]. congruence.
Qed.

Lemma last_named_index (l : list spec) n : NoDup (Name <$> l) →
  ∀ i r, l !! i = Some r → Name r = n → List.filter (named n) l = [r].
Proof.
  unfold named. induction l as [|r l IH]; intros Hnd [|i] r' Hi Hn; simplify_eq/=.
  - rewrite bool_decide_true by done. f_equal. apply NoDup_cons in Hnd as [Hni _].
    clear IH. induction l as [|x l IH]; [done|]. simpl. rewrite bool_decide_false.
    + apply IH. set_solver.
    + intros Hx. apply Hni. rewrite <- Hx. left.
  - apply NoDup_cons in Hnd as [Hni Hnd]. rewrite bool_decide_false; [by eapply IH|].
    intros Hx. apply Hni. rewrite Hx. apply list_elem_of_fmap_2. by eapply list_elem_of_lookup_2.
Qed.

Lemma last_named_none (l : list spec) n : (∀ i r, l !! i = Some r → Name r ≠ n) → List.filter (named n) l = [].
Proof.
  unfold named. induction l as [|r l IH]; intros H; [done|]. simpl. rewrite bool_decide_false.
  - apply IH. intros i. apply (H (S i)).
  - by apply (H 0%nat).
Qed.

Lemma init_overlay_ok base : NoDup (Name <$> base) → overlay_ok base base (init_overlay base).
Proof.
  intros Hnd. pose proof (init_index base Hnd) as Hi. split; simpl; [done| |done].
  intros n. destruct ((fold_left _ base _).1 !! n) as [i|] eqn:E; simpl.
  - apply Hi in E as (r & Hr & Hn). by rewrite (last_named_index base n Hnd i r), Hr.
  - rewrite last_named_none; [done|]. intros i r Hr Hn. assert (Some i = None); [|done].
    rewrite <- E. symmetry. apply Hi. eauto.
Qed.

Lemma overlay_rule_ok base done path o r :
  overlay_ok base done o → overlay_ok base (done ++ [r]) (overlay_rule path o r).
Proof.
  intros [HI HL HB]. unfold overlay_rule.
  assert (∀ n, last (List.filter (named n) (done ++ [r])) =
            if decide (Name r = n) then Some r else last (List.filter (named n) done)) as Hlast.
  { intros n. rewrite List.filter_app. unfold named at 2. simpl. case_decide.
    - rewrite bool_decide_true by done. apply last_snoc.
    - by rewrite bool_decide_false, app_nil_r by done. }
  destruct (index o !! Name r) as [i|] eqn:E.
  - pose proof E as E'. apply HI in E' as (q & Hq & Hqn).
    assert (Name <$> <[i:=r]> (merged o) = Name <$> merged o) as Hnames.
    { rewrite list_fmap_insert. apply list_insert_id. by rewrite list_lookup_fmap, Hq; simpl; rewrite Hqn. }
    split; simpl.
    + intros n j. rewrite HI. split; intros (x & Hx & Hn);
        (destruct (decide (i = j)) as [->|Hij];
         [rewrite ?list_lookup_insert_eq in * by (by eapply lookup_lt_Some)|rewrite ?list_lookup_insert_ne in * by done]);
        simplify_eq; eauto.
    + intros n. rewrite Hlast. case_decide as Hn.
      * subst n. rewrite E. simpl. by rewrite list_lookup_insert_eq by (by eapply lookup_lt_Some).
      * rewrite HL. destruct (index o !! n) as [j|] eqn:Ej; simpl; [|done].
        rewrite list_lookup_insert_ne; [done|]. intros ->. apply HI in Ej as (x & Hx & Hxn). congruence.
    + by rewrite Hnames.
  - split; simpl.
    + intros n j. rewrite lookup_insert. case_decide as Hn.
      * subst n. split; [intros [= <-]; exists r; by rewrite lookup_app_r, Nat.sub_diag by lia|].
        intros (x & Hx & Hxn). apply lookup_app_Some in Hx as [Hx|[Hl Hx]].
        -- assert (index o !! Name r = Some j) by (apply HI; eauto). congruence.
        -- apply list_lookup_singleton_Some in Hx as [H0 _]. f_equal. lia.
      * rewrite HI. split; intros (x & Hx & Hxn); exists x; (split; [|done]).
        -- by apply lookup_app_l_Some.
        -- apply lookup_app_Some in Hx as [Hx|[Hl Hx]]; [done|].
           apply list_lookup_singleton_Some in Hx as [_ ->]. congruence.
    + intros n. rewrite Hlast, lookup_insert. case_decide as Hn.
      * simpl. by rewrite lookup_app_r, Nat.sub_diag by lia.
      * rewrite HL. destruct (index o !! n) as [j|] eqn:Ej; simpl; [|done].
        apply HI in Ej as (x & Hx & _). rewrite Hx. symmetry. by apply lookup_app_l_Some.
    + rewrite fmap_app. by apply prefix_app_r.
Qed.

Lemma overlay_files_ok base done es o o' :
  overlay_ok base done o → overlay_files es o = Ok o' →
  overlay_ok base (done ++ mjoin (decoded_rules <$> es)) o'.
Proof.
  assert (∀ path rs done o, overlay_ok base done o → overlay_ok base (done ++ rs) (fold_left (overlay_rule path) rs o)) as Hf.
  { intros path rs. induction rs as [|r rs IH]; intros dn o1 H; simpl; [by rewrite app_nil_r|].
    rewrite cons_middle, app_assoc. by apply IH, overlay_rule_ok. }
  revert done o. induction es as [|e es IH]; intros dn o1 Ho H; simpl in H.
  { simplify_eq. csimpl. by rewrite app_nil_r. }
  csimpl. unfold decoded_rules at 1. destruct (d_file e) as [| |rs]; try done.
  rewrite app_assoc. by eapply IH; [apply Hf|].
Qed.

Lemma overlay_ok_find base done o n :
  overlay_ok base done o →
  List.find (named n) (merged o) = last (List.filter (named n) done) ∧ NoDup (Name <$> merged o).
Proof.
  intros [HI HL _].
  assert (NoDup (Name <$> merged o)) as Hnd.
  { apply NoDup_alt. intros i j m Hi Hj. rewrite list_lookup_fmap in Hi, Hj.
    apply fmap_Some in Hi as (x & Hx & ->). apply fmap_Some in Hj as (y & Hy & Hxy).
    assert (index o !! Name x = Some i) by (apply HI; eauto).
    assert (index o !! Name x = Some j) by (apply HI; eauto). congruence. }
  split; [|done]. rewrite HL.
  assert (List.find (named n) (merged o) = head (List.filter (named n) (merged o))) as ->.
  { clear. induction (merged o) as [|r l IH]; [done|]. simpl. by destruct (named n r). }
  destruct (index o !! n) as [i|] eqn:E; simpl.
  - apply HI in E as (r & Hr & Hn). by rewrite (last_named_index _ n Hnd i r), Hr.
  - rewrite last_named_none; [done|]. intros i r Hr Hn. assert (index o !! n = Some i) by (apply HI; eauto). congruence.
Qed.

(** Drop-ins overlay by name: when [New] accepts an embedded base with
    distinct names and a listed rules.d, the engine's rule under any name is
    the last one the layers give (base first, then the *.yaml and *.yml files
    in lexical order), names stay distinct, the base rules keep their places
    at the front, every drop-in decoded, and every rule passed validation. *)
Theorem New_overlay base es e :
  NoDup (Name <$> base) → New None (Decoded base) (Listed es) = Ok e →
  (∀ n, Rule e n = last (List.filter (named n) (layers base es))) ∧
  NoDup (Name <$> rules e) ∧ (Name <$> base) `prefix_of` (Name <$> rules e) ∧ Forall rule_wf (rules e).
Proof.
  intros Hnd. simpl. unfold mbind, result_mbind, result_bind.
  destruct (overlay_files _ _) as [o|] eqn:E; simpl; [|done].
  destruct (validateRules (merged o) (origin o)) as [[]|] eqn:V; [|done]. intros [= <-]. simpl.
  pose proof (overlay_files_ok _ _ _ _ _ (init_overlay_ok base Hnd) E) as Ho.
  split; [|split; [|split]].
  - intros n. apply (overlay_ok_find _ _ _ n Ho).
  - apply (overlay_ok_find _ _ _ EmptyString Ho).
  - apply (oo_base _ _ _ Ho).
  - by eapply validateRules_ok.
Qed.

(** The last of two drop-ins wins over the base. *)
Definition tuned (n : Z) : spec :=
  MkSpec "ssh-bruteforce" EmptyString ["ssh_fail"] EmptyString EmptyString EmptyString [] (10 * Minute) n 60 "bruteforce".

Lemma New_overlay_witness :
  match New None (Decoded [bruteforce; wplogin])
    (Listed [MkDirent "20-b.yml" false (Decoded [tuned 9]); MkDirent ".hidden.yaml" false Undecodable;
             MkDirent "10-a.yaml" false (Decoded [tuned 7])]) with
  | Ok e => Rule e "ssh-bruteforce" = Some (tuned 9)
  | Err _ => False
  end.
Proof.
  refine (proj1 (New_overlay [bruteforce; wplogin]
    [MkDirent "20-b.yml" false (Decoded [tuned 9]); MkDirent ".hidden.yaml" false Undecodable;
     MkDirent "10-a.yaml" false (Decoded [tuned 7])] (MkEngine [tuned 9; wplogin]) _ _) "ssh-bruteforce").
  - apply (bool_decide_unpack _). vm_compute. exact I.
  - vm_compute. reflexivity.
Defined.

(** ** Counter kinds *)
Lemma elem_of_add_kinds ks l k : k ∈ add_kinds ks l ↔ k ∈ ks ∨ k ∈ l.
Proof.
  unfold add_kinds. revert l. induction ks as [|j ks IH]; intros l; simpl; [set_solver|].
  rewrite IH. case_bool_decide; set_solver.
Qed.

Lemma NoDup_add_kinds ks l : NoDup l → NoDup (add_kinds ks l).
Proof.
  unfold add_kinds. revert l. induction ks as [|j ks IH]; intros l Hl; simpl; [done|].
  apply IH. case_bool_decide; [done|]. apply NoDup_app. split; [done|]. set_solver by eauto using NoDup_singleton.
Qed.

Lemma KindsForLongWindows_spec e w k :
  (∃ ks, KindsForLongWindows e !! w = Some ks ∧ k ∈ ks) ↔
  ∃ r, r ∈ rules e ∧ rWindow r = w ∧ LongWindowCutoff < w ∧ k ∈ counter_kinds_of r.
Proof.
  unfold KindsForLongWindows. induction (rules e) as [|r l IH] using rev_ind; simpl.
  { split; [intros (ks & H & _)|intros (r & H & _)]; [by rewrite lookup_empty in H|by apply not_elem_of_nil in H]. }
  rewrite fold_left_app. simpl. set (out := fold_left _ l ∅) in *.
  setoid_rewrite elem_of_app. setoid_rewrite list_elem_of_singleton.
  destruct (rWindow r <=? LongWindowCutoff) eqn:E; bool_hyps.
  { rewrite IH. split; [intros (x & Hx & H); eauto|]. intros (x & [Hx| ->] & Hw & Hlt & Hk); [eauto|lia]. }
  pose proof (elem_of_add_kinds (counter_kinds_of r) (default [] (out !! rWindow r))) as Hadd.
  assert ((∃ ks, out !! w = Some ks ∧ k ∈ ks) ↔ k ∈ default [] (out !! w)) as Hd.
  { destruct (out !! w); simpl; [naive_solver|]. split; [naive_solver|by intros ?%not_elem_of_nil]. }
  assert ((∃ ks, match add_kinds (counter_kinds_of r) (default [] (out !! rWindow r)) with
          | [] => out | k0 :: l0 => <[rWindow r := k0 :: l0]> out end !! w = Some ks ∧ k ∈ ks) ↔
          (w = rWindow r ∧ k ∈ counter_kinds_of r) ∨ k ∈ default [] (out !! w)) as ->.
  { destruct (add_kinds _ _) as [|k0 l0] eqn:Ea.
    - rewrite Hd. split; [auto|]. intros [[-> Hk]|?]; [|done].
      specialize (Hadd k). rewrite elem_of_nil in Hadd. tauto.
    - rewrite lookup_insert. case_decide as Hw.
      + subst w. split.
        * intros (ks & [= <-] & Hk). apply Hadd in Hk as [?|?]; auto.
        * intros [[_ Hk]|Hk]; (eexists; split; [done|]; apply Hadd; auto).
      + rewrite Hd. split; [auto|]. intros [[-> _]|?]; done. }
  rewrite <- Hd, IH. split.
  - intros [[-> Hk]|(x & Hx & Hr)]; [exists r; auto with lia|eauto].
  - intros (x & [Hx| ->] & Hw & Hlt & Hk); [right; eauto|left; auto].
Qed.

Lemma KindsForLongWindows_NoDup e w ks : KindsForLongWindows e !! w = Some ks → NoDup ks.
Proof.
  unfold KindsForLongWindows. revert ks. induction (rules e) as [|r l IH] using rev_ind; simpl; intros ks.
  { by rewrite lookup_empty. }
  rewrite fold_left_app. simpl. set (out := fold_left _ l ∅) in *.
  destruct (rWindow r <=? LongWindowCutoff); [apply IH|].
  destruct (add_kinds _ _) as [|k0 l0] eqn:Ea; [apply IH|]. rewrite lookup_insert. case_decide; [|apply IH].
  intros [= <-]. rewrite <- Ea. apply NoDup_add_kinds. subst. destruct (out !! rWindow r); simpl; [by apply IH|constructor].
Qed.

Lemma elem_of_LongFieldEventKinds e k :
  k ∈ LongFieldEventKinds e ↔ ∃ r, r ∈ rules e ∧ isLongField r = true ∧ k ∈ rKinds r.
Proof.
  unfold LongFieldEventKinds. induction (rules e) as [|r l IH] using rev_ind; simpl; [set_solver|].
  rewrite fold_left_app. simpl. setoid_rewrite elem_of_app. setoid_rewrite list_elem_of_singleton.
  destruct (isLongField r) eqn:E; [rewrite elem_of_union, elem_of_list_to_set|]; rewrite IH; split.
  - intros [(x & Hx & H)|Hk]; eauto.
  - intros (x & [Hx| ->] & H & Hk); eauto.
  - intros (x & Hx & H); eauto.
  - intros (x & [Hx| ->] & H & Hk); [eauto|congruence].
Qed.

Lemma elem_of_counterKinds e ev long k :
  k ∈ counterKinds e ev long ↔
  ∃ r, r ∈ rules e ∧ k = LongCounterKind (Name r) ∧ Field r ≠ EmptyString ∧ isLongField r = long ∧
       Kind ev ∈ rKinds r ∧ fieldMatches r ev = true.
Proof.
  unfold counterKinds, counter_of. rewrite list_elem_of_omap.
  assert (∀ r, existsb (λ k, bool_decide (k = Kind ev)) (rKinds r) = true ↔ Kind ev ∈ rKinds r) as Hk.
  { intros r. rewrite existsb_exists_elem. setoid_rewrite bool_decide_eq_true. naive_solver. }
  split; intros (r & Hr & H); exists r; (split; [done|]).
  - destruct (bool_decide_reflect (Field r = EmptyString)); simpl in H; [done|].
    destruct (Bool.eqb (isLongField r) long) eqn:El; simpl in H; [|done]. apply Bool.eqb_prop in El.
    destruct (existsb _ (rKinds r) && fieldMatches r ev) eqn:Em; simplify_eq. apply andb_true_iff in Em as [Em ?].
    rewrite Hk in Em. auto 10.
  - destruct H as (-> & Hf & <- & Hin & Hm). rewrite bool_decide_false by done. simpl.
    rewrite Bool.eqb_reflx. simpl. apply Hk in Hin. by rewrite Hin, Hm.
Qed.

(** The long-window wiring loses nothing: every counter kind an event
    increments belongs to an event kind the hot-path prefilter lets through,
    and to the kinds read back for exactly the windows of the rules that own
    it; each window's list has no repetition, and it holds the kinds its
    kind-level rules name and the rule counters of its field-level rules,
    nothing else. *)
Theorem long_counters_wired e :
  (∀ ev k, k ∈ LongCounterKinds e ev →
     Kind ev ∈ LongFieldEventKinds e ∧ ∃ w ks, KindsForLongWindows e !! w = Some ks ∧ k ∈ ks) ∧
  (∀ w ks, KindsForLongWindows e !! w = Some ks → NoDup ks ∧ LongWindowCutoff < w) ∧
  ∀ w k, (∃ ks, KindsForLongWindows e !! w = Some ks ∧ k ∈ ks) ↔
    ∃ r, r ∈ rules e ∧ rWindow r = w ∧ LongWindowCutoff < w ∧
      (if bool_decide (Field r = EmptyString) then k ∈ rKinds r else k = "rule:" +:+ Name r).
Proof.
  assert (∀ r k, k ∈ counter_kinds_of r ↔
    (if bool_decide (Field r = EmptyString) then k ∈ rKinds r else k = "rule:" +:+ Name r)) as Hc.
  { intros r k. unfold counter_kinds_of, nonempty. case_bool_decide; simpl; [done|]. apply list_elem_of_singleton. }
  split; [|split].
  - intros ev k (r & Hr & -> & Hf & Hl & Hk & Hm)%elem_of_counterKinds. split.
    + apply elem_of_LongFieldEventKinds. eauto.
    + exists (rWindow r). apply KindsForLongWindows_spec. exists r.
      unfold isLongField in Hl. apply andb_true_iff in Hl as [Hl _]. apply Z.ltb_lt in Hl.
      split; [done|]. split; [done|]. split; [done|]. apply Hc. by rewrite bool_decide_false.
  - intros w ks Hks. split; [by eapply KindsForLongWindows_NoDup|].
    destruct ks as [|k ks].
    + exfalso. revert Hks. unfold KindsForLongWindows. clear Hc.
      induction (rules e) as [|r l IH] using rev_ind; simpl; [by rewrite lookup_empty|].
      rewrite fold_left_app. simpl. destruct (rWindow r <=? LongWindowCutoff); [done|].
      destruct (add_kinds _ _) eqn:E; [done|]. rewrite lookup_insert. by case_decide.
    + destruct (proj1 (KindsForLongWindows_spec e w k)) as (r & _ & <- & H & _); [|done].
      exists (k :: ks). split; [done|left].
  - intros w k. rewrite KindsForLongWindows_spec. by setoid_rewrite Hc.
Qed.

Definition long_wp : spec :=
  MkSpec "wp-day" EmptyString ["http"] "path" EmptyString "/wp-login.php" [] (24 * Hour) 50 70 "bruteforce".

Example long_wp_wired :
  KindsForLongWindows (MkEngine [bruteforce; long_wp]) !! (24 * Hour) = Some ["rule:wp-day"].
Proof. vm_compute. reflexivity. Qed.

(** ** Evaluation *)
Lemma evidence_scan_take r evs out : (length out <= EvidenceMaxLines)%nat →
  evidence_scan r out evs = take EvidenceMaxLines (out ++ (Raw <$> List.filter (evidence_event r) evs)).
Proof.
  revert out. induction evs as [|ev evs IH]; intros out Ho; cbn [evidence_scan List.filter].
  { csimpl. rewrite app_nil_r. by rewrite take_ge. }
  destruct (Nat.leb_spec EvidenceMaxLines (length out)) as [Hl|Hl].
  { rewrite take_app_le, take_ge by lia. done. }
  unfold evidence_event at 1. destruct (in_kinds r (Kind ev)); simpl; [|by apply IH].
  destruct (nonempty (Raw ev)); simpl; [|by apply IH].
  unfold nonempty. destruct (bool_decide_reflect (Field r = EmptyString)); simpl; [|destruct (fieldMatches r ev); simpl; [|by apply IH]];
    (rewrite IH by (rewrite length_app; simpl; lia); csimpl; by rewrite <- app_assoc).
Qed.

(** Captured evidence is a sample of the counted events: the lines are the
    first five (at most) raw lines, in order, of the sample events of the
    rule's kinds that its matcher accepts; a field-level rule counted by the
    scan never quotes more lines than it counted, and events of other kinds or
    without a raw line contribute nothing. *)
Theorem evidence_of_counted r agg :
  evidenceLines r agg = take 5 (Raw <$> List.filter (evidence_event r) (Sample agg)) ∧
  (Field r ≠ EmptyString → Kinds agg !! LongCounterKind (Name r) = None →
   Z.of_nat (length (evidenceLines r agg)) <= countMatches r agg).
Proof.
  assert (evidenceLines r agg = take 5 (Raw <$> List.filter (evidence_event r) (Sample agg))) as He.
  { apply (evidence_scan_take r (Sample agg) []). simpl. lia. }
  split; [done|]. intros Hf Hk. rewrite He. unfold countMatches. rewrite bool_decide_false, Hk by done.
  rewrite length_take, length_fmap. apply Nat2Z.inj_le.
  transitivity (length (List.filter (evidence_event r) (Sample agg))); [lia|].
  unfold evidence_event. rewrite bool_decide_false by done. simpl. clear.
  induction (Sample agg) as [|ev l IH]; simpl; [done|].
  destruct (in_kinds r (Kind ev)), (nonempty (Raw ev)), (fieldMatches r ev); simpl; lia.
Qed.

Lemma evidence_of_counted_witness :
  Z.of_nat (length (evidenceLines wplogin (MkAggregate (Addr4 1) (10 * Minute) 1 ∅
    [MkEvent 0 (Addr4 1) "http" {["path" := "/wp-login.php"]} "nginx" "GET /wp-login.php"]))) <= 1.
Proof.
  refine (proj2 (evidence_of_counted wplogin (MkAggregate (Addr4 1) (10 * Minute) 1 ∅
    [MkEvent 0 (Addr4 1) "http" {["path" := "/wp-login.php"]} "nginx" "GET /wp-login.php"])) _ _).
  - discriminate.
  - reflexivity.
Defined.

Lemma evaluate_rules_prefix ctx i rs agg :
  evaluate_rules ctx i rs agg `prefix_of` omap (λ r, if rWindow r =? Window agg then applyRule r agg else None) rs.
Proof.
  revert i. induction rs as [|r rs IH]; intros i; simpl; [done|].
  destruct (ctx i); [apply prefix_nil|]. destruct (rWindow r =? Window agg); simpl; [|apply IH].
  destruct (applyRule r agg); [apply prefix_cons|]; apply IH.
Qed.

Lemma evaluate_rules_all ctx i rs agg : (∀ j, ctx j = false) →
  evaluate_rules ctx i rs agg = omap (λ r, if rWindow r =? Window agg then applyRule r agg else None) rs.
Proof.
  intros Hc. revert i. induction rs as [|r rs IH]; intros i; simpl; [done|]. rewrite Hc.
  destruct (rWindow r =? Window agg); simpl; [|apply IH]. destruct (applyRule r agg); by rewrite IH.
Qed.

(** A rule fires exactly at its threshold: without cancellation a verdict
    is emitted for a rule iff the aggregate is of the rule's window and the
    count of matching events reaches the threshold; the verdict carries the
    aggregate's address, the rule's score (in 0..100 for a validated rule) and
    category, at most five evidence lines, and no TTL; a cancelled evaluation
    emits a prefix of these verdicts. *)
Theorem Evaluate_fires e agg ctx :
  Forall rule_wf (rules e) → (∀ i, ctx i = false) →
  (∀ v, v ∈ Evaluate e ctx agg → v_IP v = agg_IP agg ∧ 0 <= Score v <= 100 ∧ SuggestTTL v = 0 ∧
     (length (Evidence v) <= 5)%nat ∧
     ∃ r, r ∈ rules e ∧ Score v = rScore r ∧ Category v = rCategory r ∧ rWindow r = Window agg ∧
          Threshold r <= countMatches r agg) ∧
  (∀ r, r ∈ rules e → rWindow r = Window agg →
     (Threshold r <= countMatches r agg ↔ ∃ v, applyRule r agg = Some v ∧ v ∈ Evaluate e ctx agg)) ∧
  ∀ ctx', Evaluate e ctx' agg `prefix_of` Evaluate e ctx agg.
Proof.
  intros Hwf Hc. rewrite Forall_forall in Hwf. unfold Evaluate. rewrite evaluate_rules_all by done.
  split; [|split].
  - intros v (r & Hr & Hv)%list_elem_of_omap. destruct (rWindow r =? Window agg) eqn:Ew; [|done]. bool_hyps.
    unfold applyRule in Hv. destruct (countMatches r agg <? Threshold r) eqn:Et; bool_hyps; simplify_eq/=.
    split; [done|]. split; [apply Hwf; done|]. split; [done|]. split; [|by exists r].
    unfold evidenceLines. rewrite evidence_scan_take by (simpl; lia). rewrite length_take. unfold EvidenceMaxLines. lia.
  - intros r Hr Hw. unfold applyRule. setoid_rewrite list_elem_of_omap.
    destruct (countMatches r agg <? Threshold r) eqn:Et; bool_hyps; split; intros H; try lia; [naive_solver|].
    eexists. split; [done|]. exists r. split; [done|]. rewrite (proj2 (Z.eqb_eq _ _) Hw).
    unfold applyRule. by rewrite (proj2 (Z.ltb_ge _ _)) by lia.
  - intros ctx'. apply evaluate_rules_prefix.
Qed.

Lemma Evaluate_fires_witness :
  ∃ v, applyRule bruteforce (MkAggregate (Addr4 1) (10 * Minute) 6 {["ssh_fail" := 6]} []) = Some v ∧
       v ∈ Evaluate (MkEngine [bruteforce; wplogin]) (λ _, false)
             (MkAggregate (Addr4 1) (10 * Minute) 6 {["ssh_fail" := 6]} []).
Proof.
  refine (proj1 (proj1 (proj2 (Evaluate_fires (MkEngine [bruteforce; wplogin])
    (MkAggregate (Addr4 1) (10 * Minute) 6 {["ssh_fail" := 6]} []) (λ _, false) _ _)) bruteforce _ _) _).
  - apply (validateRules_ok _ ∅). vm_compute. reflexivity.
  - reflexivity.
  - simpl. left.
  - reflexivity.
  - vm_compute. discriminate.
Defined.

(** ** Field-level counts through the aggregator *)
Definition hit (r : spec) (ev : Event) : bool := in_kinds r (Kind ev) && fieldMatches r ev.

(** The events at or after [c] of a history that the rule counts. *)
Definition hits (c : time) (r : spec) (h : list Aggregate.entry) : Z :=
  sumZ (λ x, if Aggregate.in_window c x && hit r (Aggregate.ev x) then 1 else 0) h.

Lemma sumZ_indicator {A} `{EqDecision A} (l : list A) k : NoDup l →
  sumZ (λ x, if decide (x = k) then 1 else 0) l = if decide (k ∈ l) then 1 else 0.
Proof.
  induction 1 as [|x l Hx Hl IH]; simpl; [done|]. rewrite IH.
  repeat case_decide; subst; set_solver by lia.
Qed.

Lemma counter_of_name ev long r k : counter_of ev long r = Some k → k = LongCounterKind (Name r).
Proof. unfold counter_of. intros H. repeat case_match; by simplify_eq. Qed.

Lemma NoDup_counterKinds e ev long : NoDup (Name <$> rules e) → NoDup (counterKinds e ev long).
Proof.
  unfold counterKinds. induction (rules e) as [|r l IH]; [constructor|].
  rewrite fmap_cons. intros [Hr Hl]%NoDup_cons. cbn [omap list_omap].
  destruct (counter_of ev long r) as [k|] eqn:E; [|by apply IH]. apply NoDup_cons.
  split; [|by apply IH]. intros (r' & Hr' & H)%list_elem_of_omap. apply Hr.
  apply counter_of_name in E, H. rewrite E in H. unfold LongCounterKind in H. apply str_app_inj in H.
  rewrite H. by apply list_elem_of_fmap_2.
Qed.

(** One event of a parser kind adds one to the rule's counter iff it hits. *)
Lemma counter_weight e r t ev :
  NoDup (Name <$> rules e) → r ∈ rules e → Field r ≠ EmptyString → isLongField r = false →
  IsLongCounterKind (Kind ev) = false →
  Aggregate.weight (LongCounterKind (Name r)) (Aggregate.MkEntry t ev (MemoryCounterKinds e ev)) =
  if hit r ev then 1 else 0.
Proof.
  intros Hnd Hr Hf Hl Hk. unfold Aggregate.weight. simpl. rewrite decide_False.
  2: { intros Heq. rewrite Heq in Hk. unfold IsLongCounterKind, LongCounterKind in Hk. by rewrite has_prefix_app in Hk. }
  rewrite sumZ_indicator by (by apply NoDup_counterKinds).
  assert (LongCounterKind (Name r) ∈ MemoryCounterKinds e ev ↔ hit r ev = true) as Hiff.
  { unfold MemoryCounterKinds. rewrite elem_of_counterKinds. unfold hit, in_kinds. rewrite andb_true_iff, bool_decide_eq_true.
    split; [|intros []; eauto 10]. intros (r' & Hr' & Hn & _ & _ & Hk' & Hm).
    unfold LongCounterKind in Hn. apply str_app_inj in Hn.
    assert (r' = r) as ->; [|done].
    apply list_elem_of_lookup_1 in Hr as [i Hi]. apply list_elem_of_lookup_1 in Hr' as [j Hj].
    assert (i = j) as ->; [|congruence].
    eapply (NoDup_lookup _ _ _ (Name r) Hnd); rewrite list_lookup_fmap, ?Hi, ?Hj; simpl; congruence. }
  destruct (hit r ev); case_decide; naive_solver.
Qed.

Lemma hits_true_kind e r (a : Aggregate.Aggregator) ip evs c h :
  NoDup (Name <$> rules e) → r ∈ rules e → Field r ≠ EmptyString → isLongField r = false →
  (∀ ev, ev ∈ evs → IsLongCounterKind (Kind ev) = false) →
  Aggregate.classify a = Some (MemoryCounterKinds e) →
  (∀ x, x ∈ h → x ∈ Aggregate.history ip a evs) →
  Aggregate.true_kind c (LongCounterKind (Name r)) h = hits c r h.
Proof.
  intros Hnd Hr Hf Hl Hk Hc Hh. apply sumZ_ext. intros x Hx%Hh.
  unfold Aggregate.history in Hx. apply list_elem_of_fmap in Hx as (ev & -> & Hev).
  apply list_elem_of_In, List.filter_In in Hev as [Hev _]. apply list_elem_of_In in Hev.
  unfold Aggregate.entry_of. rewrite Hc. rewrite (counter_weight e r) by auto. simpl.
  by destruct (Aggregate.in_window c _), (hit r ev).
Qed.

(** A field-level rule counts right under flood: with the aggregator run
    with the engine's classifier, whatever the sample cap evicted, the count
    of a field-level rule with an in-memory window is at most the number of
    matching events of the window and at least that number without the
    events of the first overflow-bucket width; evicted events are counted by
    the rule's own counter and an absent counter falls back to a scan that
    agrees. *)
Theorem field_rule_count e r ws n a0 evs ip now :
  let a := Aggregate.WithClassifier (MemoryCounterKinds e) a0 in
  Aggregate.New ws n = Some a0 → 0 <= Aggregate.maxWindow a0 → rWindow r <= Aggregate.maxWindow a0 →
  NoDup (Name <$> rules e) → r ∈ rules e → Field r ≠ EmptyString → rWindow r <= LongWindowCutoff →
  (∀ ev, ev ∈ evs → IsLongCounterKind (Kind ev) = false) →
  Aggregate.in_order (Aggregate.history ip a evs) →
  (∀ x, x ∈ Aggregate.history ip a evs → Aggregate.at_ x <= now) →
  let h := Aggregate.history ip a evs in
  hits (now - rWindow r + Aggregate.bucket a0) r h
    <= countMatches r (Aggregate.AggregateIP ip (rWindow r) now (Aggregate.AddAll evs a))
    <= hits (now - rWindow r) r h.
Proof.
  intros a HN Hmax Hw Hnd Hr Hf Hlong Hk Ho Hnow h.
  destruct (Aggregate.New_classified _ _ _ (MemoryCounterKinds e) HN) as (Hwf & Hcap & Hnew & _).
  destruct (Aggregate.aggregate_bounds a Hwf Hcap Hnew evs ip (rWindow r) now Hmax Hw Ho Hnow)
    as (old & es & Hsp & _ & HS & HK & _).
  fold h in Hsp, HK.
  assert (isLongField r = false) as Hl.
  { unfold isLongField. apply andb_false_iff. left. apply Z.ltb_ge. lia. }
  assert (∀ c h', (∀ x, x ∈ h' → x ∈ h) → Aggregate.true_kind c (LongCounterKind (Name r)) h' = hits c r h') as Ht.
  { intros c h' Hh'. by eapply (hits_true_kind e r a ip evs). }
  destruct (HK (LongCounterKind (Name r))) as [[H1 H2] H3].
  change (Aggregate.bucket a) with (Aggregate.bucket a0) in H1. rewrite Ht in H1, H2 by done.
  rewrite Ht in H3 by (intros x Hx; rewrite Hsp; apply elem_of_app; by right).
  unfold countMatches. rewrite bool_decide_false by done.
  unfold get in *. destruct (Kinds _ !! LongCounterKind (Name r)) as [m|] eqn:Em; simpl in *; [lia|].
  assert (Z.of_nat (length (List.filter (λ ev, in_kinds r (Kind ev) && fieldMatches r ev) (Sample
    (Aggregate.AggregateIP ip (rWindow r) now (Aggregate.AddAll evs a))))) = hits (now - rWindow r) r es) as ->.
  { rewrite HS. unfold hits. clear. induction es as [|x es IH]; simpl; [done|].
    destruct (Aggregate.in_window (now - rWindow r) x); [|done].
    rewrite fmap_cons. unfold hit in *. cbn [List.filter andb].
    destruct (in_kinds r (Kind (Aggregate.ev x)) && fieldMatches r (Aggregate.ev x)); cbn [length]; lia. }
  assert (0 <= hits (now - rWindow r) r es).
  { apply sumZ_nonneg. intros x. by destruct (_ && _). }
  lia.
Qed.

Definition wp_hit (s : Z) : Event :=
  MkEvent (s * Second) (Addr4 1) "http" {["path" := "/wp-login.php"]} "nginx" EmptyString.

(** Four hits with a sample cap of one: the counter still sees all four. *)
Lemma field_rule_count_witness :
  ∃ a0, Aggregate.New [10 * Minute] 1 = Some a0 ∧
  let a := Aggregate.WithClassifier (MemoryCounterKinds (MkEngine [bruteforce; wplogin])) a0 in
  let evs := wp_hit <$> [700; 701; 702; 703] in
  hits (704 * Second - 10 * Minute + Aggregate.bucket a0) wplogin (Aggregate.history (Addr4 1) a evs) <=
  countMatches wplogin (Aggregate.AggregateIP (Addr4 1) (10 * Minute) (704 * Second) (Aggregate.AddAll evs a)) ∧
  hits (704 * Second - 10 * Minute + Aggregate.bucket a0) wplogin (Aggregate.history (Addr4 1) a evs) = 4.
Proof.
  eexists. assert (HN : Aggregate.New [10 * Minute] 1 = Some _) by (vm_compute; reflexivity).
  split; [exact HN|]. cbv zeta. split; [|vm_compute; reflexivity].
  refine (proj1 (field_rule_count (MkEngine [bruteforce; wplogin]) wplogin _ _ _ (wp_hit <$> [700; 701; 702; 703])
    (Addr4 1) (704 * Second) HN _ _ _ _ _ _ _ _ _)).
  - vm_compute. discriminate.
  - vm_compute. discriminate.
  - apply (bool_decide_unpack _). vm_compute. exact I.
  - simpl. right. left.
  - discriminate.
  - vm_compute. discriminate.
  - apply Forall_forall. simpl. repeat constructor.
  - unfold Aggregate.in_order, Aggregate.history. simpl. repeat constructor; vm_compute; discriminate.
  - apply Forall_forall. unfold Aggregate.history. simpl. repeat constructor; vm_compute; discriminate.
Defined.

(** Two rules of one name share the counter: one request counts twice. *)
Lemma duplicate_names_share_counter :
  let e := MkEngine [wplogin; wplogin] in
  validateRules (rules e) ∅ = Ok tt ∧ MemoryCounterKinds e (wp_hit 0) = ["rule:wp-login"; "rule:wp-login"].
Proof. split; vm_compute; reflexivity. Qed.
