(* ===== verification/EventsAgg.v ===== *)
(** Persistent hourly event counters: [internal/store/eventsagg.go], and the
    long-window evaluation that reads them, [evaluateLongRules] of
    [internal/daemon/daemon.go].

    The counters are rows (ip, kind, hour) of the store's tables; a strike
    records, per window, the counts it has consumed, and an evaluation
    subtracts them.  Counts are SQLite integers, far from their 64 bits. *)
From S2P Require Import Prelude GoStrings Netip Sdk.
From S2P Require Import Store Rules.

(** Floor to the UTC hour, in epoch seconds. *)
Definition HourBucket (t : time) : Z := Unix (time_truncate t Hour).

Definition IncrEventCount (ip : addr) (kind : string) (bucketStart : Z) : sql unit :=
  exec (on_events_agg (partial_alter (λ n, Some (default 0 n + 1)) (Unmap ip, kind, bucketStart))).

Definition row_of (ip : addr) (kind : string) (since : Z) (key : addr * string * Z) : bool :=
  bool_decide (key.1 = (ip, kind)) && (since <=? key.2).

Definition sum_kind (ip : addr) (kind : string) (since : Z) (d : db) : Z :=
  map_sum (λ key n, if row_of ip kind since key then n else 0) (events_agg d).

Definition has_rows (ip : addr) (kind : string) (since : Z) (d : db) : bool :=
  existsb (row_of ip kind since) (map_to_list (events_agg d)).*1.

(** [SELECT kind, SUM(count) ... GROUP BY kind]: a kind without rows is absent. *)
Definition group_sums (ip : addr) (kinds : list string) (since : Z) (d : db) : gmap string Z :=
  list_to_map ((λ k, (k, sum_kind ip k since d)) <$> List.filter (λ k, has_rows ip k since d) kinds).

Definition SumEventCounts (ip : addr) (kinds : list string) (since : Z) : sql (gmap string Z) :=
  match kinds with
  | [] => mret ∅
  | _ => query (group_sums (Unmap ip) kinds since)
  end.

(** Two statements, not a transaction: the watermarks first. *)
Definition PruneEventCounts (before : Z) : sql Z :=
  _ ← exec (on_events_consumed (filter (λ kv, before <= kv.2.2)));
  n ← read (λ d, Z.of_nat (size (filter (λ kv, kv.1.2 < before) (events_agg d))));
  _ ← exec (on_events_agg (filter (λ kv, before <= kv.1.2)));
  mret n.

(** The rule windows and the counter kinds their rules read; Go ranges over the
    map twice, in orders that do not matter for a transaction. *)
Abbreviation rule_windows := (gmap duration (list string)).

Definition consumed_key (ip : addr) (w : duration) (k : string) : addr * Z * string := (ip, Z.quot w Second, k).

Fixpoint read_windows (ip : addr) (now : time) (ws : list (duration * list string)) :
    sql (list (duration * string * Z)) :=
  match ws with
  | [] => mret []
  | (w, kinds) :: ws =>
    sums ← SumEventCounts ip kinds (HourBucket (now - w));
    rest ← read_windows ip now ws;
    mret (((λ k, (w, k, get k sums)) <$> kinds) ++ rest)
  end.

(** The watermark of one kind in one window. *)
Definition set_watermark (ip : addr) (now : time) (x : duration * string * Z) : db → db :=
  on_events_consumed (if x.2 =? 0 then delete (consumed_key ip x.1.1 x.1.2)
                      else <[consumed_key ip x.1.1 x.1.2 := (x.2, Unix now)]>).

Fixpoint write_watermarks (ip : addr) (now : time) (xs : list (duration * string * Z)) : sql unit :=
  match xs with
  | [] => mret tt
  | x :: xs => _ ← exec (set_watermark ip now x); write_watermarks ip now xs
  end.

Definition ConsumeEventCounts (ip : addr) (ws : rule_windows) (now : time) : sql unit :=
  xs ← read_windows (Unmap ip) now (map_to_list ws);
  tx (write_watermarks (Unmap ip) now xs).

Definition watermark_of (ip : addr) (window : duration) (now : time) (key : addr * Z * string) (v : Z * Z) : bool :=
  bool_decide (key.1 = (ip, Z.quot window Second)) && (HourBucket (now - window) <=? v.2).

Definition consumed_rows (ip : addr) (window : duration) (now : time) (d : db) : gmap string Z :=
  list_to_map (omap (λ kv, if watermark_of ip window now kv.1 kv.2 then Some (kv.1.2, kv.2.1) else None)
    (map_to_list (events_consumed d))).

Definition ConsumedEventCounts (ip : addr) (window : duration) (now : time) : sql (gmap string Z) :=
  query (consumed_rows (Unmap ip) window now).

(** ** Long-window evaluation *)
Definition less_consumed (consumed : gmap string Z) (k : string) (n : Z) : option Z :=
  let c := get k consumed in Some (if 0 <? c then Z.max 0 (n - c) else n).

Definition unconsumed (sums consumed : gmap string Z) : gmap string Z := map_imap (less_consumed consumed) sums.

Definition long_window (e : Engine) (ctx : nat → bool) (ip : addr) (now : time) (w : duration) (kinds : list string) :
    sql (list Verdict) := λ W,
  match SumEventCounts ip kinds (HourBucket (now - w)) W with
  | (Err _, W) => (Ok [], W)
  | (Ok sums, W) =>
    let '(r, W) := ConsumedEventCounts ip w now W in
    let sums := unconsumed sums (match r with Ok c => c | Err _ => ∅ end) in
    let total := map_sum (λ _ n, n) sums in
    (Ok (if total =? 0 then [] else Evaluate e ctx (MkAggregate ip w total sums [])), W)
  end.

Fixpoint long_windows (e : Engine) (ctx : nat → bool) (ip : addr) (now : time) (ws : list (duration * list string)) :
    sql (list Verdict) :=
  match ws with
  | [] => mret []
  | (w, kinds) :: ws =>
    vs ← long_window e ctx ip now w kinds;
    rest ← long_windows e ctx ip now ws;
    mret (vs ++ rest)
  end.

Definition evaluateLongRules (e : Engine) (ctx : nat → bool) (ip : addr) (now : time) : sql (list Verdict) :=
  long_windows e ctx ip now (map_to_list (KindsForLongWindows e)).

(** ** Hours and rows *)
Lemma HourBucket_eq t : HourBucket t = 3600 * (t `div` Hour).
Proof.
  unfold HourBucket, time_truncate, Unix. rewrite decide_False by (vm_compute; congruence).
  replace (t + unixToInternal * Second) with (t + 17259888 * Hour) by (unfold unixToInternal, Hour, Minute; lia).
  rewrite Z.mod_add by (vm_compute; congruence).
  replace (t - t `mod` Hour) with (3600 * (t `div` Hour) * Second); [by apply Z.div_mul|].
  pose proof (Z.div_mod t Hour ltac:(vm_compute; congruence)) as E. unfold Hour, Minute, Second in *. lia.
Qed.

Lemma HourBucket_mono t u : t <= u → HourBucket t <= HourBucket u.
Proof. intros H. rewrite !HourBucket_eq. pose proof (Z.div_le_mono t u Hour ltac:(vm_compute; congruence) H). lia. Qed.

Lemma HourBucket_Unix t : HourBucket t <= Unix t.
Proof.
  rewrite HourBucket_eq. unfold Unix. apply Z.div_le_lower_bound; [vm_compute; congruence|].
  pose proof (Z.mul_div_le t Hour ltac:(vm_compute; congruence)). unfold Hour, Minute, Second in *. lia.
Qed.

Lemma partial_alter_count (key : addr * string * Z) (m : gmap (addr * string * Z) Z) :
  partial_alter (λ n, Some (default 0 n + 1)) key m = <[key := get key m + 1]> m.
Proof.
  apply map_eq. intros j. destruct (decide (j = key)) as [->|Hj].
  - by rewrite lookup_partial_alter_eq, lookup_insert_eq.
  - by rewrite lookup_partial_alter_ne, lookup_insert_ne by congruence.
Qed.

Lemma row_of_true ip k since key : row_of ip k since key = true ↔ key.1 = (ip, k) ∧ since <= key.2.
Proof. unfold row_of. rewrite andb_true_iff, bool_decide_eq_true, Z.leb_le. done. Qed.

Lemma sum_kind_no_rows ip k since d : has_rows ip k since d = false → sum_kind ip k since d = 0.
Proof.
  unfold has_rows, sum_kind. intros Hf. rewrite existsb_false_elem in Hf.
  apply map_sum_zero. intros key n Hk. rewrite (Hf key); [done|]. apply list_elem_of_fmap. exists (key, n). split; [done|]. by apply elem_of_map_to_list.
Qed.

(** ** A history of the counters

    The event log an ideal counter would keep, next to the tables. *)
Inductive ev_step :=
| EIncr (ip : addr) (kind : string) (bucket : Z)
| EPrune (before : Z)
| EConsume (ip : addr) (ws : rule_windows) (now : time)
| EOther (c : call).

Definition run_step (s : ev_step) : sql unit :=
  match s with
  | EIncr ip kind b => IncrEventCount ip kind b
  | EPrune before => ignore (PruneEventCounts before)
  | EConsume ip ws now => ConsumeEventCounts ip ws now
  | EOther c => run_call c
  end.

Definition logged (s : ev_step) (r : result store_error unit) : list (addr * string * Z) :=
  match s, r with EIncr ip kind b, Ok _ => [(Unmap ip, kind, b)] | _, _ => [] end.

(** Each step with the driver's outcomes: the tables and the log it leaves. *)
Fixpoint run_events (hs : list (ev_step * list bool)) (d : db) : db * list (addr * string * Z) :=
  match hs with
  | [] => (d, [])
  | (s, o) :: hs =>
    let '(r, W) := run_step s (MkWorld d o) in
    let '(d', log) := run_events hs (tables W) in (d', logged s r ++ log)
  end.

Definition log_count (P : string → bool) (ip : addr) (since : Z) (log : list (addr * string * Z)) : Z :=
  Z.of_nat (length (List.filter (λ x, bool_decide (x.1.1 = ip) && P x.1.2 && (since <=? x.2)) log)).

Definition is_kind (k : string) (k' : string) : bool := bool_decide (k' = k).

(** Nothing is pruned inside a window that starts at [since]. *)
Definition spares (since : Z) (s : ev_step) : Prop :=
  match s with EPrune before => before <= since | _ => True end.

(** *** What each step does to the counters *)
Definition keeps_events (d d' : db) : Prop := events_agg d' = events_agg d ∧ events_consumed d' = events_consumed d.
#[export] Instance keeps_events_refl : Reflexive keeps_events. Proof. by intros d. Qed.
#[export] Instance keeps_events_trans : Transitive keeps_events.
Proof. intros a b c [H1 H2] [H3 H4]. split; congruence. Qed.

Lemma keeps_events_fold {A} (f : A → bool) (g : A → db → db) (l : list A) d :
  (∀ x d, keeps_events d (g x d)) → keeps_events d (fold_left (λ d x, if f x then g x d else d) l d).
Proof.
  intros Hg. revert d. induction l as [|x l IH]; intros d; simpl; [reflexivity|].
  etransitivity; [|apply IH]. destruct (f x); [apply Hg|reflexivity].
Qed.

#[export] Hint Extern 2 (Keeps keeps_events (exec _)) =>
  apply keeps_exec; [apply _|apply _|by intros ?] : typeclass_instances.

#[export] Instance events_unban_each now r ips : Keeps keeps_events (unban_each now r ips).
Proof. induction ips; simpl; apply _. Qed.
#[export] Instance events_UnbanCovered now p r : Keeps keeps_events (UnbanCovered now p r).
Proof. apply keeps_bind; [apply _..|]. intros [|ip ips]; apply _. Qed.
#[export] Instance events_ExpireBans now : Keeps keeps_events (ExpireBans now).
Proof.
  apply keeps_bind; [apply _| |intros; apply _]. apply keeps_exec; [apply _..|].
  intros d. by apply keeps_events_fold.
Qed.
#[export] Instance events_ExpireAllows now : Keeps keeps_events (ExpireAllows now).
Proof.
  apply keeps_bind; [apply _| |intros; apply _]. apply keeps_exec; [apply _..|].
  intros d. by apply keeps_events_fold.
Qed.
#[export] Instance events_call c : Keeps keeps_events (run_call c).
Proof.
  destruct c; simpl; unfold ignore, RecordStrike, RecordSuppressed, MarkBanIneffective, BumpLastSeen,
    Unban, UnbanAll, RecordManualBan, Audit, AuditOp, AuditSystem, AddAllow, RemoveAllow, SetState, DeleteState,
    RecordUsage; apply _.
Qed.

(** *** The counters against the log *)
Definition same_sums (since : Z) (d d' : db) : Prop := ∀ ip k, sum_kind ip k since d' = sum_kind ip k since d.
#[export] Instance same_sums_refl since : Reflexive (same_sums since). Proof. by intros d ip k. Qed.
#[export] Instance same_sums_trans since : Transitive (same_sums since).
Proof. intros a b c H1 H2 ip k. by rewrite H2, H1. Qed.

Lemma same_sums_agg since d d' : events_agg d' = events_agg d → same_sums since d d'.
Proof. intros H ip k. unfold sum_kind. by rewrite H. Qed.

Lemma same_sums_prune since before d : before <= since →
  same_sums since d (on_events_agg (filter (λ kv, before <= kv.1.2)) d).
Proof.
  intros Hb ip k. unfold sum_kind. simpl. rewrite map_sum_filter. apply map_sum_ext. intros key n _. simpl.
  case_decide; [done|]. destruct (row_of ip k since key) eqn:E; [|done]. apply row_of_true in E as [_ ?]. lia.
Qed.

Lemma exec_cases f W : (∃ o, exec f W = (Ok tt, MkWorld (f (tables W)) o)) ∨
                       (∃ o, exec f W = (Err ESql, MkWorld (tables W) o)).
Proof.
  unfold exec, mbind, sql_mbind. destruct (driver_cases W) as [[o ->]|[o ->]]; [left|right]; by exists o.
Qed.

#[export] Instance sums_Prune since before : before <= since → Keeps (same_sums since) (PruneEventCounts before).
Proof.
  intros Hb. unfold PruneEventCounts. apply keeps_bind; [apply _| |].
  { apply keeps_exec; [apply _..|]. intros d. by apply same_sums_agg. }
  intros _. apply keeps_bind; [apply _..|]. intros n. apply keeps_bind; [apply _| |intros; apply _].
  apply keeps_exec; [apply _..|]. intros d. by apply same_sums_prune.
Qed.

(** A read leaves every table. *)
#[export] Instance keeps_Sum (R : relation db) `{!Reflexive R, !Transitive R} ip kinds since : Keeps R (SumEventCounts ip kinds since).
Proof. destruct kinds; simpl; apply _. Qed.
#[export] Instance keeps_read_windows (R : relation db) `{!Reflexive R, !Transitive R} ip now ws : Keeps R (read_windows ip now ws).
Proof. induction ws as [|[w kinds] ws IH]; simpl; apply _. Qed.

Lemma keeps_watermarks (R : relation db) `{!Reflexive R, !Transitive R} ip now xs :
  (∀ x d, x ∈ xs → R d (set_watermark ip now x d)) → Keeps R (write_watermarks ip now xs).
Proof.
  induction xs as [|x xs IH]; simpl; intros H; [apply _|]. apply keeps_bind; [apply _| |].
  - apply keeps_exec; [apply _..|]. intros d. apply H. by left.
  - intros _. apply IH. intros y d Hy. apply H. by right.
Qed.

#[export] Instance sums_Consume since ip ws now : Keeps (same_sums since) (ConsumeEventCounts ip ws now).
Proof.
  unfold ConsumeEventCounts. apply keeps_bind; [apply _..|]. intros xs. apply keeps_tx; [apply _..|].
  apply keeps_watermarks; [apply _..|]. intros x d _. by apply same_sums_agg.
Qed.

Lemma sums_other since c : Keeps (same_sums since) (run_call c).
Proof. intros W. apply same_sums_agg. by destruct (events_call c W). Qed.

Lemma sum_incr ip k since key d :
  sum_kind ip k since (on_events_agg (partial_alter (λ n, Some (default 0 n + 1)) key) d) =
  sum_kind ip k since d + (if row_of ip k since key then 1 else 0).
Proof.
  unfold sum_kind. simpl. rewrite partial_alter_count, map_sum_insert. unfold get.
  destruct (row_of ip k since key); destruct (events_agg d !! key); simpl; lia.
Qed.

Lemma log_count_app P ip since l l' : log_count P ip since (l ++ l') = log_count P ip since l + log_count P ip since l'.
Proof. unfold log_count. rewrite List.filter_app, length_app. lia. Qed.

Lemma log_count_one ip k since key :
  log_count (is_kind k) ip since [key] = if row_of ip k since key then 1 else 0.
Proof.
  destruct key as [[jp kind] b]. unfold log_count, row_of, is_kind. simpl.
  assert (bool_decide ((jp, kind) = (ip, k)) = bool_decide (jp = ip) && bool_decide (kind = k)) as ->.
  { repeat case_bool_decide; naive_solver. }
  by destruct (bool_decide (jp = ip)), (bool_decide (kind = k)), (since <=? b).
Qed.

Lemma step_sums ip k since s W : spares since s →
  sum_kind ip k since (tables (run_step s W).2) =
  sum_kind ip k since (tables W) + log_count (is_kind k) ip since (logged s (run_step s W).1).
Proof.
  intros Hs. destruct s as [jp kind b|before|jp ws now|c].
  - simpl. unfold IncrEventCount. destruct (exec_cases (on_events_agg (partial_alter (λ n, Some (default 0 n + 1)) (Unmap jp, kind, b))) W)
      as [[o ->]|[o ->]]; cbn [fst snd tables logged].
    + by rewrite sum_incr, log_count_one.
    + unfold log_count. simpl. lia.
  - assert (Keeps (same_sums since) (ignore (PruneEventCounts before))) as Hk.
    { unfold ignore. apply keeps_bind; [apply _|by apply sums_Prune|intros; apply _]. }
    simpl run_step. rewrite (Hk W). unfold log_count. simpl. lia.
  - simpl run_step. rewrite (keeps (R := same_sums since) (m := ConsumeEventCounts jp ws now) W). unfold log_count. simpl. lia.
  - simpl. rewrite (sums_other since c W). unfold log_count. simpl. lia.
Qed.

Lemma run_sums ip k since hs d : Forall (λ h, spares since h.1) hs →
  sum_kind ip k since (run_events hs d).1 = sum_kind ip k since d + log_count (is_kind k) ip since (run_events hs d).2.
Proof.
  intros Hs. revert d. induction Hs as [|[s o] hs Hs _ IH]; intros d; simpl; [unfold log_count; simpl; lia|].
  pose proof (step_sums ip k since s (MkWorld d o) Hs) as Hstep.
  destruct (run_step s (MkWorld d o)) as [r W]. specialize (IH (tables W)).
  destruct (run_events hs (tables W)) as [d' log]. cbn [fst snd] in *. rewrite log_count_app, IH, Hstep. cbn [tables]. lia.
Qed.

(** *** Lookups in the query results *)
Lemma lookup_tagged {V} (g : string → V) (l : list string) k :
  (list_to_map ((λ k, (k, g k)) <$> l) : gmap string V) !! k = if decide (k ∈ l) then Some (g k) else None.
Proof.
  induction l as [|j l IH]; [|rewrite fmap_cons, list_to_map_cons].
  { done. }
  destruct (decide (j = k)) as [->|Hj].
  - rewrite lookup_insert_eq. clear IH. case_decide as H; [done|]. destruct H. apply elem_of_cons. by left.
  - rewrite lookup_insert_ne, IH by done. destruct (decide (k ∈ l)) as [Hk|Hk]; case_decide as H; try done.
    + destruct H. apply elem_of_cons. by right.
    + apply elem_of_cons in H as [?|?]; congruence.
Qed.

Lemma group_sums_lookup ip kinds since d k n : group_sums ip kinds since d !! k = Some n →
  k ∈ kinds ∧ n = sum_kind ip k since d.
Proof.
  unfold group_sums. rewrite lookup_tagged. case_decide as Hk; [|done]. intros [= <-]. split; [|done].
  apply list_elem_of_In, filter_In in Hk as [Hk _]. by apply list_elem_of_In.
Qed.

Lemma group_sums_get ip kinds since d k : k ∈ kinds → get k (group_sums ip kinds since d) = sum_kind ip k since d.
Proof.
  intros Hk. unfold get, group_sums. rewrite lookup_tagged. case_decide as Hf; [done|]. simpl. symmetry.
  apply sum_kind_no_rows. destruct (has_rows ip k since d) eqn:E; [|done]. destruct Hf.
  apply list_elem_of_In, filter_In. split; [by apply list_elem_of_In|done].
Qed.

Lemma consumed_rows_lookup ip w now d k : consumed_rows ip w now d !! k =
  match events_consumed d !! (ip, Z.quot w Second, k) with
  | Some v => if HourBucket (now - w) <=? v.2 then Some v.1 else None
  | None => None
  end.
Proof.
  unfold consumed_rows. set (f := λ kv : addr * Z * string * (Z * Z), if watermark_of ip w now kv.1 kv.2 then Some (kv.1.2, kv.2.1) else None).
  assert (∀ j n, (j, n) ∈ omap f (map_to_list (events_consumed d)) ↔
    ∃ v, events_consumed d !! (ip, Z.quot w Second, j) = Some v ∧ HourBucket (now - w) <= v.2 ∧ n = v.1) as Hf.
  { intros j n. rewrite list_elem_of_omap. split.
    - intros ([[key j'] v] & Hin%elem_of_map_to_list & Hfv). unfold f, watermark_of in Hfv. simpl in Hfv.
      destruct (_ && _) eqn:E; [|done]. injection Hfv as -> <-. bool_hyps. subst key. eauto.
    - intros (v & Hv & Hle & ->). exists ((ip, Z.quot w Second, j), v). split; [by apply elem_of_map_to_list|].
      unfold f, watermark_of. simpl. rewrite bool_decide_true by done. simpl. by rewrite (proj2 (Z.leb_le _ _) Hle). }
  assert (∀ l : list (addr * Z * string * (Z * Z)), NoDup l.*1 → NoDup (omap f l).*1) as Hnd.
  { induction l as [|[key v] l IH]; csimpl; intros Hl; [constructor|]. apply NoDup_cons in Hl as [Hk Hl].
    destruct (f (key, v)) as [[j n]|] eqn:E; csimpl; [|by apply IH]. constructor; [|by apply IH].
    intros ([j' n'] & Hj & Hin)%list_elem_of_fmap. simpl in Hj. subst j'. apply list_elem_of_omap in Hin as ([key' v'] & Hin & E').
    apply Hk. unfold f, watermark_of in E, E'. simpl in *. destruct (bool_decide _ && _) eqn:B; [|done].
    destruct (bool_decide (key'.1 = _) && _) eqn:B'; [|done]. simplify_eq. bool_hyps.
    destruct key as [pk k1], key' as [pk' k2]. simpl in *. subst. apply list_elem_of_fmap. eexists. split; [|exact Hin]. done. }
  apply option_eq. intros n. rewrite <- elem_of_list_to_map by (apply Hnd, NoDup_fst_map_to_list). rewrite Hf.
  destruct (events_consumed d !! _) as [v|]; [|by split; [intros (? & ? & _)|]].
  destruct (Z.leb_spec (HourBucket (now - w)) v.2); split.
  - by intros (? & [= <-] & _ & ->).
  - intros [= <-]. eauto.
  - intros (? & [= <-] & ? & _). lia.
  - done.
Qed.

(** *** What a strike consumes *)
#[export] Instance does_Sum ip kinds since :
  Does (SumEventCounts ip kinds since) id (λ d, match kinds with [] => ∅ | _ => group_sums (Unmap ip) kinds since d end).
Proof. destruct kinds; apply _. Qed.

Definition taken (ip : addr) (now : time) (ws : list (duration * list string)) (d : db) : list (duration * string * Z) :=
  flat_map (λ wk, (λ k, (wk.1, k, sum_kind ip k (HourBucket (now - wk.1)) d)) <$> wk.2) ws.

Lemma does_read_windows ip now ws : Does (read_windows ip now ws) id (taken (Unmap ip) now ws).
Proof.
  induction ws as [|[w kinds] ws IH]; simpl; [apply _|]. eapply does_eq; [apply _|done|]. intros d. simpl. unfold id. f_equal.
  apply list_fmap_ext. intros i k Hk. f_equal. apply list_elem_of_lookup_2 in Hk.
  destruct kinds as [|k0 kinds]; [by apply elem_of_nil in Hk|]. by apply group_sums_get.
Qed.

Lemma does_watermarks ip now xs :
  Does (write_watermarks ip now xs) (λ d, fold_left (λ d x, set_watermark ip now x d) xs d) (λ _, tt).
Proof. induction xs as [|x xs IH]; simpl; [apply _|]. eapply does_eq; [apply _|done..]. Qed.

Definition mark (now : time) (n : Z) : option (Z * Z) := if n =? 0 then None else Some (n, Unix now).

Lemma set_watermark_lookup ip now x d key : events_consumed (set_watermark ip now x d) !! key =
  if decide (key = consumed_key ip x.1.1 x.1.2) then mark now x.2 else events_consumed d !! key.
Proof.
  unfold set_watermark, mark. simpl. case_decide as Hk; destruct (x.2 =? 0).
  - by rewrite Hk, lookup_delete_eq.
  - by rewrite Hk, lookup_insert_eq.
  - by rewrite lookup_delete_ne by congruence.
  - by rewrite lookup_insert_ne by congruence.
Qed.

Lemma watermarks_lookup ip now xs d x : x ∈ xs →
  (∀ y, y ∈ xs → consumed_key ip y.1.1 y.1.2 = consumed_key ip x.1.1 x.1.2 → y.2 = x.2) →
  events_consumed (fold_left (λ d x, set_watermark ip now x d) xs d) !! consumed_key ip x.1.1 x.1.2 = mark now x.2.
Proof.
  induction xs as [|y xs IH] using rev_ind; intros Hx Hy; [by apply elem_of_nil in Hx|].
  rewrite fold_left_app. cbn [fold_left]. rewrite set_watermark_lookup. case_decide as Hk.
  - rewrite (Hy y); [done| |done]. apply elem_of_app. right. by apply list_elem_of_singleton.
  - apply IH.
    + apply elem_of_app in Hx as [?|Hx]; [done|]. apply list_elem_of_singleton in Hx. by subst.
    + intros z Hz. apply Hy. apply elem_of_app. by left.
Qed.

(** Windows of whole seconds have rows of their own. *)
Definition whole_seconds (ws : rule_windows) : Prop := ∀ w, is_Some (ws !! w) → w `mod` Second = 0.

Lemma whole_quot w w' : w `mod` Second = 0 → w' `mod` Second = 0 → Z.quot w Second = Z.quot w' Second → w = w'.
Proof.
  intros H H' Hq. assert (∀ z, z `mod` Second = 0 → z = Second * Z.quot z Second) as Hz; [|rewrite (Hz w), (Hz w'), Hq by done; done].
  intros z Hz. apply Z.rem_mod_eq_0 in Hz; [|done]. pose proof (Z.quot_rem z Second ltac:(done)). lia.
Qed.

Lemma consumed_after ip ws now W W' w kinds k :
  whole_seconds ws → ws !! w = Some kinds → k ∈ kinds →
  ConsumeEventCounts ip ws now W = (Ok tt, W') →
  events_consumed (tables W') !! consumed_key (Unmap ip) w k =
    mark now (sum_kind (Unmap ip) k (HourBucket (now - w)) (tables W)).
Proof.
  intros Hs Hw Hk HC.
  assert (Does (ConsumeEventCounts ip ws now)
    (λ d, fold_left (λ d x, set_watermark (Unmap ip) now x d) (taken (Unmap ip) now (map_to_list ws) d) d) (λ _, tt)) as HD.
  { unfold ConsumeEventCounts. eapply does_eq; [eapply does_bind; [apply does_read_windows|intros xs; eapply does_tx, does_watermarks]| |done].
    intros d. simpl. by rewrite Unmap_idemp. }
  apply HD in HC as [-> _].
  assert (∀ y, y ∈ taken (Unmap ip) now (map_to_list ws) (tables W) →
    is_Some (ws !! y.1.1) ∧ y.2 = sum_kind (Unmap ip) y.1.2 (HourBucket (now - y.1.1)) (tables W)) as Ht.
  { intros y Hy. unfold taken in Hy. apply list_elem_of_In, in_flat_map in Hy as ([w' ks] & Hw' & Hy).
    apply list_elem_of_In, elem_of_map_to_list in Hw'. apply list_elem_of_In, list_elem_of_fmap in Hy as (k' & -> & _). simpl. eauto. }
  apply (watermarks_lookup (Unmap ip) now _ _ (w, k, sum_kind (Unmap ip) k (HourBucket (now - w)) (tables W))).
  - unfold taken. apply list_elem_of_In, in_flat_map. exists (w, kinds). split.
    + by apply list_elem_of_In, elem_of_map_to_list.
    + apply list_elem_of_In, list_elem_of_fmap. by exists k.
  - intros y Hy Hkey. destruct (Ht y Hy) as [Hsome ->]. simpl in *. unfold consumed_key in Hkey. injection Hkey as Hq Hkk.
    apply whole_quot in Hq; [by rewrite Hq, Hkk|apply Hs; done|apply Hs; by eexists].
Qed.

(** *** Counters before the strike *)
Definition sound (ip : addr) (T : Z) (d : db) : Prop :=
  (∀ key n, events_agg d !! key = Some n → 0 <= n) ∧ ∀ k b n, events_agg d !! (ip, k, b) = Some n → b <= T.

(** The events of [ip] come from clock readings up to [T]. *)
Definition happened_by (ip : addr) (T : Z) (s : ev_step) : Prop :=
  match s with EIncr jp _ b => Unmap jp = ip → b <= T | _ => True end.

Definition keeps_sound (ip : addr) (T : Z) (d d' : db) : Prop := sound ip T d → sound ip T d'.
#[export] Instance keeps_sound_refl ip T : Reflexive (keeps_sound ip T). Proof. by intros d H. Qed.
#[export] Instance keeps_sound_trans ip T : Transitive (keeps_sound ip T).
Proof. intros a b c H1 H2 H. by apply H2, H1. Qed.

Lemma keeps_sound_agg ip T d d' : events_agg d' = events_agg d → keeps_sound ip T d d'.
Proof. intros H. unfold keeps_sound, sound. by rewrite H. Qed.

Lemma keeps_sound_prune ip T before d : keeps_sound ip T d (on_events_agg (filter (λ kv, before <= kv.1.2)) d).
Proof.
  intros [H1 H2]. split; simpl.
  - intros key n [? _]%map_lookup_filter_Some. eauto.
  - intros k b n [? _]%map_lookup_filter_Some. eauto.
Qed.

Lemma step_sound ip T s W : happened_by ip T s → keeps_sound ip T (tables W) (tables (run_step s W).2).
Proof.
  intros Hs. destruct s as [jp kind b|before|jp ws now|c]; simpl.
  - unfold IncrEventCount. destruct (exec_cases (on_events_agg (partial_alter (λ n, Some (default 0 n + 1)) (Unmap jp, kind, b))) W)
      as [[o ->]|[o ->]]; cbn [fst snd tables]; [|done]. intros [H1 H2]. unfold sound. simpl. rewrite partial_alter_count. split.
    + intros key n. rewrite lookup_insert. case_decide; [|by apply H1]. intros [= <-]. unfold get.
      destruct (events_agg (tables W) !! _) as [m|] eqn:E; simpl; [|lia]. apply H1 in E. lia.
    + intros k b' n. rewrite lookup_insert. case_decide as Hk; [|by apply H2]. intros _. injection Hk as Hip -> <-. by apply Hs.
  - unfold ignore, PruneEventCounts. refine (keeps (R := keeps_sound ip T) W). apply keeps_bind; [apply _| |intros; apply _].
    apply keeps_bind; [apply _| |].
    { apply keeps_exec; [apply _..|]. intros d. by apply keeps_sound_agg. }
    intros _. apply keeps_bind; [apply _..|]. intros n. apply keeps_bind; [apply _| |intros; apply _].
    apply keeps_exec; [apply _..|]. intros d. apply keeps_sound_prune.
  - unfold ConsumeEventCounts. refine (keeps (R := keeps_sound ip T) W). apply keeps_bind; [apply _..|]. intros xs.
    apply keeps_tx; [apply _..|]. apply keeps_watermarks; [apply _..|]. intros x d _. by apply keeps_sound_agg.
  - apply keeps_sound_agg. by destruct (events_call c W).
Qed.

Lemma run_sound ip T hs d : Forall (λ h, happened_by ip T h.1) hs → sound ip T d → sound ip T (run_events hs d).1.
Proof.
  intros Hs. revert d. induction Hs as [|[s o] hs Hs _ IH]; intros d Hd; simpl; [done|].
  pose proof (step_sound ip T s (MkWorld d o) Hs Hd) as Hstep.
  destruct (run_step s (MkWorld d o)) as [r W]. specialize (IH _ Hstep). cbn [snd] in IH.
  by destruct (run_events hs (tables W)) as [d' log].
Qed.

Lemma sum_kind_mono ip k s s' jp T d : sound jp T d → s <= s' → 0 <= sum_kind ip k s' d <= sum_kind ip k s d.
Proof.
  intros [Hn _] Hs. unfold sum_kind. split.
  - transitivity (map_sum (λ (_ : addr * string * Z) (_ : Z), 0) (events_agg d)).
    + by rewrite map_sum_zero.
    + apply map_sum_le. intros key n Hk. apply Hn in Hk. by case_match.
  - apply map_sum_le. intros key n Hk. apply Hn in Hk. destruct (row_of ip k s' key) eqn:E.
    + apply row_of_true in E as [? ?]. assert (row_of ip k s key = true) as -> by (apply row_of_true; split; [done|lia]). done.
    + by case_match.
Qed.

Lemma sum_kind_aged ip k since T d : sound ip T d → T < since → sum_kind ip k since d = 0.
Proof.
  intros [_ Hb] Hs. unfold sum_kind. apply map_sum_zero. intros [[jp j] b] n Hk. destruct (row_of ip k since (jp, j, b)) eqn:E; [|done]. apply row_of_true in E as [E ?]. simpl in *.
    injection E as -> ->. apply Hb in Hk. lia.
Qed.

(** *** The watermark stays until its window has passed *)
Definition other (ip : addr) (s : ev_step) : Prop :=
  match s with EConsume jp _ _ => Unmap jp ≠ ip | _ => True end.

Definition keeps_mark (key : addr * Z * string) (v : Z * Z) (d d' : db) : Prop :=
  events_consumed d !! key = Some v → events_consumed d' !! key = Some v.
#[export] Instance keeps_mark_refl key v : Reflexive (keeps_mark key v). Proof. by intros d H. Qed.
#[export] Instance keeps_mark_trans key v : Transitive (keeps_mark key v).
Proof. intros a b c H1 H2 H. by apply H2, H1. Qed.

Lemma keeps_mark_same key v d d' : events_consumed d' = events_consumed d → keeps_mark key v d d'.
Proof. intros H. unfold keeps_mark. by rewrite H. Qed.

Lemma step_mark ip sec k v s W : other ip s → spares v.2 s →
  keeps_mark (ip, sec, k) v (tables W) (tables (run_step s W).2).
Proof.
  intros Ho Hs. refine (keeps (R := keeps_mark (ip, sec, k) v) W). destruct s as [jp kind b|before|jp ws now|c]; simpl in *.
  - apply keeps_exec; [apply _..|]. intros d. by apply keeps_mark_same.
  - unfold ignore, PruneEventCounts. apply keeps_bind; [apply _| |intros; apply _].
    apply keeps_bind; [apply _| |].
    { apply keeps_exec; [apply _..|]. intros d Hd. simpl. by apply map_lookup_filter_Some. }
    intros _. apply keeps_bind; [apply _..|]. intros n. apply keeps_bind; [apply _| |intros; apply _].
    apply keeps_exec; [apply _..|]. intros d. by apply keeps_mark_same.
  - unfold ConsumeEventCounts. apply keeps_bind; [apply _..|]. intros xs.
    apply keeps_tx; [apply _..|]. apply keeps_watermarks; [apply _..|]. intros x d _ Hd.
    rewrite set_watermark_lookup. rewrite decide_False; [done|]. unfold consumed_key. congruence.
  - intros w. apply keeps_mark_same. by destruct (events_call c w).
Qed.

Lemma run_mark ip sec k v hs d : Forall (λ h, other ip h.1 ∧ spares v.2 h.1) hs →
  events_consumed d !! (ip, sec, k) = Some v → events_consumed (run_events hs d).1 !! (ip, sec, k) = Some v.
Proof.
  intros Hs. revert d. induction Hs as [|[s o] hs [Ho Hs] _ IH]; intros d Hd; simpl; [done|].
  pose proof (step_mark ip sec k v s (MkWorld d o) Ho Hs Hd) as Hstep.
  destruct (run_step s (MkWorld d o)) as [r W]. specialize (IH _ Hstep). cbn [snd] in IH.
  by destruct (run_events hs (tables W)) as [d' log].
Qed.

(** ** Only new evidence counts *)
Lemma log_count_pos P ip since log : 0 <= log_count P ip since log.
Proof. unfold log_count. lia. Qed.

(** The counter of one kind, after subtraction, never exceeds the new events. *)
Lemma unconsumed_new ip ws t0 t w kinds k n d0 o W1 hs :
  let d2 := (run_events hs (tables W1)).1 in
  sound (Unmap ip) (Unix t0) d0 → whole_seconds ws → ws !! w = Some kinds → k ∈ kinds →
  ConsumeEventCounts ip ws t0 (MkWorld d0 o) = (Ok tt, W1) → t0 <= t →
  Forall (λ h, other (Unmap ip) h.1 ∧ spares (HourBucket (t - w)) h.1) hs →
  unconsumed (group_sums (Unmap ip) kinds (HourBucket (t - w)) d2) (consumed_rows (Unmap ip) w t d2) !! k = Some n →
  n <= log_count (is_kind k) (Unmap ip) (HourBucket (t - w)) (run_events hs (tables W1)).2.
Proof.
  intros d2 Hd0 Hws Hw Hk HC Ht Hhs Hn.
  unfold unconsumed in Hn. rewrite map_lookup_imap in Hn.
  destruct (group_sums _ _ _ d2 !! k) as [m|] eqn:Em; [|done]. simpl in Hn. unfold less_consumed in Hn. injection Hn as <-.
  apply group_sums_lookup in Em as [_ ->].
  assert (Forall (λ h, spares (HourBucket (t - w)) h.1) hs) as Hsp by (eapply Forall_impl; [exact Hhs|by intros h [_ ?]]).
  pose proof (run_sums (Unmap ip) k (HourBucket (t - w)) hs (tables W1) Hsp) as Hsum. fold d2 in Hsum.
  pose proof (keeps (R := same_sums (HourBucket (t - w))) (m := ConsumeEventCounts ip ws t0) (MkWorld d0 o)) as Hsame.
  rewrite HC in Hsame. cbn [snd tables] in Hsame. rewrite (Hsame (Unmap ip) k) in Hsum.
  pose proof (consumed_after ip ws t0 _ _ w kinds k Hws Hw Hk HC) as Hmark. cbn [tables] in Hmark.
  assert (HourBucket (t0 - w) <= HourBucket (t - w)) as Hb by (apply HourBucket_mono; lia).
  pose proof (sum_kind_mono (Unmap ip) k _ _ _ _ d0 Hd0 Hb) as Hold.
  set (new := log_count _ _ _ _) in *. assert (0 <= new) by apply log_count_pos. clearbody new.
  set (old := sum_kind (Unmap ip) k (HourBucket (t0 - w)) d0) in *.
  destruct (Z.le_gt_cases (HourBucket (t - w)) (Unix t0)) as [Hv|Hv].
  - unfold mark in Hmark. destruct (Z.eqb_spec old 0) as [H0|H0].
    + case_match; lia.
    + apply (run_mark (Unmap ip) _ k _ hs) in Hmark.
      2:{ eapply Forall_impl; [exact Hhs|]. intros h [? Hsh]. split; [done|]. destruct (h.1); simpl in *; try done; lia. }
      fold d2 in Hmark. unfold get. rewrite consumed_rows_lookup. unfold consumed_key in Hmark. rewrite Hmark. cbn [fst snd].
      rewrite (proj2 (Z.leb_le _ _) Hv). simpl. destruct (0 <? old) eqn:E; bool_hyps; lia.
  - rewrite (sum_kind_aged (Unmap ip) k (HourBucket (t - w)) (Unix t0) d0) in Hsum by done. case_match; bool_hyps; lia.
Qed.

Lemma log_count_split P Q R ip since log :
  (∀ k, P k = true → Q k = false ∧ R k = true) → (∀ k, Q k = true → R k = true) →
  log_count P ip since log + log_count Q ip since log <= log_count R ip since log.
Proof.
  intros HP HQ. induction log as [|x log IH]; [done|].
  change (x :: log) with ([x] ++ log). rewrite !log_count_app. set (a := log_count P ip since log) in *.
  set (b := log_count Q ip since log) in *. set (c := log_count R ip since log) in *. clearbody a b c.
  unfold log_count. simpl. destruct (bool_decide (x.1.1 = ip)); simpl; [|lia].
  destruct (P x.1.2) eqn:E1, (Q x.1.2) eqn:E2, (R x.1.2) eqn:E3; destruct (since <=? x.2); simpl; try lia;
    exfalso; (apply HP in E1 || apply HQ in E2); naive_solver congruence.
Qed.

(** A sum over counters that each count new events of their kind counts new events. *)
Lemma map_sum_new (P : string → bool) ip since log (m : gmap string Z) :
  (∀ k n, m !! k = Some n → P k = true → n <= log_count (is_kind k) ip since log) →
  map_sum (λ k n, if P k then n else 0) m <= log_count P ip since log.
Proof.
  intros Hm. transitivity (log_count (λ k, P k && bool_decide (is_Some (m !! k))) ip since log).
  - revert Hm. induction m as [|k n m Hk IH] using map_ind; intros Hm; [rewrite map_sum_empty; apply log_count_pos|].
    rewrite map_sum_insert_new by done.
    assert (map_sum (λ k n, if P k then n else 0) m <= log_count (λ j, P j && bool_decide (is_Some (m !! j))) ip since log) as IH'.
    { apply IH. intros j x Hj. apply Hm. rewrite lookup_insert_ne; [done|congruence]. }
    destruct (P k) eqn:EP.
    + pose proof (Hm k n (lookup_insert_eq _ _ _) EP) as Hn. etransitivity; [apply Z.add_le_mono; [exact Hn|exact IH']|].
      apply log_count_split; intros j; unfold is_kind.
      * intros ->%bool_decide_eq_true. rewrite EP, Hk, lookup_insert_eq. simpl. by split.
      * rewrite !andb_true_iff, !bool_decide_eq_true. intros [-> Hj]. split; [done|]. destruct (decide (j = k)) as [->|];
          [by rewrite lookup_insert_eq|by rewrite lookup_insert_ne].
    + etransitivity; [|apply (log_count_split (λ _, false) (λ j, P j && bool_decide (is_Some (m !! j))))].
      * pose proof (log_count_pos (λ _, false) ip since log). lia.
      * done.
      * intros j. rewrite !andb_true_iff, !bool_decide_eq_true. intros [-> Hj]. split; [done|]. destruct (decide (j = k)) as [->|];
          [by rewrite lookup_insert_eq|by rewrite lookup_insert_ne].
  - pose proof (log_count_split (λ _, false) (λ k, P k && bool_decide (is_Some (m !! k))) P ip since log ltac:(done)) as H.
    pose proof (log_count_pos (λ _, false) ip since log). assert (∀ k, P k && bool_decide (is_Some (m !! k)) = true → P k = true) as HP;
      [by intros k [? _]%andb_true_iff|]. specialize (H HP). lia.
Qed.

Lemma counter_kinds_count r agg (P := λ k, bool_decide (k ∈ counter_kinds_of r)) ip since log :
  Sample agg = [] → (∀ k n, Kinds agg !! k = Some n → P k = true → n <= log_count (is_kind k) ip since log) →
  countMatches r agg <= log_count P ip since log.
Proof.
  intros Hs Hm. unfold countMatches. unfold P, counter_kinds_of, nonempty in *. case_bool_decide as Hf; simpl in *.
  - apply map_sum_new. exact Hm.
  - rewrite Hs. simpl. destruct (Kinds agg !! LongCounterKind (Name r)) as [n|] eqn:E; [|apply log_count_pos].
    etransitivity; [apply (Hm _ _ E), bool_decide_eq_true; by left|].
    pose proof (log_count_split (λ _, false) (is_kind (LongCounterKind (Name r))) (λ k, bool_decide (k ∈ [LongCounterKind (Name r)])) ip since log ltac:(done)) as H.
    pose proof (log_count_pos (λ _, false) ip since log). assert (∀ k, is_kind (LongCounterKind (Name r)) k = true → bool_decide (k ∈ [LongCounterKind (Name r)]) = true) as HP.
    { intros k ->%bool_decide_eq_true. apply bool_decide_eq_true. by left. }
    specialize (H HP). lia.
Qed.

Lemma evaluate_elem e ctx agg v : v ∈ Evaluate e ctx agg →
  ∃ r, r ∈ rules e ∧ rWindow r = Window agg ∧ applyRule r agg = Some v ∧ Threshold r <= countMatches r agg.
Proof.
  intros Hv. unfold Evaluate in Hv. destruct (evaluate_rules_prefix ctx 0 (rules e) agg) as [l Hl].
  assert (v ∈ omap (λ r, if rWindow r =? Window agg then applyRule r agg else None) (rules e)) as Ho.
  { rewrite Hl. apply elem_of_app. by left. }
  apply list_elem_of_omap in Ho as (r & Hr & Hf). exists r. destruct (rWindow r =? Window agg) eqn:E; [|done]. bool_hyps.
  split; [done|]. split; [done|]. split; [done|]. unfold applyRule in Hf. destruct (countMatches r agg <? Threshold r) eqn:El; [done|]. by bool_hyps.
Qed.

Lemma long_windows_elem e ctx ip now ws d vs d' v : long_windows e ctx ip now ws (MkWorld d []) = (Ok vs, d') → v ∈ vs →
  ∃ w kinds, (w, kinds) ∈ ws ∧ kinds ≠ [] ∧
    v ∈ Evaluate e ctx (MkAggregate ip w
      (map_sum (λ _ n, n) (unconsumed (group_sums (Unmap ip) kinds (HourBucket (now - w)) d) (consumed_rows (Unmap ip) w now d)))
      (unconsumed (group_sums (Unmap ip) kinds (HourBucket (now - w)) d) (consumed_rows (Unmap ip) w now d)) []).
Proof.
  revert vs d'. induction ws as [|[w kinds] ws IH]; intros vs d'; simpl.
  { intros [= <- _] Hv. by apply elem_of_nil in Hv. }
  unfold mbind, sql_mbind. assert (∃ vs1, long_window e ctx ip now w kinds (MkWorld d []) = (Ok vs1, MkWorld d []) ∧
    (v ∈ vs1 → kinds ≠ [] ∧ v ∈ Evaluate e ctx (MkAggregate ip w
      (map_sum (λ _ n, n) (unconsumed (group_sums (Unmap ip) kinds (HourBucket (now - w)) d) (consumed_rows (Unmap ip) w now d)))
      (unconsumed (group_sums (Unmap ip) kinds (HourBucket (now - w)) d) (consumed_rows (Unmap ip) w now d)) []))) as (vs1 & -> & Hvs1).
  { unfold long_window, SumEventCounts, ConsumedEventCounts, query, mbind, sql_mbind, mret, sql_mret, driver, read.
    destruct kinds as [|k0 kinds]; cbn [faults tables]; eexists; (split; [done|]).
    - unfold unconsumed. rewrite map_imap_empty, map_sum_empty. simpl. by intros ?%elem_of_nil.
    - case_match; [by intros ?%elem_of_nil|]. by intros ?. }
  destruct (long_windows e ctx ip now ws (MkWorld d [])) as [[rest|] W]; [|done].
  intros [= <- _] [Hv|Hv]%elem_of_app.
  - destruct (Hvs1 Hv) as [? ?]. exists w, kinds. split; [by left|done].
  - destruct (IH rest W eq_refl Hv) as (w' & ks & Hin & ?). exists w', ks. split; [by right|done].
Qed.

(** The hourly counters are the event log: after any history of increments
    (some failing), strikes, other store calls and prunes that spare the
    window, the sum read for a kind is the number of increments of that address
    and kind that succeeded in the window's hours, whatever spelling of the
    address was seen. *)
Theorem SumEventCounts_log ip kinds since hs k :
  let '(d, log) := run_events hs emptyDb in
  Forall (λ h, spares since h.1) hs → k ∈ kinds →
  ∃ m, SumEventCounts ip kinds since (MkWorld d []) = (Ok m, MkWorld d []) ∧
       get k m = log_count (is_kind k) (Unmap ip) since log.
Proof.
  destruct (run_events hs emptyDb) as [d log] eqn:E. intros Hs Hk. destruct kinds as [|k0 kinds]; [by apply elem_of_nil in Hk|].
  eexists. split; [reflexivity|]. cbn [tables]. rewrite group_sums_get by done. pose proof (run_sums (Unmap ip) k since hs emptyDb Hs) as H.
  rewrite E in H. simpl in H. rewrite H. unfold sum_kind. simpl. by rewrite map_sum_empty.
Qed.

(** C13. A strike consumes the evidence that earned it: after a strike of [ip]
    was recorded against the long-window counters at [t0], a rule fires for it
    at [t] only if at least its threshold of events were counted since, inside
    its window, whatever happened to other addresses, to the rest of the store
    and to rows too old for the window, and whichever statements failed
    meanwhile (the evaluation's own queries succeed). *)
Theorem long_rule_needs_new_evidence e ctx ip t0 t hs1 o W1 hs2 vs W2 v :
  Forall (λ h, happened_by (Unmap ip) (Unix t0) h.1) hs1 →
  whole_seconds (KindsForLongWindows e) →
  ConsumeEventCounts ip (KindsForLongWindows e) t0 (MkWorld (run_events hs1 emptyDb).1 o) = (Ok tt, W1) →
  t0 <= t →
  Forall (λ h, other (Unmap ip) h.1 ∧
    ∀ r, r ∈ rules e → LongWindowCutoff < rWindow r → spares (HourBucket (t - rWindow r)) h.1) hs2 →
  evaluateLongRules e ctx ip t (MkWorld (run_events hs2 (tables W1)).1 []) = (Ok vs, W2) → v ∈ vs →
  ∃ r agg, r ∈ rules e ∧ LongWindowCutoff < rWindow r ∧ applyRule r agg = Some v ∧
    Threshold r <= log_count (λ k, bool_decide (k ∈ counter_kinds_of r)) (Unmap ip) (HourBucket (t - rWindow r))
                     (run_events hs2 (tables W1)).2.
Proof.
  intros Hh1 Hws HC Ht Hh2 He Hv. unfold evaluateLongRules in He.
  destruct (long_windows_elem _ _ _ _ _ _ _ _ _ He Hv) as (w & kinds & Hw%elem_of_map_to_list & Hne & Hev).
  apply evaluate_elem in Hev as (r & Hr & Hrw & Ha & Hc). simpl in Hrw.
  assert (LongWindowCutoff < w) as Hcut.
  { destruct kinds as [|k0 kinds]; [done|]. by destruct (proj1 (KindsForLongWindows_spec e w k0)) as (? & _ & _ & ? & _); [exists (k0 :: kinds); split; [done|by left]|]. }
  exists r. eexists. subst w. split; [done|]. split; [done|]. split; [exact Ha|].
  etransitivity; [exact Hc|]. apply counter_kinds_count; [done|]. intros k n Hk HP. simpl in Hk.
  apply bool_decide_eq_true in HP.
  assert (k ∈ kinds) as Hkk.
  { destruct (proj2 (KindsForLongWindows_spec e (rWindow r) k)) as (ks & Hks & Hin); [by exists r|]. rewrite Hw in Hks. by injection Hks as <-. }
  eapply (unconsumed_new ip (KindsForLongWindows e) t0 t (rWindow r) kinds); try done.
  - apply run_sound; [done|]. split; intros *; simpl; by rewrite lookup_empty.
  - eapply Forall_impl; [exact Hh2|]. intros h [Ho Hsp]. split; [done|]. by apply Hsp.
Qed.

Lemma SumEventCounts_log_witness :
  ∃ m, SumEventCounts (Addr6 (65535 * 2 ^ 32 + 7) EmptyString) ["ssh_fail"] 7200
    (MkWorld (run_events [(EIncr (Addr4 7) "ssh_fail" 3600, []); (EIncr (Addr4 7) "ssh_fail" 7200, []);
      (EIncr (Addr4 7) "ssh_fail" 7200, [false]); (EPrune 3600, []); (EIncr (Addr4 7) "ssh_fail" 10800, [])] emptyDb).1 []) =
    (Ok m, MkWorld (run_events [(EIncr (Addr4 7) "ssh_fail" 3600, []); (EIncr (Addr4 7) "ssh_fail" 7200, []);
      (EIncr (Addr4 7) "ssh_fail" 7200, [false]); (EPrune 3600, []); (EIncr (Addr4 7) "ssh_fail" 10800, [])] emptyDb).1 []) ∧
    get "ssh_fail" m = 2.
Proof.
  refine (SumEventCounts_log (Addr6 (65535 * 2 ^ 32 + 7) EmptyString) ["ssh_fail"] 7200
    [(EIncr (Addr4 7) "ssh_fail" 3600, []); (EIncr (Addr4 7) "ssh_fail" 7200, []);
     (EIncr (Addr4 7) "ssh_fail" 7200, [false]); (EPrune 3600, []); (EIncr (Addr4 7) "ssh_fail" 10800, [])] "ssh_fail" _ _).
  - repeat constructor; simpl; lia.
  - by left.
Defined.

(** Five failures, a strike, then three and later two more: the rule of five
    stays silent at first and fires again when five new ones are in. *)
Definition slow_rule : spec := MkSpec "slow" EmptyString ["ssh_fail"] EmptyString EmptyString EmptyString [] (24 * Hour) 5 80 "bruteforce".
Definition failures (h n : Z) : list (ev_step * list bool) := (λ _, (EIncr (Addr4 7) "ssh_fail" (3600 * h), [])) <$> seqZ 0 n.
Definition after_strike : world :=
  (ConsumeEventCounts (Addr4 7) (KindsForLongWindows (MkEngine [slow_rule])) (10 * Hour) (MkWorld (run_events (failures 9 5) emptyDb).1 [])).2.
Definition slow_verdicts (hs : list (ev_step * list bool)) : result store_error (list Verdict) :=
  (evaluateLongRules (MkEngine [slow_rule]) (λ _, false) (Addr4 7) (12 * Hour) (MkWorld (run_events hs (tables after_strike)).1 [])).1.

Lemma long_rule_needs_new_evidence_witness :
  slow_verdicts (failures 11 3) = Ok [] ∧
  ∃ vs v, slow_verdicts (failures 11 5) = Ok vs ∧ v ∈ vs ∧
    ∃ r agg, r ∈ [slow_rule] ∧ LongWindowCutoff < rWindow r ∧ applyRule r agg = Some v ∧
    Threshold r <= log_count (λ k, bool_decide (k ∈ counter_kinds_of r)) (Addr4 7) (HourBucket (12 * Hour - rWindow r))
                     (run_events (failures 11 5) (tables after_strike)).2.
Proof.
  split; [vm_compute; reflexivity|].
  assert (∃ vs v, slow_verdicts (failures 11 5) = Ok vs ∧ v ∈ vs) as (vs & v & He & Hv).
  { eexists _, _. split; [vm_compute; reflexivity|]. by left. }
  exists vs, v. split; [exact He|]. split; [exact Hv|].
  unfold slow_verdicts in He. destruct (evaluateLongRules _ _ _ _ _) as [r W2] eqn:E in He. simpl in He. subst r.
  refine (long_rule_needs_new_evidence (MkEngine [slow_rule]) (λ _, false) (Addr4 7) (10 * Hour) (12 * Hour)
    (failures 9 5) [] after_strike (failures 11 5) vs W2 v _ _ _ _ _ E Hv).
  - repeat constructor; simpl; intros _; vm_compute; congruence.
  - intros w [ks Hk]. replace (KindsForLongWindows (MkEngine [slow_rule])) with ({[24 * Hour := ["ssh_fail"]]} : rule_windows) in Hk by (vm_compute; reflexivity).
    apply lookup_singleton_Some in Hk as [<- _]. reflexivity.
  - vm_compute. reflexivity.
  - vm_compute. congruence.
  - repeat constructor.
Defined.
