(* ===== verification/Retention.v ===== *)
(** Retention pruning: [internal/store/retention.go].

    Aged rows go in batches, each batch one statement; [LIMIT] takes any rows
    it likes, so which ones is an argument.  [bans_active] and [allowlist] are
    read only. *)
From S2P Require Import Prelude GoStrings Netip Sdk.
From S2P Require Import Store.

Record RetentionPolicy := MkRetention {
  rp_Strikes : duration; rp_Audit : duration; rp_AIUsage : duration; AuditPruneAcknowledged : bool
}.

Record PruneStat := MkStat { Table : string; st_Window : duration; st_Count : Z }.

Definition retentionBatchSize : nat := 500.

(** [now - window] in whole seconds, as its RFC 3339 text reads. *)
Definition cutoffRFC3339 (now : time) (window : duration) : time := Unix (now - window) * Second.

(** ** Selections

    Rows of a list are selected by a mask of its length. *)
Definition mask_count (m : list bool) : nat := length (List.filter (λ b : bool, b) m).

Fixpoint drop_masked {A} (m : list bool) (l : list A) : list A :=
  match m, l with
  | b :: m, x :: l => if (b : bool) then drop_masked m l else x :: drop_masked m l
  | _, _ => l
  end.

(** [strikePruneWhere]: old enough, and not the latest strike of a banned
    address; [later] are the rows with higher ids. *)
Definition strikePruneWhere (cutoff : time) (bans : gmap addr ban_row) (s : strike_row) (later : list strike_row) : bool :=
  text_lt (s_recorded_at s) cutoff &&
  negb (bool_decide (is_Some (bans !! s_ip s)) && negb (existsb (λ s', bool_decide (s_ip s' = s_ip s)) later)).

Fixpoint strike_mask (cutoff : time) (bans : gmap addr ban_row) (l : list strike_row) : list bool :=
  match l with
  | [] => []
  | s :: l => strikePruneWhere cutoff bans s l :: strike_mask cutoff bans l
  end.

Definition offenderPruneWhere (d : db) (ip : addr) : bool :=
  negb (existsb (λ s, bool_decide (s_ip s = ip)) (strikes d)) && bool_decide (bans d !! ip = None).

Definition offender_set (d : db) : gset addr :=
  list_to_set (List.filter (offenderPruneWhere d) (map_to_list (offenders d)).*1).

Definition audit_mask (cutoff : time) (l : list AuditEntry) : list bool := (λ e, text_lt (a_recorded_at e) cutoff) <$> l.
Definition usage_mask (cutoff : time) (l : list usage_row) : list bool := (λ u, text_lt (u_called u) cutoff) <$> l.

(** Which rows [LIMIT n] takes. *)
Record limits := MkLimits {
  pick_rows : nat → list bool → list bool;
  pick_ips : nat → gset addr → gset addr
}.

(** ** Batched deletion *)
Section batched.
Context {C : Type} (cands : db → C) (card : C → nat) (pick : nat → C → C) (remove : C → db → db).

Definition one_batch : sql nat :=
  _ ← driver;
  n ← read (λ d, card (pick retentionBatchSize (cands d)));
  _ ← modify (λ d, remove (pick retentionBatchSize (cands d)) d);
  mret n.

(** The loop runs until a batch is not full; it ends because every full batch
    leaves fewer rows. [ctx i]: cancelled before batch [i]. *)
Fixpoint batches (ctx : nat → bool) (i fuel : nat) (total : Z) : sql Z :=
  match fuel with
  | O => raise ESql
  | S fuel =>
    if ctx i then raise ESql else
    n ← one_batch;
    let total := total + Z.of_nat n in
    if (n <? retentionBatchSize)%nat then mret total else batches ctx (S i) fuel total
  end.

Definition deleteBatched (ctx : nat → bool) : sql Z := λ W, batches ctx 0 (S (card (cands (tables W)))) 0 W.
End batched.

Definition prune_strikes (lim : limits) (cutoff : time) : (nat → bool) → sql Z :=
  deleteBatched (λ d, strike_mask cutoff (bans d) (strikes d)) mask_count (pick_rows lim) (λ m, on_strikes (drop_masked m)).
Definition prune_offenders (lim : limits) : (nat → bool) → sql Z :=
  deleteBatched offender_set size (pick_ips lim) (λ X, on_offenders (filter (λ kv, kv.1 ∉ X))).
Definition on_audit (f : list AuditEntry → list AuditEntry) (d : db) : db :=
  MkDb (offenders d) (strikes d) (bans d) (f (audit d)) (audit_next d) (allowlist d) (daemon_state d) (ai_usage d)
    (events_agg d) (events_consumed d).
Definition prune_audit (lim : limits) (cutoff : time) : (nat → bool) → sql Z :=
  deleteBatched (λ d, audit_mask cutoff (audit d)) mask_count (pick_rows lim) (λ m, on_audit (drop_masked m)).
Definition prune_usage (lim : limits) (cutoff : time) : (nat → bool) → sql Z :=
  deleteBatched (λ d, usage_mask cutoff (ai_usage d)) mask_count (pick_rows lim) (λ m, on_usage (drop_masked m)).

(** What a run reports: the counts of the tables it finished, whether the audit
    log was skipped for lack of the acknowledgement, whether it failed. *)
Record prune_report := MkReport { stats : list PruneStat; auditSkipped : bool; failed : bool }.

Definition PruneRetention (lim : limits) (ctx : nat → bool) (pol : RetentionPolicy) (now : time) (W : world) : prune_report * world :=
  let strikes_part : list PruneStat * bool * world :=
    if 0 <? rp_Strikes pol then
      match prune_strikes lim (cutoffRFC3339 now (rp_Strikes pol)) ctx W with
      | (Err _, W) => ([], true, W)
      | (Ok n, W) =>
        match prune_offenders lim ctx W with
        | (Err _, W) => ([MkStat "strikes" (rp_Strikes pol) n], true, W)
        | (Ok m, W) => ([MkStat "strikes" (rp_Strikes pol) n; MkStat "offenders" (rp_Strikes pol) m], false, W)
        end
      end
    else ([], false, W) in
  let '(st, bad, W) := strikes_part in
  if (bad : bool) then (MkReport st false true, W) else
  let audit_part : list PruneStat * bool * bool * world :=
    if 0 <? rp_Audit pol then
      if AuditPruneAcknowledged pol then
        match prune_audit lim (cutoffRFC3339 now (rp_Audit pol)) ctx W with
        | (Err _, W) => (st, false, true, W)
        | (Ok n, W) => (st ++ [MkStat "audit_log" (rp_Audit pol) n], false, false, W)
        end
      else (st, true, false, W)
    else (st, false, false, W) in
  let '(st, skipped, bad, W) := audit_part in
  if (bad : bool) then (MkReport st false true, W) else
  if 0 <? rp_AIUsage pol then
    match prune_usage lim (cutoffRFC3339 now (rp_AIUsage pol)) ctx W with
    | (Err _, W) => (MkReport st skipped true, W)
    | (Ok n, W) => (MkReport (st ++ [MkStat "ai_usage" (rp_AIUsage pol) n]) skipped false, W)
    end
  else (MkReport st skipped false, W).

(** ** The maintenance job and the prune verb: [internal/daemon/maintenance.go]

    [VACUUM] rewrites the file, not the tables: the space reclamation that
    follows either is left out. *)
Definition prune_reason (st : PruneStat) : string :=
  "retention prune: table=" +:+ Table st +:+ " deleted=" +:+ show_Z (st_Count st) +:+ " window=" +:+ dur_string (st_Window st).

(** One audit row per table that lost rows; a failing row is logged only. *)
Fixpoint audit_prune (clock : time) (l : list PruneStat) (W : world) : world :=
  match l with
  | [] => W
  | st :: l => audit_prune clock l (if st_Count st =? 0 then W else (AuditSystem clock "retention_prune" (prune_reason st) W).2)
  end.

Definition runPruneOnce (lim : limits) (ctx : nat → bool) (retention : option RetentionPolicy) (now clock : time) (W : world) : world :=
  match retention with
  | None => W
  | Some pol => let '(r, W) := PruneRetention lim ctx pol now W in audit_prune clock (stats r) W
  end.

Inductive prune_response := PruneRefused | PruneFailed | PruneData (dryRun : bool) (tables : list PruneStat) (skipped : bool).

(** ** The dry run *)
(** No strike of the address outlives the strike prune, and it is not banned. *)
Definition offender_doomed (cutoff : time) (d : db) (ip : addr) : bool :=
  negb (existsb (λ s, bool_decide (s_ip s = ip)) (drop_masked (strike_mask cutoff (bans d) (strikes d)) (strikes d))) &&
  bool_decide (bans d !! ip = None).

Definition count_if (table : string) (window : duration) (n : db → nat) : sql (list PruneStat) :=
  if window =? 0 then mret [] else (k ← query n; mret [MkStat table window (Z.of_nat k)]).

Definition CountPruneCandidates (pol : RetentionPolicy) (now : time) : sql (list PruneStat) :=
  let cut := cutoffRFC3339 now in
  s1 ← count_if "strikes" (rp_Strikes pol) (λ d, mask_count (strike_mask (cut (rp_Strikes pol)) (bans d) (strikes d)));
  s2 ← count_if "offenders" (rp_Strikes pol)
         (λ d, length (List.filter (offender_doomed (cut (rp_Strikes pol)) d) (map_to_list (offenders d)).*1));
  s3 ← count_if "audit_log" (rp_Audit pol) (λ d, mask_count (audit_mask (cut (rp_Audit pol)) (audit d)));
  s4 ← count_if "ai_usage" (rp_AIUsage pol) (λ d, mask_count (usage_mask (cut (rp_AIUsage pol)) (ai_usage d)));
  mret (s1 ++ s2 ++ s3 ++ s4).

Definition handlePrune (lim : limits) (ctx : nat → bool) (retention : option RetentionPolicy) (dryRun : bool) (now clock : time) (W : world) :
    prune_response * world :=
  match retention with
  | None => (PruneRefused, W)
  | Some pol =>
    if dryRun then
      match CountPruneCandidates pol now W with
      | (Err _, W) => (PruneFailed, W)
      | (Ok st, W) => (PruneData true st ((0 <? rp_Audit pol) && negb (AuditPruneAcknowledged pol)), W)
      end
    else
      let '(r, W) := PruneRetention lim ctx pol now W in
      if failed r then (PruneFailed, W)
      else (PruneData false (stats r) (auditSkipped r), audit_prune clock (stats r) W)
  end.

(** ** Masks *)
Definition mask_le (m M : list bool) : Prop := Forall2 (λ b B, b = true → B = true) m M.

#[export] Instance mask_le_refl : Reflexive mask_le.
Proof. intros m. induction m; constructor; done. Qed.

Lemma drop_masked_false {A} (l : list A) m : mask_count m = 0%nat → drop_masked m l = l.
Proof.
  revert l. induction m as [|[] m IH]; intros [|x l]; try done; simpl; intros H. by rewrite IH.
Qed.

Lemma mask_count_drop m M : mask_le m M → (mask_count (drop_masked m M) + mask_count m)%nat = mask_count M.
Proof.
  unfold mask_count. induction 1 as [|b B m M Hb H IH]; [done|]. destruct b, B; simpl in *; try lia.
Qed.

Lemma drop_masked_nil {A} m : drop_masked m [] =@{list A} [].
Proof. by destruct m. Qed.

Lemma drop_masked_twice {A} m M (l : list A) : mask_le m M → drop_masked (drop_masked m M) (drop_masked m l) = drop_masked M l.
Proof.
  intros H. revert l. induction H as [|b B m M Hb H IH]; intros [|x l]; try done; simpl.
  - by rewrite drop_masked_nil.
  - destruct b; [rewrite Hb by done; apply IH|]. destruct B; simpl; by rewrite IH.
Qed.

Lemma drop_masked_fmap {A B} (f : A → B) m l : drop_masked m (f <$> l) = f <$> drop_masked m l.
Proof. revert l. induction m as [|[] m IH]; intros [|x l]; csimpl; rewrite ?IH; done. Qed.

Lemma drop_masked_sublist {A} m (l : list A) : drop_masked m l `sublist_of` l.
Proof.
  revert l. induction m as [|[] m IH]; intros [|x l]; simpl; try done; by constructor.
Qed.

(** What a mask of old rows drops is old. *)
Lemma drop_masked_keeps {A} (P : A → bool) m l : mask_le m (P <$> l) →
  List.filter (λ x, negb (P x)) (drop_masked m l) = List.filter (λ x, negb (P x)) l.
Proof.
  revert m. induction l as [|x l IH]; intros m H; csimpl; [by destruct m|]. inversion H as [|b B m' M Hb Hm]; subst. simpl.
  destruct b; simpl; [rewrite (Hb eq_refl); by apply IH|]. destruct (P x); simpl; by rewrite IH.
Qed.

(** ** Strikes *)
Lemma later_kept cutoff bans ip l m : is_Some (bans !! ip) → mask_le m (strike_mask cutoff bans l) →
  existsb (λ s, bool_decide (s_ip s = ip)) (drop_masked m l) = existsb (λ s, bool_decide (s_ip s = ip)) l.
Proof.
  intros Hb. revert m. induction l as [|s l IH]; intros m H; [by destruct m|].
  inversion H as [|b B m' M HB Hm]; subst. simpl. destruct b; simpl; [|by rewrite IH].
  rewrite IH by done. case_bool_decide as Hs; simpl; [|done]. specialize (HB eq_refl). unfold strikePruneWhere in HB.
  rewrite Hs, (bool_decide_true (is_Some _)) in HB by done. bool_hyps. simpl in *. by destruct (existsb _ l).
Qed.

Lemma strike_mask_drop cutoff bans l m : mask_le m (strike_mask cutoff bans l) →
  strike_mask cutoff bans (drop_masked m l) = drop_masked m (strike_mask cutoff bans l).
Proof.
  revert m. induction l as [|s l IH]; intros m H; [by destruct m|]. inversion H as [|b B m' M HB Hm]; subst. simpl.
  destruct b; [by apply IH|]. simpl. rewrite IH by done. f_equal. unfold strikePruneWhere. do 2 f_equal.
  case_bool_decide as Hs; [|done]. by rewrite (later_kept cutoff bans).
Qed.

Lemma strike_mask_aged cutoff bans l m : mask_le m (strike_mask cutoff bans l) →
  mask_le m ((λ s, text_lt (s_recorded_at s) cutoff) <$> l).
Proof.
  revert m. induction l as [|s l IH]; intros m H; inversion H as [|b B m' M HB Hm]; subst; csimpl; constructor; [|by apply IH].
  intros Hb. specialize (HB Hb). unfold strikePruneWhere in HB. by bool_hyps.
Qed.

Lemma last_cons_filter (P : strike_row → bool) s l : last (List.filter P (s :: l)) =
  if P s then match last (List.filter P l) with None => Some s | x => x end else last (List.filter P l).
Proof. simpl. destruct (P s); [|done]. rewrite last_cons. by destruct (last _). Qed.

(** A banned address keeps its latest strike. *)
Lemma last_strike_kept cutoff bans ip l m : is_Some (bans !! ip) → mask_le m (strike_mask cutoff bans l) →
  last_strike ip (drop_masked m l) = last_strike ip l.
Proof.
  intros Hb. unfold last_strike. revert m. induction l as [|s l IH]; intros m H; [by destruct m|].
  inversion H as [|b B m' M HB Hm]; subst. cbn [drop_masked]. rewrite last_cons_filter. destruct b.
  - rewrite IH by done. case_bool_decide as Hs; [|done]. specialize (HB eq_refl). unfold strikePruneWhere in HB.
    rewrite Hs, (bool_decide_true (is_Some _)) in HB by done. bool_hyps. simpl in *.
    destruct (existsb (λ s', bool_decide (s_ip s' = ip)) l) eqn:E; [|done].
    destruct (last (List.filter _ l)) eqn:El; [done|]. apply last_None in El. apply existsb_exists in E as (x & Hx & Hx').
    assert (x ∈ List.filter (λ s', bool_decide (s_ip s' = ip)) l) as Hin by (by apply list_elem_of_In, filter_In).
    rewrite El in Hin. by apply elem_of_nil in Hin.
  - rewrite last_cons_filter. by rewrite IH.
Qed.

(** ** Batched deletion ends and is complete *)
(** [LIMIT n] takes [n] of the candidates, or all of them. *)
Class LimitLaws (lim : limits) : Prop := {
  pick_rows_le n m : mask_le (pick_rows lim n m) m;
  pick_rows_count n m : mask_count (pick_rows lim n m) = Nat.min n (mask_count m);
  pick_ips_sub n X : pick_ips lim n X ⊆ X;
  pick_ips_size n X : size (pick_ips lim n X) = Nat.min n (size X)
}.

Section batched_spec.
Context {C : Type} (cands : db → C) (card : C → nat) (pick : nat → C → C) (remove : C → db → db).
Let chosen d := pick retentionBatchSize (cands d).
Context (Hcard : ∀ c, card (pick retentionBatchSize c) = Nat.min retentionBatchSize (card c)).
Context (Hleft : ∀ d, (card (cands (remove (chosen d) d)) + card (chosen d))%nat = card (cands d)).
Context (Hdone : ∀ d, remove (cands (remove (chosen d) d)) (remove (chosen d) d) = remove (cands d) d).
Context (Hnone : ∀ d, card (cands d) = 0%nat → remove (cands d) d = d).

Lemma batches_complete ctx i fuel total d : (∀ j, ctx j = false) → (card (cands d) < fuel)%nat →
  batches cands card pick remove ctx i fuel total (MkWorld d []) =
  (Ok (total + Z.of_nat (card (cands d))), MkWorld (remove (cands d) d) []).
Proof.
  intros Hctx. revert i total d. induction fuel as [|fuel IH]; intros i total d Hf; [lia|].
  cbn [batches]. rewrite Hctx. unfold one_batch, mbind, sql_mbind, driver, read, modify, mret, sql_mret. cbn [faults tables].
  fold (chosen d). pose proof (Hleft d) as Hl. pose proof (Hdone d) as Hd. pose proof (Hcard (cands d)) as Hc. fold (chosen d) in Hc.
  destruct (Nat.ltb_spec (card (chosen d)) retentionBatchSize) as [Hlt|Hge].
  - rewrite Hc in *. do 2 f_equal; [lia|]. rewrite <- Hd. symmetry. apply Hnone. lia.
  - rewrite IH; [|unfold retentionBatchSize in *; lia]. rewrite Hd. do 2 f_equal. lia.
Qed.

Lemma deleteBatched_complete ctx d : (∀ j, ctx j = false) →
  deleteBatched cands card pick remove ctx (MkWorld d []) = (Ok (Z.of_nat (card (cands d))), MkWorld (remove (cands d) d) []).
Proof. intros Hctx. unfold deleteBatched. by rewrite batches_complete by (done || cbn [tables]; lia). Qed.
End batched_spec.

(** Whatever fails or is cancelled, only batches have gone. *)
Lemma keeps_deleteBatched {C} (cands : db → C) card pick remove ctx (R : relation db) `{!Reflexive R, !Transitive R} :
  (∀ d, R d (remove (pick retentionBatchSize (cands d)) d)) → Keeps R (deleteBatched cands card pick remove ctx).
Proof.
  intros HR W. unfold deleteBatched. generalize 0%nat at 1 as i. generalize 0 as total.
  induction (S (card (cands (tables W)))) as [|fuel IH] in W |- *; intros total i; cbn [batches]; [simpl; reflexivity|].
  destruct (ctx i); [simpl; reflexivity|].
  assert (Keeps R (n ← one_batch cands card pick remove;
    if (n <? retentionBatchSize)%nat then mret (total + Z.of_nat n) else batches cands card pick remove ctx (S i) fuel (total + Z.of_nat n))) as HK;
    [|apply HK]. apply keeps_bind; [apply _| |].
  - unfold one_batch. apply keeps_bind; [apply _..|]. intros _ W'. unfold mbind, sql_mbind, read, modify, mret, sql_mret. cbn. apply HR.
  - intros n. destruct (n <? retentionBatchSize)%nat; [apply _|]. intros W'. apply IH.
Qed.

Section complete.
Context (lim : limits) `{!LimitLaws lim} (ctx : nat → bool) (Hctx : ∀ j, ctx j = false).

Lemma prune_strikes_complete cutoff d :
  let M := strike_mask cutoff (bans d) (strikes d) in
  prune_strikes lim cutoff ctx (MkWorld d []) = (Ok (Z.of_nat (mask_count M)), MkWorld (on_strikes (drop_masked M) d) []).
Proof.
  cbn zeta. unfold prune_strikes. rewrite deleteBatched_complete; [done|..|done]; clear d.
  - intros m. apply pick_rows_count.
  - intros d. cbn [bans strikes on_strikes]. rewrite strike_mask_drop by apply pick_rows_le. apply mask_count_drop, pick_rows_le.
  - intros d. unfold on_strikes. cbn [bans strikes offenders audit audit_next allowlist daemon_state ai_usage events_agg events_consumed].
    rewrite strike_mask_drop by apply pick_rows_le. by rewrite drop_masked_twice by apply pick_rows_le.
  - intros [] H. unfold on_strikes. simpl in *. by rewrite drop_masked_false.
Qed.

Lemma prune_audit_complete cutoff d :
  let M := audit_mask cutoff (audit d) in
  prune_audit lim cutoff ctx (MkWorld d []) = (Ok (Z.of_nat (mask_count M)), MkWorld (on_audit (drop_masked M) d) []).
Proof.
  cbn zeta. unfold prune_audit. rewrite deleteBatched_complete; [done|..|done]; clear d; unfold audit_mask.
  - intros m. apply pick_rows_count.
  - intros d. cbn [audit on_audit]. rewrite <- drop_masked_fmap. apply mask_count_drop, pick_rows_le.
  - intros d. unfold on_audit. cbn [bans strikes offenders audit audit_next allowlist daemon_state ai_usage events_agg events_consumed].
    rewrite <- drop_masked_fmap. by rewrite drop_masked_twice by apply pick_rows_le.
  - intros [] H. unfold on_audit. simpl in *. by rewrite drop_masked_false.
Qed.

Lemma prune_usage_complete cutoff d :
  let M := usage_mask cutoff (ai_usage d) in
  prune_usage lim cutoff ctx (MkWorld d []) = (Ok (Z.of_nat (mask_count M)), MkWorld (on_usage (drop_masked M) d) []).
Proof.
  cbn zeta. unfold prune_usage. rewrite deleteBatched_complete; [done|..|done]; clear d; unfold usage_mask.
  - intros m. apply pick_rows_count.
  - intros d. cbn [ai_usage on_usage]. rewrite <- drop_masked_fmap. apply mask_count_drop, pick_rows_le.
  - intros d. unfold on_usage. cbn [bans strikes offenders audit audit_next allowlist daemon_state ai_usage events_agg events_consumed].
    rewrite <- drop_masked_fmap. by rewrite drop_masked_twice by apply pick_rows_le.
  - intros [] H. unfold on_usage. simpl in *. by rewrite drop_masked_false.
Qed.

Lemma elem_of_offender_set d ip : ip ∈ offender_set d ↔ offenderPruneWhere d ip = true ∧ is_Some (offenders d !! ip).
Proof.
  unfold offender_set. rewrite elem_of_list_to_set, list_elem_of_In, filter_In, <- list_elem_of_In, list_elem_of_fmap.
  split.
  - intros [([ip' o] & -> & Ho%elem_of_map_to_list) Hp]. split; [done|]. simpl. by rewrite Ho.
  - intros [Hp [o Ho]]. split; [|done]. exists (ip, o). split; [done|]. by apply elem_of_map_to_list.
Qed.

Lemma offender_set_removed X d : offender_set (on_offenders (filter (λ kv, kv.1 ∉ X)) d) = offender_set d ∖ X.
Proof.
  apply set_eq. intros ip. rewrite elem_of_difference, !elem_of_offender_set. unfold offenderPruneWhere. simpl.
  split.
  - intros [Hp [o [Ho Hx]%map_lookup_filter_Some]]. simpl in Hx. by eauto.
  - intros [[Hp [o Ho]] Hx]. split; [done|]. exists o. by apply map_lookup_filter_Some.
Qed.

Lemma prune_offenders_complete d :
  prune_offenders lim ctx (MkWorld d []) =
  (Ok (Z.of_nat (size (offender_set d))), MkWorld (on_offenders (filter (λ kv, kv.1 ∉ offender_set d)) d) []).
Proof.
  unfold prune_offenders. rewrite deleteBatched_complete; [done|..|done]; clear d.
  - intros X. apply pick_ips_size.
  - intros d. rewrite offender_set_removed. set (Y := pick_ips _ _ _). assert (Y ⊆ offender_set d) by apply pick_ips_sub.
    rewrite size_difference by done. assert (size Y <= size (offender_set d))%nat by (by apply subseteq_size). lia.
  - intros d. rewrite offender_set_removed. set (Y := pick_ips _ _ _). assert (Y ⊆ offender_set d) as HY by apply pick_ips_sub.
    unfold on_offenders. simpl. f_equal. rewrite map_filter_filter. apply map_filter_ext. intros ip o _. simpl.
    destruct (decide (ip ∈ Y)); set_solver.
  - intros [] H. apply size_empty_iff in H. apply leibniz_equiv in H. rewrite H. unfold on_offenders. simpl. f_equal.
    apply map_filter_id. intros ip o _. simpl. apply not_elem_of_empty.
Qed.
End complete.

(** ** The dry run counts what the run deletes *)
(** The dry run is exact: on the same tables and clock, and when nothing
    fails, CountPruneCandidates lists, table by table, the counts that
    PruneRetention then deletes, whatever rows each batch takes; the audit log
    is the one table a run may skip, which it reports. *)
Theorem prune_dry_run_exact lim ctx pol now d :
  LimitLaws lim → (∀ j, ctx j = false) → 0 <= rp_Strikes pol → 0 <= rp_Audit pol → 0 <= rp_AIUsage pol →
  ∃ st d', CountPruneCandidates pol now (MkWorld d []) = (Ok st, MkWorld d []) ∧
    PruneRetention lim ctx pol now (MkWorld d []) =
      (MkReport (List.filter (λ s, negb (bool_decide (Table s = "audit_log")) || AuditPruneAcknowledged pol) st)
         ((0 <? rp_Audit pol) && negb (AuditPruneAcknowledged pol)) false, MkWorld d' []).
Proof.
  intros HL Hctx H1 H2 H3. unfold PruneRetention, CountPruneCandidates.
  assert (∀ table w n D, 0 <= w → count_if table w n (MkWorld D []) =
    (Ok (if 0 <? w then [MkStat table w (Z.of_nat (n D))] else []), MkWorld D [])) as Hcount.
  { intros table w n D Hw. unfold count_if. destruct (Z.eqb_spec w 0) as [->|?]; [done|].
    rewrite (proj2 (Z.ltb_lt 0 w)) by lia. done. }
  unfold mbind, sql_mbind. rewrite Hcount by done. rewrite Hcount by done. rewrite Hcount by done. rewrite Hcount by done.
  unfold mret, sql_mret. cbn [tables].
  assert (∀ c, length (List.filter (offender_doomed c d) (map_to_list (offenders d)).*1) =
    size (offender_set (on_strikes (drop_masked (strike_mask c (bans d) (strikes d))) d))) as Ho.
  { intros c. unfold offender_set. rewrite size_list_to_set; [done|]. apply NoDup_ListNoDup, List.NoDup_filter, NoDup_ListNoDup, NoDup_fst_map_to_list. }
  rewrite Ho. clear Ho Hcount.
  destruct (0 <? rp_Strikes pol); [rewrite prune_strikes_complete by done; cbn [fst snd]; rewrite prune_offenders_complete by done|];
    (destruct (0 <? rp_Audit pol); [destruct (AuditPruneAcknowledged pol); [rewrite prune_audit_complete by done|]|]);
    (destruct (0 <? rp_AIUsage pol); [rewrite prune_usage_complete by done|]);
    eexists _, _; (split; [reflexivity|reflexivity]).
Qed.

(** ** What a run may remove

    A row has left its window when its time lies before [now - window]; the
    rows compare as text, which is unreliable inside one second, so a row with
    a fraction of a second may be counted as out up to a second early. *)
Definition aged (window : duration) (now t : time) : bool :=
  if t `mod` Second =? 0 then t <? now - window else t <? now - window + Second.

Lemma cutoff_le now window : cutoffRFC3339 now window <= now - window.
Proof. unfold cutoffRFC3339, Unix. rewrite Z.mul_comm. by apply Z.mul_div_le. Qed.

Lemma text_lt_aged now window t : text_lt t (cutoffRFC3339 now window) = true → aged window now t = true.
Proof.
  intros H. pose proof (cutoff_le now window) as Hc. unfold aged. destruct (Z.eqb_spec (t `mod` Second) 0) as [Ht|_];
    [|apply Z.ltb_lt; apply text_lt_sound in H; lia].
  assert (cutoffRFC3339 now window `mod` Second = 0) as Hm by apply Z_mod_mult. apply Z.ltb_lt.
  apply orb_true_iff in H as [H|H]; bool_hyps; [|unfold frac_text in *; rewrite Ht, Hm in *; done].
  apply Z.div_exact in Ht; [|done]. apply Z.div_exact in Hm; [|done]. unfold Unix, Second in *. lia.
Qed.

Lemma aged_mask {A} (f : A → time) now window m l : mask_le m ((λ x, text_lt (f x) (cutoffRFC3339 now window)) <$> l) →
  mask_le m ((λ x, aged window now (f x)) <$> l).
Proof.
  revert m. induction l as [|x l IH]; intros m H; inversion H as [|b B m' M HB Hm]; subst; csimpl; constructor; [|by apply IH].
  intros Hb. by apply text_lt_aged, HB.
Qed.

Definition old_strike (pol : RetentionPolicy) (now : time) (s : strike_row) : bool :=
  (0 <? rp_Strikes pol) && aged (rp_Strikes pol) now (s_recorded_at s).
Definition old_audit (pol : RetentionPolicy) (now : time) (e : AuditEntry) : bool :=
  (0 <? rp_Audit pol) && AuditPruneAcknowledged pol && aged (rp_Audit pol) now (a_recorded_at e).
Definition old_usage (pol : RetentionPolicy) (now : time) (u : usage_row) : bool :=
  (0 <? rp_AIUsage pol) && aged (rp_AIUsage pol) now (u_called u).

Record spared (pol : RetentionPolicy) (now : time) (d d' : db) : Prop := {
  sp_bans : bans d' = bans d;
  sp_allow : allowlist d' = allowlist d;
  sp_sub : strikes d' `sublist_of` strikes d;
  sp_young : List.filter (λ s, negb (old_strike pol now s)) (strikes d') = List.filter (λ s, negb (old_strike pol now s)) (strikes d);
  sp_last ip : is_Some (bans d !! ip) → last_strike ip (strikes d') = last_strike ip (strikes d);
  sp_offender ip : offenders d' !! ip = offenders d !! ip ∨
    (offenders d' !! ip = None ∧ bans d' !! ip = None ∧ ∀ s, s ∈ strikes d' → s_ip s ≠ ip);
  sp_audit : List.filter (λ e, negb (old_audit pol now e)) (audit d') = List.filter (λ e, negb (old_audit pol now e)) (audit d);
  sp_usage : List.filter (λ u, negb (old_usage pol now u)) (ai_usage d') = List.filter (λ u, negb (old_usage pol now u)) (ai_usage d)
}.

#[export] Instance spared_refl pol now : Reflexive (spared pol now).
Proof. intros d. split; auto. Qed.
#[export] Instance spared_trans pol now : Transitive (spared pol now).
Proof.
  intros a b c [] []. split; try congruence.
  - by etransitivity.
  - intros ip Hb. rewrite <- sp_last0 by done. apply sp_last1. by rewrite sp_bans0.
  - intros ip. destruct (sp_offender1 ip) as [H|H]; [|by right]. destruct (sp_offender0 ip) as [H'|(H' & Hb & Hs)].
    + left. congruence.
    + right. split; [congruence|]. split; [congruence|]. intros s Hin. apply Hs. by eapply elem_of_sublist.
Qed.

(** A run relates the tables before and after as its parts do. *)
Lemma PruneRetention_keeps (R : relation db) `{!Reflexive R, !Transitive R} lim ctx pol now W :
  ((0 <? rp_Strikes pol) = true → Keeps R (prune_strikes lim (cutoffRFC3339 now (rp_Strikes pol)) ctx)) →
  Keeps R (prune_offenders lim ctx) →
  ((0 <? rp_Audit pol) && AuditPruneAcknowledged pol = true → Keeps R (prune_audit lim (cutoffRFC3339 now (rp_Audit pol)) ctx)) →
  ((0 <? rp_AIUsage pol) = true → Keeps R (prune_usage lim (cutoffRFC3339 now (rp_AIUsage pol)) ctx)) →
  R (tables W) (tables (PruneRetention lim ctx pol now W).2).
Proof.
  intros Hst Hof Hau Hus. unfold PruneRetention.
  assert (∀ {A} (m : sql A) V r V', Keeps R m → m V = (r, V') → R (tables V) (tables V')) as HK.
  { intros A m V r V' Hm E. specialize (Hm V). by rewrite E in Hm. }
  destruct (0 <? rp_Strikes pol) eqn:Ew.
  1: destruct (prune_strikes _ _ _ W) as [[n|e] W1] eqn:E1; (apply HK in E1; [|by apply Hst]); [|done];
    destruct (prune_offenders _ _ W1) as [[m|e] W2] eqn:E2; (apply HK in E2; [|exact Hof]); [|by etransitivity];
    assert (R (tables W) (tables W2)) as H2 by (by etransitivity); clear E1 E2.
  2: generalize (reflexivity (R := R) (tables W)); generalize (tables W) at 1 3 as d0; intros d0 H2; rename W into W2.
  all: destruct (0 <? rp_Audit pol) eqn:Ea; [destruct (AuditPruneAcknowledged pol) eqn:Ek|].
  all: try (destruct (prune_audit _ _ _ W2) as [[k|e] W3] eqn:E3; (apply HK in E3; [|by apply Hau]); [|by etransitivity];
      pose proof (transitivity (R := R) H2 E3)).
  all: destruct (0 <? rp_AIUsage pol) eqn:Eu; try done.
  all: destruct (prune_usage _ _ _ _) as [[u|e] W4] eqn:E4; (apply HK in E4; [|by apply Hus]); by etransitivity.
Qed.

Section spared.
Context (lim : limits) `{!LimitLaws lim} (ctx : nat → bool) (pol : RetentionPolicy) (now : time).

Lemma spared_strikes : (0 <? rp_Strikes pol) = true →
  Keeps (spared pol now) (prune_strikes lim (cutoffRFC3339 now (rp_Strikes pol)) ctx).
Proof.
  intros Hw. apply keeps_deleteBatched; [apply _..|]. intros d. split; simpl; auto.
  - apply drop_masked_sublist.
  - apply drop_masked_keeps. unfold old_strike. rewrite Hw. apply aged_mask, strike_mask_aged with (bans d), pick_rows_le.
  - intros ip Hb. eapply last_strike_kept; [exact Hb|apply pick_rows_le].
Qed.

Lemma spared_offenders : Keeps (spared pol now) (prune_offenders lim ctx).
Proof.
  apply keeps_deleteBatched; [apply _..|]. intros d. split; simpl; auto. intros ip.
  destruct (decide (ip ∈ pick_ips lim retentionBatchSize (offender_set d))) as [Hin|Hin].
  - right. split; [apply map_lookup_filter_None; right; intros o _ Hn; done|].
    apply pick_ips_sub, elem_of_offender_set in Hin as [Hp _]. unfold offenderPruneWhere in Hp. bool_hyps. split; [done|].
    rewrite existsb_false_elem in H. intros s Hs. specialize (H s Hs). by bool_hyps.
  - left. destruct (offenders d !! ip) as [o|] eqn:E; [|apply map_lookup_filter_None; by left].
    by apply map_lookup_filter_Some.
Qed.

Lemma spared_audit : (0 <? rp_Audit pol) && AuditPruneAcknowledged pol = true →
  Keeps (spared pol now) (prune_audit lim (cutoffRFC3339 now (rp_Audit pol)) ctx).
Proof.
  intros Hw. apply keeps_deleteBatched; [apply _..|]. intros d. split; simpl; auto.
  apply drop_masked_keeps. unfold old_audit. rewrite Hw. apply (aged_mask a_recorded_at), pick_rows_le.
Qed.

Lemma spared_usage : (0 <? rp_AIUsage pol) = true →
  Keeps (spared pol now) (prune_usage lim (cutoffRFC3339 now (rp_AIUsage pol)) ctx).
Proof.
  intros Hw. apply keeps_deleteBatched; [apply _..|]. intros d. split; simpl; auto.
  apply drop_masked_keeps. unfold old_usage. rewrite Hw. apply (aged_mask u_called), pick_rows_le.
Qed.
End spared.

(** C14. Pruning takes only what has aged, by the rows' times: whatever
    statement fails and whenever the run is cancelled, bans and allowlist are
    untouched; a strike, AI-usage or (only once acknowledged) audit row goes
    only if its time lies before now minus the table's window, or, for a row
    stamped with a fraction of a second, less than one second after it (the
    rows compare as text), the rest staying in order; a banned address keeps
    its latest strike; and no offender loses its count while it has a strike
    or a ban. *)
Theorem PruneRetention_spares lim ctx pol now W :
  LimitLaws lim → spared pol now (tables W) (tables (PruneRetention lim ctx pol now W).2).
Proof.
  intros HL. apply (PruneRetention_keeps (spared pol now)).
  - by apply spared_strikes.
  - by apply spared_offenders.
  - by apply spared_audit.
  - by apply spared_usage.
Qed.

(** ** A driver that takes the first rows *)
Fixpoint first_rows (n : nat) (m : list bool) : list bool :=
  match m with
  | [] => []
  | true :: m => match n with O => false :: first_rows O m | S n => true :: first_rows n m end
  | false :: m => false :: first_rows n m
  end.
Definition table_order : limits := MkLimits first_rows (λ n X, list_to_set (take n (elements X))).

#[export] Instance table_order_laws : LimitLaws table_order.
Proof.
  split; simpl.
  - intros n m. revert n. induction m as [|[] m IH]; intros [|n]; simpl; constructor; try done; apply IH.
  - intros n m. unfold mask_count. revert n. induction m as [|[] m IH]; intros [|n]; simpl; rewrite ?IH; try lia. by destruct (length _).
  - intros n X ip. rewrite elem_of_list_to_set. intros Hin. apply elem_of_elements. eapply elem_of_sublist; [exact Hin|apply sublist_take].
  - intros n X. rewrite size_list_to_set by (eapply sublist_NoDup; [apply (NoDup_elements X)|apply sublist_take]).
    rewrite length_take. done.
Qed.

(** Two old strikes of a banned address, one of an address nobody bans. *)
Definition aged_db : db := MkDb
  {[Addr4 1 := MkOffender 0 0 2 false; Addr4 2 := MkOffender 0 0 1 false]}
  [MkStrikeRow (Addr4 1) 0 1 60 "a" []; MkStrikeRow (Addr4 2) 0 1 60 "b" []; MkStrikeRow (Addr4 1) 5 2 60 "c" []]
  {[Addr4 1 := MkBan 5 None 2 "c" false 0 0 false None]}
  [MkAudit 1 0 "ban" (OnIP (Addr4 1)) 60 1 "a"] 2 ∅ ∅ [] ∅ ∅.
Definition week : RetentionPolicy := MkRetention (7 * 24 * Hour) (7 * 24 * Hour) 0 true.

Lemma prune_dry_run_exact_witness :
  ∃ st d', CountPruneCandidates week (30 * 24 * Hour) (MkWorld aged_db []) = (Ok st, MkWorld aged_db []) ∧
    PruneRetention table_order (λ _, false) week (30 * 24 * Hour) (MkWorld aged_db []) =
      (MkReport (List.filter (λ s, negb (bool_decide (Table s = "audit_log")) || AuditPruneAcknowledged week) st)
         ((0 <? rp_Audit week) && negb (AuditPruneAcknowledged week)) false, MkWorld d' []).
Proof.
  apply (prune_dry_run_exact table_order (λ _, false) week (30 * 24 * Hour) aged_db table_order_laws); [done|vm_compute; congruence..].
Defined.

(** A strike half a second inside its window goes: "...00.5Z" sorts before the
    cutoff "...00Z". *)
Lemma pruned_inside_window :
  let now := 30 * 24 * Hour in
  let row t := MkStrikeRow (Addr4 1) t 1 60 "a" [] in
  let d t := MkDb ∅ [row t] ∅ [] 1 ∅ ∅ [] ∅ ∅ in
  let left t := strikes (tables (PruneRetention table_order (λ _, false) week now (MkWorld (d t) [])).2) in
  left (now - rp_Strikes week + Second `div` 2) = [] ∧ left (now - rp_Strikes week) = [row (now - rp_Strikes week)].
Proof. vm_compute. done. Qed.

Lemma PruneRetention_spares_witness :
  strikes (tables (PruneRetention table_order (λ _, false) week (30 * 24 * Hour) (MkWorld aged_db [])).2) =
    [MkStrikeRow (Addr4 1) 5 2 60 "c" []] ∧
  spared week (30 * 24 * Hour) aged_db (tables (PruneRetention table_order (λ _, false) week (30 * 24 * Hour) (MkWorld aged_db [])).2).
Proof.
  split; [vm_compute; reflexivity|].
  exact (PruneRetention_spares table_order (λ _, false) week (30 * 24 * Hour) (MkWorld aged_db []) table_order_laws).
Defined.

(** The verb drops the report of a run that failed half way: the strikes are
    gone and no "retention_prune" row says so.  The daily job does record what
    it finished. *)
Lemma prune_verb_untraced :
  let faults := [true; true; false] in
  let verb := handlePrune table_order (λ _, false) (Some week) false (30 * 24 * Hour) (30 * 24 * Hour) (MkWorld aged_db faults) in
  let job := runPruneOnce table_order (λ _, false) (Some week) (30 * 24 * Hour) (30 * 24 * Hour) (MkWorld aged_db faults) in
  verb.1 = PruneFailed ∧ length (strikes (tables verb.2)) = 1%nat ∧ audit (tables verb.2) = audit aged_db ∧
  length (strikes (tables job)) = 1%nat ∧ a_op <$> audit (tables job) = ["ban"; "retention_prune"; "retention_prune"].
Proof. vm_compute. repeat split; reflexivity. Qed.
