(* ===== verification/StoreReport.v ===== *)
(** The read-only queries behind the report and events verbs:
    [internal/store/report.go]. *)
From stdpp Require Import sorting.
From S2P Require Import Prelude GoStrings Netip NetipParse Sdk.
From S2P Require Import Store.
#[local] Open Scope Z_scope.

#[export] Instance subject_eq_dec : EqDecision subject.
Proof. solve_decision. Defined.

Definition reportLimitCap : Z := 1000.

Definition clampReportLimit (limit : Z) : Z :=
  if limit <=? 0 then 1 else if reportLimitCap <? limit then reportLimitCap else limit.

(** At most [limit] rows, the newest (the last of a table) first. *)
Definition newest {A} (limit : Z) (l : list A) : list A := take (Z.to_nat (clampReportLimit limit)) (reverse l).

Definition GetOffender (ip : addr) : sql (option offender) := query (λ d, offenders d !! ip).

Definition StrikesForIP (ip : addr) (limit : Z) : sql (list strike_row) :=
  query (λ d, newest limit (List.filter (λ s, bool_decide (s_ip s = ip)) (strikes d))).

(** Rows of a prefix target a range, not this address. *)
Definition AuditLogForIP (ip : addr) (limit : Z) : sql (list AuditEntry) :=
  query (λ d, newest limit (List.filter (λ e, bool_decide (a_subject e = OnIP ip)) (audit d))).

(** The row as it is, expired or not. *)
Definition ActiveBanForIP (ip : addr) : sql (option ban_row) := query (λ d, bans d !! ip).

Record OffenderSummary := MkSummary { os_IP : addr; os_row : offender; Banned : bool; os_Permanent : bool }.

Definition summary (d : db) (kv : addr * offender) : OffenderSummary :=
  MkSummary kv.1 kv.2
    (match bans d !! kv.1 with Some _ => true | None => false end)
    (match bans d !! kv.1 with Some b => bool_decide (expires_at b = None) | None => false end).

(** [ORDER BY last_seen DESC, ip]: text columns both. *)
Definition listed_before (a b : OffenderSummary) : Prop :=
  if text_lt (last_seen (os_row b)) (last_seen (os_row a)) then True
  else if text_lt (last_seen (os_row a)) (last_seen (os_row b)) then False
  else String.le (show_addr (os_IP a)) (show_addr (os_IP b)).

#[export] Instance listed_before_dec a b : Decision (listed_before a b).
Proof. unfold listed_before. repeat case_match; apply _. Defined.

Definition ListOffenders (permanentOnly : bool) (limit : Z) : sql (list OffenderSummary) :=
  query (λ d, take (Z.to_nat (clampReportLimit limit))
    (merge_sort listed_before (List.filter (λ o, negb permanentOnly || os_Permanent o) (summary d <$> map_to_list (offenders d))))).
