(* ===== verification/SSHPeers.v ===== *)
(** Operator SSH peers from the kernel: [internal/decision/sshpeers.go], and
    [sshClientIP] of [engine.go].

    A file is its content, [None] when it cannot be opened. *)
From Stdlib Require Import Ascii.
From S2P Require Import Prelude GoStrings Netip NetipParse.

Definition NL : ascii := "010"%char.
Definition CR : ascii := "013"%char.

Definition procTCPEstablished : string := "01".
Definition SSHPeerCacheTTL : duration := 2 * Second.

(** ** Lines of a [bufio.Scanner] *)

(** A line that does not fit the 64 KiB buffer ends the scan. *)
Definition maxLine : nat := Z.to_nat 65535.

Fixpoint drop_cr (s : string) : string :=
  match s with
  | EmptyString => EmptyString
  | String a s' => match s' with
                   | EmptyString => if decide (a = CR) then EmptyString else s
                   | _ => String a (drop_cr s')
                   end
  end.

(** The pieces between newlines, without the empty piece after the last one. *)
Fixpoint drop_last_empty (l : list string) : list string :=
  match l with
  | [] => []
  | [s] => if decide (s = EmptyString) then [] else [s]
  | s :: l => s :: drop_last_empty l
  end.

Fixpoint until_long (l : list string) : list string :=
  match l with
  | [] => []
  | s :: l => if (maxLine <? String.length s)%nat then [] else drop_cr s :: until_long l
  end.

Definition scan_lines (content : string) : list string :=
  until_long (drop_last_empty (split_on NL content)).

(** ** Parsing *)
Definition sshdPorts (content : option string) : gset Z :=
  match content with
  | None => {[22]}
  | Some c =>
    let ports := fold_left (λ (ports : gset Z) line,
      match StrFields line with
      | f0 :: f1 :: _ =>
        if EqualFold f0 "Port" then
          match ParseUint10 16 f1 with
          | Some n => if 0 <? n then ports ∪ {[n]} else ports
          | None => ports
          end
        else ports
      | _ => ports
      end) (scan_lines c) ∅ in
    if decide (ports = ∅) then {[22]} else ports
  end.

Definition procPort (field : string) : option Z :=
  match cut_last ":"%char field with
  | Some (_, port) => if (String.length port =? 4)%nat then ParseUint16 16 port else None
  | None => None
  end.

(** The value of bytes, most significant first. *)
Definition be_value (bs : list Z) : Z := fold_left (λ acc b, acc * 256 + b) bs 0.

Definition procAddr (field : string) : option addr :=
  match cut_last ":"%char field with
  | None => None
  | Some (h, _) =>
    match hex_decode h with
    | Some [r0; r1; r2; r3] => Some (Addr4 (be_value [r3; r2; r1; r0]))
    | Some [a0; a1; a2; a3; b0; b1; b2; b3; c0; c1; c2; c3; d0; d1; d2; d3] =>
      Some (Unmap (Addr6 (be_value [a3; a2; a1; a0; b3; b2; b1; b0; c3; c2; c1; c0; d3; d2; d1; d0]) EmptyString))
    | _ => None
    end
  end.

(** One line of /proc/net/tcp or tcp6. *)
Definition parse_line (ports : gset Z) (line : string) : option addr :=
  match StrFields line with
  | _ :: local :: remote :: state :: _ =>
    if decide (state = procTCPEstablished) then
      match procPort local with
      | Some p => if decide (p ∈ ports) then procAddr remote else None
      | None => None
      end
    else None
  | _ => None
  end.

Definition parseProcTCPPeers (content : string) (ports : gset Z) : list addr :=
  omap (parse_line ports) (scan_lines content).

Definition add_peer (peers : list addr) (p : addr) : list addr :=
  if decide (p ∈ peers) then peers else peers ++ [p].

(** [ProcSSHPeers]: the configuration and the proc files of the moment. *)
Definition ProcSSHPeers (sshd_config : option string) (proc : list (option string)) : list addr :=
  let ports := sshdPorts sshd_config in
  fold_left (λ peers f, match f with
    | None => peers
    | Some c => fold_left add_peer (parseProcTCPPeers c ports) peers
    end) proc [].

Definition sshClientIP (env : string) : addr :=
  match StrFields env with
  | [] => AddrNone
  | f :: _ => match ParseAddr f with Some ip => Unmap ip | None => AddrNone end
  end.

(** ** The cache *)
Record sshPeerCache := MkCache { fetched : option time; peers : list addr }.

Definition emptyCache : sshPeerCache := MkCache None [].

(** [get] at [now] with [probe] the kernel's answer if it is asked; the zero
    [fetched] is older than any TTL. *)
Definition cache_get (now : time) (probe : list addr) (c : sshPeerCache) : list addr * sshPeerCache :=
  if match fetched c with None => true | Some t => SSHPeerCacheTTL <? now - t end
  then (probe, MkCache (Some now) probe)
  else (peers c, c).

Definition reset_cache (c : sshPeerCache) : sshPeerCache := MkCache None (peers c).

Definition activeSSHPeers (now : time) (env : string) (probe : list addr) (c : sshPeerCache)
    : list addr * sshPeerCache :=
  let '(ps, c') := cache_get now probe c in
  let p := sshClientIP env in
  ((if IsValid p then [p] else []) ++ ps, c').

(** ** Examples from the proc format *)
Example procAddr_v4 : procAddr "0100A8C0:D2F0" = ParseAddr "192.168.0.1".
Proof. vm_compute. reflexivity. Qed.
Example procAddr_v6_mapped : procAddr "0000000000000000FFFF00000100A8C0:D2F0" = ParseAddr "192.168.0.1".
Proof. vm_compute. reflexivity. Qed.
Example procPort_22 : procPort "0100007F:0016" = Some 22.
Proof. vm_compute. reflexivity. Qed.

(** ** What the kernel writes *)
Definition hexd (d : Z) : ascii := Ascii.ascii_of_N (Z.to_N (if d <? 10 then 48 + d else 55 + d)).
Definition hex_byte (b : Z) : string := String (hexd (b `div` 16)) (String (hexd (b `mod` 16)) EmptyString).

(** A 32-bit group of an address, least significant byte first. *)
Definition kernel_word (w : Z) : string :=
  hex_byte (w `mod` 256) +:+ hex_byte ((w `div` 2 ^ 8) `mod` 256) +:+
  hex_byte ((w `div` 2 ^ 16) `mod` 256) +:+ hex_byte ((w `div` 2 ^ 24) `mod` 256).

Definition kernel_addr (a : addr) : string :=
  match a with
  | AddrNone => EmptyString
  | Addr4 v => kernel_word v
  | Addr6 v _ => kernel_word (v `div` 2 ^ 96) +:+ kernel_word ((v `div` 2 ^ 64) `mod` 2 ^ 32) +:+
                 kernel_word ((v `div` 2 ^ 32) `mod` 2 ^ 32) +:+ kernel_word (v `mod` 2 ^ 32)
  end.

Definition kernel_port (p : Z) : string := hex_byte (p `div` 256) +:+ hex_byte (p `mod` 256).

Fixpoint spaces (n : nat) : string := match n with O => EmptyString | S n => String " "%char (spaces n) end.

(** One socket of the table: slot, local and remote ends, state, the rest. *)
Definition kernel_line (pad : nat) (sl : string) (la : addr) (lp : Z) (ra : addr) (rp : Z) (state rest : string) : string :=
  spaces pad +:+ sl +:+ String " "%char
    ((kernel_addr la +:+ String ":"%char (kernel_port lp)) +:+ String " "%char
      ((kernel_addr ra +:+ String ":"%char (kernel_port rp)) +:+ String " "%char
        (state +:+ String " "%char rest))).

Definition hexd_ok (d : Z) : bool :=
  bool_decide (hex_val (hexd d) = Some d) && negb (is_space (hexd d)) && negb (bool_decide (hexd d = ":"%char)).

Lemma hexd_spec d : 0 <= d < 16 → hex_val (hexd d) = Some d ∧ is_space (hexd d) = false ∧ hexd d ≠ ":"%char.
Proof.
  intros H. assert (forallb hexd_ok (seqZ 0 16) = true) as Hall by (vm_compute; reflexivity).
  rewrite forallb_true_elem in Hall. specialize (Hall d ltac:(apply elem_of_seqZ; lia)).
  unfold hexd_ok in Hall. by bool_hyps.
Qed.

Lemma hex_decode_byte b s : 0 <= b < 256 → hex_decode (hex_byte b +:+ s) = (λ bs, b :: bs) <$> hex_decode s.
Proof.
  intros Hb. cbn [hex_byte String.append]. pose proof (Z.div_mod b 16). pose proof (Z.mod_pos_bound b 16).
  assert (0 <= b `div` 16 < 16) by (split; [apply Z.div_pos; lia|apply Z.div_lt_upper_bound; lia]).
  simpl. destruct (hexd_spec (b `div` 16)) as [-> _]; [done|].
  destruct (hexd_spec (b `mod` 16)) as [-> _]; [lia|].
  destruct (hex_decode s); simpl; [|done]. do 2 f_equal. lia.
Qed.

Lemma byte_range x n : 0 <= (x `div` n) `mod` 256 < 256.
Proof. apply Z.mod_pos_bound. lia. Qed.

Lemma hex_decode_word w s :
  hex_decode (kernel_word w +:+ s) =
  (λ bs, [w `mod` 256; (w `div` 2 ^ 8) `mod` 256; (w `div` 2 ^ 16) `mod` 256; (w `div` 2 ^ 24) `mod` 256] ++ bs) <$> hex_decode s.
Proof.
  unfold kernel_word. rewrite !str_app_assoc.
  rewrite hex_decode_byte by (apply Z.mod_pos_bound; lia). rewrite !hex_decode_byte by apply byte_range.
  by destruct (hex_decode s).
Qed.

(** The four bytes of a 32-bit value, most significant first. *)
Lemma be_word acc w rest : 0 <= w < 2 ^ 32 →
  fold_left (λ acc b, acc * 256 + b)
    ((w `div` 2 ^ 24) `mod` 256 :: (w `div` 2 ^ 16) `mod` 256 :: (w `div` 2 ^ 8) `mod` 256 :: w `mod` 256 :: rest) acc =
  fold_left (λ acc b, acc * 256 + b) rest (acc * 2 ^ 32 + w).
Proof.
  intros Hw. simpl. f_equal.
  change (2 ^ 8) with 256. change (2 ^ 16) with (256 * 256). change (2 ^ 24) with (256 * 256 * 256).
  change (2 ^ 32) with (256 * 256 * 256 * 256) in *.
  rewrite <- !Z.div_div by lia.
  set (w1 := w `div` 256). set (w2 := w1 `div` 256). set (w3 := w2 `div` 256).
  pose proof (Z.div_mod w 256). pose proof (Z.div_mod w1 256). pose proof (Z.div_mod w2 256).
  assert (w3 `mod` 256 = w3) as ->.
  { apply Z.mod_small. unfold w3, w2, w1. rewrite !Z.div_div by lia. split; [apply Z.div_pos; lia|].
    apply Z.div_lt_upper_bound; lia. }
  unfold w3, w2, w1 in *. lia.
Qed.

Lemma div_mod_range x n : 0 <= (x `div` n) `mod` 2 ^ 32 < 2 ^ 32.
Proof. apply Z.mod_pos_bound. lia. Qed.

(** The four words of a 128-bit value. *)
Lemma words_value v : 0 <= v < 2 ^ 128 →
  (((0 * 2 ^ 32 + v `div` 2 ^ 96) * 2 ^ 32 + (v `div` 2 ^ 64) `mod` 2 ^ 32) * 2 ^ 32 +
     (v `div` 2 ^ 32) `mod` 2 ^ 32) * 2 ^ 32 + v `mod` 2 ^ 32 = v.
Proof.
  intros Hv. replace (2 ^ 96) with (2 ^ 32 * 2 ^ 32 * 2 ^ 32) by reflexivity.
  replace (2 ^ 64) with (2 ^ 32 * 2 ^ 32) by reflexivity.
  clear Hv. assert (0 < 2 ^ 32) as HB by reflexivity. revert HB. generalize (2 ^ 32). intros B HB.
  rewrite <- !Z.div_div by lia.
  pose proof (Z.div_mod v B ltac:(lia)). pose proof (Z.div_mod (v / B) B ltac:(lia)).
  pose proof (Z.div_mod (v / B / B) B ltac:(lia)).
  replace (0 * B + v / B / B / B) with (v / B / B / B) by lia.
  replace (v / B / B / B * B + (v / B / B) mod B) with (v / B / B) by lia.
  replace (v / B / B * B + (v / B) mod B) with (v / B) by lia. lia.
Qed.

Lemma be_value_word w : 0 <= w < 2 ^ 32 →
  be_value [(w `div` 2 ^ 24) `mod` 256; (w `div` 2 ^ 16) `mod` 256; (w `div` 2 ^ 8) `mod` 256; w `mod` 256] = w.
Proof. intros Hw. unfold be_value. rewrite (be_word 0 w []) by done. cbn [fold_left]. lia. Qed.

Lemma be_value_words v : 0 <= v < 2 ^ 128 →
  be_value
    (let w1 := v `div` 2 ^ 96 in let w2 := (v `div` 2 ^ 64) `mod` 2 ^ 32 in
     let w3 := (v `div` 2 ^ 32) `mod` 2 ^ 32 in let w4 := v `mod` 2 ^ 32 in
     [(w1 `div` 2 ^ 24) `mod` 256; (w1 `div` 2 ^ 16) `mod` 256; (w1 `div` 2 ^ 8) `mod` 256; w1 `mod` 256;
      (w2 `div` 2 ^ 24) `mod` 256; (w2 `div` 2 ^ 16) `mod` 256; (w2 `div` 2 ^ 8) `mod` 256; w2 `mod` 256;
      (w3 `div` 2 ^ 24) `mod` 256; (w3 `div` 2 ^ 16) `mod` 256; (w3 `div` 2 ^ 8) `mod` 256; w3 `mod` 256;
      (w4 `div` 2 ^ 24) `mod` 256; (w4 `div` 2 ^ 16) `mod` 256; (w4 `div` 2 ^ 8) `mod` 256; w4 `mod` 256]) = v.
Proof.
  intros Hv. cbv zeta. pose proof (words_value v Hv) as Hval. pose proof (div_mod_range v (2 ^ 64)) as H2.
  pose proof (div_mod_range v (2 ^ 32)) as H3.
  assert (0 <= v `mod` 2 ^ 32 < 2 ^ 32) as H4 by (apply Z.mod_pos_bound; lia).
  assert (0 <= v `div` 2 ^ 96 < 2 ^ 32) as H1.
  { split; [apply Z.div_pos; lia|]. apply Z.div_lt_upper_bound; [done|].
    replace (2 ^ 96 * 2 ^ 32) with (2 ^ 128) by reflexivity. lia. }
  revert Hval H1 H2 H3 H4. generalize (v `div` 2 ^ 96), ((v `div` 2 ^ 64) `mod` 2 ^ 32), ((v `div` 2 ^ 32) `mod` 2 ^ 32), (v `mod` 2 ^ 32).
  intros w1 w2 w3 w4 Hval H1 H2 H3 H4. unfold be_value.
  rewrite be_word by done.
  rewrite !be_word by done. exact Hval.
Qed.

Lemma procAddr_kernel a port :
  wf_addr a → IsValid a = true → hasZone a = false → no_char ":"%char port = true →
  procAddr (kernel_addr a +:+ String ":"%char port) = Some (Unmap a).
Proof.
  intros Hwf Hv Hz Hp. unfold procAddr. rewrite cut_last_app by done.
  destruct a as [|v|v z]; [done| |]; simpl in Hwf; cbn [kernel_addr].
  - rewrite <- (str_app_nil_r (kernel_word v)), hex_decode_word.
    cbn [hex_decode fmap option_fmap option_map app]. by rewrite be_value_word.
  - simpl in Hz. apply negb_false_iff, bool_decide_eq_true_1 in Hz as ->.
    rewrite <- (str_app_nil_r (kernel_word (v `mod` 2 ^ 32))), !hex_decode_word.
    cbn [hex_decode fmap option_fmap option_map app]. pose proof (be_value_words v Hwf) as H. cbv zeta in H.
    by rewrite H.
Qed.

(** ** Fields and lines *)
Lemma StrFields_spaces n s : StrFields (spaces n +:+ s) = StrFields s.
Proof. induction n as [|n IH]; [done|]. cbn [spaces String.append]. by rewrite StrFields_space. Qed.

Lemma hex_byte_plain b : 0 <= b < 256 → no_space (hex_byte b) = true ∧ no_char ":"%char (hex_byte b) = true.
Proof.
  intros Hb. unfold hex_byte. cbn [no_space no_char].
  destruct (hexd_spec (b `div` 16)) as (_ & -> & H1).
  { split; [apply Z.div_pos; lia|apply Z.div_lt_upper_bound; lia]. }
  destruct (hexd_spec (b `mod` 16)) as (_ & -> & H2); [apply Z.mod_pos_bound; lia|].
  rewrite !bool_decide_false by done. done.
Qed.

Lemma kernel_word_plain w : no_space (kernel_word w) = true.
Proof.
  unfold kernel_word. rewrite !no_space_app.
  rewrite (proj1 (hex_byte_plain (w `mod` 256) ltac:(apply Z.mod_pos_bound; lia))).
  rewrite !(λ n, proj1 (hex_byte_plain _ (byte_range w n))). done.
Qed.

Lemma kernel_addr_plain a : no_space (kernel_addr a) = true.
Proof. destruct a; cbn [kernel_addr]; [done|..]; rewrite ?no_space_app, !kernel_word_plain; done. Qed.

Lemma kernel_port_plain p : 0 <= p < 65536 →
  no_space (kernel_port p) = true ∧ no_char ":"%char (kernel_port p) = true.
Proof.
  intros Hp. unfold kernel_port. rewrite no_space_app, no_char_app.
  destruct (hex_byte_plain (p `div` 256)) as [-> ->].
  { split; [apply Z.div_pos; lia|apply Z.div_lt_upper_bound; lia]. }
  destruct (hex_byte_plain (p `mod` 256)) as [-> ->]; [apply Z.mod_pos_bound; lia|done].
Qed.

Lemma kernel_end_plain a p : 0 <= p < 65536 → no_space (kernel_addr a +:+ String ":"%char (kernel_port p)) = true.
Proof.
  intros Hp. rewrite no_space_app, kernel_addr_plain. simpl. apply (kernel_port_plain p Hp).
Qed.

Lemma procPort_kernel a p : 0 <= p < 65536 → procPort (kernel_addr a +:+ String ":"%char (kernel_port p)) = Some p.
Proof.
  intros Hp. unfold procPort. rewrite cut_last_app by apply (kernel_port_plain p Hp).
  set (h := p `div` 256). set (l := p `mod` 256).
  assert (0 <= h < 256) by (split; [apply Z.div_pos; lia|apply Z.div_lt_upper_bound; lia]).
  assert (0 <= l < 256) by (apply Z.mod_pos_bound; lia).
  assert (∀ b, 0 <= b < 256 → 0 <= b `div` 16 < 16 ∧ 0 <= b `mod` 16 < 16 ∧ b = 16 * (b `div` 16) + b `mod` 16) as Hn.
  { intros b Hb. split; [split; [apply Z.div_pos; lia|apply Z.div_lt_upper_bound; lia]|].
    split; [apply Z.mod_pos_bound; lia|apply Z.div_mod; lia]. }
  destruct (Hn h) as (Ha1 & Ha2 & Ha3); [done|]. destruct (Hn l) as (Hb1 & Hb2 & Hb3); [done|].
  assert (p = 256 * h + l) by (apply Z.div_mod; lia).
  unfold kernel_port. fold h l. unfold hex_byte. cbn [String.append String.length Nat.eqb].
  unfold ParseUint16, ParseUint. cbn [parse_base].
  rewrite (proj1 (hexd_spec _ Ha1)), (proj1 (hexd_spec _ Ha2)), (proj1 (hexd_spec _ Hb1)), (proj1 (hexd_spec _ Hb2)).
  replace ((((0 * 16 + h `div` 16) * 16 + h `mod` 16) * 16 + l `div` 16) * 16 + l `mod` 16) with p by lia.
  change (2 ^ 16) with 65536. destruct (Z.ltb_spec p 65536); [done|lia].
Qed.

Lemma parse_line_kernel ports pad sl la lp ra rp rest :
  no_space sl = true → sl ≠ EmptyString → wf_addr ra → IsValid ra = true → hasZone ra = false →
  0 <= lp < 65536 → 0 <= rp < 65536 → lp ∈ ports →
  parse_line ports (kernel_line pad sl la lp ra rp procTCPEstablished rest) = Some (Unmap ra).
Proof.
  intros Hs Hne Hwf Hv Hz Hlp Hrp Hin. unfold parse_line, kernel_line.
  assert (∀ a p, kernel_addr a +:+ String ":"%char (kernel_port p) ≠ EmptyString) as Hne'.
  { intros a p. by destruct (kernel_addr a). }
  rewrite StrFields_spaces, StrFields_word by done.
  rewrite !StrFields_word by (done || by apply kernel_end_plain).
  rewrite decide_True, procPort_kernel, decide_True by done.
  apply procAddr_kernel; [done..|]. apply (kernel_port_plain rp Hrp).
Qed.

Lemma drop_cr_plain s : no_char CR s = true → drop_cr s = s.
Proof.
  induction s as [|a s IH]; simpl; [done|]. intros [Ha Hs]%andb_true_iff.
  destruct s; [by bool_hyps; rewrite decide_False|]. by rewrite IH.
Qed.

(** A line the scanner delivers whole. *)
Definition line_fits (l : string) : bool := no_char NL l && (String.length l <=? maxLine)%nat.

Lemma scan_lines_Join ls : forallb line_fits ls = true →
  scan_lines (Join (ls ++ [EmptyString]) (String NL EmptyString)) = drop_cr <$> ls.
Proof.
  intros Hl. assert (Forall (λ l, no_char NL l = true ∧ (String.length l <= maxLine)%nat) ls) as Hf.
  { apply Forall_forall. intros l H. rewrite forallb_true_elem in Hl. specialize (Hl l H).
    unfold line_fits in Hl. bool_hyps. split; [done|]. by apply Nat.leb_le. }
  clear Hl. rename Hf into Hl. unfold scan_lines. rewrite split_Join.
  - assert (∀ l k, drop_last_empty (l ++ [k]) = l ++ drop_last_empty [k]) as Hd.
    { intros l k. induction l as [|x l IH]; [done|]. rewrite <- !app_comm_cons.
      rewrite <- IH. destruct l; done. }
    rewrite Hd. simpl. rewrite app_nil_r. clear Hd. induction Hl as [|x l [Hx Hlen] Hl IH]; [done|].
    cbn [until_long]. destruct (Nat.ltb_spec maxLine (String.length x)); [lia|]. by rewrite IH.
  - by destruct ls.
  - apply Forall_app. split; [|by repeat constructor]. eapply Forall_impl; [done|]. by intros ? [].
Qed.

Lemma elem_of_add_peers l ps p : p ∈ fold_left add_peer l ps ↔ p ∈ ps ∨ p ∈ l.
Proof.
  revert ps. induction l as [|q l IH]; intros ps; simpl; [set_solver|]. rewrite IH.
  unfold add_peer. case_decide; set_solver.
Qed.

Lemma elem_of_ProcSSHPeers cfg procs p :
  p ∈ ProcSSHPeers cfg procs ↔
  ∃ c line, Some c ∈ procs ∧ line ∈ scan_lines c ∧ parse_line (sshdPorts cfg) line = Some p.
Proof.
  unfold ProcSSHPeers.
  assert (∀ ps, p ∈ fold_left (λ peers f, match f with
    | None => peers | Some c => fold_left add_peer (parseProcTCPPeers c (sshdPorts cfg)) peers end) procs ps ↔
    p ∈ ps ∨ ∃ c line, Some c ∈ procs ∧ line ∈ scan_lines c ∧ parse_line (sshdPorts cfg) line = Some p) as H.
  { induction procs as [|f procs IH]; intros ps; simpl.
    - split; [auto|]. intros [?|(c & l & Hc & _)]; [done|]. by apply not_elem_of_nil in Hc.
    - rewrite IH. setoid_rewrite elem_of_cons. destruct f as [c|].
      + rewrite elem_of_add_peers. unfold parseProcTCPPeers. rewrite list_elem_of_omap. naive_solver.
      + naive_solver. }
  rewrite H. rewrite elem_of_nil. naive_solver.
Qed.

(** Every operator session is seen: if a readable socket table, whatever
    its other lines, holds an ESTABLISHED connection from [ra] to a local port
    sshd listens on, [ProcSSHPeers] returns [ra] in the spelling decisions
    compare (IPv4-mapped forms unmapped); other lines, malformed ones
    included, cannot hide it. *)
Theorem ProcSSHPeers_protects cfg procs pre post pad sl la lp ra rp rest :
  let line := kernel_line pad sl la lp ra rp procTCPEstablished rest in
  Some (Join ((pre ++ line :: post) ++ [EmptyString]) (String NL EmptyString)) ∈ procs →
  forallb line_fits (pre ++ line :: post) = true →
  no_char CR line = true → no_space sl = true → sl ≠ EmptyString →
  wf_addr ra → IsValid ra = true → hasZone ra = false →
  0 <= lp < 65536 → 0 <= rp < 65536 → lp ∈ sshdPorts cfg →
  Unmap ra ∈ ProcSSHPeers cfg procs.
Proof.
  intros line Hin Hall Hcr Hs Hne Hwf Hv Hz Hlp Hrp Hport. apply elem_of_ProcSSHPeers.
  eexists _, line. split; [exact Hin|]. split; [|by apply parse_line_kernel].
  rewrite scan_lines_Join by done. apply list_elem_of_fmap. exists line. rewrite drop_cr_plain by done.
  split; [done|]. apply elem_of_app. right. left.
Qed.

Lemma ProcSSHPeers_protects_witness :
  Addr4 0xCB007109 ∈ ProcSSHPeers None
    [None; Some (Join (("  sl  local_address rem_address   st" ::
      [kernel_line 3 "0:" (Addr6 0xffff7f000001 EmptyString) 22 (Addr6 0xffffCB007109 EmptyString) 54000 "01" "x"; "garbage 01"])
      ++ [EmptyString]) (String NL EmptyString))].
Proof.
  apply (ProcSSHPeers_protects None _ ["  sl  local_address rem_address   st"] ["garbage 01"] 3 "0:"
    (Addr6 0xffff7f000001 EmptyString) 22 (Addr6 0xffffCB007109 EmptyString) 54000 "x").
  - right. left.
  - vm_compute. reflexivity.
  - vm_compute. reflexivity.
  - reflexivity.
  - discriminate.
  - vm_compute. split; [discriminate|reflexivity].
  - reflexivity.
  - reflexivity.
  - lia.
  - lia.
  - apply (bool_decide_unpack _). vm_compute. exact I.
Defined.

(** ** The cache *)

(** Successive reads at given times, each with the kernel's answer then. *)
Fixpoint cache_run (reqs : list (time * list addr)) (c : sshPeerCache) : list (list addr) :=
  match reqs with
  | [] => []
  | (now, probe) :: reqs =>
    let '(ps, c') := cache_get now probe c in ps :: cache_run reqs c'
  end.

Lemma cache_run_fresh reqs c past :
  (∀ t, fetched c = Some t → (t, peers c) ∈ past) →
  ∀ i r, cache_run reqs c !! i = Some r →
  ∃ now p t, reqs !! i = Some (now, p) ∧ (t, r) ∈ past ++ take (S i) reqs ∧ now - t <= SSHPeerCacheTTL.
Proof.
  revert c past. induction reqs as [|[now probe] reqs IH]; intros c past Hc i r Hi; simpl in Hi.
  { by rewrite lookup_nil in Hi. }
  destruct (cache_get now probe c) as [ps c'] eqn:E. unfold cache_get in E.
  destruct i as [|i]; simplify_eq/=.
  - exists now, probe. destruct (fetched c) as [t|] eqn:Et.
    + destruct (SSHPeerCacheTTL <? now - t) eqn:El; bool_hyps; simplify_eq.
      * exists now. split; [done|]. split; [set_solver|]. unfold SSHPeerCacheTTL, Second. lia.
      * exists t. split; [done|]. specialize (Hc t eq_refl). split; [set_solver|]. lia.
    + simplify_eq. exists now. split; [done|]. split; [set_solver|]. unfold SSHPeerCacheTTL, Second. lia.
  - destruct (IH c' (past ++ [(now, probe)])) with (i := i) (r := r) as (n & p & t & H1 & H2 & H3); [|done|].
    + intros t Ht. apply elem_of_app.
      destruct (match fetched c with None => true | Some t => SSHPeerCacheTTL <? now - t end); simplify_eq/=.
      * right. left.
      * left. by apply Hc.
    + exists n, p, t. rewrite <- app_assoc in H2. done.
Qed.

(** The peer cache is never stale beyond its TTL: in any sequence of reads
    from a fresh cache, each answer is the kernel's answer at that read or at
    an earlier one at most [SSHPeerCacheTTL] before. *)
Theorem cache_fresh reqs i r :
  cache_run reqs emptyCache !! i = Some r →
  ∃ now p t, reqs !! i = Some (now, p) ∧ (t, r) ∈ take (S i) reqs ∧ now - t <= SSHPeerCacheTTL.
Proof. intros H. by apply (cache_run_fresh reqs emptyCache []) in H. Qed.

Lemma cache_fresh_witness :
  ∃ now p t, [(0, [Addr4 1]); (Second, [Addr4 2]); (5 * Second, [Addr4 3])] !! 1%nat = Some (now, p) ∧
    (t, [Addr4 1]) ∈ take 2 [(0, [Addr4 1]); (Second, [Addr4 2]); (5 * Second, [Addr4 3])] ∧ now - t <= SSHPeerCacheTTL.
Proof. apply (cache_fresh [(0, [Addr4 1]); (Second, [Addr4 2]); (5 * Second, [Addr4 3])] 1 [Addr4 1]). vm_compute. reflexivity. Defined.
