(* ===== verification/AuthPeers.v ===== *)
(** Authenticated-peer narrowing: [internal/decision/authpeers.go].

    [loginctl] is an argument: its output, or [None] when it is missing, fails
    or times out.  The filter returns the kept peers as a new list; the Go code
    reuses the probe's slice, which the kernel probe builds afresh each time. *)
From Stdlib Require Import Ascii.
From S2P Require Import Prelude GoStrings Netip NetipParse SSHPeers.

Definition AuthPeerGraceWindow : duration := 10 * Second.
Definition logindCacheTTL : duration := 5 * Second.

(** ** Reading logind *)
Definition session_ids (out : string) : list string :=
  omap (λ line, match StrFields line with f :: _ => Some f | [] => None end) (split_on NL out).

(** The remote hosts of the sessions, [None] at the first that is not an address. *)
Fixpoint remote_hosts (lines : list string) (hosts : gset addr) : option (gset addr) :=
  match lines with
  | [] => Some hosts
  | line :: lines =>
    let v := TrimSpace line in
    if decide (v = EmptyString) then remote_hosts lines hosts
    else match ParseAddr v with
         | None => None
         | Some a => remote_hosts lines (hosts ∪ {[Unmap a]})
         end
  end.

(** [None] is "not trustworthy". *)
Definition logindRemoteHosts (execLoginctl : list string → option string) : option (gset addr) :=
  match execLoginctl ["list-sessions"; "--no-legend"] with
  | None => None
  | Some out =>
    match session_ids out with
    | [] => Some ∅
    | ids =>
      match execLoginctl (["show-session"; "--property=RemoteHost"; "--value"] ++ ids) with
      | None => None
      | Some out => remote_hosts (split_on NL out) ∅
      end
    end
  end.

Record logind_cache := MkLogindCache { l_cached : option (gset addr); l_fetched : option time }.

Definition LogindSessionProbe (now : time) (execLoginctl : list string → option string) (c : logind_cache)
    : option (gset addr) * logind_cache :=
  if match l_fetched c with None => false | Some t => now - t <? logindCacheTTL end
  then (l_cached c, c)
  else let r := logindRemoteHosts execLoginctl in (r, MkLogindCache r (Some now)).

(** ** The filter *)
Record AuthenticatedPeerFilter := MkFilter { grace : duration; firstSeen : gmap addr time }.

Definition NewAuthenticatedPeerFilter (g : duration) : AuthenticatedPeerFilter := MkFilter g ∅.

Definition see (now : time) (m : gmap addr time) (p : addr) : gmap addr time :=
  match m !! Unmap p with Some _ => m | None => <[Unmap p := now]> m end.

Definition track (now : time) (established : list addr) (m : gmap addr time) : gmap addr time :=
  filter (λ kv, kv.1 ∈ Unmap <$> established) (fold_left (see now) established m).

(** Whether a peer keeps its immunity. *)
Definition keep_peer (now g : Z) (sessions : gset addr) (m : gmap addr time) (p : addr) : bool :=
  bool_decide (Unmap p ∈ sessions) || (now - default 0 (m !! Unmap p) <=? g).

Definition Peers (now : time) (established : list addr) (sessions : option (gset addr))
    (f : AuthenticatedPeerFilter) : list addr * AuthenticatedPeerFilter :=
  let m := track now established (firstSeen f) in
  (match sessions with
   | None => established
   | Some s => List.filter (keep_peer now (grace f) s m) established
   end, MkFilter (grace f) m).

(** ** Runs *)
Record poll := MkPoll { p_now : time; p_established : list addr; p_sessions : option (gset addr) }.

(** The filter after polls, oldest first, and its last answer. *)
Fixpoint run_polls (qs : list poll) (f : AuthenticatedPeerFilter) : AuthenticatedPeerFilter :=
  match qs with
  | [] => f
  | q :: qs => run_polls qs (Peers (p_now q) (p_established q) (p_sessions q) f).2
  end.

(** When the current uninterrupted run of polls showing [k] started; the polls
    are given newest first. *)
Fixpoint held_since (k : addr) (qs : list poll) : option time :=
  match qs with
  | [] => None
  | q :: qs => if decide (k ∈ Unmap <$> p_established q)
               then Some (default (p_now q) (held_since k qs)) else None
  end.

Example kept_then_dropped :
  let f := run_polls [MkPoll 0 [Addr4 1] (Some ∅)] (NewAuthenticatedPeerFilter AuthPeerGraceWindow) in
  (Peers (10 * Second) [Addr4 1] (Some ∅) f).1 = [Addr4 1] ∧ (Peers (11 * Second) [Addr4 1] (Some ∅) f).1 = [].
Proof. split; vm_compute; reflexivity. Qed.

(** ** Lemmas *)
Lemma lookup_see now m p k :
  see now m p !! k = if decide (k = Unmap p) then Some (default now (m !! k)) else m !! k.
Proof.
  unfold see. case_decide as Hk.
  - subst. destruct (m !! Unmap p) eqn:E; [by rewrite E|]. by rewrite lookup_insert_eq.
  - destruct (m !! Unmap p); [done|]. by rewrite lookup_insert_ne.
Qed.

Lemma lookup_fold_see now l m k :
  fold_left (see now) l m !! k = if decide (k ∈ Unmap <$> l) then Some (default now (m !! k)) else m !! k.
Proof.
  revert m. induction l as [|p l IH]; intros m; simpl; [done|]. rewrite IH, lookup_see.
  repeat case_decide; set_unfold; try done; try naive_solver.
Qed.

Lemma lookup_track now l m k :
  track now l m !! k = if decide (k ∈ Unmap <$> l) then Some (default now (m !! k)) else None.
Proof.
  unfold track. pose proof (lookup_fold_see now l m k) as H. case_decide as Hk.
  - apply map_lookup_filter_Some. done.
  - apply map_lookup_filter_None. right. intros t Ht. simpl. done.
Qed.

Lemma run_polls_held qs g k :
  firstSeen (run_polls qs (NewAuthenticatedPeerFilter g)) !! k = held_since k (reverse qs) ∧
  grace (run_polls qs (NewAuthenticatedPeerFilter g)) = g.
Proof.
  induction qs as [|q qs IH] using rev_ind; [by split; [apply lookup_empty|]|].
  assert (∀ a b f, run_polls (a ++ b) f = run_polls b (run_polls a f)) as Happ.
  { intros a. induction a as [|x a IHa]; intros b f; simpl; [done|]. apply IHa. }
  rewrite Happ, reverse_snoc. simpl. destruct IH as [IH1 IH2]. rewrite IH2. split; [|done].
  rewrite lookup_track, IH1. done.
Qed.

(** Immunity follows the login, and fails open: after any polls, the
    filter keeps exactly the established peers that have a logind session or
    whose current uninterrupted connection was first seen at most the grace
    window ago (a poll without the peer starts it afresh), whichever spelling
    of the address was seen; and without a trustworthy logind answer it keeps
    every established peer. *)
Theorem Peers_immunity qs g q :
  let f := run_polls qs (NewAuthenticatedPeerFilter g) in
  let kept := (Peers (p_now q) (p_established q) (p_sessions q) f).1 in
  match p_sessions q with
  | None => kept = p_established q
  | Some s =>
    ∀ p, p ∈ kept ↔ p ∈ p_established q ∧
      (Unmap p ∈ s ∨ ∃ t, held_since (Unmap p) (q :: reverse qs) = Some t ∧ p_now q - t <= g)
  end.
Proof.
  cbv zeta. unfold Peers. simpl. destruct (p_sessions q) as [s|]; [|done]. intros p.
  rewrite list_elem_of_In, List.filter_In, <- list_elem_of_In.
  destruct (run_polls_held qs g (Unmap p)) as [Hk Hg]. rewrite Hg. unfold keep_peer.
  cbn [held_since]. rewrite lookup_track, Hk, orb_true_iff, bool_decide_eq_true, Z.leb_le.
  split; intros [Hp H]; (split; [done|]);
    (assert (Unmap p ∈ Unmap <$> p_established q) as Hin by (by apply list_elem_of_fmap_2));
    rewrite (decide_True _ _ Hin) in *.
  - destruct H as [H|H]; [by left|right]. eauto.
  - destruct H as [H|(t & [= <-] & Ht)]; [by left|by right].
Qed.

Lemma remote_hosts_spec lines hosts r :
  remote_hosts lines hosts = Some r ↔
  (∀ l, l ∈ lines → TrimSpace l ≠ EmptyString → is_Some (ParseAddr (TrimSpace l))) ∧
  r = hosts ∪ list_to_set (omap (λ l, if decide (TrimSpace l = EmptyString) then None else Unmap <$> ParseAddr (TrimSpace l)) lines).
Proof.
  revert hosts. induction lines as [|l lines IH]; intros hosts; simpl.
  { split; [intros [= <-]; split; [by intros ? ?%not_elem_of_nil|set_solver]|intros [_ ->]; f_equal; set_solver]. }
  case_decide as Hl.
  - rewrite IH. setoid_rewrite elem_of_cons. naive_solver.
  - destruct (ParseAddr (TrimSpace l)) as [a|] eqn:E; simpl.
    + rewrite IH. setoid_rewrite elem_of_cons. split; intros [H1 H2]; (split; [naive_solver|]).
      * rewrite H2. set_solver.
      * rewrite H2. set_solver.
    + split; [done|]. intros [H _]. destruct (H l) as [a Ha]; [left|done|]. congruence.
Qed.

(** The logind answer is trusted only when complete: [logindRemoteHosts]
    returns a set only if every [loginctl] call it makes succeeds and every
    non-blank RemoteHost line is an address, and then it is the set of these
    addresses (unmapped); one host name makes the whole answer unavailable. *)
Theorem logindRemoteHosts_trust exec s :
  logindRemoteHosts exec = Some s →
  ∃ out, exec ["list-sessions"; "--no-legend"] = Some out ∧
    ((session_ids out = [] ∧ s = ∅) ∨
     ∃ out', exec (["show-session"; "--property=RemoteHost"; "--value"] ++ session_ids out) = Some out' ∧
       (∀ l, l ∈ split_on NL out' → TrimSpace l ≠ EmptyString → is_Some (ParseAddr (TrimSpace l))) ∧
       ∀ a, a ∈ s ↔ ∃ l b, l ∈ split_on NL out' ∧ TrimSpace l ≠ EmptyString ∧
                           ParseAddr (TrimSpace l) = Some b ∧ a = Unmap b).
Proof.
  unfold logindRemoteHosts. destruct (exec ["list-sessions"; "--no-legend"]) as [out|]; [|done].
  intros H. exists out. split; [done|]. destruct (session_ids out) as [|i ids] eqn:Ei; [left; by simplify_eq|right].
  destruct (exec _) as [out'|]; [|done]. exists out'. split; [done|].
  apply remote_hosts_spec in H as [H1 ->]. split; [done|]. intros a.
  rewrite elem_of_union, elem_of_empty, elem_of_list_to_set, list_elem_of_omap. split.
  - intros [[]|(l & Hl & Ha)]. case_decide; [done|]. apply fmap_Some in Ha as (b & Hb & ->). eauto 10.
  - intros (l & b & Hl & Hne & Hb & ->). right. exists l. split; [done|]. rewrite decide_False by done. by rewrite Hb.
Qed.

Lemma logindRemoteHosts_trust_witness :
  let exec := λ args, Some (if decide (args = ["list-sessions"; "--no-legend"]) then "  3 1000 op seat0" else "203.0.113.9") in
  ∃ out, exec ["list-sessions"; "--no-legend"] = Some out ∧
    ((session_ids out = [] ∧ {[Addr4 0xCB007109]} = (∅ : gset addr)) ∨
     ∃ out', exec (["show-session"; "--property=RemoteHost"; "--value"] ++ session_ids out) = Some out' ∧
       (∀ l, l ∈ split_on NL out' → TrimSpace l ≠ EmptyString → is_Some (ParseAddr (TrimSpace l))) ∧
       ∀ a, a ∈ ({[Addr4 0xCB007109]} : gset addr) ↔ ∃ l b, l ∈ split_on NL out' ∧ TrimSpace l ≠ EmptyString ∧
                           ParseAddr (TrimSpace l) = Some b ∧ a = Unmap b).
Proof.
  exact (logindRemoteHosts_trust
    (λ args, Some (if decide (args = ["list-sessions"; "--no-legend"]) then "  3 1000 op seat0" else "203.0.113.9"))
    {[Addr4 0xCB007109]} eq_refl).
Defined.
