(* ===== verification/NotifyEdge.v ===== *)
(** The notify_only edge map: [internal/decision/notifyedge.go].

    The map's iteration order decides which entry a full map without expired
    edges drops; it is an argument. *)
From Stdlib Require Import Ascii.
From S2P Require Import Prelude GoStrings Netip.

Definition notifyEdgeWindow : duration := 60 * Second.
Definition notifyEdgeMaxEntries : Z := 10000.
Definition notifyRuleMaxLen : nat := 128.

Record notifyEdge := MkEdge { rule : string; edge_at : time }.

Definition notifyRuleID (reason : string) : string := str_take notifyRuleMaxLen (cut ":"%char reason).1.

Definition edge_live (now : time) (e : notifyEdge) : bool := now - edge_at e <? notifyEdgeWindow.

Definition evictNotifyEdges (now : time) (pick : addr) (m : gmap addr notifyEdge) : gmap addr notifyEdge :=
  let m' := filter (λ kv, edge_live now kv.2 = true) m in
  if decide (size m' = size m) then delete pick m else m'.

Definition notifyEdgeRising (ip : addr) (r : string) (now : time) (pick : addr) (m : gmap addr notifyEdge)
    : bool * gmap addr notifyEdge :=
  let prev := m !! ip in
  if match prev with Some e => bool_decide (rule e = r) && edge_live now e | None => false end then (false, m)
  else
    let m := match prev with
             | None => if notifyEdgeMaxEntries <=? Z.of_nat (size m) then evictNotifyEdges now pick m else m
             | Some _ => m
             end in
    (true, <[ip := MkEdge r now]> m).

Definition clearNotifyEdge (ip : addr) (m : gmap addr notifyEdge) : gmap addr notifyEdge := delete ip m.

(** ** Runs: what the engine asks, and the answers *)
Inductive edge_op :=
| Rising (ip : addr) (r : string) (now : time) (pick : addr)
| Clear (ip : addr).

Definition edge_step (m : gmap addr notifyEdge) (o : edge_op) : gmap addr notifyEdge :=
  match o with
  | Rising ip r now pick => (notifyEdgeRising ip r now pick m).2
  | Clear ip => clearNotifyEdge ip m
  end.

(** When the map is full the iteration visits a key it holds. *)
Definition picks_key (m : gmap addr notifyEdge) (o : edge_op) : Prop :=
  match o with
  | Rising _ _ _ pick => Z.of_nat (size m) >= notifyEdgeMaxEntries → is_Some (m !! pick)
  | Clear _ => True
  end.

Inductive edges_reach : list edge_op → gmap addr notifyEdge → Prop :=
| edges_new : edges_reach [] ∅
| edges_step os m o : edges_reach os m → picks_key m o → edges_reach (os ++ [o]) (edge_step m o).

Lemma evict_subseteq now pick m : evictNotifyEdges now pick m ⊆ m.
Proof. unfold evictNotifyEdges. case_decide; [apply delete_subseteq|apply map_filter_subseteq]. Qed.

Lemma evict_size now pick m : is_Some (m !! pick) → (size (evictNotifyEdges now pick m) < size m)%nat.
Proof.
  intros [e He]. unfold evictNotifyEdges. case_decide as Hs.
  - rewrite map_size_delete_Some by eauto.
    assert (size m ≠ 0%nat); [|lia]. intros H0. apply map_size_empty_inv in H0. set_solver.
  - pose proof (map_subseteq_size (filter (λ kv, edge_live now kv.2 = true) m) m (map_filter_subseteq _ _)). lia.
Qed.

(** The edge map is bounded: through any sequence of rising edges and
    clears it never holds more than [notifyEdgeMaxEntries] entries. *)
Theorem edges_bounded os m : edges_reach os m → Z.of_nat (size m) <= notifyEdgeMaxEntries.
Proof.
  induction 1 as [|os m o Hr IH Hp]; [vm_compute; discriminate|].
  destruct o as [ip r now pick|ip]; simpl in *.
  - unfold notifyEdgeRising. destruct (m !! ip) as [e|] eqn:E.
    + destruct (_ && _); simpl; [done|]. by rewrite map_size_insert_Some by eauto.
    + simpl. destruct (notifyEdgeMaxEntries <=? Z.of_nat (size m)) eqn:El; bool_hyps.
      * pose proof (evict_size now pick m (Hp ltac:(lia))).
        assert (evictNotifyEdges now pick m !! ip = None).
        { pose proof (evict_subseteq now pick m) as Hsub. eapply lookup_weaken_None; eauto. }
        rewrite map_size_insert_None by done. lia.
      * rewrite map_size_insert_None by done. lia.
  - unfold clearNotifyEdge. pose proof (map_subseteq_size (delete ip m) m (delete_subseteq m ip)). lia.
Qed.

(** An edge of [ip] that rose for [r] at [t] with nothing for [ip] since. *)
Definition last_rose (os : list edge_op) (ip : addr) (r : string) (t : time) : Prop :=
  ∃ pre pick post m, os = pre ++ Rising ip r t pick :: post ∧ edges_reach pre m ∧
    (notifyEdgeRising ip r t pick m).1 = true ∧ Forall (λ o, o ≠ Clear ip) post.

Lemma edge_origin os m : edges_reach os m → ∀ ip e, m !! ip = Some e → last_rose os ip (rule e) (edge_at e).
Proof.
  induction 1 as [|os m o Hr IH Hp]; intros ip e He; [by rewrite lookup_empty in He|].
  assert (∀ ip' e', m !! ip' = Some e' → o ≠ Clear ip' → last_rose (os ++ [o]) ip' (rule e') (edge_at e')) as Hkeep.
  { intros ip' e' Hm Ho. destruct (IH _ _ Hm) as (pre & pick & post & m0 & -> & H1 & H2 & H3).
    exists pre, pick, (post ++ [o]), m0. rewrite <- app_assoc. split; [done|]. split; [done|]. split; [done|].
    apply Forall_app. split; [done|]. by repeat constructor. }
  destruct o as [jp r now pick|jp]; simpl in He.
  - destruct (notifyEdgeRising jp r now pick m) as [b m'] eqn:E. simpl in He. unfold notifyEdgeRising in E.
    destruct (match m !! jp with Some e => _ | None => false end) eqn:Eb; simplify_eq; [by apply Hkeep|].
    apply lookup_insert_Some in He as [[-> <-]|[Hne He]].
    + exists os, pick, [], m. simpl. split; [done|]. split; [done|]. split; [|constructor].
      unfold notifyEdgeRising. by rewrite Eb.
    + apply Hkeep; [|done]. destruct (m !! jp); [done|].
      destruct (notifyEdgeMaxEntries <=? _); [|done]. eapply lookup_weaken; [done|apply evict_subseteq].
  - unfold clearNotifyEdge in He. apply lookup_delete_Some in He as [Hne He]. apply Hkeep; [done|]. congruence.
Qed.

(** No notify_only row is lost: when an evaluation for (ip, rule) is not a
    rising edge, an evaluation of the same address and rule less than the
    window earlier was one (its row was written), and nothing has cleared the
    address since. *)
Theorem edge_suppressed_has_row os m ip r now pick :
  edges_reach os m → (notifyEdgeRising ip r now pick m).1 = false →
  ∃ t, last_rose os ip r t ∧ now - t < notifyEdgeWindow.
Proof.
  intros Hr. unfold notifyEdgeRising. destruct (m !! ip) as [e|] eqn:E; [|done].
  destruct (bool_decide (rule e = r) && edge_live now e) eqn:Eb; [|done]. intros _.
  bool_hyps. subst. exists (edge_at e). split; [by eapply edge_origin|]. unfold edge_live in *. bool_hyps. lia.
Qed.

Lemma edges_bounded_witness : Z.of_nat (size (edge_step ∅ (Rising (Addr4 1) "rule/x" 0 AddrNone))) <= notifyEdgeMaxEntries.
Proof.
  apply (edges_bounded ([] ++ [Rising (Addr4 1) "rule/x" 0 AddrNone])). apply edges_step; [apply edges_new|].
  simpl. intros H. exfalso. revert H. vm_compute. intros H. by apply H.
Defined.

Lemma edge_suppressed_has_row_witness :
  ∃ t, last_rose ([] ++ [Rising (Addr4 1) "rule/x" 0 AddrNone]) (Addr4 1) "rule/x" t ∧ 59 * Second - t < notifyEdgeWindow.
Proof.
  apply (edge_suppressed_has_row _ (edge_step ∅ (Rising (Addr4 1) "rule/x" 0 AddrNone)) _ _ _ AddrNone).
  - apply edges_step; [apply edges_new|]. simpl. intros H. exfalso. revert H. vm_compute. intros H. by apply H.
  - vm_compute. reflexivity.
Defined.

(** A full map without expired edges drops whatever entry the iteration
    meets first, not the oldest one. *)
Lemma evict_not_oldest :
  let m := <[Addr4 1 := MkEdge "a" 0]> (<[Addr4 2 := MkEdge "b" 5]> ∅) in
  evictNotifyEdges 10 (Addr4 2) m = {[Addr4 1 := MkEdge "a" 0]}.
Proof. vm_compute. reflexivity. Qed.
