(* ===== verification/NotifySuppress.v ===== *)
(** Folding of notify_only notifications: [internal/daemon/notifysuppress.go].

    Windows are keyed by (address, rule); the order in which a flush visits
    the map is an argument. *)
From S2P Require Import Prelude GoStrings Netip NetipParse Sdk.

Definition defaultNotifyOnlyWindow : duration := Hour.

Record Notification := MkNotification { Severity : string; Title : string; Body : string; n_Action : option Action }.

Record suppressWindow := MkWindow { w_start : time; suppressed : Z; lastAction : option Action }.

Record notifySuppressor := MkSuppressor { sup_window : duration; seen : gmap string suppressWindow }.

Definition newNotifySuppressor (window : duration) : notifySuppressor :=
  MkSuppressor (if window <=? 0 then defaultNotifyOnlyWindow else window) ∅.

(** The first verdict with a category names the rule; without one, the whole reason does. *)
Definition suppressKey (a : Action) : string :=
  let rule := match List.find (λ v, bool_decide (Category v ≠ EmptyString)) (Verdicts a) with
              | Some v => Category v
              | None => act_Reason a
              end in
  show_addr (act_IP a) +:+ "|" +:+ rule.

(** [lastAction] is set whenever [suppressed] is positive; its zero value
    prints as Go prints the zero address. *)
Definition summaryLocked (s : notifySuppressor) (key : string) (w : suppressWindow) : Notification :=
  let ip := match lastAction w with Some a => show_addr (act_IP a) | None => show_addr AddrNone end in
  let reason := match lastAction w with Some a => act_Reason a | None => EmptyString end in
  MkNotification "info"
    ("[notify_only] " +:+ ip +:+ " — " +:+ show_Z (suppressed w) +:+ " repeats suppressed")
    (show_Z (suppressed w) +:+ " further notify_only events for " +:+ key +:+ " were suppressed over " +:+
       dur_string (sup_window s) +:+ " (last: " +:+ reason +:+
       "). Audit log rows are complete — only notifications were folded.")
    (lastAction w).

Definition open_at (s : notifySuppressor) (now : time) (w : suppressWindow) : bool := now - w_start w <? sup_window s.

Definition admit_ (now : time) (a : Action) (s : notifySuppressor) : bool * option Notification * notifySuppressor :=
  let key := suppressKey a in
  let fresh := MkSuppressor (sup_window s) (<[key := MkWindow now 0 None]> (seen s)) in
  match seen s !! key with
  | Some w =>
    if open_at s now w
    then (false, None, MkSuppressor (sup_window s) (<[key := MkWindow (w_start w) (suppressed w + 1) (Some a)]> (seen s)))
    else (true, if 0 <? suppressed w then Some (summaryLocked s key w) else None, fresh)
  | None => (true, None, fresh)
  end.

(** The windows a flush closes, in the order the map is visited. *)
Definition closed_windows (now : time) (order : list (string * suppressWindow) → list (string * suppressWindow))
    (s : notifySuppressor) : list (string * suppressWindow) :=
  List.filter (λ kw, negb (open_at s now kw.2)) (order (map_to_list (seen s))).

Definition flush (now : time) (order : list (string * suppressWindow) → list (string * suppressWindow)) (s : notifySuppressor) :
    list Notification * notifySuppressor :=
  ((λ kw, summaryLocked s kw.1 kw.2) <$> List.filter (λ kw, 0 <? suppressed kw.2) (closed_windows now order s),
   MkSuppressor (sup_window s) (filter (λ kw, open_at s now kw.2 = true) (seen s))).

(** ** Nothing is lost *)
Inductive sup_step :=
| SAdmit (now : time) (a : Action)
| SFlush (now : time) (order : list (string * suppressWindow) → list (string * suppressWindow)).

Definition sup_run1 (s : notifySuppressor) (x : sup_step) : Z * list Notification * notifySuppressor :=
  match x with
  | SAdmit now a =>
    let '(send, sum, s') := admit_ now a s in
    (if send then 1 else 0, match sum with Some n => [n] | None => [] end, s')
  | SFlush now order => let '(ns, s') := flush now order s in (0, ns, s')
  end.

(** Notifications sent at once, summaries, and the state after a run. *)
Fixpoint sup_run (xs : list sup_step) (s : notifySuppressor) : Z * list Notification * notifySuppressor :=
  match xs with
  | [] => (0, [], s)
  | x :: xs =>
    let '(n, l, s') := sup_run1 s x in
    let '(m, k, s'') := sup_run xs s' in (n + m, l ++ k, s'')
  end.

Definition admits (xs : list sup_step) : Z :=
  sumZ (λ x, match x with SAdmit _ _ => 1 | SFlush _ _ => 0 end) xs.

Definition pending (s : notifySuppressor) : Z := map_sum (λ _ w, suppressed w) (seen s).

Definition order_ok (x : sup_step) : Prop :=
  match x with SFlush _ order => ∀ l, order l ≡ₚ l | _ => True end.

(** No window counts less than nothing. *)
Definition sup_ok (s : notifySuppressor) : Prop := ∀ k w, seen s !! k = Some w → 0 <= suppressed w.

Lemma sumZ_perm {A} (f : A → Z) l k : l ≡ₚ k → sumZ f l = sumZ f k.
Proof. induction 1; simpl; lia. Qed.

Lemma map_sum_list {V} (g : string → V → Z) (m : gmap string V) : map_sum g m = sumZ (λ kv, g kv.1 kv.2) (map_to_list m).
Proof.
  induction m as [|k v m Hk IH] using map_ind; [by rewrite map_sum_empty, map_to_list_empty|].
  rewrite map_sum_insert_new by done. rewrite (sumZ_perm _ _ ((k, v) :: map_to_list m)) by (by apply map_to_list_insert).
  simpl. by rewrite IH.
Qed.

Lemma closed_filter now order s kw : kw ∈ List.filter (λ kw, 0 <? suppressed kw.2) (closed_windows now order s) → 0 < suppressed kw.2.
Proof. intros Hin. apply list_elem_of_In, filter_In in Hin as [_ Hp]. by apply Z.ltb_lt. Qed.

(** One step: what is admitted is sent, summarized or pending. *)
Lemma sup_step_conserves s x : sup_ok s → order_ok x →
  let '(n, l, s') := sup_run1 s x in
  sup_ok s' ∧ ∃ ws, l = (λ kw, summaryLocked s kw.1 kw.2) <$> ws ∧ Forall (λ kw, 0 < suppressed kw.2) ws ∧
    sup_window s' = sup_window s ∧
    n + sumZ (λ kw, suppressed kw.2) ws + pending s' = (match x with SAdmit _ _ => 1 | SFlush _ _ => 0 end) + pending s.
Proof.
  intros Hs Ho. destruct x as [now a|now order]; simpl.
  - unfold admit_, pending. destruct (seen s !! suppressKey a) as [w|] eqn:Ew.
    + pose proof (Hs _ _ Ew). destruct (open_at s now w).
      * split.
        { intros k w' Hk. simpl in Hk. apply lookup_insert_Some in Hk as [[_ <-]|[_ Hk]]; [simpl; lia|by eapply Hs]. }
        exists []. split; [done|]. split; [constructor|]. split; [done|]. simpl. rewrite map_sum_insert, Ew. simpl. lia.
      * split.
        { intros k w' Hk. simpl in Hk. apply lookup_insert_Some in Hk as [[_ <-]|[_ Hk]]; [simpl; lia|by eapply Hs]. }
        exists (if 0 <? suppressed w then [(suppressKey a, w)] else []). destruct (0 <? suppressed w) eqn:Ep; bool_hyps.
        -- split; [done|]. split; [by repeat constructor|]. split; [done|]. simpl. rewrite map_sum_insert, Ew. simpl. lia.
        -- split; [done|]. split; [constructor|]. split; [done|]. simpl. rewrite map_sum_insert, Ew. simpl. lia.
    + split.
      { intros k w' Hk. simpl in Hk. apply lookup_insert_Some in Hk as [[_ <-]|[_ Hk]]; [simpl; lia|by eapply Hs]. }
      exists []. split; [done|]. split; [constructor|]. split; [done|]. simpl. rewrite map_sum_insert, Ew. simpl. lia.
  - split.
    { intros k w Hk. simpl in Hk. apply map_lookup_filter_Some in Hk as [Hk _]. by eapply Hs. }
    eexists. split; [done|]. split; [apply Forall_forall; intros kw; apply closed_filter|]. split; [done|].
    unfold pending. simpl. rewrite map_sum_filter, !map_sum_list. unfold closed_windows. rewrite !sumZ_filter.
    rewrite (sumZ_perm _ _ (map_to_list (seen s))) by apply Ho.
    assert (∀ kw, kw ∈ map_to_list (seen s) → 0 <= suppressed kw.2) as Hp.
    { intros [k w] Hin%elem_of_map_to_list. by eapply Hs. }
    induction (map_to_list (seen s)) as [|[k w] l IH]; simpl; [lia|].
    assert (0 <= suppressed w) by (apply (Hp (k, w)); by left).
    assert (∀ kw, kw ∈ l → 0 <= suppressed kw.2) as Hp' by (intros kw Hin; apply Hp; by right). specialize (IH Hp'). cbn [fst snd] in *.
    destruct (open_at s now w); simpl.
    + lia.
    + destruct (0 <? suppressed w) eqn:E; simpl; bool_hyps; lia.
Qed.

Lemma summary_window s s' key w : sup_window s = sup_window s' → summaryLocked s key w = summaryLocked s' key w.
Proof. intros H. unfold summaryLocked. by rewrite H. Qed.

(** C15. Nothing is dropped silently: over any run of notify_only actions and
    flushes, every action is sent at once, counted in exactly one summary (a
    summary says how many it folds, and never folds none), or still pending in
    an open window. *)
Theorem suppression_conserves window xs :
  Forall order_ok xs →
  let '(sent, sums, s) := sup_run xs (newNotifySuppressor window) in
  ∃ ws, sums = (λ kw, summaryLocked s kw.1 kw.2) <$> ws ∧ Forall (λ kw, 0 < suppressed kw.2) ws ∧
    sent + sumZ (λ kw, suppressed kw.2) ws + pending s = admits xs.
Proof.
  intros Ho. assert (∀ s, sup_ok s → let '(sent, sums, s') := sup_run xs s in sup_window s' = sup_window s ∧
    ∃ ws, sums = (λ kw, summaryLocked s' kw.1 kw.2) <$> ws ∧ Forall (λ kw, 0 < suppressed kw.2) ws ∧
    sent + sumZ (λ kw, suppressed kw.2) ws + pending s' = admits xs + pending s) as H.
  { induction Ho as [|x xs Hx Hxs IH]; intros s Hs; cbn [sup_run].
    - split; [done|]. exists []. split; [done|]. split; [constructor|]. unfold admits. simpl. lia.
    - pose proof (sup_step_conserves s x Hs Hx) as Hstep. destruct (sup_run1 s x) as [[n l] s1].
      destruct Hstep as (Hs1 & ws1 & -> & Hw1 & Hwin & Heq). specialize (IH s1 Hs1). destruct (sup_run xs s1) as [[m k] s2].
      destruct IH as (Hwin2 & ws2 & -> & Hw2 & Heq2). split; [congruence|]. exists (ws1 ++ ws2). rewrite fmap_app, Forall_app, sumZ_app.
      split; [|split; [done|unfold admits in *; simpl; lia]]. f_equal. apply list_fmap_ext. intros i kw _. apply summary_window. congruence. }
  specialize (H (newNotifySuppressor window)). destruct (sup_run xs _) as [[sent sums] s].
  destruct H as (_ & ws & ? & ? & Hsum); [by intros k w; simpl; rewrite lookup_empty|]. exists ws. split; [done|]. split; [done|].
  rewrite Hsum. unfold pending. simpl. rewrite map_sum_empty. lia.
Qed.

Definition scan_burst (t : time) : sup_step :=
  SAdmit t (MkAction (Addr4 1) notify_only 0 false 0 "rule/scan: 9 events" []).

Lemma suppression_conserves_witness :
  let xs := [scan_burst 0; scan_burst Minute; scan_burst (2 * Minute); SFlush (2 * Hour) (λ l, l); scan_burst (3 * Hour)] in
  (∃ body a, (sup_run xs (newNotifySuppressor 0)).1 = (2, [MkNotification "info" "[notify_only] 0.0.0.1 — 2 repeats suppressed" body (Some a)])) ∧
  let '(sent, sums, s) := sup_run xs (newNotifySuppressor 0) in
  ∃ ws, sums = (λ kw, summaryLocked s kw.1 kw.2) <$> ws ∧ Forall (λ kw, 0 < suppressed kw.2) ws ∧
    sent + sumZ (λ kw, suppressed kw.2) ws + pending s = admits xs.
Proof.
  intros xs. split; [eexists _, _; vm_compute; reflexivity|].
  apply (suppression_conserves 0 xs). repeat (apply List.Forall_cons; [simpl; by intros|]). apply List.Forall_nil.
Defined.
