(* ===== verification/Rfc3339.v ===== *)
(** RFC 3339 times, as [time.Format] writes and [time.Parse] reads them:
    standard-library code, not mapped to the repository.

    Years 0 to 9999, UTC when written.  Reading is strict; [time.Parse] also
    takes an hour of one digit. *)
From Stdlib Require Import Ascii.
From S2P Require Import Prelude GoStrings.

Definition Day : duration := 24 * Hour.

(** ** The calendar: days since 1970-01-01, eras of 400 years from March 0000 *)
Definition era_days : Z := 146097.

(** Year of the era, month and day of the [doe]-th day of an era. *)
Definition civil_of_doe (doe : Z) : Z * Z * Z :=
  let yoe := (doe - doe `div` 1460 + doe `div` 36524 - doe `div` 146096) `div` 365 in
  let doy := doe - (365 * yoe + yoe `div` 4 - yoe `div` 100) in
  let mp := (5 * doy + 2) `div` 153 in
  (yoe, if mp <? 10 then mp + 3 else mp - 9, doy - (153 * mp + 2) `div` 5 + 1).

Definition doe_of_civil (yoe m d : Z) : Z :=
  let doy := (153 * (if 2 <? m then m - 3 else m + 9) + 2) `div` 5 + d - 1 in
  yoe * 365 + yoe `div` 4 - yoe `div` 100 + doy.

(** January and February belong to the year before, in the era. *)
Definition early (m : Z) : Z := if m <=? 2 then 1 else 0.

Definition civil_from_days (z : Z) : Z * Z * Z :=
  let n := z + 719468 in
  let '(yoe, m, d) := civil_of_doe (n `mod` era_days) in
  (yoe + 400 * (n `div` era_days) + early m, m, d).

Definition days_from_civil (y m d : Z) : Z :=
  let y' := y - early m in
  era_days * (y' `div` 400) + doe_of_civil (y' `mod` 400) m d - 719468.

Definition leap (y : Z) : bool := (y `mod` 4 =? 0) && (negb (y `mod` 100 =? 0) || (y `mod` 400 =? 0)).
Definition daysIn (y m : Z) : Z :=
  if m =? 2 then (if leap y then 29 else 28)
  else if (m =? 4) || (m =? 6) || (m =? 9) || (m =? 11) then 30 else 31.

(** ** Text *)
Definition FormatRFC3339 (t : time) : string :=
  let '(y, m, d) := civil_from_days (t `div` Day) in
  let s := Unix (t `mod` Day) in
  digits 4 y +:+ "-" +:+ digits 2 m +:+ "-" +:+ digits 2 d +:+ "T" +:+
  digits 2 (s `div` 3600) +:+ ":" +:+ digits 2 ((s `div` 60) `mod` 60) +:+ ":" +:+ digits 2 (s `mod` 60) +:+ "Z".

Definition FormatDate (t : time) : string :=
  let '(y, m, d) := civil_from_days (t `div` Day) in
  digits 4 y +:+ "-" +:+ digits 2 m +:+ "-" +:+ digits 2 d.

Fixpoint take_digits (n : nat) (acc : Z) (s : string) : option (Z * string) :=
  match n, s with
  | O, _ => Some (acc, s)
  | S n, String a s => match digit_val a with Some d => take_digits n (acc * 10 + d) s | None => None end
  | S _, EmptyString => None
  end.

Definition expect (c : ascii) (s : string) : option string :=
  match s with String a r => if decide (a = c) then Some r else None | EmptyString => None end.

(** The fraction: digits beyond the ninth are dropped. *)
Fixpoint frac_digits (scale acc : Z) (s : string) : Z * string :=
  match s with
  | String a r => match digit_val a with Some d => frac_digits (scale `div` 10) (acc + d * scale) r | None => (acc, s) end
  | EmptyString => (acc, s)
  end.

Definition parse_fraction (s : string) : option (Z * string) :=
  match s with
  | String a (String b r) =>
    if bool_decide (a = "."%char ∨ a = ","%char) && bool_decide (is_Some (digit_val b))
    then Some (frac_digits 100000000 0 (String b r))
    else if bool_decide (a = "."%char ∨ a = ","%char) then None else Some (0, s)
  | _ => Some (0, s)
  end.

Definition parse_zone (s : string) : option Z :=
  if decide (s = "Z") then Some 0 else
  match s with
  | String a r =>
    if negb (bool_decide (a = "+"%char ∨ a = "-"%char)) then None else
    '(h, r) ← take_digits 2 0 r; r ← expect ":" r; '(m, r) ← take_digits 2 0 r;
    if (24 <=? h) || (60 <=? m) || negb (bool_decide (r = EmptyString)) then None
    else Some (if decide (a = "+"%char) then 3600 * h + 60 * m else - (3600 * h + 60 * m))
  | EmptyString => None
  end.

Definition parse_date (s : string) : option (Z * string) :=
  '(y, s) ← take_digits 4 0 s; s ← expect "-" s; '(m, s) ← take_digits 2 0 s; s ← expect "-" s; '(d, s) ← take_digits 2 0 s;
  if (m <? 1) || (12 <? m) || (d <? 1) || (daysIn y m <? d) then None else Some (days_from_civil y m d, s).

Definition parse_clock (s : string) : option (Z * string) :=
  '(h, s) ← take_digits 2 0 s; s ← expect ":" s; '(m, s) ← take_digits 2 0 s; s ← expect ":" s; '(x, s) ← take_digits 2 0 s;
  if (24 <=? h) || (60 <=? m) || (60 <=? x) then None else Some (3600 * h + 60 * m + x, s).

Definition ParseRFC3339 (s : string) : option time :=
  '(day, s) ← parse_date s; s ← expect "T" s; '(secs, s) ← parse_clock s; '(ns, s) ← parse_fraction s; off ← parse_zone s;
  Some (day * Day + (secs - off) * Second + ns).

(** Layouts "2006-01-02T15:04:05" and "2006-01-02". *)
Definition ParseDateTime (s : string) : option time :=
  '(day, s) ← parse_date s; s ← expect "T" s; '(secs, s) ← parse_clock s; '(ns, s) ← parse_fraction s;
  if decide (s = EmptyString) then Some (day * Day + secs * Second + ns) else None.
Definition ParseDate (s : string) : option time :=
  '(day, s) ← parse_date s; if decide (s = EmptyString) then Some (day * Day) else None.

Example rfc1 : FormatRFC3339 (1767225599 * Second + 7) = "2025-12-31T23:59:59Z".
Proof. vm_compute. reflexivity. Qed.
Example rfc2 : ParseRFC3339 "2024-02-29T01:02:03.5+02:00" = Some (1709161323 * Second + 500 * Millisecond).
Proof. vm_compute. reflexivity. Qed.
Example rfc3 : ParseRFC3339 "2023-02-29T01:02:03Z" = None ∧ ParseDate "1970-01-02" = Some Day.
Proof. vm_compute. done. Qed.

(** ** Writing then reading *)
Fixpoint all_from (f : Z → bool) (n : nat) (k : Z) : bool :=
  match n with O => true | S n => f k && all_from f n (k + 1) end.

Lemma all_from_spec f n k z : all_from f n k = true → k <= z < k + Z.of_nat n → f z = true.
Proof.
  revert k. induction n as [|n IH]; intros k; [lia|]. cbn [all_from]. intros [Hf Hn]%andb_true_iff Hz.
  destruct (decide (z = k)) as [->|]; [done|]. apply (IH (k + 1)); [done|lia].
Qed.

(** One era, checked day by day. *)
Definition doe_ok (doe : Z) : bool :=
  let '(yoe, m, d) := civil_of_doe doe in
  (doe_of_civil yoe m d =? doe) && (0 <=? yoe) && (yoe <? 400) && (1 <=? m) && (m <=? 12) && (1 <=? d) &&
  (d <=? daysIn (yoe + early m) m) && (if doe <? 146037 then yoe + early m <=? 399 else yoe + early m =? 400).

Lemma era_ok : all_from doe_ok (Z.to_nat era_days) 0 = true.
Proof. vm_compute. reflexivity. Qed.

Lemma daysIn_period y k m : daysIn (y + 400 * k) m = daysIn y m.
Proof.
  unfold daysIn, leap. replace (y + 400 * k) with (y + (100 * k) * 4) at 1 by lia. rewrite Z.mod_add by done.
  replace (y + 400 * k) with (y + (4 * k) * 100) at 1 by lia. rewrite Z.mod_add by done.
  replace (y + 400 * k) with (y + k * 400) by lia. by rewrite Z.mod_add by done.
Qed.

Lemma civil_round z y m d : civil_from_days z = (y, m, d) →
  days_from_civil y m d = z ∧ 1 <= m <= 12 ∧ 1 <= d <= daysIn y m.
Proof.
  unfold civil_from_days, days_from_civil. set (n := z + 719468). set (doe := n `mod` era_days).
  assert (0 <= doe < era_days) as Hdoe by (apply Z.mod_pos_bound; done).
  assert (doe_ok doe = true) as Hok by (apply (all_from_spec _ _ _ _ era_ok); unfold era_days in *; lia).
  unfold doe_ok in Hok. destruct (civil_of_doe doe) as [[yoe m'] d']. bool_hyps. intros [= <- <- <-].
  pose proof (Z.div_mod n era_days ltac:(done)) as Hn. fold doe in Hn.
  replace (yoe + 400 * (n `div` era_days) + early m' - early m') with (yoe + n `div` era_days * 400) by lia.
  rewrite Z.div_add, Z.mod_add, Z.div_small, Z.mod_small by lia.
  replace (yoe + 400 * (n `div` era_days) + early m') with (yoe + early m' + 400 * (n `div` era_days)) by lia.
  rewrite daysIn_period. split; [unfold n in *; lia|]. lia.
Qed.

Lemma digit_val_digit v : 0 <= v < 10 → digit_val (Ascii.ascii_of_N (Z.to_N (48 + v))) = Some v.
Proof.
  intros Hv. assert (v = 0 ∨ v = 1 ∨ v = 2 ∨ v = 3 ∨ v = 4 ∨ v = 5 ∨ v = 6 ∨ v = 7 ∨ v = 8 ∨ v = 9) as H by lia.
  repeat destruct H as [->|H]; try subst v; reflexivity.
Qed.

Lemma take_digits_snoc n acc s : take_digits (S n) acc s =
  match take_digits n acc s with Some (x, s') => take_digits 1 x s' | None => None end.
Proof.
  revert acc s. induction n as [|n IH]; intros acc s; [by destruct s|].
  destruct s as [|a s]; [done|]. cbn [take_digits]. destruct (digit_val a); [|done]. apply IH.
Qed.

Lemma take_digits_digits n acc v s : 0 <= v < 10 ^ Z.of_nat n →
  take_digits n acc (digits n v +:+ s) = Some (acc * 10 ^ Z.of_nat n + v, s).
Proof.
  revert acc v s. induction n as [|n IH]; intros acc v s Hv.
  - simpl in *. f_equal. f_equal. lia.
  - rewrite take_digits_snoc. cbn [digits]. rewrite str_app_assoc. rewrite Nat2Z.inj_succ, Z.pow_succ_r in * by lia.
    rewrite IH. 2:{ split; [apply Z.div_pos; lia|]. apply Z.div_lt_upper_bound; lia. }
    change (String ?a EmptyString +:+ s) with (String a s). cbn [take_digits].
    rewrite digit_val_digit by (apply Z.mod_pos_bound; lia). f_equal. f_equal.
    pose proof (Z.div_mod v 10 ltac:(done)). lia.
Qed.

Lemma early_range m : 0 <= early m <= 1.
Proof. unfold early. case_match; lia. Qed.

Lemma civil_year z y m d : -719528 <= z < 2932897 → civil_from_days z = (y, m, d) → 0 <= y <= 9999.
Proof.
  intros Hz. unfold civil_from_days. set (n := z + 719468). set (doe := n `mod` era_days).
  assert (0 <= doe < era_days) as Hdoe by (apply Z.mod_pos_bound; done).
  assert (doe_ok doe = true) as Hok by (apply (all_from_spec _ _ _ _ era_ok); unfold era_days in *; lia).
  unfold doe_ok in Hok. destruct (civil_of_doe doe) as [[yoe m'] d']. bool_hyps. intros [= <- _ _].
  pose proof (Z.div_mod n era_days ltac:(done)) as Hn. fold doe in Hn.
  pose proof (early_range m') as He.
  unfold era_days in *. set (q := n `div` 146097) in *. clearbody q. unfold n in *.
  assert (-1 <= q <= 24) as Hq by lia. destruct (Z.ltb_spec doe 146037); bool_hyps; lia.
Qed.

Lemma expect_hit c s : expect c (String c s) = Some s.
Proof. unfold expect. by rewrite decide_True. Qed.

Lemma take_number n v s : 0 <= v < 10 ^ Z.of_nat n → take_digits n 0 (digits n v +:+ s) = Some (v, s).
Proof. intros Hv. by rewrite take_digits_digits. Qed.

Ltac read_number := rewrite take_number by (simpl; lia); cbn [mbind option_bind String.append]; rewrite ?expect_hit; cbn [mbind option_bind].

Lemma parse_date_digits y m d s : 0 <= y <= 9999 → 1 <= m <= 12 → 1 <= d <= daysIn y m →
  parse_date (digits 4 y +:+ "-" +:+ digits 2 m +:+ "-" +:+ digits 2 d +:+ s) = Some (days_from_civil y m d, s).
Proof.
  intros Hy Hm Hd. assert (daysIn y m <= 31) by (unfold daysIn; repeat case_match; lia). unfold parse_date.
  repeat read_number. rewrite !(proj2 (Z.ltb_ge _ _)) by lia. done.
Qed.

Lemma parse_clock_digits h m x s : 0 <= h < 24 → 0 <= m < 60 → 0 <= x < 60 →
  parse_clock (digits 2 h +:+ ":" +:+ digits 2 m +:+ ":" +:+ digits 2 x +:+ s) = Some (3600 * h + 60 * m + x, s).
Proof.
  intros Hh Hm Hx. unfold parse_clock. repeat read_number. rewrite !(proj2 (Z.leb_gt _ _)) by lia. done.
Qed.

(** In years 0 to 9999 a written time reads back, cut to its second. *)
Lemma Parse_Format t : - 719528 * Day <= t < 2932897 * Day → ParseRFC3339 (FormatRFC3339 t) = Some (Unix t * Second).
Proof.
  intros Ht. unfold FormatRFC3339. destruct (civil_from_days (t `div` Day)) as [[y m] d] eqn:E.
  assert (-719528 <= t `div` Day < 2932897) as Hz
    by (split; [apply Z.div_le_lower_bound|apply Z.div_lt_upper_bound]; unfold Day, Hour, Minute, Second in *; lia).
  pose proof (civil_year _ _ _ _ Hz E) as Hy. apply civil_round in E as (Hd & Hm & Hdd).
  assert (0 <= t `mod` Day < Day) as Hmod by (apply Z.mod_pos_bound; done).
  set (s := Unix (t `mod` Day)). assert (0 <= s < 86400) as Hs.
  { unfold s, Unix. split; [apply Z.div_pos; [lia|done]|apply Z.div_lt_upper_bound; [done|]]. unfold Day, Hour, Minute, Second in *. lia. }
  assert (0 <= s `div` 3600 < 24) as Hh by (split; [apply Z.div_pos; lia|apply Z.div_lt_upper_bound; lia]).
  assert (0 <= (s `div` 60) `mod` 60 < 60) as Hmin by (apply Z.mod_pos_bound; lia).
  assert (0 <= s `mod` 60 < 60) as Hsec by (apply Z.mod_pos_bound; lia).
  unfold ParseRFC3339. rewrite parse_date_digits by done. cbn [mbind option_bind].
  change ("T" +:+ ?a) with (String "T" a). rewrite expect_hit. cbn [mbind option_bind]. rewrite parse_clock_digits by done. cbn. f_equal. rewrite Hd.
  assert (Unix t = (t `div` Day) * 86400 + s) as ->.
  { pose proof (Z.div_mod t Day ltac:(done)) as Ht'. unfold s, Unix. rewrite Ht' at 1. replace Day with (86400 * Second) at 1 by done.
    replace (86400 * Second * (t `div` Day)) with ((86400 * (t `div` Day)) * Second) by lia.
    rewrite Z.div_add_l by done. lia. }
  clearbody s. generalize (t `div` Day) as q. intros q.
  assert (3600 * (s `div` 3600) + 60 * ((s `div` 60) `mod` 60) + s `mod` 60 = s) as Hsum.
  { assert ((s `div` 60) `div` 60 = s `div` 3600) as <- by (rewrite Z.div_div by lia; done).
    pose proof (Z.div_mod s 60 ltac:(done)). pose proof (Z.div_mod (s `div` 60) 60 ltac:(done)). lia. }
  change Day with (86400 * Second). rewrite Hsum.
  change (parse_zone "Z") with (Some 0). cbn [mbind option_bind]. f_equal. lia.
Qed.
