(* ===== verification/StoreIface.v ===== *)
(** What the decision engine asks of the store: the [Store] interface of
    [internal/decision/engine.go] as a class of operations, the laws the
    engine's theorems use, and the SQLite store as an instance that satisfies
    them. *)
From S2P Require Import Prelude Netip Sdk.
From S2P Require Import Store.

Class StoreOps (E S : Type) := {
  GetBanInfo : time → addr → S → result E (option (time * Z * bool)) * S;
  RecordSuppressed : time → addr → bool → S → result E (Z * Z * bool) * S;
  MarkBanIneffective : addr → S → result E bool * S;
  HadIneffectiveBan : addr → S → result E bool * S;
  BumpLastSeen : time → addr → S → result E unit * S;
  GetStrikeCount : addr → S → result E Z * S;
  LastStrike : addr → S → result E (option (time * duration)) * S;
  RecordStrike : time → Action → S → result E unit * S;
  Audit : time → Action → S → result E unit * S
}.

(** What a store holds about bans: the strike count of an address, and its
    ban row (when, strike, simulated, expiry). *)
Class StoreView (S : Type) := {
  count : S → addr → Z;
  banned : S → addr → option (time * Z * bool * option time)
}.

Definition same_bans {S} `{StoreView S} (s s' : S) : Prop :=
  ∀ ip, count s' ip = count s ip ∧ banned s' ip = banned s ip.

(** The active ban of a row at [t]. *)
Definition active_at (t : time) (b : option (time * Z * bool * option time)) : option (time * Z * bool) :=
  match b with
  | Some (at_, n, dry, Some e) => if e <=? t then None else Some (at_, n, dry)
  | Some (at_, n, dry, None) => Some (at_, n, dry)
  | None => None
  end.

Class StoreLaws (E S : Type) {ops : StoreOps E S} {view : StoreView S} : Prop := {
  law_count ip s n s' : GetStrikeCount ip s = (Ok n, s') → n = count s ip;
  law_info t ip s r s' : GetBanInfo t ip s = (Ok r, s') → r = active_at t (banned s ip);
  law_strike t a s s' : RecordStrike t a s = (Ok tt, s') →
    count s' (act_IP a) = count s (act_IP a) + 1 ∧
    banned s' (act_IP a) = Some (t, Strike a, bool_decide (act_Op a = dry_ban),
                                 if 0 <? act_TTL a then Some (t + act_TTL a) else None) ∧
    ∀ ip, ip ≠ act_IP a → count s' ip = count s ip ∧ banned s' ip = banned s ip;
  law_strike_fail t a s e s' : RecordStrike t a s = (Err e, s') → same_bans s s';
  law_GetBanInfo t ip s : same_bans s (GetBanInfo t ip s).2;
  law_RecordSuppressed t ip g s : same_bans s (RecordSuppressed t ip g s).2;
  law_MarkBanIneffective ip s : same_bans s (MarkBanIneffective ip s).2;
  law_HadIneffectiveBan ip s : same_bans s (HadIneffectiveBan ip s).2;
  law_BumpLastSeen t ip s : same_bans s (BumpLastSeen t ip s).2;
  law_GetStrikeCount ip s : same_bans s (GetStrikeCount ip s).2;
  law_LastStrike ip s : same_bans s (LastStrike ip s).2;
  law_Audit t a s : same_bans s (Audit t a s).2
}.

#[export] Instance same_bans_refl {S} `{StoreView S} : Reflexive same_bans.
Proof. by intros s ip. Qed.
#[export] Instance same_bans_trans {S} `{StoreView S} : Transitive same_bans.
Proof.
  intros a b c H1 H2 ip. destruct (H1 ip) as [E1 E2]. destruct (H2 ip) as [E3 E4].
  split; [by rewrite E3|by rewrite E4].
Qed.

(** ** The SQLite store *)
#[export] Instance sqlite_ops : StoreOps Store.store_error Store.world := {
  GetBanInfo := Store.GetBanInfo;
  RecordSuppressed := Store.RecordSuppressed;
  MarkBanIneffective := Store.MarkBanIneffective;
  HadIneffectiveBan := Store.HadIneffectiveBan;
  BumpLastSeen := Store.BumpLastSeen;
  GetStrikeCount := Store.GetStrikeCount;
  LastStrike := Store.LastStrike;
  RecordStrike := Store.RecordStrike;
  Audit := Store.Audit
}.

Definition row_view (b : Store.ban_row) : time * Z * bool * option time :=
  (Store.banned_at b, Store.strike_num b, Store.dry_run b, Store.expires_at b).

#[export] Instance sqlite_view : StoreView Store.world := {
  count := λ w, Store.strike_count (Store.tables w);
  banned := λ w ip, row_view <$> Store.bans (Store.tables w) !! ip
}.

(** Tables that hold the same counts and bans. *)
Definition same_tables (d d' : Store.db) : Prop :=
  ∀ ip, Store.strike_count d' ip = Store.strike_count d ip ∧
        row_view <$> Store.bans d' !! ip = row_view <$> Store.bans d !! ip.

#[export] Instance same_tables_refl : Reflexive same_tables.
Proof. by intros d ip. Qed.
#[export] Instance same_tables_trans : Transitive same_tables.
Proof.
  intros a b c H1 H2 ip. destruct (H1 ip) as [E1 E2]. destruct (H2 ip) as [E3 E4].
  split; [by rewrite E3|by rewrite E4].
Qed.

Lemma same_tables_alter f ip d :
  (∀ b, row_view (f b) = row_view b) → same_tables d (Store.on_bans (alter f ip) d).
Proof.
  intros Hf jp. split; [done|]. simpl. destruct (decide (ip = jp)) as [->|]; [|by rewrite lookup_alter_ne].
  rewrite lookup_alter_eq. destruct (Store.bans d !! jp); simpl; [|done]. by rewrite Hf.
Qed.

Lemma same_tables_offenders f d :
  (∀ jp, Store.strike_count (Store.on_offenders f d) jp = Store.strike_count d jp) →
  same_tables d (Store.on_offenders f d).
Proof. intros Hf jp. by rewrite Hf. Qed.

Lemma rearm_view t b : row_view (Store.rearm t b) = row_view b.
Proof. unfold Store.rearm. by case_match. Qed.

Lemma bump_count now ip d jp :
  Store.strike_count (Store.on_offenders (Store.upsert_offender now 0 ip) d) jp = Store.strike_count d jp.
Proof. rewrite Store.strike_count_upsert. case_decide; lia. Qed.

Lemma mark_count ip d jp :
  Store.strike_count (Store.on_offenders (alter Store.mark_offender ip) d) jp = Store.strike_count d jp.
Proof.
  unfold Store.strike_count. simpl. destruct (decide (ip = jp)) as [->|]; [|by rewrite lookup_alter_ne].
  rewrite lookup_alter_eq. by destruct (Store.offenders d !! jp).
Qed.

#[export] Hint Resolve same_tables_alter same_tables_offenders rearm_view bump_count mark_count : ezy.
#[export] Hint Extern 2 (Store.Keeps same_tables (Store.exec _)) =>
  apply Store.keeps_exec; [apply _|apply _|intros ?; eauto with ezy] : typeclass_instances.

(** A statement that keeps the tables' bans keeps the store's. *)
Lemma keeps_same {A} (m : Store.sql A) w : Store.Keeps same_tables m → same_bans w (m w).2.
Proof. intros H ip. exact (H w ip). Qed.

#[export] Instance sqlite_laws : StoreLaws Store.store_error Store.world.
Proof.
  split; simpl.
  - intros ip s n s' H. unfold Store.GetStrikeCount in H. by apply (Store.does (m := Store.query _)) in H as [_ ->].
  - intros t ip s r s' H. unfold Store.GetBanInfo in H.
    apply (Store.does (m := mbind (M := Store.sql) _ (Store.query _))) in H as [_ ->]. simpl. unfold id.
    destruct (Store.bans (Store.tables s) !! ip) as [b|]; simpl; [|done]. by destruct (Store.expires_at b).
  - intros t a s s' H. apply (Store.does (m := Store.RecordStrike t a)) in H as [-> _].
    split; [|split].
    + change (Store.strike_count (Store.on_offenders (Store.upsert_offender t 1 (act_IP a)) (Store.tables s)) (act_IP a) =
              Store.strike_count (Store.tables s) (act_IP a) + 1).
      rewrite Store.strike_count_upsert, decide_True by done. lia.
    + simpl. by rewrite lookup_insert_eq.
    + intros ip Hip. split.
      * change (Store.strike_count (Store.on_offenders (Store.upsert_offender t 1 (act_IP a)) (Store.tables s)) ip =
                Store.strike_count (Store.tables s) ip).
        rewrite Store.strike_count_upsert, decide_False by done. lia.
      * simpl. by rewrite lookup_insert_ne.
  - intros t a s e s' H. apply Store.tx_rollback in H. intros ip. simpl. by rewrite H.
  - intros. apply keeps_same. unfold Store.GetBanInfo. apply _.
  - intros. apply keeps_same. unfold Store.RecordSuppressed. apply _.
  - intros. apply keeps_same. unfold Store.MarkBanIneffective. apply _.
  - intros. apply keeps_same. unfold Store.HadIneffectiveBan. apply _.
  - intros. apply keeps_same. unfold Store.BumpLastSeen. apply _.
  - intros. apply keeps_same. unfold Store.GetStrikeCount. apply _.
  - intros. apply keeps_same. unfold Store.LastStrike. apply _.
  - intros. apply keeps_same. unfold Store.Audit. apply Store.keeps_exec; [apply _..|]. by intros d ip.
Qed.
