(* ===== verification/Decision.v ===== *)
(** The decision engine: [internal/decision/engine.go], [diagnostics.go],
    [verifiedbot.go] and [manualban.go].

    A call runs in a state with the engine's own fields, the store and a trace
    of what it does outside the engine: locks, store calls, deliveries.  What
    a call reads from its surroundings (the three clocks, SSH_CLIENT, the
    kernel's peers, the CDN table, the bot verifier, which entry a full edge
    map drops) is its [env]; each clock is read at one time per call.  The
    store is any implementation of [StoreOps].  An index out of range of the
    Go code is the error [EPanic]. *)
From Stdlib Require Import QArith.
From S2P Require Import Prelude GoStrings Netip NetipParse Sdk Policy SSHPeers NotifyEdge StoreIface.
#[local] Open Scope Z_scope.

Definition ReasonAntiLockoutSSHPeer : string := "anti-lockout: active SSH peer".
Definition ReasonAntiLockoutCDNRange : string := "anti-lockout: shared CDN edge range".
Definition ReasonMarkCDNUnverified : string := " [cdn-ranges-unverified]".
Definition ReasonVerifiedBotSpared : string := "verified-bot spared".
Definition cdnWarnInterval : duration := 15 * Minute.
Definition strikeLockStripes : Z := 64.

Inductive phase := PhasePostGrace | PhaseInGrace.

Record BanIneffectiveDiag := MkDiag {
  d_IP : addr; d_Strike : Z; LadderLen : Z; NextRungs : string; EventsAfterGrace : Z;
  TotalSuppressed : Z; GraceSeconds : Z; Phase : phase; EventsInGrace : Z
}.

Inductive delivery :=
| BanIneffective (d : BanIneffectiveDiag)
| BanIneffectivePermanent (ip : addr) (strike : Z).

Inductive store_call :=
| SGetBanInfo | SRecordSuppressed | SMarkBanIneffective | SHadIneffectiveBan | SBumpLastSeen
| SGetStrikeCount | SLastStrike | SRecordStrike (a : Action) | SAudit (a : Action).

Inductive effect :=
| ELock (stripe : Z) | EUnlock (stripe : Z) | EStore (c : store_call) | EDeliver (d : delivery)
| EWarnCDN.

Inductive decide_error := ENoVerdicts | ERateLimited | EGetStrikeCount | ERecordStrike | EPanic.

Record Engine := MkEngine {
  policy : Policy; allow : list prefix; bansInWin : Z; windowStart : time;
  peerCache : sshPeerCache; cdnWarnLast : option time; notifyEdges : gmap addr notifyEdge
}.

Record env := MkEnv {
  now : time; wall : time; store_now : time; SSH_CLIENT : string; kernelPeers : list addr;
  cdnRanges : option (option (list prefix)); botVerify : addr → option string;
  has_diag : bool; pick : addr
}.

(** ** Allowlist construction *)
Inductive allow_error := EBadEntry (s : string) | EMappedTooBroad.

Definition NormalizePrefix (p : prefix) : result allow_error prefix :=
  if negb (Is4In6 (paddr p)) then Ok p
  else if pbits p <? 96 then Err EMappedTooBroad
  else Ok (PrefixFrom (Unmap (paddr p)) (pbits p - 96)).

Definition parsePrefixOrAddr (s : string) : result allow_error prefix :=
  match ParsePrefix s with
  | Some p => NormalizePrefix p
  | None =>
    match ParseAddr s with
    | None => Err (EBadEntry s)
    | Some a => let a := Unmap a in Ok (PrefixFrom a (BitLen a))
    end
  end.

Definition StaticAllowlist (p : Policy) : result allow_error (list prefix) :=
  l1 ← map_result parsePrefixOrAddr (Allowlist p);
  l2 ← map_result (λ s, match ParsePrefix s with None => Err (EBadEntry s) | Some q => NormalizePrefix q end) (AdminCIDRs p);
  mret (l1 ++ l2).

Definition buildAllowlist (ssh_client : string) (p : Policy) : result allow_error (list prefix) :=
  l ← StaticAllowlist p;
  let peer := sshClientIP ssh_client in
  mret (l ++ (if IsValid peer then [PrefixFrom peer (BitLen peer)] else [])).

Definition New (ssh_client : string) (start : time) (p : Policy) : result allow_error Engine :=
  al ← buildAllowlist ssh_client p;
  mret (MkEngine p al 0 start emptyCache None ∅).

Definition isAllowlisted (e : Engine) (ip : addr) : bool := existsb (λ p, Contains p ip) (allow e).

(** ** The strike lock stripe: FNV-1a over the 16-byte form *)
Definition As16 (a : addr) : list Z :=
  let v := match a with AddrNone => 0 | Addr4 v => Z.lor (Z.shiftl 0xffff 32) v | Addr6 v _ => v end in
  (λ i, Z.land (Z.shiftr v (8 * (15 - i))) 255) <$> seqZ 0 16.

Definition fnv1a (bs : list Z) : Z :=
  fold_left (λ h c, (Z.lxor h c * 16777619) `mod` 2 ^ 32) bs 2166136261.

Definition strikeLockFor (ip : addr) : Z := Z.land (fnv1a (As16 ip)) (strikeLockStripes - 1).

(** The shared-CDN guard: refused, passed, or the table was unavailable. *)
Inductive cdn_outcome := CdnRefuse | CdnPass | CdnUnverified.

#[export] Instance cdn_outcome_eq_dec : EqDecision cdn_outcome.
Proof. solve_decision. Defined.

(** ** Calls *)
Section engine.
Context {E S : Type} {ops : StoreOps E S}.

Record dstate := MkD { eng : Engine; st : S; trace : list effect }.

Definition dec (A : Type) : Type := dstate → A * dstate.

#[export] Instance dec_mret : MRet dec := λ A x d, (x, d).
#[export] Instance dec_mbind : MBind dec := λ A B k m d, let '(x, d') := m d in k x d'.

Definition emit (x : effect) : dec unit := λ d, (tt, MkD (eng d) (st d) (trace d ++ [x])).
Definition get_eng : dec Engine := λ d, (eng d, d).
Definition set_eng (f : Engine → Engine) : dec unit := λ d, (tt, MkD (f (eng d)) (st d) (trace d)).

(** A store call: it is traced, and its outcome is a value the code inspects. *)
Definition call {A} (c : store_call) (f : S → result E A * S) : dec (result E A) := λ d,
  let '(r, s') := f (st d) in (r, MkD (eng d) s' (trace d ++ [EStore c])).

Definition with_window (n : Z) (t : time) (e : Engine) : Engine :=
  MkEngine (policy e) (allow e) n t (peerCache e) (cdnWarnLast e) (notifyEdges e).
Definition with_peers (c : sshPeerCache) (e : Engine) : Engine :=
  MkEngine (policy e) (allow e) (bansInWin e) (windowStart e) c (cdnWarnLast e) (notifyEdges e).
Definition with_warn (t : time) (e : Engine) : Engine :=
  MkEngine (policy e) (allow e) (bansInWin e) (windowStart e) (peerCache e) (Some t) (notifyEdges e).
Definition with_edges (f : gmap addr notifyEdge → gmap addr notifyEdge) (e : Engine) : Engine :=
  MkEngine (policy e) (allow e) (bansInWin e) (windowStart e) (peerCache e) (cdnWarnLast e) (f (notifyEdges e)).

(** [SetSSHPeerProbe] resets the cache's age. *)
Definition SetSSHPeerProbe : dec unit := set_eng (λ e, with_peers (reset_cache (peerCache e)) e).

Definition active_peers (v : env) : dec (list addr) := λ d,
  let '(ps, c) := activeSSHPeers (wall v) (SSH_CLIENT v) (kernelPeers v) (peerCache (eng d)) in
  (ps, MkD (with_peers c (eng d)) (st d) (trace d)).

Definition warnCDNRangesUnavailable (v : env) : dec unit :=
  e ← get_eng;
  if match cdnWarnLast e with None => true | Some t => cdnWarnInterval <? wall v - t end
  then (_ ← set_eng (with_warn (wall v)); emit EWarnCDN)
  else mret tt.

(** The fixed one-minute window; every attempt counts, refused ones too. *)
Definition checkRateLimit (v : env) : dec bool :=
  e ← get_eng;
  let '(n, w) := if Minute <? now v - windowStart e then (0, now v) else (bansInWin e, windowStart e) in
  _ ← set_eng (with_window (n + 1) w);
  mret (n + 1 <=? MaxBansPerMinute (policy e)).

Definition escalationExempt (v : env) (ip : addr) : dec bool :=
  r ← call SLastStrike (LastStrike ip);
  e ← get_eng;
  mret match r with
       | Err _ | Ok None => false
       | Ok (Some (recordedAt, ttl)) =>
         if ttl <=? 0 then false
         else now v - (recordedAt + ttl) <=? EscalationExemptWindow (policy e)
       end.

Definition audited (v : env) (a : Action) : dec (result decide_error Action) :=
  _ ← call (SAudit a) (Audit (store_now v) a); mret (Ok a).

Definition rung_name (ttl : duration) : string := if ttl =? 0 then "permanent" else dur_string ttl.

Definition next_rungs (strikes : list duration) (banStrike : Z) : string :=
  if banStrike <? Z.of_nat (length strikes)
  then Join (rung_name <$> drop (Z.to_nat banStrike) strikes) ", "
  else "(already at top)".

(** [trackSuppressedEvent] returns the delivery to make after unlocking. *)
Definition trackSuppressedEvent (v : env) (ip : addr) (bannedAt : time) (banStrike : Z) : dec (option delivery) :=
  e ← get_eng;
  let p := policy e in
  let afterGrace := BanIneffectiveGrace p <=? now v - bannedAt in
  r ← call SRecordSuppressed (RecordSuppressed (store_now v) ip afterGrace);
  match r with
  | Err _ => mret None
  | Ok (total, afterCount, fired) =>
    if negb (IsArmed p) || fired then mret None else
    let inGraceCount := total - afterCount in
    let ph :=
      if afterGrace && (BanIneffectiveMinEvents p <=? afterCount) then Some PhasePostGrace
      else if negb afterGrace && (0 <? InGraceIneffectiveThreshold p) && (InGraceIneffectiveThreshold p <=? inGraceCount)
      then Some PhaseInGrace else None in
    match ph with
    | None => mret None
    | Some ph =>
      m ← call SMarkBanIneffective (MarkBanIneffective ip);
      match m with
      | Err _ | Ok false => mret None
      | Ok true =>
        if has_diag v then mret (Some (BanIneffective (MkDiag ip banStrike (Z.of_nat (length (Strikes p)))
          (next_rungs (Strikes p) banStrike) afterCount total (dur_seconds (BanIneffectiveGrace p)) ph inGraceCount)))
        else mret None
      end
    end
  end.

(** A recently ended ban is exempt from the cap; everything else counts. *)
Definition admit_ban (v : env) (ip : addr) (nextStrike : Z) : dec bool :=
  exempt ← (if 1 <? nextStrike then escalationExempt v ip else mret false);
  if (exempt : bool) then mret true else checkRateLimit v.

(** The alert of a promotion to permanent after an ineffective ban. *)
Definition pre_permanent (v : env) (ip : addr) (ttl : duration) (nextStrike : Z) : dec (list delivery) :=
  if ttl =? 0 then
    h ← call SHadIneffectiveBan (HadIneffectiveBan ip);
    mret match h with
         | Ok true => if has_diag v then [BanIneffectivePermanent ip nextStrike] else []
         | _ => []
         end
  else mret [].

(** The strike path: escalation, rate limit, pre-permanent alert, the record. *)
Definition strike_path (v : env) (best : Verdict) (verdicts : list Verdict) (ip : addr) (cdnUnverified : bool)
    : dec (result decide_error Action * list delivery) :=
  r ← call SGetStrikeCount (GetStrikeCount ip);
  match r with
  | Err _ => mret (Err EGetStrikeCount, [])
  | Ok existing =>
    e ← get_eng;
    let p := policy e in
    let nextStrike := existing + 1 in
    let idx := nextStrike - 1 in
    let idx := if Z.of_nat (length (Strikes p)) <=? idx then Z.of_nat (length (Strikes p)) - 1 else idx in
    match (if idx <? 0 then None else Strikes p !! Z.to_nat idx) with
    | None => mret (Err EPanic, [])
    | Some ttl =>
      let op := if IsArmed p then ban else dry_ban in
      let reason := "score=" +:+ show_Z (Score best) +:+ " category=" +:+ Category best +:+ " source=" +:+ v_Source best +:+
                      (if cdnUnverified then ReasonMarkCDNUnverified else EmptyString) in
      let act := MkAction ip op ttl (ttl =? 0) nextStrike reason verdicts in
      admitted ← admit_ban v ip nextStrike;
      if negb admitted then mret (Err ERateLimited, []) else
      pending ← pre_permanent v ip ttl nextStrike;
      w ← call (SRecordStrike act) (RecordStrike (store_now v) act);
      match w with
      | Err _ => mret (Err ERecordStrike, pending)
      | Ok _ => _ ← set_eng (with_edges (clearNotifyEdge ip)); mret (Ok act, pending)
      end
    end
  end.

(** Everything under the strike lock: the active-ban guard, then the strike path. *)
Definition locked_section (v : env) (best : Verdict) (verdicts : list Verdict) (ip : addr) (cdnUnverified : bool)
    : dec (result decide_error Action * list delivery) :=
  r ← call SGetBanInfo (GetBanInfo (store_now v) ip);
  e ← get_eng;
  match r with
  | Ok (Some (bannedAt, banStrike, dryBan)) =>
    if IsArmed (policy e) && dryBan then strike_path v best verdicts ip cdnUnverified
    else
      let reason := if (dryBan : bool) then "active simulated ban (dry-run)" else "active ban in bans_active" in
      d ← trackSuppressedEvent v ip bannedAt banStrike;
      _ ← call SBumpLastSeen (BumpLastSeen (store_now v) ip);
      mret (Ok (plain_action ip already_banned reason verdicts), match d with Some x => [x] | None => [] end)
  | _ => strike_path v best verdicts ip cdnUnverified
  end.

Fixpoint deliver_all (ds : list delivery) : dec unit :=
  match ds with [] => mret tt | x :: ds => _ ← emit (EDeliver x); deliver_all ds end.

(** The verdict that drives the decision: the first of the highest score. *)
Definition best_verdict (v0 : Verdict) (vs : list Verdict) : Verdict :=
  fold_left (λ b v, if Score b <? Score v then v else b) vs v0.


Definition check_cdn (v : env) (ip : addr) : dec cdn_outcome :=
  match cdnRanges v with
  | None => mret CdnPass
  | Some None => _ ← warnCDNRangesUnavailable v; mret CdnUnverified
  | Some (Some ranges) => mret (if existsb (λ p, Contains p ip) ranges then CdnRefuse else CdnPass)
  end.

Definition notify_path (v : env) (best : Verdict) (verdicts : list Verdict) (ip : addr)
    : dec (result decide_error Action) :=
  let act := plain_action ip notify_only (v_Reason best) verdicts in
  e ← get_eng;
  let '(rising, m) := notifyEdgeRising ip (notifyRuleID (v_Reason best)) (now v) (pick v) (notifyEdges e) in
  _ ← set_eng (with_edges (λ _, m));
  if negb rising then mret (Ok act)
  else
    r ← call (SAudit act) (Audit (store_now v) act);
    match r with
    | Ok _ => mret (Ok act)
    | Err _ => _ ← set_eng (with_edges (clearNotifyEdge ip)); mret (Ok act)
    end.

Definition ban_path (v : env) (best : Verdict) (verdicts : list Verdict) (ip : addr) (cdnUnverified : bool)
    : dec (result decide_error Action) :=
  match botVerify v ip with
  | Some provider => audited v (plain_action ip record (ReasonVerifiedBotSpared +:+ ": " +:+ provider) verdicts)
  | None =>
    _ ← emit (ELock (strikeLockFor ip));
    rd ← locked_section v best verdicts ip cdnUnverified;
    _ ← emit (EUnlock (strikeLockFor ip));
    _ ← deliver_all rd.2;
    mret rd.1
  end.

Definition Decide (v : env) (verdicts : list Verdict) : dec (result decide_error Action) :=
  match verdicts with
  | [] => mret (Err ENoVerdicts)
  | v0 :: rest =>
    let best := best_verdict v0 rest in
    let ip := Unmap (v_IP best) in
    e ← get_eng;
    if isAllowlisted e ip then audited v (plain_action ip record "allowlisted" verdicts) else
    peers ← active_peers v;
    if bool_decide (ip ∈ peers) then audited v (plain_action ip record ReasonAntiLockoutSSHPeer verdicts) else
    cdn ← check_cdn v ip;
    match cdn with
    | CdnRefuse => audited v (plain_action ip record ReasonAntiLockoutCDNRange verdicts)
    | _ =>
      if Score best <? ObserveThreshold (policy e) then audited v (plain_action ip record (v_Reason best) verdicts) else
      if Score best <? BanThreshold (policy e) then notify_path v best verdicts ip else
      ban_path v best verdicts ip (match cdn with CdnUnverified => true | _ => false end)
    end
  end.

(** ** Operator bans *)
Inductive manual_error :=
| MMappedTooBroad | MAllowlisted (p : prefix) | MSSHPeer (a : addr) | MForwardedPeer (a : addr) | MCDNUnverified | MCDNRange (p : prefix)
| MRateLimited.

Definition manual_cdn (v : env) (target : prefix) (force : bool) : dec (result manual_error unit) :=
  match cdnRanges v with
  | None => mret (Ok tt)
  | Some ranges =>
    if force then mret (Ok tt)
    else match ranges with
         | None => _ ← warnCDNRangesUnavailable v; mret (Err MCDNUnverified)
         | Some l => mret match List.find (λ p, Overlaps p target) l with
                          | Some p => Err (MCDNRange p)
                          | None => Ok tt
                          end
         end
  end.

Definition manual_rate (v : env) : dec (result manual_error unit) :=
  ok ← checkRateLimit v; mret (if (ok : bool) then Ok tt else Err MRateLimited).

Definition AuthorizeManualBan (v : env) (target : prefix) (force : bool) (peers : list addr)
    : dec (result manual_error unit) :=
  match NormalizePrefix target with
  | Err _ => mret (Err MMappedTooBroad)
  | Ok target =>
    e ← get_eng;
    match List.find (λ p, Overlaps p target) (allow e) with
    | Some p => mret (Err (MAllowlisted p))
    | None =>
      ps ← active_peers v;
      match List.find (λ a, Contains target a) ps with
      | Some a => mret (Err (MSSHPeer a))
      | None =>
        match List.find (λ a, IsValid (Unmap a) && Contains target (Unmap a)) peers with
        | Some a => mret (Err (MForwardedPeer (Unmap a)))
        | None =>
          c ← manual_cdn v target force;
          match c with
          | Err x => mret (Err x)
          | Ok _ => manual_rate v
          end
        end
      end
    end
  end.
End engine.

Arguments dstate S : clear implicits.
Arguments dec S A : clear implicits.
