(* ===== verification/DecisionSafety.v ===== *)
(** What the decision engine guarantees: guards before every ban, escalation,
    suppression, the lock discipline, the ban-rate cap, the operator path. *)
From Stdlib Require Import QArith.
From S2P Require Import Prelude GoStrings Netip NetipParse Sdk Policy SSHPeers NotifyEdge StoreIface Decision.
#[local] Open Scope Z_scope.

(** ** Effects of a call

    [Emits P m]: whatever the state, [m] appends to the trace, and every effect
    it appends satisfies [P]; [Quiet m]: [m] leaves the policy and the
    allowlist alone. *)
Section effects.
Context {E S : Type} {ops : StoreOps E S}.

Class Emits {A} (P : effect → Prop) (m : dec S A) : Prop :=
  emits : ∀ d, ∃ es, trace (m d).2 = trace d ++ es ∧ Forall P es.
Class Quiet {A} (m : dec S A) : Prop :=
  quiet : ∀ d, policy (eng (m d).2) = policy (eng d) ∧ allow (eng (m d).2) = allow (eng d).

#[export] Instance emits_ret {A} P (x : A) : Emits P (mret x : dec S A).
Proof. intros d. exists []. by rewrite app_nil_r. Qed.
#[export] Instance emits_bind {A B} P (m : dec S A) (k : A → dec S B) :
  Emits P m → (∀ x, Emits P (k x)) → Emits P (x ← m; k x).
Proof.
  intros Hm Hk d. destruct (Hm d) as (es & E1 & H1). unfold mbind, dec_mbind.
  destruct (m d) as [x d1]. simpl in *. destruct (Hk x d1) as (es' & E2 & H2).
  exists (es ++ es'). rewrite E2, E1, app_assoc. split; [done|]. by apply Forall_app.
Qed.
#[export] Instance emits_get P : Emits P (get_eng (S := S)).
Proof. intros d. exists []. by rewrite app_nil_r. Qed.
#[export] Instance emits_set P f : Emits P (set_eng (S := S) f).
Proof. intros d. exists []. by rewrite app_nil_r. Qed.
#[export] Instance emits_peers P v : Emits P (active_peers (S := S) v).
Proof. intros d. exists []. rewrite app_nil_r. unfold active_peers. by destruct (activeSSHPeers _ _ _ _). Qed.
Lemma emits_emit (P : effect → Prop) x : P x → Emits P (emit (S := S) x).
Proof. intros Hx d. exists [x]. split; [done|]. by repeat constructor. Qed.
Lemma emits_call {A} (P : effect → Prop) c (f : S → result E A * S) : P (EStore c) → Emits P (call c f).
Proof.
  intros Hc d. exists [EStore c]. unfold call. destruct (f (st d)). split; [done|]. by repeat constructor.
Qed.
#[export] Instance emits_if {A} P (b : bool) (m n : dec S A) : Emits P m → Emits P n → Emits P (if b then m else n).
Proof. by destruct b. Qed.

#[export] Instance quiet_ret {A} (x : A) : Quiet (mret x : dec S A).
Proof. done. Qed.
#[export] Instance quiet_bind {A B} (m : dec S A) (k : A → dec S B) :
  Quiet m → (∀ x, Quiet (k x)) → Quiet (x ← m; k x).
Proof.
  intros Hm Hk d. destruct (Hm d) as [H1 H2]. unfold mbind, dec_mbind. destruct (m d) as [x d1].
  simpl in *. destruct (Hk x d1) as [H3 H4]. by rewrite H3, H4.
Qed.
#[export] Instance quiet_get : Quiet (get_eng (S := S)).
Proof. done. Qed.
#[export] Instance quiet_emit x : Quiet (emit (S := S) x).
Proof. done. Qed.
#[export] Instance quiet_call {A} c (f : S → result E A * S) : Quiet (call c f).
Proof. intros d. unfold call. by destruct (f (st d)). Qed.
#[export] Instance quiet_peers v : Quiet (active_peers (S := S) v).
Proof. intros d. unfold active_peers. by destruct (activeSSHPeers _ _ _ _). Qed.
#[export] Instance quiet_if {A} (b : bool) (m n : dec S A) : Quiet m → Quiet n → Quiet (if b then m else n).
Proof. by destruct b. Qed.
End effects.

#[export] Hint Extern 2 (Emits _ (call _ _)) => apply emits_call; exact I || done : typeclass_instances.
#[export] Hint Extern 2 (Emits _ (emit _)) => apply emits_emit; exact I || done : typeclass_instances.
#[export] Hint Extern 2 (Quiet (set_eng _)) => (intros ?; done) : typeclass_instances.

(** Store calls; and what may happen outside the strike lock: the audit of an
    action that is not a strike, and the CDN warning. *)
Definition is_store (x : effect) : Prop := match x with EStore _ => True | _ => False end.
Definition outside (x : effect) : Prop :=
  match x with EStore (SAudit _) | EWarnCDN => True | _ => False end.

Section traces.
Context {E S : Type} {ops : StoreOps E S}.
Implicit Types (v : env) (d : dstate S).

#[export] Instance emits_warn v : Emits outside (warnCDNRangesUnavailable (S := S) v).
Proof. unfold warnCDNRangesUnavailable. apply _. Qed.
#[export] Instance emits_check_cdn v ip : Emits outside (check_cdn (S := S) v ip).
Proof. unfold check_cdn. destruct (cdnRanges v) as [[]|]; apply _. Qed.
#[export] Instance emits_audited v a : Emits outside (audited (S := S) v a).
Proof. unfold audited. apply _. Qed.
#[export] Instance emits_rate P v : Emits P (checkRateLimit (S := S) v).
Proof. unfold checkRateLimit. apply emits_bind; [apply _|]. intros e. destruct (if _ <? _ then _ else _). apply _. Qed.
#[export] Instance emits_exempt v ip : Emits is_store (escalationExempt (S := S) v ip).
Proof. unfold escalationExempt. apply _. Qed.
#[export] Instance emits_admit v ip n : Emits is_store (admit_ban (S := S) v ip n).
Proof. unfold admit_ban. apply _. Qed.
#[export] Instance emits_pre_permanent v ip ttl n : Emits is_store (pre_permanent (S := S) v ip ttl n).
Proof. unfold pre_permanent. apply _. Qed.
#[export] Instance emits_track v ip t n : Emits is_store (trackSuppressedEvent (S := S) v ip t n).
Proof.
  unfold trackSuppressedEvent. apply emits_bind; [apply _|]. intros e. apply emits_bind; [apply _|].
  intros [[[total after] fired]|]; [|apply _]. apply emits_if; [apply _|].
  case_match; [|apply _]. apply emits_bind; [apply _|]. intros [[]|]; apply _.
Qed.
#[export] Instance emits_strike v b vs ip u : Emits is_store (strike_path (S := S) v b vs ip u).
Proof.
  unfold strike_path. apply emits_bind; [apply _|]. intros [n|]; [|apply _]. apply emits_bind; [apply _|].
  intros e. case_match; [|apply _]. apply emits_bind; [apply _|]. intros ok. apply emits_if; [apply _|].
  apply emits_bind; [apply _|]. intros p. apply emits_bind; [apply _|]. intros []; apply _.
Qed.
#[export] Instance emits_locked v b vs ip u : Emits is_store (locked_section (S := S) v b vs ip u).
Proof.
  unfold locked_section. apply emits_bind; [apply _|]. intros r. apply emits_bind; [apply _|]. intros e.
  destruct r as [[[[]]|]|]; apply _.
Qed.
#[export] Instance emits_notify v b vs ip : Emits outside (notify_path (S := S) v b vs ip).
Proof.
  unfold notify_path. apply emits_bind; [apply _|]. intros e. destruct (notifyEdgeRising _ _ _ _ _).
  apply emits_bind; [apply _|]. intros _. apply emits_if; [apply _|]. apply emits_bind; [apply _|].
  intros []; apply _.
Qed.

#[export] Instance quiet_warn v : Quiet (warnCDNRangesUnavailable (S := S) v).
Proof. unfold warnCDNRangesUnavailable. apply _. Qed.
#[export] Instance quiet_check_cdn v ip : Quiet (check_cdn (S := S) v ip).
Proof. unfold check_cdn. destruct (cdnRanges v) as [[]|]; apply _. Qed.
#[export] Instance quiet_rate v : Quiet (checkRateLimit (S := S) v).
Proof. unfold checkRateLimit. apply quiet_bind; [apply _|]. intros e. destruct (if _ <? _ then _ else _). apply _. Qed.
#[export] Instance quiet_exempt v ip : Quiet (escalationExempt (S := S) v ip).
Proof. unfold escalationExempt. apply _. Qed.

Lemma deliver_all_trace ds d : deliver_all ds d = (tt, MkD (eng d) (st d) (trace d ++ (EDeliver <$> ds))).
Proof.
  revert d. induction ds as [|x ds IH]; intros d; simpl.
  - rewrite app_nil_r. by destruct d.
  - unfold mbind, dec_mbind, emit. rewrite IH. simpl. by rewrite <- app_assoc.
Qed.

(** [ban_path] in one equation. *)
Lemma ban_path_run v b vs ip u d :
  ban_path v b vs ip u d =
  match botVerify v ip with
  | Some provider => audited v (plain_action ip record (ReasonVerifiedBotSpared +:+ ": " +:+ provider) vs) d
  | None =>
    let '(rd, d') := locked_section v b vs ip u (MkD (eng d) (st d) (trace d ++ [ELock (strikeLockFor ip)])) in
    (rd.1, MkD (eng d') (st d') ((trace d' ++ [EUnlock (strikeLockFor ip)]) ++ (EDeliver <$> rd.2)))
  end.
Proof.
  unfold ban_path. destruct (botVerify v ip); [done|]. unfold mbind, dec_mbind at 1. unfold emit at 1.
  unfold mbind, dec_mbind. destruct (locked_section _ _ _ _ _ _) as [[r ds] d']. simpl.
  unfold dec_mbind. by rewrite deliver_all_trace.
Qed.

(** The shape of what one [Decide] does outside the engine. *)
Definition disciplined (es : list effect) : Prop :=
  Forall outside es ∨
  ∃ pre ip mid ds, es = pre ++ ELock (strikeLockFor ip) :: mid ++ EUnlock (strikeLockFor ip) :: (EDeliver <$> ds) ∧
    Forall outside pre ∧ Forall is_store mid.

Lemma emits_disciplined {A} (m : dec S A) d :
  Emits outside m → ∃ es, trace (m d).2 = trace d ++ es ∧ disciplined es.
Proof. intros H. destruct (H d) as (es & -> & Hes). exists es. split; [done|]. by left. Qed.

Lemma ban_path_disciplined v b vs ip u d :
  ∃ es, trace (ban_path v b vs ip u d).2 = trace d ++ es ∧ disciplined es.
Proof.
  rewrite ban_path_run. destruct (botVerify v ip); [apply emits_disciplined, _|].
  set (d1 := MkD (eng d) (st d) (trace d ++ [ELock (strikeLockFor ip)])).
  destruct (emits (m := locked_section v b vs ip u) d1) as (mid & Hmid & Hst).
  destruct (locked_section v b vs ip u d1) as [rd d'] eqn:El. simpl in *. rewrite Hmid.
  exists (ELock (strikeLockFor ip) :: mid ++ EUnlock (strikeLockFor ip) :: (EDeliver <$> rd.2)).
  split; [by rewrite <- !app_assoc|]. right. exists [], ip, mid, rd.2. by split.
Qed.

(** The strike section is a critical section and deliveries leave it: every
    call of [Decide] either only audits (and may warn about the CDN table), or
    takes the address's strike lock once, makes store calls only while holding
    it, releases the same lock once, and delivers diagnostics only after that;
    a strike is never written outside the lock. *)
Theorem lock_discipline v verdicts d :
  ∃ es, trace (Decide v verdicts d).2 = trace d ++ es ∧ disciplined es.
Proof.
  destruct verdicts as [|v0 rest]; [exists []; split; [by rewrite app_nil_r|by left]|].
  unfold Decide. unfold mbind at 1, dec_mbind at 1, get_eng at 1. cbv beta iota.
  destruct (isAllowlisted _ _); [apply emits_disciplined, _|].
  unfold mbind, dec_mbind at 1. destruct (emits (P := outside) (m := active_peers v) d) as (es1 & H1 & F1).
  destruct (active_peers v d) as [ps d1]. simpl in H1. destruct (bool_decide _).
  { destruct (emits (P := outside) (m := audited v (plain_action (Unmap (v_IP (best_verdict v0 rest))) record ReasonAntiLockoutSSHPeer (v0 :: rest))) d1)
      as (es2 & H2 & F2).
    exists (es1 ++ es2). rewrite H2, H1, app_assoc. split; [done|]. left. by apply Forall_app. }
  unfold dec_mbind. destruct (emits (P := outside) (m := check_cdn v (Unmap (v_IP (best_verdict v0 rest)))) d1) as (es2 & H2 & F2).
  destruct (check_cdn _ _ d1) as [cdn d2]. simpl in H2.
  match goal with |- ∃ es, trace (?m d2).2 = _ ∧ _ =>
    assert (∃ es, trace (m d2).2 = trace d2 ++ es ∧ disciplined es) as (es3 & H3 & F3) end.
  { destruct cdn; [apply emits_disciplined, _|..];
      (destruct (_ <? _); [apply emits_disciplined, _|]; destruct (_ <? _); [apply emits_disciplined, _|];
       apply ban_path_disciplined). }
  rewrite H3, H2, H1. exists ((es1 ++ es2) ++ es3). split; [by rewrite !app_assoc|].
  assert (Forall outside (es1 ++ es2)) as F12 by (by apply Forall_app).
  destruct F3 as [F3|(pre & ip & mid & ds & -> & Fp & Fm)]; [left; by apply Forall_app|right].
  exists ((es1 ++ es2) ++ pre), ip, mid, ds. split; [by rewrite <- !app_assoc|]. split; [by apply Forall_app|done].
Qed.
End traces.

(** ** The store across a call

    [Frame m]: [m] changes no strike count and no ban. *)
Section frames.
Context {E S : Type} {ops : StoreOps E S} {view : StoreView S} {laws : StoreLaws E S}.

Class Frame {A} (m : dec S A) : Prop := frame : ∀ d, same_bans (st d) (st (m d).2).

#[export] Instance frame_ret {A} (x : A) : Frame (mret x : dec S A).
Proof. intros d. simpl. reflexivity. Qed.
#[export] Instance frame_get : Frame (get_eng (S := S)).
Proof. intros d. simpl. reflexivity. Qed.
#[export] Instance frame_set f : Frame (set_eng (S := S) f).
Proof. intros d. simpl. reflexivity. Qed.
#[export] Instance frame_emit x : Frame (emit (S := S) x).
Proof. intros d. simpl. reflexivity. Qed.
#[export] Instance frame_bind {A B} (m : dec S A) (k : A → dec S B) :
  Frame m → (∀ x, Frame (k x)) → Frame (x ← m; k x).
Proof.
  intros Hm Hk d. specialize (Hm d). unfold mbind, dec_mbind. destruct (m d) as [x d1]. simpl in Hm.
  etransitivity; [done|]. apply Hk.
Qed.
#[export] Instance frame_if {A} (b : bool) (m n : dec S A) : Frame m → Frame n → Frame (if b then m else n).
Proof. by destruct b. Qed.
Lemma frame_call {A} c (f : S → result E A * S) : (∀ s, same_bans s (f s).2) → Frame (call c f).
Proof. intros Hf d. unfold call. specialize (Hf (st d)). by destruct (f (st d)). Qed.
#[export] Instance frame_audit c t a : Frame (call c (Audit t a)).
Proof using laws. apply frame_call, law_Audit. Qed.
#[export] Instance frame_info c t ip : Frame (call c (GetBanInfo t ip)).
Proof using laws. apply frame_call, law_GetBanInfo. Qed.
#[export] Instance frame_count c ip : Frame (call c (GetStrikeCount ip)).
Proof using laws. apply frame_call, law_GetStrikeCount. Qed.
#[export] Instance frame_last c ip : Frame (call c (LastStrike ip)).
Proof using laws. apply frame_call, law_LastStrike. Qed.
#[export] Instance frame_had c ip : Frame (call c (HadIneffectiveBan ip)).
Proof using laws. apply frame_call, law_HadIneffectiveBan. Qed.
#[export] Instance frame_suppressed c t ip g : Frame (call c (RecordSuppressed t ip g)).
Proof using laws. apply frame_call, law_RecordSuppressed. Qed.
#[export] Instance frame_mark c ip : Frame (call c (MarkBanIneffective ip)).
Proof using laws. apply frame_call, law_MarkBanIneffective. Qed.
#[export] Instance frame_bump c t ip : Frame (call c (BumpLastSeen t ip)).
Proof using laws. apply frame_call, law_BumpLastSeen. Qed.

#[export] Instance frame_rate v : Frame (checkRateLimit (S := S) v).
Proof using. unfold checkRateLimit. apply frame_bind; [apply _|]. intros e. destruct (if _ <? _ then _ else _). apply _. Qed.
#[export] Instance frame_admit v ip n : Frame (admit_ban (S := S) v ip n).
Proof using laws. unfold admit_ban, escalationExempt. apply _. Qed.
#[export] Instance frame_pre_permanent v ip ttl n : Frame (pre_permanent (S := S) v ip ttl n).
Proof using laws. unfold pre_permanent. apply _. Qed.
#[export] Instance frame_track v ip t n : Frame (trackSuppressedEvent (S := S) v ip t n).
Proof using laws.
  unfold trackSuppressedEvent. apply frame_bind; [apply _|]. intros e. apply frame_bind; [apply _|].
  intros [[[total after] fired]|]; [|apply _]. apply frame_if; [apply _|].
  case_match; [|apply _]. apply frame_bind; [apply _|]. intros [[]|]; apply _.
Qed.
#[export] Instance frame_audited v a : Frame (audited (S := S) v a).
Proof using laws. unfold audited. apply _. Qed.
#[export] Instance frame_notify v b vs ip : Frame (notify_path (S := S) v b vs ip).
Proof using laws.
  unfold notify_path. apply frame_bind; [apply _|]. intros e. destruct (notifyEdgeRising _ _ _ _ _).
  apply frame_bind; [apply _|]. intros _. apply frame_if; [apply _|]. apply frame_bind; [apply _|].
  intros []; apply _.
Qed.
End frames.

(** ** What a ban implies *)

(** The result of a last step that only returns or updates the engine. *)
Ltac run_in H := unfold mret, dec_mret, set_eng, emit in H; simplify_eq/=.

Section bans.
Context {E S : Type} {ops : StoreOps E S} {view : StoreView S} {laws : StoreLaws E S}.
Implicit Types (v : env) (d : dstate S).

(** The rung of a ladder for an address with [n] strikes. *)
Definition rung (strikes : list duration) (n : Z) : option duration :=
  strikes !! Nat.min (Z.to_nat n) (pred (length strikes)).

Lemma strike_index strikes n ttl :
  (let idx := n + 1 - 1 in
   let idx := if Z.of_nat (length strikes) <=? idx then Z.of_nat (length strikes) - 1 else idx in
   if idx <? 0 then None else strikes !! Z.to_nat idx) = Some ttl →
  rung strikes n = Some ttl ∧ 0 <= n.
Proof.
  cbv zeta. rewrite Z.add_simpl_r. unfold rung. destruct (Z.leb_spec (Z.of_nat (length strikes)) n).
  - destruct (Z.ltb_spec (Z.of_nat (length strikes) - 1) 0); [done|]. intros H1.
    replace (Nat.min _ _) with (Z.to_nat (Z.of_nat (length strikes) - 1)) by lia. split; [done|lia].
  - destruct (Z.ltb_spec n 0); [done|]. intros H1.
    replace (Nat.min _ _) with (Z.to_nat n) by lia. done.
Qed.

(** Everything a successful strike did. *)
Record struck v (best : Verdict) (verdicts : list Verdict) ip d (act : Action) (d' : dstate S) : Prop := {
  sk_ip : act_IP act = ip;
  sk_op : act_Op act = if IsArmed (policy (eng d)) then ban else dry_ban;
  sk_verdicts : Verdicts act = verdicts;
  sk_permanent : Permanent act = (act_TTL act =? 0);
  sk_count : ∃ n s1, GetStrikeCount ip (st d) = (Ok n, s1) ∧ 0 <= n ∧ Strike act = n + 1 ∧
             rung (Strikes (policy (eng d))) n = Some (act_TTL act);
  sk_record : ∃ s2, same_bans (st d) s2 ∧ RecordStrike (store_now v) act s2 = (Ok tt, st d')
}.

Lemma strike_path_ok v best vs ip u d act ds d' :
  strike_path v best vs ip u d = ((Ok act, ds), d') → struck v best vs ip d act d'.
Proof.
  unfold strike_path, mbind, dec_mbind. destruct (call SGetStrikeCount _ d) as [r d1] eqn:E1.
  destruct r as [n|e]; [|done]. unfold get_eng at 1. cbv beta iota zeta.
  assert (∃ s1, GetStrikeCount ip (st d) = (Ok n, s1) ∧ eng d1 = eng d ∧ st d1 = s1) as (s1 & Hn & He & Hs).
  { unfold call in E1. destruct (GetStrikeCount ip (st d)) as [r s1]. simplify_eq/=. eauto. }
  rewrite He. match goal with |- context [match ?m with Some _ => _ | None => mret (Err EPanic, []) end] =>
    destruct m as [ttl|] eqn:Ei; [|done] end.
  apply strike_index in Ei as [Hr Hnn].
  destruct (admit_ban v ip (n + 1) d1) as [ok d3] eqn:E3. destruct ok; [|done]. cbn [negb].
  destruct (pre_permanent v ip ttl (n + 1) d3) as [pend d4] eqn:E4.
  cbv beta iota zeta. match goal with |- context [call ?c ?f d4] => destruct (call c f d4) as [w d5] eqn:E5 end. destruct w as [[]|]; [|done]. intros H; run_in H.
  split; simpl; try done.
  - exists n, (st d1). auto.
  - exists (st d4). split; [|unfold call in E5; destruct (RecordStrike _ _ _) as [w s5]; by simplify_eq/=].
    pose proof (frame (m := call SGetStrikeCount (GetStrikeCount ip)) d) as F1. rewrite E1 in F1.
    pose proof (frame (m := admit_ban v ip (n + 1)) d1) as F2. rewrite E3 in F2.
    pose proof (frame (m := pre_permanent v ip ttl (n + 1)) d3) as F3. rewrite E4 in F3.
    simpl in *. etransitivity; [exact F1|]. etransitivity; [exact F2|exact F3].
Qed.

(** The active-ban guard lets a strike through in three cases. *)
Definition guard_open v ip d : Prop :=
  match (GetBanInfo (store_now v) ip (st d)).1 with
  | Err _ | Ok None => True
  | Ok (Some (_, _, dry)) => IsArmed (policy (eng d)) = true ∧ dry = true
  end.

Lemma locked_section_ok v best vs ip u d act ds d' :
  locked_section v best vs ip u d = ((Ok act, ds), d') →
  (act_Op act = already_banned ∧ act_IP act = ip ∧ ¬ guard_open v ip d) ∨
  (guard_open v ip d ∧ ∃ d1, eng d1 = eng d ∧ st d1 = (GetBanInfo (store_now v) ip (st d)).2 ∧ struck v best vs ip d1 act d').
Proof.
  unfold locked_section, guard_open, mbind, dec_mbind. destruct (call SGetBanInfo _ d) as [r d1] eqn:E1.
  assert (r = (GetBanInfo (store_now v) ip (st d)).1 ∧ eng d1 = eng d ∧ st d1 = (GetBanInfo (store_now v) ip (st d)).2)
    as (-> & He & Hs).
  { unfold call in E1. destruct (GetBanInfo _ _ _). by simplify_eq/=. }
  unfold get_eng at 1. cbv beta iota zeta. rewrite He.
  destruct ((GetBanInfo (store_now v) ip (st d)).1) as [[[[t n] dry]|]|].
  - destruct (IsArmed (policy (eng d)) && dry) eqn:Eg.
    + apply andb_true_iff in Eg as [Ha Hd]. intros H%strike_path_ok. right. split; [by split|]. eauto.
    + destruct (trackSuppressedEvent _ _ _ _ d1) as [dl d2]. destruct (call SBumpLastSeen _ d2) as [b d3].
      intros H; run_in H. left. split; [done|]. split; [done|].
      intros [Ha Hd]. by rewrite Ha, Hd in Eg.
  - intros H%strike_path_ok. right. split; [done|]. eauto.
  - intros H%strike_path_ok. right. split; [done|]. eauto.
Qed.

Lemma audited_ok v a d r d' : audited v a d = (r, d') → r = Ok a.
Proof. unfold audited, mbind, dec_mbind. destruct (call (E := E) (A := unit) _ _ d). intros H; by run_in H. Qed.

Lemma notify_path_ok v b vs ip d r d' : notify_path v b vs ip d = (r, d') → r = Ok (plain_action ip notify_only (v_Reason b) vs).
Proof.
  unfold notify_path, mbind, dec_mbind, get_eng. destruct (notifyEdgeRising _ _ _ _ _) as [b0 m].
  unfold set_eng at 1. destruct b0; simpl; [|intros H; by run_in H].
  destruct (call (E := E) (A := unit) _ _ _) as [[]]; intros H; by run_in H.
Qed.

Lemma ban_path_ok v best vs ip u d act d' :
  ban_path v best vs ip u d = (Ok act, d') →
  (act_Op act = record) ∨
  (botVerify v ip = None ∧ act_Op act = already_banned ∧ act_IP act = ip ∧ ¬ guard_open v ip d) ∨
  (botVerify v ip = None ∧ guard_open v ip d ∧
   ∃ d1 d2, eng d1 = eng d ∧ st d1 = (GetBanInfo (store_now v) ip (st d)).2 ∧ st d2 = st d' ∧ struck v best vs ip d1 act d2).
Proof.
  rewrite ban_path_run. destruct (botVerify v ip) as [pr|].
  { intros H%audited_ok. simplify_eq/=. by left. }
  set (d0 := MkD (eng d) (st d) (trace d ++ [ELock (strikeLockFor ip)])).
  destruct (locked_section v best vs ip u d0) as [[r ds] d1] eqn:El. intros H. simplify_eq/=. right.
  apply locked_section_ok in El as [(H1 & H2 & H3)|(Hg & d2 & H1 & H2 & H3)]; [by left|right].
  split; [done|]. split; [done|]. exists d2, d1. simpl in *. auto.
Qed.

(** The guards [Decide] passed on the way to the ban path. *)
Record passed_guards v ip (score : Z) d : Prop := {
  pg_allow : isAllowlisted (eng d) ip = false;
  pg_peers : ip ∉ (active_peers v d).1;
  pg_cdn : ∀ ranges, cdnRanges v = Some (Some ranges) → ∀ p, p ∈ ranges → Contains p ip = false;
  pg_score : BanThreshold (policy (eng d)) <= score ∧ ObserveThreshold (policy (eng d)) <= score
}.

Lemma check_cdn_pass v ip d c d' :
  check_cdn v ip d = (c, d') → c ≠ CdnRefuse →
  (∀ ranges, cdnRanges v = Some (Some ranges) → ∀ p, p ∈ ranges → Contains p ip = false) ∧
  policy (eng d') = policy (eng d) ∧ allow (eng d') = allow (eng d) ∧ st d' = st d.
Proof.
  unfold check_cdn. destruct (cdnRanges v) as [[l|]|]; intros H Hc.
  - unfold mret, dec_mret in H. simplify_eq. destruct (existsb _ l) eqn:Ee; [done|].
    split; [|done]. intros r [= <-]. by apply existsb_false_elem.
  - unfold warnCDNRangesUnavailable, mbind, dec_mbind, get_eng in H.
    destruct (match cdnWarnLast _ with None => true | Some t => _ end); run_in H; done.
  - unfold mret, dec_mret in H. by simplify_eq.
Qed.

Lemma active_peers_st v d ps d' : active_peers v d = (ps, d') →
  policy (eng d') = policy (eng d) ∧ allow (eng d') = allow (eng d) ∧ st d' = st d.
Proof. unfold active_peers. destruct (activeSSHPeers _ _ _ _). intros H; by run_in H. Qed.

(** [Decide] returns an audit-only action, or its result is that of the ban
    path with every guard passed. *)
Lemma Decide_cases v b0 rest d r d' :
  let best := best_verdict b0 rest in
  let ip := Unmap (v_IP best) in
  Decide v (b0 :: rest) d = (r, d') →
  (∃ act, r = Ok act ∧ act_IP act = ip ∧ (act_Op act = record ∨ act_Op act = notify_only)) ∨
  (passed_guards v ip (Score best) d ∧
   ∃ d1 u, policy (eng d1) = policy (eng d) ∧ allow (eng d1) = allow (eng d) ∧ st d1 = st d ∧
           ban_path v best (b0 :: rest) ip u d1 = (r, d')).
Proof.
  intros best ip. unfold Decide. fold best. fold ip.
  unfold mbind at 1, dec_mbind at 1, get_eng at 1. cbv beta iota.
  destruct (isAllowlisted (eng d) ip) eqn:Ea; [intros H%audited_ok; subst; left; eauto|].
  unfold mbind, dec_mbind at 1. destruct (active_peers v d) as [ps d1] eqn:Ep.
  destruct (bool_decide (ip ∈ ps)) eqn:Eb; [intros H%audited_ok; subst; left; eauto|].
  unfold dec_mbind. destruct (check_cdn v ip d1) as [cdn d2] eqn:Ec.
  destruct (decide (cdn = CdnRefuse)) as [->|Hc]; [intros H%audited_ok; subst; left; eauto|].
  destruct (check_cdn_pass _ _ _ _ _ Ec Hc) as (Hcdn & Hp2 & Ha2 & Hs2).
  destruct (active_peers_st _ _ _ _ Ep) as (Hp1 & Ha1 & Hs1).
  assert (∀ k : dec S (result decide_error Action),
    (match cdn with CdnRefuse => audited v (plain_action ip record ReasonAntiLockoutCDNRange (b0 :: rest)) | _ => k end) d2 = k d2)
    as Hk by (by destruct cdn).
  intros H. rewrite Hk in H. clear Hk.
  destruct (Score best <? ObserveThreshold (policy (eng d))) eqn:Eo.
  { apply audited_ok in H. subst. left. eauto. }
  destruct (Score best <? BanThreshold (policy (eng d))) eqn:Et.
  { apply notify_path_ok in H. subst. left. eauto. }
  bool_hyps. right. split.
  - split; [done| |done|lia]. by rewrite Ep.
  - exists d2. eexists. rewrite Hp2, Ha2, Hs2. split; [done|]. split; [done|]. split; [done|]. exact H.
Qed.

(** [Decide] reaches the ban path when the guards pass. *)
Lemma Decide_passes v b0 rest d :
  let best := best_verdict b0 rest in
  let ip := Unmap (v_IP best) in
  passed_guards v ip (Score best) d →
  ∃ d1 u, eng d1 = eng (check_cdn v ip (active_peers v d).2).2 ∧ policy (eng d1) = policy (eng d) ∧ st d1 = st d ∧
          Decide v (b0 :: rest) d = ban_path v best (b0 :: rest) ip u d1.
Proof.
  intros best ip [Ha Hp Hc [Hs Ho]]. unfold Decide. fold best. fold ip.
  unfold mbind at 1, dec_mbind at 1, get_eng at 1. cbv beta iota. rewrite Ha.
  unfold mbind, dec_mbind at 1. destruct (active_peers v d) as [ps d1] eqn:Ep. simpl in Hp.
  rewrite bool_decide_false by done. unfold dec_mbind. simpl.
  destruct (check_cdn v ip d1) as [cdn d2] eqn:Ec. simpl.
  destruct (active_peers_st _ _ _ _ Ep) as (Hp1 & Ha1 & Hs1).
  assert (cdn ≠ CdnRefuse) as Hne.
  { intros ->. unfold check_cdn in Ec. destruct (cdnRanges v) as [[l|]|] eqn:El.
    - unfold mret, dec_mret in Ec. destruct (existsb _ l) eqn:Ee; simplify_eq.
      apply existsb_exists_elem in Ee as (q & Hq & Hcq). rewrite (Hc l eq_refl q Hq) in Hcq. done.
    - unfold warnCDNRangesUnavailable, mbind, dec_mbind, get_eng in Ec.
      destruct (match cdnWarnLast _ with None => true | Some t => _ end); run_in Ec.
    - run_in Ec. }
  destruct (check_cdn_pass _ _ _ _ _ Ec Hne) as (_ & Hp2 & Ha2 & Hs2).
  rewrite (proj2 (Z.ltb_ge _ _)) by lia. rewrite (proj2 (Z.ltb_ge _ _)) by lia.
  exists d2, (match cdn with CdnUnverified => true | _ => false end).
  rewrite Hp2, Hs2. split; [done|]. split; [done|]. split; [done|]. by destruct cdn.
Qed.

Lemma Decide_ban v b0 rest d act d' :
  Decide v (b0 :: rest) d = (Ok act, d') → act_Op act = ban ∨ act_Op act = dry_ban →
  let best := best_verdict b0 rest in
  let ip := Unmap (v_IP best) in
  passed_guards v ip (Score best) d ∧ botVerify v ip = None ∧ guard_open v ip d ∧
  ∃ d1 d2, policy (eng d1) = policy (eng d) ∧ st d1 = (GetBanInfo (store_now v) ip (st d)).2 ∧ st d2 = st d' ∧
           struck v best (b0 :: rest) ip d1 act d2.
Proof.
  intros H Hop best ip. apply Decide_cases in H as [(a & [= <-] & _ & Hr)|(Hg & d1 & u & Hp & Ha & Hs & H)].
  { destruct Hr, Hop; congruence. }
  split; [done|]. apply ban_path_ok in H as [Hr|[(_ & Hr & _)|(Hb & Hgo & d2 & d3 & He & Hs2 & Hs3 & Hk)]];
    [destruct Hop; congruence..|].
  split; [done|]. unfold guard_open in *. fold best in Hk, Hgo, Hs2. fold ip in Hk, Hgo, Hs2.
  rewrite Hs, Hp in Hgo. split; [done|]. exists d2, d3. rewrite He, Hp, Hs2, Hs. done.
Qed.

(** C4. No ban without every guard: a returned "ban" or "dry_ban" means the
    address (IPv4-mapped forms unmapped) is in no allowlist prefix, is no
    active SSH peer, is in no known shared CDN range, scored at least the ban
    threshold, was not spared as a verified bot, and had no active ban (a
    simulated one does not count while armed); it is "ban" exactly when the
    policy is armed, so dry-run never enforces. *)
Theorem ban_implies_guards v b0 rest d act d' :
  Decide v (b0 :: rest) d = (Ok act, d') → act_Op act = ban ∨ act_Op act = dry_ban →
  let best := best_verdict b0 rest in
  let ip := Unmap (v_IP best) in
  let p := policy (eng d) in
  act_IP act = ip ∧ (act_Op act = ban ↔ IsArmed p = true) ∧
  (∀ q, q ∈ allow (eng d) → Contains q ip = false) ∧
  (ip ∉ (active_peers v d).1) ∧
  (∀ ranges, cdnRanges v = Some (Some ranges) → ∀ q, q ∈ ranges → Contains q ip = false) ∧
  BanThreshold p <= Score best ∧ botVerify v ip = None ∧
  (∀ t n dry s, GetBanInfo (store_now v) ip (st d) = (Ok (Some (t, n, dry)), s) → IsArmed p = true ∧ dry = true).
Proof.
  intros H Hop best ip p. destruct (Decide_ban _ _ _ _ _ _ H Hop) as ([Ha Hp Hc [Hs _]] & Hb & Hgo & d1 & d2 & He & _ & _ & Hk).
  split; [apply Hk|]. split.
  { rewrite (sk_op _ _ _ _ _ _ _ Hk), He. unfold p. destruct (IsArmed (policy (eng d))); naive_solver. }
  split; [by apply existsb_false_elem|]. split; [done|]. split; [done|]. split; [done|]. split; [done|].
  intros t n dry s Hi. unfold guard_open in Hgo. fold best in Hgo. fold ip in Hgo. rewrite Hi in Hgo. exact Hgo.
Qed.

(** C7. Escalation: a ban carries strike number one more than the address's
    strike count, the TTL of that rung of the ladder (the last rung for ever
    after), [Permanent] exactly for a zero TTL, every verdict; and when
    [Decide] returns, the store counts the strike and holds the ban with that
    time, number, simulated flag and expiry, no other address being touched. *)
Theorem ban_escalates v b0 rest d act d' :
  Decide v (b0 :: rest) d = (Ok act, d') → act_Op act = ban ∨ act_Op act = dry_ban →
  let ip := act_IP act in
  Strike act = count (st d) ip + 1 ∧
  Strikes (policy (eng d)) !! Nat.min (Z.to_nat (count (st d) ip)) (pred (length (Strikes (policy (eng d))))) = Some (act_TTL act) ∧
  Permanent act = (act_TTL act =? 0) ∧ Verdicts act = b0 :: rest ∧
  count (st d') ip = count (st d) ip + 1 ∧
  banned (st d') ip = Some (store_now v, Strike act, bool_decide (act_Op act = dry_ban),
                            if 0 <? act_TTL act then Some (store_now v + act_TTL act) else None) ∧
  ∀ jp, jp ≠ ip → count (st d') jp = count (st d) jp ∧ banned (st d') jp = banned (st d) jp.
Proof.
  intros H Hop ip.
  destruct (Decide_ban _ _ _ _ _ _ H Hop) as (_ & _ & _ & d1 & d2 & He & Hs1 & Hs2 & Hk).
  destruct Hk as [Hip _ Hv Hperm (n & s1 & Hn & Hnn & Hst & Hrung) (s2 & Hsame & Hrec)].
  assert (same_bans (st d) (st d1)) as H1 by (rewrite Hs1; apply law_GetBanInfo).
  assert (same_bans (st d) s2) as H2 by (by etransitivity).
  rewrite <- Hip in Hn. apply law_count in Hn. fold ip in Hn. destruct (H1 ip) as [Hc1 _]. destruct (H2 ip) as [Hc2 _].
  apply law_strike in Hrec as (Hcnt & Hban & Hother). rewrite Hs2 in Hcnt, Hban, Hother. fold ip in Hcnt, Hban, Hother.
  assert (n = count (st d) ip) as -> by congruence.
  split; [done|]. split; [by rewrite <- He|]. split; [done|]. split; [done|]. split; [congruence|]. split; [done|].
  intros jp Hjp. destruct (Hother jp Hjp) as [-> ->]. apply H2.
Qed.

Lemma locked_section_suppresses v best vs ip u d t n dry s :
  GetBanInfo (store_now v) ip (st d) = (Ok (Some (t, n, dry)), s) → IsArmed (policy (eng d)) && dry = false →
  ∃ act ds d', locked_section v best vs ip u d = ((Ok act, ds), d') ∧ act_Op act = already_banned ∧ act_IP act = ip ∧
    same_bans (st d) (st d').
Proof.
  intros Hi Hg. unfold locked_section. unfold mbind at 1, dec_mbind at 1.
  pose proof (frame (m := call SGetBanInfo (GetBanInfo (store_now v) ip)) d) as F1.
  assert (∃ d1, call SGetBanInfo (GetBanInfo (store_now v) ip) d = (Ok (Some (t, n, dry)), d1) ∧ eng d1 = eng d) as (d1 & E1 & He).
  { unfold call. rewrite Hi. eauto. }
  rewrite E1 in *. simpl in F1. unfold mbind at 1, dec_mbind at 1, get_eng at 1. cbv beta iota. rewrite He, Hg.
  match goal with |- ∃ act ds d', ?m d1 = _ ∧ _ => pose proof (frame (m := m) d1) as F2; destruct (m d1) as [[r ds] d2] eqn:E2 end.
  unfold mbind, dec_mbind in E2. destruct (trackSuppressedEvent _ _ _ _ d1). destruct (call SBumpLastSeen _ _). run_in E2.
  eexists _, _, d2. split; [done|]. split; [done|]. split; [done|]. by etransitivity.
Qed.

Lemma ban_path_suppresses v best vs ip u d t n dry s :
  botVerify v ip = None →
  GetBanInfo (store_now v) ip (st d) = (Ok (Some (t, n, dry)), s) → IsArmed (policy (eng d)) && dry = false →
  ∃ act d', ban_path v best vs ip u d = (Ok act, d') ∧ act_Op act = already_banned ∧ act_IP act = ip ∧ same_bans (st d) (st d').
Proof.
  intros Hb Hi Hg. rewrite ban_path_run, Hb.
  destruct (locked_section_suppresses v best vs ip u (MkD (eng d) (st d) (trace d ++ [ELock (strikeLockFor ip)])) t n dry s Hi Hg)
    as (act & ds & d' & -> & H1 & H2 & H3). eexists _, _. split; [done|]. done.
Qed.

(** C6. No duplicate ban: once [Decide] has returned a ban for an address, as
    long as the ban has not expired (or is permanent) and nothing else changed
    counts or bans, a later evaluation of that address that passes the guards
    answers "already_banned" and records no strike; in particular the loser of
    a race for the strike lock suppresses.  (Arming in between voids a
    simulated ban; a failing active-ban query falls through by design.) *)
Theorem no_duplicate_ban v b0 rest d act d' v' b0' rest' e info s'' :
  Decide v (b0 :: rest) d = (Ok act, d') → act_Op act = ban ∨ act_Op act = dry_ban →
  let ip := act_IP act in
  let best' := best_verdict b0' rest' in
  same_bans (st d') (st e) → IsArmed (policy (eng e)) = IsArmed (policy (eng d)) →
  Unmap (v_IP best') = ip → passed_guards v' ip (Score best') e → botVerify v' ip = None →
  (act_TTL act <= 0 ∨ store_now v' < store_now v + act_TTL act) →
  GetBanInfo (store_now v') ip (st e) = (Ok info, s'') →
  ∃ act' e', Decide v' (b0' :: rest') e = (Ok act', e') ∧ act_Op act' = already_banned ∧ act_IP act' = ip ∧
             same_bans (st e) (st e').
Proof.
  intros H Hop ip best' Hsame Harm Hip Hg Hb Hlive Hinfo. rewrite <- Hip in Hg.
  destruct (Decide_passes v' b0' rest' e Hg) as (e1 & u & _ & Hp & Hs & ->). fold best'. rewrite Hip.
  pose proof (law_info _ _ _ _ _ Hinfo) as Hi. destruct (Hsame ip) as [_ Hban].
  destruct (Decide_ban _ _ _ _ _ _ H Hop) as (_ & _ & _ & d1 & d2 & He & _ & Hs2 & Hk).
  destruct Hk as [_ Hopd _ _ _ (s2 & _ & Hrec)]. apply law_strike in Hrec as (_ & Hrow & _). fold ip in Hrow.
  rewrite Hs2 in Hrow. rewrite Hban, Hrow in Hi.
  assert (info = Some (store_now v, Strike act, bool_decide (act_Op act = dry_ban))) as ->.
  { rewrite Hi. simpl. destruct (0 <? act_TTL act) eqn:Et; bool_hyps; [|done].
    destruct (store_now v + act_TTL act <=? store_now v') eqn:El; bool_hyps; [lia|done]. }
  rewrite <- Hs in Hinfo |- *. eapply ban_path_suppresses; [done|exact Hinfo|].
  rewrite Hp, Harm. rewrite He in Hopd. destruct (IsArmed (policy (eng d))); [|done]. by rewrite Hopd.
Qed.
End bans.

(** ** A concrete engine over the SQLite store *)
Definition sample_engine (armed : bool) : Engine :=
  MkEngine (SetArmed armed sample_policy) [PrefixFrom (Addr4 0xC0000200) 24] 0 0 emptyCache None ∅.

Definition sample_env (t : time) : env :=
  MkEnv t t t "198.51.100.7 50000 22" [Addr4 0x0A000005] (Some (Some [PrefixFrom (Addr4 0x68100000) 13])) (λ _, None) true AddrNone.

(** A brute-forcer logged in the mapped spelling of 203.0.113.9. *)
Definition attack : Verdict :=
  MkVerdict (Addr6 0xffffcb007109 EmptyString) 90 "bruteforce" 1 "rule/ssh-bruteforce: 6 events" "rules" 0 [].

Definition sample_state (armed : bool) : dstate Store.world :=
  MkD (sample_engine armed) (Store.MkWorld Store.emptyDb []) [].

Definition banned_action (armed : bool) : Action :=
  MkAction (Addr4 0xcb007109) (if armed then ban else dry_ban) (5 * Minute) false 1
    "score=90 category=bruteforce source=rules" [attack].

Lemma sample_ban armed : (Decide (sample_env 1000) [attack] (sample_state armed)).1 = Ok (banned_action armed).
Proof. destruct armed; vm_compute; reflexivity. Qed.

Lemma ban_implies_guards_witness : BanThreshold (policy (sample_engine true)) <= 90 ∧ botVerify (sample_env 1000) (Addr4 0xcb007109) = None.
Proof.
  destruct (ban_implies_guards (sample_env 1000) attack [] (sample_state true) (banned_action true)
    (Decide (sample_env 1000) [attack] (sample_state true)).2) as (_ & _ & _ & _ & _ & H1 & H2 & _).
  - vm_compute. reflexivity.
  - left. reflexivity.
  - split; [exact H1|exact H2].
Defined.

Lemma ban_escalates_witness :
  count (st (Decide (sample_env 1000) [attack] (sample_state false)).2) (Addr4 0xcb007109) = 0 + 1.
Proof.
  refine (proj1 (proj2 (proj2 (proj2 (proj2 (ban_escalates (sample_env 1000) attack [] (sample_state false) (banned_action false)
    (Decide (sample_env 1000) [attack] (sample_state false)).2 _ _)))))).
  - vm_compute. reflexivity.
  - right. reflexivity.
Defined.

Lemma no_duplicate_ban_witness :
  ∃ act' e', Decide (sample_env (2000 + Minute)) [attack] (Decide (sample_env 1000) [attack] (sample_state true)).2 = (Ok act', e') ∧
    act_Op act' = already_banned ∧ act_IP act' = Addr4 0xcb007109 ∧
    same_bans (st (Decide (sample_env 1000) [attack] (sample_state true)).2) (st e').
Proof.
  refine (no_duplicate_ban (sample_env 1000) attack [] (sample_state true) (banned_action true)
    (Decide (sample_env 1000) [attack] (sample_state true)).2 (sample_env (2000 + Minute)) attack []
    (Decide (sample_env 1000) [attack] (sample_state true)).2 (Some (1000, 1, false))
    (st (Decide (sample_env 1000) [attack] (sample_state true)).2) _ _ _ _ _ _ _ _ _).
  - vm_compute. reflexivity.
  - left. reflexivity.
  - intros ip. split; reflexivity.
  - vm_compute. reflexivity.
  - vm_compute. reflexivity.
  - split.
    + vm_compute. reflexivity.
    + apply (bool_decide_unpack _). vm_compute. exact I.
    + intros ranges H q Hq. simpl in H. injection H as <-. apply list_elem_of_singleton in Hq as ->. vm_compute. reflexivity.
    + vm_compute. split; discriminate.
  - reflexivity.
  - right. vm_compute. reflexivity.
  - vm_compute. reflexivity.
Defined.
