(* ===== verification/DecisionGuards.v ===== *)
(** The engine's other promises: the allowlist always wins, the ban-rate cap
    holds over any minute, diagnostics fire once and only for real anomalies,
    no panic, and operator bans pass the same guards. *)
From Stdlib Require Import QArith.
From S2P Require Import Prelude GoStrings Netip NetipParse Sdk Policy SSHPeers NotifyEdge StoreIface Decision DecisionSafety.
#[local] Open Scope Z_scope.

(** ** The allowlist *)
Lemma NormalizePrefix_contains q r a :
  NormalizePrefix q = Ok r → wf_prefix q → plain a → Is4In6 a = Is4In6 (paddr q) →
  Contains q a = true → Contains r (Unmap a) = true.
Proof.
  unfold NormalizePrefix. intros H Hq Ha Hf Hc. destruct (Is4In6 (paddr q)) eqn:Em; simpl in H.
  - destruct (Z.ltb_spec (pbits q) 96); [done|]. injection H as <-. by rewrite mapped_contains.
  - injection H as <-. by rewrite Unmap_id.
Qed.

(** The allowlist protects every address its entries cover, in either
    spelling: once the engine is built, every address of an allowlist or
    admin_cidrs prefix, every allowlist host, and the operator's SSH_CLIENT
    peer test as allowlisted in the form decisions compare, IPv4-mapped
    entries and addresses included. *)
Theorem allowlist_covers ssh_client start p e :
  New ssh_client start p = Ok e →
  (∀ s q a, s ∈ Allowlist p ∨ s ∈ AdminCIDRs p → ParsePrefix s = Some q →
     plain a → Is4In6 a = Is4In6 (paddr q) → Contains q a = true → isAllowlisted e (Unmap a) = true) ∧
  (∀ s b a, s ∈ Allowlist p → ParsePrefix s = None → ParseAddr s = Some b →
     plain b → Unmap a = Unmap b → isAllowlisted e (Unmap a) = true) ∧
  (plain (sshClientIP ssh_client) → isAllowlisted e (sshClientIP ssh_client) = true).
Proof.
  unfold New, buildAllowlist, StaticAllowlist, mbind, result_mbind, result_bind. intros H.
  destruct (map_result parsePrefixOrAddr (Allowlist p)) as [l1|] eqn:E1; [|done].
  destruct (map_result _ (AdminCIDRs p)) as [l2|] eqn:E2; [|done]. unfold mret, result_mret in H. simplify_eq.
  apply map_result_ok in E1, E2. unfold isAllowlisted. simpl.
  assert (∀ r a, r ∈ l1 ∨ r ∈ l2 → Contains r a = true →
    existsb (λ p, Contains p a) ((l1 ++ l2) ++ (if IsValid (sshClientIP ssh_client) then
      [PrefixFrom (sshClientIP ssh_client) (BitLen (sshClientIP ssh_client))] else [])) = true) as Hin.
  { intros r a Hr Hc. apply existsb_exists_elem. exists r. split; [|done]. rewrite !elem_of_app. tauto. }
  split; [|split].
  - intros s q a Hs Hq Ha Hf Hc. pose proof (ParsePrefix_wf _ _ Hq) as Hwf.
    destruct Hs as [Hs|Hs]; apply list_elem_of_lookup in Hs as [i Hi].
    + destruct (Forall2_lookup_l _ _ _ _ _ E1 Hi) as (r & Hr & Hp). unfold parsePrefixOrAddr in Hp. rewrite Hq in Hp.
      eapply (Hin r); [left; by eapply list_elem_of_lookup_2|]. by eapply NormalizePrefix_contains.
    + destruct (Forall2_lookup_l _ _ _ _ _ E2 Hi) as (r & Hr & Hp). rewrite Hq in Hp.
      eapply (Hin r); [right; by eapply list_elem_of_lookup_2|]. by eapply NormalizePrefix_contains.
  - intros s b a Hs Hq Hb Hpb Hab. apply list_elem_of_lookup in Hs as [i Hi].
    destruct (Forall2_lookup_l _ _ _ _ _ E1 Hi) as (r & Hr & Hp). unfold parsePrefixOrAddr in Hp. rewrite Hq, Hb in Hp.
    injection Hp as <-. eapply Hin; [left; by eapply list_elem_of_lookup_2|].
    rewrite Hab. apply host_contains; [by apply Unmap_plain|by apply Unmap_wf, Hpb|done].
  - intros Hp. pose proof Hp as (Ha & Hv & Hz). apply existsb_exists_elem.
    eexists. split; [apply elem_of_app; right; rewrite Hv; left|]. by apply host_contains.
Qed.

(** A zone defeats the allowlist test: no prefix contains a zoned address. *)
Lemma zoned_not_allowlisted e a : hasZone a = true → isAllowlisted e a = false.
Proof.
  intros Hz. unfold isAllowlisted. apply existsb_false_elem. intros q _. unfold Contains.
  by rewrite Hz, orb_true_r.
Qed.

Section guards.
Context {E S : Type} {ops : StoreOps E S} {view : StoreView S} {laws : StoreLaws E S}.
Implicit Types (v : env) (d : dstate S).

(** Allowlist first, always: whatever the score, the peers, the CDN table,
    the store, the address of the driving verdict being allowlisted ends the
    call with a "record" action; the engine is untouched, the audit of that
    action is the only thing done, and no strike or ban changes. *)
Theorem allowlist_wins v b0 rest d :
  let ip := Unmap (v_IP (best_verdict b0 rest)) in
  let act := plain_action ip record "allowlisted" (b0 :: rest) in
  isAllowlisted (eng d) ip = true →
  ∃ d', Decide v (b0 :: rest) d = (Ok act, d') ∧ eng d' = eng d ∧
        trace d' = trace d ++ [EStore (SAudit act)] ∧ same_bans (st d) (st d').
Proof.
  intros ip act Ha. unfold Decide. fold ip. unfold mbind at 1, dec_mbind at 1, get_eng at 1. cbv beta iota.
  rewrite Ha. fold act. pose proof (frame (m := audited v act) d) as HF. unfold audited, mbind, dec_mbind, call in *.
  destruct (Audit (store_now v) act (st d)) as [r s]. eexists. split; [reflexivity|]. done.
Qed.

(** ** The ban-rate cap *)

(** One attempt: its time, the window it leaves, whether it was admitted. *)
Definition rate_step (cap : Z) (w : Z * time) (t : time) : bool * (Z * time) :=
  let '(n, s) := if Minute <? t - w.2 then (0, t) else w in
  (n + 1 <=? cap, (n + 1, s)).

Lemma checkRateLimit_step v d :
  let e := eng d in
  let '(ok, w) := rate_step (MaxBansPerMinute (policy e)) (bansInWin e, windowStart e) (now v) in
  checkRateLimit v d = (ok, MkD (with_window w.1 w.2 e) (st d) (trace d)).
Proof.
  unfold rate_step, checkRateLimit, mbind, dec_mbind, get_eng, set_eng. simpl.
  destruct (Minute <? now v - windowStart (eng d)); simpl; by destruct d.
Qed.

Fixpoint rate_run (cap : Z) (w : Z * time) (ts : list time) : list bool :=
  match ts with
  | [] => []
  | t :: ts => let '(ok, w') := rate_step cap w t in ok :: rate_run cap w' ts
  end.

Definition admitted (oks : list bool) : Z := sumZ (λ b : bool, if b then 1 else 0) oks.

Lemma admitted_nonneg oks : 0 <= admitted oks.
Proof. apply sumZ_nonneg. intros []; lia. Qed.

Lemma admitted_cons b oks : admitted (b :: oks) = (if b then 1 else 0) + admitted oks.
Proof. done. Qed.

Lemma rate_run_cons cap n s t ts :
  rate_run cap (n, s) (t :: ts) =
  (if Minute <? t - s then (1 <=? cap) :: rate_run cap (1, t) ts else (n + 1 <=? cap) :: rate_run cap (n + 1, s) ts).
Proof. simpl. unfold rate_step. simpl. by destruct (Minute <? t - s). Qed.

(** Inside one window at most what is left of the cap is admitted. *)
Lemma rate_same_window cap n s ts :
  Forall (λ t, t - s <= Minute) ts →
  admitted (rate_run cap (n, s) ts) = Z.max 0 (Z.min (cap - n) (Z.of_nat (length ts))).
Proof.
  intros Hts. revert n. induction Hts as [|t ts Ht Hts IH]; intros n; [unfold admitted; simpl; lia|].
  rewrite rate_run_cons. destruct (Z.ltb_spec Minute (t - s)); [lia|]. rewrite admitted_cons, IH. simpl.
  destruct (Z.leb_spec (n + 1) cap); lia.
Qed.

(** Successive attempts on one engine. *)
Fixpoint attempts (vs : list env) : dec S (list bool) :=
  match vs with
  | [] => mret []
  | v :: vs => ok ← checkRateLimit v; oks ← attempts vs; mret (ok :: oks)
  end.

Lemma attempts_run vs d :
  (attempts vs d).1 = rate_run (MaxBansPerMinute (policy (eng d))) (bansInWin (eng d), windowStart (eng d)) (now <$> vs).
Proof.
  revert d. induction vs as [|v vs IH]; intros d; [done|]. csimpl. unfold mbind, dec_mbind.
  pose proof (checkRateLimit_step v d) as H. cbv zeta in H. destruct (rate_step _ _ _) as [ok [n s]].
  rewrite H. pose proof (IH (MkD (with_window n s (eng d)) (st d) (trace d))) as IH'. simpl in *.
  destruct (attempts vs _) as [oks d2]. simpl in *. by rewrite IH'.
Qed.

Lemma rate_cap_run cap n s t0 ts :
  0 <= n → 0 <= cap → Forall (λ t, t0 <= t <= t0 + Minute) ts →
  admitted (rate_run cap (n, s) ts) <= 2 * cap ∧
  (t0 - s > Minute → admitted (rate_run cap (n, s) ts) <= cap) ∧
  (Forall (λ t, t - s <= Minute) ts → n = 0 → admitted (rate_run cap (n, s) ts) = Z.min cap (Z.of_nat (length ts))).
Proof.
  intros Hn Hcap Hts.
  assert (∀ t1 l, t0 <= t1 → Forall (λ t, t0 <= t <= t0 + Minute) l →
    admitted (rate_run cap (1, t1) l) <= Z.max 0 (cap - 1)) as Hfresh.
  { intros t1 l Ht1 Hl. rewrite rate_same_window; [lia|]. eapply Forall_impl; [done|]. simpl. intros. lia. }
  split; [|split].
  - assert (admitted (rate_run cap (n, s) ts) <= Z.max 0 (cap - n) + cap); [|lia].
    revert n s Hn. induction Hts as [|t ts Ht Hts IH]; intros n s Hn; [unfold admitted; simpl; lia|].
    rewrite rate_run_cons. destruct (Minute <? t - s); rewrite admitted_cons.
    + specialize (Hfresh t ts ltac:(lia) Hts). destruct (Z.leb_spec 1 cap); lia.
    + specialize (IH (n + 1) s ltac:(lia)). destruct (Z.leb_spec (n + 1) cap); lia.
  - intros Hs. destruct Hts as [|t ts Ht Hts]; [unfold admitted; simpl; lia|].
    rewrite rate_run_cons. destruct (Z.ltb_spec Minute (t - s)); [|lia]. rewrite admitted_cons.
    specialize (Hfresh t ts ltac:(lia) Hts). destruct (Z.leb_spec 1 cap); lia.
  - intros Hw ->. rewrite rate_same_window by done. lia.
Qed.

(** The cap bounds every minute: ban attempts made within any span of one
    minute are admitted at most twice the cap in all, whatever came before, and
    at most the cap when the previous window is over; a run of attempts inside
    one fresh window is admitted exactly up to the cap. *)
Theorem rate_cap vs d t0 :
  let cap := MaxBansPerMinute (policy (eng d)) in
  let oks := (attempts vs d).1 in
  0 <= bansInWin (eng d) → 0 <= cap → Forall (λ v, t0 <= now v <= t0 + Minute) vs →
  admitted oks <= 2 * cap ∧
  (t0 - windowStart (eng d) > Minute → admitted oks <= cap) ∧
  (Forall (λ v, now v - windowStart (eng d) <= Minute) vs → bansInWin (eng d) = 0 →
   admitted oks = Z.min cap (Z.of_nat (length vs))).
Proof.
  intros cap oks Hn Hc Ht. unfold oks. rewrite attempts_run. fold cap.
  destruct (rate_cap_run cap _ (windowStart (eng d)) t0 (now <$> vs) Hn Hc) as (H1 & H2 & H3).
  { by apply Forall_fmap. }
  split; [done|]. split; [done|]. intros Hw H0. rewrite H3, length_fmap; [done| |done]. by apply Forall_fmap.
Qed.
End guards.

Lemma rate_cap_witness :
  admitted (attempts (S := Store.world) (sample_env <$> [Minute; Minute + 1]) (sample_state true)).1 <=
  2 * MaxBansPerMinute (policy (sample_engine true)).
Proof.
  refine (proj1 (rate_cap (sample_env <$> [Minute; Minute + 1]) (sample_state true) Minute _ _ _)).
  - vm_compute. discriminate.
  - vm_compute. discriminate.
  - repeat constructor; vm_compute; discriminate.
Defined.

Lemma allowlist_wins_witness :
  ∃ d', Decide (sample_env 0) [MkVerdict (Addr6 0xffffC0000205 EmptyString) 100 "x" 1 "r" "rules" 0 []] (sample_state true) =
    (Ok (plain_action (Addr4 0xC0000205) record "allowlisted"
           [MkVerdict (Addr6 0xffffC0000205 EmptyString) 100 "x" 1 "r" "rules" 0 []]), d') ∧
    eng d' = eng (sample_state true) ∧
    trace d' = [] ++ [EStore (SAudit (plain_action (Addr4 0xC0000205) record "allowlisted"
           [MkVerdict (Addr6 0xffffC0000205 EmptyString) 100 "x" 1 "r" "rules" 0 []]))] ∧
    same_bans (st (sample_state true)) (st d').
Proof.
  exact (allowlist_wins (sample_env 0) (MkVerdict (Addr6 0xffffC0000205 EmptyString) 100 "x" 1 "r" "rules" 0 []) []
    (sample_state true) eq_refl).
Defined.

Definition mapped_policy : Policy :=
  MkPolicy true 70 40 [0] 30 ["::ffff:192.0.2.0/120"; "203.0.113.7"] ["10.0.0.0/8"] [] [] 0 0 None 0 None.

Lemma allowlist_covers_witness :
  match New "198.51.100.7 50000 22" 0 mapped_policy with
  | Ok e => isAllowlisted e (Unmap (Addr6 0xffffcb007107 EmptyString)) = true
  | Err _ => False
  end.
Proof.
  refine (proj1 (proj2 (allowlist_covers "198.51.100.7 50000 22" 0 mapped_policy
    (MkEngine mapped_policy [PrefixFrom (Addr4 0xC0000200) 24; PrefixFrom (Addr4 0xcb007107) 32;
       PrefixFrom (Addr4 0x0A000000) 8; PrefixFrom (Addr4 0xC6336407) 32] 0 0 emptyCache None ∅) _))
    "203.0.113.7" (Addr4 0xcb007107) _ _ _ _ _ _).
  - vm_compute. reflexivity.
  - simpl. right. left.
  - vm_compute. reflexivity.
  - vm_compute. reflexivity.
  - split; [vm_compute; split; [discriminate|reflexivity]|split; reflexivity].
  - vm_compute. reflexivity.
Defined.

(** ** Diagnostics, totality, operator bans *)
Section promises.
Context {E S : Type} {ops : StoreOps E S} {view : StoreView S} {laws : StoreLaws E S}.
Implicit Types (v : env) (d : dstate S).

(** A suppressed event fires the diagnostic only for an anomaly. *)
Record anomaly v ip (bannedAt : time) (banStrike : Z) d (g : BanIneffectiveDiag) : Prop := {
  an_armed : IsArmed (policy (eng d)) = true;
  an_sink : has_diag v = true;
  an_fields : d_IP g = ip ∧ d_Strike g = banStrike;
  an_counts : ∃ total after s1 s2,
    let late := BanIneffectiveGrace (policy (eng d)) <=? now v - bannedAt in
    RecordSuppressed (store_now v) ip late (st d) = (Ok (total, after, false), s1) ∧
    MarkBanIneffective ip s1 = (Ok true, s2) ∧
    (if late then BanIneffectiveMinEvents (policy (eng d)) <= after
     else 0 < InGraceIneffectiveThreshold (policy (eng d)) <= total - after) ∧
    EventsAfterGrace g = after ∧ TotalSuppressed g = total ∧ EventsInGrace g = total - after ∧
    Phase g = if late then PhasePostGrace else PhaseInGrace
}.

Lemma track_anomaly v ip t n d x d' :
  trackSuppressedEvent v ip t n d = (Some x, d') → ∃ g, x = BanIneffective g ∧ anomaly v ip t n d g.
Proof.
  unfold trackSuppressedEvent, mbind, dec_mbind, get_eng. cbv beta iota zeta.
  set (late := BanIneffectiveGrace (policy (eng d)) <=? now v - t).
  destruct (call SRecordSuppressed _ d) as [r d1] eqn:E1. destruct r as [[[total after] fired]|]; [|done].
  destruct (negb (IsArmed (policy (eng d))) || fired) eqn:Ea; [done|]. bool_hyps. subst fired.
  assert (RecordSuppressed (store_now v) ip late (st d) = (Ok (total, after, false), st d1)) as H1.
  { unfold call in E1. destruct (RecordSuppressed _ _ _ _). by simplify_eq/=. }
  match goal with |- context [match ?m with Some _ => _ | None => mret None end] => destruct m as [ph|] eqn:Eph; [|done] end.
  destruct (call SMarkBanIneffective _ d1) as [m d2] eqn:E2. destruct m as [[]|]; [|done..].
  assert (MarkBanIneffective ip (st d1) = (Ok true, st d2)) as H2.
  { unfold call in E2. destruct (MarkBanIneffective _ _). by simplify_eq/=. }
  destruct (has_diag v) eqn:Ed; [|done]. intros H3. run_in H3. eexists. split; [done|].
  split; simpl; try done. eexists total, after, (st d1), _. fold late. split; [done|]. split; [done|].
  destruct late; simpl in Eph.
  - destruct (Z.leb_spec (BanIneffectiveMinEvents (policy (eng d))) after); [by simplify_eq|done].
  - destruct (_ && _) eqn:El in Eph; simplify_eq. bool_hyps. done.
Qed.

Lemma strike_path_deliveries v best vs ip u d r ds d' :
  strike_path v best vs ip u d = ((r, ds), d') →
  ds = [] ∨ ∃ n s s', ds = [BanIneffectivePermanent ip n] ∧ has_diag v = true ∧
                      HadIneffectiveBan ip s = (Ok true, s') ∧ ∀ act, r = Ok act → act_TTL act = 0 ∧ Strike act = n.
Proof.
  unfold strike_path, mbind, dec_mbind. destruct (call SGetStrikeCount _ d) as [rc d1]. destruct rc as [n|e]; [|intros H; run_in H; by left].
  unfold get_eng at 1. cbv beta iota zeta.
  match goal with |- context [match ?m with Some _ => _ | None => mret (Err EPanic, []) end] =>
    destruct m as [ttl|]; [|intros H; run_in H; by left] end.
  destruct (admit_ban v ip (n + 1) d1) as [ok d3]. destruct ok; [|intros H; run_in H; by left]. cbn [negb].
  destruct (pre_permanent v ip ttl (n + 1) d3) as [pend d4] eqn:E4.
  cbv beta iota zeta. match goal with |- context [call ?c ?f d4] => destruct (call c f d4) as [w d5] end.
  assert (pend = [] ∨ ttl = 0 ∧ has_diag v = true ∧ pend = [BanIneffectivePermanent ip (n + 1)] ∧
    ∃ s s', HadIneffectiveBan ip s = (Ok true, s')) as [->|(Httl & Hd & -> & s & s' & Hh)].
  { unfold pre_permanent in E4. destruct (Z.eqb_spec ttl 0); [|run_in E4; by left].
    unfold mbind, dec_mbind, call in E4. destruct (HadIneffectiveBan ip (st d3)) as [h s] eqn:Eh.
    destruct h as [[]|]; [destruct (has_diag v)|..]; run_in E4; try (by left).
    right. split; [done|]. split; [done|]. split; [done|]. by exists (st d3), s. }
  - destruct w as [[]|]; intros H; run_in H; by left.
  - intros H. right. exists (n + 1), s, s'. destruct w as [[]|]; run_in H; (split; [done|]); (split; [done|]); (split; [done|]);
      intros act Hact; simplify_eq. done.
Qed.

(** Diagnostics are sound and single: one evaluation delivers at most one.
    "ban_ineffective" comes only with an "already_banned" answer of an armed
    engine, when this call won the store's fire-once flag and the suppressed
    events reached the policy's threshold after the grace, or the in-grace
    threshold inside it, and reports those counts; the pre-permanent alert
    comes only when the address had an ineffective ban, and a ban returned
    with it is permanent. *)
Theorem diagnostics_sound v best vs ip u d r ds d' :
  locked_section v best vs ip u d = ((r, ds), d') →
  ds = [] ∨
  (∃ g t n dry s, ds = [BanIneffective g] ∧
     GetBanInfo (store_now v) ip (st d) = (Ok (Some (t, n, dry)), s) ∧
     (∃ act, r = Ok act ∧ act_Op act = already_banned) ∧
     ∃ d1, policy (eng d1) = policy (eng d) ∧ st d1 = s ∧ anomaly v ip t n d1 g) ∨
  (∃ n s s', ds = [BanIneffectivePermanent ip n] ∧ has_diag v = true ∧
     HadIneffectiveBan ip s = (Ok true, s') ∧ ∀ act, r = Ok act → act_TTL act = 0 ∧ Strike act = n).
Proof.
  unfold locked_section, mbind, dec_mbind. destruct (call SGetBanInfo _ d) as [r0 d1] eqn:E1.
  assert (GetBanInfo (store_now v) ip (st d) = (r0, st d1) ∧ eng d1 = eng d) as [Hi He].
  { unfold call in E1. destruct (GetBanInfo _ _ _). by simplify_eq/=. }
  unfold get_eng at 1. cbv beta iota zeta. destruct r0 as [[[[t n] dry]|]|].
  - destruct (IsArmed _ && dry); [intros H%strike_path_deliveries; tauto|].
    destruct (trackSuppressedEvent _ _ _ _ d1) as [dl d2] eqn:E2. destruct (call SBumpLastSeen _ d2) as [b d3].
    intros H. run_in H. destruct dl as [x|]; [|by left]. apply track_anomaly in E2 as (g & -> & Hg). right. left.
    exists g, t, n, dry, (st d1). split; [done|]. split; [done|]. split; [eauto|]. exists d1. by rewrite He.
  - intros H%strike_path_deliveries. tauto.
  - intros H%strike_path_deliveries. tauto.
Qed.

(** [Decide] never panics: with a non-empty ladder (every loaded policy has
    one) and a strike count that is not negative, it returns an action or one
    of its three documented errors, whatever the store does. *)
Theorem Decide_total v b0 rest d :
  Strikes (policy (eng d)) ≠ [] → 0 <= count (st d) (Unmap (v_IP (best_verdict b0 rest))) →
  match (Decide v (b0 :: rest) d).1 with
  | Ok _ | Err ERateLimited | Err EGetStrikeCount | Err ERecordStrike => True
  | Err ENoVerdicts | Err EPanic => False
  end.
Proof.
  intros Hs Hc. destruct (Decide v (b0 :: rest) d) as [r d'] eqn:H. simpl.
  apply Decide_cases in H as [(a & -> & _)|(_ & d1 & u & Hp & _ & Hst & H)]; [done|].
  rewrite ban_path_run in H. destruct (botVerify v _); [by apply audited_ok in H as ->|].
  set (ip := Unmap (v_IP (best_verdict b0 rest))) in *.
  set (d0 := MkD (eng d1) (st d1) (trace d1 ++ [ELock (strikeLockFor ip)])) in *.
  destruct (locked_section v (best_verdict b0 rest) (b0 :: rest) ip u d0) as [[r0 ds] d2] eqn:El. simplify_eq/=.
  assert (∀ d3, policy (eng d3) = policy (eng d) → same_bans (st d) (st d3) → ∀ r ds d4,
    strike_path v (best_verdict b0 rest) (b0 :: rest) ip u d3 = ((r, ds), d4) →
    match r with Err ENoVerdicts | Err EPanic => False | _ => True end) as Hstrike.
  { clear El. intros d3 Hp3 Hs3 r' ds3 d4. unfold strike_path, mbind, dec_mbind.
    destruct (call SGetStrikeCount _ d3) as [rc d5] eqn:E5. destruct rc as [n|e]; [|intros Hr; by run_in Hr].
    assert (n = count (st d) ip ∧ eng d5 = eng d3) as [-> He].
    { unfold call in E5. destruct (GetStrikeCount ip (st d3)) as [rr s5] eqn:Eg. simplify_eq/=.
      apply law_count in Eg as ->. destruct (Hs3 ip) as [-> _]. done. }
    unfold get_eng at 1. cbv beta iota zeta. rewrite He, Hp3.
    set (n := count (st d) ip) in *. rewrite Z.add_simpl_r.
    match goal with |- context [match ?m with Some _ => _ | None => mret (Err EPanic, []) end] =>
      assert (is_Some m) as [ttl ->] end.
    { assert (length (Strikes (policy (eng d))) ≠ 0%nat) by (by destruct (Strikes (policy (eng d)))).
      destruct (Z.leb_spec (Z.of_nat (length (Strikes (policy (eng d))))) n);
        (rewrite (proj2 (Z.ltb_ge _ _)) by lia); apply lookup_lt_is_Some; lia. }
    destruct (admit_ban _ _ _ _) as [ok d6]. destruct ok; [|intros Hr; by run_in Hr]. cbn [negb].
    destruct (pre_permanent _ _ _ _ d6) as [pend d7]. cbv beta iota zeta.
    match goal with |- context [call ?c ?f d7] => destruct (call c f d7) as [w d8] end.
    destruct w as [[]|]; intros Hr; by run_in Hr. }
  assert (∃ d3, policy (eng d3) = policy (eng d) ∧ same_bans (st d) (st d3) ∧
    ((∃ ds d4, strike_path v (best_verdict b0 rest) (b0 :: rest) ip u d3 = ((r, ds), d4)) ∨ is_ok r = true))
    as (d3 & Hp3 & Hs3 & [(ds1 & d4 & H4)|Hok]).
  { unfold locked_section, mbind, dec_mbind in El.
    pose proof (frame (m := call SGetBanInfo (GetBanInfo (store_now v) ip)) d0) as HF.
    destruct (call SGetBanInfo _ d0) as [ri d3] eqn:E1.
    assert (eng d3 = eng d1) as He by (unfold call in E1; destruct (GetBanInfo _ _ _); by simplify_eq/=).
    unfold get_eng at 1 in El. cbv beta iota zeta in El. exists d3. rewrite He. split; [done|].
    split; [by rewrite <- Hst|].
    destruct ri as [[[[t n] dry]|]|]; [|left; eauto..]. destruct (IsArmed _ && dry); [left; eauto|].
    destruct (trackSuppressedEvent _ _ _ _ d3) as [dl d5]. destruct (call SBumpLastSeen _ d5). run_in El. by right. }
  - specialize (Hstrike d3 Hp3 Hs3 _ _ _ H4). by destruct r as [|[]].
  - by destruct r.
Qed.

(** ** Operator bans *)
Lemma NormalizePrefix_wf q r : NormalizePrefix q = Ok r → wf_prefix q → wf_prefix r.
Proof.
  unfold NormalizePrefix. intros H Hq. destruct (Is4In6 (paddr q)) eqn:Em; simpl in H; [|by simplify_eq].
  destruct (Z.ltb_spec (pbits q) 96); [done|]. injection H as <-. by apply unmapped_prefix_wf.
Qed.

(** An authorized operator ban locks out nobody protected: when
    [AuthorizeManualBan] accepts, the (normalized) target shares no address
    with any allowlist prefix, covers no active SSH peer and no forwarded
    session in either spelling, and, unless forced or without a CDN source,
    overlaps no shared CDN range of an available table; and it was admitted by
    the same rate window as automatic bans. *)
Theorem manual_ban_safe v target force peers d d' :
  wf_prefix target → Forall wf_prefix (allow (eng d)) →
  AuthorizeManualBan v target force peers d = (Ok tt, d') →
  ∃ t, NormalizePrefix target = Ok t ∧
    (∀ q a, q ∈ allow (eng d) → plain a → Contains q a = true → Contains t a = false) ∧
    (∀ a, a ∈ (active_peers v d).1 → Contains t a = false) ∧
    (∀ a, a ∈ peers → IsValid (Unmap a) = true → Contains t (Unmap a) = false) ∧
    (force = false → ∀ r, cdnRanges v = Some r → ∃ l, r = Some l ∧ ∀ q, q ∈ l → Overlaps q t = false) ∧
    ∃ d1, eng d1 = eng (active_peers v d).2 ∧ checkRateLimit v d1 = (true, d').
Proof.
  intros Hwf Hall. unfold AuthorizeManualBan. destruct (NormalizePrefix target) as [t|] eqn:En; [|done].
  unfold mbind, dec_mbind, get_eng at 1. cbv beta iota zeta.
  destruct (List.find _ (allow (eng d))) as [|] eqn:Ea; [done|].
  destruct (active_peers v d) as [ps d1] eqn:Ep. destruct (List.find _ ps) as [|] eqn:Es; [done|].
  destruct (List.find _ peers) as [|] eqn:Ef; [done|].
  destruct (manual_cdn v t force d1) as [c d2] eqn:Ec. destruct c as [[]|]; [|done].
  unfold manual_rate, mbind, dec_mbind. destruct (checkRateLimit v d2) as [ok d3] eqn:Er. intros H. run_in H.
  destruct ok; [|done].
  rewrite find_None_elem in Ea. rewrite find_None_elem in Es. rewrite find_None_elem in Ef. exists t. split; [done|]. split.
  { intros q a Hq Ha Hc. apply not_true_iff_false. intros Hct.
    assert (Overlaps q t = true); [|by rewrite Ea in *].
    rewrite Forall_forall in Hall. apply Overlaps_iff; [by apply Hall|by eapply NormalizePrefix_wf|eauto]. }
  split; [done|]. split.
  { intros a Hpa Hv. specialize (Ef a Hpa). simpl in Ef. by rewrite Hv in Ef. }
  unfold manual_cdn in Ec. split.
  - intros -> r Hr. rewrite Hr in Ec. destruct r as [l|].
    + destruct (List.find _ l) eqn:Eo in Ec; [done|]. rewrite find_None_elem in Eo. eauto.
    + unfold mbind, dec_mbind in Ec. destruct (warnCDNRangesUnavailable v d1). run_in Ec.
  - exists d2. split; [|done]. destruct (cdnRanges v) as [r|]; [|run_in Ec; done].
    destruct force; [run_in Ec; done|]. destruct r as [l|].
    + destruct (List.find _ l) in Ec; run_in Ec. done.
    + unfold mbind, dec_mbind in Ec. destruct (warnCDNRangesUnavailable v d1). run_in Ec.
Qed.

(** Refusals are free and force is narrow: an operator ban refused by a
    guard (not by the rate limit) leaves the rate window, the store and the
    allowlist untouched; forcing changes nothing when the CDN guard is off,
    and no force lifts an allowlist or SSH-peer refusal. *)
Theorem manual_ban_refusals v target force peers d :
  (match (AuthorizeManualBan v target force peers d).1 with
   | Err x => x ≠ MRateLimited →
       let d' := (AuthorizeManualBan v target force peers d).2 in
       bansInWin (eng d') = bansInWin (eng d) ∧ windowStart (eng d') = windowStart (eng d) ∧
       allow (eng d') = allow (eng d) ∧ st d' = st d
   | Ok _ => True
   end) ∧
  (∀ x, (AuthorizeManualBan v target false peers d).1 = Err x →
     match x with MAllowlisted _ | MSSHPeer _ | MForwardedPeer _ | MMappedTooBroad => True | _ => False end →
     (AuthorizeManualBan v target true peers d).1 = Err x) ∧
  (cdnRanges v = None → AuthorizeManualBan v target true peers d = AuthorizeManualBan v target false peers d).
Proof.
  unfold AuthorizeManualBan. destruct (NormalizePrefix target) as [t|]; [|by split; [|split]].
  unfold mbind, dec_mbind, get_eng. cbv beta iota zeta.
  destruct (List.find _ (allow (eng d))); [by split; [|split]|].
  pose proof (active_peers_st v d) as Hst. assert (∀ ps d1, active_peers v d = (ps, d1) →
    bansInWin (eng d1) = bansInWin (eng d) ∧ windowStart (eng d1) = windowStart (eng d)) as Hw.
  { unfold active_peers. destruct (activeSSHPeers _ _ _ _). intros. by simplify_eq/=. }
  destruct (active_peers v d) as [ps d1]. destruct (Hst _ _ eq_refl) as (_ & Ha & Hs). destruct (Hw _ _ eq_refl) as [Hb Hws].
  destruct (List.find _ ps); [by split; [|split]|]. destruct (List.find _ peers); [by split; [|split]|].
  unfold manual_cdn. split; [|split].
  - assert (∀ d2, (manual_rate v d2).1 = Ok tt ∨ (manual_rate v d2).1 = Err MRateLimited) as Hr.
    { intros d2. unfold manual_rate, mbind, dec_mbind. destruct (checkRateLimit v d2) as [[] d3]; simpl; auto. }
    assert (match (manual_rate v d1).1 with Ok _ => True | Err x => x ≠ MRateLimited → False end) as Hf.
    { destruct (Hr d1) as [H|H]; rewrite H; [done|]. intros Hn. by apply Hn. }
    assert (match (manual_rate v d1).1 with Ok _ => True | Err x => x ≠ MRateLimited →
      let d' := (manual_rate v d1).2 in bansInWin (eng d') = bansInWin (eng d) ∧ windowStart (eng d') = windowStart (eng d) ∧
       allow (eng d') = allow (eng d) ∧ st d' = st d end) as Hf'.
    { destruct (manual_rate v d1).1; [done|]. intros Hn. by destruct (Hf Hn). }
    destruct (cdnRanges v) as [r|]; [|exact Hf']. destruct force; [exact Hf'|]. destruct r as [l|].
    + simpl. destruct (List.find _ l); [done|exact Hf'].
    + unfold warnCDNRangesUnavailable, mbind, dec_mbind, get_eng.
      destruct (match cdnWarnLast _ with None => true | Some t0 => _ end); simpl; done.
  - intros x Hx Hk. destruct (cdnRanges v) as [[l|]|]; simpl in *.
    + destruct (List.find _ l); simpl in *; [by simplify_eq|exact Hx].
    + unfold warnCDNRangesUnavailable, mbind, dec_mbind, get_eng in Hx.
      destruct (match cdnWarnLast _ with None => true | Some t0 => _ end) in Hx; simpl in Hx; by simplify_eq.
    + done.
  - by intros ->.
Qed.
End promises.

Lemma Decide_total_witness :
  match (Decide (sample_env 1000) [attack] (sample_state true)).1 with
  | Ok _ | Err ERateLimited | Err EGetStrikeCount | Err ERecordStrike => True
  | Err ENoVerdicts | Err EPanic => False
  end.
Proof.
  apply (Decide_total (sample_env 1000) attack [] (sample_state true)).
  - discriminate.
  - vm_compute. discriminate.
Defined.

(** An operator ban of 203.0.113.0/24 in mapped spelling. *)
Definition manual_target : prefix := Prefix (Addr6 0xffffcb007100 EmptyString) 120.

Lemma manual_ban_safe_witness :
  ∃ t, NormalizePrefix manual_target = Ok t ∧ ∀ a, a ∈ (active_peers (sample_env 1000) (sample_state true)).1 → Contains t a = false.
Proof.
  destruct (manual_ban_safe (sample_env 1000) manual_target false [Addr6 0xffffC6336407 EmptyString] (sample_state true)
    (AuthorizeManualBan (sample_env 1000) manual_target false [Addr6 0xffffC6336407 EmptyString] (sample_state true)).2)
    as (t & H1 & _ & H2 & _).
  - repeat split; vm_compute; done.
  - repeat constructor; vm_compute; done.
  - vm_compute. reflexivity.
  - exists t. split; [exact H1|exact H2].
Defined.

(** A saturated ban: the third suppressed event after the grace. *)
Definition after_ban : dstate Store.world := (Decide (sample_env 0) [attack] (sample_state true)).2.
Definition after_two : dstate Store.world :=
  (Decide (sample_env (101 * Second)) [attack] (Decide (sample_env (100 * Second)) [attack] after_ban).2).2.

Lemma diagnostics_sound_witness :
  let r := locked_section (sample_env (102 * Second)) attack [attack] (Addr4 0xcb007109) false after_two in
  r.1.2 = [] ∨
  (∃ g t n dry s, r.1.2 = [BanIneffective g] ∧
     GetBanInfo (store_now (sample_env (102 * Second))) (Addr4 0xcb007109) (st after_two) = (Ok (Some (t, n, dry)), s) ∧
     (∃ act, r.1.1 = Ok act ∧ act_Op act = already_banned) ∧
     ∃ d1, policy (eng d1) = policy (eng after_two) ∧ st d1 = s ∧ anomaly (sample_env (102 * Second)) (Addr4 0xcb007109) t n d1 g) ∨
  (∃ n s s', r.1.2 = [BanIneffectivePermanent (Addr4 0xcb007109) n] ∧ has_diag (sample_env (102 * Second)) = true ∧
     HadIneffectiveBan (Addr4 0xcb007109) s = (Ok true, s') ∧ ∀ act, r.1.1 = Ok act → act_TTL act = 0 ∧ Strike act = n).
Proof.
  cbv zeta. destruct (locked_section (sample_env (102 * Second)) attack [attack] (Addr4 0xcb007109) false after_two)
    as [[r ds] d'] eqn:E.
  exact (diagnostics_sound (sample_env (102 * Second)) attack [attack] (Addr4 0xcb007109) false after_two r ds d' E).
Defined.

Example third_event_fires :
  match (locked_section (sample_env (102 * Second)) attack [attack] (Addr4 0xcb007109) false after_two).1.2 with
  | [BanIneffective g] => EventsAfterGrace g = 3 ∧ Phase g = PhasePostGrace ∧ NextRungs g = "1h0m0s, 24h0m0s, 168h0m0s, permanent"
  | _ => False
  end.
Proof. vm_compute. done. Qed.

(** A link-local client logged with its zone: its plain address is allowlisted,
    yet the verdict ends in a ban. *)
Definition fe80 : Z := 0xfe80000000000000 * 2 ^ 64.
Lemma zoned_address_bypasses_allowlist :
  let e := MkEngine (SetArmed true sample_policy) [PrefixFrom (Addr6 fe80 EmptyString) 10] 0 0 emptyCache None ∅ in
  let d := MkD e (Store.MkWorld Store.emptyDb []) [] in
  let v a := MkVerdict a 90 "bruteforce" 1 "rule/x: y" "rules" 0 [] in
  isAllowlisted e (Addr6 (fe80 + 1) EmptyString) = true ∧
  match (Decide (sample_env 1000) [v (Addr6 (fe80 + 1) "eth0")] d).1 with Ok a => act_Op a = ban | Err _ => False end.
Proof. vm_compute. done. Qed.
