(* ===== verification/Gate.v ===== *)
(** The enforcement choke point: [internal/enforce/gate.go], [multi.go]
    and the [AllowlistSyncer] facet of [allowlist.go].

    An enforcer is a name, whether it mirrors the allowlist, and what each call
    does to the world it acts on, with whether it succeeded. *)
From S2P Require Import Prelude GoStrings Netip NetipParse Sdk.

Inductive ecall :=
| Ban (t : Target) | Unban (t : Target) | Sync (want : list Target)
| Allow (p : prefix) | Unallow (p : prefix) | SyncAllowlist (want : list prefix).

(** The calls only [AllowlistSyncer]s have. *)
Definition mirror_call (c : ecall) : bool :=
  match c with Allow _ | Unallow _ | SyncAllowlist _ => true | _ => false end.

Section enforcers.
Context {W : Type}.

Record enforcer := MkEnforcer {
  Name : string;
  mirrors : bool;
  run : ecall → W → bool * W
}.

(** ** The fan-out *)

(** Every enforcer the call is for runs, in order; the names of those that failed. *)
Fixpoint fan_out (es : list enforcer) (c : ecall) (w : W) : list string * W :=
  match es with
  | [] => ([], w)
  | e :: es =>
    if mirror_call c && negb (mirrors e) then fan_out es c w
    else let '(ok, w1) := run e c w in
         let '(errs, w2) := fan_out es c w1 in
         ((if (ok : bool) then errs else Name e :: errs), w2)
  end.

Definition NewMulti (es : list enforcer) : enforcer :=
  MkEnforcer (Join (Name <$> es) "+") true
    (λ c w, let '(errs, w') := fan_out es c w in (bool_decide (errs = []), w')).

(** [LastSyncRepairs]: the sum over the reporting children. *)
Definition LastSyncRepairs (reports : list (option (Z * Z * bool))) : Z * Z * bool :=
  fold_left (λ acc r, match r with
    | None => acc
    | Some (a, rm, first) => let '(x, y, z) := acc in (x + a, y + rm, z || first)
    end) reports (0, 0, false).

(** ** The gate *)
Record Gate := MkGate {
  inner : enforcer;
  allowlist : list prefix;
  sshPeers : option (W → list addr);
  extra : list prefix
}.

Definition normalizeGatePrefix (p : prefix) : prefix :=
  if negb (Is4In6 (paddr p)) || (pbits p <? 96) then Masked p
  else Masked (PrefixFrom (Unmap (paddr p)) (pbits p - 96)).

Definition normalizeForwardPrefix (p : prefix) : prefix :=
  if Is4In6 (paddr p) && (96 <=? pbits p) then normalizeGatePrefix p else p.

Definition normalizeGateTarget (t : Target) : Target :=
  if IsValid (t_IP t) then MkTarget (Unmap (t_IP t)) (t_Prefix t) (t_ASN t) (t_Country t) (t_TTL t)
  else if PIsValid (t_Prefix t)
  then MkTarget (t_IP t) (normalizeForwardPrefix (t_Prefix t)) (t_ASN t) (t_Country t) (t_TTL t)
  else t.

Definition gatePrefix (t : Target) : option prefix :=
  if IsValid (t_IP t) then let a := Unmap (t_IP t) in Some (PrefixFrom a (BitLen a))
  else if PIsValid (t_Prefix t) then Some (normalizeGatePrefix (t_Prefix t))
  else None.

Definition NewGate (inn : enforcer) (al : list prefix) (probe : option (W → list addr)) : Gate :=
  MkGate inn (normalizeGatePrefix <$> al) probe [].

Definition SetExtraAllowlist (ps : list prefix) (g : Gate) : Gate :=
  MkGate (inner g) (allowlist g) (sshPeers g) (normalizeGatePrefix <$> ps).

Definition SetSSHPeerProbe (probe : option (W → list addr)) (g : Gate) : Gate :=
  MkGate (inner g) (allowlist g) probe (extra g).

Definition currentPeers (g : Gate) (w : W) : list addr :=
  match sshPeers g with None => [] | Some probe => probe w end.

Inductive refusal := Allowlisted | AllowlistedRuntime | ActiveSSHPeer.

Definition refuse (g : Gate) (t : Target) (peers : list addr) : option refusal :=
  match gatePrefix t with
  | None => None
  | Some p =>
    if existsb (λ a, Overlaps a p) (allowlist g) then Some Allowlisted
    else if existsb (λ a, Overlaps a p) (extra g) then Some AllowlistedRuntime
    else if existsb (λ peer, Contains p (Unmap peer)) peers then Some ActiveSSHPeer
    else None
  end.

Definition gate_run (g : Gate) (c : ecall) (w : W) : bool * W :=
  match c with
  | Ban t =>
    match refuse g t (currentPeers g w) with
    | Some _ => (false, w)
    | None => run (inner g) (Ban (normalizeGateTarget t)) w
    end
  | Unban t => run (inner g) (Unban (normalizeGateTarget t)) w
  | Sync want =>
    let peers := currentPeers g w in
    run (inner g) (Sync (normalizeGateTarget <$>
      List.filter (λ t, match refuse g t peers with Some _ => false | None => true end) want)) w
  | Allow p => if mirrors (inner g) then run (inner g) (Allow (normalizeForwardPrefix p)) w else (true, w)
  | Unallow p => if mirrors (inner g) then run (inner g) (Unallow (normalizeForwardPrefix p)) w else (true, w)
  | SyncAllowlist want =>
    if mirrors (inner g) then run (inner g) (SyncAllowlist (normalizeForwardPrefix <$> want)) w else (true, w)
  end.

(** The gate is an enforcer that mirrors the allowlist. *)
Definition gate_enforcer (g : Gate) : enforcer := MkEnforcer (Name (inner g)) true (gate_run g).
End enforcers.

Arguments enforcer W : clear implicits.
Arguments Gate W : clear implicits.

Definition gateKey (show_a : addr → string) (show_p : prefix → string) (t : Target) : string :=
  if IsValid (t_IP t) then show_a (t_IP t)
  else if PIsValid (t_Prefix t) then show_p (t_Prefix t)
  else if negb (t_ASN t =? 0) then "AS" +:+ show_Z (t_ASN t)
  else t_Country t.

(** ** What a target reaches, what the gate protects *)

(** The addresses a filter drops for a target; a range given by ASN or country
    is expanded elsewhere and reaches nothing here. *)
Definition target_covers (t : Target) (a : addr) : bool :=
  if IsValid (t_IP t) then bool_decide (withoutZone (t_IP t) = a) else Contains (t_Prefix t) a.

(** The targets a call asks to block. *)
Definition ban_targets (c : ecall) : list Target :=
  match c with Ban t => [t] | Sync want => want | _ => [] end.

(** What [net/netip] can construct. *)
Definition wf_target (t : Target) : Prop :=
  wf_addr (t_IP t) ∧ (PIsValid (t_Prefix t) = true → wf_prefix (t_Prefix t)).

(** An allowlist entry covers [b] in the family it is written in; a mapped entry
    shorter than 96 bits is not an IPv4 range. *)
Definition entry_covers (q : prefix) (b : addr) : Prop :=
  plain b ∧ Contains q b = true ∧ Is4In6 b = Is4In6 (paddr q) ∧ (Is4In6 b = true → 96 <= pbits q).

Lemma withoutZone_PrefixFrom a n : PrefixFrom (withoutZone a) n = PrefixFrom a n.
Proof. by destruct a. Qed.

Lemma withoutZone_plain a : wf_addr a → IsValid a = true → plain (withoutZone a).
Proof. by destruct a. Qed.

Lemma normalizeGatePrefix_wf p : wf_prefix p → wf_prefix (normalizeGatePrefix p).
Proof.
  intros Hp. unfold normalizeGatePrefix. destruct (Is4In6 (paddr p)) eqn:Em; [|by apply Masked_wf].
  destruct (Z.ltb_spec (pbits p) 96); [by apply Masked_wf|]. apply Masked_wf.
  by apply unmapped_prefix_wf.
Qed.

Lemma normalizeGatePrefix_invalid p : PIsValid p = false → PIsValid (normalizeGatePrefix p) = false.
Proof.
  unfold normalizeGatePrefix, PIsValid, Masked, AddrPrefix. intros H. bool_hyps.
  rewrite (proj2 (Z.ltb_lt (pbits p) 96)), orb_true_r by lia.
  by rewrite (proj2 (Z.ltb_lt (pbits p) 0)) by lia.
Qed.

(** Normalizing an entry keeps what it covers, in the form targets are compared. *)
Lemma normalizeGatePrefix_covers q b :
  wf_prefix q → entry_covers q b → Contains (normalizeGatePrefix q) (Unmap b) = true.
Proof.
  intros Hq (Hb & Hc & Hf & H96). unfold normalizeGatePrefix. rewrite <- Hf.
  destruct (Is4In6 b) eqn:Em.
  - specialize (H96 eq_refl). rewrite (proj2 (Z.ltb_ge _ _)) by done. cbn [negb orb].
    pose proof (unmapped_prefix_wf q Hq (eq_sym Hf) H96) as Hwf.
    rewrite Masked_contains by (done || by apply Unmap_wf, Hb). by rewrite mapped_contains by done.
  - cbn [negb orb]. rewrite Unmap_id by done. by rewrite Masked_contains by (done || apply Hb).
Qed.

Lemma gatePrefix_wf t p : wf_target t → gatePrefix t = Some p → wf_prefix p.
Proof.
  intros [Hip Hpf]. unfold gatePrefix. destruct (IsValid (t_IP t)) eqn:Hv.
  - set (u := Unmap (t_IP t)). intros [= <-]. rewrite <- withoutZone_PrefixFrom.
    assert (plain (withoutZone u)) as Hu.
    { apply withoutZone_plain; [by apply Unmap_wf|]. unfold u. by rewrite Unmap_valid. }
    replace (BitLen u) with (BitLen (withoutZone u)) by (by destruct u).
    destruct (PrefixFrom_wf (withoutZone u) (BitLen (withoutZone u)) Hu) as [-> Hw]; [|done].
    pose proof (BitLen_nonneg (withoutZone u)). lia.
  - destruct (PIsValid (t_Prefix t)); [|done]. intros [= <-]. apply normalizeGatePrefix_wf. auto.
Qed.

(** The range the gate tests is the range the forwarded target reaches. *)
Lemma gatePrefix_covers t a : wf_target t → plain a →
  target_covers (normalizeGateTarget t) a = true ↔ ∃ p, gatePrefix t = Some p ∧ wf_prefix p ∧ Contains p a = true.
Proof.
  intros [Hip Hpf] Ha. unfold target_covers, normalizeGateTarget, gatePrefix.
  destruct (IsValid (t_IP t)) eqn:Hv; simpl.
  - rewrite Unmap_valid, Hv. set (u := Unmap (t_IP t)).
    assert (plain (withoutZone u)) as Hu.
    { apply withoutZone_plain; [by apply Unmap_wf|]. unfold u. by rewrite Unmap_valid. }
    assert (PrefixFrom u (BitLen u) = PrefixFrom (withoutZone u) (BitLen (withoutZone u))) as Hh.
    { rewrite withoutZone_PrefixFrom. by destruct u. }
    rewrite Hh. rewrite bool_decide_eq_true. split.
    + intros He. eexists. split; [done|]. split; [|apply host_contains; [done|apply Ha|done]].
      rewrite <- Hh. eapply (gatePrefix_wf t); [by split|]. unfold gatePrefix. by rewrite Hv.
    + intros (p & [= <-] & _ & Hc). apply host_contains in Hc; [done|done|apply Ha].
  - destruct (PIsValid (t_Prefix t)) eqn:Hp; simpl.
    + rewrite Hv. specialize (Hpf eq_refl).
      assert (Contains (normalizeForwardPrefix (t_Prefix t)) a = Contains (normalizeGatePrefix (t_Prefix t)) a) as Hsame.
      { unfold normalizeForwardPrefix. destruct (Is4In6 _ && _) eqn:E; [done|].
        unfold normalizeGatePrefix. rewrite Z.leb_antisym in E.
        destruct (Is4In6 _); simpl in *; [|by rewrite Masked_contains by (done || apply Ha)].
        apply negb_false_iff in E. rewrite E. by rewrite Masked_contains by (done || apply Ha). }
      rewrite Hsame. split; [|by intros (p & [= <-] & _ & ?)].
      intros Hc. eexists. split; [done|]. split; [by apply normalizeGatePrefix_wf|done].
    + rewrite Hv. unfold Contains. rewrite Hp. simpl. split; [done|by intros (p & ? & _)].
Qed.

Section gate.
Context {W : Type}.
Implicit Types (g : Gate W) (w : W) (inn : enforcer W).

(** [a] is an address the gate must never let through. *)
Definition protected g (peers : list addr) (a : addr) : Prop :=
  (∃ q, q ∈ allowlist g ++ extra g ∧ Contains q a = true) ∨ (∃ p, p ∈ peers ∧ Unmap p = a).

Lemma refuse_iff g t peers :
  wf_target t → Forall wf_prefix (allowlist g ++ extra g) → Forall plain peers →
  refuse g t peers ≠ None ↔
  ∃ a, plain a ∧ target_covers (normalizeGateTarget t) a = true ∧ protected g peers a.
Proof.
  intros Ht Hal Hpe. rewrite Forall_forall in Hal. rewrite Forall_forall in Hpe.
  assert (∀ q p, q ∈ allowlist g ++ extra g → wf_prefix p → Overlaps q p = true ↔
    ∃ a, plain a ∧ Contains q a = true ∧ Contains p a = true) as Hov.
  { intros q p Hq Hp. apply Overlaps_iff; [by apply Hal|done]. }
  assert (∀ p, gatePrefix t = Some p → refuse g t peers ≠ None ↔
    (∃ q, q ∈ allowlist g ++ extra g ∧ Overlaps q p = true) ∨ ∃ x, x ∈ peers ∧ Contains p (Unmap x) = true) as Hr.
  { intros p Hp. unfold refuse. rewrite Hp.
    destruct (existsb _ (allowlist g)) eqn:E1; [|destruct (existsb _ (extra g)) eqn:E2;
      [|destruct (existsb _ peers) eqn:E3]].
    - apply existsb_exists_elem in E1 as (q & Hq & Ho). split; [|done]. intros _. left.
      exists q. rewrite elem_of_app. auto.
    - apply existsb_exists_elem in E2 as (q & Hq & Ho). split; [|done]. intros _. left.
      exists q. rewrite elem_of_app. auto.
    - apply existsb_exists_elem in E3 as (q & Hq & Ho). split; [|done]. intros _. right. eauto.
    - rewrite existsb_false_elem in E1. rewrite existsb_false_elem in E2. rewrite existsb_false_elem in E3.
      split; [done|]. intros [(q & [Hq|Hq]%elem_of_app & Ho)|(x & Hx & Hc)].
      + by rewrite E1 in Ho.
      + by rewrite E2 in Ho.
      + by rewrite E3 in Hc. }
  destruct (gatePrefix t) as [p|] eqn:Hp.
  - pose proof (gatePrefix_wf _ _ Ht Hp) as Hwf. rewrite (Hr p eq_refl). split.
    + intros [(q & Hq & Ho)|(x & Hx & Hc)].
      * apply Hov in Ho as (a & Ha & Hc1 & Hc2); [|done..].
        exists a. split; [done|]. split; [apply gatePrefix_covers; eauto|]. left. eauto.
      * pose proof (Unmap_plain _ (Hpe x Hx)). exists (Unmap x). split; [done|].
        split; [apply gatePrefix_covers; eauto|]. right. eauto.
    + intros (a & Ha & Hc & Hpr). apply gatePrefix_covers in Hc as (p' & Hp' & _ & Hc); [|done..].
      assert (p' = p) as -> by congruence.
      destruct Hpr as [(q & Hq & Hcq)|(x & Hx & <-)]; [left|right; eauto].
      exists q. split; [done|]. apply Hov; eauto.
  - split; [unfold refuse; by rewrite Hp|].
    intros (a & Ha & Hc & _). apply gatePrefix_covers in Hc as (p' & Hp' & _); [congruence|done..].
Qed.

(** The gate refuses exactly what reaches a protected address: a target is
    refused if and only if some address it would block lies in an allowlist
    entry, static or runtime, or is a current SSH peer; hosts, ranges, mapped
    spellings and zoned addresses alike. *)
Theorem refuse_exact g t peers :
  wf_target t → Forall wf_prefix (allowlist g ++ extra g) → Forall plain peers →
  refuse g t peers ≠ None ↔
  ∃ a, plain a ∧ target_covers (normalizeGateTarget t) a = true ∧ protected g peers a.
Proof. apply refuse_iff. Qed.

(** C5. Nothing protected is ever blocked: whatever the call, either the world is
    untouched or the wrapped enforcer gets one call, and no target of that call
    reaches an address covered by an entry of the static or runtime allowlist
    (in the entry's own spelling, IPv4-mapped included) or a current SSH peer. *)
Theorem gate_safe inn al ex probe c w :
  let g := SetExtraAllowlist ex (NewGate inn al probe) in
  Forall wf_prefix al → Forall wf_prefix ex → Forall plain (currentPeers g w) →
  Forall wf_target (ban_targets c) →
  snd (gate_run g c w) = w ∨
  ∃ c', gate_run g c w = run inn c' w ∧
    ∀ t a, t ∈ ban_targets c' → plain a → target_covers t a = true →
      (∀ q b, q ∈ al ++ ex → entry_covers q b → Unmap b ≠ a) ∧
      (∀ p, p ∈ currentPeers g w → Unmap p ≠ a).
Proof.
  intros g Hal Hex Hpe Hts.
  assert (Forall wf_prefix (allowlist g ++ extra g)) as Hwf.
  { simpl. rewrite Forall_app, !Forall_fmap. split; eapply Forall_impl; eauto using normalizeGatePrefix_wf. }
  assert (∀ t a, t ∈ ban_targets c → refuse g t (currentPeers g w) = None → plain a →
      target_covers (normalizeGateTarget t) a = true →
      (∀ q b, q ∈ al ++ ex → entry_covers q b → Unmap b ≠ a) ∧
      (∀ p, p ∈ currentPeers g w → Unmap p ≠ a)) as Hsafe.
  { intros t a Ht Hr Ha Hc. rewrite Forall_forall in Hts.
    assert (¬ protected g (currentPeers g w) a) as Hnp.
    { intros Hp. apply (refuse_iff g t (currentPeers g w)); eauto. }
    split.
    - intros q b Hq Hb <-. apply Hnp. left. exists (normalizeGatePrefix q). split.
      + simpl. rewrite <- fmap_app. by apply list_elem_of_fmap_2.
      + apply normalizeGatePrefix_covers; [|done]. rewrite Forall_forall in Hal. rewrite Forall_forall in Hex.
        apply elem_of_app in Hq as [?|?]; auto.
    - intros p Hp <-. apply Hnp. right. eauto. }
  destruct c as [t|t|want|p|p|want]; simpl.
  - destruct (refuse g t (currentPeers g w)) eqn:Hr; [by left|]. right. eexists. split; [done|].
    intros t' a ->%list_elem_of_singleton. apply Hsafe; [by left|done].
  - right. eexists. split; [done|]. intros t' a ?%not_elem_of_nil. done.
  - right. eexists. split; [done|]. intros t' a (t & -> & Ht)%list_elem_of_fmap.
    apply list_elem_of_In, filter_In in Ht as [Ht Hr]. apply list_elem_of_In in Ht.
    apply Hsafe; [done|]. by destruct (refuse _ _ _).
  - destruct (mirrors inn); [|by left]. right. eexists. split; [done|]. intros t' a ?%not_elem_of_nil. done.
  - destruct (mirrors inn); [|by left]. right. eexists. split; [done|]. intros t' a ?%not_elem_of_nil. done.
  - destruct (mirrors inn); [|by left]. right. eexists. split; [done|]. intros t' a ?%not_elem_of_nil. done.
Qed.

(** What passes the gate is clear of both allowlists. *)
Lemma refuse_none_clear g t peers a : (PIsValid (t_Prefix t) = true → wf_prefix (t_Prefix t)) →
  Forall wf_prefix (allowlist g ++ extra g) → plain a → refuse g t peers = None →
  target_covers (normalizeGateTarget t) a = true → ∀ q, q ∈ allowlist g ++ extra g → Contains q a = false.
Proof.
  intros Hpf Hal Ha Hr Hc q Hq. destruct (Contains q a) eqn:Eq; [|done]. exfalso.
  assert (∃ p, gatePrefix t = Some p ∧ wf_prefix p ∧ Contains p a = true) as (p & Hp & Hw & Hpa).
  { destruct (IsValid (t_IP t)) eqn:Hv.
    - unfold target_covers, normalizeGateTarget in Hc. rewrite Hv in Hc. simpl in Hc. rewrite Unmap_valid, Hv in Hc.
      apply bool_decide_eq_true in Hc. set (u := Unmap (t_IP t)) in *. exists (PrefixFrom u (BitLen u)).
      unfold gatePrefix. rewrite Hv. split; [done|]. rewrite <- withoutZone_PrefixFrom, Hc.
      replace (BitLen u) with (BitLen a) by (rewrite <- Hc; by destruct u).
      destruct (PrefixFrom_wf a (BitLen a) Ha) as [E Hw]; [pose proof (BitLen_nonneg a); lia|].
      split; [by rewrite E|]. by apply host_contains; [|apply Ha|].
    - apply gatePrefix_covers; [|done|done]. split; [by destruct (t_IP t)|done]. }
  assert (Overlaps q p = true) as Ho.
  { apply Overlaps_iff; [by eapply Forall_forall in Hal|done|]. eauto. }
  unfold refuse in Hr. rewrite Hp in Hr. destruct (existsb _ (allowlist g)) eqn:E1; [done|].
  destruct (existsb _ (extra g)) eqn:E2; [done|]. rewrite existsb_false_elem in E1, E2.
  apply elem_of_app in Hq as [Hq|Hq]; [by rewrite (E1 q Hq) in Ho|by rewrite (E2 q Hq) in Ho].
Qed.

(** [c] blocks no address an entry of [al] covers, in either spelling. *)
Definition clear_of (al : list prefix) (c : ecall) : Prop :=
  ∀ t a q b, t ∈ ban_targets c → plain a → target_covers t a = true → q ∈ al → entry_covers q b → Unmap b ≠ a.

(** Whatever the call, the wrapped enforcer is left alone or gets one clear call. *)
Lemma gate_clear inn al ex probe c w :
  let g := SetExtraAllowlist ex (NewGate inn al probe) in
  Forall wf_prefix al → Forall wf_prefix ex →
  (∀ t, t ∈ ban_targets c → PIsValid (t_Prefix t) = true → wf_prefix (t_Prefix t)) →
  snd (gate_run g c w) = w ∨ ∃ c', gate_run g c w = run inn c' w ∧ clear_of (al ++ ex) c'.
Proof.
  intros g Hal Hex Hts.
  assert (Forall wf_prefix (allowlist g ++ extra g)) as Hwf.
  { simpl. rewrite Forall_app, !Forall_fmap. split; eapply Forall_impl; eauto using normalizeGatePrefix_wf. }
  assert (∀ t a q b, t ∈ ban_targets c → refuse g t (currentPeers g w) = None → plain a →
      target_covers (normalizeGateTarget t) a = true → q ∈ al ++ ex → entry_covers q b → Unmap b ≠ a) as Hsafe.
  { intros t a q b Ht Hr Ha Hc Hq Hb <-.
    assert (wf_prefix q) as Hwq by (apply elem_of_app in Hq as [Hq|Hq]; [by eapply Forall_forall in Hal|by eapply Forall_forall in Hex]).
    pose proof (refuse_none_clear g t _ _ (Hts t Ht) Hwf Ha Hr Hc (normalizeGatePrefix q)) as Hn.
    rewrite normalizeGatePrefix_covers in Hn by done. discriminate Hn. simpl. rewrite <- fmap_app. by apply list_elem_of_fmap_2. }
  assert (∀ c', ban_targets c' = [] → clear_of (al ++ ex) c') as Hnil.
  { intros c' E t a q b Ht. rewrite E in Ht. by apply elem_of_nil in Ht. }
  destruct c as [t|t|want|p|p|want]; simpl.
  - destruct (refuse g t (currentPeers g w)) eqn:Hr; [by left|]. right. eexists. split; [done|].
    intros t' a q b ->%list_elem_of_singleton. apply Hsafe; [by left|done].
  - right. eexists. split; [done|by apply Hnil].
  - right. eexists. split; [done|]. intros t' a q b (t & -> & Ht)%list_elem_of_fmap.
    apply list_elem_of_In, filter_In in Ht as [Ht Hr]. apply list_elem_of_In in Ht.
    apply Hsafe; [done|]. by destruct (refuse _ _ _).
  - destruct (mirrors inn); [|by left]. right. eexists. split; [done|by apply Hnil].
  - destruct (mirrors inn); [|by left]. right. eexists. split; [done|by apply Hnil].
  - destruct (mirrors inn); [|by left]. right. eexists. split; [done|by apply Hnil].
Qed.

(** ** Spelling *)
Lemma normalizeGateTarget_spelling t t' :
  IsValid (t_IP t) = true → IsValid (t_IP t') = true → Unmap (t_IP t) = Unmap (t_IP t') →
  t_Prefix t = t_Prefix t' → t_ASN t = t_ASN t' → t_Country t = t_Country t' → t_TTL t = t_TTL t' →
  normalizeGateTarget t = normalizeGateTarget t' ∧ gatePrefix t = gatePrefix t'.
Proof.
  unfold normalizeGateTarget, gatePrefix. intros -> -> -> -> -> -> ->. done.
Qed.

(** An address is one target however it is written: banning, unbanning or
    syncing its plain or its IPv4-mapped form has the same outcome on the same
    state, so an unban always finds the ban; and a refused target of a sync
    drops out alone, the others reach the wrapped enforcer in order. *)
Theorem gate_spelling g w a b ttl :
  IsValid a = true → IsValid b = true → Unmap a = Unmap b →
  let t x := MkTarget x PrefixNone 0 EmptyString ttl in
  gate_run g (Ban (t a)) w = gate_run g (Ban (t b)) w ∧
  gate_run g (Unban (t a)) w = gate_run g (Unban (t b)) w ∧
  ∀ l r, gate_run g (Sync (l ++ t a :: r)) w = gate_run g (Sync (l ++ t b :: r)) w ∧
    (refuse g (t a) (currentPeers g w) ≠ None →
     gate_run g (Sync (l ++ t b :: r)) w = gate_run g (Sync (l ++ r)) w).
Proof.
  intros Ha Hb Hab t.
  destruct (normalizeGateTarget_spelling (t a) (t b)) as [Hn Hp]; [done..|].
  assert (∀ ps, refuse g (t a) ps = refuse g (t b) ps) as Hr by (intros ps; unfold refuse; by rewrite Hp).
  unfold gate_run. rewrite Hn, Hr. split; [done|]. split; [done|]. intros l r.
  rewrite !List.filter_app, !fmap_app. simpl. rewrite Hr.
  destruct (refuse g (t b) (currentPeers g w)) eqn:E; split; try done. simpl. by rewrite Hn.
Qed.

(** ** Several enforcers *)

(** The children a call is for. *)
Definition called (es : list (enforcer W)) (c : ecall) : list (enforcer W) :=
  List.filter (λ e, negb (mirror_call c) || mirrors e) es.

(** The world after each of [es] ran, in order. *)
Definition after (es : list (enforcer W)) (c : ecall) (w : W) : W :=
  foldl (λ w e, snd (run e c w)) w es.

Lemma fan_out_spec es c w :
  snd (fan_out es c w) = after (called es c) c w ∧
  (fst (fan_out es c w) = [] ↔ ∀ i e, called es c !! i = Some e →
     fst (run e c (after (take i (called es c)) c w)) = true).
Proof.
  revert w. induction es as [|e es IH]; intros w; simpl; [done|].
  destruct (mirror_call c && negb (mirrors e)) eqn:E.
  - assert (negb (mirror_call c) || mirrors e = false) as -> by (by destruct (mirror_call c), (mirrors e)). apply IH.
  - assert (negb (mirror_call c) || mirrors e = true) as -> by (by destruct (mirror_call c), (mirrors e)).
    destruct (run e c w) as [ok w1] eqn:Er. specialize (IH w1).
    destruct (fan_out es c w1) as [errs w2]. simpl in *. rewrite Er. simpl.
    destruct IH as [-> Herr]. split; [done|]. split.
    + intros H [|i] e' Hi; simplify_eq/=.
      * rewrite Er. by destruct ok.
      * rewrite Er. simpl. apply Herr; [by destruct ok|done].
    + intros H. pose proof (H 0%nat e eq_refl) as H0. simpl in H0. rewrite Er in H0. simpl in H0. subst ok.
      apply Herr. intros i e' Hi. specialize (H (S i) e' Hi). simpl in H. by rewrite Er in H.
Qed.

(** A gated fan-out loses no child: when the gate lets a ban through, every
    wrapped enforcer runs once, in order, whether or not earlier ones failed,
    and the ban succeeds exactly when all of them did; a refused ban runs none. *)
Theorem gated_fan_out es al probe t w :
  let g := NewGate (NewMulti es) al probe in
  let c := Ban (normalizeGateTarget t) in
  match refuse g t (currentPeers g w) with
  | Some _ => gate_run g (Ban t) w = (false, w)
  | None => snd (gate_run g (Ban t) w) = after es c w ∧
      (fst (gate_run g (Ban t) w) = true ↔
       ∀ i e, es !! i = Some e → fst (run e c (after (take i es) c w)) = true)
  end.
Proof.
  intros g c. destruct (refuse g t (currentPeers g w)) eqn:Hr; unfold gate_run; rewrite Hr; [done|].
  fold c. destruct (fan_out_spec es c w) as [Hs He]. 
  assert (called es c = es) as Hc.
  { unfold called. simpl. clear. induction es as [|e es IH]; simpl; [done|]. by rewrite IH. }
  rewrite Hc in *. simpl in *. destruct (fan_out es c w) as [errs w']. simpl in *.
  split; [done|]. by rewrite bool_decide_eq_true.
Qed.
End gate.

(** ** A worked gate: the wrapped enforcer records the calls it gets *)
Definition recorder : enforcer (list ecall) := MkEnforcer "nftables" true (λ c w, (true, c :: w)).
Definition sample_al : list prefix := [Prefix (Addr4 0xc0000200) 24; Prefix (Addr6 0xffff0a000000 EmptyString) 104].
Definition sample_probe : option (list ecall → list addr) := Some (λ _, [Addr6 0xffffcb007105 EmptyString]).
Definition host (a : addr) : Target := MkTarget a PrefixNone 0 EmptyString 0.
Definition range (p : prefix) : Target := MkTarget AddrNone p 0 EmptyString 0.
Definition sample_sync : ecall :=
  Sync [host (Addr4 0xc0000209); host (Addr4 0x0a010203); host (Addr6 0xffffc6336401 EmptyString);
        range (Prefix (Addr4 0xcb007100) 24)].

Example sample_gate_runs :
  gate_run (NewGate recorder sample_al sample_probe) sample_sync [] = (true, [Sync [host (Addr4 0xc6336401)]]).
Proof. vm_compute. reflexivity. Qed.

Lemma gate_safe_witness :
  let g := SetExtraAllowlist [Prefix (Addr4 0xc6336400) 30] (NewGate recorder sample_al sample_probe) in
  snd (gate_run g sample_sync []) = [] ∨
  ∃ c', gate_run g sample_sync [] = run recorder c' [] ∧
    ∀ t a, t ∈ ban_targets c' → plain a → target_covers t a = true →
      (∀ q b, q ∈ sample_al ++ [Prefix (Addr4 0xc6336400) 30] → entry_covers q b → Unmap b ≠ a) ∧
      (∀ p, p ∈ currentPeers g [] → Unmap p ≠ a).
Proof.
  apply (gate_safe recorder sample_al [Prefix (Addr4 0xc6336400) 30] sample_probe sample_sync []).
  - repeat constructor; vm_compute; done.
  - repeat constructor; vm_compute; done.
  - repeat constructor; vm_compute; done.
  - repeat constructor; vm_compute; done.
Defined.

Lemma refuse_exact_witness :
  let g := NewGate recorder sample_al sample_probe in
  refuse g (range (Prefix (Addr4 0xcb007100) 24)) (currentPeers g []) ≠ None ↔
  ∃ a, plain a ∧ target_covers (normalizeGateTarget (range (Prefix (Addr4 0xcb007100) 24))) a = true ∧
       protected g (currentPeers g []) a.
Proof.
  apply (refuse_exact (NewGate recorder sample_al sample_probe)).
  - repeat constructor; vm_compute; done.
  - repeat constructor; vm_compute; done.
  - repeat constructor; vm_compute; done.
Defined.

Lemma gate_spelling_witness :
  let g := NewGate recorder sample_al sample_probe in
  let t x := MkTarget x PrefixNone 0 EmptyString Hour in
  gate_run g (Ban (t (Addr6 0xffffc6336401 EmptyString))) [] = gate_run g (Ban (t (Addr4 0xc6336401))) [].
Proof.
  exact (proj1 (gate_spelling (NewGate recorder sample_al sample_probe) [] (Addr6 0xffffc6336401 EmptyString)
    (Addr4 0xc6336401) Hour eq_refl eq_refl eq_refl)).
Defined.
