(* ===== verification/Canon.v ===== *)
(** One spelling per target: [CanonicalIPKey] of [internal/enforce/canon.go].

    The packet filter, its privileged helper and the reconcile all key their
    state by this text, so it must name the target it was computed from. *)
From Stdlib Require Import Ascii.
From S2P Require Import Prelude GoStrings Netip NetipParse NetipShow.

(** The spelling nftables prints. *)
Definition CanonicalIPKey (s : string) : string :=
  match ParseAddr s with
  | Some a => show_addr (Unmap a)
  | None =>
    match ParsePrefix s with
    | Some p => if IsSingleIP p then show_addr (Unmap (paddr p)) else show_prefix (Masked p)
    | None => s
    end
  end.

Example canon_host : CanonicalIPKey "192.0.2.10/32" = "192.0.2.10".
Proof. vm_compute. reflexivity. Qed.
Example canon_mapped : CanonicalIPKey "::ffff:192.0.2.10" = "192.0.2.10".
Proof. vm_compute. reflexivity. Qed.
Example canon_masked : CanonicalIPKey "192.0.2.77/24" = "192.0.2.0/24".
Proof. vm_compute. reflexivity. Qed.

(** What a text names: one address, or the addresses of a masked range. *)
Definition denote (s : string) : option (addr + prefix) :=
  match ParseAddr s with
  | Some a => Some (inl (Unmap a))
  | None => (λ p, if IsSingleIP p then inl (Unmap (paddr p)) else inr (Masked p)) <$> ParsePrefix s
  end.

Definition spell (d : addr + prefix) : string :=
  match d with inl a => show_addr a | inr p => show_prefix p end.

Lemma CanonicalIPKey_spell s d : denote s = Some d → CanonicalIPKey s = spell d.
Proof.
  unfold denote, CanonicalIPKey. destruct (ParseAddr s) as [a|]; [by intros [= <-]|].
  destruct (ParsePrefix s) as [p|]; [|done]. intros [= <-]. by destruct (IsSingleIP p).
Qed.

Lemma Masked_fields p : wf_prefix p → pbits (Masked p) = pbits p ∧ BitLen (paddr (Masked p)) = BitLen (paddr p).
Proof.
  intros (Ha & Hz & Hv & Hb). unfold Masked. rewrite AddrPrefix_wf by done. simpl. by destruct (paddr p).
Qed.

Lemma Masked_idemp p : wf_prefix p → Masked (Masked p) = Masked p.
Proof.
  intros Hp. pose proof (Masked_wf p Hp) as Hm. pose proof Hp as (Ha & Hz & Hv & Hb). pose proof Hm as (Ha' & Hz' & Hv' & Hb').
  unfold Masked at 1. rewrite AddrPrefix_wf by done.
  unfold Masked in *. rewrite (AddrPrefix_wf (paddr p)) in * by done. simpl in *. f_equal.
  destruct (paddr p) as [|v|v z]; [done|..]; simpl in *; f_equal; by rewrite <- Z.land_assoc, Z.land_diag.
Qed.

Lemma denote_addr a : wf_addr a → IsValid a = true → denote (show_addr a) = Some (inl (Unmap a)).
Proof. intros Ha Hv. unfold denote. by rewrite ParseAddr_show. Qed.

Lemma denote_range p : wf_prefix p → IsSingleIP p = false → denote (show_prefix p) = Some (inr (Masked p)).
Proof.
  intros Hp Hs. pose proof Hp as (Ha & Hz & Hv & Hb). unfold denote.
  assert (ParseAddr (show_prefix p) = None) as ->.
  { unfold show_prefix, PIsValid. rewrite (proj2 (Z.leb_le 0 (pbits p))) by lia.
    change ("/" +:+ show_Z (pbits p)) with (String "/"%char (show_Z (pbits p))).
    apply ParseAddr_slash. change (String "/"%char (show_Z (pbits p))) with ("/" +:+ show_Z (pbits p)). rewrite !no_char_app. rewrite !andb_true_iff. split; [|split; [done|]].
    - eapply no_char_forall; [|by apply show_addr_no_slash]. done.
    - assert (BitLen (paddr p) <= 128) as HB by (by destruct (paddr p)).
      pose proof (bits_text (pbits p) ltac:(lia)) as Hbt. unfold bits_ok in Hbt. rewrite !andb_true_iff in Hbt.
      eapply no_char_forall; [|apply Hbt]. done. }
  rewrite ParsePrefix_show by done. simpl. by rewrite Hs.
Qed.

Lemma denote_key s d : denote s = Some d → denote (CanonicalIPKey s) = Some d.
Proof.
  intros H. rewrite (CanonicalIPKey_spell s d H). unfold denote in H.
  assert (∀ a, wf_addr a → IsValid a = true → denote (show_addr (Unmap a)) = Some (inl (Unmap a))) as Hd.
  { intros a Ha Hv. rewrite denote_addr; [by rewrite Unmap_idemp|by apply Unmap_wf|by rewrite Unmap_valid]. }
  destruct (ParseAddr s) as [a|] eqn:Ea.
  - apply ParseAddr_wf in Ea as [Ha Hv]. injection H as <-. by apply Hd.
  - destruct (ParsePrefix s) as [p|] eqn:Ep; [|done]. apply ParsePrefix_wf in Ep. pose proof Ep as (Ha & Hz & Hv & Hb).
    simpl in H. injection H as <-. destruct (IsSingleIP p) eqn:Es; [by apply Hd|]. simpl.
    rewrite denote_range; [by rewrite Masked_idemp|by apply Masked_wf|].
    unfold IsSingleIP, PIsValid in *. by destruct (Masked_fields p Ep) as [-> ->].
Qed.

(** C39. The key is canonical: two texts that name an address or a range get the
    same key exactly when they name the same one (host prefixes and mapped
    addresses are addresses, ranges are masked), and a key is its own key. *)
Theorem CanonicalIPKey_canonical s t d e :
  denote s = Some d → denote t = Some e →
  (CanonicalIPKey s = CanonicalIPKey t ↔ d = e) ∧
  CanonicalIPKey (CanonicalIPKey s) = CanonicalIPKey s.
Proof.
  intros Hs Ht. pose proof (denote_key s d Hs) as Hks. pose proof (denote_key t e Ht) as Hkt. split.
  - split; [intros He; rewrite He in Hks; congruence|]. intros ->. by rewrite (CanonicalIPKey_spell s e), (CanonicalIPKey_spell t e).
  - by rewrite (CanonicalIPKey_spell _ _ Hks), (CanonicalIPKey_spell s d).
Qed.

Lemma CanonicalIPKey_canonical_witness :
  CanonicalIPKey "::ffff:192.0.2.10" = CanonicalIPKey "192.0.2.10/32".
Proof.
  refine (proj2 (proj1 (CanonicalIPKey_canonical "::ffff:192.0.2.10" "192.0.2.10/32"
    (inl (Addr4 0xc000020a)) (inl (Addr4 0xc000020a)) _ _)) eq_refl); vm_compute; reflexivity.
Defined.
