(* ===== verification/NftNames.v ===== *)
(** nftables object names: [internal/nftnames/nftnames.go].

    Both sides of the privilege boundary resolve names with it; the helper
    renders scripts from nothing else. *)
From Stdlib Require Import Ascii.
From S2P Require Import Prelude GoStrings.

Definition DefaultTable : string := "inet ezyshield".
Definition DefaultSet : string := "blocked".
Definition maxNameLen : nat := 32.

Record Names := MkNames {
  Table : string;
  Set4 : string; Set6 : string;
  Allow4 : string; Allow6 : string;
  Feeds4 : string; Feeds6 : string
}.

#[export] Instance Names_eq_dec : EqDecision Names.
Proof. solve_decision. Defined.

Definition in_range (lo hi : N) (a : ascii) : bool :=
  ((lo <=? N_of_ascii a) && (N_of_ascii a <=? hi))%N.
Definition name_head (a : ascii) : bool :=
  in_range 65 90 a || in_range 97 122 a || bool_decide (a = "_"%char).
Definition name_char (a : ascii) : bool := name_head a || in_range 48 57 a.

(** [nameRe]. *)
Definition nameRe (s : string) : bool :=
  match s with EmptyString => false | String a s => name_head a && str_forall name_char s end.

Inductive name_error := ETooLong | ECharset | EFamily | EForm | ESetTooLong | EAllowSet | EFeedsSet.

#[export] Instance name_error_eq_dec : EqDecision name_error.
Proof. solve_decision. Defined.

Definition validName (s : string) : result name_error unit :=
  if (maxNameLen <? str_len s)%nat then Err ETooLong
  else if nameRe s then Ok tt else Err ECharset.

Definition table_name (table : string) : result name_error string :=
  if decide (table = EmptyString) then Ok "ezyshield" else
  let check n := match validName n with Ok _ => Ok n | Err e => Err e end in
  match StrFields table with
  | [n] => check n
  | [f; n] => if decide (f = "inet") then check n else Err EFamily
  | _ => Err EForm
  end.

Definition set_name (set : string) : result name_error string :=
  if decide (set = EmptyString) then Ok DefaultSet else
  match validName set with
  | Err e => Err e
  | Ok _ =>
    if (maxNameLen <=? str_len set)%nat then Err ESetTooLong else
    if decide (set = "allowed" ∨ set = "allowed6") then Err EAllowSet else
    if decide (set = "blocked_feeds" ∨ set = "blocked_feeds6") then Err EFeedsSet else Ok set
  end.

Definition Resolve (table set : string) : result name_error Names :=
  match table_name (TrimSpace table) with
  | Err e => Err e
  | Ok t =>
    match set_name (TrimSpace set) with
    | Err e => Err e
    | Ok s => Ok (MkNames ("inet " +:+ t) s (s +:+ "6") "allowed" "allowed6" "blocked_feeds" "blocked_feeds6")
    end
  end.

Definition defaultNames : Names :=
  MkNames DefaultTable DefaultSet "blocked6" "allowed" "allowed6" "blocked_feeds" "blocked_feeds6".

Definition IsDefault (n : Names) : bool := bool_decide (n = defaultNames).

Example resolve_default : Resolve EmptyString EmptyString = Ok defaultNames.
Proof. reflexivity. Qed.
Example resolve_custom :
  Table <$> Resolve "  inet fw_1 " "bad_hosts" = Ok "inet fw_1" ∧ Resolve "ip fw" "x" = Err EFamily ∧
  Resolve "a; flush" "x" = Err EFamily ∧ Resolve EmptyString "blocked_feeds6" = Err EFeedsSet ∧
  Resolve EmptyString "x }" = Err ECharset.
Proof. vm_compute. done. Qed.

(** ** What a resolved name can be *)
Definition ident (s : string) : Prop := nameRe s = true ∧ (str_len s ≤ maxNameLen)%nat.

Lemma validName_ident s : validName s = Ok tt ↔ ident s.
Proof.
  unfold validName, ident. destruct (Nat.ltb_spec maxNameLen (str_len s)); [split; [done|lia]|].
  destruct (nameRe s); split; naive_solver.
Qed.

Lemma table_name_ident t n : table_name t = Ok n → ident n.
Proof.
  unfold table_name. case_decide as Hd; [intros [= <-]; split; [done|vm_compute; lia]|].
  assert (∀ m, match validName m with Ok _ => Ok m | Err e => Err e end = Ok n → ident n) as Hc.
  { intros m. destruct (validName m) as [[]|] eqn:E; [|done]. apply validName_ident in E. by intros [= <-]. }
  destruct (StrFields t) as [|x [|y [|z l]]]; try done; [apply Hc|]. case_decide; [apply Hc|done].
Qed.

Lemma set_name_ident s n : set_name s = Ok n →
  ident n ∧ (str_len n < maxNameLen)%nat ∧ n ≠ "allowed" ∧ n ≠ "allowed6" ∧ n ≠ "blocked_feeds" ∧ n ≠ "blocked_feeds6".
Proof.
  unfold set_name. case_decide as Hd; [intros [= <-]; repeat split; vm_compute; done || lia|].
  destruct (validName s) as [[]|] eqn:E; [|done]. apply validName_ident in E.
  destruct (Nat.leb_spec maxNameLen (str_len s)); [done|]. repeat case_decide; try done. intros [= <-]. naive_solver.
Qed.

Lemma ident_suffix s : ident s → (str_len s < maxNameLen)%nat → ident (s +:+ "6").
Proof.
  intros [H _] Hl. destruct s as [|a s]; [done|]. simpl in H. apply andb_true_iff in H as [Ha Hs]. split.
  - simpl. rewrite Ha. change (String.append s "6") with (s +:+ "6"). by rewrite str_forall_app, Hs.
  - rewrite str_length_app. simpl. simpl in Hl. lia.
Qed.

Lemma suffix_inj s t : s +:+ "6" = t +:+ "6" → s = t.
Proof.
  revert t. induction s as [|a s IH]; intros [|b t]; simpl; try done.
  - intros [= _ H]. by destruct t.
  - intros [= _ H]. by destruct s.
  - intros [= -> H]. f_equal. by apply IH.
Qed.

Lemma nameRe_no_space s : nameRe s = true → no_space s = true ∧ s ≠ EmptyString.
Proof.
  assert (∀ a, name_char a = true → is_space a = false) as Hc.
  { intros a H. destruct a as [[] [] [] [] [] [] [] []]; solve [discriminate H|reflexivity]. }
  destruct s as [|a s]; [done|]. simpl. intros [Ha Hs]%andb_true_iff. split; [|done].
  rewrite (Hc a) by (unfold name_char; by rewrite Ha). simpl. clear Ha.
  induction s as [|b s IH]; simpl in *; [done|]. apply andb_true_iff in Hs as [Hb Hs]. rewrite (Hc b Hb). by apply IH.
Qed.

Lemma TrimSpace_no_space s : no_space s = true → TrimSpace s = s.
Proof.
  intros H. unfold TrimSpace. assert (trim_left s = s) as ->.
  { destruct s as [|a s]; [done|]. simpl in *. apply andb_true_iff in H as [Ha _]. apply negb_true_iff in Ha. by rewrite Ha. }
  induction s as [|a s IH]; simpl in *; [done|]. apply andb_true_iff in H as [Ha Hs]. apply negb_true_iff in Ha.
  rewrite (IH Hs), Ha. by destruct s.
Qed.

Lemma trim_right_app a s : trim_right s ≠ EmptyString → trim_right (a +:+ s) = a +:+ trim_right s.
Proof.
  intros Hs. induction a as [|c a IH]; [done|]. simpl. change (String.append a s) with (a +:+ s). rewrite IH.
  destruct (a +:+ trim_right s) eqn:E; [|done]. destruct a; [simpl in E; congruence|done].
Qed.

Lemma StrFields_last w : no_space w = true → w ≠ EmptyString → StrFields w = [w].
Proof.
  intros Hw Hne. assert (fields_aux w = (w, [])) as E.
  { clear Hne. induction w as [|a w IH]; simpl in *; [done|]. apply andb_true_iff in Hw as [Ha Hw].
    apply negb_true_iff in Ha. by rewrite IH, Ha. }
  unfold StrFields. rewrite E. by destruct w.
Qed.

Lemma TrimSpace_table t : no_space t = true → t ≠ EmptyString → TrimSpace ("inet " +:+ t) = "inet " +:+ t.
Proof.
  intros Hsp Hne. pose proof (TrimSpace_no_space t Hsp) as Htr. unfold TrimSpace in *.
  change (trim_left ("inet " +:+ t)) with ("inet " +:+ t).
  assert (trim_left t = t) as Htl.
  { destruct t as [|a t]; [done|]. simpl in *. apply andb_true_iff in Hsp as [Ha _]. apply negb_true_iff in Ha. by rewrite Ha. }
  rewrite Htl in Htr. by rewrite trim_right_app; rewrite Htr.
Qed.

Lemma Resolve_resolved t s : ident t → ident s → (str_len s < maxNameLen)%nat →
  s ≠ "allowed" → s ≠ "allowed6" → s ≠ "blocked_feeds" → s ≠ "blocked_feeds6" →
  Resolve ("inet " +:+ t) s =
  Ok (MkNames ("inet " +:+ t) s (s +:+ "6") "allowed" "allowed6" "blocked_feeds" "blocked_feeds6").
Proof.
  intros Ht Hs Hl H1 H2 H3 H4. destruct (nameRe_no_space t (proj1 Ht)) as [Hsp Hne].
  destruct (nameRe_no_space s (proj1 Hs)) as [Hss Hsne].
  assert (table_name ("inet " +:+ t) = Ok t) as Htn.
  { unfold table_name. rewrite decide_False by done.
    change ("inet " +:+ t) with ("inet" +:+ String " "%char t). rewrite StrFields_word by done.
    rewrite StrFields_last by done. rewrite decide_True by done.
    by assert (validName t = Ok tt) as -> by by apply validName_ident. }
  assert (set_name s = Ok s) as Hsn.
  { unfold set_name. rewrite decide_False by done. assert (validName s = Ok tt) as -> by by apply validName_ident.
    rewrite (proj2 (Nat.leb_gt _ _)) by done. rewrite !decide_False by naive_solver. done. }
  unfold Resolve. by rewrite TrimSpace_table, Htn, TrimSpace_no_space, Hsn.
Qed.

Lemma Resolve_facts table set n :
  Resolve table set = Ok n →
  (∃ t, Table n = "inet " +:+ t ∧ ident t) ∧
  Forall ident [Set4 n; Set6 n; Allow4 n; Allow6 n; Feeds4 n; Feeds6 n] ∧
  NoDup [Set4 n; Set6 n; Allow4 n; Allow6 n; Feeds4 n; Feeds6 n] ∧
  Resolve (Table n) (Set4 n) = Ok n.
Proof.
  unfold Resolve at 1. destruct (table_name (TrimSpace table)) as [t|] eqn:Et; [|done].
  destruct (set_name (TrimSpace set)) as [s|] eqn:Es; [|done]. intros [= <-]. cbn [Table Set4 Set6 Allow4 Allow6 Feeds4 Feeds6].
  pose proof (table_name_ident _ _ Et) as Ht. pose proof (set_name_ident _ _ Es) as (Hs & Hl & H1 & H2 & H3 & H4).
  split; [eauto|]. split; [|split].
  - assert (ident "allowed" ∧ ident "allowed6" ∧ ident "blocked_feeds" ∧ ident "blocked_feeds6") as (I1 & I2 & I3 & I4).
    { repeat split; vm_compute; lia. }
    rewrite !Forall_cons, Forall_nil. by eauto 10 using ident_suffix.
  - assert (∀ x, s ≠ x → s +:+ "6" ≠ x +:+ "6") as Hx by (intros x Hx Hc; by apply Hx, suffix_inj).
    pose proof (Hx "allowed" H1) as X1. pose proof (Hx "blocked_feeds" H3) as X2. cbn in X1, X2.
    assert (s ≠ s +:+ "6") as X3.
    { intros H. assert (str_len s = str_len (s +:+ "6")) as Hc by by rewrite <- H. rewrite str_length_app in Hc. simpl in Hc. lia. }
    assert (s +:+ "6" ≠ "allowed" ∧ s +:+ "6" ≠ "blocked_feeds") as [X4 X5].
    { clear. split; intros H; do 14 (destruct s as [|? s]; simpl in H; [discriminate H|]; try discriminate H; injection H as ? H). }
    repeat (apply NoDup_cons_2; [rewrite ?elem_of_cons, elem_of_nil; naive_solver|]). apply NoDup_nil_2.
  - by apply Resolve_resolved.
Qed.

(** Resolved names are safe to splice into a script and never collide: the
    table is "inet" and one identifier, every set name is an identifier of at
    most 32 letters, digits and underscores, the six set names are pairwise
    distinct (a ban set can shadow neither the allowlist nor the feed sets),
    and resolving resolved names again, as the helper does with what the
    daemon sends, gives the same names. *)
Theorem Resolve_safe table set n :
  Resolve table set = Ok n →
  (∃ t, Table n = "inet " +:+ t ∧ ident t) ∧
  Forall ident [Set4 n; Set6 n; Allow4 n; Allow6 n; Feeds4 n; Feeds6 n] ∧
  NoDup [Set4 n; Set6 n; Allow4 n; Allow6 n; Feeds4 n; Feeds6 n] ∧
  Resolve (Table n) (Set4 n) = Ok n.
Proof. apply Resolve_facts. Qed.

Lemma Resolve_safe_witness : Resolve "inet fw" "bad" = Ok (MkNames "inet fw" "bad" "bad6" "allowed" "allowed6" "blocked_feeds" "blocked_feeds6").
Proof. exact (proj2 (proj2 (proj2 (Resolve_safe "fw" " bad " _ eq_refl)))). Defined.
