(* ===== verification/GoTime.v ===== *)
(** [time.ParseDuration] and the decimal helpers around it: standard-library
    code, not mapped to the repository.

    The fraction is exact here; Go scales it in floating point, which differs
    below one nanosecond only. *)
From Stdlib Require Import Ascii.
From S2P Require Import Prelude GoStrings.

(** Leading digits of a text, their value, and the rest; [None] above [2^63]. *)
Fixpoint leadingInt (acc : Z) (s : string) : option (Z * string) :=
  match s with
  | String a s' =>
    match digit_val a with
    | Some d => if 2 ^ 63 `div` 10 <? acc then None
                else if 2 ^ 63 <? acc * 10 + d then None else leadingInt (acc * 10 + d) s'
    | None => Some (acc, s)
    end
  | EmptyString => Some (acc, s)
  end.

(** The digits after the point: value, power of ten, rest.  Digits that no
    longer fit are dropped. *)
Fixpoint leadingFraction (x scale : Z) (overflow : bool) (s : string) : Z * Z * string :=
  match s with
  | String a s' =>
    match digit_val a with
    | Some d =>
      if overflow then leadingFraction x scale true s'
      else if (2 ^ 63 - 1) `div` 10 <? x then leadingFraction x scale true s'
      else if 2 ^ 63 <? x * 10 + d then leadingFraction x scale true s'
      else leadingFraction (x * 10 + d) (scale * 10) false s'
    | None => (x, scale, s)
    end
  | EmptyString => (x, scale, s)
  end.

(** The unit: up to the next digit or point. *)
Fixpoint unit_run (s : string) : string * string :=
  match s with
  | String a s' => if bool_decide (a = "."%char) || bool_decide (digit_val a ≠ None) then (EmptyString, s)
                   else let '(u, r) := unit_run s' in (String a u, r)
  | EmptyString => (EmptyString, s)
  end.

(** "µs" in both code points, as UTF-8 bytes. *)
Definition micro1 : string := String "194" (String "181" "s").
Definition micro2 : string := String "206" (String "188" "s").

Definition unitMap (u : string) : option Z :=
  if decide (u = "ns") then Some Nanosecond else if decide (u = "us" ∨ u = micro1 ∨ u = micro2) then Some Microsecond
  else if decide (u = "ms") then Some Millisecond else if decide (u = "s") then Some Second
  else if decide (u = "m") then Some Minute else if decide (u = "h") then Some Hour else None.

Definition starts_number (s : string) : bool :=
  match s with String a _ => bool_decide (a = "."%char) || bool_decide (digit_val a ≠ None) | EmptyString => false end.

(** One number with its unit: what it adds, and the rest. *)
Definition duration_term (s : string) : option (Z * string) :=
  if negb (starts_number s) then None else
  match leadingInt 0 s with
  | None => None
  | Some (v, s1) =>
    let pre := bool_decide (s1 ≠ s) in
    let '(f, scale, s2, post) :=
      match s1 with
      | String "." s1' => let '(f, scale, s2) := leadingFraction 0 1 false s1' in (f, scale, s2, bool_decide (s2 ≠ s1'))
      | _ => (0, 1, s1, false)
      end in
    if negb (pre || post) then None else
    let '(u, s3) := unit_run s2 in
    match unitMap u with
    | None => None
    | Some unit =>
      if 2 ^ 63 `div` unit <? v then None else
      let v := v * unit + (if 0 <? f then f * unit `div` scale else 0) in
      if 2 ^ 63 <? v then None else Some (v, s3)
    end
  end.

(** The sum of the terms; [fuel] bounds their number by the text's length. *)
Fixpoint duration_terms (fuel : nat) (d : Z) (s : string) : option Z :=
  match s with
  | EmptyString => Some d
  | _ =>
    match fuel with
    | O => None
    | S fuel =>
      match duration_term s with
      | None => None
      | Some (v, s) => if 2 ^ 63 <? d + v then None else duration_terms fuel (d + v) s
      end
    end
  end.

Definition ParseDuration (s : string) : option duration :=
  let '(neg, s) := match s with
                   | String "-" r => (true, r) | String "+" r => (false, r) | _ => (false, s) end in
  if decide (s = "0") then Some 0 else
  if decide (s = EmptyString) then None else
  match duration_terms (str_len s) 0 s with
  | None => None
  | Some d => if neg then Some (- d) else if 2 ^ 63 - 1 <? d then None else Some d
  end.

Example pd1 : ParseDuration "23h59m12s340ms" = Some (((23 * 60 + 59) * 60 + 12) * Second + 340 * Millisecond).
Proof. vm_compute. reflexivity. Qed.
Example pd2 : ParseDuration "1.5h" = Some (90 * Minute) ∧ ParseDuration "-1m" = Some (- Minute) ∧ ParseDuration "3" = None ∧
  ParseDuration "0" = Some 0 ∧ ParseDuration "1d" = None ∧ ParseDuration "9223372036854775808ns" = None.
Proof. vm_compute. done. Qed.

(** Every term takes at least its unit, so the text's length is fuel enough. *)
Lemma leadingInt_length acc s v r : leadingInt acc s = Some (v, r) → (str_len r ≤ str_len s)%nat.
Proof.
  revert acc. induction s as [|a s IH]; intros acc; simpl; [by intros [= _ <-]|].
  destruct (digit_val a); [|by intros [= _ <-]]. destruct (_ <? acc); [done|]. destruct (_ <? _); [done|].
  intros H%IH. lia.
Qed.

Lemma leadingFraction_length x sc o s v c r : leadingFraction x sc o s = (v, c, r) → (str_len r ≤ str_len s)%nat.
Proof.
  revert x sc o. induction s as [|a s IH]; intros x sc o; simpl; [by intros [= _ _ <-]|].
  destruct (digit_val a); [|by intros [= _ _ <-]]. intros H. repeat (case_match; try (apply IH in H; lia)).
Qed.

Lemma unit_run_length s u r : unit_run s = (u, r) → (str_len u + str_len r = str_len s)%nat.
Proof.
  revert u r. induction s as [|a s IH]; intros u r; simpl; [by intros [= <- <-]|].
  destruct (_ || _); [by intros [= <- <-]|]. destruct (unit_run s) as [u' r'] eqn:E. intros [= <- <-].
  specialize (IH _ _ eq_refl). simpl. lia.
Qed.

Lemma duration_term_length s v r : duration_term s = Some (v, r) → (str_len r < str_len s)%nat.
Proof.
  unfold duration_term. destruct (negb _); [done|]. destruct (leadingInt 0 s) as [[w s1]|] eqn:E1; [|done].
  apply leadingInt_length in E1.
  assert (∃ f sc s2 post, match s1 with
      | String "." s1' => let '(f, scale, s2) := leadingFraction 0 1 false s1' in (f, scale, s2, bool_decide (s2 ≠ s1'))
      | _ => (0, 1, s1, false) end = (f, sc, s2, post) ∧ (str_len s2 ≤ str_len s1)%nat) as (f & sc & s2 & post & -> & Hl).
  { destruct s1 as [|c t]; [by do 4 eexists|].
    destruct (decide (c = "."%char)) as [->|Hc].
    - destruct (leadingFraction 0 1 false t) as [[f sc] s2] eqn:E. apply leadingFraction_length in E.
      do 4 eexists. split; [done|]. simpl. lia.
    - exists 0, 1, (String c t), false. split; [|done]. destruct c as [[] [] [] [] [] [] [] []]; done. }
  destruct (negb _); [done|]. destruct (unit_run s2) as [u s3] eqn:E3. apply unit_run_length in E3.
  destruct (unitMap u) as [un|] eqn:Eu; [|done]. destruct (_ <? w); [done|]. destruct (_ <? _); [done|].
  intros [= _ <-]. destruct u as [|c u]; [done|]. simpl in E3. lia.
Qed.

Lemma duration_terms_fuel n m d s : (str_len s ≤ n)%nat → (str_len s ≤ m)%nat →
  duration_terms n d s = duration_terms m d s.
Proof.
  revert m d s. induction n as [|n IH]; intros m d s Hn Hm.
  { destruct s; [|simpl in Hn; lia]. by destruct m. }
  destruct s as [|a s]; [by destruct m|]. destruct m as [|m]; [simpl in Hm; lia|].
  cbn [duration_terms]. destruct (duration_term (String a s)) as [[v r]|] eqn:E; [|done].
  apply duration_term_length in E. destruct (_ <? _); [done|]. apply IH; lia.
Qed.
