(* ===== verification/NftScript.v ===== *)
(** What the privileged helper says to nftables and reads back:
    [internal/enforcerd/nft.go] (script generation, error signals, listing
    parser) and the wire types of [internal/enforce/protocol.go].

    A script is a list of statements; [render] is the text handed to [nft -f].
    Running one is a parameter of the model, in Helper.v. *)
From Stdlib Require Import Ascii.
From S2P Require Import Prelude GoStrings GoTime Netip NetipParse NetipShow NftNames.

Definition NL : ascii := "010"%char.
Definition nl : string := String NL EmptyString.

(** ** Statements *)
Inductive stmt :=
| AddTable (tb : string)
| DelTable (tb : string)
| AddSet (tb set ty flags : string)
| DelSet (tb set : string)
| AddChain (tb chain prio : string)
| FlushChain (tb chain : string)
| AddRule (tb chain fam set verdict : string)
| AddElement (tb set : string) (els : list (string * Z))
| DelElement (tb set ip : string)
| FlushSet (tb set : string).

(** [ip timeout Ns], or [ip] alone when permanent. *)
Definition entry (e : string * Z) : string :=
  if 0 <? e.2 then e.1 +:+ " timeout " +:+ show_Z e.2 +:+ "s" else e.1.

Definition render1 (s : stmt) : string :=
  match s with
  | AddTable tb => "add table " +:+ tb
  | DelTable tb => "delete table " +:+ tb
  | AddSet tb set ty flags => "add set " +:+ tb +:+ " " +:+ set +:+ " { type " +:+ ty +:+ " ; flags " +:+ flags +:+ " ; }"
  | DelSet tb set => "delete set " +:+ tb +:+ " " +:+ set
  | AddChain tb c prio =>
      "add chain " +:+ tb +:+ " " +:+ c +:+ " { type filter hook " +:+ c +:+ " priority " +:+ prio +:+ " ; policy accept ; }"
  | FlushChain tb c => "flush chain " +:+ tb +:+ " " +:+ c
  | AddRule tb c fam set v => "add rule " +:+ tb +:+ " " +:+ c +:+ " " +:+ fam +:+ " saddr @" +:+ set +:+ " " +:+ v
  | AddElement tb set els => "add element " +:+ tb +:+ " " +:+ set +:+ " { " +:+ Join (entry <$> els) ", " +:+ " }"
  | DelElement tb set ip => "delete element " +:+ tb +:+ " " +:+ set +:+ " { " +:+ ip +:+ " }"
  | FlushSet tb set => "flush set " +:+ tb +:+ " " +:+ set
  end.

Definition render (sc : list stmt) : string := foldr (λ s t, render1 s +:+ nl +:+ t) EmptyString sc.

(** ** The layout *)
Definition blockedSetDecl (n : Names) (set family : string) : stmt := AddSet (Table n) set family "interval,timeout".

(** Accept before drop in one chain. *)
Definition drop_pair (n : Names) (chain : string) (notrack : bool) (s4 s6 : string) : list stmt :=
  (if notrack then [AddRule (Table n) chain "ip" s4 "notrack"; AddRule (Table n) chain "ip6" s6 "notrack"] else []) ++
  [AddRule (Table n) chain "ip" s4 "drop"; AddRule (Table n) chain "ip6" s6 "drop"].

Definition chain_layout (n : Names) (chain prio : string) (notrack : bool) : list stmt :=
  [AddChain (Table n) chain prio; FlushChain (Table n) chain;
   AddRule (Table n) chain "ip" (Allow4 n) "accept"; AddRule (Table n) chain "ip6" (Allow6 n) "accept"] ++
  drop_pair n chain notrack (Set4 n) (Set6 n) ++ drop_pair n chain notrack (Feeds4 n) (Feeds6 n).

Definition initTableScript (n : Names) : list stmt :=
  [AddTable (Table n); blockedSetDecl n (Set4 n) "ipv4_addr"; blockedSetDecl n (Set6 n) "ipv6_addr";
   AddSet (Table n) (Allow4 n) "ipv4_addr" "interval ; auto-merge"; AddSet (Table n) (Allow6 n) "ipv6_addr" "interval ; auto-merge";
   AddSet (Table n) (Feeds4 n) "ipv4_addr" "interval,timeout ; auto-merge";
   AddSet (Table n) (Feeds6 n) "ipv6_addr" "interval,timeout ; auto-merge"] ++
  chain_layout n "prerouting" "raw" true ++ chain_layout n "input" "filter" false ++ chain_layout n "forward" "filter" false.

(** ** Elements *)
Definition setForIPIn (ip set4 set6 : string) : option string :=
  let pick a := if Is4 a || Is4In6 a then set4 else set6 in
  match ParseAddr ip with
  | Some a => Some (pick a)
  | None => pick ∘ paddr <$> ParsePrefix ip
  end.
Definition setForIP (n : Names) (ip : string) : option string := setForIPIn ip (Set4 n) (Set6 n).
Definition allowSetForIP (n : Names) (ip : string) : option string := setForIPIn ip (Allow4 n) (Allow6 n).

Record FeedElement := MkFeed { f_IP : string; f_TTL : Z }.
Definition MaxFeedElements : Z := 100000.

(** At most [n] entries to an [add element] line. *)
Fixpoint chunks {A} (fuel n : nat) (l : list A) : list (list A) :=
  match fuel, l with
  | S fuel, _ :: _ => take n l :: chunks fuel n (drop n l)
  | _, _ => []
  end.
Definition writeChunks (n : Names) (set : string) (es : list (string * Z)) : list stmt :=
  AddElement (Table n) set <$> chunks (length es) 512 es.

Definition feed_entries (v4 : bool) (els : list FeedElement) : list (string * Z) :=
  (λ e, (f_IP e, f_TTL e)) <$>
    List.filter (λ e, bool_decide (setForIPIn (f_IP e) "4" "6" = Some (if v4 then "4" else "6"))) els.

(** [None] when an element names no address. *)
Definition nftFeedsSync (n : Names) (els : list FeedElement) : option (list stmt) :=
  if forallb (λ e, bool_decide (setForIPIn (f_IP e) "4" "6" ≠ None)) els
  then Some ([FlushSet (Table n) (Feeds4 n); FlushSet (Table n) (Feeds6 n)] ++
             writeChunks n (Feeds4 n) (feed_entries true els) ++ writeChunks n (Feeds6 n) (feed_entries false els))
  else None.

Definition nftFlush (n : Names) : list stmt := [FlushSet (Table n) (Set4 n); FlushSet (Table n) (Set6 n)].
Definition nftFlushAllow (n : Names) : list stmt := [FlushSet (Table n) (Allow4 n); FlushSet (Table n) (Allow6 n)].

(** ** nft's answers *)
Definition nftAbsentSignals : list string := ["not found in set"; "element does not exist"; "No such file or directory"].
Definition nftOverlapSignals : list string := ["interval overlaps with an existing one"; "conflicting intervals specified"].
Definition isNftAbsentErr (msg : string) : bool := existsb (str_contains msg) nftAbsentSignals.
Definition isNftOverlapErr (msg : string) : bool := existsb (str_contains msg) nftOverlapSignals.

(** ** Listings *)

(** A text after the first [sub]. *)
Fixpoint after_first (sub s : string) : option string :=
  if has_prefix sub s then Some (str_drop (str_len sub) s)
  else match s with EmptyString => None | String _ s => after_first sub s end.

Definition parseNftDuration (s : string) : option duration :=
  match cut "d" s with
  | (d, Some r) =>
    match ParseUint10 32 d with
    | None => None
    | Some n =>
      let days := wrap64 (n * (24 * Hour)) in
      if decide (r = EmptyString) then Some days
      else (λ x, wrap64 (days + x)) <$> ParseDuration r
    end
  | (_, None) => ParseDuration s
  end.

(** The value after [key]; one second when it is not a duration. *)
Fixpoint annotation (key : string) (l : list string) : option duration :=
  match l with
  | k :: ((v :: _) as l') => if decide (k = key) then Some (default Second (parseNftDuration v)) else annotation key l'
  | _ => None
  end.

Definition elemTTL (annotations : list string) : duration :=
  match annotation "expires" annotations with
  | Some d => d
  | None => default 0 (annotation "timeout" annotations)
  end.

Record setElem := MkElem { e_ip : string; e_ttl : duration }.

Definition parse_element (part : string) : option (setElem + string) :=
  match StrFields (TrimSpace part) with
  | [] => None
  | tok :: ann =>
    Some (match ParseAddr tok with
          | Some _ => inl (MkElem tok (elemTTL ann))
          | None => match ParsePrefix tok with
                    | Some p => inl (MkElem (show_prefix p) (elemTTL ann))
                    | None => inr tok
                    end
          end)
  end.

(** The elements, and the tokens that are none. *)
Definition parseSetElementsDetail (out : string) : list setElem * list string :=
  match after_first "elements = {" out with
  | None => ([], [])
  | Some r =>
    match cut "}" r with
    | (block, Some _) =>
      let es := omap parse_element (split_on "," block) in
      (omap (λ e, match e with inl x => Some x | inr _ => None end) es,
       omap (λ e, match e with inl _ => None | inr x => Some x end) es)
    | (_, None) => ([], [])
    end
  end.
Definition parseSetElements (out : string) : list setElem := (parseSetElementsDetail out).1.

Definition has_auto_merge_line (out : string) : bool :=
  existsb (λ l, bool_decide (TrimSpace l = "auto-merge")) (split_on NL out).

(** A remaining lifetime in whole seconds, rounded up. *)
Definition ceil_seconds (d : duration) : Z := - ((- d) `div` Second).
Example ceil_up : ceil_seconds 1 = 1 ∧ ceil_seconds Second = 1 ∧ ceil_seconds (Second + 1) = 2.
Proof. vm_compute. done. Qed.

Definition migrateAutoMergeScript (n : Names) (set : string) (els : list setElem) : list stmt :=
  [FlushChain (Table n) "prerouting"; FlushChain (Table n) "input"; FlushChain (Table n) "forward"; DelSet (Table n) set] ++
  initTableScript n ++
  ((λ el, AddElement (Table n) set [(e_ip el, if 0 <? e_ttl el then ceil_seconds (e_ttl el) else 0)]) <$> els).

Example listing_parsed :
  parseSetElements ("table inet ezyshield {" +:+ nl +:+ " set blocked {" +:+ nl +:+ "  elements = { 192.0.2.1, 198.51.100.0/24 timeout 1d expires 23h59m12s," +:+ nl +:+ " 203.0.113.1-203.0.113.9, 203.0.113.50 expires what }" +:+ nl +:+ "}}")
  = [MkElem "192.0.2.1" 0; MkElem "198.51.100.0/24" ((23 * 60 + 59) * Minute + 12 * Second); MkElem "203.0.113.50" Second].
Proof. vm_compute. reflexivity. Qed.

Example layout_text :
  str_take 96 (render (initTableScript defaultNames)) =
  "add table inet ezyshield" +:+ nl +:+ "add set inet ezyshield blocked { type ipv4_addr ; flags interval,timeou".
Proof. vm_compute. reflexivity. Qed.
Example add_text :
  render [AddElement "inet ezyshield" "blocked" [("192.0.2.1", 60)]] = "add element inet ezyshield blocked { 192.0.2.1 timeout 60s }" +:+ nl.
Proof. vm_compute. reflexivity. Qed.
