(* ===== verification/Helper.v ===== *)
(** The privileged helper: [internal/enforcerd/server.go], [automerge.go],
    [socket_kill.go] and the nft calls of [nft.go].

    [dispatch] runs in a world with the server's own fields, the kernel and the
    socket teardowns it asked for.  The kernel is a parameter ([Nft]): what
    running a script and listing a set do to it.  Mutations hold [mutateMu]
    from the first script to the cache write, so a request is one step; its
    clock readings and the order Go maps are walked in are its [env]. *)
From Stdlib Require Import Ascii.
From S2P Require Import Prelude GoStrings Netip NetipParse NftNames NftScript Canon.

(** nft, as the helper uses it: a script fails with its message and may not, and
    a listing fails with its standard error. *)
Class Nft (K : Type) := {
  run : time → list stmt → K → option string * K;
  listSetOutput : time → string → string → K → result string string
}.

Record Request := MkRequest {
  Verb : string; r_IP : string; TTLSeconds : Z; r_Table : string; r_Set : string; Elements : list FeedElement
}.

Inductive helper_error :=
| EUnknownVerb | EIPRequired | EInvalidIP | ETooManyElements | EFeedIP | EFeedTTL
| ENames (e : name_error) | EPinned
| ENft (msg : string) | EElementAbsent | ECovered | EAbsorb (msg : string) | EList (msg : string).

#[export] Instance helper_error_eq_dec : EqDecision helper_error.
Proof. solve_decision. Defined.

Inductive code := NoCode | CodeAlreadyAbsent | CodeCoveredByInterval.

#[export] Instance code_eq_dec : EqDecision code.
Proof. solve_decision. Defined.

Record Response := MkResponse { OK : bool; Error : option helper_error; Code : code; IPs : list string; Features : list string }.

Definition ok : Response := MkResponse true None NoCode [] [].
Definition ok_code (c : code) : Response := MkResponse true None c [] [].
Definition failed (e : helper_error) : Response := MkResponse false (Some e) NoCode [] [].

(** [blocked]: deadline of each cached element, [None] when permanent. *)
Record Server := MkServer { blocked : gmap string (option time); names : Names; pinned : bool }.

Definition NewServer : Server := MkServer ∅ defaultNames false.

(** The clock at the scripts, at [time.Until], at the rollback script and at the
    cache write, and the order a map's keys come in. *)
Record env := MkEnv {
  t_exec : time; t_until : time; t_restore : time; t_now : time;
  order : list string → list string
}.

Definition validVerbs : list string :=
  ["add"; "del"; "flush"; "list"; "ping"; "caps"; "allow_add"; "allow_del"; "allow_list"; "allow_flush"; "feeds_sync"; "netcheck"].

Definition validateIP (ip : string) : option helper_error :=
  if decide (ip = EmptyString) then Some EIPRequired else
  match ParseAddr ip with
  | Some _ => None
  | None => match ParsePrefix ip with Some _ => None | None => Some EInvalidIP end
  end.

Definition ssFilterValue (a : addr) : string :=
  let a := if Is4In6 a then Unmap a else a in
  match a with Addr6 v _ => show_addr (Addr6 v EmptyString) +:+ "/128" | _ => show_addr a end.

Definition deadline (now : time) (ttl : duration) : option time := if ttl <=? 0 then None else Some (now + ttl).

(** [!dl.IsZero() && now.After(dl)]. *)
Definition stale (now : time) (dl : option time) : bool := match dl with None => false | Some d => d <? now end.

Definition elemsOfFamily (els : list setElem) (v4 : bool) : list setElem :=
  List.filter (λ el,
    match ParseAddr (e_ip el), ParsePrefix (e_ip el) with
    | Some a, _ => Bool.eqb (Is4 a) v4
    | None, Some p => Bool.eqb (Is4 (paddr p)) v4
    | None, None => false
    end) els.

Section helper.
Context {K : Type} `{Nft K}.

Record world := MkWorld { srv : Server; kern : K; torn : list string }.

(** ** A state monad over the world *)
Definition hlp (A : Type) : Type := world → A * world.
#[local] Instance hlp_mret : MRet hlp := λ A x w, (x, w).
#[local] Instance hlp_mbind : MBind hlp := λ A B k m w, let '(x, w') := m w in k x w'.

Definition get_srv : hlp Server := λ w, (srv w, w).
Definition cache (f : gmap string (option time) → gmap string (option time)) : hlp unit := λ w,
  (tt, MkWorld (MkServer (f (blocked (srv w))) (names (srv w)) (pinned (srv w))) (kern w) (torn w)).
Definition set_names (n : Names) (pin : bool) : hlp unit := λ w,
  (tt, MkWorld (MkServer (blocked (srv w)) n pin) (kern w) (torn w)).

(** ** nft calls *)
Definition nft (t : time) (sc : list stmt) : hlp (option string) := λ w,
  let '(r, k) := run t sc (kern w) in (r, MkWorld (srv w) k (torn w)).

Definition nft_result (t : time) (sc : list stmt) : hlp (option helper_error) :=
  r ← nft t sc; mret (ENft <$> r).

Definition nftAdd (t : time) (n : Names) (ip : string) (ttl : Z) : hlp (option helper_error) :=
  match setForIP n ip with
  | None => mret (Some EInvalidIP)
  | Some set => nft_result t [AddElement (Table n) set [(ip, if 0 <? ttl then ttl else 0)]]
  end.

Definition nft_delete (t : time) (n : Names) (set : option string) (ip : string) : hlp (option helper_error) :=
  match set with
  | None => mret (Some EInvalidIP)
  | Some set =>
    r ← nft t [DelElement (Table n) set ip];
    mret (match r with
          | None => None
          | Some m => Some (if isNftAbsentErr m then EElementAbsent else ENft m)
          end)
  end.

Definition nftDel (t : time) (n : Names) (ip : string) := nft_delete t n (setForIP n ip) ip.
Definition nftDelAllow (t : time) (n : Names) (ip : string) := nft_delete t n (allowSetForIP n ip) ip.

Definition nftAddAllow (t : time) (n : Names) (ip : string) : hlp (option helper_error) :=
  match allowSetForIP n ip with
  | None => mret (Some EInvalidIP)
  | Some set => nft_result t [AddElement (Table n) set [(ip, 0)]]
  end.

Definition listSet (t : time) (n : Names) (set : string) : hlp (result helper_error (list setElem)) := λ w,
  (match listSetOutput t (Table n) set (kern w) with
   | Ok out => Ok (parseSetElements out)
   | Err m => if isNftAbsentErr m then Ok [] else Err (EList m)
   end, w).

Definition list_both (t : time) (n : Names) (set4 set6 : string) : hlp (result helper_error (list setElem)) :=
  r4 ← listSet t n set4;
  match r4 with
  | Err e => mret (Err e)
  | Ok l4 => r6 ← listSet t n set6;
             mret (match r6 with Ok l6 => Ok (l4 ++ l6) | Err e => Err e end)
  end.

Definition nftList (t : time) (n : Names) := list_both t n (Set4 n) (Set6 n).
Definition nftListAllow (t : time) (n : Names) := list_both t n (Allow4 n) (Allow6 n).

Definition setHasAutoMerge (t : time) (n : Names) (set : string) : hlp (result helper_error bool) := λ w,
  (match listSetOutput t (Table n) set (kern w) with
   | Ok out => Ok (has_auto_merge_line out)
   | Err m => if isNftAbsentErr m then Ok false else Err (EList m)
   end, w).

(** ** Loading a table *)
Definition migrate_set (t : time) (n : Names) (set : string) : hlp (option helper_error) :=
  has ← setHasAutoMerge t n set;
  match has with
  | Err e => mret (Some e)
  | Ok false => mret None
  | Ok true =>
    all ← nftList t n;
    match all with
    | Err e => mret (Some e)
    | Ok l => nft_result t (migrateAutoMergeScript n set (elemsOfFamily l (bool_decide (set = Set4 n))))
    end
  end.

Definition migrateAutoMerge (t : time) (n : Names) : hlp (option helper_error) :=
  e ← migrate_set t n (Set4 n);
  match e with Some e => mret (Some e) | None => migrate_set t n (Set6 n) end.

(** Table layout, migration, listing: what both boot and a name switch do. *)
Definition load_table (v : env) (n : Names) : hlp (result helper_error (list setElem)) :=
  e ← nft_result (t_exec v) (initTableScript n);
  match e with
  | Some e => mret (Err e)
  | None =>
    e ← migrateAutoMerge (t_exec v) n;
    match e with Some e => mret (Err e) | None => nftList (t_exec v) n end
  end.

Definition cache_elems (now : time) (els : list setElem) (m : gmap string (option time)) : gmap string (option time) :=
  foldl (λ m el, <[e_ip el := deadline now (e_ttl el)]> m) m els.

Definition Init (v : env) : hlp (option helper_error) :=
  s ← get_srv;
  r ← load_table v (names s);
  match r with
  | Err e => mret (Some e)
  | Ok els => _ ← cache (cache_elems (t_now v) els); mret None
  end.

Definition switchNamesLocked (v : env) (want : Names) : hlp (option helper_error) :=
  s ← get_srv;
  r ← load_table v want;
  match r with
  | Err e => mret (Some e)
  | Ok els =>
    _ ← cache (λ _, cache_elems (t_now v) els ∅);
    _ ← set_names want true;
    _ ← (if IsDefault (names s) then nft (t_exec v) [DelTable (Table (names s))] else mret None);
    mret None
  end.

Definition resolveNames (v : env) (req : Request) : hlp (result helper_error Names) :=
  match Resolve (r_Table req) (r_Set req) with
  | Err e => mret (Err (ENames e))
  | Ok want =>
    s ← get_srv;
    if decide (want = names s) then _ ← set_names want true; mret (Ok want)
    else if pinned s then mret (Err EPinned)
    else e ← switchNamesLocked v want;
         mret (match e with Some e => Err e | None => Ok want end)
  end.

(** ** Adding *)

(** The cached elements a prefix covers. *)
Definition contained (p : prefix) (key : string) : bool :=
  match ParseAddr key with
  | Some a => if Contains p a then true
              else match ParsePrefix key with Some q => Overlaps p q && (pbits p <=? pbits q) | None => false end
  | None => match ParsePrefix key with Some q => Overlaps p q && (pbits p <=? pbits q) | None => false end
  end.

Fixpoint absorb (v : env) (n : Names) (ks : list string) : hlp (option helper_error) :=
  match ks with
  | [] => mret None
  | k :: ks =>
    e ← nftDel (t_exec v) n k;
    match e with
    | None | Some EElementAbsent => _ ← cache (delete k); absorb v n ks
    | Some (ENft m) => mret (Some (EAbsorb m))
    | Some e => mret (Some e)
    end
  end.

Definition addOverlapping (v : env) (n : Names) (ip : string) (ttl : Z) : hlp (option helper_error) :=
  match ParseAddr ip with
  | Some _ => mret (Some ECovered)
  | None =>
    let p := default PrefixNone (ParsePrefix ip) in
    s ← get_srv;
    e ← absorb v n (List.filter (contained p) (order v ((map_to_list (blocked s)).*1)));
    match e with
    | Some e => mret (Some e)
    | None => nftAdd (t_exec v) n ip ttl
    end
  end.

(** The whole seconds a rolled-back element gets. *)
Definition restoreTTL (v : env) (old : option time) : Z :=
  match old with
  | None => 0
  | Some d => Z.max (d - t_until v) Second `quot` Second
  end.

Definition rollback (v : env) (n : Names) (ip : string) (old : option (option time)) : hlp unit :=
  match old with
  | None => mret tt
  | Some dl =>
    e ← nftAdd (t_restore v) n ip (restoreTTL v dl);
    match e with Some _ => cache (delete ip) | None => mret tt end
  end.

(** The kernel's answer to an add: the old element is deleted first. *)
Definition replace (v : env) (n : Names) (ip : string) (ttl : Z) (old : option (option time)) : hlp (bool * option helper_error) :=
  d ← (match old with None => mret None | Some _ => nftDel (t_exec v) n ip end);
  match d with
  | None | Some EElementAbsent =>
    e ← nftAdd (t_exec v) n ip ttl;
    e ← (match e with
         | Some (ENft m) => if isNftOverlapErr m then addOverlapping v n ip ttl else mret e
         | _ => mret e
         end);
    mret (true, e)
  | Some e => mret (false, Some e)
  end.

Definition killSocketsForIP (ip : string) : hlp unit := λ w,
  match ParseAddr ip with
  | Some a => (tt, MkWorld (srv w) (kern w) (torn w ++ [ssFilterValue a]))
  | None => (tt, w)
  end.

Definition handle_add (v : env) (n : Names) (ip : string) (ttl : Z) : hlp Response :=
  s ← get_srv;
  let old := blocked s !! ip in
  r ← replace v n ip ttl old;
  match r with
  | (false, e) => mret (failed (default EElementAbsent e))
  | (true, None) =>
    _ ← cache (<[ip := deadline (t_now v) (wrap64 (ttl * Second))]>);
    _ ← killSocketsForIP ip;
    mret ok
  | (true, Some ECovered) =>
    _ ← cache (delete ip);
    _ ← killSocketsForIP ip;
    mret (ok_code CodeCoveredByInterval)
  | (true, Some e) => _ ← rollback v n ip old; mret (failed e)
  end.

Definition handle_del (v : env) (n : Names) (ip : string) : hlp Response :=
  e ← nftDel (t_exec v) n ip;
  match e with
  | None => _ ← cache (delete ip); mret ok
  | Some EElementAbsent => _ ← cache (delete ip); mret (ok_code CodeAlreadyAbsent)
  | Some e => mret (failed e)
  end.

Definition handle_list (v : env) : hlp Response :=
  s ← get_srv;
  let live := filter (λ kd : string * option time, stale (t_now v) kd.2 = false) (blocked s) in
  _ ← cache (λ _, live);
  mret (MkResponse true None NoCode (order v ((map_to_list live).*1)) []).

Definition answer (e : option helper_error) : Response := match e with None => ok | Some e => failed e end.

Definition handle_feeds (v : env) (n : Names) (els : list FeedElement) : hlp Response :=
  if MaxFeedElements <? Z.of_nat (length els) then mret (failed ETooManyElements) else
  match List.find (λ e, bool_decide (validateIP (f_IP e) ≠ None) || (f_TTL e <=? 0)) els with
  | Some e => mret (failed (if decide (validateIP (f_IP e) = None) then EFeedTTL else EFeedIP))
  | None =>
    match nftFeedsSync n els with
    | None => mret (failed EInvalidIP)
    | Some sc => e ← nft_result (t_exec v) sc; mret (answer e)
    end
  end.

(** The handlers of a verb that touches nft, under the names the request resolved to. *)
Definition dispatch_verb (v : env) (n : Names) (req : Request) : hlp Response :=
  let verb := Verb req in
  let with_ip (f : string → hlp Response) : hlp Response :=
    match validateIP (r_IP req) with Some e => mret (failed e) | None => f (CanonicalIPKey (r_IP req)) end in
  if decide (verb = "feeds_sync") then handle_feeds v n (Elements req) else
  if decide (verb = "netcheck") then
    r ← nftList (t_exec v) n; mret (match r with Ok _ => ok | Err e => failed e end) else
  if decide (verb = "list") then handle_list v else
  if decide (verb = "flush") then
    e ← nft_result (t_exec v) (nftFlush n);
    match e with Some e => mret (failed e) | None => _ ← cache (λ _, ∅); mret ok end else
  if decide (verb = "add") then with_ip (λ ip, handle_add v n ip (TTLSeconds req)) else
  if decide (verb = "del") then with_ip (handle_del v n) else
  if decide (verb = "allow_add") then with_ip (λ ip, e ← nftAddAllow (t_exec v) n ip; mret (answer e)) else
  if decide (verb = "allow_del") then
    with_ip (λ ip, e ← nftDelAllow (t_exec v) n ip;
      mret (match e with
            | None => ok
            | Some EElementAbsent => ok_code CodeAlreadyAbsent
            | Some e => failed e end)) else
  if decide (verb = "allow_list") then
    r ← nftListAllow (t_exec v) n;
    mret (match r with Ok l => MkResponse true None NoCode (e_ip <$> l) [] | Err e => failed e end) else
  if decide (verb = "allow_flush") then e ← nft_result (t_exec v) (nftFlushAllow n); mret (answer e)
  else mret (failed EUnknownVerb).

Definition dispatch (v : env) (req : Request) : hlp Response :=
  if negb (bool_decide (Verb req ∈ validVerbs)) then mret (failed EUnknownVerb) else
  if decide (Verb req = "ping") then mret ok else
  if decide (Verb req = "caps") then mret (MkResponse true None NoCode [] ["custom_names"; "feeds_sync"]) else
  n ← resolveNames v req;
  match n with
  | Err e => mret (failed e)
  | Ok n => dispatch_verb v n req
  end.
End helper.
Arguments world K : clear implicits.
