(* ===== verification/HelperSafety.v ===== *)
(** The helper's cache never claims what the kernel does not hold.

    nft is any kernel that meets [NftLaws]: a script applies as one transaction
    with the documented effect of its statements, or fails and changes nothing;
    a listing shows elements the set holds with their remaining lifetimes. *)
From Stdlib Require Import Ascii.
From S2P Require Import Prelude GoStrings Netip NetipParse NetipShow NftNames NftScript Canon Helper.

(** Deadline of each element of each set, [None] when permanent. *)
Abbreviation kview := (gmap (string * string * string) (option time)) (only parsing).

Definition in_set (tb set : string) (k : string * string * string) : Prop := k.1 = (tb, set).
#[export] Instance in_set_dec tb set k : Decision (in_set tb set k).
Proof. unfold in_set. apply _. Defined.

Definition kernel_deadline (t : time) (ttl : Z) : option time := if 0 <? ttl then Some (t + ttl * Second) else None.

(** The effect of one statement at [t]. *)
Definition effect (t : time) (m : kview) (s : stmt) : kview :=
  match s with
  | AddElement tb set els => foldl (λ m e, <[(tb, set, e.1) := kernel_deadline t e.2]> m) m els
  | DelElement tb set ip => delete (tb, set, ip) m
  | FlushSet tb set | DelSet tb set => filter (λ kv, ¬ in_set tb set kv.1) m
  | DelTable tb => filter (λ kv, kv.1.1.1 ≠ tb) m
  | _ => m
  end.

Class NftLaws (K : Type) `{Nft K} := {
  elems : K → kview;
  run_fail t sc k m k' : run t sc k = (Some m, k') → elems k' = elems k;
  run_ok t sc k k' : run t sc k = (None, k') → elems k' = foldl (effect t) (elems k) sc;
  list_sound t tb set k out el : listSetOutput t tb set k = Ok out → el ∈ parseSetElements out →
    ∃ d, elems k !! (tb, set, e_ip el) = Some d ∧
      match d with None => True | Some x => 0 < e_ttl el ∧ t + e_ttl el <= x + Second end
}.

(** ** The invariant *)
Section inv.
Variables (slack : Z).

(** A cached deadline never outlives the kernel's by more than the slack. *)
Definition outlives (dl kd : option time) : Prop :=
  match kd, dl with None, _ => True | Some x, Some d => d <= x + slack | Some _, None => False end.

Definition holds (n : Names) (E : kview) (ip : string) (kd : option time) : Prop :=
  E !! (Table n, Set4 n, ip) = Some kd ∨ E !! (Table n, Set6 n, ip) = Some kd.

Definition inv (b : gmap string (option time)) (n : Names) (E : kview) : Prop :=
  ∀ ip dl, b !! ip = Some dl → ∃ kd, holds n E ip kd ∧ outlives dl kd.

Lemma inv_empty n E : inv ∅ n E.
Proof. intros ip dl H. by rewrite lookup_empty in H. Qed.

Lemma inv_mono b b' n E : b' ⊆ b → inv b n E → inv b' n E.
Proof. intros Hs Hi ip dl H. apply Hi. by eapply lookup_weaken. Qed.

Lemma inv_same b n E E' :
  (∀ ip, is_Some (b !! ip) → E' !! (Table n, Set4 n, ip) = E !! (Table n, Set4 n, ip) ∧
                              E' !! (Table n, Set6 n, ip) = E !! (Table n, Set6 n, ip)) →
  inv b n E → inv b n E'.
Proof.
  intros Hs Hi ip dl H. destruct (Hi ip dl H) as (kd & Hk & Ho). exists kd. split; [|done].
  destruct (Hs ip) as [H4 H6]; [by eexists|]. unfold holds. by rewrite H4, H6.
Qed.

(** Statements about one address leave the others alone. *)
Lemma inv_one b n E E' ip :
  (∀ tb s x, x ≠ ip → E' !! (tb, s, x) = E !! (tb, s, x)) → inv (delete ip b) n E → inv (delete ip b) n E'.
Proof.
  intros Hs. apply inv_same. intros x [dl Hx]. apply lookup_delete_Some in Hx as [Hx _]. by rewrite !Hs.
Qed.

Lemma inv_insert b n E ip dl kd :
  inv (delete ip b) n E → holds n E ip kd → outlives dl kd → inv (<[ip := dl]> b) n E.
Proof.
  intros Hi Hh Ho x d Hx. destruct (decide (x = ip)) as [->|Hne].
  - rewrite lookup_insert_eq in Hx. simplify_eq. eauto.
  - rewrite lookup_insert_ne in Hx by done. apply Hi. by rewrite lookup_delete_ne.
Qed.
End inv.

(** ** Effects of the scripts the helper runs *)
Lemma effect_add t m tb set ip ttl : foldl (effect t) m [AddElement tb set [(ip, ttl)]] = <[(tb, set, ip) := kernel_deadline t ttl]> m.
Proof. done. Qed.

Definition touches (tb set : string) (s : stmt) : bool :=
  match s with
  | AddElement tb' s' _ | DelElement tb' s' _ | FlushSet tb' s' | DelSet tb' s' => bool_decide (tb' = tb ∧ s' = set)
  | DelTable tb' => bool_decide (tb' = tb)
  | _ => false
  end.

Lemma effect_untouched t m s tb set ip : touches tb set s = false → effect t m s !! (tb, set, ip) = m !! (tb, set, ip).
Proof.
  destruct s as [| |tb' s' ? ?|tb' s'| | | |tb' s' els|tb' s' x|tb' s']; simpl; try done; intros Hb; apply bool_decide_eq_false_1 in Hb.
  - rewrite map_lookup_filter. destruct (m !! _); simpl; [|done]. rewrite option_guard_True; [done|]. simpl. naive_solver.
  - rewrite map_lookup_filter. destruct (m !! _); simpl; [|done]. rewrite option_guard_True; [done|].
    unfold in_set. simpl. naive_solver.
  - revert m. induction els as [|e els IH]; intros m; simpl; [done|]. rewrite IH. apply lookup_insert_ne. naive_solver.
  - apply lookup_delete_ne. naive_solver.
  - rewrite map_lookup_filter. destruct (m !! _); simpl; [|done]. rewrite option_guard_True; [done|].
    unfold in_set. simpl. naive_solver.
Qed.

Lemma effects_untouched t sc m tb set ip :
  existsb (touches tb set) sc = false → foldl (effect t) m sc !! (tb, set, ip) = m !! (tb, set, ip).
Proof.
  revert m. induction sc as [|s sc IH]; intros m; simpl; [done|].
  intros [Hs Hsc]%orb_false_iff. rewrite IH by done. by apply effect_untouched.
Qed.

Lemma effect_del t m tb set ip x s tb' : x ≠ ip →
  foldl (effect t) m [DelElement tb set ip] !! (tb', s, x) = m !! (tb', s, x).
Proof. intros. simpl. apply lookup_delete_ne. congruence. Qed.

Lemma touches_layout n tb set : existsb (touches tb set) (initTableScript n) = false.
Proof. done. Qed.

(** ** Well-formed servers: names out of [Resolve] *)
Definition resolved (n : Names) : Prop := ∃ t s, Resolve t s = Ok n.

Lemma resolved_distinct n : resolved n →
  NoDup [Set4 n; Set6 n; Allow4 n; Allow6 n; Feeds4 n; Feeds6 n].
Proof. intros (t & s & H). by apply Resolve_facts in H as (_ & _ & ? & _). Qed.

Section safety.
Context {K : Type} `{NftLaws K}.
Variables (lag : Z).
Hypothesis (Hlag : 0 <= lag).

Abbreviation slack := (lag + Second).
Abbreviation inv := (inv slack).
Implicit Types (w : world K) (v : env).

(** The clocks of one request: scripts, then the cache write at most [lag]
    later; a rollback is not before the lifetime it restores was read. *)
Definition clocks v : Prop :=
  t_exec v <= t_now v <= t_exec v + lag ∧ t_until v <= t_restore v ∧ ∀ l x, x ∈ order v l → x ∈ l.

Definition E w : gmap (string * string * string) (option time) := elems (kern w).
Definition B w := blocked (srv w).
Definition np w := (names (srv w), pinned (srv w)).

(** One script. *)
Lemma nft_spec t sc w r w' : nft t sc w = (r, w') →
  srv w' = srv w ∧ (r = None → E w' = foldl (effect t) (E w) sc) ∧ (r ≠ None → E w' = E w).
Proof.
  unfold nft, E. destruct (run t sc (kern w)) as [m k] eqn:Er. intros [= <- <-]. simpl. split; [done|].
  destruct m as [m|]; split; try done; intros _; [by eapply run_fail|by eapply run_ok].
Qed.

Lemma nft_result_spec t sc w r w' : nft_result t sc w = (r, w') →
  srv w' = srv w ∧ (r = None → E w' = foldl (effect t) (E w) sc) ∧ (r ≠ None → E w' = E w).
Proof.
  unfold nft_result, mbind, hlp_mbind. destruct (nft t sc w) as [m w1] eqn:Em. intros [= <- <-].
  apply nft_spec in Em as (Hs & Ho & Hf). split; [done|]. destruct m; split; naive_solver.
Qed.

Lemma nftAdd_spec t n ip ttl w r w' : nftAdd t n ip ttl w = (r, w') →
  srv w' = srv w ∧
  match r with
  | None => ∃ set, setForIP n ip = Some set ∧ E w' = <[(Table n, set, ip) := kernel_deadline t ttl]> (E w)
  | Some _ => E w' = E w
  end.
Proof.
  unfold nftAdd. destruct (setForIP n ip) as [set|]; [|by intros [= <- <-]].
  intros Hr. apply nft_result_spec in Hr as (Hs & Ho & Hf). split; [done|].
  destruct r; [by apply Hf|]. exists set. split; [done|]. rewrite Ho by done. simpl. f_equal.
  unfold kernel_deadline. destruct (0 <? ttl) eqn:E1; [by rewrite E1|done].
Qed.

Lemma nft_delete_spec t n set ip w r w' : nft_delete t n set ip w = (r, w') →
  srv w' = srv w ∧
  match r with
  | None => ∃ s, set = Some s ∧ E w' = delete (Table n, s, ip) (E w)
  | Some _ => E w' = E w
  end.
Proof.
  unfold nft_delete, mbind, hlp_mbind. destruct set as [s|]; [|by intros [= <- <-]].
  destruct (nft t _ w) as [m w1] eqn:Em. intros [= <- <-]. apply nft_spec in Em as (Hs & Ho & Hf).
  split; [done|]. destruct m as [m|]; simpl.
  - by apply Hf.
  - exists s. split; [done|]. by apply Ho.
Qed.

Lemma setForIP_set n ip s : setForIP n ip = Some s → s = Set4 n ∨ s = Set6 n.
Proof.
  unfold setForIP, setForIPIn. destruct (ParseAddr ip) as [a|].
  - intros [= <-]. destruct (_ || _); auto.
  - destruct (ParsePrefix ip) as [p|]; [|done]. intros [= <-]. simpl. destruct (_ || _); auto.
Qed.

(** [w'] differs from [w] at [ip] only, in the kernel's view. *)
Definition only_at (ip : string) w w' : Prop := ∀ tb s x, x ≠ ip → E w' !! (tb, s, x) = E w !! (tb, s, x).

Lemma nftAdd_only t n ip ttl w r w' : nftAdd t n ip ttl w = (r, w') → only_at ip w w'.
Proof.
  intros Hr. apply nftAdd_spec in Hr as (_ & Hr). intros tb s x Hx. destruct r; [by rewrite Hr|].
  destruct Hr as (set & _ & ->). apply lookup_insert_ne. congruence.
Qed.

Lemma nftDel_only t n ip w r w' : nftDel t n ip w = (r, w') → only_at ip w w'.
Proof.
  intros Hr. apply nft_delete_spec in Hr as (_ & Hr). intros tb s x Hx. destruct r; [by rewrite Hr|].
  destruct Hr as (set & _ & ->). apply lookup_delete_ne. congruence.
Qed.

(** Absorbing removes elements from the cache with the kernel. *)
Lemma absorb_spec v n ip ks w r w' : absorb v n ks w = (r, w') →
  inv (delete ip (B w)) n (E w) →
  inv (delete ip (B w')) n (E w') ∧ np w' = np w ∧ B w' ⊆ B w.
Proof.
  revert w. induction ks as [|k ks IH]; intros w; simpl; [by intros [= <- <-]|].
  unfold mbind, hlp_mbind. destruct (nftDel _ n k w) as [e w1] eqn:Ed. intros Hr Hi.
  pose proof (nftDel_only _ _ _ _ _ _ Ed) as Hon. pose proof Ed as Hsp. apply nft_delete_spec in Hsp as (Hs & Hv).
  assert (B w1 = B w ∧ np w1 = np w) as [Hb Hn] by (unfold B, np; by rewrite Hs).
  assert (e = None ∨ e = Some EElementAbsent →
    ∀ w2, cache (delete k) w1 = (tt, w2) → absorb v n ks w2 = (r, w') →
    inv (delete ip (B w')) n (E w') ∧ np w' = np w ∧ B w' ⊆ B w) as Hgo.
  { intros _ w2 [= <-] Ha. apply IH in Ha as (Hi' & Hn' & Hb').
    - split; [done|]. split; [by rewrite Hn'|]. etransitivity; [exact Hb'|]. unfold B. simpl. fold (B w1).
      rewrite Hb. apply delete_subseteq.
    - unfold B. simpl. fold (B w1). rewrite Hb, delete_delete. unfold E. simpl. fold (E w1).
      apply (inv_one slack (delete ip (B w)) n (E w)); [exact Hon|]. eapply inv_mono; [apply delete_subseteq|done]. }
  destruct e as [e|]; [|by eapply Hgo; [left| |]].
  assert (E w1 = E w) as HE by exact Hv.
  destruct e; try (injection Hr as <- <-; unfold B in *; rewrite HE, Hb, Hn; auto; fail);
    try (by eapply Hgo; [right| |]).
Qed.

Lemma addOverlapping_spec v n ip ttl w r w' : addOverlapping v n ip ttl w = (r, w') →
  inv (delete ip (B w)) n (E w) →
  inv (delete ip (B w')) n (E w') ∧ np w' = np w ∧ B w' ⊆ B w ∧
  (r = None → ∃ set, setForIP n ip = Some set ∧ E w' !! (Table n, set, ip) = Some (kernel_deadline (t_exec v) ttl)).
Proof.
  unfold addOverlapping. destruct (ParseAddr ip); [by intros [= <- <-]|].
  unfold mbind, hlp_mbind, get_srv. destruct (absorb v n _ w) as [e w1] eqn:Ea. intros Hr Hi.
  apply (absorb_spec _ _ ip) in Ea as (Hi1 & Hn1 & Hb1); [|done].
  destruct e as [e|]; [injection Hr as <- <-; by auto|].
  pose proof (nftAdd_only _ _ _ _ _ _ _ Hr) as Hon. apply nftAdd_spec in Hr as (Hs & Hv).
  assert (B w' = B w1 ∧ np w' = np w1) as [Hb Hn] by (unfold B, np; by rewrite Hs).
  split; [|split; [congruence|split; [by rewrite Hb|]]].
  - rewrite Hb. by apply (inv_one slack (B w1) n (E w1)).
  - intros ->. destruct Hv as (set & Hset & ->). exists set. split; [done|]. apply lookup_insert_eq.
Qed.

Lemma replace_spec v n ip ttl old w go r w' : replace v n ip ttl old w = ((go, r), w') →
  old = B w !! ip → inv (B w) n (E w) →
  inv (delete ip (B w')) n (E w') ∧ np w' = np w ∧ B w' ⊆ B w ∧
  (go = false → B w' = B w ∧ E w' = E w ∧ r ≠ None) ∧
  (r = None → ∃ set, setForIP n ip = Some set ∧ E w' !! (Table n, set, ip) = Some (kernel_deadline (t_exec v) ttl)).
Proof.
  intros Hr Hold Hi. unfold replace, mbind, hlp_mbind in Hr.
  assert (inv (delete ip (B w)) n (E w)) as Hid by (eapply inv_mono; [apply delete_subseteq|done]).
  lazymatch type of Hr with (let '(_, _) := ?t in _) = _ => destruct t as [d w1] eqn:Ed end.
  assert (B w1 = B w ∧ np w1 = np w ∧ only_at ip w w1 ∧ (∀ x, d = Some x → E w1 = E w)) as (Hb1 & Hn1 & Hon1 & Hd).
  { destruct old; [|injection Ed as <- <-; by repeat split].
    pose proof (nftDel_only _ _ _ _ _ _ Ed). apply nft_delete_spec in Ed as (Hs & Hv). unfold B, np. rewrite Hs.
    split; [done|]. split; [done|]. split; [done|]. intros x ->. exact Hv. }
  assert (inv (delete ip (B w1)) n (E w1)) as Hi1 by (rewrite Hb1; by apply (inv_one slack (B w) n (E w))).
  assert (d = None ∨ d = Some EElementAbsent ∨ (go = false ∧ r = d ∧ w' = w1 ∧ d ≠ None)) as [Hd'|[Hd'|(-> & -> & -> & Hne)]].
  { destruct d as [[]|]; auto; injection Hr as <- <- <-; auto 10. }
  3: { split; [done|]. split; [done|]. split; [by rewrite Hb1|]. destruct d as [x|]; [|done].
       split; [|done]. split; [done|]. split; [by eapply Hd|done]. }
  all: subst d; destruct (nftAdd _ n ip ttl w1) as [e w2] eqn:Ea.
  all: pose proof (nftAdd_only _ _ _ _ _ _ _ Ea) as Hon2; apply nftAdd_spec in Ea as (Hs2 & Hv2).
  all: assert (B w2 = B w1 ∧ np w2 = np w1) as [Hb2 Hn2] by (unfold B, np; by rewrite Hs2).
  all: assert (inv (delete ip (B w2)) n (E w2)) as Hi2 by (rewrite Hb2; by apply (inv_one slack (B w1) n (E w1))).
  all: assert ((go = true ∧ r = e ∧ w' = w2) ∨ (go = true ∧ addOverlapping v n ip ttl w2 = (r, w'))) as [(-> & -> & ->)|(-> & Ho)]
    by (destruct e as [[]|]; try (injection Hr as <- <- <-; by left);
        destruct (isNftOverlapErr _); [|injection Hr as <- <- <-; by left];
        destruct (addOverlapping v n ip ttl w2); injection Hr as <- <- <-; by right).
  1, 3: split; [done|]; split; [congruence|]; split; [by rewrite Hb2, Hb1|]; split; [done|];
    intros ->; destruct Hv2 as (set & Hset & ->); exists set; (split; [done|]); apply lookup_insert_eq.
  all: apply addOverlapping_spec in Ho as (Hi3 & Hn3 & Hb3 & Hok); [|done];
    (split; [done|]); (split; [congruence|]); (split; [by rewrite <- Hb1, <- Hb2|]); done.
Qed.

(** Rolling back restores a lifetime within a second of the cached one. *)
Lemma restore_outlives v old : clocks v → outlives slack old (kernel_deadline (t_restore v) (restoreTTL v old)).
Proof.
  intros (_ & Hc & _). unfold kernel_deadline, restoreTTL, outlives. destruct old as [d|]; [|done].
  set (m := Z.max (d - t_until v) Second).
  assert (Z.quot m Second * Second > m - Second ∧ 1 <= Z.quot m Second) as [Hq Hq1].
  { assert (Second <= m) by (unfold m; lia). rewrite Z.quot_div_nonneg by (unfold Second in *; lia).
    pose proof (Z.mod_pos_bound m Second ltac:(done)). pose proof (Z.div_mod m Second ltac:(done)).
    split; [lia|]. apply Z.div_le_lower_bound; lia. }
  assert (d - t_until v <= m) by (unfold m; lia). rewrite (proj2 (Z.ltb_lt _ _)) by lia. lia.
Qed.

Lemma setForIP_holds n m ip set kd : setForIP n ip = Some set → m !! (Table n, set, ip) = Some kd → holds n m ip kd.
Proof. intros Hs Hm. unfold holds. destruct (setForIP_set _ _ _ Hs) as [-> | ->]; auto. Qed.

Definition ttl_ok (ttl : Z) : Prop := - 2 ^ 63 <= ttl * Second < 2 ^ 63.

Lemma add_outlives v ttl : clocks v → ttl_ok ttl →
  outlives slack (deadline (t_now v) (wrap64 (ttl * Second))) (kernel_deadline (t_exec v) ttl).
Proof.
  intros (Hc & _ & _) Ht. unfold ttl_ok in Ht. rewrite wrap64_id by done.
  unfold outlives, deadline, kernel_deadline. destruct (Z.ltb_spec 0 ttl) as [Hp|Hp]; [|done].
  assert ((ttl * Second <=? 0) = false) as -> by (apply Z.leb_gt; unfold Second; lia). cbv beta iota. unfold Second in *. lia.
Qed.

(** ** The handlers *)
Definition keeps (n : Names) (w w' : world K) : Prop :=
  np w' = np w ∧ (inv (B w) n (E w) → inv (B w') n (E w')).

Lemma handle_add_spec v n ip ttl w r w' : clocks v → ttl_ok ttl →
  handle_add v n ip ttl w = (r, w') → inv (B w) n (E w) →
  np w' = np w ∧ inv (B w') n (E w') ∧
  (OK r = true → Code r = NoCode → ∃ set, setForIP n ip = Some set ∧
    E w' !! (Table n, set, ip) = Some (kernel_deadline (t_exec v) ttl)).
Proof.
  intros Hc Ht Hr Hi. unfold handle_add, mbind, hlp_mbind, get_srv in Hr. fold (B w) in Hr.
  destruct (replace v n ip ttl (B w !! ip) w) as [[go e] w1] eqn:Er.
  apply replace_spec in Er as (Hi1 & Hn1 & Hb1 & Hgo & Hok); [|done..].
  destruct go.
  2: { destruct (Hgo eq_refl) as (Hb & He & _). injection Hr as <- <-. split; [done|]. split; [|done]. by rewrite Hb, He. }
  assert (∀ f w2 u w3, cache f w1 = (tt, w2) → killSocketsForIP ip w2 = (u, w3) →
    E w3 = E w1 ∧ B w3 = f (B w1) ∧ np w3 = np w1) as Hk.
  { intros f w2 u w3 [= <-]. unfold killSocketsForIP. destruct (ParseAddr ip); by intros [= <- <-]. }
  destruct e as [e|].
  - destruct (decide (e = ECovered)) as [->|Hne].
    + destruct (cache (delete ip) w1) as [[] w2] eqn:Ec. destruct (killSocketsForIP ip w2) as [u w3] eqn:Ek.
      injection Hr as <- <-. destruct (Hk _ _ _ _ Ec Ek) as (HE & HB & HN). rewrite HE, HB, HN. by split.
    + assert ((let '(_, w2) := rollback v n ip (B w !! ip) w1 in (failed e, w2)) = (r, w')) as Hr' by (by destruct e).
      clear Hr. unfold rollback, mbind, hlp_mbind in Hr'. destruct (B w !! ip) as [dl|] eqn:Eb.
      * destruct (nftAdd (t_restore v) n ip (restoreTTL v dl) w1) as [e2 w2] eqn:Ea.
        pose proof (nftAdd_only _ _ _ _ _ _ _ Ea) as Hon. apply nftAdd_spec in Ea as (Hs & Hv).
        assert (inv (delete ip (B w2)) n (E w2)) as Hi2.
        { unfold B. rewrite Hs. by apply (inv_one slack (B w1) n (E w1)). }
        assert (np w2 = np w) as Hn2 by (rewrite <- Hn1; unfold np; by rewrite Hs).
        destruct e2; injection Hr' as <- <-; [split; [exact Hn2|by split]|]. split; [exact Hn2|]. split; [|done].
        intros x d Hx. destruct (decide (x = ip)) as [->|Hxne].
        -- unfold B in Hx. rewrite Hs in Hx. fold (B w1) in Hx. pose proof (lookup_weaken _ _ _ _ Hx Hb1) as Hw.
           rewrite Eb in Hw. injection Hw as <-. destruct Hv as (set & Hset & HE). eexists. split.
           ++ eapply setForIP_holds; [done|]. rewrite HE. apply lookup_insert_eq.
           ++ by apply restore_outlives.
        -- apply Hi2. by rewrite lookup_delete_ne.
      * injection Hr' as <- <-. split; [done|]. split; [|done]. intros x d Hx. apply Hi1.
        rewrite lookup_delete_ne; [done|]. intros <-. pose proof (lookup_weaken _ _ _ _ Hx Hb1). congruence.
  - destruct (cache _ w1) as [[] w2] eqn:Ec. destruct (killSocketsForIP ip w2) as [u w3] eqn:Ek.
    injection Hr as <- <-. destruct (Hk _ _ _ _ Ec Ek) as (HE & HB & HN). rewrite HE, HB, HN.
    destruct (Hok eq_refl) as (set & Hset & Hl). split; [done|]. split; [|by eauto].
    eapply inv_insert; [done|by eapply setForIP_holds|by apply add_outlives].
Qed.

Lemma handle_del_spec v n ip w r w' : handle_del v n ip w = (r, w') → keeps n w w'.
Proof.
  unfold handle_del, mbind, hlp_mbind. destruct (nftDel _ n ip w) as [e w1] eqn:Ed. intros Hr.
  pose proof (nftDel_only _ _ _ _ _ _ Ed) as Hon. apply nft_delete_spec in Ed as (Hs & Hv).
  assert (B w1 = B w) as Hb by (unfold B, np; by rewrite Hs).
  assert (∀ w2, cache (delete ip) w1 = (tt, w2) → keeps n w w2) as Hc.
  { intros w2 [= <-]. split; [by unfold np; rewrite Hs|]. intros Hi. unfold B, E. simpl. fold (B w1) (E w1). rewrite Hb.
    apply (inv_one slack (B w) n (E w)); [exact Hon|]. eapply inv_mono; [apply delete_subseteq|done]. }
  destruct e as [e|].
  - destruct (decide (e = EElementAbsent)) as [->|Hne]; [injection Hr as <- <-; exact (Hc _ eq_refl)|].
    assert (w' = w1) as -> by (destruct e; try done; by injection Hr).
    split; [by unfold np; rewrite Hs|]. by rewrite Hb, Hv.
  - injection Hr as <- <-. exact (Hc _ eq_refl).
Qed.

Lemma handle_list_spec v n w r w' : clocks v → handle_list v w = (r, w') →
  keeps n w w' ∧ E w' = E w ∧ ∀ ip, ip ∈ IPs r → ∃ dl, B w' !! ip = Some dl ∧ stale (t_now v) dl = false.
Proof.
  intros (_ & _ & Ho) [= <- <-]. unfold B, E. simpl. split; [|split; [done|]].
  - split; [done|]. apply inv_mono. apply map_filter_subseteq.
  - intros ip Hip. apply Ho, list_elem_of_fmap in Hip as ((x & dl) & -> & Hx).
    apply elem_of_map_to_list in Hx. exists dl. split; [done|]. by apply map_lookup_filter_Some in Hx as [_ ?].
Qed.

(** A script that stays off the blocked sets. *)
Definition off_blocked (n : Names) (sc : list stmt) : Prop :=
  existsb (touches (Table n) (Set4 n)) sc = false ∧ existsb (touches (Table n) (Set6 n)) sc = false.

Lemma inv_effects t n sc b m : off_blocked n sc → inv b n m → inv b n (foldl (effect t) m sc).
Proof. intros [H4 H6]. apply inv_same. intros ip _. by rewrite !effects_untouched. Qed.

Lemma nft_result_keeps t n sc w r w' : nft_result t sc w = (r, w') → off_blocked n sc → keeps n w w' ∧ B w' = B w.
Proof.
  intros Hr Ho. apply nft_result_spec in Hr as (Hs & Hok & Hf). unfold keeps, np, B. rewrite Hs. split; [|done]. split; [done|].
  intros Hi. destruct r as [x|]; [by rewrite Hf|]. rewrite Hok by done. by apply inv_effects.
Qed.

Lemma off_blocked_app n a b : off_blocked n a → off_blocked n b → off_blocked n (a ++ b).
Proof. unfold off_blocked. rewrite !existsb_app. by intros [-> ->] [-> ->]. Qed.

(** Statements on a set of the same table that is no blocked set. *)
Lemma off_other n s set : (∀ tb x, touches tb x s = true → x = set) → set ≠ Set4 n → set ≠ Set6 n → off_blocked n [s].
Proof.
  intros Hs H4 H6. unfold off_blocked. cbn [existsb]. rewrite !orb_false_r.
  split; (destruct (touches _ _ s) eqn:Et; [|done]); apply Hs in Et; congruence.
Qed.

Lemma off_chunks n set es : set ≠ Set4 n → set ≠ Set6 n → off_blocked n (writeChunks n set es).
Proof.
  intros H4 H6. unfold writeChunks. induction (chunks _ _ es) as [|c cs IH]; [done|]. csimpl.
  apply (off_blocked_app n [_] _); [|done]. apply (off_other n _ set); [|done..].
  intros tb x. simpl. intros Hx%bool_decide_eq_true_1. naive_solver.
Qed.


Lemma distinct_sets n : resolved n →
  (Allow4 n ≠ Set4 n ∧ Allow4 n ≠ Set6 n) ∧ (Allow6 n ≠ Set4 n ∧ Allow6 n ≠ Set6 n) ∧
  (Feeds4 n ≠ Set4 n ∧ Feeds4 n ≠ Set6 n) ∧ (Feeds6 n ≠ Set4 n ∧ Feeds6 n ≠ Set6 n).
Proof. intros Hn%resolved_distinct. rewrite !NoDup_cons, !elem_of_cons in Hn. naive_solver. Qed.

Lemma off_flush_pair n s1 s2 : s1 ≠ Set4 n ∧ s1 ≠ Set6 n → s2 ≠ Set4 n ∧ s2 ≠ Set6 n →
  off_blocked n [FlushSet (Table n) s1; FlushSet (Table n) s2].
Proof.
  intros [H1 H2] [H3 H4]. apply (off_blocked_app n [_] [_]).
  - by apply (off_other n _ s1); [intros tb x Hx%bool_decide_eq_true_1; naive_solver|..].
  - by apply (off_other n _ s2); [intros tb x Hx%bool_decide_eq_true_1; naive_solver|..].
Qed.

Lemma feeds_off n els sc : resolved n → nftFeedsSync n els = Some sc → off_blocked n sc.
Proof.
  intros (_ & _ & H4 & H6)%distinct_sets. unfold nftFeedsSync. destruct (forallb _ _); [|done]. intros [= <-].
  apply (off_blocked_app n [_; _]); [by apply off_flush_pair|].
  apply off_blocked_app; apply off_chunks; tauto.
Qed.

Lemma handle_feeds_spec v n els w r w' : resolved n → handle_feeds v n els w = (r, w') → keeps n w w'.
Proof.
  intros Hn. unfold handle_feeds. destruct (_ <? _); [by intros [= <- <-]|]. destruct (List.find _ _); [by intros [= <- <-]|].
  destruct (nftFeedsSync n els) as [sc|] eqn:Es; [|by intros [= <- <-]]. unfold mbind, hlp_mbind.
  destruct (nft_result _ sc w) as [e w1] eqn:Er. intros [= <- <-].
  eapply (nft_result_keeps _ n); [exact Er|by eapply feeds_off].
Qed.

Lemma allowSetForIP_set n ip s : allowSetForIP n ip = Some s → s = Allow4 n ∨ s = Allow6 n.
Proof.
  unfold allowSetForIP, setForIPIn. destruct (ParseAddr ip) as [a|].
  - intros [= <-]. destruct (_ || _); auto.
  - destruct (ParsePrefix ip) as [p|]; [|done]. intros [= <-]. simpl. destruct (_ || _); auto.
Qed.

Lemma nftAddAllow_keeps t n ip w r w' : resolved n → nftAddAllow t n ip w = (r, w') → keeps n w w'.
Proof.
  intros (H4 & H6 & _)%distinct_sets. unfold nftAddAllow. destruct (allowSetForIP n ip) as [s|] eqn:Es; [|by intros [= <- <-]].
  intros Hr. eapply (nft_result_keeps _ n); [exact Hr|]. apply (off_other n _ s).
  - intros tb x Hx%bool_decide_eq_true_1. naive_solver.
  - destruct (allowSetForIP_set _ _ _ Es) as [-> | ->]; tauto.
  - destruct (allowSetForIP_set _ _ _ Es) as [-> | ->]; tauto.
Qed.

Lemma nftDelAllow_keeps t n ip w r w' : resolved n → nftDelAllow t n ip w = (r, w') → keeps n w w'.
Proof.
  intros (H4 & H6 & _)%distinct_sets. unfold nftDelAllow, nft_delete, mbind, hlp_mbind.
  destruct (allowSetForIP n ip) as [s|] eqn:Es; [|by intros [= <- <-]].
  destruct (nft t _ w) as [m w1] eqn:Em. intros [= <- <-]. apply nft_spec in Em as (Hs & Ho & Hf).
  unfold keeps, np, B. rewrite Hs. split; [done|]. intros Hi. destruct m as [m|]; [by rewrite Hf|]. rewrite Ho by done.
  apply (inv_effects _ n); [|done]. apply (off_other n _ s).
  - intros tb x Hx%bool_decide_eq_true_1. naive_solver.
  - destruct (allowSetForIP_set _ _ _ Es) as [-> | ->]; tauto.
  - destruct (allowSetForIP_set _ _ _ Es) as [-> | ->]; tauto.
Qed.

(** ** Loading a table *)

(** The kernel holds a listed element at least as long as the cache will claim it. *)
Definition listed (v : env) (n : Names) (m : gmap (string * string * string) (option time)) (el : setElem) : Prop :=
  ∃ kd, holds n m (e_ip el) kd ∧ outlives slack (deadline (t_now v) (e_ttl el)) kd.

Lemma listSet_spec v n set w r w' : clocks v → set = Set4 n ∨ set = Set6 n →
  listSet (t_exec v) n set w = (r, w') → w' = w ∧ ∀ l, r = Ok l → Forall (listed v n (E w)) l.
Proof.
  intros (Hc & _) Hset. unfold listSet. intros [= <- <-]. split; [done|]. intros l Hl.
  destruct (listSetOutput _ _ set _) as [out|m] eqn:Eo.
  2: { destruct (isNftAbsentErr m); [|done]. injection Hl as <-. constructor. }
  injection Hl as <-. apply Forall_forall. intros el Hel.
  destruct (list_sound _ _ _ _ _ _ Eo Hel) as (d & Hd & Hout). exists d. split.
  - unfold holds, E. destruct Hset as [-> | ->]; auto.
  - unfold outlives, deadline. destruct d as [x|]; [|done]. destruct Hout as [Hp Hx].
    rewrite (proj2 (Z.leb_gt _ _)) by done. lia.
Qed.

Lemma nftList_spec v n w r w' : clocks v → nftList (t_exec v) n w = (r, w') →
  w' = w ∧ ∀ l, r = Ok l → Forall (listed v n (E w)) l.
Proof.
  intros Hc. unfold nftList, list_both, mbind, hlp_mbind.
  destruct (listSet _ n (Set4 n) w) as [r4 w1] eqn:E4. apply listSet_spec in E4 as [-> H4]; [|done|by left].
  destruct r4 as [l4|]; [|by intros [= <- <-]].
  destruct (listSet _ n (Set6 n) w) as [r6 w2] eqn:E6. apply listSet_spec in E6 as [-> H6]; [|done|by right].
  intros [= <- <-]. split; [done|]. intros l Hl. destruct r6 as [l6|]; [|done]. injection Hl as <-.
  apply Forall_app. auto.
Qed.

(** A change of table [n]'s sets leaves other tables alone. *)
Definition elsewhere (n : Names) (w w' : world K) : Prop :=
  srv w' = srv w ∧ ∀ tb s x, tb ≠ Table n → E w' !! (tb, s, x) = E w !! (tb, s, x).

Lemma elsewhere_refl n w : elsewhere n w w.
Proof. done. Qed.

Lemma elsewhere_trans n w1 w2 w3 : elsewhere n w1 w2 → elsewhere n w2 w3 → elsewhere n w1 w3.
Proof. intros [Hs1 H1] [Hs2 H2]. split; [congruence|]. intros. by rewrite H2, H1. Qed.

Lemma nft_result_elsewhere t n sc w r w' : nft_result t sc w = (r, w') →
  (∀ tb s, tb ≠ Table n → existsb (touches tb s) sc = false) → elsewhere n w w'.
Proof.
  intros Hr Ht. apply nft_result_spec in Hr as (Hs & Hok & Hf). split; [done|]. intros tb s x Htb.
  destruct r as [e|]; [by rewrite Hf|]. rewrite Hok by done. apply effects_untouched. auto.
Qed.

Lemma migrate_touches n set els tb s : tb ≠ Table n → existsb (touches tb s) (migrateAutoMergeScript n set els) = false.
Proof.
  intros Htb. unfold migrateAutoMergeScript. rewrite !existsb_app, touches_layout. cbn [existsb touches].
  rewrite (bool_decide_eq_false_2 (Table n = tb ∧ _)) by naive_solver. simpl.
  induction els as [|el els IH]; [done|]. csimpl. rewrite IH, bool_decide_eq_false_2; [done|naive_solver].
Qed.

Lemma migrate_set_spec v n set w r w' : clocks v → migrate_set (t_exec v) n set w = (r, w') → elsewhere n w w'.
Proof.
  intros Hc. unfold migrate_set, mbind, hlp_mbind, setHasAutoMerge.
  match goal with |- (match ?x with Ok b => _ | Err _ => _ end) _ = _ → _ => destruct x as [[]|] end; try by intros [= <- <-].
  destruct (nftList _ n w) as [all w1] eqn:El. apply nftList_spec in El as [-> _]; [|done].
  destruct all as [l|]; [|by intros [= <- <-]]. intros Hr. eapply nft_result_elsewhere; [exact Hr|].
  intros tb s. apply migrate_touches.
Qed.

Lemma load_table_spec v n w r w' : clocks v → load_table v n w = (r, w') →
  elsewhere n w w' ∧ ∀ l, r = Ok l → Forall (listed v n (E w')) l.
Proof.
  intros Hc. unfold load_table, mbind, hlp_mbind. destruct (nft_result _ (initTableScript n) w) as [e w1] eqn:E1.
  apply (nft_result_elsewhere _ n) in E1; [|by intros; rewrite touches_layout].
  destruct e as [e|]; [by intros [= <- <-]|]. unfold migrateAutoMerge, mbind, hlp_mbind.
  destruct (migrate_set _ n (Set4 n) w1) as [e2 w2] eqn:E2. apply migrate_set_spec in E2; [|done].
  destruct e2 as [e2|]; [intros [= <- <-]; split; [by eapply elsewhere_trans|done]|].
  destruct (migrate_set _ n (Set6 n) w2) as [e3 w3] eqn:E3. apply migrate_set_spec in E3; [|done].
  assert (elsewhere n w w3) as H3 by (eapply elsewhere_trans; [|exact E3]; by eapply elsewhere_trans).
  destruct e3 as [e3|]; [by intros [= <- <-]|]. intros Hl. by apply nftList_spec in Hl as [-> Hl].
Qed.

Lemma cache_elems_inv v n m els b : inv b n m → Forall (listed v n m) els → inv (cache_elems (t_now v) els b) n m.
Proof.
  intros Hb Hl. revert b Hb. induction Hl as [|el els (kd & Hk & Ho) Hl IH]; intros b Hb; [done|].
  simpl. apply IH. eapply inv_insert; [|done|done]. eapply inv_mono; [apply delete_subseteq|done].
Qed.

(** ** Requests *)

(** A server as it can be: names out of [Resolve], the defaults until pinned, and
    a cache the kernel backs. *)
Definition good (w : world K) : Prop :=
  resolved (names (srv w)) ∧ (pinned (srv w) = false → names (srv w) = defaultNames) ∧
  inv (B w) (names (srv w)) (E w).

(** Custom names come with a table of their own. *)
Definition own_table (req : Request) : Prop :=
  ∀ n, Resolve (r_Table req) (r_Set req) = Ok n → Table n = DefaultTable → n = defaultNames.

Lemma switch_spec v want w r w' : clocks v → resolved want → want ≠ names (srv w) → names (srv w) = defaultNames →
  Table want ≠ DefaultTable → good w → switchNamesLocked v want w = (r, w') →
  good w' ∧ (r = None → names (srv w') = want ∧ pinned (srv w') = true) ∧ (r ≠ None → srv w' = srv w).
Proof.
  intros Hc Hres Hne Hdef Htab (Hgr & Hgp & Hgi). unfold switchNamesLocked, mbind, hlp_mbind, get_srv. cbv beta iota.
  destruct (load_table v want w) as [l w1] eqn:El. apply load_table_spec in El as [[Hs Hel] Hl]; [|done].
  destruct l as [els|e].
  - specialize (Hl els eq_refl). rewrite Hdef. change (IsDefault defaultNames) with true. cbv beta iota. unfold cache, set_names.
    destruct (nft _ _ _) as [m w2] eqn:En. intros [= <- <-]. apply nft_spec in En as (Hs2 & Hok & Hf).
    assert (∀ s x, E w2 !! (Table want, s, x) = E w1 !! (Table want, s, x)) as HE.
    { intros s x. destruct m as [m|]; [by rewrite Hf|]. rewrite Hok by done. apply effects_untouched. simpl.
      rewrite bool_decide_eq_false_2; [done|]. intros He. by apply Htab. }
    split; [|split; [|done]]; [|rewrite Hs2; done]. unfold good, B. rewrite Hs2. cbn [srv names blocked pinned].
    split; [done|]. split; [done|]. apply (inv_same slack _ want (E w1)); [by intros; rewrite !HE|].
    apply cache_elems_inv; [apply inv_empty|done].
  - intros [= <- <-]. split; [|split; [done|by intros _]]. unfold good, B. rewrite Hs. split; [done|]. split; [done|].
    apply (inv_same slack _ _ (E w)); [|done]. intros ip _. rewrite !Hel; [done|..]; rewrite Hdef; by intros He; apply Htab.
Qed.

Lemma resolveNames_spec v req w r w' : clocks v → own_table req → good w → resolveNames v req w = (r, w') →
  good w' ∧ ∀ n, r = Ok n → names (srv w') = n ∧ Resolve (r_Table req) (r_Set req) = Ok n.
Proof.
  intros Hc Hown Hg. unfold resolveNames. destruct (Resolve _ _) as [want|e] eqn:Er; [|by intros [= <- <-]].
  unfold mbind, hlp_mbind, get_srv. cbv beta iota. case_decide as Hd.
  - intros [= <- <-]. destruct Hg as (Hgr & Hgp & Hgi). subst want. split; [by split|]. intros n [= <-]. done.
  - destruct (pinned (srv w)) eqn:Ep; [by intros [= <- <-]|].
    pose proof Hg as (_ & Hgp & _). specialize (Hgp Ep).
    destruct (switchNamesLocked v want w) as [e w1] eqn:Es. intros [= <- <-].
    apply switch_spec in Es as (Hg1 & Hok & Hf); [| |by do 2 eexists|done|done| |done]; [|done|].
    + split; [done|]. intros n Hn. destruct e; [done|]. injection Hn as <-. split; [by apply Hok|done].
    + intros Ht. apply Hd. rewrite Hgp. by apply (Hown want).
Qed.

Definition req_ok (req : Request) : Prop := own_table req ∧ ttl_ok (TTLSeconds req).


Lemma nftListAllow_world t n w r w' : nftListAllow t n w = (r, w') → w' = w.
Proof.
  unfold nftListAllow, list_both, mbind, hlp_mbind.
  assert (∀ s w r w', listSet t n s w = (r, w') → w' = w) as Hl by (unfold listSet; by intros ???? [= _ <-]).
  destruct (listSet t n (Allow4 n) w) as [r4 w1] eqn:E4. apply Hl in E4 as ->.
  destruct r4 as [l4|]; [|by intros [= _ <-]].
  destruct (listSet t n (Allow6 n) w) as [r6 w2] eqn:E6. apply Hl in E6 as ->. by intros [= _ <-].
Qed.

Lemma keeps_inv n w w' : keeps n w w' → inv (B w) n (E w) → np w' = np w ∧ inv (B w') n (E w').
Proof. intros [? ?]. auto. Qed.

(** A verb with an address: its refusal changes nothing. *)
Ltac with_ip H := destruct (validateIP _); [injection H as <- <-; by auto|].

Lemma dispatch_verb_keeps v n req w r w' : clocks v → ttl_ok (TTLSeconds req) → resolved n →
  dispatch_verb v n req w = (r, w') → inv (B w) n (E w) →
  np w' = np w ∧ inv (B w') n (E w').
Proof.
  intros Hc Ht Hn Hr Hi. unfold dispatch_verb, mbind, hlp_mbind in Hr.
  case_decide. { apply (keeps_inv n w); [|done]. by eapply handle_feeds_spec. }
  case_decide. { destruct (nftList _ n w) as [l w1] eqn:El. apply nftList_spec in El as [-> _]; [|done]. by injection Hr as <- <-. }
  case_decide. { apply (keeps_inv n w); [|done]. by eapply (handle_list_spec v n) in Hr as (? & _). }
  case_decide.
  { destruct (nft_result _ (nftFlush n) w) as [e w1] eqn:Er. apply nft_result_spec in Er as (Hs & _ & Hf).
    destruct e as [e|]; injection Hr as <- <-; unfold np, B; rewrite Hs; (split; [done|]); [|apply inv_empty].
    rewrite Hf; done. }
  case_decide. { with_ip Hr. by apply (handle_add_spec v n) in Hr as (? & ? & _). }
  case_decide. { with_ip Hr. apply (keeps_inv n w); [|done]. by eapply handle_del_spec. }
  case_decide.
  { with_ip Hr. destruct (nftAddAllow _ n _ w) as [e w1] eqn:Ea. injection Hr as _ <-.
    apply (keeps_inv n w); [|done]. by eapply nftAddAllow_keeps. }
  case_decide.
  { with_ip Hr. destruct (nftDelAllow _ n _ w) as [e w1] eqn:Ea.
    assert (w' = w1) as -> by (destruct e as [[]|]; by injection Hr).
    apply (keeps_inv n w); [|done]. by eapply nftDelAllow_keeps. }
  case_decide. { destruct (nftListAllow _ n w) as [l w1] eqn:El. apply nftListAllow_world in El as ->. by injection Hr as _ <-. }
  case_decide.
  { destruct (nft_result _ (nftFlushAllow n) w) as [e w1] eqn:Er. injection Hr as _ <-.
    apply (keeps_inv n w); [|done]. eapply (nft_result_keeps _ n); [exact Er|]. by apply off_flush_pair; apply distinct_sets. }
  by injection Hr as <- <-.
Qed.

(** Every request keeps the server good, whatever nft answers. *)
Lemma dispatch_good v req w r w' : clocks v → req_ok req → good w → dispatch v req w = (r, w') → good w'.
Proof.
  intros Hc [Hown Ht] Hg. unfold dispatch. destruct (negb _); [by intros [= <- <-]|].
  case_decide; [by intros [= <- <-]|]. case_decide; [by intros [= <- <-]|]. unfold mbind, hlp_mbind.
  destruct (resolveNames v req w) as [n w1] eqn:En. apply resolveNames_spec in En as (Hg1 & Hn); [|done..].
  destruct n as [n|e]; [|by intros [= <- <-]]. destruct (Hn n eq_refl) as [Hnm Hres].
  destruct Hg1 as (Hr1 & Hp1 & Hi1). intros Hd. subst n.
  apply dispatch_verb_keeps in Hd as [[= Hnm Hpin] Hi]; [|done..]. unfold good. by rewrite Hnm, Hpin.
Qed.

(** ** A helper's life: boot, then requests *)
Fixpoint serve (qs : list (env * Request)) (w : world K) : world K :=
  match qs with [] => w | (v, req) :: qs => serve qs (dispatch v req w).2 end.

Lemma Init_good v k w : clocks v → Init v (MkWorld NewServer k []) = (None, w) → good w.
Proof.
  intros Hc. unfold Init, mbind, hlp_mbind, get_srv. cbv beta iota.
  destruct (load_table v _ _) as [l w1] eqn:El. apply load_table_spec in El as [[Hs _] Hl]; [|done].
  destruct l as [els|e]; [|done]. intros [= <-]. specialize (Hl els eq_refl). unfold good, B. cbn [srv names blocked pinned].
  rewrite Hs. cbn [srv names blocked pinned NewServer]. split; [by exists EmptyString, EmptyString|]. split; [done|].
  apply cache_elems_inv; [apply inv_empty|done].
Qed.

Lemma serve_good qs w : Forall (λ q, clocks q.1 ∧ req_ok q.2) qs → good w → good (serve qs w).
Proof.
  intros Hqs. revert w. induction Hqs as [|[v req] qs [Hc Hr] Hqs IH]; intros w Hg; [done|]. simpl. apply IH.
  destruct (dispatch v req w) as [r w'] eqn:Ed. by eapply dispatch_good.
Qed.

Lemma verbs_of v req w r w' verb : verb ∈ ["add"; "del"; "list"] → Verb req = verb → dispatch v req w = (r, w') → OK r = true →
  ∃ n w1, resolveNames v req w = (Ok n, w1) ∧ dispatch_verb v n req w1 = (r, w').
Proof.
  intros Hv He. unfold dispatch. rewrite He.
  assert (verb ∈ validVerbs ∧ verb ≠ "ping" ∧ verb ≠ "caps") as (Hin & Hp & Hc).
  { rewrite !elem_of_cons, elem_of_nil in Hv. destruct Hv as [->|[->|[->|[]]]]; (split; [by apply (bool_decide_unpack _)|done]). }
  rewrite bool_decide_eq_true_2 by done. cbn [negb]. rewrite !decide_False by done. unfold mbind, hlp_mbind.
  destruct (resolveNames v req w) as [[n|e] w1] eqn:En; [eauto|]. by intros [= <- <-].
Qed.

(** [list] serves no ghosts: whatever happened since boot, restarts of nft,
    refused scripts, interrupted replaces, a name switch to a table of its own,
    every address the helper lists is an element of its kernel sets whose
    timeout is permanent or at most one second (and the lag between a script
    and its cache write) behind the listing's clock. *)
Theorem list_no_ghost v0 k w0 qs v req r w' ip :
  clocks v0 → Init v0 (MkWorld NewServer k []) = (None, w0) →
  Forall (λ q, clocks q.1 ∧ req_ok q.2) qs → clocks v → req_ok req → Verb req = "list" →
  dispatch v req (serve qs w0) = (r, w') → OK r = true → ip ∈ IPs r →
  ∃ kd, holds (names (srv w')) (elems (kern w')) ip kd ∧
    match kd with None => True | Some x => t_now v <= x + lag + Second end.
Proof.
  intros Hc0 Hi Hqs Hc Hreq Hverb Hd Hok Hip. pose proof (Init_good _ _ _ Hc0 Hi) as Hg.
  apply (serve_good qs) in Hg; [|done]. pose proof (dispatch_good _ _ _ _ _ Hc Hreq Hg Hd) as (_ & _ & Hinv).
  destruct (verbs_of _ _ _ _ _ "list" ltac:(set_solver) Hverb Hd Hok) as (n & w1 & Hn & Hv).
  unfold dispatch_verb in Hv. rewrite Hverb in Hv. repeat (rewrite decide_False in Hv by done). rewrite decide_True in Hv by done.
  apply (handle_list_spec v n) in Hv as (_ & _ & Hl); [|done]. destruct (Hl ip Hip) as (dl & Hdl & Hst).
  destruct (Hinv ip dl Hdl) as (kd & Hk & Ho). exists kd. split; [exact Hk|]. unfold outlives in Ho.
  destruct kd as [x|]; [|done]. destruct dl as [d|]; [|done]. simpl in Hst. bool_hyps. lia.
Qed.

(** An accepted ban is in the kernel: when [add] answers OK without a code, the
    blocked set of the address's family holds its canonical text with exactly
    the requested timeout (permanent for a TTL of zero), even if an element of
    the same name with another timer was there before; when [del] answers OK,
    the text is no longer cached, and without a code it left the kernel. *)
Theorem ban_in_kernel v req w r w' :
  clocks v → req_ok req → good w → dispatch v req w = (r, w') → OK r = true → Code r = NoCode →
  let n := names (srv w') in let key := CanonicalIPKey (r_IP req) in
  (Verb req = "add" → ∃ set, setForIP n key = Some set ∧
     elems (kern w') !! (Table n, set, key) = Some (kernel_deadline (t_exec v) (TTLSeconds req))) ∧
  (Verb req = "del" → blocked (srv w') !! key = None ∧ ∃ set, setForIP n key = Some set ∧
     elems (kern w') !! (Table n, set, key) = None).
Proof.
  intros Hc [Hown Ht] Hg Hd Hok Hcode n key. split; intros Hverb.
  - destruct (verbs_of _ _ _ _ _ "add" ltac:(set_solver) Hverb Hd Hok) as (m & w1 & Hn & Hv).
    apply resolveNames_spec in Hn as ((_ & _ & Hi1) & Hnm); [|done..]. destruct (Hnm m eq_refl) as [Hm _].
    unfold dispatch_verb in Hv. rewrite Hverb in Hv. repeat (rewrite decide_False in Hv by done). rewrite decide_True in Hv by done.
    with_ip Hv. apply handle_add_spec in Hv as (Hnp & _ & Hset); [|done|done|by rewrite <- Hm].
    injection Hnp as Hnp _. destruct (Hset Hok Hcode) as (set & ? & ?). exists set. unfold n, key. rewrite Hnp, Hm. done.
  - destruct (verbs_of _ _ _ _ _ "del" ltac:(set_solver) Hverb Hd Hok) as (m & w1 & Hn & Hv).
    apply resolveNames_spec in Hn as (_ & Hnm); [|done..]. destruct (Hnm m eq_refl) as [Hm _].
    unfold dispatch_verb in Hv. rewrite Hverb in Hv. repeat (rewrite decide_False in Hv by done). rewrite decide_True in Hv by done.
    with_ip Hv. fold key in Hv. unfold handle_del, mbind, hlp_mbind in Hv.
    destruct (nftDel _ m key w1) as [e w2] eqn:Ed. apply nft_delete_spec in Ed as (Hs & He). 
    destruct e as [[]|]; try (injection Hv as <- <-; done). injection Hv as <- <-. unfold n. cbn [srv names blocked kern].
    rewrite Hs, Hm. split; [apply lookup_delete_eq|]. destruct He as (set & Hset & He). exists set. split; [done|].
    change (elems (kern w2)) with (E w2). rewrite He. apply lookup_delete_eq.
Qed.
End safety.
