(* ===== verification/NftTest.v ===== *)
(** The scripted kernel of the integration harness:
    [internal/enforcerd/nfttest/kernel.go], with tables told apart and listings
    left empty.

    It meets [NftLaws], so the helper's theorems hold of it; their witnesses run
    on it. *)
From Stdlib Require Import Ascii.
From S2P Require Import Prelude GoStrings Netip NetipParse NftNames NftScript Canon Helper HelperSafety.

Definition toPrefix (key : string) : prefix :=
  match ParsePrefix key with
  | Some p => Masked p
  | None => match ParseAddr key with Some a => PrefixFrom a (BitLen a) | None => PrefixNone end
  end.

(** The kernel's timer: an element is gone once its expiry is reached. *)
Definition live (t : time) (d : option time) : bool := match d with None => true | Some x => t <? x end.

Definition live_keys (t : time) (m : gmap (string * string * string) (option time)) (tb set : string) : list string :=
  omap (λ kv, if decide (kv.1.1 = (tb, set)) then (if live t kv.2 then Some kv.1.2 else None) else None) (map_to_list m).

(** An address or interval sharing an address with another element is refused. *)
Definition overlaps (keys : list string) (key : string) : bool :=
  negb (bool_decide (key ∈ keys)) && existsb (λ el, Overlaps (toPrefix key) (toPrefix el)) keys.

Definition overlap_msg : string := "nft -f: exit status 1: Error: interval overlaps with an existing one".
Definition absent_msg : string := "nft -f: exit status 1: Error: element does not exist".

Definition refuse_stmt (t : time) (m : gmap (string * string * string) (option time)) (s : stmt) : option string :=
  match s with
  | AddElement tb set els =>
    if existsb (λ e, overlaps (live_keys t m tb set) e.1) els then Some overlap_msg else None
  | DelElement tb set ip => if bool_decide (ip ∈ live_keys t m tb set) then None else Some absent_msg
  | _ => None
  end.

(** The first failing statement aborts the script. *)
Fixpoint refuse (t : time) (m : gmap (string * string * string) (option time)) (sc : list stmt) : option string :=
  match sc with
  | [] => None
  | s :: sc => match refuse_stmt t m s with Some e => Some e | None => refuse t (effect t m s) sc end
  end.

Definition Apply (t : time) (sc : list stmt) (k : gmap (string * string * string) (option time)) :=
  match refuse t k sc with
  | Some e => (Some e, k)
  | None => (None, foldl (effect t) k sc)
  end.

Definition Kernel : Type := gmap (string * string * string) (option time).

#[export] Instance nfttest : Nft Kernel := {
  run := Apply;
  listSetOutput t tb set k := Ok EmptyString
}.

#[export] Instance nfttest_laws : NftLaws Kernel.
Proof.
  refine {| elems := (λ k : Kernel, k) |}.
  - intros t sc k m k'. simpl. unfold Apply. destruct (refuse _ _ _); by intros [= ? <-].
  - intros t sc k k'. simpl. unfold Apply. destruct (refuse _ _ _); by intros [= <-].
  - intros t tb set k out el [= <-] Hel. by apply not_elem_of_nil in Hel.
Defined.

(** ** A short life *)
Definition at_time (t : time) : env := MkEnv t t t t (λ l, l).
Definition request (verb ip : string) (ttl : Z) : Request := MkRequest verb ip ttl EmptyString EmptyString [].
Definition booted : world Kernel := (Init (at_time 0) (MkWorld NewServer ∅ [])).2.
Definition history : list (env * Request) :=
  [(at_time Second, request "add" "192.0.2.7" 3600); (at_time (2 * Second), request "add" "198.51.100.0/24" 60);
   (at_time (3 * Second), request "add" "192.0.2.7/32" 0); (at_time (4 * Second), request "add" "198.51.100.9" 0)].

Example history_runs :
  let w := serve history booted in
  map_to_list (blocked (srv w)) ≡ₚ [("192.0.2.7", None); ("198.51.100.0/24", Some (62 * Second))] ∧
  torn w = ["192.0.2.7"; "192.0.2.7"; "198.51.100.9"].
Proof. split; [|vm_compute; reflexivity]. vm_compute. constructor. constructor. constructor. Qed.

Lemma at_time_clocks t : clocks 0 (at_time t).
Proof. unfold clocks, at_time. simpl. split; [lia|]. split; [lia|done]. Qed.

Lemma request_ok verb ip ttl : (- 2 ^ 63 <=? ttl * Second) && (ttl * Second <? 2 ^ 63) = true → req_ok (request verb ip ttl).
Proof.
  intros [H1%Z.leb_le H2%Z.ltb_lt]%andb_true_iff. split; [|by split]. intros n. vm_compute (Resolve _ _).
  by intros [= <-].
Qed.

Lemma history_ok : Forall (λ q, clocks 0 q.1 ∧ req_ok q.2) history.
Proof. repeat (apply Forall_cons_2; [split; [apply at_time_clocks|by apply request_ok]|]). apply Forall_nil_2. Qed.

Definition relisted := dispatch (at_time (5 * Second)) (request "list" EmptyString 0) (serve history booted).

Lemma list_no_ghost_witness :
  IPs relisted.1 = ["192.0.2.7"; "198.51.100.0/24"] ∧
  ∃ kd, holds (names (srv relisted.2)) (elems (kern relisted.2)) "198.51.100.0/24" kd ∧
    match kd with None => True | Some x => t_now (at_time (5 * Second)) <= x + 0 + Second end.
Proof.
  split; [vm_compute; reflexivity|].
  assert (Init (at_time 0) (MkWorld NewServer ∅ []) = (None, booted)) as Hb by (vm_compute; reflexivity).
  assert ("198.51.100.0/24" ∈ IPs relisted.1) as Hin.
  { replace (IPs relisted.1) with ["192.0.2.7"; "198.51.100.0/24"] by (vm_compute; reflexivity). set_solver. }
  assert (OK relisted.1 = true) as Hok by (vm_compute; reflexivity).
  exact (list_no_ghost (K := Kernel) 0 (Z.le_refl 0) (at_time 0) ∅ booted history (at_time (5 * Second)) (request "list" EmptyString 0)
           relisted.1 relisted.2 "198.51.100.0/24" (at_time_clocks _) Hb history_ok (at_time_clocks _)
           (request_ok "list" EmptyString 0 eq_refl) eq_refl (surjective_pairing _) Hok Hin).
Defined.

(** The re-ban of an address with a shorter timer replaces the kernel's. *)
Definition reban := dispatch (at_time (5 * Second)) (request "add" "::ffff:192.0.2.7" 60) (serve history booted).

Lemma ban_in_kernel_witness :
  elems (kern reban.2) !! ("inet ezyshield", "blocked", "192.0.2.7") = Some (Some (65 * Second)).
Proof.
  assert (Init (at_time 0) (MkWorld NewServer ∅ []) = (None, booted)) as Hb by (vm_compute; reflexivity).
  assert (good 0 (serve history booted)) as Hg.
  { apply serve_good; [lia|apply history_ok|]. exact (Init_good 0 (at_time 0) ∅ booted (at_time_clocks _) Hb). }
  assert (OK reban.1 = true) as Hok by (vm_compute; reflexivity).
  assert (Code reban.1 = NoCode) as Hcode by (vm_compute; reflexivity).
  pose proof (ban_in_kernel (K := Kernel) 0 (Z.le_refl 0) (at_time (5 * Second)) (request "add" "::ffff:192.0.2.7" 60) (serve history booted)
    reban.1 reban.2 (at_time_clocks _) (request_ok "add" "::ffff:192.0.2.7" 60 eq_refl) Hg (surjective_pairing _) Hok Hcode) as [Hadd _].
  destruct (Hadd eq_refl) as (set & Hset & He). 
  replace (names (srv reban.2)) with defaultNames in * by (vm_compute; reflexivity).
  vm_compute in Hset. injection Hset as <-. exact He.
Defined.
