(* ===== verification/HelperScripts.v ===== *)
(** What the helper can make nft run: every script is assembled from resolved
    identifiers and address text, the layout accepts the allowlist before it
    drops anything, and the two ways around, zoned addresses and a set renamed
    in the default table. *)
From Stdlib Require Import Ascii.
From S2P Require Import Prelude GoStrings Netip NetipParse NetipShow NftNames NftScript Canon Helper HelperSafety NftTest.

(** ** Clean statements *)
Definition addr_text (s : string) : Prop := str_forall (λ a, addr_char a || bool_decide (a = "/"%char)) s = true.
Definition table_text (s : string) : Prop := ∃ t, s = "inet " +:+ t ∧ ident t.

Definition clean (s : stmt) : Prop :=
  match s with
  | AddTable tb | DelTable tb => table_text tb
  | AddSet tb set ty flags => table_text tb ∧ ident set ∧ ty ∈ ["ipv4_addr"; "ipv6_addr"] ∧
      flags ∈ ["interval,timeout"; "interval ; auto-merge"; "interval,timeout ; auto-merge"]
  | DelSet tb set | FlushSet tb set => table_text tb ∧ ident set
  | AddChain tb c prio => table_text tb ∧ c ∈ ["prerouting"; "input"; "forward"] ∧ prio ∈ ["raw"; "filter"]
  | FlushChain tb c => table_text tb ∧ c ∈ ["prerouting"; "input"; "forward"]
  | AddRule tb c fam set v => table_text tb ∧ c ∈ ["prerouting"; "input"; "forward"] ∧ fam ∈ ["ip"; "ip6"] ∧
      ident set ∧ v ∈ ["accept"; "notrack"; "drop"]
  | AddElement tb set els => table_text tb ∧ ident set ∧ Forall (λ e, addr_text e.1) els
  | DelElement tb set ip => table_text tb ∧ ident set ∧ addr_text ip
  end.

(** *** A clean statement is one line *)
Lemma ident_line s : ident s → no_char NL s = true.
Proof.
  intros [H _]. destruct s as [|a s]; [done|]. simpl in H. apply andb_true_iff in H as [Ha Hs].
  eapply (no_char_forall NL name_char); [done|]. simpl. unfold name_char at 1. by rewrite Ha, Hs.
Qed.

Lemma table_line s : table_text s → no_char NL s = true.
Proof. intros (t & -> & Ht%ident_line). by rewrite no_char_app, Ht. Qed.

Lemma addr_line s : addr_text s → no_char NL s = true.
Proof. by apply no_char_forall. Qed.

Lemma member_line s l : s ∈ l → forallb (no_char NL) l = true → no_char NL s = true.
Proof. rewrite forallb_true_elem. auto. Qed.

Lemma show_Z_line n : no_char NL (show_Z n) = true.
Proof. eapply no_char_forall; [|apply show_Z_chars]. done. Qed.

Lemma entry_line e : addr_text e.1 → no_char NL (entry e) = true.
Proof.
  intros He%addr_line. unfold entry. destruct (0 <? e.2); [|done]. by rewrite !no_char_app, He, show_Z_line.
Qed.

Lemma clean_line s : clean s → no_char NL (render1 s) = true.
Proof.
  destruct s as [tb|tb|tb set ty fl|tb set|tb c p|tb c|tb c fam set v|tb set els|tb set ip|tb set]; intros Hc; cbn [clean render1] in *.
  - by rewrite no_char_app, (table_line _ Hc).
  - by rewrite no_char_app, (table_line _ Hc).
  - destruct Hc as (H1%table_line & H2%ident_line & H3 & H4).
    rewrite !no_char_app, H1, H2, (member_line _ _ H3), (member_line _ _ H4) by done. done.
  - destruct Hc as (H1%table_line & H2%ident_line). by rewrite !no_char_app, H1, H2.
  - destruct Hc as (H1%table_line & H2 & H3). rewrite !no_char_app, H1, (member_line _ _ H2), (member_line _ _ H3) by done. done.
  - destruct Hc as (H1%table_line & H2). rewrite !no_char_app, H1, (member_line _ _ H2) by done. done.
  - destruct Hc as (H1%table_line & H2 & H3 & H4%ident_line & H5).
    rewrite !no_char_app, H1, (member_line _ _ H2), (member_line _ _ H3), H4, (member_line _ _ H5) by done. done.
  - destruct Hc as (H1%table_line & H2%ident_line & H3). rewrite !no_char_app, H1, H2.
    assert (no_char NL (Join (entry <$> els) ", ") = true) as ->; [|done].
    rewrite <- str_forall_no_char. apply str_forall_Join; [|done]. apply Forall_fmap.
    eapply Forall_impl; [exact H3|]. intros e He. simpl. rewrite str_forall_no_char. by apply entry_line.
  - destruct Hc as (H1%table_line & H2%ident_line & H3%addr_line). by rewrite !no_char_app, H1, H2, H3.
  - destruct Hc as (H1%table_line & H2%ident_line). by rewrite !no_char_app, H1, H2.
Qed.

(** nft reads back exactly the statements, one a line. *)
Lemma clean_lines sc : Forall clean sc → split_on NL (render sc) = (render1 <$> sc) ++ [EmptyString].
Proof.
  induction 1 as [|s sc Hs Hsc IH]; [done|]. cbn [render foldr].
  change (nl +:+ ?t) with (String NL t). fold (render sc). rewrite split_on_app by (by apply clean_line). by rewrite IH.
Qed.

(** ** Address text in, address text out *)
Lemma addr_addr_text s : str_forall addr_char s = true → addr_text s.
Proof. apply str_forall_impl. by intros a ->. Qed.

Lemma cut_last_spec c s l r : cut_last c s = Some (l, r) → s = l +:+ String c r.
Proof.
  revert l r. induction s as [|a s IH]; intros l r; simpl; [done|].
  destruct (cut_last c s) as [[l' r']|]; [intros [= <- <-]; simpl; f_equal; by apply IH|].
  case_decide; [|done]. by intros [= <- <-]; subst.
Qed.

Lemma ParsePrefix_split s p : ParsePrefix s = Some p → ∃ l bs, s = l +:+ String "/" bs ∧
  str_forall addr_char l = true ∧ str_forall is_digit bs = true.
Proof.
  unfold ParsePrefix. destruct (cut_last "/" s) as [[l bs]|] eqn:Ec; [|done]. intros Hp. exists l, bs.
  split; [by eapply cut_last_spec|]. destruct (ParseAddr l) as [a|] eqn:Ea; [|done].
  destruct (hasZone a) eqn:Hz; [done|]. split; [by eapply ParseAddr_chars|].
  assert (∃ n, ParseUint10 63 bs = Some n) as [n Hn].
  { destruct (ParseUint10 63 bs) as [n|]; [by exists n|]. repeat (case_match; simplify_eq). }
  exact (ParseUint_chars _ _ _ _ _ Hn).
Qed.

Lemma ParsePrefix_text s p : ParsePrefix s = Some p → addr_text s.
Proof.
  intros (l & bs & -> & Hl & Hb)%ParsePrefix_split. unfold addr_text. rewrite str_forall_app. apply andb_true_iff.
  split; [by apply addr_addr_text|]. simpl. eapply str_forall_impl; [|exact Hb]. intros a Ha%is_digit_hex.
  unfold addr_char. by rewrite Ha.
Qed.

Lemma show_addr_text a : wf_addr a → IsValid a = true → hasZone a = false → addr_text (show_addr a).
Proof. intros. by apply addr_addr_text, show_addr_no_slash. Qed.

Lemma show_prefix_text p : wf_prefix p → addr_text (show_prefix p).
Proof. intros Hp%ParsePrefix_show. by eapply ParsePrefix_text. Qed.

(** The key of a text without a zone is address text. *)
Lemma key_text s : validateIP s = None → no_char "%" s = true → addr_text (CanonicalIPKey s).
Proof.
  unfold validateIP, CanonicalIPKey. case_decide; [done|]. intros Hv Hz.
  destruct (ParseAddr s) as [a|] eqn:Ea.
  - pose proof (ParseAddr_no_zone _ _ Hz Ea) as Hnz. apply ParseAddr_wf in Ea as [Ha Hva].
    destruct (Unmap_plain a) as (H1 & H2 & H3); [done|]. by apply show_addr_text.
  - destruct (ParsePrefix s) as [p|] eqn:Ep; [|done]. apply ParsePrefix_wf in Ep. pose proof Ep as (Ha & Hnz & Hva & _).
    destruct (IsSingleIP p).
    + destruct (Unmap_plain (paddr p)) as (H1 & H2 & H3); [done|]. by apply show_addr_text.
    + by apply show_prefix_text, Masked_wf.
Qed.

Lemma raw_text s : validateIP s = None → no_char "%" s = true → addr_text s.
Proof.
  unfold validateIP. case_decide; [done|]. intros Hv Hz. destruct (ParseAddr s) as [a|] eqn:Ea.
  - apply addr_addr_text. eapply ParseAddr_chars; [exact Ea|]. by eapply ParseAddr_no_zone.
  - destruct (ParsePrefix s) as [p|] eqn:Ep; [|done]. by eapply ParsePrefix_text.
Qed.

(** A cached key a prefix absorbs has no zone. *)
Lemma contained_text p key : contained p key = true → addr_text key.
Proof.
  unfold contained. destruct (ParseAddr key) as [a|] eqn:Ea.
  - destruct (Contains p a) eqn:Ec.
    + intros _. apply addr_addr_text. eapply ParseAddr_chars; [exact Ea|].
      unfold Contains in Ec. by destruct (hasZone a); [rewrite orb_true_r in Ec|].
    + destruct (ParsePrefix key) eqn:Ep; [|done]. intros _. by eapply ParsePrefix_text.
  - destruct (ParsePrefix key) eqn:Ep; [|done]. intros _. by eapply ParsePrefix_text.
Qed.

(** *** Listings *)
Lemma no_char_drop c n s : no_char c s = true → no_char c (str_drop n s) = true.
Proof. revert s. induction n as [|n IH]; intros [|a s]; simpl; try done. intros [_ ?]%andb_true_iff. auto. Qed.

Lemma no_char_after c sub s r : no_char c s = true → after_first sub s = Some r → no_char c r = true.
Proof.
  revert r. induction s as [|a s IH]; intros r; cbn [after_first].
  - intros _. destruct (has_prefix _ _); [|done]. intros [= <-]. by apply no_char_drop.
  - intros Hs. destruct (has_prefix _ _); [intros [= <-]; by apply no_char_drop|]. apply IH.
    simpl in Hs. by apply andb_true_iff in Hs as [_ ?].
Qed.

Lemma no_char_fields c s : no_char c s = true → Forall (λ w, no_char c w = true) (StrFields s).
Proof.
  intros Hs. assert (∀ w ws, fields_aux s = (w, ws) → no_char c w = true ∧ Forall (λ w, no_char c w = true) ws) as Hf.
  { induction s as [|a s IH]; intros w ws; simpl; [by intros [= <- <-]|]. simpl in Hs. apply andb_true_iff in Hs as [Ha Hs].
    destruct (fields_aux s) as [w' ws']. destruct (IH Hs _ _ eq_refl) as [Hw Hws].
    destruct (is_space a); intros [= <- <-]; simpl; [|by rewrite Ha, Hw]. split; [done|]. destruct w'; auto. }
  unfold StrFields. destruct (fields_aux s) as [w ws]. destruct (Hf _ _ eq_refl) as [Hw Hws]. destruct w; auto.
Qed.

Lemma no_char_trim_right c s : no_char c s = true → no_char c (trim_right s) = true.
Proof.
  induction s as [|a s IH]; simpl; [done|]. intros [Ha Hs]%andb_true_iff. specialize (IH Hs).
  destruct (trim_right s); [destruct (is_space a); simpl; by rewrite ?Ha|]. simpl. by rewrite Ha.
Qed.

Lemma no_char_trim c s : no_char c s = true → no_char c (TrimSpace s) = true.
Proof.
  intros Hs. unfold TrimSpace. apply no_char_trim_right. induction s as [|a s IH]; simpl; [done|].
  destruct (is_space a); [|done]. apply IH. simpl in Hs. by apply andb_true_iff in Hs as [_ ?].
Qed.

Lemma no_char_split c d s : no_char c s = true → Forall (λ w, no_char c w = true) (split_on d s).
Proof.
  induction s as [|a s IH]; simpl; [by repeat constructor|]. intros [Ha Hs]%andb_true_iff. specialize (IH Hs).
  destruct (split_on d s) as [|w ws]; [constructor|]. destruct (decide (a = d)); [by constructor|].
  inversion IH; subst. constructor; [|done]. simpl. by rewrite Ha.
Qed.

Lemma listing_text out : no_char "%" out = true → Forall (λ el, addr_text (e_ip el)) (parseSetElements out).
Proof.
  intros Ho. unfold parseSetElements, parseSetElementsDetail. destruct (after_first _ out) as [r|] eqn:Ea; [|constructor].
  pose proof (no_char_after _ _ _ _ Ho Ea) as Hr. destruct (cut "}" r) as [block [rest|]] eqn:Ec; [|constructor]. simpl.
  apply cut_spec in Ec. rewrite Ec, no_char_app in Hr. apply andb_true_iff in Hr as [Hb _].
  apply Forall_forall. intros el ([x|x] & Hx & Hel)%list_elem_of_omap; simplify_eq.
  apply list_elem_of_omap in Hx as (part & Hpart & Hp).
  pose proof (no_char_split "%" "," block Hb) as Hs. rewrite Forall_forall in Hs. specialize (Hs part Hpart).
  unfold parse_element in Hp. pose proof (no_char_fields "%" _ (no_char_trim _ _ Hs)) as Hf.
  destruct (StrFields (TrimSpace part)) as [|tok ann]; [done|]. inversion Hf as [|? ? Htok _]; subst.
  injection Hp as Hp. destruct (ParseAddr tok) as [a|] eqn:Ea'.
  - injection Hp as <-. apply addr_addr_text. eapply ParseAddr_chars; [exact Ea'|]. by eapply ParseAddr_no_zone.
  - destruct (ParsePrefix tok) as [p|] eqn:Ep; [|done]. injection Hp as <-. by eapply show_prefix_text, ParsePrefix_wf.
Qed.

(** ** A kernel that keeps the scripts it was handed *)
Section scripts.
Context {K : Type} `{Nft K}.

#[export] Instance traced : Nft (K * list (list stmt)) := {
  run t sc k := ((run t sc k.1).1, ((run t sc k.1).2, k.2 ++ [sc]));
  listSetOutput t tb set k := listSetOutput t tb set k.1
}.

(** nft prints no zone: an element of an address set has none. *)
Hypothesis plain_listing : ∀ t tb set (k : K) out, listSetOutput t tb set k = Ok out → no_char "%" out = true.

#[local] Existing Instance hlp_mbind.
#[local] Existing Instance hlp_mret.
Abbreviation tworld := (world (K * list (list stmt))).

(** Resolved names, and only clean scripts so far. *)
Definition safe (w : tworld) : Prop := resolved (names (srv w)) ∧ Forall (Forall clean) (kern w).2.

Definition hoare {A} (m : hlp A) (Q : A → Prop) : Prop := ∀ w, safe w → safe (m w).2 ∧ Q (m w).1.

Lemma hoare_ret {A} (x : A) (Q : A → Prop) : Q x → hoare (mret (MRet := hlp_mret) x) Q.
Proof. by intros ? w. Qed.

Lemma hoare_bind {A C} (m : hlp A) (k : A → hlp C) P Q :
  hoare m P → (∀ x, P x → hoare (k x) Q) → hoare (mbind (MBind := hlp_mbind) k m) Q.
Proof. intros Hm Hk w Hw. unfold mbind, hlp_mbind. destruct (Hm w Hw) as [Hw' HP]. destruct (m w) as [x w']. by apply Hk. Qed.

Lemma hoare_srv : hoare get_srv (λ s, resolved (names s)).
Proof. intros w Hw. split; [done|]. by destruct Hw. Qed.

Lemma hoare_cache f : hoare (cache f) (λ _, True).
Proof. by intros w [? ?]. Qed.

Lemma hoare_names n pin : resolved n → hoare (set_names n pin) (λ _, True).
Proof. by intros Hn w [? ?]. Qed.

Lemma hoare_torn ip : hoare (killSocketsForIP ip) (λ _, True).
Proof. intros w [? ?]. unfold killSocketsForIP. by destruct (ParseAddr ip). Qed.

Lemma hoare_nft t sc : Forall clean sc → hoare (nft t sc) (λ _, True).
Proof.
  intros Hsc w [Hn Hl]. unfold nft. simpl. split; [|done]. split; [done|]. simpl.
  apply Forall_app. split; [done|]. by apply Forall_singleton.
Qed.

(** Discharges the structure of a handler. *)
Ltac sane_step :=
  lazymatch goal with
  | |- hoare (mbind _ _) _ => eapply hoare_bind; [|intros ? ?]
  | |- hoare (mret _) _ => apply hoare_ret; try done
  | |- hoare get_srv _ => apply hoare_srv
  | |- hoare (cache _) _ => apply hoare_cache
  | |- hoare (killSocketsForIP _) _ => apply hoare_torn
  | |- hoare (match ?x with _ => _ end) _ => destruct x eqn:?
  end.
Ltac sane := repeat sane_step; eauto.

Lemma hoare_nft_result t sc : Forall clean sc → hoare (nft_result t sc) (λ _, True).
Proof. intros. unfold nft_result. sane. by apply hoare_nft. Qed.

(** *** Clean building blocks *)
Lemma resolved_text n : resolved n → table_text (Table n) ∧
  ident (Set4 n) ∧ ident (Set6 n) ∧ ident (Allow4 n) ∧ ident (Allow6 n) ∧ ident (Feeds4 n) ∧ ident (Feeds6 n).
Proof.
  intros (t & s & (Ht & Hs & _)%Resolve_facts). rewrite !Forall_cons in Hs.
  destruct Ht as (x & -> & Hx). split; [by exists x|]. tauto.
Qed.

Lemma resolved_default : resolved defaultNames.
Proof. by exists EmptyString, EmptyString. Qed.

Ltac clean_list := repeat (apply Forall_cons_2; [cbn [clean]; split_and?; try done; set_solver|]); try apply Forall_nil_2.

Lemma layout_clean n : resolved n → Forall clean (initTableScript n).
Proof.
  intros (? & ? & ? & ? & ? & ? & ?)%resolved_text. unfold initTableScript, chain_layout, drop_pair, blockedSetDecl. cbn [app].
  clean_list.
Qed.

Lemma set_clean n ip set : resolved n → setForIP n ip = Some set ∨ allowSetForIP n ip = Some set → ident set.
Proof.
  intros (? & ? & ? & ? & ? & ? & ?)%resolved_text. unfold setForIP, allowSetForIP, setForIPIn.
  destruct (ParseAddr ip); [|destruct (ParsePrefix ip)]; intros [Hs|Hs]; try done; injection Hs as <-; simpl; by destruct (_ || _).
Qed.

Lemma hoare_add t n ip ttl : resolved n → addr_text ip → hoare (nftAdd t n ip ttl) (λ _, True).
Proof.
  intros Hn Hip. unfold nftAdd. sane. apply hoare_nft_result. apply Forall_singleton. split; [by apply resolved_text|].
  split; [by eapply set_clean; eauto|]. by apply Forall_singleton.
Qed.

Lemma hoare_add_allow t n ip : resolved n → addr_text ip → hoare (nftAddAllow t n ip) (λ _, True).
Proof.
  intros Hn Hip. unfold nftAddAllow. sane. apply hoare_nft_result. apply Forall_singleton. split; [by apply resolved_text|].
  split; [by eapply set_clean; eauto|]. by apply Forall_singleton.
Qed.

Lemma hoare_delete t n set ip : resolved n → (∀ s, set = Some s → ident s) → addr_text ip →
  hoare (nft_delete t n set ip) (λ _, True).
Proof.
  intros Hn Hs Hip. unfold nft_delete. sane. apply hoare_nft. apply Forall_singleton. split; [by apply resolved_text|]. auto.
Qed.

Lemma hoare_del t n ip : resolved n → addr_text ip → hoare (nftDel t n ip) (λ _, True).
Proof. intros. apply hoare_delete; [done| |done]. intros. by eapply set_clean; eauto. Qed.

Lemma hoare_del_allow t n ip : resolved n → addr_text ip → hoare (nftDelAllow t n ip) (λ _, True).
Proof. intros. apply hoare_delete; [done| |done]. intros. by eapply set_clean; eauto. Qed.

Definition listed_text (r : result helper_error (list setElem)) : Prop :=
  match r with Ok l => Forall (λ el, addr_text (e_ip el)) l | Err _ => True end.

Lemma hoare_list t n set : hoare (listSet t n set) listed_text.
Proof.
  intros w Hw. split; [done|]. simpl. destruct (listSetOutput _ _ _ _) as [out|m] eqn:E; simpl; [|by destruct (isNftAbsentErr m); simpl].
  by eapply listing_text, plain_listing.
Qed.

Lemma hoare_both t n s4 s6 : hoare (list_both t n s4 s6) listed_text.
Proof.
  unfold list_both. eapply hoare_bind; [apply hoare_list|]. intros [l4|e] H4; [|by apply hoare_ret].
  eapply hoare_bind; [apply hoare_list|]. intros [l6|e] H6; apply hoare_ret; simpl; [|done]. by apply Forall_app.
Qed.

Lemma migrate_clean n set els : resolved n → ident set → Forall (λ el, addr_text (e_ip el)) els →
  Forall clean (migrateAutoMergeScript n set els).
Proof.
  intros Hn Hs He. pose proof (resolved_text n Hn) as (Ht & _). unfold migrateAutoMergeScript. apply Forall_app. split.
  { clean_list. }
  apply Forall_app. split; [by apply layout_clean|]. apply Forall_fmap. eapply Forall_impl; [exact He|]. intros el Hel.
  split; [done|]. split; [done|]. by apply Forall_singleton.
Qed.

Lemma hoare_migrate t n set : resolved n → ident set → hoare (migrate_set t n set) (λ _, True).
Proof.
  intros Hn Hs. unfold migrate_set. eapply (hoare_bind _ _ (λ _, True)); [by intros w|].
  intros [[]|] _; [|by apply hoare_ret..]. eapply hoare_bind; [apply hoare_both|]. intros [l|e] Hl; [|by apply hoare_ret].
  apply hoare_nft_result, migrate_clean; [done..|]. apply Forall_forall. intros el Hel%list_elem_of_In. apply filter_In in Hel as [Hel%list_elem_of_In _].
  simpl in Hl. rewrite Forall_forall in Hl. auto.
Qed.

Lemma set4_6 n : resolved n → ident (Set4 n) ∧ ident (Set6 n).
Proof. intros (? & ? & ? & _)%resolved_text. done. Qed.

Lemma hoare_load v n : resolved n → hoare (load_table v n) (λ _, True).
Proof.
  intros Hn. destruct (set4_6 n Hn) as [H4 H6]. unfold load_table. eapply hoare_bind; [by apply hoare_nft_result, layout_clean|].
  intros [e|] _; [by apply hoare_ret|]. eapply (hoare_bind _ _ (λ _, True)).
  - unfold migrateAutoMerge. eapply hoare_bind; [by apply hoare_migrate|]. intros [e|] _; [by apply hoare_ret|]. by apply hoare_migrate.
  - intros [e|] _; [by apply hoare_ret|]. intros w Hw. split; [|done]. by apply (hoare_both (t_exec v) n (Set4 n) (Set6 n)).
Qed.

Lemma hoare_Init v : hoare (Init v) (λ _, True).
Proof.
  unfold Init. eapply hoare_bind; [apply hoare_srv|]. intros s Hs. eapply hoare_bind; [by apply hoare_load|].
  intros [els|e] _; [|by apply hoare_ret]. sane.
Qed.

Lemma hoare_switch v want : resolved want → hoare (switchNamesLocked v want) (λ _, True).
Proof.
  intros Hw. unfold switchNamesLocked. eapply hoare_bind; [apply hoare_srv|]. intros s Hs.
  eapply hoare_bind; [by apply hoare_load|]. intros [els|e] _; [|by apply hoare_ret].
  eapply hoare_bind; [apply hoare_cache|]. intros _ _. eapply hoare_bind; [by apply hoare_names|]. intros _ _.
  eapply (hoare_bind _ _ (λ _, True)); [|by intros; apply hoare_ret]. destruct (IsDefault _); [|by apply hoare_ret].
  apply hoare_nft, Forall_singleton. by apply resolved_text.
Qed.

Definition resolved_names (r : result helper_error Names) : Prop := match r with Ok n => resolved n | Err _ => True end.

Lemma hoare_resolve v req : hoare (resolveNames v req) resolved_names.
Proof.
  unfold resolveNames. destruct (Resolve _ _) as [want|e] eqn:Er; [|by apply hoare_ret].
  assert (resolved want) as Hw by (by do 2 eexists). eapply hoare_bind; [apply hoare_srv|]. intros s Hs. case_decide.
  { eapply hoare_bind; [by apply hoare_names|]. intros _ _. by apply hoare_ret. }
  destruct (pinned s); [by apply hoare_ret|]. eapply hoare_bind; [by apply hoare_switch|]. intros [e|] _; by apply hoare_ret.
Qed.

(** *** The handlers *)
Lemma hoare_absorb v n ks : resolved n → Forall addr_text ks → hoare (absorb v n ks) (λ _, True).
Proof.
  intros Hn. induction 1 as [|k ks Hk Hks IH]; cbn [absorb]; [by apply hoare_ret|].
  eapply hoare_bind; [by apply hoare_del|]. intros e _. assert (hoare (cache (delete k) ≫= λ _, absorb v n ks) (λ _, True)) as Hc.
  { eapply hoare_bind; [apply hoare_cache|]. by intros. }
  destruct e as [[]|]; try exact Hc; by apply hoare_ret.
Qed.

Lemma hoare_overlapping v n ip ttl : resolved n → addr_text ip → hoare (addOverlapping v n ip ttl) (λ _, True).
Proof.
  intros Hn Hip. unfold addOverlapping. destruct (ParseAddr ip); [by apply hoare_ret|].
  eapply hoare_bind; [apply hoare_srv|]. intros s _. eapply hoare_bind.
  - apply hoare_absorb; [done|]. apply Forall_forall. intros k Hk%list_elem_of_In. apply filter_In in Hk as [_ Hk].
    by eapply contained_text.
  - intros [e|] _; [by apply hoare_ret|]. by apply hoare_add.
Qed.

Lemma hoare_replace v n ip ttl old : resolved n → addr_text ip → hoare (replace v n ip ttl old) (λ _, True).
Proof.
  intros Hn Hip. unfold replace. eapply (hoare_bind _ _ (λ _, True)).
  { destruct old; [by apply hoare_del|by apply hoare_ret]. }
  intros d _. match goal with |- hoare (match d with _ => _ end) _ => idtac end.
  assert (hoare (nftAdd (t_exec v) n ip ttl ≫= λ e,
     (match e with Some (ENft m) => if isNftOverlapErr m then addOverlapping v n ip ttl else mret e | _ => mret e end) ≫= λ e, mret (true, e))
     (λ _, True)) as Ha.
  { eapply hoare_bind; [by apply hoare_add|]. intros e _. eapply (hoare_bind _ _ (λ _, True)); [|by intros; apply hoare_ret].
    destruct e as [[]|]; try by apply hoare_ret. destruct (isNftOverlapErr _); [by apply hoare_overlapping|by apply hoare_ret]. }
  destruct d as [[]|]; try exact Ha; by apply hoare_ret.
Qed.

Lemma hoare_rollback v n ip old : resolved n → addr_text ip → hoare (rollback v n ip old) (λ _, True).
Proof.
  intros Hn Hip. unfold rollback. destruct old as [dl|]; [|by apply hoare_ret].
  eapply hoare_bind; [by apply hoare_add|]. intros [e|] _; [apply hoare_cache|by apply hoare_ret].
Qed.

Lemma hoare_handle_add v n ip ttl : resolved n → addr_text ip → hoare (handle_add v n ip ttl) (λ _, True).
Proof.
  intros Hn Hip. unfold handle_add. eapply hoare_bind; [apply hoare_srv|]. intros s _.
  eapply hoare_bind; [by apply hoare_replace|]. intros [[] e] _; [|by apply hoare_ret].
  assert (∀ e, hoare (rollback v n ip (blocked s !! ip) ≫= λ _, mret (failed e)) (λ _, True)) as Hr.
  { intros. eapply hoare_bind; [by apply hoare_rollback|]. by intros; apply hoare_ret. }
  destruct e as [[]|]; try exact (Hr _); (eapply hoare_bind; [apply hoare_cache|]); intros _ _;
    (eapply hoare_bind; [apply hoare_torn|]); by intros; apply hoare_ret.
Qed.

Lemma hoare_handle_del v n ip : resolved n → addr_text ip → hoare (handle_del v n ip) (λ _, True).
Proof.
  intros Hn Hip. unfold handle_del. eapply hoare_bind; [by apply hoare_del|]. intros [[]|] _; sane.
Qed.

Lemma hoare_handle_list v : hoare (handle_list v) (λ _, True).
Proof. unfold handle_list. sane. Qed.

(** Requests a daemon sends: no zone in an address. *)
Definition zoneless (req : Request) : Prop :=
  no_char "%" (r_IP req) = true ∧ Forall (λ e, no_char "%" (f_IP e) = true) (Elements req).

Lemma writeChunks_clean n set es : table_text (Table n) → ident set → Forall (λ e, addr_text e.1) es →
  Forall clean (writeChunks n set es).
Proof.
  intros Ht Hs He. unfold writeChunks. apply Forall_fmap.
  assert (∀ fuel l, Forall (λ e : string * Z, addr_text e.1) l → Forall (Forall (λ e, addr_text e.1)) (chunks fuel 512 l)) as Hc.
  { induction fuel as [|fuel IH]; intros [|x l] Hl; [apply Forall_nil_2..|]. cbn [chunks].
    apply Forall_cons_2; [by apply Forall_take|]. by apply IH, Forall_drop. }
  eapply Forall_impl; [by apply Hc|]. intros c Hcl. done.
Qed.

Lemma feeds_clean n els sc : resolved n → Forall (λ e, addr_text (f_IP e)) els → nftFeedsSync n els = Some sc → Forall clean sc.
Proof.
  intros (Ht & ? & ? & ? & ? & ? & ?)%resolved_text He. unfold nftFeedsSync. destruct (forallb _ _); [|done]. intros [= <-].
  assert (∀ b, Forall (λ e, addr_text e.1) (feed_entries b els)) as Hf.
  { intros b. unfold feed_entries. apply Forall_fmap, Forall_forall. intros e Hin%list_elem_of_In. apply filter_In in Hin as [Hin _].
    apply list_elem_of_In in Hin. rewrite Forall_forall in He. by apply He. }
  cbn [app]. clean_list. apply Forall_app. split; by apply writeChunks_clean.
Qed.

Lemma hoare_handle_feeds v n els : resolved n → Forall (λ e, no_char "%" (f_IP e) = true) els →
  hoare (handle_feeds v n els) (λ _, True).
Proof.
  intros Hn He. unfold handle_feeds. destruct (_ <? _); [by apply hoare_ret|].
  destruct (List.find _ _) as [e|] eqn:Ef; [by apply hoare_ret|]. destruct (nftFeedsSync n els) as [sc|] eqn:Es; [|by apply hoare_ret].
  eapply hoare_bind; [|by intros; apply hoare_ret]. apply hoare_nft_result. eapply feeds_clean; [done| |done].
  apply Forall_forall. intros e Hin. rewrite Forall_forall in He. apply raw_text; [|by apply He].
  pose proof (find_none _ _ Ef e) as Hx. rewrite <- list_elem_of_In in Hx. specialize (Hx Hin).
  apply orb_false_iff in Hx as [Hx%bool_decide_eq_false _]. by apply dec_stable.
Qed.

Lemma hoare_dispatch v req : zoneless req → hoare (dispatch v req) (λ _, True).
Proof.
  intros [Hz Hzs]. unfold dispatch. destruct (negb _); [by apply hoare_ret|]. case_decide; [by apply hoare_ret|].
  case_decide; [by apply hoare_ret|]. eapply hoare_bind; [apply hoare_resolve|]. intros [n|e] Hn; [|by apply hoare_ret].
  pose proof (resolved_text n Hn) as (Ht & ? & ? & ? & ? & ? & ?).
  unfold dispatch_verb. case_decide; [by apply hoare_handle_feeds|].
  case_decide. { eapply hoare_bind; [apply hoare_both|]. by intros; apply hoare_ret. }
  case_decide; [apply hoare_handle_list|].
  case_decide.
  { eapply hoare_bind; [apply hoare_nft_result; unfold nftFlush; clean_list|]. intros [e|] _; sane. }
  pose proof (λ Hv, key_text _ Hv Hz) as Hkey. set (key := CanonicalIPKey (r_IP req)) in *. clearbody key.
  destruct (validateIP (r_IP req)) as [e|]; [|specialize (Hkey eq_refl)].
  { repeat (case_decide; [by apply hoare_ret|]). case_decide; [eapply hoare_bind; [apply hoare_both|]; by intros; apply hoare_ret|].
    case_decide; [|by apply hoare_ret]. eapply hoare_bind; [|by intros; apply hoare_ret].
    apply hoare_nft_result; unfold nftFlushAllow; clean_list. }
  case_decide; [by apply hoare_handle_add|]. case_decide; [by apply hoare_handle_del|].
  case_decide. { eapply hoare_bind; [by apply hoare_add_allow|]. by intros; apply hoare_ret. }
  case_decide. { eapply hoare_bind; [by apply hoare_del_allow|]. by intros; apply hoare_ret. }
  case_decide. { eapply hoare_bind; [apply hoare_both|]. by intros; apply hoare_ret. }
  case_decide; [|by apply hoare_ret]. eapply hoare_bind; [|by intros; apply hoare_ret].
  apply hoare_nft_result; unfold nftFlushAllow; clean_list.
Qed.

Lemma serve_safe qs w : Forall (λ q, zoneless q.2) qs → safe w → safe (serve qs w).
Proof.
  intros Hq. revert w. induction Hq as [|[v req] qs Hr Hq IH]; intros w Hw; [done|]. simpl. apply IH. by apply hoare_dispatch.
Qed.

(** What reaches nft is what the helper wrote: from boot on, whatever nft
    answers, as long as requests carry no zoned address, every script handed to
    "nft -f" is made of the helper's own statement forms with a validated table
    name, identifiers for sets and plain address text for elements, and nft
    reads back exactly these statements, one on each line. *)
Theorem scripts_clean v0 (k : K) qs :
  Forall (λ q, zoneless q.2) qs →
  Forall (λ sc, Forall clean sc ∧ split_on NL (render sc) = (render1 <$> sc) ++ [EmptyString])
    (kern (serve qs (Init v0 (MkWorld NewServer (k, []) [])).2)).2.
Proof.
  intros Hq. assert (safe (MkWorld NewServer (k, []) [])) as Hs by (split; [apply resolved_default|constructor]).
  destruct (hoare_Init v0 _ Hs) as [Hi _]. apply (serve_safe qs) in Hi as [_ Hl]; [|done].
  eapply Forall_impl; [exact Hl|]. intros sc Hsc. split; [done|]. by apply clean_lines.
Qed.
End scripts.

(** ** On the scripted kernel *)
Definition traced_boot : world (Kernel * list (list stmt)) := (Init (at_time 0) (MkWorld NewServer (∅, []) [])).2.

Lemma nfttest_plain t tb set (k : Kernel) out : listSetOutput t tb set k = Ok out → no_char "%" out = true.
Proof. by intros [= <-]. Qed.

Lemma scripts_clean_witness :
  let w := serve history traced_boot in
  length (kern w).2 = 6%nat ∧
  Forall (λ sc, Forall clean sc ∧ split_on NL (render sc) = (render1 <$> sc) ++ [EmptyString]) (kern w).2.
Proof.
  split; [vm_compute; reflexivity|].
  apply (scripts_clean (K := Kernel) nfttest_plain (at_time 0) ∅ history).
  repeat (apply Forall_cons_2; [by split; [vm_compute|apply Forall_nil_2]|]). apply Forall_nil_2.
Defined.

(** A zone is any text: an address with one passes [validateIP], and its zone
    reaches the script, line feeds and all. *)
Definition zoned : string := "fe80::1%x }" +:+ nl +:+ "flush ruleset" +:+ nl +:+ "#".

Lemma zone_injection :
  validateIP zoned = None ∧
  let r := dispatch (at_time Second) (request "add" zoned 0) traced_boot in
  OK r.1 = true ∧
  option_map (λ sc, split_on NL (render sc)) (last (kern r.2).2) =
    Some ["add element inet ezyshield blocked6 { fe80::1%x }"; "flush ruleset"; "# }"; EmptyString].
Proof. vm_compute. done. Qed.

(** A ban set of another name in the default table: adopting it on the first
    request deletes, as "the empty default table", the table just laid out and
    loaded; the server goes on under that name and nothing recreates it. *)
Definition renamed : Names := MkNames DefaultTable "bans" "bans6" "allowed" "allowed6" "blocked_feeds" "blocked_feeds6".

Lemma renamed_set_loses_table :
  let r := dispatch (at_time Second) (MkRequest "list" EmptyString 0 EmptyString "bans" []) traced_boot in
  Resolve EmptyString "bans" = Ok renamed ∧ OK r.1 = true ∧ srv r.2 = MkServer ∅ renamed true ∧
  drop 1 (kern r.2).2 = [initTableScript renamed; [DelTable (Table renamed)]].
Proof. vm_compute. done. Qed.
