(* ===== verification/NftLayout.v ===== *)
(** What the layout of [nft.go]'s [initTable] does to packets.

    [rule_effect] is the documented effect of the statements on a table's
    chains, [verdict] the evaluation of one base chain: rules in order, a rule
    matches a packet of its family whose source is in its set, [accept] and
    [drop] end the chain, the policy is accept. *)
From Stdlib Require Import Ascii.
From S2P Require Import Prelude GoStrings NftNames NftScript Helper HelperSafety.

Record rule := MkRule { r_fam : string; r_set : string; r_verdict : string }.

(** Rules of each chain of each table. *)
Abbreviation chains := (gmap (string * string) (list rule)) (only parsing).

Definition rule_effect (m : chains) (s : stmt) : chains :=
  match s with
  | FlushChain tb c => <[(tb, c) := []]> m
  | AddRule tb c fam set v => <[(tb, c) := default [] (m !! (tb, c)) ++ [MkRule fam set v]]> m
  | DelTable tb => filter (λ kv, kv.1.1 ≠ tb) m
  | _ => m
  end.

Definition rules_after (m : chains) (sc : list stmt) (tb c : string) : list rule :=
  default [] (foldl rule_effect m sc !! (tb, c)).

Inductive fate := Accepted | Dropped.

(** A packet: its family, and the sets its source address is in. *)
Record packet := MkPacket { p_v4 : bool; p_in : string → bool }.

Definition matches (p : packet) (r : rule) : bool :=
  Bool.eqb (p_v4 p) (bool_decide (r_fam r = "ip")) && p_in p (r_set r).

Fixpoint verdict (rs : list rule) (p : packet) : fate :=
  match rs with
  | [] => Accepted
  | r :: rs =>
    if matches p r && bool_decide (r_verdict r = "accept") then Accepted
    else if matches p r && bool_decide (r_verdict r = "drop") then Dropped
    else verdict rs p
  end.

Definition base_chains : list string := ["prerouting"; "input"; "forward"].

(** *** The rules a script leaves *)
(** The rules of a chain a script builds, when it flushes the chain first. *)
Definition built (tb c : string) (s : stmt) : list rule :=
  match s with
  | AddRule tb' c' fam set v => if decide ((tb', c') = (tb, c)) then [MkRule fam set v] else []
  | _ => []
  end.
Definition no_reset (tb c : string) (s : stmt) : bool :=
  match s with FlushChain tb' c' => bool_decide ((tb', c') ≠ (tb, c)) | DelTable _ => false | _ => true end.

Lemma rules_built m sc tb c : forallb (no_reset tb c) sc = true →
  default [] (foldl rule_effect m sc !! (tb, c)) = default [] (m !! (tb, c)) ++ concat (built tb c <$> sc).
Proof.
  revert m. induction sc as [|s sc IH]; intros m; csimpl; [by rewrite app_nil_r|]. intros [Hs Hsc]%andb_true_iff.
  rewrite IH, app_assoc by done. f_equal.
  destruct s; cbn [rule_effect built no_reset] in *; try (by rewrite app_nil_r); try done.
  - apply bool_decide_eq_true in Hs. by rewrite lookup_insert_ne, app_nil_r.
  - case_decide as Hd; [rewrite Hd, lookup_insert_eq; done|]. by rewrite lookup_insert_ne, app_nil_r.
Qed.

Lemma rules_flushed m pre post tb c : forallb (no_reset tb c) post = true →
  rules_after m (pre ++ FlushChain tb c :: post) tb c = concat (built tb c <$> post).
Proof.
  intros Hp. unfold rules_after. rewrite foldl_app. cbn [foldl]. rewrite rules_built by done. simpl.
  by rewrite lookup_insert_eq.
Qed.

(** The rules of one chain of the layout. *)
Definition layout_rules (n : Names) (notrack : bool) : list rule :=
  [MkRule "ip" (Allow4 n) "accept"; MkRule "ip6" (Allow6 n) "accept"] ++
  (if notrack then [MkRule "ip" (Set4 n) "notrack"; MkRule "ip6" (Set6 n) "notrack"] else []) ++
  [MkRule "ip" (Set4 n) "drop"; MkRule "ip6" (Set6 n) "drop"] ++
  (if notrack then [MkRule "ip" (Feeds4 n) "notrack"; MkRule "ip6" (Feeds6 n) "notrack"] else []) ++
  [MkRule "ip" (Feeds4 n) "drop"; MkRule "ip6" (Feeds6 n) "drop"].

Lemma layout_rules_ok m n c : c ∈ base_chains →
  rules_after m (initTableScript n) (Table n) c = layout_rules n (bool_decide (c = "prerouting")).
Proof.
  intros Hc. unfold initTableScript, chain_layout, drop_pair. cbn [app].
  assert (∀ pre post, initTableScript n = pre ++ FlushChain (Table n) c :: post → forallb (no_reset (Table n) c) post = true →
    rules_after m (initTableScript n) (Table n) c = concat (built (Table n) c <$> post)) as Hsplit.
  { intros pre post -> Hp. by apply rules_flushed. }
  unfold base_chains in Hc. rewrite !elem_of_cons, elem_of_nil in Hc. destruct Hc as [->|[->|[->|[]]]].
  - etransitivity; [apply (Hsplit (take 8 (initTableScript n)) (drop 9 (initTableScript n)))|]; [done| |]; cbn;
      repeat (rewrite ?bool_decide_eq_true_2, ?decide_True, ?decide_False by congruence; cbn); done.
  - etransitivity; [apply (Hsplit (take 20 (initTableScript n)) (drop 21 (initTableScript n)))|]; [done| |]; cbn;
      repeat (rewrite ?bool_decide_eq_true_2, ?decide_True, ?decide_False by congruence; cbn); done.
  - etransitivity; [apply (Hsplit (take 28 (initTableScript n)) (drop 29 (initTableScript n)))|]; [done| |]; cbn;
      repeat (rewrite ?bool_decide_eq_true_2, ?decide_True, ?decide_False by congruence; cbn); done.
Qed.

Lemma layout_verdict n notrack p :
  verdict (layout_rules n notrack) p =
  (if p_in p (if p_v4 p then Allow4 n else Allow6 n) then Accepted
   else if p_in p (if p_v4 p then Set4 n else Set6 n) || p_in p (if p_v4 p then Feeds4 n else Feeds6 n) then Dropped
   else Accepted).
Proof.
  unfold layout_rules. destruct notrack; destruct (p_v4 p) eqn:Hv; cbn -[p_in]; unfold matches; cbn -[p_in]; rewrite Hv; simpl;
    repeat match goal with |- context [p_in p ?x] => destruct (p_in p x); simpl end; done.
Qed.

(** The allowlist wins in the kernel too: after the layout script, on top of
    whatever rules the table had (a second boot, a hand edit), every one of the
    three base chains accepts a source in the allow set of its family, blocked
    or not, and otherwise drops exactly the sources in the blocked or the feed
    set; the auto-merge migration's script leaves the same verdicts. *)
Theorem layout_allow_wins m n c p els set :
  c ∈ base_chains →
  let expected := if p_in p (if p_v4 p then Allow4 n else Allow6 n) then Accepted
    else if p_in p (if p_v4 p then Set4 n else Set6 n) || p_in p (if p_v4 p then Feeds4 n else Feeds6 n) then Dropped
    else Accepted in
  verdict (rules_after m (initTableScript n) (Table n) c) p = expected ∧
  verdict (rules_after m (migrateAutoMergeScript n set els) (Table n) c) p = expected.
Proof.
  intros Hc expected. split; [by rewrite layout_rules_ok, layout_verdict|].
  replace (rules_after m (migrateAutoMergeScript n set els) (Table n) c) with
    (rules_after (foldl rule_effect m (take 4 (migrateAutoMergeScript n set els))) (initTableScript n) (Table n) c).
  { by rewrite layout_rules_ok, layout_verdict. }
  unfold migrateAutoMergeScript, rules_after. rewrite !foldl_app. cbn [take app].
  assert (∀ z : gmap (string * string) (list rule), foldl rule_effect z
    ((λ el, AddElement (Table n) set [(e_ip el, if 0 <? e_ttl el then ceil_seconds (e_ttl el) else 0)]) <$> els) = z) as Hz.
  { clear. induction els as [|el els IH]; intros z; [done|]. csimpl. by rewrite IH. }
  by rewrite Hz.
Qed.

Lemma layout_allow_wins_witness :
  let p := MkPacket true (λ s, bool_decide (s ∈ ["allowed"; "blocked"])) in
  verdict (rules_after ∅ (initTableScript defaultNames) DefaultTable "input") p = Accepted.
Proof.
  exact (proj1 (layout_allow_wins ∅ defaultNames "input" (MkPacket true (λ s, bool_decide (s ∈ ["allowed"; "blocked"]))) [] "blocked"
    ltac:(unfold base_chains; set_solver))).
Defined.
