(* ===== verification/NftClient.v ===== *)
(** The daemon's side of the helper socket: [internal/enforce/nftables.go].

    The socket is a parameter: [send] is one round trip, [None] when dialing,
    writing or decoding fails.  Go walks its maps in any order; the orders of a
    reconcile are arguments.  [Enforcer] is the receiver's mutable state. *)
From Stdlib Require Import Ascii.
From S2P Require Import Prelude GoStrings Netip NetipParse NetipShow Sdk Gate NftNames NftScript Canon Helper.

Class Transport (W : Type) := { send : Request → W → option Response * W }.

Inductive client_error :=
| CInit (e : name_error)
| CCapsUnsupported | CCapsNotAdvertised
| CTransport
| CHelper (verb : string) (e : option helper_error)
| CAllowlisted (key : string)
| CTarget
| CSync (step : string) (key : string) (e : client_error)
| CFeedsUnsupported.

Record Enforcer := MkEnf {
  c_allowlist : list prefix;
  c_table : string; c_set : string;
  capsDone : bool; capsErr : option client_error;
  initErr : option name_error;
  lastAdded : Z; lastRemoved : Z; firstSyncDone : bool; lastWasFirst : bool
}.

Definition FeatureCustomNames : string := "custom_names".

Definition New (al : list prefix) : Enforcer := MkEnf al EmptyString EmptyString false None None 0 0 false false.

(** Default names stay off the wire; an invalid pair breaks the enforcer. *)
Definition WithNames (table set : string) (e : Enforcer) : Enforcer :=
  match Resolve table set with
  | Err x => MkEnf (c_allowlist e) (c_table e) (c_set e) (capsDone e) (capsErr e) (Some x)
               (lastAdded e) (lastRemoved e) (firstSyncDone e) (lastWasFirst e)
  | Ok n => if IsDefault n then e
            else MkEnf (c_allowlist e) table set (capsDone e) (capsErr e) (initErr e)
                   (lastAdded e) (lastRemoved e) (firstSyncDone e) (lastWasFirst e)
  end.

(** [math.Ceil(ttl.Seconds())], never under one second. *)
Definition ttlSeconds (ttl : duration) : Z :=
  if decide (ttl = 0) then 0 else if ttl <? 0 then 1 else Z.max 1 (ceil_seconds ttl).

Definition targetKey (t : Target) : option string :=
  if IsValid (t_IP t) then Some (CanonicalIPKey (show_addr (t_IP t)))
  else if PIsValid (t_Prefix t) then Some (CanonicalIPKey (show_prefix (t_Prefix t)))
  else None.

Definition targetOverlapsAllowlist (t : Target) (al : list prefix) : bool :=
  if PIsValid (t_Prefix t) then existsb (Overlaps (t_Prefix t)) al
  else if IsValid (t_IP t) then existsb (λ p, Contains p (t_IP t)) al
  else false.

Definition isAllowlisted (e : Enforcer) (t : Target) : bool := targetOverlapsAllowlist t (c_allowlist e).

Definition caps_request : Request := MkRequest "caps" EmptyString 0 EmptyString EmptyString [].

Section client.
Context {W : Type} `{Transport W}.

Definition cli (A : Type) : Type := Enforcer * W → result client_error A * (Enforcer * W).
#[local] Instance cli_mret : MRet cli := λ A x s, (Ok x, s).
#[local] Instance cli_mbind : MBind cli := λ A B k m s,
  match m s with (Ok x, s') => k x s' | (Err e, s') => (Err e, s') end.
Definition fail {A} (e : client_error) : cli A := λ s, (Err e, s).
Definition get_enf : cli Enforcer := λ s, (Ok s.1, s).
Definition put_enf (f : Enforcer → Enforcer) : cli unit := λ s, (Ok tt, (f s.1, s.2)).
(** Any error of [m] is wrapped. *)
Definition wrap {A} (f : client_error → client_error) (m : cli A) : cli A := λ s,
  match m s with (Err e, s') => (Err (f e), s') | r => r end.
Definition round_trip (req : Request) : cli (option Response) := λ s,
  let '(r, w) := send req s.2 in (Ok r, (s.1, w)).

Definition caps_answer (r : option Response) : option client_error :=
  match r with
  | None => None
  | Some r => if negb (OK r) then Some CCapsUnsupported
              else if bool_decide (FeatureCustomNames ∈ Features r) then None else Some CCapsNotAdvertised
  end.

(** The probe runs once, whatever came of it. *)
Definition ensureCustomNamesSupported : cli unit :=
  e ← get_enf;
  if bool_decide (c_table e = EmptyString ∧ c_set e = EmptyString) then mret tt else
  _ ← (if capsDone e then mret tt else
       r ← round_trip caps_request;
       put_enf (λ e, MkEnf (c_allowlist e) (c_table e) (c_set e) true (caps_answer r) (initErr e)
                  (lastAdded e) (lastRemoved e) (firstSyncDone e) (lastWasFirst e)));
  e ← get_enf;
  match capsErr e with Some x => fail x | None => mret tt end.

Definition rpcResp (req : Request) : cli Response :=
  e ← get_enf;
  match initErr e with
  | Some x => fail (CInit x)
  | None =>
    _ ← ensureCustomNamesSupported;
    r ← round_trip (MkRequest (Verb req) (r_IP req) (TTLSeconds req) (c_table e) (c_set e) (Elements req));
    match r with
    | None => fail CTransport
    | Some r => if OK r then mret r else fail (CHelper (Verb req) (Error r))
    end
  end.

Definition verb_ip (verb ip : string) (ttl : Z) : Request := MkRequest verb ip ttl EmptyString EmptyString [].
Definition rpc (req : Request) : cli unit := _ ← rpcResp req; mret tt.

Definition Ban (t : Target) : cli unit :=
  e ← get_enf;
  if isAllowlisted e t then fail (CAllowlisted (default EmptyString (targetKey t))) else
  match targetKey t with
  | None => fail CTarget
  | Some ip => rpc (verb_ip "add" ip (ttlSeconds (t_TTL t)))
  end.

Definition Unban (t : Target) : cli unit :=
  match targetKey t with None => fail CTarget | Some ip => rpc (verb_ip "del" ip 0) end.

Definition listVerb (verb : string) : cli (list string) :=
  r ← rpcResp (verb_ip verb EmptyString 0); mret (IPs r).

(** ** The reconcile *)
Definition want_step (e : Enforcer) (m : gmap string Target) (t : Target) : gmap string Target :=
  if isAllowlisted e t then m else
  match targetKey t with None => m | Some k => <[k := t]> m end.
Definition wantSet (e : Enforcer) (want : list Target) : gmap string Target := foldl (want_step e) ∅ want.

Definition ttl_of (wants : gmap string Target) (k : string) : Z := ttlSeconds (from_option t_TTL 0 (wants !! k)).

(** How many elements were added, and the keys an existing interval covers. *)
Fixpoint add_pass (wants : gmap string Target) (cur : gset string) (ks : list string) : cli (Z * list string) :=
  match ks with
  | [] => mret (0, [])
  | k :: ks =>
    if decide (k ∈ cur) then add_pass wants cur ks else
    r ← wrap (CSync "add" k) (rpcResp (verb_ip "add" k (ttl_of wants k)));
    rest ← add_pass wants cur ks;
    mret (match Code r with
          | CodeCoveredByInterval => (rest.1, k :: rest.2)
          | _ => (1 + rest.1, rest.2)
          end)
  end.

Fixpoint del_pass (wants : gmap string Target) (ks : list string) : cli Z :=
  match ks with
  | [] => mret 0
  | k :: ks =>
    if decide (is_Some (wants !! k)) then del_pass wants ks else
    r ← wrap (CSync "del" k) (rpcResp (verb_ip "del" k 0));
    n ← del_pass wants ks;
    mret (match Code r with CodeAlreadyAbsent => n | _ => 1 + n end)
  end.

Fixpoint retry_pass (wants : gmap string Target) (ks : list string) : cli Z :=
  match ks with
  | [] => mret 0
  | k :: ks =>
    r ← wrap (CSync "retry" k) (rpcResp (verb_ip "add" k (ttl_of wants k)));
    n ← retry_pass wants ks;
    mret (match Code r with CodeCoveredByInterval => n | _ => 1 + n end)
  end.

(** The orders the two maps are walked in. *)
Record orders := MkOrders { o_want : list string → list string; o_current : list string → list string }.

Definition record_repairs (added removed : Z) : cli unit :=
  put_enf (λ e, MkEnf (c_allowlist e) (c_table e) (c_set e) (capsDone e) (capsErr e) (initErr e)
             added removed true (negb (firstSyncDone e))).

Definition canonical_set (l : list string) : gset string := list_to_set (CanonicalIPKey <$> l).

Definition Sync (o : orders) (want : list Target) : cli unit :=
  current ← wrap (CSync "list" EmptyString) (listVerb "list");
  let cur := canonical_set current in
  e ← get_enf;
  let wants := wantSet e want in
  ac ← add_pass wants cur (o_want o ((map_to_list wants).*1));
  removed ← del_pass wants (o_current o (elements cur));
  again ← (if 0 <? removed then retry_pass wants ac.2 else mret 0);
  record_repairs (ac.1 + again) removed.

Definition LastSyncRepairs (e : Enforcer) : Z * Z * bool := (lastAdded e, lastRemoved e, lastWasFirst e).

(** ** The allowlist mirror *)
Definition Allow (p : prefix) : cli unit := rpc (verb_ip "allow_add" (CanonicalIPKey (show_prefix p)) 0).
Definition Unallow (p : prefix) : cli unit := rpc (verb_ip "allow_del" (CanonicalIPKey (show_prefix p)) 0).

Fixpoint allow_pass (verb : string) (skip : gset string) (ks : list string) : cli unit :=
  match ks with
  | [] => mret tt
  | k :: ks =>
    if decide (k ∈ skip) then allow_pass verb skip ks else
    _ ← wrap (CSync verb k) (rpc (verb_ip verb k 0));
    allow_pass verb skip ks
  end.

Definition SyncAllowlist (o : orders) (want : list prefix) : cli unit :=
  current ← wrap (CSync "list" EmptyString) (listVerb "allow_list");
  let cur := canonical_set current in
  let wants := canonical_set (show_prefix <$> want) in
  _ ← allow_pass "allow_add" cur (o_want o (elements wants));
  allow_pass "allow_del" wants (o_current o (elements cur)).

(** A desired feed set beyond the cap is cut before it is sent. *)
Definition SyncFeeds (els : list FeedElement) : cli unit :=
  let els := if MaxFeedElements <? Z.of_nat (length els) then take (Z.to_nat MaxFeedElements) els else els in
  wrap (λ x, match x with CHelper _ (Some EUnknownVerb) => CFeedsUnsupported | _ => CSync "feeds" EmptyString x end)
    (rpc (MkRequest "feeds_sync" EmptyString 0 EmptyString EmptyString els)).

(** ** As a child of the gate and the fan-out *)
Definition run_cli {A} (m : cli A) (s : Enforcer * W) : bool * (Enforcer * W) :=
  match m s with (Ok _, s') => (true, s') | (Err _, s') => (false, s') end.

Definition nftables (o : orders) : enforcer (Enforcer * W) := MkEnforcer "nftables" true (λ c,
  match c with
  | Gate.Ban t => run_cli (Ban t)
  | Gate.Unban t => run_cli (Unban t)
  | Gate.Sync want => run_cli (Sync o want)
  | Gate.Allow p => run_cli (Allow p)
  | Gate.Unallow p => run_cli (Unallow p)
  | Gate.SyncAllowlist want => run_cli (SyncAllowlist o want)
  end).
End client.
Arguments cli W A : clear implicits.
