(* ===== verification/NftSync.v ===== *)
(** What a reconcile achieves, against an interface of the helper.

    [HelperSpec] is what [NftablesEnforcer.Sync] relies on while nobody else
    writes the sets and no time passes: elements of the kernel, the ones not
    expired, and the keys the helper lists.  NftHost.v discharges it with the
    real server. *)
From Stdlib Require Import Ascii.
From S2P Require Import Prelude GoStrings Netip NetipParse NetipShow Sdk NftNames NftScript Canon Helper NftClient.

(** ** Texts and the addresses they name (the kernel knows no zones) *)
Definition names_addr (s : string) (a : addr) : Prop :=
  match ParseAddr s with
  | Some b => a = withoutZone b
  | None => match ParsePrefix s with Some p => Contains p a = true | None => False end
  end.
Definition inside (s t : string) : Prop := ∀ a, wf_addr a → names_addr s a → names_addr t a.
Definition meets (s t : string) : Prop := ∃ a, wf_addr a ∧ names_addr s a ∧ names_addr t a.

Definition canonical (k : string) : Prop := validateIP k = None ∧ CanonicalIPKey k = k.

Lemma meets_inside s t k : inside s t → meets s k → meets t k.
Proof. intros Hi (a & Ha & Hs & Hk). exists a. auto. Qed.

Lemma meets_self k : validateIP k = None → meets k k.
Proof.
  unfold validateIP. case_decide; [done|]. intros Hv. unfold meets, names_addr. destruct (ParseAddr k) as [a|] eqn:Ea.
  - exists (withoutZone a). apply ParseAddr_wf in Ea as [Ha _]. split; [by destruct a|done].
  - destruct (ParsePrefix k) as [p|] eqn:Ep; [|done]. apply ParsePrefix_wf in Ep as Hp. pose proof Hp as (Ha & Hz & Hva & Hb).
    exists (paddr p). assert (Contains p (paddr p) = true); [|done]. apply Contains_spec; [done..|].
    split; [by destruct (paddr p)|done].
Qed.

(** ** The interface *)
Section spec.
Context {W : Type} `{Transport W} (tb set : string).

Definition wire (verb ip : string) (ttl : Z) : Request := MkRequest verb ip ttl tb set [].

Class HelperSpec := {
  ready : W → Prop;
  cached : W → gset string;
  element : W → string → Prop;
  live : W → string → Prop;
  live_element w e : live w e → element w e;
  cached_canonical w k : ready w → k ∈ cached w → canonical k;
  spec_caps w x w' : ready w → send caps_request w = (x, w') →
    ready w' ∧ cached w' = cached w ∧ ∀ e, (element w e → element w' e) ∧ (live w e → live w' e);
  spec_list w r w' : ready w → send (wire "list" EmptyString 0) w = (Some r, w') → OK r = true →
    ready w' ∧ (∀ k, k ∈ IPs r ↔ k ∈ cached w') ∧ ∀ k, k ∈ cached w' → element w' k;
  spec_add w k ttl r w' : ready w → canonical k → k ∉ cached w → 0 <= ttl → ttl * Second < 2 ^ 63 →
    send (wire "add" k ttl) w = (Some r, w') → OK r = true →
    ready w' ∧
    match Code r with
    | CodeCoveredByInterval => cached w' ⊆ cached w ∧ (∃ e, live w' e ∧ meets e k) ∧
        ∀ e, (element w e → element w' e) ∧ (live w e → live w' e)
    | _ => cached w' ⊆ {[k]} ∪ cached w ∧ live w' k ∧
        ∀ e, e ≠ k → (element w e → element w' e ∨ inside e k) ∧ (live w e → live w' e ∨ inside e k)
    end;
  spec_del w k r w' : ready w → canonical k → send (wire "del" k 0) w = (Some r, w') → OK r = true →
    ready w' ∧ cached w' ⊆ cached w ∖ {[k]} ∧
    ∀ e, e ≠ k ∨ Code r = CodeAlreadyAbsent → (element w e → element w' e) ∧ (live w e → live w' e)
}.
End spec.
Arguments HelperSpec W {_} tb set.
Arguments ready {W _ tb set _}.
Arguments cached {W _ tb set _}.
Arguments element {W _ tb set _}.
Arguments live {W _ tb set _}.
Arguments live_element {W _ tb set _}.
Arguments cached_canonical {W _ tb set _}.
Arguments spec_caps {W _ tb set _}.
Arguments spec_list {W _ tb set _}.
Arguments spec_add {W _ tb set _}.
Arguments spec_del {W _ tb set _}.

(** ** One request *)
Section client.
Context {W : Type} `{Transport W}.

Definition same_config (e e' : Enforcer) : Prop :=
  c_table e' = c_table e ∧ c_set e' = c_set e ∧ c_allowlist e' = c_allowlist e.

Lemma rpcResp_ok req e w r e' w' : rpcResp req (e, w) = (Ok r, (e', w')) →
  same_config e e' ∧ OK r = true ∧ ∃ w1, (w1 = w ∨ ∃ x, send caps_request w = (x, w1)) ∧
    send (MkRequest (Verb req) (r_IP req) (TTLSeconds req) (c_table e) (c_set e) (Elements req)) w1 = (Some r, w').
Proof.
  unfold rpcResp, mbind, cli_mbind, get_enf. simpl. destruct (initErr e); [by intros [=]|].
  destruct (ensureCustomNamesSupported (e, w)) as [[[]|x] [e1 w1]] eqn:Ee; [|by intros [=]].
  assert (same_config e e1 ∧ (w1 = w ∨ ∃ x, send caps_request w = (x, w1))) as [Hc Hw].
  { unfold ensureCustomNamesSupported, mbind, cli_mbind, get_enf in Ee. simpl in Ee. case_bool_decide; [injection Ee as <- <-; split; [done|by left]|].
    destruct (capsDone e) eqn:Ed; simpl in Ee.
    - destruct (capsErr e); [by injection Ee|]. injection Ee as <- <-. split; [done|by left].
    - unfold round_trip, put_enf in Ee. simpl in Ee. destruct (send caps_request w) as [x w2] eqn:Es. simpl in Ee.
      destruct (caps_answer x); [by injection Ee|]. injection Ee as <- <-. split; [done|]. eauto. }
  unfold round_trip. simpl. destruct (send _ w1) as [[r'|] w2] eqn:Es; [|by intros [=]].
  destruct (OK r') eqn:Eo; [|by intros [=]]. intros [= <- <- <-]. eauto 10.
Qed.
End client.

(** ** The reconcile *)
Section sync.
Context {W : Type} `{Transport W} {tb set : string} `{!HelperSpec W tb set}.
Variable (wants : gmap string Target).

(** What the desired state must be: canonical keys, lifetimes Go can add up. *)
Definition fits (t : Target) : Prop := t_TTL t < 2 ^ 63 - Second.
Hypothesis (Hwants : ∀ k t, wants !! k = Some t → canonical k ∧ fits t).

Abbreviation wanted k := (is_Some (wants !! k)).

(** Covered by a wanted element; covered by an unexpired one. *)
Definition by_wanted (w : W) (j : string) : Prop := ∃ e, wanted e ∧ element w e ∧ meets e j.
Definition by_live (w : W) (j : string) : Prop := ∃ e, live w e ∧ meets e j.

Lemma by_mono w w' j : (∀ e, (element w e → element w' e) ∧ (live w e → live w' e)) →
  (by_wanted w j → by_wanted w' j) ∧ (by_live w j → by_live w' j).
Proof.
  intros Hm. split; [intros (e & ? & He & ?)|intros (e & He & ?)]; exists e; [|split; [by apply Hm|done]].
  split; [done|]. split; [by apply Hm|done].
Qed.

Lemma ttlSeconds_bounds t : fits t → 0 <= ttlSeconds (t_TTL t) ∧ ttlSeconds (t_TTL t) * Second < 2 ^ 63.
Proof.
  unfold fits, ttlSeconds, ceil_seconds. intros Hf. case_decide; [by split; unfold Second|].
  destruct (Z.ltb_spec (t_TTL t) 0); [by split; unfold Second|]. 
  pose proof (Z.div_mod (- t_TTL t) Second ltac:(done)) as Hd. pose proof (Z.mod_pos_bound (- t_TTL t) Second ltac:(done)) as Hm.
  unfold Second in *. lia.
Qed.

(** Requests of one reconcile, whose state always names [tb] and [set]. *)
Definition ours (e : Enforcer) : Prop := c_table e = tb ∧ c_set e = set.

Lemma rpc_ready req e w r e' w' : ours e → ready w → Elements req = [] →
  rpcResp req (e, w) = (Ok r, (e', w')) →
  ours e' ∧ same_config e e' ∧ OK r = true ∧ ∃ w1, ready w1 ∧ cached w1 = cached w ∧
    (∀ e, (element w e → element w1 e) ∧ (live w e → live w1 e)) ∧
    send (wire tb set (Verb req) (r_IP req) (TTLSeconds req)) w1 = (Some r, w').
Proof.
  intros [Ht0 Hs0] Hr He Hrpc. apply rpcResp_ok in Hrpc as ((Ht & Hs & Ha) & Hok & w1 & Hw & Hsend).
  rewrite He, Ht0, Hs0 in Hsend. split; [unfold ours; by rewrite Ht, Hs|]. split; [done|]. split; [done|]. exists w1.
  destruct Hw as [->|[x Hx]]; [by auto 10|]. apply spec_caps in Hx as (? & ? & ?); auto.
Qed.

(** One addition of a wanted key that is not cached. *)
Lemma add_step k e w r e' w' : ours e → ready w → wanted k → k ∉ cached w →
  rpcResp (verb_ip "add" k (ttl_of wants k)) (e, w) = (Ok r, (e', w')) →
  ours e' ∧ ready w' ∧
  (∀ j, (by_wanted w j → by_wanted w' j) ∧ (by_live w j → by_live w' j)) ∧
  (if decide (Code r = CodeCoveredByInterval) then cached w' ⊆ cached w ∧ by_live w' k
   else cached w' ⊆ {[k]} ∪ cached w ∧ by_wanted w' k).
Proof.
  intros Ho Hr [t Hk] Hc Hrpc. destruct (Hwants k t Hk) as [Hcan Hfit]. pose proof (ttlSeconds_bounds t Hfit) as [Ht1 Ht2].
  apply rpc_ready in Hrpc as (Ho' & _ & Hok & w1 & Hr1 & Hc1 & Hm1 & Hs); [|done..].
  split; [done|]. unfold verb_ip, ttl_of in Hs. cbn [Verb r_IP TTLSeconds] in Hs. rewrite Hk in Hs. cbn [from_option] in Hs.
  apply spec_add in Hs as (Hr' & Hcode); [|done|done|by rewrite Hc1|done..]. split; [done|].
  case_decide as Hd.
  - rewrite Hd in Hcode. destruct Hcode as (Hsub & Hlive & Hm). rewrite Hc1 in Hsub.
    split; [|split; [done|exact Hlive]]. intros j. destruct (by_mono w w1 j Hm1), (by_mono w1 w' j Hm). auto.
  - assert (cached w' ⊆ {[k]} ∪ cached w1 ∧ live w' k ∧
        ∀ e, e ≠ k → (element w1 e → element w' e ∨ inside e k) ∧ (live w1 e → live w' e ∨ inside e k)) as (Hsub & Hlive & Hm).
    { by destruct (Code r). }
    clear Hcode. rewrite Hc1 in Hsub. split; [|split; [done|]].
    + intros j. destruct (by_mono w w1 j Hm1) as [HQ HP]. split.
      * intros (x & Hx & Hex & Hmx)%HQ. destruct (decide (x = k)) as [->|Hne]; [exists k; auto using live_element|].
        destruct (proj1 (Hm x Hne) Hex) as [He|Hi]; [by exists x|]. exists k.
        split; [by eexists|]. split; [by apply live_element|]. by eapply meets_inside.
      * intros (x & Hex & Hmx)%HP. destruct (decide (x = k)) as [->|Hne]; [by exists k|].
        destruct (proj2 (Hm x Hne) Hex) as [He|Hi]; [by exists x|]. exists k. split; [done|]. by eapply meets_inside.
    + exists k. split; [by eexists|]. split; [by apply live_element|]. apply meets_self, Hcan.
Qed.

Lemma wrap_ok {A} f (m : cli W A) s x s' : wrap f m s = (Ok x, s') → m s = (Ok x, s').
Proof. unfold wrap. destruct (m s) as [[|] ?]; by intros [= <- <-]. Qed.

(** Membership in the list a pass walks. *)
Ltac mem := repeat match goal with
  | H : _ ∈ _ :: _ |- _ => apply elem_of_cons in H as [->|H]
  | |- _ ∈ ?x :: _ => apply elem_of_cons; first [by left | right]
  end; try done.

Lemma add_pass_spec cur ks e w n cov e' w' :
  NoDup ks → (∀ k, k ∈ ks → wanted k) → (∀ k, k ∈ ks → k ∉ cur → k ∉ cached w) → ours e → ready w →
  add_pass wants cur ks (e, w) = (Ok (n, cov), (e', w')) →
  ours e' ∧ ready w' ∧ (∀ j, (by_wanted w j → by_wanted w' j) ∧ (by_live w j → by_live w' j)) ∧
  (∀ k, k ∈ cached w' → k ∈ cached w ∨ (k ∈ ks ∧ k ∉ cov)) ∧
  NoDup cov ∧ (∀ k, k ∈ cov → k ∈ ks ∧ (k ∉ cur) ∧ by_live w' k) ∧
  (∀ k, k ∈ ks → k ∉ cur → k ∈ cov ∨ by_wanted w' k).
Proof.
  intros Hnd. revert e w n cov e' w'. induction Hnd as [|k ks Hk Hnd IH]; intros e w n cov e' w' Hw Hc Ho Hr; cbn [add_pass].
  { intros [= <- <- <- <-]. split_and!; try done; [auto|apply NoDup_nil_2|by intros ? ?%elem_of_nil..]. }
  assert ((∀ x, x ∈ ks → wanted x) ∧ ∀ x, x ∈ ks → x ∉ cur → x ∉ cached w) as [Hw' Hc'].
  { split; intros x Hx; [apply Hw|apply Hc]; by mem. }
  case_decide as Hcur.
  { intros Hp. apply IH in Hp as (? & ? & ? & Hcc & ? & Hcov & Hres); [|done..].
    split_and!; try done.
    - intros x Hx. destruct (Hcc x Hx) as [|[? ?]]; [by left|]. right. by split; [mem|].
    - intros x Hx. destruct (Hcov x Hx) as (? & ? & ?). by split; [mem|].
    - intros x [->|Hx]%elem_of_cons Hxc; [done|auto]. }
  unfold mbind, cli_mbind. destruct (wrap _ _ _) as [[r|] [e1 w1]] eqn:Er; [|by intros [=]]. apply wrap_ok in Er.
  destruct (add_pass wants cur ks (e1, w1)) as [[[n2 cov2]|] [e2 w2]] eqn:Ep; [|by intros [=]]. intros Hret.
  apply add_step in Er as (Ho1 & Hr1 & Hm1 & Hcode); [|done|done|apply Hw; by mem|apply Hc; by mem].
  assert (∀ x, x ∈ cached w1 → x = k ∨ x ∈ cached w) as Hsub.
  { intros x Hx. case_decide; destruct Hcode as [Hsub _]; apply Hsub in Hx; [by right|].
    apply elem_of_union in Hx as [Hx%elem_of_singleton|]; auto. }
  apply IH in Ep as (Ho2 & Hr2 & Hm2 & Hcc & Hndc & Hcov & Hres); [|done| |done|done].
  2: { intros x Hx Hxc [->|Hx1]%Hsub; [done|]. by apply (Hc' x). }
  assert (∀ j, (by_wanted w j → by_wanted w2 j) ∧ (by_live w j → by_live w2 j)) as Hm.
  { intros j. destruct (Hm1 j), (Hm2 j). auto. }
  assert (k ∉ cov2) as Hkc by (intros Hin; by destruct (Hcov k Hin)).
  case_decide as Hd; destruct Hcode as [Hsub' Hby].
  - rewrite Hd in Hret. injection Hret as <- <- <- <-. split; [done|]. split; [done|]. split; [done|]. split.
    { intros x Hx. destruct (Hcc x Hx) as [Hx1|[Hx1 Hx2]]; [left; by apply Hsub'|]. right. split; [mem|].
      intros [->|]%elem_of_cons; done. }
    split; [by constructor|]. split.
    { intros x [->|Hx]%elem_of_cons; [split; [mem|split; [done|by apply Hm2]]|].
      destruct (Hcov x Hx) as (? & ? & ?). by split; [mem|]. }
    intros x [->|Hx]%elem_of_cons Hxc; [left; mem|]. destruct (Hres x Hx Hxc); [left; mem|by right].
  - assert (n = 1 + n2 ∧ cov = cov2 ∧ e2 = e' ∧ w2 = w') as (_ & -> & -> & ->) by (by destruct (Code r); injection Hret).
    split; [done|]. split; [done|]. split; [done|]. split.
    { intros x Hx. destruct (Hcc x Hx) as [[->|Hx1]%Hsub|[Hx1 Hx2]]; [right; split; [mem|done]|by left|right; split; [mem|done]]. }
    split; [done|]. split; [intros x Hx; destruct (Hcov x Hx) as (? & ? & ?); by split; [mem|]|].
    intros x [->|Hx]%elem_of_cons Hxc; [right; by apply Hm2|]. by apply Hres.
Qed.

Lemma retry_pass_spec ks e w n e' w' :
  NoDup ks → (∀ k, k ∈ ks → (wanted k) ∧ k ∉ cached w) → ours e → ready w →
  retry_pass wants ks (e, w) = (Ok n, (e', w')) →
  ours e' ∧ ready w' ∧ (∀ j, (by_wanted w j → by_wanted w' j) ∧ (by_live w j → by_live w' j)) ∧
  (∀ k, k ∈ cached w' → k ∈ cached w ∨ k ∈ ks) ∧ (∀ k, k ∈ ks → by_live w' k ∨ by_wanted w' k).
Proof.
  intros Hnd. revert e w n e' w'. induction Hnd as [|k ks Hk Hnd IH]; intros e w n e' w' Hw Ho Hr; cbn [retry_pass].
  { intros [= <- <- <-]. split_and!; try done; [auto|by intros ? ?%elem_of_nil]. }
  unfold mbind, cli_mbind. destruct (wrap _ _ _) as [[r|] [e1 w1]] eqn:Er; [|by intros [=]]. apply wrap_ok in Er.
  destruct (retry_pass wants ks (e1, w1)) as [[n2|] [e2 w2]] eqn:Ep; [|by intros [=]].
  intros [= _ <- <-]. destruct (Hw k ltac:(by mem)) as [Hwk Hck].
  apply add_step in Er as (Ho1 & Hr1 & Hm1 & Hcode); [|done..].
  assert (∀ x, x ∈ cached w1 → x = k ∨ x ∈ cached w) as Hsub.
  { intros x Hx. case_decide; destruct Hcode as [Hsub _]; apply Hsub in Hx; [by right|].
    apply elem_of_union in Hx as [Hx%elem_of_singleton|]; auto. }
  apply IH in Ep as (Ho2 & Hr2 & Hm2 & Hcc & Hres); [| |done|done].
  2: { intros x Hx. destruct (Hw x ltac:(by mem)) as [Hwx Hxc]. split; [done|]. by intros [->|]%Hsub. }
  split; [done|]. split; [done|]. split; [intros j; destruct (Hm1 j), (Hm2 j); auto|]. split.
  - intros x Hx. destruct (Hcc x Hx) as [[->|]%Hsub|]; [right; by mem|by left|right; by mem].
  - intros x [->|Hx]%elem_of_cons; [|auto]. case_decide; destruct Hcode as [_ Hby]; [left|right]; by apply Hm2.
Qed.

Lemma del_pass_spec ks e w n e' w' : (∀ k, k ∈ ks → canonical k) → ours e → ready w →
  del_pass wants ks (e, w) = (Ok n, (e', w')) →
  0 <= n ∧ ours e' ∧ ready w' ∧ (∀ j, by_wanted w j → by_wanted w' j) ∧ (n = 0 → ∀ j, by_live w j → by_live w' j) ∧
  (∀ k, k ∈ cached w' → k ∈ cached w ∧ (k ∈ ks → wanted k)).
Proof.
  revert e w n e' w'. induction ks as [|k ks IH]; intros e w n e' w' Hcan Ho Hr; cbn [del_pass].
  { intros [= <- <- <-]. split_and!; try done. intros k Hk. split; [done|]. by intros ?%elem_of_nil. }
  assert (∀ x, x ∈ ks → canonical x) as Hcan' by (intros x Hx; apply Hcan; by mem).
  case_decide as Hw.
  { intros Hp. apply IH in Hp as (? & ? & ? & ? & ? & Hcc); [|done..]. split_and!; try done.
    intros x Hx. destruct (Hcc x Hx) as [? Hin]. split; [done|]. intros [->|]%elem_of_cons; auto. }
  unfold mbind, cli_mbind. destruct (wrap _ _ _) as [[r|] [e1 w1]] eqn:Er; [|by intros [=]]. apply wrap_ok in Er.
  destruct (del_pass wants ks (e1, w1)) as [[n2|] [e2 w2]] eqn:Ep; [|by intros [=]].
  intros [= Hn <- <-]. apply rpc_ready in Er as (Ho1 & _ & Hok & w0 & Hr0 & Hc0 & Hm0 & Hs); [|done..].
  cbn [verb_ip Verb r_IP TTLSeconds] in Hs.
  apply spec_del in Hs as (Hr1 & Hsub & Hm); [|done|apply Hcan; by mem|done].
  apply IH in Ep as (Hn2 & Ho2 & Hr2 & HQ2 & HP2 & Hcc); [|done..].
  split; [destruct (Code r); lia|]. split; [done|]. split; [done|]. split; [|split].
  - intros j (x & Hx & Hex & Hmx). apply HQ2. exists x. split; [done|]. split; [|done].
    apply Hm; [left; intros ->; done|]. by apply Hm0.
  - intros H0 j (x & Hex & Hmx). assert (Code r = CodeAlreadyAbsent ∧ n2 = 0) as [Hcode ->] by (destruct (Code r); split; try done; lia).
    apply HP2; [done|]. exists x. split; [|done]. apply Hm; [by right|]. by apply Hm0.
  - intros x Hx. destruct (Hcc x Hx) as [Hx1 Hin]. apply Hsub in Hx1. rewrite Hc0 in Hx1.
    apply elem_of_difference in Hx1 as [Hx1 Hxk]. split; [done|].
    intros [->|]%elem_of_cons; [exfalso; by apply Hxk, elem_of_singleton|auto].
Qed.
End sync.

(** ** Targets and their keys *)
Lemma denote_canonical s d : denote s = Some d → canonical (CanonicalIPKey s).
Proof.
  intros H. pose proof (denote_key s d H) as Hk. split.
  - unfold validateIP. rewrite decide_False by (intros He; rewrite He in Hk; discriminate).
    unfold denote in Hk. destruct (ParseAddr _); [done|]. by destruct (ParsePrefix _).
  - by rewrite (CanonicalIPKey_spell _ _ Hk), (CanonicalIPKey_spell s d).
Qed.

Lemma targetKey_canonical t k : Gate.wf_target t → targetKey t = Some k → canonical k.
Proof.
  intros [Ha Hp]. unfold targetKey. destruct (IsValid (t_IP t)) eqn:Hv.
  - intros [= <-]. eapply denote_canonical. by apply denote_addr.
  - destruct (PIsValid (t_Prefix t)) eqn:Hpv; [|done]. intros [= <-]. specialize (Hp eq_refl).
    assert (∃ d, denote (show_prefix (t_Prefix t)) = Some d) as [d Hd]; [|by eapply denote_canonical].
    unfold denote. destruct (ParseAddr _); [by eexists|]. rewrite ParsePrefix_show by done. by eexists.
Qed.

Lemma wantSet_spec e want k : is_Some (wantSet e want !! k) ↔
  ∃ t, t ∈ want ∧ isAllowlisted e t = false ∧ targetKey t = Some k.
Proof.
  unfold wantSet. assert (∀ m, is_Some (foldl (want_step e) m want !! k) ↔
    is_Some (m !! k) ∨ ∃ t, t ∈ want ∧ isAllowlisted e t = false ∧ targetKey t = Some k) as Hg.
  { induction want as [|t want IH]; intros m; simpl.
    - split; [by left|]. intros [|(? & ?%elem_of_nil & _)]; done.
    - rewrite IH. clear IH. assert ((∃ x, x ∈ t :: want ∧ isAllowlisted e x = false ∧ targetKey x = Some k) ↔
        (isAllowlisted e t = false ∧ targetKey t = Some k) ∨ ∃ x, x ∈ want ∧ isAllowlisted e x = false ∧ targetKey x = Some k) as ->.
      { split; [intros (x & [->|Hx]%elem_of_cons & Hk)|intros [Hk|(x & Hx & Hk)]]; [by left|right; by exists x|exists t; set_solver|exists x; set_solver]. }
      assert (is_Some (want_step e m t !! k) ↔ is_Some (m !! k) ∨ (isAllowlisted e t = false ∧ targetKey t = Some k)) as ->; [|tauto].
      unfold want_step. destruct (isAllowlisted e t); [intuition congruence|]. destruct (targetKey t) as [k2|]; [|intuition congruence].
      destruct (decide (k2 = k)) as [->|Hne]; [rewrite lookup_insert_eq|rewrite lookup_insert_ne by done; intuition congruence].
      split; [auto|by eexists]. }
  rewrite Hg, lookup_empty. split; [intros [[? ?]|]; [done|auto]|auto].
Qed.

Lemma wantSet_from e want k t : wantSet e want !! k = Some t → t ∈ want ∧ targetKey t = Some k.
Proof.
  unfold wantSet. assert (∀ m, foldl (want_step e) m want !! k = Some t →
    m !! k = Some t ∨ t ∈ want ∧ targetKey t = Some k) as Hg.
  { induction want as [|x want IH]; intros m; simpl; [by left|]. intros [Hm|[? ?]]%IH; [|right; set_solver].
    unfold want_step in Hm. destruct (isAllowlisted e x); [by left|]. destruct (targetKey x) as [k2|] eqn:Ek; [|by left].
    destruct (decide (k2 = k)) as [->|Hne]; [|rewrite lookup_insert_ne in Hm by done; by left].
    rewrite lookup_insert_eq in Hm. injection Hm as ->. right. set_solver. }
  intros [?|?]%Hg; [by rewrite lookup_empty in *|done].
Qed.

Section converges.
Context {W : Type} `{Transport W} {tb set : string} `{!HelperSpec W tb set}.

Lemma Sync_facts o want e w e' w' :
  (∀ l, o_want o l ≡ₚ l) → (∀ l, o_current o l ≡ₚ l) → Forall (λ t, Gate.wf_target t ∧ fits t) want →
  ours (tb := tb) (set := set) e → ready w → Sync o want (e, w) = (Ok tt, (e', w')) →
  ready w' ∧ (∀ k, k ∈ cached w' → is_Some (wantSet e want !! k)) ∧
  (∀ k, is_Some (wantSet e want !! k) → ∃ x, element w' x ∧ meets x k).
Proof.
  intros Hp1 Hp2 Hwf Ho Hr. set (wants := wantSet e want).
  assert (∀ k t, wants !! k = Some t → canonical k ∧ fits t) as Hwants.
  { intros k t (Hin & Hk)%wantSet_from. rewrite Forall_forall in Hwf. destruct (Hwf t Hin). split; [by eapply targetKey_canonical|done]. }
  unfold Sync, mbind, cli_mbind. destruct (wrap _ _ _) as [[current|] [e1 w1]] eqn:El; [|by intros [=]].
  apply wrap_ok in El. unfold listVerb, mbind, cli_mbind in El.
  destruct (rpcResp _ _) as [[r|] [e0 w0]] eqn:Er; [|by injection El]. injection El as <- <- <-.
  apply rpc_ready in Er as (Ho0 & (_ & _ & Hal) & Hok & w2 & Hr2 & Hc2 & Hm2 & Hs); [|done..].
  apply spec_list in Hs as (Hr0 & Hips & Hel0); [|done..].
  assert (∀ k, k ∈ canonical_set (IPs r) ↔ k ∈ cached w0) as Hcur.
  { intros k. unfold canonical_set. rewrite elem_of_list_to_set, list_elem_of_fmap. split.
    - intros (x & -> & Hx). apply Hips in Hx. by destruct (cached_canonical w0 x Hr0 Hx) as [_ ->].
    - intros Hk. exists k. destruct (cached_canonical w0 k Hr0 Hk) as [_ Hc]. split; [done|]. by apply Hips. }
  unfold get_enf. cbn [fst snd]. assert (wantSet e0 want = wants) as ->.
  { unfold wants, wantSet, want_step, isAllowlisted. by rewrite Hal. }
  assert (∀ k, k ∈ o_want o (map_to_list wants).*1 ↔ is_Some (wants !! k)) as Hin.
  { intros k. rewrite Hp1, list_elem_of_fmap. split.
    - intros ([x t] & -> & Hx%elem_of_map_to_list). by eexists.
    - intros [t Ht]. exists (k, t). split; [done|]. by apply elem_of_map_to_list. }
  destruct (add_pass _ _ _ _) as [[[added cov]|] [e3 w3]] eqn:Ea; [|by intros [=]].
  apply add_pass_spec in Ea as (Ho3 & Hr3 & Hm3 & Hc3 & Hnd3 & Hcov & Hres); [|done| |by intros k ?%Hin|by intros k _; rewrite Hcur|done..].
  2: { rewrite Hp1. apply NoDup_fst_map_to_list. }
  destruct (del_pass _ _ _) as [[removed|] [e4 w4]] eqn:Ed; [|by intros [=]].
  apply del_pass_spec in Ed as (Hn4 & Ho4 & Hr4 & HQ4 & HP4 & Hc4); [| |done..].
  2: { intros k. rewrite Hp2, elem_of_elements, Hcur. by apply cached_canonical. }
  assert (∀ k, k ∈ cached w4 → is_Some (wants !! k)) as Hk4.
  { intros k (Hk & Hd)%Hc4. destruct (Hc3 k Hk) as [Hk0|[Hk0 _]]; [|by apply Hin]. apply Hd. by rewrite Hp2, elem_of_elements, Hcur. }
  assert (∀ k, is_Some (wants !! k) → k ∈ cov ∨ by_wanted wants w4 k) as Hk5.
  { intros k Hk. destruct (decide (k ∈ canonical_set (IPs r))) as [Hkc|Hkc].
    - right. apply HQ4, Hm3. exists k. apply Hcur in Hkc. split; [done|]. split; [by apply Hel0|].
      apply meets_self. by apply (cached_canonical w0 k Hr0 Hkc).
    - apply Hin in Hk. destruct (Hres k Hk Hkc); [by left|right; by apply HQ4]. }
  assert (∀ w5 k, by_live w5 k ∨ by_wanted wants w5 k → ∃ x, element w5 x ∧ meets x k) as Hdone.
  { intros w5 k [(x & Hx & ?)|(x & _ & ? & ?)]; exists x; auto using live_element. }
  destruct (0 <? removed) eqn:Hrm.
  - destruct (retry_pass _ _ _) as [[n|] [e5 w5]] eqn:Et; [|by intros [=]].
    apply retry_pass_spec in Et as (_ & Hr5 & Hm5 & Hc5 & Hres5); [|done|done| |done..].
    2: { intros k Hk. destruct (Hcov k Hk) as (Hkw & Hkc & _). split; [by apply Hin|]. intros (Hk3 & _)%Hc4.
         destruct (Hc3 k Hk3) as [Hk0|[_ ?]]; [|done]. by rewrite <- Hcur in Hk0. }
    intros [= <- <-]. split; [done|]. split.
    + intros k Hk. destruct (Hc5 k Hk) as [|Hkc]; [by apply Hk4|]. by apply Hin, Hcov.
    + intros k Hk. apply Hdone. destruct (Hk5 k Hk) as [Hkc|HQ]; [by apply Hres5|right; by apply Hm5].
  - intros [= <- <-]. split; [done|]. split; [done|]. intros k Hk. apply Hdone.
    destruct (Hk5 k Hk) as [Hkc|]; [|by right]. left. apply HP4; [lia|]. by apply Hcov.
Qed.

(** C38. The reconcile refines its specification: while nobody else writes the
    sets and within one instant of the clock, a successful Sync leaves the helper caching nothing but keys of
    wanted, non-allowlisted targets, and for every such target an element of
    the blocked sets (expired at most a second ago) shares an address with it,
    so that an address is enforced by its own element or by an interval around
    it, even when the interval that used to cover it was stale and went away. *)
Theorem Sync_refines o want e w e' w' :
  (∀ l, o_want o l ≡ₚ l) → (∀ l, o_current o l ≡ₚ l) → Forall (λ t, Gate.wf_target t ∧ fits t) want →
  ours (tb := tb) (set := set) e → ready w → Sync o want (e, w) = (Ok tt, (e', w')) →
  (∀ k, k ∈ cached w' → ∃ t, t ∈ want ∧ isAllowlisted e t = false ∧ targetKey t = Some k) ∧
  (∀ t k, t ∈ want → isAllowlisted e t = false → targetKey t = Some k → ∃ x, element w' x ∧ meets x k).
Proof.
  intros Hp1 Hp2 Hwf Ho Hr Hs. destruct (Sync_facts o want e w e' w') as (_ & Hc & He); [done..|]. split.
  - intros k Hk. by apply wantSet_spec, Hc.
  - intros t k Ht Ha Hk. apply He, wantSet_spec. by exists t.
Qed.
End converges.
