(* ===== verification/NftHost.v ===== *)
(** The helper meets the interface its client is proved against.

    A [host] is the server of Helper.v and its kernel behind the socket, at one
    reading of the clock.  [NftStrict] adds to [NftLaws] what the error texts
    the server looks for mean. *)
From Stdlib Require Import Ascii.
From S2P Require Import Prelude GoStrings Netip NetipParse NetipShow Sdk NftNames NftScript Canon Helper HelperSafety NftTest HelperScripts NftClient NftSync.

Class NftStrict (K : Type) `{NftLaws K} := {
  absent_gone t tb set ip k m k' d : Helper.run t [DelElement tb set ip] k = (Some m, k') → isNftAbsentErr m = true →
    elems k !! (tb, set, ip) = Some d → NftTest.live t d = false;
  overlap_live t tb set ip ttl k m k' : Helper.run t [AddElement tb set [(ip, ttl)]] k = (Some m, k') → isNftOverlapErr m = true →
    ∃ key d, elems k !! (tb, set, key) = Some d ∧ NftTest.live t d = true ∧ meets key ip
}.

(** A request's clock readings agree, and its map walks miss nothing. *)
Definition frozen (t : time) (v : env) : Prop :=
  t_exec v = t ∧ t_until v = t ∧ t_restore v = t ∧ t_now v = t ∧ ∀ l x, x ∈ order v l ↔ x ∈ l.

Record host (K : Type) (v : env) := Host { hw : world K }.
Arguments Host {K v}.
Arguments hw {K v}.

#[export] Instance host_transport {K} `{Nft K} {v : env} : Transport (host K v) := {
  send req h := let '(r, w) := dispatch v req (hw h) in (Some r, Host w)
}.

Lemma contained_inside k p e : ParseAddr k = None → ParsePrefix k = Some p → contained p e = true → inside e k.
Proof.
  intros Hk Hp Hc a Ha. pose proof (ParsePrefix_wf _ _ Hp) as Hwp. unfold names_addr, contained in *. rewrite Hk, Hp.
  assert (∀ q, wf_prefix q → Overlaps p q && (pbits p <=? pbits q) = true → Contains q a = true → Contains p a = true) as Hsub.
  { intros q Hq [Ho Hb%Z.leb_le]%andb_true_iff Hqa. apply Overlaps_spec in Ho as [Hf Hl]; [|done..].
    apply Contains_spec in Hqa as (Hfa & Hz & Hla); [|done..]. apply Contains_spec; [done..|]. rewrite Z.min_l in Hl by done.
    pose proof Hwp as (_ & _ & _ & Hn). pose proof Hq as (_ & _ & _ & Hnq).
    pose proof (same_family_bitlen _ _ Hfa) as HL. pose proof (same_family_bitlen _ _ Hf) as HL'.
    split; [by eapply same_family_trans|]. split; [done|]. rewrite Hl. eapply (lead_trans _ (pbits q)); [lia..|done]. }
  destruct (ParseAddr e) as [b|] eqn:Ee.
  - destruct (Contains p b) eqn:Ecb.
    + intros ->. assert (hasZone b = false) as Hz by (unfold Contains in Ecb; by destruct (hasZone b); [rewrite orb_true_r in Ecb|]).
      destruct b as [| |x z]; [done..|]. by rewrite (hasZone_nil _ _ Hz) in *.
    + destruct (ParsePrefix e) as [q|] eqn:Eq; [|done]. apply ParsePrefix_split in Eq as (l & bs & -> & Hl & Hb).
      assert (ParseAddr (l +:+ String "/" bs) = None) as Hn; [|by rewrite Hn in Ee].
      apply ParseAddr_slash. change (String "/" bs) with ("/" +:+ bs). rewrite !no_char_app, !andb_true_iff.
      split; [by eapply no_char_forall; [|exact Hl]|]. split; [done|]. by eapply no_char_forall; [|exact Hb].
  - destruct (ParsePrefix e) as [q|] eqn:Eq; [|done]. apply Hsub; [by eapply ParsePrefix_wf|done].
Qed.

Section host.
Context {K : Type} `{NftStrict K} (v : env) (t : time) (Hv : frozen t v).
Context (tb set : string) (n : Names) (Hn : Resolve tb set = Ok n).

Implicit Types (w : world K) (h : host K v).

Lemma frozen_clocks : clocks 0 v.
Proof. destruct Hv as (T1 & T2 & T3 & T4 & Ho). unfold clocks. rewrite T1, T2, T3, T4. split; [lia|]. split; [lia|]. intros l x. by apply Ho. Qed.

Definition h_ready h : Prop :=
  names (srv (hw h)) = n ∧ inv Second (B (hw h)) n (E (hw h)) ∧ ∀ k, k ∈ dom (B (hw h)) → canonical k.
Definition h_element h (e : string) : Prop :=
  ∃ kd, holds n (E (hw h)) e kd ∧ match kd with None => True | Some x => t <= x + Second end.
Definition h_live h (e : string) : Prop := ∃ kd, holds n (E (hw h)) e kd ∧ NftTest.live t kd = true.

Lemma h_live_element h e : h_live h e → h_element h e.
Proof.
  intros (kd & Hk & Hl). exists kd. split; [done|]. destruct kd as [x|]; [|done]. simpl in Hl. apply Z.ltb_lt in Hl. unfold Second. lia.
Qed.

(** The kernel's view at [e] decides both. *)
Lemma h_same h h' e : (∀ s, E (hw h') !! (Table n, s, e) = E (hw h) !! (Table n, s, e)) →
  (h_element h e → h_element h' e) ∧ (h_live h e → h_live h' e).
Proof.
  intros He. split; intros (kd & Hk & Hd); exists kd; (split; [|done]); unfold holds in *; by rewrite !He.
Qed.

Lemma resolve_pinned req w : r_Table req = tb → r_Set req = set → names (srv w) = n →
  resolveNames v req w = (Ok n, MkWorld (MkServer (blocked (srv w)) n true) (kern w) (torn w)).
Proof.
  intros Ht0 Hs0 Hw. unfold resolveNames. rewrite Ht0, Hs0, Hn. unfold mbind, hlp_mbind, get_srv. by rewrite decide_True by congruence.
Qed.

Lemma dispatch_ours verb k ttl w r w' : verb ∈ ["add"; "del"; "list"] → names (srv w) = n → OK r = true →
  dispatch v (wire tb set verb k ttl) w = (r, w') →
  ∃ w1, srv w1 = MkServer (B w) n true ∧ E w1 = E w ∧ dispatch_verb v n (wire tb set verb k ttl) w1 = (r, w').
Proof.
  intros Hverb Hw Hok Hd. destruct (verbs_of v (wire tb set verb k ttl) w r w' verb Hverb eq_refl Hd Hok) as (m & w1 & Hm & Hdv).
  rewrite resolve_pinned in Hm by done. injection Hm as <- <-. eexists. split; [|split; [|exact Hdv]]; reflexivity.
Qed.

(** Absorbing touches the listed keys only. *)
Lemma absorb_only ks w w' : absorb v n ks w = (None, w') →
  B w' ⊆ B w ∧ np w' = np w ∧ ∀ s x, x ∉ ks → E w' !! (Table n, s, x) = E w !! (Table n, s, x).
Proof.
  revert w. induction ks as [|k ks IH]; intros w; simpl; [by intros [= <-]|]. unfold mbind, hlp_mbind.
  destruct (nftDel _ n k w) as [e w1] eqn:Ed. pose proof (nftDel_only _ _ _ _ _ _ Ed) as Hon.
  apply nft_delete_spec in Ed as (Hs & Hv0). intros Hr.
  assert ((let '(_, w2) := cache (delete k) w1 in absorb v n ks w2) = (None, w')) as Hr'.
  { destruct e as [[]|]; try done. }
  simpl in Hr'. apply IH in Hr' as (Hb & Hnp & He). unfold B, np in *. simpl in *. rewrite Hs in *. split; [|split; [done|]].
  - etransitivity; [exact Hb|]. apply delete_subseteq.
  - intros s x [Hx Hxs]%not_elem_of_cons. rewrite He by done. change (E (MkWorld _ (kern w1) _)) with (E w1). by apply Hon.
Qed.

Lemma absorb_not_covered ks w w' : absorb v n ks w ≠ (Some ECovered, w').
Proof.
  revert w. induction ks as [|x ks IH]; intros w; simpl; [done|]. unfold mbind, hlp_mbind.
  destruct (nftDel _ n x w) as [e w1] eqn:Ed. assert (e ≠ Some ECovered).
  { unfold nftDel, nft_delete, mbind, hlp_mbind in Ed. destruct (setForIP n x); [|by injection Ed as <-].
    destruct (nft _ _ w) as [[m|] ?]; injection Ed as <- <-; [|done]. by destruct (isNftAbsentErr m). }
  destruct e as [[]|]; try done; apply IH.
Qed.

Lemma nftAdd_not_covered t0 k ttl w w' : nftAdd t0 n k ttl w ≠ (Some ECovered, w').
Proof.
  unfold nftAdd, nft_result, mbind, hlp_mbind. destruct (setForIP n k); [|done]. by destruct (nft _ _ w) as [[]].
Qed.

(** The key went in; elements inside it may have made room. *)
Definition went_in (k : string) (ttl : Z) w w' : Prop :=
  (∃ s, setForIP n k = Some s ∧ E w' !! (Table n, s, k) = Some (kernel_deadline (t_exec v) ttl)) ∧
  ∀ x, x ≠ k → inside x k ∨ ∀ s, E w' !! (Table n, s, x) = E w !! (Table n, s, x).

Lemma went_in_spec k ttl h h' : went_in k ttl (hw h) (hw h') → h_live h' k ∧
  ∀ e, e ≠ k → (h_element h e → h_element h' e ∨ inside e k) ∧ (h_live h e → h_live h' e ∨ inside e k).
Proof.
  intros [(s & Hset & Hl) Hoth]. split.
  - exists (kernel_deadline (t_exec v) ttl). split; [by eapply setForIP_holds|]. destruct Hv as (Ht & _). rewrite Ht.
    unfold kernel_deadline. destruct (Z.ltb_spec 0 ttl); [|done]. simpl. apply Z.ltb_lt. unfold Second. lia.
  - intros x Hx. destruct (Hoth x Hx) as [Hi|Hsame]; [split; by right|]. destruct (h_same h h' x Hsame). split; auto.
Qed.

Lemma add_went_in k ttl w w' : nftAdd (t_exec v) n k ttl w = (None, w') → went_in k ttl w w' ∧ srv w' = srv w.
Proof.
  intros Ha. pose proof (nftAdd_only _ _ _ _ _ _ _ Ha) as Hon. apply nftAdd_spec in Ha as (Hs & st & Hset & He).
  split; [|done]. split; [exists st; split; [done|]; rewrite He; apply lookup_insert_eq|]. intros x Hx. right. intros s. by apply Hon.
Qed.

Lemma overlapping_went_in k ttl w w' : addOverlapping v n k ttl w = (None, w') → went_in k ttl w w' ∧ B w' ⊆ B w.
Proof.
  unfold addOverlapping. destruct (ParseAddr k) eqn:Ek; [by intros [=]|]. unfold mbind, hlp_mbind, get_srv.
  destruct (absorb v n _ w) as [e w1] eqn:Ea. destruct e; [by intros [=]|].
  apply absorb_only in Ea as (Hb & _ & He). intros Hadd. apply add_went_in in Hadd as [[Hin Hoth] Hs].
  split; [|unfold B; rewrite Hs; exact Hb]. split; [done|]. intros x Hx. destruct (Hoth x Hx) as [Hi|Hsame]; [by left|].
  destruct Hin as (st & Hset & _).
  match type of He with context [List.filter _ ?l] => destruct (decide (x ∈ List.filter (contained (default PrefixNone (ParsePrefix k))) l)) as [Hxf|Hxf] end.
  - left. apply list_elem_of_In, filter_In in Hxf as [_ Hc]. destruct (ParsePrefix k) as [p|] eqn:Ep; [by eapply contained_inside|].
    unfold setForIP, setForIPIn in Hset. by rewrite Ek, Ep in Hset.
  - right. intros s. by rewrite Hsame, He.
Qed.

(** What [replace] does to a key that is not cached. *)
Lemma replace_new k ttl w go r w' : replace v n k ttl None w = ((go, r), w') →
  match r with
  | None => went_in k ttl w w' ∧ B w' ⊆ B w
  | Some ECovered => B w' = B w ∧ E w' = E w ∧ ∃ e, h_live (Host w) e ∧ meets e k
  | _ => True
  end.
Proof.
  unfold replace, mbind, hlp_mbind. cbn [mret hlp_mret]. destruct (nftAdd _ n k ttl w) as [e w1] eqn:Ea.
  destruct e as [e|]; [|intros [= <- <- <-]; apply add_went_in in Ea as [Hw Hs]; split; [done|unfold B; by rewrite Hs]].
  destruct (decide (e = ECovered)) as [->|Hne]; [by apply nftAdd_not_covered in Ea|].
  destruct e; try by (intros [= <- <- <-]). destruct (isNftOverlapErr msg) eqn:Eo; [|by intros [= <- <- <-]].
  destruct (addOverlapping v n k ttl w1) as [e2 w2] eqn:Ev. intros [= _ <- <-].
  pose proof Ea as Hsp. apply nftAdd_spec in Hsp as (Hs1 & He1). destruct e2 as [e2|].
  2: { apply overlapping_went_in in Ev as [[Hin Hoth] Hb]. unfold B in *. rewrite Hs1 in Hb. split; [|done]. split; [done|].
       intros x Hx. destruct (Hoth x Hx) as [|Hsame]; [by left|]. right. intros s. by rewrite Hsame, He1. }
  destruct (decide (e2 = ECovered)) as [->|]; [|by destruct e2].
  unfold addOverlapping in Ev. destruct (ParseAddr k) eqn:Ek.
  - injection Ev as <-. split; [unfold B; by rewrite Hs1|]. split; [done|]. unfold nftAdd in Ea.
    destruct (setForIP n k) as [st|] eqn:Es; [|done]. unfold nft_result, mbind, hlp_mbind in Ea.
    destruct (nft _ _ w) as [m w3] eqn:En. unfold nft in En. destruct (Helper.run _ _ (kern w)) as [m' k'] eqn:Er.
    injection En as <- <-. injection Ea as Em <-. destruct m' as [m'|]; [|done]. injection Em as ->.
    destruct (overlap_live _ _ _ _ _ _ _ _ Er Eo) as (key & d & Hk & Hl & Hm). exists key. split; [|done]. exists d. split; [|by rewrite <- (proj1 Hv)].
    unfold holds. cbn [hw]. unfold E. destruct (setForIP_set _ _ _ Es) as [-> | ->]; auto.
  - exfalso. unfold mbind, hlp_mbind, get_srv in Ev. destruct (absorb v n _ w1) as [e3 w3] eqn:E3.
    destruct e3 as [e3|].
    + injection Ev as -> <-. by eapply absorb_not_covered.
    + by apply nftAdd_not_covered in Ev.
Qed.

Lemma h_add h k ttl r h' : h_ready h → canonical k → k ∉ dom (B (hw h)) → 0 <= ttl → ttl * Second < 2 ^ 63 →
  send (wire tb set "add" k ttl) h = (Some r, h') → OK r = true →
  h_ready h' ∧
  match Code r with
  | CodeCoveredByInterval => dom (B (hw h')) ⊆ dom (B (hw h)) ∧ (∃ e, h_live h' e ∧ meets e k) ∧
      ∀ e, (h_element h e → h_element h' e) ∧ (h_live h e → h_live h' e)
  | _ => dom (B (hw h')) ⊆ {[k]} ∪ dom (B (hw h)) ∧ h_live h' k ∧
      ∀ e, e ≠ k → (h_element h e → h_element h' e ∨ inside e k) ∧ (h_live h e → h_live h' e ∨ inside e k)
  end.
Proof.
  intros (Hnm & Hinv & Hcan) [Hvk Hck] Hk Ht1 Ht2 Hs Hok. simpl in Hs.
  destruct (dispatch v _ (hw h)) as [r0 w'] eqn:Hd. injection Hs as -> <-. cbn [hw].
  apply dispatch_ours in Hd as (w1 & Hs1 & He1 & Hd); [|by apply (bool_decide_unpack _)|done..].
  unfold dispatch_verb in Hd. cbn [wire Verb r_IP TTLSeconds] in Hd.
  repeat (rewrite decide_False in Hd by done). rewrite decide_True in Hd by done. rewrite Hvk, Hck in Hd.
  assert (B w1 = B (hw h)) as HB1 by (unfold B; by rewrite Hs1).
  pose proof Hd as Hspec. apply (handle_add_spec 0) in Hspec as (Hnp' & Hinv' & _);
    [|lia|apply frozen_clocks|unfold ttl_ok, Second in *; lia|by rewrite HB1, He1].
  assert (names (srv w') = n) as Hn' by (injection Hnp' as -> _; by rewrite Hs1).
  assert (B w1 !! k = None) as Hkn by (rewrite HB1; by apply not_elem_of_dom).
  unfold handle_add, mbind, hlp_mbind, get_srv in Hd. fold (B w1) in Hd. rewrite Hkn in Hd.
  destruct (replace v n k ttl None w1) as [[go e] w2] eqn:Er. apply replace_new in Er.
  assert (∀ f u w3, cache f w2 = (tt, u) → killSocketsForIP k u = (tt, w3) → E w3 = E w2 ∧ B w3 = f (B w2)) as Hfin.
  { intros f u w3 [= <-]. unfold killSocketsForIP. destruct (ParseAddr k); by intros [= <-]. }
  destruct go; [|injection Hd as <- <-; by destruct e].
  destruct (decide (e = None ∨ e = Some ECovered)) as [He|He].
  2: { exfalso. destruct e as [e|]; [|by apply He; left].
       assert ((let '(_, w3) := rollback v n k None w2 in (failed e, w3)) = (r, w')) as Hf; [|by injection Hf as <- _].
       destruct e; try exact Hd. by destruct He; right. }
  destruct He as [-> | ->].
  - destruct Er as [Hin Hb]. destruct (cache _ w2) as [[] w3] eqn:Ec. destruct (killSocketsForIP k w3) as [[] w4] eqn:Ek.
    injection Hd as <- <-. destruct (Hfin _ _ _ Ec Ek) as [HE HB]. simpl.
    assert (dom (B w4) ⊆ {[k]} ∪ dom (B (hw h))) as Hsub.
    { rewrite HB, dom_insert_L, <- HB1. by apply union_mono_l, subseteq_dom. }
    split; [|split; [exact Hsub|]].
    + split; [done|]. split; [exact Hinv'|]. intros x Hx. apply Hsub, elem_of_union in Hx as [->%elem_of_singleton|Hx]; [done|by apply Hcan].
    + apply (went_in_spec k ttl h (Host w4)). cbn [hw]. unfold went_in in *. by rewrite HE, <- He1.
  - destruct Er as (Hb & HE2 & Hl). destruct (cache _ w2) as [[] w3] eqn:Ec. destruct (killSocketsForIP k w3) as [[] w4] eqn:Ek.
    injection Hd as <- <-. destruct (Hfin _ _ _ Ec Ek) as [HE HB]. cbn [Code ok_code]. rewrite HE2 in HE.
    assert (dom (B w4) ⊆ dom (B (hw h))) as Hsub.
    { rewrite HB, Hb, <- HB1. apply subseteq_dom, delete_subseteq. }
    split; [|split; [exact Hsub|]].
    + split; [done|]. split; [exact Hinv'|]. intros x Hx. by apply Hcan, Hsub.
    + split.
      * destruct Hl as (x & Hx & Hm). exists x. split; [|done]. revert Hx. apply (h_same (Host w1) (Host w4)). intros s. cbn [hw]. by rewrite HE.
      * intros x. apply h_same. intros s. cbn [hw]. by rewrite HE, He1.
Qed.

Lemma h_del h k r h' : h_ready h → canonical k → send (wire tb set "del" k 0) h = (Some r, h') → OK r = true →
  h_ready h' ∧ dom (B (hw h')) ⊆ dom (B (hw h)) ∖ {[k]} ∧
  ∀ e, e ≠ k ∨ Code r = CodeAlreadyAbsent → (h_element h e → h_element h' e) ∧ (h_live h e → h_live h' e).
Proof.
  intros (Hnm & Hinv & Hcan) [Hvk Hck] Hs Hok. simpl in Hs.
  destruct (dispatch v _ (hw h)) as [r0 w'] eqn:Hd. injection Hs as -> <-. cbn [hw].
  apply dispatch_ours in Hd as (w1 & Hs1 & He1 & Hd); [|by apply (bool_decide_unpack _)|done..].
  unfold dispatch_verb in Hd. cbn [wire Verb r_IP] in Hd.
  repeat (rewrite decide_False in Hd by done). rewrite decide_True in Hd by done. rewrite Hvk, Hck in Hd.
  assert (B w1 = B (hw h)) as HB1 by (unfold B; by rewrite Hs1).
  pose proof Hd as Hspec. apply (handle_del_spec 0) in Hspec as [Hnp Hinv'].
  assert (names (srv w') = n) as Hn' by (injection Hnp as -> _; by rewrite Hs1).
  rewrite HB1, He1 in Hinv'. specialize (Hinv' Hinv).
  unfold handle_del, mbind, hlp_mbind in Hd. destruct (nftDel _ n k w1) as [e w2] eqn:Ed.
  pose proof (nftDel_only _ _ _ _ _ _ Ed) as Hon. apply nft_delete_spec in Ed as (Hs2 & Hv2).
  assert (B w2 = B (hw h)) as HB2 by (unfold B in *; by rewrite Hs2).
  assert (e = None ∨ e = Some EElementAbsent) as He.
  { destruct e as [[]|]; auto; by injection Hd as <- _. }
  assert (B w' = delete k (B w2) ∧ E w' = E w2 ∧ (Code r = CodeAlreadyAbsent → e = Some EElementAbsent)) as (HB & HE & Hcode).
  { destruct He as [-> | ->]; by injection Hd as <- <-. }
  assert (dom (B w') ⊆ dom (B (hw h)) ∖ {[k]}) as Hsub by (by rewrite HB, HB2, dom_delete_L).
  split; [|split; [exact Hsub|]].
  - split; [done|]. split; [exact Hinv'|]. intros x Hx. apply Hsub, elem_of_difference in Hx as [Hx _]. by apply Hcan.
  - intros x Hx. apply h_same. intros s. cbn [hw]. rewrite HE. destruct Hx as [Hx|Hx]; [by rewrite (Hon _ _ _ Hx), He1|].
    rewrite (Hcode Hx) in Hv2. by rewrite Hv2, He1.
Qed.

Lemma h_list h r h' : h_ready h → send (wire tb set "list" EmptyString 0) h = (Some r, h') → OK r = true →
  h_ready h' ∧ (∀ k, k ∈ IPs r ↔ k ∈ dom (B (hw h'))) ∧ ∀ k, k ∈ dom (B (hw h')) → h_element h' k.
Proof.
  intros (Hnm & Hinv & Hcan) Hs Hok. simpl in Hs.
  destruct (dispatch v _ (hw h)) as [r0 w'] eqn:Hd. injection Hs as -> <-. cbn [hw].
  apply dispatch_ours in Hd as (w1 & Hs1 & He1 & Hd); [|by apply (bool_decide_unpack _)|done..].
  unfold dispatch_verb in Hd. cbn [wire Verb] in Hd.
  repeat (rewrite decide_False in Hd by done). rewrite decide_True in Hd by done.
  assert (B w1 = B (hw h)) as HB1 by (unfold B; by rewrite Hs1).
  pose proof Hd as Hspec. apply (handle_list_spec 0 v n) in Hspec as ([Hnp Hinv'] & HE & _); [|apply frozen_clocks].
  rewrite HB1, He1 in Hinv'. specialize (Hinv' Hinv). injection Hnp as Hn' _.
  injection Hd as <- <-. unfold B, E in *. cbn [srv blocked kern IPs] in *.
  assert (dom (filter (λ kd : string * option time, stale (t_now v) kd.2 = false) (blocked (srv w1))) ⊆ dom (blocked (srv (hw h)))) as Hsub.
  { rewrite HB1. apply dom_filter_subseteq. }
  split; [|split].
  - unfold h_ready, B, E. cbn [hw srv blocked kern names] in *. split; [by rewrite Hs1|]. split; [exact Hinv'|].
    intros x Hx. by apply Hcan, Hsub.
  - intros k. destruct Hv as (_ & _ & _ & _ & Ho). rewrite Ho, list_elem_of_fmap, elem_of_dom. split.
    + intros ([x d] & -> & Hx%elem_of_map_to_list). by eexists.
    + intros [d Hd]. exists (k, d). split; [done|]. by apply elem_of_map_to_list.
  - intros k [d Hd]%elem_of_dom. destruct (Hinv' k d Hd) as (kd & Hk & Ho). apply map_lookup_filter_Some in Hd as [_ Hst].
    exists kd. split; [exact Hk|]. unfold outlives in Ho. destruct kd as [x|]; [|done]. destruct d as [d|]; [|done].
    simpl in Hst. destruct Hv as (_ & _ & _ & Ht & _). rewrite Ht in Hst. apply Z.ltb_ge in Hst. lia.
Qed.

#[export] Instance host_spec : HelperSpec (host K v) tb set.
Proof.
  refine {| ready := h_ready; cached h := dom (B (hw h)); element := h_element; live := h_live |}.
  - apply h_live_element.
  - intros h k (_ & _ & Hcan). apply Hcan.
  - intros [w] x h' Hr. vm_compute (dispatch _ caps_request). simpl. by intros [= <- <-].
  - apply h_list.
  - apply h_add.
  - apply h_del.
Defined.
End host.

(** ** The scripted kernel is strict *)
Lemma live_keys_spec t m tb set x : x ∈ live_keys t m tb set ↔ ∃ d, m !! (tb, set, x) = Some d ∧ NftTest.live t d = true.
Proof.
  unfold live_keys. rewrite list_elem_of_omap. split.
  - intros ([[[tb' s'] y] d] & Hin%elem_of_map_to_list & Hx). simpl in Hx. case_decide as Hk; [|done].
    injection Hk as -> ->. destruct (NftTest.live t d) eqn:Hl; [|done]. injection Hx as ->. by exists d.
  - intros (d & Hd & Hl). exists ((tb, set, x), d). split; [by apply elem_of_map_to_list|]. simpl. by rewrite decide_True, Hl.
Qed.

Lemma toPrefix_names s a : plain a → Contains (toPrefix s) a = true → names_addr s a.
Proof.
  intros Ha. pose proof Ha as (Hwf & _). unfold toPrefix, names_addr. destruct (ParsePrefix s) as [p|] eqn:Ep.
  - rewrite Masked_contains by (done || by eapply ParsePrefix_wf). intros Hc.
    assert (ParseAddr s = None) as ->; [|done]. apply ParsePrefix_split in Ep as (l & bs & -> & Hl & Hb).
    apply ParseAddr_slash. change (String "/" bs) with ("/" +:+ bs). rewrite !no_char_app, !andb_true_iff.
    split; [by eapply no_char_forall; [|exact Hl]|]. split; [done|]. by eapply no_char_forall; [|exact Hb].
  - destruct (ParseAddr s) as [b|] eqn:Eb; [|done]. apply ParseAddr_wf in Eb as [Hb Hv].
    rewrite <- Gate.withoutZone_PrefixFrom. replace (BitLen b) with (BitLen (withoutZone b)) by (by destruct b).
    by apply host_contains; [apply Gate.withoutZone_plain|].
Qed.

Lemma toPrefix_wf s : toPrefix s = PrefixNone ∨ wf_prefix (toPrefix s).
Proof.
  unfold toPrefix. destruct (ParsePrefix s) as [p|] eqn:Ep; [right; by eapply Masked_wf, ParsePrefix_wf|].
  destruct (ParseAddr s) as [b|] eqn:Eb; [right|by left]. apply ParseAddr_wf in Eb as [Hb Hv].
  rewrite <- Gate.withoutZone_PrefixFrom. replace (BitLen b) with (BitLen (withoutZone b)) by (by destruct b).
  destruct (PrefixFrom_wf (withoutZone b) (BitLen (withoutZone b))) as [-> ?]; [by apply Gate.withoutZone_plain| |done].
  pose proof (BitLen_nonneg (withoutZone b)). lia.
Qed.

#[export] Instance nfttest_strict : NftStrict Kernel.
Proof.
  split.
  - intros t tb set ip k m k' d Hr _ Hd. simpl in Hr. unfold Apply in Hr. simpl in Hr.
    destruct (bool_decide (ip ∈ live_keys t k tb set)) eqn:Hin; [done|]. apply bool_decide_eq_false in Hin.
    rewrite live_keys_spec in Hin. destruct (NftTest.live t d) eqn:Hl; [|done]. exfalso. apply Hin. by exists d.
  - intros t tb set ip ttl k m k' Hr _. simpl in Hr. unfold Apply in Hr. simpl in Hr.
    destruct (overlaps (live_keys t k tb set) ip) eqn:Ho; [|done]. unfold overlaps in Ho.
    apply andb_true_iff in Ho as [_ (el & Hel & Hov)%existsb_exists]. apply list_elem_of_In, live_keys_spec in Hel as (d & Hd & Hl).
    exists el, d. split; [exact Hd|]. split; [done|].
    destruct (toPrefix_wf ip) as [Hn|Hw1]; [by rewrite Hn in Hov|]. destruct (toPrefix_wf el) as [Hn|Hw2].
    { rewrite Hn in Hov. unfold Overlaps in Hov. by rewrite orb_true_r in Hov. }
    apply Overlaps_iff in Hov as (a & Ha & H1 & H2); [|done..]. exists a. pose proof Ha as (? & _).
    split; [done|]. by split; apply toPrefix_names.
Qed.

(** ** A stale interval and the address it covered *)
Definition at5 : env := at_time (5 * Second).
Lemma at5_frozen : frozen (5 * Second) at5.
Proof. by repeat split. Qed.

Definition served : host Kernel at5 := Host (serve history booted).
Definition target (s : string) (ttl : duration) : Target := MkTarget (default AddrNone (ParseAddr s)) PrefixNone 0 EmptyString ttl.
Definition desired : list Target := [target "10.9.8.7" (60 * Second); target "198.51.100.9" 0].
Definition plain_orders : orders := MkOrders id id.
Definition synced := NftClient.Sync plain_orders desired (NftClient.New [], served).

Lemma target_fits s ttl : (ttl <? 2 ^ 63 - Second) = true → Gate.wf_target (target s ttl) ∧ fits (target s ttl).
Proof.
  intros H%Z.ltb_lt. split; [|exact H]. split; [|done]. cbn [target t_IP]. destruct (ParseAddr s) as [a|] eqn:Ea; [|done].
  by apply ParseAddr_wf in Ea as [? _].
Qed.

Lemma served_ready : h_ready at5 defaultNames served.
Proof.
  assert (Init (at_time 0) (MkWorld NewServer ∅ []) = (None, booted)) as Hb by (vm_compute; reflexivity).
  assert (good 0 (serve history booted)) as (_ & _ & Hinv).
  { apply serve_good; [lia|apply history_ok|]. exact (Init_good 0 (at_time 0) ∅ booted (at_time_clocks _) Hb). }
  assert (names (srv (serve history booted)) = defaultNames) as Hn by (vm_compute; reflexivity).
  split; [exact Hn|]. rewrite Hn in Hinv. split; [exact Hinv|]. intros k Hk. cbn [served hw] in Hk.
  replace (dom (B (serve history booted))) with ({["192.0.2.7"; "198.51.100.0/24"]} : gset string) in Hk by (vm_compute; reflexivity).
  apply elem_of_union in Hk as [->%elem_of_singleton| ->%elem_of_singleton]; split; vm_compute; reflexivity.
Qed.

Lemma Sync_refines_witness :
  synced.1 = Ok tt ∧ LastSyncRepairs synced.2.1 = (2, 2, true) ∧
  ∃ x, h_element at5 (5 * Second) defaultNames synced.2.2 x ∧ meets x "198.51.100.9".
Proof.
  assert (synced.1 = Ok tt) as Hok by (vm_compute; reflexivity). split; [exact Hok|]. split; [vm_compute; reflexivity|].
  assert (Forall (λ t, Gate.wf_target t ∧ fits t) desired) as Hwf.
  { unfold desired. apply Forall_cons_2; [by apply target_fits|]. apply Forall_cons_2; [by apply target_fits|]. apply Forall_nil_2. }
  assert (targetKey (target "198.51.100.9" 0) = Some "198.51.100.9") as Hk by (vm_compute; reflexivity).
  assert (target "198.51.100.9" 0 ∈ desired) as Hin by (apply list_elem_of_further, list_elem_of_here).
  assert (∀ s, s = synced → s.1 = Ok tt → ∃ x, h_element at5 (5 * Second) defaultNames s.2.2 x ∧ meets x "198.51.100.9") as Hgo.
  { intros [r [e' w']] Hs Hr. simpl in Hr. rewrite Hr in Hs. symmetry in Hs. cbn [snd].
    pose (Sp := host_spec (K := Kernel) at5 (5 * Second) at5_frozen EmptyString EmptyString defaultNames eq_refl).
    exact (proj2 (Sync_refines (HelperSpec0 := Sp) plain_orders desired (NftClient.New []) served e' w'
      (λ l, reflexivity l) (λ l, reflexivity l) Hwf (conj eq_refl eq_refl) served_ready Hs)
      (target "198.51.100.9" 0) "198.51.100.9" Hin eq_refl Hk). }
  by apply Hgo.
Defined.
