(* ===== verification/EnfState.v ===== *)
(** Honest enforcement-state reporting: [internal/daemon/enfstate.go].

    An enforcer call ends in one of four ways; [recordEnforceResult] folds it
    into the health record and says whether the state changed, which is when
    the daemon audits (and, armed, alerts). *)
From S2P Require Import Prelude GoStrings.

(** How a Ban or a Sync ended, with the text of its error. *)
Inductive outcome := Done | GateRefused | Throttled (detail : string) | Failed (detail : string).

#[export] Instance outcome_eq_dec : EqDecision outcome.
Proof. solve_decision. Defined.

Inductive EnforcementState := EnfActive | EnfDryRun | EnfDegraded | EnfDisabled.

Definition enfThrottleFlipStreak : Z := 3.

Record enfHealth := MkHealth { degraded : bool; lastErr : string; throttleStreak : Z }.
Definition healthy : enfHealth := MkHealth false EmptyString 0.

Definition enforcementState (hasEnforcer armed : bool) (h : enfHealth) : EnforcementState * string :=
  if negb hasEnforcer then (EnfDisabled, EmptyString) else
  if negb armed then (EnfDryRun, EmptyString) else
  if degraded h then (EnfDegraded, lastErr h) else (EnfActive, EmptyString).

Inductive transition := ToDegraded (detail : string) | Recovered.

(** A change of [degraded], as it is audited. *)
Definition transition_of (was : bool) (h : enfHealth) : option transition :=
  if Bool.eqb was (degraded h) then None
  else if degraded h then Some (ToDegraded (lastErr h)) else Some Recovered.

Definition recordEnforceResult (hasEnforcer : bool) (o : outcome) (h : enfHealth) : enfHealth * option transition :=
  if negb hasEnforcer then (h, None) else
  match o with
  | GateRefused => (h, None)
  | Done => let h' := MkHealth false EmptyString 0 in (h', transition_of (degraded h) h')
  | Throttled d =>
    let n := throttleStreak h + 1 in
    if degraded h || (enfThrottleFlipStreak <=? n)
    then let h' := MkHealth true d n in (h', transition_of (degraded h) h')
    else (MkHealth (degraded h) (lastErr h) n, None)
  | Failed d => let h' := MkHealth true d 0 in (h', transition_of (degraded h) h')
  end.

(** ** A history of calls *)
Fixpoint run_health (os : list outcome) (h : enfHealth) : enfHealth * list transition :=
  match os with
  | [] => (h, [])
  | o :: os =>
    let '(h', t) := recordEnforceResult true o h in
    let '(h'', ts) := run_health os h' in
    (h'', match t with Some x => x :: ts | None => ts end)
  end.

(** What has happened since the last success. *)
Fixpoint since_done (acc os : list outcome) : list outcome :=
  match os with
  | [] => acc
  | Done :: os => since_done [] os
  | o :: os => since_done (acc ++ [o]) os
  end.

Definition is_failed (o : outcome) : bool := match o with Failed _ => true | _ => false end.
Definition is_throttled (o : outcome) : bool := match o with Throttled _ => true | _ => false end.

Definition ailing (os : list outcome) : bool :=
  existsb is_failed os || (enfThrottleFlipStreak <=? Z.of_nat (length (List.filter is_throttled os))).

(** Audited transitions alternate, beginning with the one [deg] is waiting for. *)
Fixpoint alternating (deg : bool) (ts : list transition) : Prop :=
  match ts with
  | [] => True
  | ToDegraded _ :: ts => deg = false ∧ alternating true ts
  | Recovered :: ts => deg = true ∧ alternating false ts
  end.

Definition last_state (deg : bool) (ts : list transition) : bool :=
  match last ts with Some (ToDegraded _) => true | Some Recovered => false | None => deg end.

(** The health record after [seg], all since the last success. *)
Definition tracks (seg : list outcome) (h : enfHealth) : Prop :=
  degraded h = ailing seg ∧
  (existsb is_failed seg = false → throttleStreak h = Z.of_nat (length (List.filter is_throttled seg))) ∧ 0 <= throttleStreak h.

Lemma throttled_app seg o : Z.of_nat (length (List.filter is_throttled (seg ++ [o]))) =
  Z.of_nat (length (List.filter is_throttled seg)) + (if is_throttled o then 1 else 0).
Proof. rewrite List.filter_app, length_app, Nat2Z.inj_add. f_equal. cbn. by destruct (is_throttled o). Qed.

Lemma tracks_step seg h o : o ≠ Done → tracks seg h → tracks (seg ++ [o]) (recordEnforceResult true o h).1.
Proof.
  unfold tracks, ailing. rewrite throttled_app, existsb_app. intros Hne (Hd & Hs & H0).
  set (n := Z.of_nat _) in *. assert (0 <= n) by lia. clearbody n. destruct o as [| |d|d]; [done|..];
    cbn [existsb is_failed is_throttled orb recordEnforceResult negb].
  - rewrite !orb_false_r, Z.add_0_r. auto.
  - rewrite !orb_false_r. destruct (existsb is_failed seg) eqn:Hf; cbn [orb] in *.
    + rewrite Hd. cbn [orb fst degraded throttleStreak]. split; [done|]. split; [done|lia].
    + rewrite (Hs eq_refl) in *. rewrite Hd. unfold enfThrottleFlipStreak.
      destruct (Z.leb_spec 3 n), (Z.leb_spec 3 (n + 1)); cbn [orb fst degraded throttleStreak]; (split; [|split; [done|lia]]); try done; lia.
  - rewrite orb_true_r. cbn [fst degraded throttleStreak orb]. split; [done|]. split; [done|lia].
Qed.

Lemma run_tracks os seg h : tracks seg h → tracks (since_done seg os) (run_health os h).1.
Proof.
  revert seg h. induction os as [|o os IH]; intros seg h Ht; [done|]. cbn [run_health].
  destruct (recordEnforceResult true o h) as [h' t] eqn:Er. destruct (run_health os h') as [h'' ts] eqn:Eh.
  change (h'') with ((h'', ts).1). rewrite <- Eh. destruct (decide (o = Done)) as [->|Hne].
  - cbn [since_done]. apply IH. simpl in Er. injection Er as <- _. done.
  - assert (since_done seg (o :: os) = since_done (seg ++ [o]) os) as -> by (by destruct o). apply IH.
    replace h' with (recordEnforceResult true o h).1 by (by rewrite Er). by apply tracks_step.
Qed.

Lemma step_transition o h : match (recordEnforceResult true o h).2 with
  | None => degraded (recordEnforceResult true o h).1 = degraded h
  | Some (ToDegraded d) => degraded h = false ∧ degraded (recordEnforceResult true o h).1 = true ∧
      d = lastErr (recordEnforceResult true o h).1
  | Some Recovered => degraded h = true ∧ degraded (recordEnforceResult true o h).1 = false
  end.
Proof.
  destruct h as [deg err n]. destruct o as [| |d|d]; cbn -[Z.leb]; [by destruct deg|done| |by destruct deg].
  destruct deg; cbn -[Z.leb]; [done|]. by destruct (_ <=? _).
Qed.

Lemma run_transitions os h : let r := run_health os h in
  alternating (degraded h) r.2 ∧ degraded r.1 = last_state (degraded h) r.2.
Proof.
  revert h. induction os as [|o os IH]; intros h; cbn zeta; [done|]. cbn [run_health]. pose proof (step_transition o h) as Hs.
  destruct (recordEnforceResult true o h) as [h' t]. simpl in Hs. destruct (IH h') as [Ha Hl].
  destruct (run_health os h') as [h'' ts]. cbn [fst snd] in *. destruct t as [[d|]|].
  - destruct Hs as (Hd & Hd' & _). rewrite Hd' in *. split; [by split|]. rewrite Hl. unfold last_state. rewrite last_cons. by destruct (last ts) as [[]|].
  - destruct Hs as (Hd & Hd'). rewrite Hd' in *. split; [by split|]. rewrite Hl. unfold last_state. rewrite last_cons. by destruct (last ts) as [[]|].
  - by rewrite <- Hs.
Qed.

(** The reported state never overstates nor lags: after any history of
    enforcer calls from a fresh daemon the state is DEGRADED exactly when,
    since the last success, a call failed for real or three were throttled
    (gate refusals count for nothing); one success makes it ACTIVE again,
    whatever came before; and the audited transitions alternate and end in the
    current state, so none is missed and none is repeated. *)
Theorem enf_state_history os : let r := run_health os healthy in
  degraded r.1 = ailing (since_done [] os) ∧
  (enforcementState true true (run_health (os ++ [Done]) healthy).1).1 = EnfActive ∧
  alternating false r.2 ∧ degraded r.1 = last_state false r.2.
Proof.
  intros r. split; [|split; [|apply (run_transitions os healthy)]].
  - apply (run_tracks os [] healthy). by split.
  - assert (degraded (run_health (os ++ [Done]) healthy).1 = false) as Hd.
    { destruct (run_tracks (os ++ [Done]) [] healthy) as (-> & _); [by split|].
      assert (∀ seg, since_done seg (os ++ [Done]) = []) as ->; [|done].
      induction os as [|[]]; intros seg; simpl; auto. }
    unfold enforcementState. by rewrite Hd.
Qed.

Example throttle_flips :
  (run_health [Throttled "a"; GateRefused; Throttled "b"; Throttled "c"; Done; Failed "d"] healthy).2 =
  [ToDegraded "c"; Recovered; ToDegraded "d"].
Proof. vm_compute. reflexivity. Qed.
