(* ===== verification/Recheck.v ===== *)
(** Deferred work: the retry queue of [internal/daemon/sshrecheck.go], which
    [gatedban.go] shares.

    One entry per address: when it is due, how much of its retry budget is
    spent, and the AI verdict a re-check replays.  A tick pops what is due, in
    the order Go walks the map, and handles it; a handler that is refused again
    requeues. *)
From S2P Require Import Prelude GoStrings Netip Sdk SSHPeers.

Definition defaultSSHRecheckDelay : duration := 2 * SSHPeerCacheTTL.
Definition sshRecheckMaxAttempts : Z := 15.
Definition sshRecheckMaxPending : nat := 1024.

Record sshRecheckEntry := MkEntry { e_due : time; e_attempts : Z; e_ai : option Verdict }.
Record sshRecheckItem := MkItem { it_ip : addr; it_attempts : Z; it_ai : option Verdict }.

(** [pending] of [sshRecheckQueue]. *)
Abbreviation sshRecheckQueue := (gmap addr sshRecheckEntry).

(** Rearms [ip] afresh; [false] when the queue is full and [ip] is not in it. *)
Definition schedule (ip : addr) (due : time) (ai : option Verdict) (q : sshRecheckQueue) : bool * sshRecheckQueue :=
  match q !! ip with
  | Some _ => (true, <[ip := MkEntry due 0 ai]> q)
  | None => if (sshRecheckMaxPending <=? size q)%nat then (false, q) else (true, <[ip := MkEntry due 0 ai]> q)
  end.

(** Rearms with [attempts] already spent, unless a fresh entry is there. *)
Definition requeue (ip : addr) (attempts : Z) (due : time) (ai : option Verdict) (q : sshRecheckQueue) : bool * sshRecheckQueue :=
  if sshRecheckMaxAttempts <=? attempts then (false, q) else
  match q !! ip with
  | Some _ => (true, q)
  | None => if (sshRecheckMaxPending <=? size q)%nat then (false, q) else (true, <[ip := MkEntry due attempts ai]> q)
  end.

Definition is_due (now : time) (e : sshRecheckEntry) : bool := e_due e <=? now.

Definition due_items (now : time) (order : list addr → list addr) (q : sshRecheckQueue) : list sshRecheckItem :=
  omap (λ ip, (λ e, MkItem ip (e_attempts e) (e_ai e)) <$> q !! ip)
    (order (map_to_list (filter (λ kv, is_due now kv.2 = true) q)).*1).

Definition due (now : time) (order : list addr → list addr) (q : sshRecheckQueue) : list sshRecheckItem * sshRecheckQueue :=
  (due_items now order q, filter (λ kv, is_due now kv.2 = false) q).

Definition elevated_step (banThreshold : Z) (acc : Z * option Verdict) (v : Verdict) : Z * option Verdict :=
  if has_prefix "ai:" (v_Source v)
  then if (banThreshold <=? Score v) && (match acc.2 with None => true | Some b => Score b <? Score v end)
       then (acc.1, Some v) else acc
  else (if acc.1 <? Score v then Score v else acc.1, acc.2).

(** The AI verdict without which the rules alone would not have banned. *)
Definition elevatedAIVerdict (vs : list Verdict) (banThreshold : Z) : option Verdict :=
  let '(nonAI, best) := fold_left (elevated_step banThreshold) vs (0, None) in
  if banThreshold <=? nonAI then None else best.

(** ** Ticks *)

(** A handler says whether the item must be tried again; requeueing happens at
    [now + delay] with one more attempt spent. *)
Definition again_step (delay now : time) (again : sshRecheckItem → bool) (acc : sshRecheckQueue * list addr) (it : sshRecheckItem) :
    sshRecheckQueue * list addr :=
  let '(q, dropped) := acc in
  if again it
  then let '(ok, q') := requeue (it_ip it) (it_attempts it + 1) (now + delay) (it_ai it) q in
       (q', if (ok : bool) then dropped else dropped ++ [it_ip it])
  else (q, dropped).

(** One tick: the items handled, the queue after it, the addresses given up on. *)
Definition tick (delay now : time) (order : list addr → list addr) (again : sshRecheckItem → bool) (q : sshRecheckQueue) :
    list sshRecheckItem * sshRecheckQueue * list addr :=
  let '(its, q') := due now order q in
  let '(q'', dropped) := fold_left (again_step delay now again) its (q', []) in
  (its, q'', dropped).

Record tick_in := MkTick { tk_now : time; tk_order : list addr → list addr; tk_again : sshRecheckItem → bool }.

(** A run of the queue: ticks, and between them the refusals that arm an address
    afresh. *)
Inductive queue_op := OTick (t : tick_in) | ORearm (ip : addr) (due : time) (ai : option Verdict).

(** How often [ip] is handled over a run, and the queue at its end. *)
Fixpoint handled (delay : time) (ip : addr) (ops : list queue_op) (q : sshRecheckQueue) : Z * sshRecheckQueue :=
  match ops with
  | [] => (0, q)
  | OTick t :: ops =>
    let '(its, q', _) := tick delay (tk_now t) (tk_order t) (tk_again t) q in
    let '(n, q'') := handled delay ip ops q' in
    (Z.of_nat (length (List.filter (λ it, bool_decide (it_ip it = ip)) its)) + n, q'')
  | ORearm ip' due ai :: ops => handled delay ip ops (schedule ip' due ai q).2
  end.

Definition ticks (ops : list queue_op) : list tick_in := omap (λ o, match o with OTick t => Some t | _ => None end) ops.
Definition rearms (ip : addr) (ops : list queue_op) : Z :=
  Z.of_nat (length (List.filter (λ o, match o with ORearm ip' _ _ => bool_decide (ip' = ip) | _ => false end) ops)).

(** ** The budget *)
Definition orders_ok (order : list addr → list addr) : Prop := ∀ l, order l ≡ₚ l.

(** The attempts [ip] has left. *)
Definition fuel_of (ip : addr) (q : sshRecheckQueue) : Z :=
  match q !! ip with Some e => Z.max 1 (sshRecheckMaxAttempts - e_attempts e) | None => 0 end.

Lemma due_item now order q it : orders_ok order → it ∈ due_items now order q →
  ∃ e, q !! it_ip it = Some e ∧ is_due now e = true ∧ it_attempts it = e_attempts e.
Proof.
  intros Ho. unfold due_items. rewrite list_elem_of_omap. intros (ip & Hip & Hit). rewrite (Ho _) in Hip.
  apply list_elem_of_fmap in Hip as ([ip' e] & -> & [Hq Hd]%elem_of_map_to_list%map_lookup_filter_Some). cbn [fst snd] in *.
  rewrite Hq in Hit. injection Hit as <-. by exists e.
Qed.

Lemma due_items_NoDup now order q : orders_ok order → NoDup (it_ip <$> due_items now order q).
Proof.
  intros Ho. unfold due_items. assert (NoDup (order (map_to_list (filter (λ kv, is_due now kv.2 = true) q)).*1)) as Hnd.
  { rewrite (Ho _). apply NoDup_fst_map_to_list. }
  induction Hnd as [|ip l Hip Hnd IH]; csimpl; [constructor|].
  destruct (q !! ip) as [e|]; csimpl; [|done]. constructor; [|done].
  intros ([ip' a b] & He & Hin)%list_elem_of_fmap. simpl in He. subst ip'. apply list_elem_of_omap in Hin as (x & Hx & Hf).
  destruct (q !! x); [|done]. injection Hf as <- _ _. done.
Qed.

Lemma due_item_iff now order q ip : orders_ok order →
  (∃ it, it ∈ due_items now order q ∧ it_ip it = ip) ↔ ∃ e, q !! ip = Some e ∧ is_due now e = true.
Proof.
  intros Ho. split.
  - intros (it & Hit & <-). apply due_item in Hit as (e & ? & ? & _); [|done]. by exists e.
  - intros (e & He & Hd). exists (MkItem ip (e_attempts e) (e_ai e)). split; [|done]. apply list_elem_of_omap. exists ip.
    rewrite (Ho _), He. split; [|done]. apply list_elem_of_fmap. exists (ip, e). split; [done|].
    by apply elem_of_map_to_list, map_lookup_filter_Some.
Qed.

(** Handling other addresses leaves [ip] alone. *)
Lemma again_other delay now again its q d ip : ip ∉ it_ip <$> its →
  (fold_left (again_step delay now again) its (q, d)).1 !! ip = q !! ip.
Proof.
  revert q d. induction its as [|it its IH]; intros q d; csimpl; [done|]. intros [Hne Hni]%not_elem_of_cons.
  destruct (again it); [|by apply IH]. unfold requeue. destruct (_ <=? _); [by apply IH|].
  destruct (q !! it_ip it); [by apply IH|]. destruct (_ <=? _)%nat; [by apply IH|]. rewrite IH by done. by apply lookup_insert_ne.
Qed.

(** Where the one item of [ip] leaves it. *)
Lemma again_one delay now again its q d ip it : NoDup (it_ip <$> its) → it ∈ its → it_ip it = ip → q !! ip = None →
  0 <= it_attempts it →
  fuel_of ip (fold_left (again_step delay now again) its (q, d)).1 <= sshRecheckMaxAttempts - it_attempts it - 1 ∨
  fuel_of ip (fold_left (again_step delay now again) its (q, d)).1 = 0.
Proof.
  intros Hnd Hit Hip Hq H0. revert q d Hq. induction its as [|x its IH]; intros q d Hq; [by apply elem_of_nil in Hit|].
  csimpl in Hnd. apply NoDup_cons in Hnd as [Hx Hnd]. apply elem_of_cons in Hit as [->|Hit].
  - rewrite Hip in Hx. cbn [fold_left again_step]. unfold fuel_of. rewrite <- Hip.
    destruct (again x); [|rewrite again_other, Hip, Hq by (by rewrite Hip); by right].
    unfold requeue. rewrite Hip, Hq. unfold sshRecheckMaxAttempts. destruct (Z.leb_spec 15 (it_attempts x + 1)).
    { rewrite again_other, Hq by done. by right. }
    destruct (_ <=? _)%nat; [rewrite again_other, Hq by done; by right|].
    rewrite again_other, lookup_insert_eq by done. simpl. left. lia.
  - assert (it_ip x ≠ ip) as Hne. { intros He. apply Hx. rewrite He, <- Hip. apply list_elem_of_fmap. by exists it. }
    cbn [fold_left again_step]. destruct (again x); [|by apply IH]. unfold requeue.
    destruct (_ <=? _); [by apply IH|]. destruct (q !! it_ip x); [by apply IH|]. destruct (_ <=? _)%nat; [by apply IH|].
    apply IH; [done|done|]. by rewrite lookup_insert_ne.
Qed.

Definition attempts_ok (q : sshRecheckQueue) : Prop := ∀ ip e, q !! ip = Some e → 0 <= e_attempts e.

Lemma again_attempts delay now again its q d : attempts_ok q → Forall (λ it, 0 <= it_attempts it) its →
  attempts_ok (fold_left (again_step delay now again) its (q, d)).1.
Proof.
  intros Hq Hits. revert q d Hq. induction Hits as [|it its Hit Hits IH]; intros q d Hq; [done|]. cbn [fold_left again_step].
  destruct (again it); [|by apply IH]. unfold requeue. destruct (_ <=? _); [by apply IH|].
  destruct (q !! it_ip it); [by apply IH|]. destruct (_ <=? _)%nat; [by apply IH|]. apply IH.
  intros ip e. destruct (decide (ip = it_ip it)) as [->|Hne]; [rewrite lookup_insert_eq; intros [= <-]; simpl; lia|].
  rewrite lookup_insert_ne by done. apply Hq.
Qed.

(** One tick handles [ip] at most once, and spends budget when it does. *)
Lemma tick_budget delay t ip q : orders_ok (tk_order t) → attempts_ok q →
  let '(its, q', _) := tick delay (tk_now t) (tk_order t) (tk_again t) q in
  attempts_ok q' ∧ Z.of_nat (length (List.filter (λ it, bool_decide (it_ip it = ip)) its)) + fuel_of ip q' <= fuel_of ip q.
Proof.
  intros Ho Hq. unfold tick, due. set (its := due_items (tk_now t) (tk_order t) q).
  destruct (fold_left _ its _) as [q'' d] eqn:Ef.
  assert (q'' = (fold_left (again_step delay (tk_now t) (tk_again t)) its (filter (λ kv, is_due (tk_now t) kv.2 = false) q, [])).1) as -> by (by rewrite Ef).
  clear Ef. set (q1 := filter _ q). assert (attempts_ok q1) as Hq1 by (intros x e [He _]%map_lookup_filter_Some; by eapply Hq).
  split.
  { apply again_attempts; [done|]. apply Forall_forall. intros it Hit. apply due_item in Hit as (e & He & _ & ->); [|done]. by eapply Hq. }
  pose proof (due_items_NoDup (tk_now t) (tk_order t) q Ho) as Hnd. fold its in Hnd.
  destruct (decide (ip ∈ it_ip <$> its)) as [Hin|Hni].
  - apply list_elem_of_fmap in Hin as (it & Hip & Hit). pose proof (due_item _ _ _ _ Ho Hit) as (e & He & Hd & Ha).
    rewrite <- Hip in He. assert (q1 !! ip = None) as Hn. { apply map_lookup_filter_None. right. intros x Hx. simpl. congruence. }
    assert (length (List.filter (λ it, bool_decide (it_ip it = ip)) its) = 1%nat) as ->.
    { clear -Hnd Hip Hit. induction its as [|x its IH]; [by apply elem_of_nil in Hit|]. csimpl in *. apply NoDup_cons in Hnd as [Hx Hnd].
      apply elem_of_cons in Hit as [->|Hit].
      - rewrite bool_decide_eq_true_2 by done. simpl. f_equal. clear -Hx Hip. induction its as [|y its IH]; [done|]. csimpl in *.
        apply not_elem_of_cons in Hx as [Hne Hx]. rewrite bool_decide_eq_false_2 by congruence. by apply IH.
      - rewrite bool_decide_eq_false_2; [by apply IH|]. intros He. apply Hx. rewrite He, Hip. apply list_elem_of_fmap. by exists it. }
    pose proof (again_one delay (tk_now t) (tk_again t) its q1 [] ip it Hnd Hit (eq_sym Hip) Hn ltac:(rewrite Ha; by eapply Hq)) as Hf.
    unfold fuel_of at 2. rewrite He, <- Ha. lia.
  - assert (length (List.filter (λ it, bool_decide (it_ip it = ip)) its) = 0%nat) as ->.
    { clear -Hni. induction its as [|x its IH]; [done|]. csimpl in *. apply not_elem_of_cons in Hni as [Hne Hni].
      rewrite bool_decide_eq_false_2 by congruence. by apply IH. }
    unfold fuel_of. rewrite again_other by done. unfold q1. destruct (q !! ip) as [e|] eqn:He.
    + destruct (is_due (tk_now t) e) eqn:Hd.
      * exfalso. apply Hni. destruct (proj2 (due_item_iff (tk_now t) (tk_order t) q ip Ho)) as (it & Hit & <-); [by exists e|].
        apply list_elem_of_fmap. by exists it.
      * erewrite map_lookup_filter_Some_2; [|exact He|done]. lia.
    + rewrite map_lookup_filter, He. simpl. lia.
Qed.

Lemma schedule_ok ip due ai q : attempts_ok q → attempts_ok (schedule ip due ai q).2.
Proof.
  intros Hq. assert (attempts_ok (<[ip := MkEntry due 0 ai]> q)) as Hn.
  { intros x e. destruct (decide (x = ip)) as [->|]; [rewrite lookup_insert_eq; by intros [= <-]|rewrite lookup_insert_ne by done; apply Hq]. }
  unfold schedule. destruct (q !! ip); [done|]. by destruct (_ <=? _)%nat.
Qed.

Lemma schedule_other ip ip' due ai q : ip' ≠ ip → (schedule ip' due ai q).2 !! ip = q !! ip.
Proof. intros Hne. unfold schedule. destruct (q !! ip'); [|destruct (_ <=? _)%nat]; simpl; rewrite ?lookup_insert_ne; done. Qed.

Lemma fuel_nonneg ip q : 0 <= fuel_of ip q.
Proof. unfold fuel_of. destruct (q !! ip); lia. Qed.

Lemma fuel_range ip q : attempts_ok q → 0 <= fuel_of ip q <= sshRecheckMaxAttempts.
Proof. intros Hq. unfold fuel_of, sshRecheckMaxAttempts. destruct (q !! ip) as [e|] eqn:He; [|lia]. pose proof (Hq ip e He). lia. Qed.

Lemma schedule_budget ip ip' due ai q : attempts_ok q →
  fuel_of ip (schedule ip' due ai q).2 <= fuel_of ip q + if decide (ip' = ip) then sshRecheckMaxAttempts else 0.
Proof.
  intros Hq. pose proof (fuel_range ip q Hq). case_decide as Hip.
  - pose proof (fuel_range ip _ (schedule_ok ip' due ai q Hq)). lia.
  - unfold fuel_of. rewrite schedule_other by done. lia.
Qed.

Lemma handled_budget delay ip ops q : Forall (λ t, orders_ok (tk_order t)) (ticks ops) → attempts_ok q →
  (handled delay ip ops q).1 + fuel_of ip (handled delay ip ops q).2 <= fuel_of ip q + sshRecheckMaxAttempts * rearms ip ops.
Proof.
  revert q. induction ops as [|[t|ip' due ai] ops IH]; intros q Ho Hq; cbn [handled fst snd]; [unfold rearms; simpl; lia| |].
  - apply Forall_cons in Ho as [Ht Ho]. pose proof (tick_budget delay t ip q Ht Hq) as Hb. destruct (tick _ _ _ _ q) as [[its q'] d].
    destruct Hb as [Hq' Hb]. specialize (IH q' Ho Hq'). destruct (handled delay ip ops q') as [n q'']. cbn [fst snd] in *.
    unfold rearms in *. simpl. lia.
  - specialize (IH _ Ho (schedule_ok ip' due ai q Hq)). pose proof (schedule_budget ip ip' due ai q Hq) as Hs.
    unfold rearms in *. simpl. case_decide as Hip; [rewrite bool_decide_true by done|rewrite bool_decide_false by done]; simpl length; lia.
Qed.

(** Ticks at which whatever was requeued before is due again. *)
Fixpoint spaced (delay from : time) (ts : list tick_in) : Prop :=
  match ts with [] => True | t :: ts => from <= tk_now t ∧ spaced delay (tk_now t + delay) ts end.

Definition due_by (ip : addr) (t : time) (q : sshRecheckQueue) : Prop := ∀ e, q !! ip = Some e → e_due e <= t.

Lemma again_due delay now again its q d ip t : due_by ip t q → now + delay <= t →
  due_by ip t (fold_left (again_step delay now again) its (q, d)).1.
Proof.
  intros Hq Ht. revert q d Hq. induction its as [|it its IH]; intros q d Hq; [done|]. cbn [fold_left again_step].
  destruct (again it); [|by apply IH]. unfold requeue. destruct (_ <=? _); [by apply IH|].
  destruct (q !! it_ip it); [by apply IH|]. destruct (_ <=? _)%nat; [by apply IH|]. apply IH.
  intros e. destruct (decide (ip = it_ip it)) as [->|Hne]; [rewrite lookup_insert_eq; by intros [= <-]|].
  rewrite lookup_insert_ne by done. apply Hq.
Qed.

(** A tick after [ip] is due pops it; what is left of it is due [delay] later. *)
Lemma tick_due delay t ip q : orders_ok (tk_order t) → attempts_ok q → due_by ip (tk_now t) q →
  let '(its, q', _) := tick delay (tk_now t) (tk_order t) (tk_again t) q in
  due_by ip (tk_now t + delay) q' ∧ (fuel_of ip q' = 0 ∨ fuel_of ip q' < fuel_of ip q).
Proof.
  intros Ho Hq Hd. pose proof (tick_budget delay t ip q Ho Hq) as Hb. unfold tick, due in *.
  set (its := due_items (tk_now t) (tk_order t) q) in *.
  destruct (fold_left _ its _) as [q'' d] eqn:Ef. destruct Hb as [_ Hb].
  assert (q'' = (fold_left (again_step delay (tk_now t) (tk_again t)) its (filter (λ kv, is_due (tk_now t) kv.2 = false) q, [])).1) as Hq'' by (by rewrite Ef).
  assert (filter (λ kv, is_due (tk_now t) kv.2 = false) q !! ip = None) as Hn.
  { apply map_lookup_filter_None. destruct (q !! ip) as [e|] eqn:He; [right|by left]. intros x [= <-]. cbn [snd]. unfold is_due.
    specialize (Hd e He). destruct (Z.leb_spec (e_due e) (tk_now t)); [done|lia]. }
  split.
  - rewrite Hq''. apply again_due; [|done]. intros e. by rewrite Hn.
  - destruct (q !! ip) as [e|] eqn:He.
    + right. destruct (proj2 (due_item_iff (tk_now t) (tk_order t) q ip Ho)) as (it & Hit & Hip).
      { exists e. split; [done|]. unfold is_due. apply Z.leb_le. by apply Hd. }
      assert (1 <= Z.of_nat (length (List.filter (λ it, bool_decide (it_ip it = ip)) its))) as H1; [|lia].
      assert (it ∈ List.filter (λ it, bool_decide (it_ip it = ip)) its) as Hf.
      { apply list_elem_of_In, filter_In. split; [by apply list_elem_of_In|by apply bool_decide_eq_true]. }
      destruct (List.filter _ its); [by apply elem_of_nil in Hf|]. simpl. lia.
    + left. assert (fuel_of ip q = 0) as H0 by (unfold fuel_of; by rewrite He).
      assert (0 <= fuel_of ip q'') by (unfold fuel_of; destruct (q'' !! ip); lia). lia.
Qed.

Lemma fuel_none ip q : fuel_of ip q = 0 ↔ q !! ip = None.
Proof. unfold fuel_of. destruct (q !! ip); split; try done; lia. Qed.

Lemma handled_gone delay ip ops q : Forall (λ t, orders_ok (tk_order t)) (ticks ops) → attempts_ok q → rearms ip ops = 0 →
  (∀ d, head (ticks ops) = Some d → due_by ip (tk_now d) q) → spaced delay (from_option tk_now 0 (head (ticks ops))) (ticks ops) →
  fuel_of ip q <= Z.of_nat (length (ticks ops)) → (handled delay ip ops q).2 !! ip = None.
Proof.
  revert q. induction ops as [|[t|ip' due ai] ops IH]; intros q Ho Hq Hr Hd Hs Hf; cbn [handled].
  { cbn [snd] in *. apply fuel_none. unfold fuel_of in *. destruct (q !! ip); cbn [ticks omap list_omap length] in Hf; lia. }
  - change (ticks (OTick t :: ops)) with (t :: ticks ops) in *. apply Forall_cons in Ho as [Ht Ho].
    pose proof (tick_due delay t ip q Ht Hq (Hd t eq_refl)) as Hstep. pose proof (tick_budget delay t ip q Ht Hq) as Hb.
    destruct (tick _ _ _ _ q) as [[its q'] d]. destruct Hstep as [Hd' Hf']. destruct Hb as [Hq' _].
    assert ((handled delay ip ops q').2 !! ip = None) as Hn; [|by destruct (handled delay ip ops q')].
    destruct Hs as [_ Hs]. apply IH; [done|done|exact Hr| | |].
    + destruct (ticks ops) as [|t2 ts]; [done|]. intros ? [= <-] e He. destruct Hs as [Hle _]. specialize (Hd' e He). simpl in *. lia.
    + destruct (ticks ops) as [|t2 ts]; [done|]. destruct Hs as [Hle Hs]. simpl in *. split; [lia|done].
    + cbn [length] in Hf. lia.
  - change (ticks (ORearm ip' due ai :: ops)) with (ticks ops) in *. unfold rearms in Hr. simpl in Hr. case_bool_decide as Hip; [simpl in Hr; lia|].
    apply IH; [done|by apply schedule_ok|exact Hr| |done|].
    + intros d Hh e. rewrite schedule_other by done. by apply Hd.
    + unfold fuel_of. by rewrite schedule_other.
Qed.

(** C40. Deferred work ends: over any run of ticks and fresh refusals, whatever the
    handler finds, an address is handled at most as often as it has attempts left
    (fifteen less those spent) and fifteen times more for each fresh refusal of it,
    which alone arms it anew; and it is not left lying: once as many ticks as it
    has attempts left have come, the first when it is due and each at least the
    delay after the one before, without a fresh refusal of it, it has left the
    queue, done or given up. *)
Theorem recheck_terminates delay ip ops q :
  Forall (λ t, orders_ok (tk_order t)) (ticks ops) → attempts_ok q →
  let left := match q !! ip with Some e => Z.max 1 (15 - e_attempts e) | None => 0 end in
  (handled delay ip ops q).1 <= left + 15 * rearms ip ops ∧
  (rearms ip ops = 0 → left <= Z.of_nat (length (ticks ops)) → (∀ t, head (ticks ops) = Some t → due_by ip (tk_now t) q) →
   spaced delay (from_option tk_now 0 (head (ticks ops))) (ticks ops) → (handled delay ip ops q).2 !! ip = None).
Proof.
  intros Ho Hq left. change left with (fuel_of ip q). split.
  - pose proof (handled_budget delay ip ops q Ho Hq) as Hb. pose proof (fuel_nonneg ip (handled delay ip ops q).2).
    unfold sshRecheckMaxAttempts in Hb. lia.
  - intros Hr Hl Hd Hs. by apply handled_gone.
Qed.

Definition refusing (n : Z) : list queue_op :=
  (λ i, OTick (MkTick (4 * Second * (i + 1)) (λ l, l) (λ _, true))) <$> seqZ 0 n.
Definition refused_twice : sshRecheckQueue := {[Addr4 7 := MkEntry (4 * Second) 2 None]}.

(** An address with two attempts spent: thirteen more, and fifteen after a fresh
    refusal. *)
Lemma recheck_terminates_witness :
  (handled (4 * Second) (Addr4 7) (refusing 20) refused_twice).1 = 13 ∧
  (handled (4 * Second) (Addr4 7) (refusing 20) refused_twice).1 <= 13 ∧
  (handled (4 * Second) (Addr4 7) (refusing 20) refused_twice).2 !! Addr4 7 = None ∧
  (handled (4 * Second) (Addr4 7) (refusing 3 ++ [ORearm (Addr4 7) Second None] ++ refusing 20) refused_twice).1 = 18 ∧
  (handled (4 * Second) (Addr4 7) (refusing 3 ++ [ORearm (Addr4 7) Second None] ++ refusing 20) refused_twice).1 <= 28.
Proof.
  split; [vm_compute; reflexivity|].
  assert (∀ n, Forall (λ t, orders_ok (tk_order t)) (ticks (refusing n))) as Ho.
  { intros n. unfold refusing, ticks. induction (seqZ 0 n) as [|i l IH]; [constructor|]. csimpl. constructor; [by intros k|exact IH]. }
  assert (attempts_ok refused_twice) as Hq.
  { intros x e. unfold refused_twice. intros [<- <-]%lookup_singleton_Some. done. }
  destruct (recheck_terminates (4 * Second) (Addr4 7) (refusing 20) refused_twice (Ho _) Hq) as [H1 H2].
  split; [exact H1|]. split; [apply H2; [done|done| |]|split; [vm_compute; reflexivity|]].
  - intros t [= <-] e. unfold refused_twice. intros [_ <-]%lookup_singleton_Some. done.
  - vm_compute. by repeat split.
  - apply (recheck_terminates (4 * Second) (Addr4 7) (refusing 3 ++ [ORearm (Addr4 7) Second None] ++ refusing 20) refused_twice); [|exact Hq].
    unfold ticks. rewrite !omap_app. apply Forall_app. split; [apply Ho|]. apply Forall_app. split; [constructor|apply Ho].
Defined.
