(* ===== verification/Feeds.v ===== *)
(** Reputation feeds: [internal/daemon/feeds.go], the part that does not touch
    the rest of the daemon.

    A refresh is filtered through the daemon's guards; an observe feed flags
    addresses in memory, a block feed contributes to the elements the packet
    filter's feed sets are replaced by. *)
From S2P Require Import Prelude GoStrings Netip NetipParse Sdk NftScript.

Definition feedReputationBoost : Z := 15.

Record FeedUpdate := MkUpdate {
  fu_Name : string; fu_Action : string; fu_TTL : duration; fu_Interval : duration; Prefixes : list prefix
}.

Record FeedStatusEntry := MkFeedStatus {
  fs_Name : string; fs_Action : string; LastRefresh : time; NextRefresh : option time; Entries : Z; Skipped : Z
}.

(** ** The observe-mode lookup *)
Record feedReputation := MkRep { hosts : gmap addr string; wide : list (prefix * string) }.

Definition newFeedReputation : feedReputation := MkRep ∅ [].

Definition set_prefix (feed : string) (r : feedReputation) (p : prefix) : feedReputation :=
  if IsSingleIP p then MkRep (<[paddr p := feed]> (hosts r)) (wide r) else MkRep (hosts r) (wide r ++ [(p, feed)]).

(** A refresh replaces what the feed flagged before. *)
Definition set_feed (feed : string) (ps : list prefix) (r : feedReputation) : feedReputation :=
  fold_left (set_prefix feed) ps
    (MkRep (filter (λ kv, kv.2 ≠ feed) (hosts r)) (List.filter (λ w, bool_decide (w.2 ≠ feed)) (wide r))).

Definition Lookup (a : addr) (r : feedReputation) : option string :=
  match hosts r !! Unmap a with
  | Some f => Some f
  | None => snd <$> List.find (λ w, Contains w.1 (Unmap a)) (wide r)
  end.

(** ** The guards *)
Record guards := MkGuards {
  g_static : list prefix;
  g_runtime : list prefix;
  g_peers : list addr;
  g_cdn : option (list prefix)   (* [None]: the table is unavailable *)
}.

Definition feedEntryGuarded (g : guards) (p : prefix) : bool :=
  existsb (λ a, Overlaps a p) (g_static g) ||
  existsb (λ a, Overlaps a p) (g_runtime g) ||
  existsb (λ peer, Contains p (Unmap peer)) (g_peers g) ||
  existsb (λ c, Overlaps c p) (default [] (g_cdn g)).

Definition filterFeedEntries (g : guards) (ps : list prefix) : list prefix * Z :=
  (List.filter (λ p, negb (feedEntryGuarded g p)) ps,
   Z.of_nat (length (List.filter (feedEntryGuarded g) ps))).

(** ** The feeds' state *)
Record feeds := MkFeeds {
  rep : feedReputation;
  blockDesired : gmap string (list FeedElement);
  observed : gmap string Z;
  status : gmap string FeedStatusEntry
}.

Definition noFeeds : feeds := MkFeeds newFeedReputation ∅ ∅ ∅.

Definition feed_element (ttl : duration) (p : prefix) : FeedElement :=
  MkFeed (if IsSingleIP p then show_addr (paddr p) else show_prefix p) (Z.quot ttl Second).

(** [int64(ttl.Seconds())] truncates; without a TTL an hour. *)
Definition feed_elements (ttl : duration) (kept : list prefix) : list FeedElement :=
  feed_element (if ttl <=? 0 then Hour else ttl) <$> kept.

(** The new desired state of a block feed; how many entries it has and lost. *)
Definition desire (u : FeedUpdate) (kept : list prefix) (s : feeds) : Z * Z * feeds :=
  let elems := feed_elements (fu_TTL u) kept in
  let prev := Z.of_nat (length (default [] (blockDesired s !! fu_Name u))) in
  let applied := Z.of_nat (length elems) in
  (applied, (if applied <? prev then prev - applied else 0),
   MkFeeds (rep s) (<[fu_Name u := elems]> (blockDesired s)) (observed s) (status s)).

Definition observe (u : FeedUpdate) (kept : list prefix) (s : feeds) : Z * Z * feeds :=
  let prev := default 0 (observed s !! fu_Name u) in
  let applied := Z.of_nat (length kept) in
  (applied, (if applied <? prev then prev - applied else 0),
   MkFeeds (set_feed (fu_Name u) kept (rep s)) (blockDesired s) (<[fu_Name u := applied]> (observed s)) (status s)).

(** The elements of every block feed, in the order [order] gives the map. *)
Definition combined (order : list (string * list FeedElement) → list (string * list FeedElement)) (s : feeds) : list FeedElement :=
  concat (order (map_to_list (blockDesired s))).*2.

Definition status_entry (u : FeedUpdate) (now : time) (applied skipped : Z) : FeedStatusEntry :=
  MkFeedStatus (fu_Name u) (if bool_decide (fu_Action u = EmptyString) then "observe" else fu_Action u) now
    (if 0 <? fu_Interval u then Some (now + fu_Interval u) else None) applied skipped.

Definition note_status (e : FeedStatusEntry) (s : feeds) : feeds :=
  MkFeeds (rep s) (blockDesired s) (observed s) (<[fs_Name e := e]> (status s)).

Definition feed_summary (u : FeedUpdate) (applied skipped removed : Z) : string :=
  "feed " +:+ fu_Name u +:+ " (" +:+ fu_Action u +:+ "): entries=" +:+ show_Z applied +:+ " skipped_by_guardrails=" +:+ show_Z skipped +:+
  " removed=" +:+ show_Z removed +:+ " ttl=" +:+ dur_string (fu_TTL u).

(** ** What a refresh can reach *)
Definition wf_guards (g : guards) : Prop := Forall wf_prefix (g_static g ++ g_runtime g ++ default [] (g_cdn g)).

(** An entry that passed the guards shares no address with an allowlist entry
    or a shared CDN range, and holds no operator's session. *)
Lemma kept_safe g ps p a : wf_prefix p → wf_guards g → p ∈ (filterFeedEntries g ps).1 → plain a → Contains p a = true →
  (∀ q, q ∈ g_static g ++ g_runtime g ++ default [] (g_cdn g) → Contains q a = false) ∧ (∀ s, s ∈ g_peers g → Unmap s ≠ a).
Proof.
  intros Hp Hg Hin Ha Hc. apply list_elem_of_In, filter_In in Hin as [_ Hk].
  apply negb_true_iff in Hk. unfold feedEntryGuarded in Hk. apply orb_false_iff in Hk as [Hk Hcdn].
  apply orb_false_iff in Hk as [Hk Hpeer]. apply orb_false_iff in Hk as [Hst Hrt].
  split.
  - intros q Hq. destruct (Contains q a) eqn:E; [|done]. exfalso.
    assert (Overlaps q p = true) as Ho.
    { apply Overlaps_iff; [by eapply Forall_forall in Hg|done|]. by exists a. }
    rewrite existsb_false_elem in Hst, Hrt, Hcdn.
    rewrite !elem_of_app in Hq. destruct Hq as [Hq|[Hq|Hq]]; by rewrite ?(Hst _ Hq), ?(Hrt _ Hq), ?(Hcdn _ Hq) in Ho.
  - intros s Hs <-. rewrite existsb_false_elem in Hpeer. by rewrite (Hpeer _ Hs) in Hc.
Qed.
