(* ===== verification/FeedParse.v ===== *)
(** Reputation feeds, downloading and parsing: [internal/feeds/feeds.go], and the
    runtime of [cmd/ezyshield/run.go] that hands the result to the daemon.

    A body is the bytes a server sends and whether the transfer ended early; the
    URL's scheme and host, as [url.Parse] finds them, are part of the
    configuration ([None]: it does not parse).  A response is what the HTTP client
    returned.  The refresh schedule, its jitter and the redirect policy are left
    out; lines are bytes, their white space ASCII. *)
From Stdlib Require Import Ascii.
From S2P Require Import Prelude GoStrings Netip NetipParse NftScript Feeds.
#[local] Open Scope Z_scope.

Definition maxResponseBytes : Z := Z.shiftl 10 20.
Definition maxLineBytes : Z := 4096.
Definition bufferBytes : Z := 64 * 1024.
Definition DefaultMaxEntries : Z := 100000.
Definition HardMaxEntries : Z := 500000.
Definition MinRefreshInterval : duration := Hour.

Definition ValidFormats : list string := ["plain"; "cidr"; "abuseipdb"].

Definition reservedPrefixes : list prefix := omap ParsePrefix
  ["0.0.0.0/8"; "10.0.0.0/8"; "100.64.0.0/10"; "127.0.0.0/8"; "169.254.0.0/16"; "172.16.0.0/12"; "192.168.0.0/16";
   "224.0.0.0/4"; "240.0.0.0/4"; "::/128"; "::1/128"; "fc00::/7"; "fe80::/10"; "ff00::/8"]%string.

Record FeedConfig := MkFeedConfig {
  fc_Name : string; fc_URL : option (string * string); Format : string; RefreshInterval : duration; MaxEntries : Z
}.

Record Result := MkResult {
  r_Name : string; r_Prefixes : list prefix; NotModified : bool; Invalid : Z; DroppedReserved : Z; DroppedOverCap : Z;
  Truncated : bool
}.

(** What a parse accumulates: the result and the entries seen. *)
Record acc := MkAcc { a_seen : gset prefix; a_list : list prefix; a_invalid : Z; a_reserved : Z; a_overcap : Z }.
Definition acc0 : acc := MkAcc ∅ [] 0 0 0.

Definition count_invalid (s : acc) : acc := MkAcc (a_seen s) (a_list s) (a_invalid s + 1) (a_reserved s) (a_overcap s).

(** ** One line *)
Definition overlapsReserved (p : prefix) : bool :=
  existsb (λ r, Bool.eqb (Is4 (paddr r)) (Is4 (paddr p)) && Overlaps r p) reservedPrefixes.

(** The text before the first [;] or [#]. *)
Fixpoint cut_comment (s : string) : string :=
  match s with
  | EmptyString => EmptyString
  | String a s => if decide (a = ";"%char ∨ a = "#"%char) then EmptyString else String a (cut_comment s)
  end.

Definition entry (format line : string) : option prefix :=
  match ParseAddr line with
  | Some a => Some (PrefixFrom a (BitLen a))
  | None => if bool_decide (format = "cidr"%string) then Masked <$> ParsePrefix line else None
  end.

Definition add_entry (maxEntries : Z) (p : prefix) (s : acc) : acc :=
  if overlapsReserved p then MkAcc (a_seen s) (a_list s) (a_invalid s) (a_reserved s + 1) (a_overcap s)
  else if decide (p ∈ a_seen s) then s
  else if maxEntries <=? Z.of_nat (length (a_list s)) then
    MkAcc (a_seen s) (a_list s) (a_invalid s) (a_reserved s) (a_overcap s + 1)
  else MkAcc ({[p]} ∪ a_seen s) (a_list s ++ [p]) (a_invalid s) (a_reserved s) (a_overcap s).

Definition parseLine (format line : string) (maxEntries : Z) (s : acc) : acc :=
  let line := TrimSpace line in
  if bool_decide (line = EmptyString) || has_prefix "#" line || has_prefix ";" line then s
  else
    let line := if bool_decide (format = "cidr"%string) then TrimSpace (cut_comment line) else line in
    if bool_decide (line = EmptyString) then s
    else match entry format line with
         | Some p => add_entry maxEntries p s
         | None => count_invalid s
         end.

(** ** The reader *)
Inductive rerr := RNil | RFull | RStop.

(** [bufio.Reader.ReadSlice]: up to and with the next newline, or a full buffer of
    [room] bytes, or what is left when the stream stops. *)
Fixpoint ReadSlice (room : Z) (s : string) : string * rerr * string :=
  match s with
  | EmptyString => (EmptyString, RStop, EmptyString)
  | String c s =>
      if decide (c = NL) then (String c EmptyString, RNil, s)
      else if room <=? 1 then (String c EmptyString, RFull, s)
      else let '(chunk, e, rest) := ReadSlice (room - 1) s in (String c chunk, e, rest)
  end.

Definition zlen (s : string) : Z := Z.of_nat (str_len s).

(** A line, or [None] for one that was too long or is empty; whether the stream
    stopped; how many lines were too long; the rest of the stream. *)
Fixpoint readCappedLine (fuel : nat) (line : string) (overlong : bool) (s : string) : option string * bool * Z * string :=
  match fuel with
  | O => (None, true, 0, EmptyString)
  | S fuel =>
      let '(chunk, e, rest) := ReadSlice bufferBytes s in
      let '(line, overlong) :=
        if bool_decide (chunk = EmptyString) then (line, overlong)
        else if maxLineBytes <? zlen line + zlen chunk then (EmptyString, true)
        else if overlong then (line, overlong) else (line +:+ chunk, overlong) in
      match e with
      | RFull => readCappedLine fuel line overlong rest
      | RNil => if overlong : bool then (None, false, 1, rest) else (Some line, false, 0, rest)
      | RStop => if overlong : bool then (None, true, 1, rest)
                 else if bool_decide (line = EmptyString) then (None, true, 0, rest) else (Some line, true, 0, rest)
      end
  end.

Fixpoint read_lines (fuel : nat) (format : string) (maxEntries : Z) (s : string) (st : acc) : acc :=
  match fuel with
  | O => st
  | S fuel =>
      let '(line, stop, bad, rest) := readCappedLine (S (str_len s)) EmptyString false s in
      let st := if bad =? 0 then st else count_invalid st in
      let st := match line with Some l => parseLine format l maxEntries st | None => st end in
      if stop : bool then st else read_lines fuel format maxEntries rest st
  end.

(** The first [n] bytes of a stream. *)
Fixpoint limit (n : Z) (s : string) : string :=
  match s with
  | EmptyString => EmptyString
  | String c s => if n <=? 0 then EmptyString else String c (limit (n - 1) s)
  end.

Definition entry_cap (cfg : FeedConfig) : Z :=
  let m := if MaxEntries cfg <=? 0 then DefaultMaxEntries else MaxEntries cfg in
  if HardMaxEntries <? m then HardMaxEntries else m.

Definition result_of (name : string) (truncated : bool) (st : acc) : Result :=
  MkResult name (a_list st) false (a_invalid st) (a_reserved st) (a_overcap st) truncated.

(** Whether the transfer was cut short is not looked at. *)
Record Body := MkBody { bytes : string; cut_short : bool }.

Definition parse (cfg : FeedConfig) (body : Body) : Result :=
  let s := limit maxResponseBytes (bytes body) in
  result_of (fc_Name cfg) (maxResponseBytes <=? zlen (bytes body))
    (read_lines (S (str_len s)) (Format cfg) (entry_cap cfg) s acc0).

(** ** Fetching *)
Record feedState := MkFeedState { etag : string; lastModified : string; lastGood : list prefix }.
Definition newFeedState : feedState := MkFeedState EmptyString EmptyString [].
Abbreviation fetcher := (gmap string feedState) (only parsing).

Inductive response :=
| Broken                                                 (* building the request or the round trip failed *)
| Status (code : Z) (tag modified : string) (body : Body).

Inductive feed_error := EURL | EFormat (f : string) | EFetch | EStatus (code : Z) | ENoEntries (invalid : Z).

Definition checkFeedURL (u : option (string * string)) : bool :=
  match u with
  | None => false
  | Some (scheme, host) => bool_decide (scheme = "https"%string) && negb (bool_decide (host = EmptyString))
  end.

(** The server answers the conditional headers it is sent. *)
Definition Fetch (get : string → string → response) (cfg : FeedConfig) (f : fetcher) : result feed_error Result * fetcher :=
  if negb (checkFeedURL (fc_URL cfg)) then (Err EURL, f)
  else if negb (bool_decide (Format cfg ∈ ValidFormats)) then (Err (EFormat (Format cfg)), f)
  else
    let st := default newFeedState (f !! fc_Name cfg) in
    let f := <[fc_Name cfg := st]> f in
    match get (etag st) (lastModified st) with
    | Broken => (Err EFetch, f)
    | Status code tag modified body =>
        if code =? 304 then (Ok (MkResult (fc_Name cfg) (lastGood st) true 0 0 0 false), f)
        else if negb (code =? 200) then (Err (EStatus code), f)
        else
          let res := parse cfg body in
          if bool_decide (r_Prefixes res = []) && (0 <? Invalid res) then (Err (ENoEntries (Invalid res)), f)
          else (Ok res, <[fc_Name cfg := MkFeedState tag modified (r_Prefixes res)]> f)
    end.

Definition LastGood (name : string) (f : fetcher) : list prefix := from_option lastGood [] (f !! name).

(** ** The runtime: [buildFeedRuntime] *)
Record FeedCfg := MkFeedCfg { feed : FeedConfig; f_Action : string; f_TTL : duration }.

Definition toUpdate (meta : gmap string FeedCfg) (res : Result) : FeedUpdate :=
  let m := default (MkFeedCfg (MkFeedConfig EmptyString None EmptyString 0 0) EmptyString 0) (meta !! r_Name res) in
  let ttl := if f_TTL m <=? 0 then 2 * RefreshInterval (feed m) else f_TTL m in
  MkUpdate (r_Name res) (if bool_decide (f_Action m = EmptyString) then "observe" else f_Action m) ttl
    (RefreshInterval (feed m)) (r_Prefixes res).

Definition meta_of (fs : list FeedCfg) : gmap string FeedCfg := foldl (λ m f, <[fc_Name (feed f) := f]> m) ∅ fs.

(** One pass over the feeds of that name, or all: the updates it reports, how
    many feeds it refreshed, whether it found one and whether one failed. *)
Fixpoint refresh_all (get : string → string → string → response) (meta : gmap string FeedCfg) (name : string)
    (fs : list FeedCfg) (f : fetcher) : list FeedUpdate * Z * bool * bool * fetcher :=
  match fs with
  | [] => ([], 0, false, false, f)
  | c :: fs =>
      if negb (bool_decide (name = EmptyString)) && negb (bool_decide (fc_Name (feed c) = name)) then refresh_all get meta name fs f
      else
        let '(r, f) := Fetch (get (fc_Name (feed c))) (feed c) f in
        let '(us, n, _, failed, f) := refresh_all get meta name fs f in
        match r with
        | Ok res => (toUpdate meta res :: us, n + 1, true, failed, f)
        | Err _ => (us, n, true, true, f)
        end
  end.

(** The count, or [None] for the error: no such feed, or a feed that failed. *)
Definition refresh (get : string → string → string → response) (fs : list FeedCfg) (f : fetcher) (name : string) :
    list FeedUpdate * option Z * fetcher :=
  let '(us, n, found, failed, f) := refresh_all get (meta_of fs) name fs f in
  (us, if found && negb failed then Some n else None, f).

(** ** Reading: the lines of the stream *)

(** The lines of a text with their newlines; the last may have none. *)
Fixpoint raw_lines (s : string) : list string :=
  match s with
  | EmptyString => []
  | String c s =>
      if decide (c = NL) then String c EmptyString :: raw_lines s
      else match raw_lines s with [] => [String c EmptyString] | l :: ls => String c l :: ls end
  end.

Definition read_line (format : string) (maxEntries : Z) (st : acc) (l : string) : acc :=
  if maxLineBytes <? zlen l then count_invalid st else parseLine format l maxEntries st.

(** The first of them, whether it has its newline, and the rest. *)
Fixpoint first_line (s : string) : string * bool * string :=
  match s with
  | EmptyString => (EmptyString, false, EmptyString)
  | String c s =>
      if decide (c = NL) then (String c EmptyString, true, s)
      else let '(l, nl, r) := first_line s in (String c l, nl, r)
  end.

Lemma raw_lines_first s l nl r : first_line s = (l, nl, r) → s ≠ EmptyString → raw_lines s = l :: raw_lines r.
Proof.
  revert l nl r. induction s as [|c s IH]; intros l nl r; simpl; [done|]. intros H _.
  destruct (decide (c = NL)) as [->|]; [by simplify_eq|].
  destruct (first_line s) as [[l' nl'] r'] eqn:E. simplify_eq. destruct s as [|c' s]; [by simplify_eq/=|].
  by rewrite (IH _ _ _ eq_refl).
Qed.

Lemma first_line_rest s l nl r : first_line s = (l, nl, r) →
  (nl = false → r = EmptyString ∧ l = s) ∧ (nl = true → l ≠ EmptyString) ∧ (str_len s = str_len l + str_len r)%nat.
Proof.
  revert l nl r. induction s as [|c s IH]; intros l nl r; simpl; [by intros [= <- <- <-]|].
  destruct (decide (c = NL)) as [->|]; [by intros [= <- <- <-]|].
  destruct (first_line s) as [[l' nl'] r'] eqn:E. intros [= <- <- <-]. destruct (IH _ _ _ eq_refl) as (H1 & _ & H3).
  split; [intros Hn; destruct (H1 Hn); by subst|]. split; [done|simpl; lia].
Qed.

Lemma ReadSlice_spec room s chunk e rest l nl r :
  ReadSlice room s = (chunk, e, rest) → first_line s = (l, nl, r) →
  match e with
  | RNil => l = chunk ∧ nl = true ∧ r = rest
  | RStop => l = chunk ∧ nl = false
  | RFull => chunk ≠ EmptyString ∧ (str_len s = str_len chunk + str_len rest)%nat ∧
             ∃ l', first_line rest = (l', nl, r) ∧ l = chunk +:+ l'
  end.
Proof.
  revert room chunk e rest l nl r. induction s as [|c s IH]; intros room chunk e rest l nl r; simpl; [by intros [= <- <- <-] [= <- <- <-]|].
  destruct (decide (c = NL)) as [->|]; [by intros [= <- <- <-] [= <- <- <-]|].
  destruct (first_line s) as [[l' nl'] r'] eqn:E. intros H [= <- <- <-]. destruct (room <=? 1).
  - injection H as <- <- <-. split; [done|]. split; [done|]. exists l'. done.
  - destruct (ReadSlice (room - 1) s) as [[ch e'] rest'] eqn:ER. injection H as <- <- <-.
    specialize (IH _ _ _ _ _ _ _ ER eq_refl). destruct e'; [by destruct IH as (-> & -> & ->)| |by destruct IH as (-> & ->)].
    destruct IH as (_ & Hl & x & -> & ->). split; [done|]. split; [simpl; lia|]. by exists x.
Qed.

Lemma readCappedLine_spec fuel line over s l nl r :
  (str_len s < fuel)%nat → first_line s = (l, nl, r) → (over = false → zlen line <= maxLineBytes) →
  let over' := over || (maxLineBytes <? zlen line + zlen l) in
  readCappedLine fuel line over s =
    (if over' then None else if negb nl && bool_decide (line +:+ l = EmptyString) then None else Some (line +:+ l),
     negb nl, if over' then 1 else 0, r).
Proof.
  revert line over s l nl r. induction fuel as [|fuel IH]; intros line over s l nl r Hf Hl Hover; [lia|]. simpl.
  destruct (ReadSlice bufferBytes s) as [[chunk e] rest] eqn:E. pose proof (ReadSlice_spec _ _ _ _ _ _ _ _ E Hl) as HE.
  assert (∀ x y, zlen (x +:+ y) = zlen x + zlen y) as Hlen by (intros; unfold zlen; rewrite str_length_app; lia).
  assert (∀ x, 0 <= zlen x) as Hpos by (intros; unfold zlen; lia).
  destruct e.
  - destruct HE as (<- & -> & ->). destruct (first_line_rest _ _ _ _ Hl) as (_ & Hne & _).
    rewrite bool_decide_eq_false_2 by (by apply Hne). simpl. destruct (Z.ltb_spec maxLineBytes (zlen line + zlen l)); simpl.
    + by rewrite orb_true_r.
    + rewrite orb_false_r. by destruct over.
  - destruct HE as (Hne & Hls & l' & Hl' & ->). rewrite bool_decide_eq_false_2 by done. rewrite Hlen.
    assert (str_len chunk ≠ 0)%nat by (by destruct chunk). pose proof (Hpos chunk). pose proof (Hpos l').
    destruct (Z.ltb_spec maxLineBytes (zlen line + zlen chunk)).
    + rewrite (IH _ _ rest l' nl r ltac:(lia) Hl'); [|done]. simpl.
      replace (maxLineBytes <? zlen line + (zlen chunk + zlen l')) with true by (symmetry; apply Z.ltb_lt; lia). by rewrite orb_true_r.
    + destruct over; [by rewrite (IH _ _ rest l' nl r ltac:(lia) Hl')|].
      rewrite (IH _ _ rest l' nl r ltac:(lia) Hl'); [|intros _; rewrite Hlen; lia]. simpl. rewrite Hlen, str_app_assoc.
      by replace (zlen line + (zlen chunk + zlen l')) with (zlen line + zlen chunk + zlen l') by lia.
  - destruct HE as (<- & ->). destruct (first_line_rest _ _ _ _ Hl) as (Hn & _ & _). destruct (Hn eq_refl) as [-> _].
    assert (rest = EmptyString) as ->.
    { revert E. clear. generalize bufferBytes. revert l. induction s as [|c s IHs]; intros l n; simpl; [congruence|].
      repeat case_match; try congruence. intros [= <- -> ->]. eauto. }
    case_bool_decide as Hc.
    + subst. rewrite str_app_nil_r. change (zlen EmptyString) with 0. rewrite Z.add_0_r. destruct over; [done|].
      replace (maxLineBytes <? zlen line) with false by (symmetry; apply Z.ltb_ge; auto). simpl. by case_bool_decide.
    + destruct (Z.ltb_spec maxLineBytes (zlen line + zlen l)); simpl; [by rewrite orb_true_r|].
      rewrite orb_false_r. destruct over; simpl; [done|]. by case_bool_decide.
Qed.

(** Reading in pieces of the buffer's size is reading the lines, each line of
    more than [maxLineBytes] bytes counted and skipped. *)
Lemma read_lines_spec fuel format cap s st : (str_len s < fuel)%nat →
  read_lines fuel format cap s st = foldl (read_line format cap) st (raw_lines s).
Proof.
  revert s st. induction fuel as [|fuel IH]; intros s st Hf; [lia|]. cbn [read_lines].
  destruct (first_line s) as [[l nl] r] eqn:E. pose proof (first_line_rest _ _ _ _ E) as (Hn & Hne & Hlen).
  rewrite (readCappedLine_spec (S (str_len s)) _ _ s _ _ _ ltac:(lia) E) by done. cbn [orb String.append].
  change (zlen EmptyString + zlen l) with (zlen l).
  destruct (decide (s = EmptyString)) as [->|Hs].
  { simpl in E. injection E as <- <- <-. done. }
  rewrite (raw_lines_first _ _ _ _ E Hs). simpl. unfold read_line at 2. destruct nl; simpl.
  - assert (l ≠ EmptyString) as Hl by auto. assert (str_len l ≠ 0)%nat by (by destruct l).
    rewrite IH by lia. by destruct (maxLineBytes <? zlen l).
  - destruct (Hn eq_refl) as [-> ->]. simpl. rewrite bool_decide_eq_false_2 by done. by destruct (maxLineBytes <? zlen s).
Qed.

(** ** What a line offers *)
Inductive offer := Nothing | Bad | Entry (p : prefix).

Definition offers (format l : string) : offer :=
  if maxLineBytes <? zlen l then Bad else
  let l := TrimSpace l in
  if bool_decide (l = EmptyString) || has_prefix "#" l || has_prefix ";" l then Nothing else
  let l := if bool_decide (format = "cidr"%string) then TrimSpace (cut_comment l) else l in
  if bool_decide (l = EmptyString) then Nothing else
  match entry format l with Some p => Entry p | None => Bad end.

Lemma read_line_offers format cap st l : read_line format cap st l =
  match offers format l with Nothing => st | Bad => count_invalid st | Entry p => add_entry cap p st end.
Proof. unfold read_line, offers, parseLine. repeat case_match; done. Qed.

Lemma entry_wf format l p : entry format l = Some p → wf_prefix p.
Proof.
  unfold entry. destruct (ParseAddr l) as [a|] eqn:E.
  - intros [= <-]. destruct (ParseAddr_wf _ _ E) as [Ha Hv].
    replace (PrefixFrom a (BitLen a)) with (PrefixFrom (withoutZone a) (BitLen (withoutZone a))) by by destruct a.
    assert (plain (withoutZone a)) as Hp by (destruct a; repeat split; done || apply Ha).
    destruct (PrefixFrom_wf (withoutZone a) (BitLen (withoutZone a)) Hp) as [-> ?]; [by destruct a|done].
  - case_bool_decide; [|done]. intros (q & Hq%ParsePrefix_wf & ->)%fmap_Some. by apply Masked_wf.
Qed.

(** No address of a reserved range, nor of a range around one. *)
Definition sane (p : prefix) : Prop :=
  wf_prefix p ∧ ∀ r a, r ∈ reservedPrefixes → plain a → Contains r a = true → Contains p a = false.

Lemma reserved_wf : Forall wf_prefix reservedPrefixes.
Proof.
  apply Forall_forall. intros r. unfold reservedPrefixes. intros (s & _ & Hs)%list_elem_of_omap. by eapply ParsePrefix_wf.
Qed.

Lemma overlapsReserved_sane p : wf_prefix p → overlapsReserved p = false → sane p.
Proof.
  intros Hp Ho. split; [done|]. intros r a Hr Ha Hc. destruct (Contains p a) eqn:Hpa; [|done].
  pose proof reserved_wf as Hwf. rewrite Forall_forall in Hwf. specialize (Hwf r Hr).
  unfold overlapsReserved in Ho. rewrite existsb_false_elem in Ho. specialize (Ho r Hr).
  assert (Overlaps r p = true) as Hov by (apply Overlaps_iff; [done|done|by exists a]).
  rewrite Hov, andb_true_r in Ho. destruct Ha as (Ha & _).
  apply Contains_spec in Hc as (Hf1 & _); [|done..]. apply Contains_spec in Hpa as (Hf2 & _); [|done..].
  destruct (paddr r), (paddr p), a; done.
Qed.

(** ** A parse *)
Record acc_ok (cap : Z) (st : acc) : Prop := {
  ok_seen : ∀ p, p ∈ a_seen st ↔ p ∈ a_list st;
  ok_nodup : NoDup (a_list st);
  ok_sane : Forall sane (a_list st);
  ok_cap : Z.of_nat (length (a_list st)) <= cap
}.

Lemma acc0_ok cap : 0 <= cap → acc_ok cap acc0.
Proof. split; simpl; [set_solver|constructor|constructor|lia]. Qed.

Lemma read_line_ok format cap st l : acc_ok cap st → acc_ok cap (read_line format cap st l).
Proof.
  intros H. rewrite read_line_offers. destruct (offers format l) as [| |p] eqn:E; [done|by destruct H; split|].
  assert (wf_prefix p) as Hp.
  { unfold offers in E. repeat (case_match; try done); simplify_eq; by eapply entry_wf. }
  unfold add_entry. destruct (overlapsReserved p) eqn:Er; [by destruct H; split|].
  case_decide as Hs; [done|]. destruct (Z.leb_spec cap (Z.of_nat (length (a_list st)))); [by destruct H; split|].
  destruct H as [H1 H2 H3 H4]. split; simpl.
  - intros q. rewrite elem_of_union, elem_of_singleton, elem_of_app, list_elem_of_singleton, H1. tauto.
  - apply NoDup_app. split; [done|]. split; [|apply NoDup_singleton]. intros x Hx ->%list_elem_of_singleton. by apply Hs, H1.
  - apply Forall_app. split; [done|]. constructor; [by apply overlapsReserved_sane|constructor].
  - rewrite length_app. simpl. lia.
Qed.

Lemma read_lines_ok format cap ls st : acc_ok cap st → acc_ok cap (foldl (read_line format cap) st ls).
Proof. revert st. induction ls as [|l ls IH]; intros st H; simpl; [done|]. apply IH. by apply read_line_ok. Qed.

Lemma entry_cap_range cfg : 0 < entry_cap cfg <= HardMaxEntries.
Proof. unfold entry_cap, HardMaxEntries, DefaultMaxEntries. repeat case_match; bool_hyps; lia. Qed.

(** The lines a parse looks at. *)
Definition body_lines (b : Body) : list string := raw_lines (limit maxResponseBytes (bytes b)).

Lemma parse_reads cfg b : parse cfg b = result_of (fc_Name cfg) (maxResponseBytes <=? zlen (bytes b))
  (foldl (read_line (Format cfg) (entry_cap cfg)) acc0 (body_lines b)).
Proof. unfold parse, body_lines. cbv zeta. f_equal. apply read_lines_spec. lia. Qed.

Lemma parse_ok cfg b : Forall sane (r_Prefixes (parse cfg b)) ∧ NoDup (r_Prefixes (parse cfg b)) ∧
  Z.of_nat (length (r_Prefixes (parse cfg b))) <= entry_cap cfg.
Proof.
  rewrite parse_reads. pose proof (entry_cap_range cfg).
  destruct (read_lines_ok (Format cfg) (entry_cap cfg) (body_lines b) acc0) as [_ H2 H3 H4]; [|done].
  apply acc0_ok. lia.
Qed.

(** What is in the list comes from a line, and with nothing dropped for the cap
    every offered entry outside the reserved ranges is in it. *)
Lemma folded_entries format cap ls st :
  let st' := foldl (read_line format cap) st ls in
  a_overcap st <= a_overcap st' ∧ a_reserved st <= a_reserved st' ∧ a_invalid st <= a_invalid st' ∧
  (∀ p, p ∈ a_list st' → p ∈ a_list st ∨ ∃ l, l ∈ ls ∧ offers format l = Entry p) ∧
  (acc_ok cap st → ∀ p, p ∈ a_list st ∨ (∃ l, l ∈ ls ∧ offers format l = Entry p) →
     p ∈ a_list st' ∨ overlapsReserved p = true ∨ a_overcap st < a_overcap st') ∧
  (a_invalid st < a_invalid st' ↔ ∃ l, l ∈ ls ∧ offers format l = Bad).
Proof.
  revert st. induction ls as [|l ls IH]; intros st; simpl.
  { repeat split; try lia; auto; [intros _ p [?|(l & Hl & _)]; [auto|by apply not_elem_of_nil in Hl]|].
    intros (l & Hl & _). by apply not_elem_of_nil in Hl. }
  destruct (IH (read_line format cap st l)) as (H1 & H2 & H3 & H4 & H5 & H6).
  set (st' := foldl (read_line format cap) (read_line format cap st l) ls) in *.
  assert (a_overcap st <= a_overcap (read_line format cap st l) ∧ a_reserved st <= a_reserved (read_line format cap st l) ∧
    a_invalid st <= a_invalid (read_line format cap st l)) as (G1 & G2 & G3).
  { rewrite read_line_offers. unfold add_entry, count_invalid. repeat case_match; simpl; lia. }
  repeat (split; [lia|]). split; [|split].
  - intros p Hp. destruct (H4 p Hp) as [Hq|(l' & Hl' & E)]; [|right; exists l'; by rewrite elem_of_cons; auto].
    rewrite read_line_offers in Hq. destruct (offers format l) as [| |q] eqn:E; [by left|by left|].
    unfold add_entry in Hq. repeat case_match; try (by left). simpl in Hq. rewrite elem_of_app, list_elem_of_singleton in Hq.
    destruct Hq as [?| ->]; [by left|]. right. exists l. rewrite elem_of_cons. auto.
  - intros Hok p Hp. pose proof (read_line_ok format cap st l Hok) as Hok'.
    assert (p ∈ a_list (read_line format cap st l) ∨ (∃ l', l' ∈ ls ∧ offers format l' = Entry p) ∨ overlapsReserved p = true ∨
      a_overcap st < a_overcap (read_line format cap st l)) as Hc.
    { rewrite read_line_offers. setoid_rewrite elem_of_cons in Hp. destruct Hp as [Hp|(l' & [->|Hl'] & E)].
      - left. destruct (offers format l); unfold add_entry, count_invalid; repeat case_match; simpl; try done. set_solver.
      - rewrite E. unfold add_entry. destruct (overlapsReserved p) eqn:Er; [by auto|].
        case_decide as Hs; [left; by apply (ok_seen _ _ Hok)|]. case_match; simpl; [right; right; right; lia|left; set_solver].
      - right; left. eauto. }
    destruct Hc as [Hc|[Hc|[Hc|Hc]]]; [..|by auto|right; right; lia].
    + destruct (H5 Hok' p (or_introl Hc)) as [?|[?|?]]; [by auto..|right; right; lia].
    + destruct (H5 Hok' p (or_intror Hc)) as [?|[?|?]]; [by auto..|right; right; lia].
  - assert (a_invalid st < a_invalid (read_line format cap st l) ↔ offers format l = Bad) as Hl.
    { rewrite read_line_offers. destruct (offers format l); unfold add_entry, count_invalid; repeat case_match; simpl; split; try lia; done. }
    split.
    + intros Hlt. destruct (decide (a_invalid st < a_invalid (read_line format cap st l))) as [Hi|Hi].
      * exists l. rewrite elem_of_cons. split; [by left|by apply Hl].
      * destruct (proj1 H6) as (l' & ? & ?); [lia|]. exists l'. rewrite elem_of_cons. auto.
    + intros (l' & [->|Hl']%elem_of_cons & E); [apply Hl in E; lia|]. assert (a_invalid (read_line format cap st l) < a_invalid st'); [|lia].
      apply H6. eauto.
Qed.

Lemma parse_lines cfg b : let r := parse cfg b in
  (∀ p, p ∈ r_Prefixes r → ∃ l, l ∈ body_lines b ∧ offers (Format cfg) l = Entry p) ∧
  (Invalid r <= 0 → ∀ l, l ∈ body_lines b → offers (Format cfg) l ≠ Bad).
Proof.
  cbv zeta. rewrite parse_reads. destruct (folded_entries (Format cfg) (entry_cap cfg) (body_lines b) acc0) as (_ & _ & _ & H4 & _ & H6). split.
  - intros p Hp. by destruct (H4 p Hp) as [Hn%not_elem_of_nil|].
  - simpl. intros Hi l Hl Hb. assert (0 < a_invalid (foldl (read_line (Format cfg) (entry_cap cfg)) acc0 (body_lines b))); [apply H6; eauto|lia].
Qed.

(** ** The fetcher *)
#[local] Arguments parse : simpl never.
Definition fetcher_ok (f : fetcher) : Prop := map_Forall (λ _ st, Forall sane (lastGood st)) f.

Lemma LastGood_ok f n : fetcher_ok f → Forall sane (LastGood n f).
Proof. intros H. unfold LastGood. destruct (f !! n) eqn:E; simpl; [by apply (H n)|constructor]. Qed.

Lemma touched_state f n : LastGood n (<[n := default newFeedState (f !! n)]> f) = LastGood n f.
Proof. unfold LastGood. rewrite lookup_insert_eq. by destruct (f !! n). Qed.

(** A fetch touches its own feed only; a failure and a 304 keep the last good
    set, a new set is the parse of a complete answer with at least one entry or
    nothing wrong in it. *)
Lemma Fetch_spec get cfg f r f' : Fetch get cfg f = (r, f') →
  (∀ n, n ≠ fc_Name cfg → f' !! n = f !! n) ∧
  match r with
  | Err _ => LastGood (fc_Name cfg) f' = LastGood (fc_Name cfg) f
  | Ok res =>
      r_Name res = fc_Name cfg ∧ r_Prefixes res = LastGood (fc_Name cfg) f' ∧
      checkFeedURL (fc_URL cfg) = true ∧ Format cfg ∈ ValidFormats ∧
      (if NotModified res then LastGood (fc_Name cfg) f' = LastGood (fc_Name cfg) f
       else ∃ tag modified tag' modified' body, get tag modified = Status 200 tag' modified' body ∧ res = parse cfg body ∧
            (r_Prefixes res = [] → Invalid res <= 0))
  end.
Proof.
  unfold Fetch. destruct (checkFeedURL _) eqn:Eu; cbn [negb]; [|by intros [= <- <-]].
  case_bool_decide as Ef; cbn [negb]; [|by intros [= <- <-]].
  set (st := default newFeedState (f !! fc_Name cfg)).
  assert (∀ x n, n ≠ fc_Name cfg → <[fc_Name cfg := x]> f !! n = f !! n) as Ho.
  { intros x n Hn. by apply lookup_insert_ne. }
  pose proof (touched_state f (fc_Name cfg)) as Ht. fold st in Ht.
  destruct (get (etag st) (lastModified st)) as [|code tag modified body] eqn:Eg; [by intros [= <- <-]; split; auto|].
  destruct (Z.eqb_spec code 304) as [->|].
  { intros [= <- <-]. split; [auto|]. simpl. repeat (split; [done|]). split; [|done]. rewrite Ht. unfold LastGood, st.
    by destruct (f !! fc_Name cfg). }
  destruct (Z.eqb_spec code 200) as [->|]; cbn [negb]; [|by intros [= <- <-]; split; auto].
  destruct (bool_decide (r_Prefixes (parse cfg body) = []) && (0 <? Invalid (parse cfg body))) eqn:Ee.
  { intros [= <- <-]; split; auto. }
  intros [= <- <-]. split; [intros k Hk; rewrite !lookup_insert_ne by done; auto|].
  unfold LastGood at 1. rewrite lookup_insert_eq. change (NotModified (parse cfg body)) with false. repeat (split; [done|]).
  exists (etag st), (lastModified st), tag, modified, body. split; [done|]. split; [done|]. intros Hn.
  rewrite Hn, bool_decide_eq_true_2 in Ee by done. simpl in Ee. by apply Z.ltb_ge in Ee.
Qed.

Lemma Fetch_ok get cfg f r f' : Fetch get cfg f = (r, f') → fetcher_ok f →
  fetcher_ok f' ∧ match r with Ok res => Forall sane (r_Prefixes res) | Err _ => True end.
Proof.
  intros H Hf. destruct (Fetch_spec _ _ _ _ _ H) as [Ho Hr].
  assert (Forall sane (LastGood (fc_Name cfg) f')) as Hg.
  { destruct r as [res|e]; [|rewrite Hr; by apply LastGood_ok].
    destruct Hr as (_ & Hp & _ & _ & Hm). destruct (NotModified res); [rewrite Hm; by apply LastGood_ok|].
    destruct Hm as (t & m & t' & m' & body & _ & -> & _). rewrite <- Hp. apply parse_ok. }
  split.
  - intros n st Hn. destruct (decide (n = fc_Name cfg)) as [->|Hne]; [|rewrite Ho in Hn by done; by apply (Hf n)].
    unfold LastGood in Hg. by rewrite Hn in Hg.
  - destruct r; [|done]. destruct Hr as (_ & -> & _). done.
Qed.

(** What a refresh may have done to a feed's last good set: nothing, or put in its
    place what an answer 200 of that feed's own server offers, when an entry of it
    is left or no line of it is bad. *)
Definition replacement (c : FeedCfg) (body : Body) (l : list prefix) : Prop :=
  l = r_Prefixes (parse (feed c) body) ∧
  (∀ p, p ∈ l → ∃ x, x ∈ body_lines body ∧ offers (Format (feed c)) x = Entry p) ∧
  (l ≠ [] ∨ ∀ x, x ∈ body_lines body → offers (Format (feed c)) x ≠ Bad).

Definition reported (fs : list FeedCfg) (get : string → string → string → response) (f f' : fetcher) (n : string) : Prop :=
  LastGood n f' = LastGood n f ∨
  ∃ c body tag modified tag' modified', c ∈ fs ∧ fc_Name (feed c) = n ∧ checkFeedURL (fc_URL (feed c)) = true ∧
    get n tag modified = Status 200 tag' modified' body ∧ replacement c body (LastGood n f').

Lemma refresh_all_spec get meta name fs f us n found failed f' : refresh_all get meta name fs f = (us, n, found, failed, f') →
  fetcher_ok f →
  fetcher_ok f' ∧ Forall (λ u, Forall sane (Prefixes u)) us ∧ n = Z.of_nat (length us) ∧
  (∀ k, reported fs get f f' k) ∧ (∀ k, name ≠ EmptyString → k ≠ name → f' !! k = f !! k).
Proof.
  revert f us n found failed f'. induction fs as [|c fs IH]; intros f us n found failed f'; simpl.
  { intros [= <- <- <- <- <-] Hf. repeat split; [done|constructor|]. intros k. by left. }
  assert (∀ f1 f2 k, reported fs get f1 f2 k → reported (c :: fs) get f1 f2 k) as Hmore.
  { intros f1 f2 k [|(d & b & t & m & t' & m' & Hd & ?)]; [by left|right]. exists d, b, t, m, t', m'. rewrite elem_of_cons. auto. }
  case_match eqn:Esel.
  { intros H Hf. destruct (IH _ _ _ _ _ _ H Hf) as (H1 & H2 & H3 & H4 & H5). repeat split; auto. }
  destruct (Fetch (get (fc_Name (feed c))) (feed c) f) as [r f1] eqn:EF.
  destruct (refresh_all get meta name fs f1) as [[[[us2 n2] found2] failed2] f2] eqn:ER. intros H Hf.
  destruct (Fetch_ok _ _ _ _ _ EF Hf) as [Hf1 Hr]. destruct (IH _ _ _ _ _ _ ER Hf1) as (H1 & H2 & H3 & H4 & H5).
  destruct (Fetch_spec _ _ _ _ _ EF) as [Ho Hs].
  assert (f' = f2) as -> by (destruct r; by simplify_eq). split; [done|].
  split; [destruct r; simplify_eq; [by constructor|done]|]. split; [destruct r; simplify_eq/=; lia|]. split.
  - intros k. destruct (H4 k) as [E|E]; [|right].
    + destruct (decide (k = fc_Name (feed c))) as [->|Hne].
      * destruct r as [res|e]; [|left; congruence]. destruct Hs as (_ & Hp & Hu & _ & Hm). destruct (NotModified res); [left; congruence|].
        destruct Hm as (t & m & t' & m' & body & Hg & -> & Hi). right. exists c, body, t, m, t', m'. rewrite elem_of_cons.
        do 4 (split; [by try left|]). rewrite E, <- Hp. destruct (parse_lines (feed c) body) as [Hl Hb]. split; [done|]. split; [done|].
        destruct (r_Prefixes (parse (feed c) body)); [right; by apply Hb, Hi|by left].
      * left. rewrite E. unfold LastGood. by rewrite Ho.
    + destruct E as (d & b & t & m & t' & m' & Hd & ?). exists d, b, t, m, t', m'. rewrite elem_of_cons. auto.
  - intros k Hn Hk. rewrite (H5 k Hn Hk). apply Ho. intros ->. rewrite bool_decide_eq_false_2 in Esel by done. simpl in Esel.
    by rewrite bool_decide_eq_false_2 in Esel.
Qed.

(** ** Properties *)

(** C30. A parsed feed is exactly what its lines offer: without duplicates, within
    the cap, no entry sharing an address with a private, loopback, link-local,
    multicast or reserved range, every entry read off a line, and with nothing
    dropped for the cap every offered entry outside those ranges is there. *)
Theorem parse_exact cfg b :
  let r := parse cfg b in
  NoDup (r_Prefixes r) ∧ Z.of_nat (length (r_Prefixes r)) <= HardMaxEntries ∧ Forall sane (r_Prefixes r) ∧
  (∀ p, p ∈ r_Prefixes r → ∃ l, l ∈ body_lines b ∧ offers (Format cfg) l = Entry p) ∧
  (DroppedOverCap r = 0 → ∀ p l, l ∈ body_lines b → offers (Format cfg) l = Entry p → overlapsReserved p = false →
     p ∈ r_Prefixes r) ∧
  (0 < Invalid r ↔ ∃ l, l ∈ body_lines b ∧ offers (Format cfg) l = Bad).
Proof.
  cbv zeta. destruct (parse_ok cfg b) as (H1 & H2 & H3). pose proof (entry_cap_range cfg).
  split; [done|]. split; [lia|]. split; [done|]. rewrite parse_reads.
  destruct (folded_entries (Format cfg) (entry_cap cfg) (body_lines b) acc0) as (_ & _ & _ & H4 & H5 & H6).
  split; [|split; [|exact H6]].
  - intros p Hp. by destruct (H4 p Hp) as [Hn%not_elem_of_nil|].
  - simpl. intros Hz p l Hl He Hr. destruct (H5 (acc0_ok (entry_cap cfg) ltac:(lia)) p) as [?|[?|Hlt]]; [right; eauto|done|congruence|].
    simpl in Hlt. lia.
Qed.

(** C31. Whatever the servers answer, a refresh reports only prefixes that share no
    address with a reserved range, keeps the cache so, changes no feed it was not
    asked about, and leaves each last good set as it was unless that feed's own
    server gave, over https, an answer 200 of which an entry is left or no line is
    bad; the set is then what that answer offers, every prefix of it read off a
    line.  (An answer cut off on the way counts by the lines that came.) *)
Theorem refresh_safe get fs f name us n f' : fetcher_ok f → refresh get fs f name = (us, n, f') →
  fetcher_ok f' ∧ Forall (λ u, Forall sane (Prefixes u)) us ∧ (∀ c, n = Some c → c = Z.of_nat (length us)) ∧
  (∀ k, reported fs get f f' k) ∧ (∀ k, name ≠ EmptyString → k ≠ name → LastGood k f' = LastGood k f).
Proof.
  unfold refresh. intros Hf H. destruct (refresh_all _ _ _ _ _) as [[[[us2 n2] found] failed] f2] eqn:E.
  destruct (refresh_all_spec _ _ _ _ _ _ _ _ _ _ E Hf) as (H1 & H2 & H3 & H4 & H5). simplify_eq.
  repeat (split; [done|]). split; [intros c Hc; by destruct (found && negb failed); simplify_eq|]. split; [done|].
  intros k Hn Hk. unfold LastGood. by rewrite (H5 k Hn Hk).
Qed.

(** ** Witnesses *)
Definition sample_feed : FeedCfg :=
  MkFeedCfg (MkFeedConfig "drop" (Some ("https", "feeds.example"))%string "cidr" Hour 0) "block" 0.

Definition sample_text : string := Join
  ["; drop list"; "198.51.100.0/24 ; SBL1"; "10.1.2.3"; "198.51.100.77/24"; "2001:db8::7"; "not an address"; "0.0.0.0/0"]%string nl.

Definition sample_get (_ _ _ : string) : response := Status 200 "v1" EmptyString (MkBody sample_text false).

Lemma parse_exact_witness :
  let r := parse (feed sample_feed) (MkBody sample_text false) in
  show_prefix <$> r_Prefixes r = ["198.51.100.0/24"; "2001:db8::7/128"]%string ∧ (DroppedReserved r, Invalid r) = (2, 1) ∧
  ∀ p, p ∈ r_Prefixes r → ∃ l, l ∈ body_lines (MkBody sample_text false) ∧ offers "cidr" l = Entry p.
Proof.
  cbv zeta. split; [vm_compute; reflexivity|]. split; [vm_compute; reflexivity|].
  exact (proj1 (proj2 (proj2 (proj2 (parse_exact (feed sample_feed) (MkBody sample_text false)))))).
Defined.

Lemma refresh_safe_witness :
  let '(us, n, f') := refresh sample_get [sample_feed] ∅ EmptyString in
  n = Some 1 ∧ Forall (λ u, Forall sane (Prefixes u)) us ∧ fetcher_ok f'.
Proof.
  destruct (refresh sample_get [sample_feed] ∅ EmptyString) as [[us n] f'] eqn:E.
  split; [revert E; vm_compute; congruence|].
  destruct (refresh_safe sample_get [sample_feed] ∅ EmptyString us n f' (map_Forall_empty _) E) as (H1 & H2 & _). by split.
Defined.

(** ** Two surprises *)

(** A transfer that breaks off after one line replaces the whole last good set,
    and its tag makes the server answer 304 from then on. *)
Example cut_transfer_replaces :
  let f := <["drop"%string := MkFeedState "v0" EmptyString (omap ParsePrefix ["198.51.100.0/24"; "203.0.113.0/24"]%string)]> ∅ in
  let cut := λ _ _, Status 200 "v1" EmptyString (MkBody "198.51.100.0/24" true) in
  let f' := (Fetch cut (feed sample_feed) f).2 in
  show_prefix <$> LastGood "drop" f' = ["198.51.100.0/24"%string] ∧ etag <$> f' !! "drop"%string = Some "v1"%string.
Proof. vm_compute. done. Qed.

(** A mapped spelling of a private address is kept. *)
Example mapped_private_kept :
  show_prefix <$> r_Prefixes (parse (feed sample_feed) (MkBody "::ffff:10.0.0.1" false)) = ["::ffff:10.0.0.1/128"%string].
Proof. vm_compute. done. Qed.
