(* ===== verification/GoNet.v ===== *)
(** Host-and-port texts, file paths and path patterns: [net.SplitHostPort],
    [net.JoinHostPort], [path.Clean] of a rooted path, what [path.Match] refuses,
    and the parts of a parsed URL.  Standard-library code, not mapped to the
    repository. *)
From Stdlib Require Import Ascii.
From S2P Require Import Prelude GoStrings GoUtf8 Netip NetipParse.
#[local] Open Scope Z_scope.

(** What [url.Parse] finds in a text. *)
Record url := MkURL { Scheme : string; has_User : bool; Host : string; u_Path : string; RawQuery : string; Fragment : string }.

(** ** Host and port *)
Definition after_char (c : ascii) (s : string) : string := default EmptyString (cut c s).2.

Definition SplitHostPort (s : string) : option (string * string) :=
  match cut_last ":" s with
  | None => None
  | Some (before, port) =>
      match before with
      | String "[" inside =>
          (* the first closing bracket must be what precedes the last colon *)
          match cut "]" inside with
          | (host, Some EmptyString) =>
              if no_char "[" inside && no_char "[" port && no_char "]" port then Some (host, port) else None
          | _ => None
          end
      | _ => if no_char ":" before && no_char "[" s && no_char "]" s then Some (before, port) else None
      end
  end.

(** [netip.ParseAddrPort]. *)
Definition ParseAddrPort (s : string) : option (addr * Z) :=
  match cut_last ":" s with
  | None => None
  | Some (host, port) =>
      n ← ParseUint10 16 port;
      match host with
      | String "[" inside =>
          if has_suffix "]" inside then
            a ← ParseAddr (TrimSuffix "]" inside); if Is4 a then None else Some (a, n)
          else None
      | _ => a ← ParseAddr host; if Is4 a then Some (a, n) else None
      end
  end.

Definition JoinHostPort (host port : string) : string :=
  if no_char ":" host then host +:+ String ":" port else "[" +:+ host +:+ "]:" +:+ port.

Definition IsLoopback (a : addr) : bool :=
  match Unmap a with
  | Addr4 v => Z.shiftr v 24 =? 127
  | Addr6 v _ => v =? 1
  | AddrNone => false
  end.

(** ** Paths *)
Definition clean_step (st : list string) (w : string) : list string :=
  if bool_decide (w = EmptyString) || bool_decide (w = "."%string) then st
  else if bool_decide (w = ".."%string) then removelast st else st ++ [w].

(** Of a path that starts with a slash. *)
Definition Clean (p : string) : string := "/" +:+ Join (foldl clean_step [] (split_on "/" p)) "/".

(** *** Patterns

    [path.Match] reads its whole pattern whatever the name, and fails exactly
    when a class is malformed or the last character is a backslash. *)

(** One member of a class: the rest after it; a member is never the last thing. *)
Fixpoint skip_rune (n : nat) (s : string) : string :=
  match n, s with S n, String _ s => skip_rune n s | _, _ => s end.

Definition getEsc (s : string) : option string :=
  match s with
  | EmptyString => None
  | String a s1 =>
      if bool_decide (a = "-"%char) || bool_decide (a = "]"%char) then None
      else
        let s := if bool_decide (a = "\"%char) then s1 else s in
        match runes s with
        | [] => None
        | r :: _ =>
            let width := str_len (encode r) in
            if (r =? RuneError) && negb (has_prefix (encode RuneError) s) then None
            else match skip_rune width s with EmptyString => None | rest => Some rest end
        end
  end.

(** The ranges of a class, after the bracket and the negation. *)
Fixpoint class (fuel : nat) (nrange : nat) (s : string) : option string :=
  match fuel with
  | O => None
  | S fuel =>
      match s, nrange with
      | String "]" rest, S _ => Some rest
      | _, _ =>
          match getEsc s with
          | Some (String "-" rest) => match getEsc rest with Some rest => class fuel (S nrange) rest | None => None end
          | Some rest => class fuel (S nrange) rest
          | None => None
          end
      end
  end.

Fixpoint pattern_from (fuel : nat) (s : string) : bool :=
  match fuel with
  | O => false
  | S fuel =>
      match s with
      | EmptyString => true
      | String a s =>
          if bool_decide (a = "["%char) then
            match class (S (str_len s)) 0 (match s with String "^" s => s | _ => s end) with
            | Some rest => pattern_from fuel rest
            | None => false
            end
          else if bool_decide (a = "\"%char) then match s with EmptyString => false | String _ s => pattern_from fuel s end
          else pattern_from fuel s
      end
  end.

(** No [path.ErrBadPattern]. *)
Definition pattern_ok (s : string) : bool := pattern_from (S (str_len s)) s.

Example pattern_examples :
  map pattern_ok ["php-*"; "[a-z]*"; "a\*"; "[^]a]"; "[a-"; "a\"; "[]"; "[*]x"]%string =
    [true; true; true; false; false; false; false; true].
Proof. vm_compute. done. Qed.

Example hostport_examples :
  map SplitHostPort ["127.0.0.1:9090"; "[::1]:80"; "::1:80"; "host"; "[::1]"; ":80"; "a:b:c"]%string =
    [Some ("127.0.0.1", "9090"); Some ("::1", "80"); None; None; None; Some (EmptyString, "80"%string); None]%string.
Proof. vm_compute. done. Qed.

Example clean_example : Clean "/var//run/../lib/./docker.sock" = "/var/lib/docker.sock"%string.
Proof. vm_compute. done. Qed.

Example addr_port_example :
  ParseAddrPort <$> ["203.0.113.9:1234"; "[2001:db8::7]:443"; "2001:db8::7"; "[1.2.3.4]:80"; "1.2.3.4:65536"; "1.2.3.4"; ":80"; "[]:80"]%string =
  [Some (Addr4 0xcb007109, 1234); Some (Addr6 0x20010db8000000000000000000000007 EmptyString, 443); None; None; None; None; None; None].
Proof. vm_compute. done. Qed.

(** What [SplitHostPort] splits, [JoinHostPort] joins. *)
Lemma Split_Join host port : no_char ":" port = true → no_char "[" port = true → no_char "]" port = true →
  no_char "[" host = true → no_char "]" host = true → SplitHostPort (JoinHostPort host port) = Some (host, port).
Proof.
  intros H1 H2 H3 H4 H5. unfold JoinHostPort. destruct (no_char ":" host) eqn:E.
  - unfold SplitHostPort. rewrite cut_last_app by done.
    assert (no_char "[" (host +:+ String ":" port) = true) as Ha by (rewrite no_char_app; simpl; by rewrite H4, H2).
    assert (no_char "]" (host +:+ String ":" port) = true) as Hb by (rewrite no_char_app; simpl; by rewrite H5, H3).
    rewrite Ha, Hb, E. destruct host as [|a h]; [done|]. destruct (decide (a = "["%char)) as [->|Hn]; [done|].
    destruct a as [[] [] [] [] [] [] [] []]; try done; congruence.
  - unfold SplitHostPort. replace ("[" +:+ host +:+ "]:" +:+ port) with (("[" +:+ host +:+ "]") +:+ String ":" port) by (simpl; f_equal; by rewrite str_app_assoc).
    rewrite cut_last_app by done. simpl.
    assert (cut "]" (host +:+ "]") = (host, Some EmptyString)) as ->.
    { clear -H5. induction host as [|a h IH]; [done|]. simpl in H5 |- *. destruct (decide (a = "]"%char)) as [->|Hn]; [done|].
      rewrite IH; [done|]. by destruct (bool_decide_reflect (a = "]"%char)). }
    rewrite no_char_app, H4, H2, H3. done.
Qed.
