(* ===== verification/Regex.v ===== *)
(** Regular expressions as Go's [regexp] matches them: leftmost-first, with
    captures.  Standard-library code, not mapped to the repository.

    Repetition is of a class of characters, which is all the program uses; every
    class is of ASCII characters or the complement of one, so matching bytes gives
    the captures that matching runes does. *)
From Stdlib Require Import Ascii NArith.
From S2P Require Import Prelude GoStrings.
#[local] Open Scope Z_scope.

(** ** Classes *)
Definition code (a : ascii) : Z := Z.of_N (N_of_ascii a).
Definition rng (lo hi : Z) (a : ascii) : bool := (lo <=? code a) && (code a <=? hi).
Definition chars (s : string) (a : ascii) : bool := negb (no_char a s).

Definition re_digit : ascii → bool := rng 48 57.
Definition re_space : ascii → bool := λ a, rng 9 10 a || rng 12 13 a || (code a =? 32).
Definition re_nonspace : ascii → bool := λ a, negb (re_space a).
Definition re_word : ascii → bool := λ a, rng 48 57 a || rng 65 90 a || rng 97 122 a || (code a =? 95).
Definition re_any : ascii → bool := λ a, negb (code a =? 10).
Definition not_in (s : string) : ascii → bool := λ a, negb (chars s a).

(** ** Expressions *)
Inductive re :=
| Eps
| Str (s : string)
| Cat (a b : re)
| Alt (a b : re)
| Rep (greedy : bool) (P : ascii → bool) (min : nat) (max : option nat)
| Grp (n : nat) (r : re)
| WordB
| Eot.

Definition opt (r : re) : re := Alt r Eps.
Fixpoint cats (l : list re) : re := match l with [] => Eps | [r] => r | r :: l => Cat r (cats l) end.
Definition plus (P : ascii → bool) : re := Rep true P 1 None.
Definition star (P : ascii → bool) : re := Rep true P 0 None.

(** ** Matching

    The continuation is given the character before, the rest and the captures,
    newest first. *)
Abbreviation captures := (list (nat * string)) (only parsing).

Fixpoint last_char (prev : option ascii) (s : string) : option ascii :=
  match s with EmptyString => prev | String a s => last_char (Some a) s end.

Section exec.
Context {X : Type}.
Abbreviation cont := (option ascii → string → captures → option X) (only parsing).

Fixpoint rep_greedy (P : ascii → bool) (min : nat) (max : option nat) (prev : option ascii) (s : string) (c : captures) (k : cont) : option X :=
  let stop := match min with O => k prev s c | S _ => None end in
  match s with
  | String a t =>
      if P a then
        match max with
        | Some O => stop
        | _ => match rep_greedy P (pred min) (option_map pred max) (Some a) t c k with Some x => Some x | None => stop end
        end
      else stop
  | EmptyString => stop
  end.

Fixpoint rep_lazy (P : ascii → bool) (min : nat) (max : option nat) (prev : option ascii) (s : string) (c : captures) (k : cont) : option X :=
  let more :=
    match s with
    | String a t => if P a then match max with Some O => None | _ => rep_lazy P (pred min) (option_map pred max) (Some a) t c k end else None
    | EmptyString => None
    end in
  match min with
  | O => match k prev s c with Some x => Some x | None => more end
  | S _ => more
  end.

Definition is_word (o : option ascii) : bool := match o with Some a => re_word a | None => false end.
Definition head_char (s : string) : option ascii := match s with String a _ => Some a | EmptyString => None end.

Fixpoint exec (r : re) (prev : option ascii) (s : string) (c : captures) (k : cont) : option X :=
  match r with
  | Eps => k prev s c
  | Str p => if has_prefix p s then k (last_char prev p) (str_drop (str_len p) s) c else None
  | Cat a b => exec a prev s c (λ prev s c, exec b prev s c k)
  | Alt a b => match exec a prev s c k with Some x => Some x | None => exec b prev s c k end
  | Rep true P min max => rep_greedy P min max prev s c k
  | Rep false P min max => rep_lazy P min max prev s c k
  | Grp n r => exec r prev s c (λ prev' t c', k prev' t ((n, str_take (str_len s - str_len t) s) :: c'))
  | WordB => if xorb (is_word prev) (is_word (head_char s)) then k prev s c else None
  | Eot => match s with EmptyString => k prev s c | _ => None end
  end.
End exec.

(** The first position that matches. *)
Fixpoint search (r : re) (prev : option ascii) (s : string) : option captures :=
  match exec r prev s [] (λ _ _ c, Some c) with
  | Some c => Some c
  | None => match s with EmptyString => None | String a s => search r (Some a) s end
  end.

(** [FindStringSubmatch], of a pattern that starts with [^] and of any other. *)
Definition match_at (r : re) (s : string) : option captures := exec r None s [] (λ _ _ c, Some c).
Definition find (r : re) (s : string) : option captures := search r None s.

(** A submatch; the empty text when its group took no part. *)
Definition sub (c : captures) (n : nat) : string := from_option snd EmptyString (List.find (λ g, Nat.eqb g.1 n) c).

(** ** Reasoning *)
Lemma str_take_app p s : str_take (str_len p) (p +:+ s) = p.
Proof. induction p as [|a p IH]; simpl; [by destruct s|]. by rewrite IH. Qed.

Lemma str_take_prefix a b : str_take (str_len (a +:+ b) - str_len b) (a +:+ b) = a.
Proof. rewrite str_length_app. replace (str_len a + str_len b - str_len b)%nat with (str_len a) by lia. apply str_take_app. Qed.

Lemma exec_str {X} p prev s c (k : option ascii → string → list (nat * string) → option X) :
  exec (Str p) prev (p +:+ s) c k = k (last_char prev p) s c.
Proof. simpl. by rewrite has_prefix_app, str_drop_app. Qed.

Lemma exec_lead {X} p r prev s c (k : option ascii → string → list (nat * string) → option X) :
  exec (Cat (Str p) r) prev (p +:+ s) c k = exec r (last_char prev p) s c k.
Proof. apply exec_str. Qed.

Lemma exec_grp {X} n r prev s c (k : option ascii → string → list (nat * string) → option X) :
  exec (Grp n r) prev s c k = exec r prev s c (λ prev' t c', k prev' t ((n, str_take (str_len s - str_len t) s) :: c')).
Proof. done. Qed.

(** A greedy repetition takes the longest run its continuation accepts. *)
Lemma rep_greedy_longest {X} (P : ascii → bool) (k : option ascii → string → list (nat * string) → option X) a :
  ∀ min prev b c x, str_forall P a = true → (min ≤ str_len a)%nat → k (last_char prev a) b c = Some x →
  (∀ u v prev', b = u +:+ v → u ≠ EmptyString → str_forall P u = true → k prev' v c = None) →
  rep_greedy P min None prev (a +:+ b) c k = Some x.
Proof.
  induction a as [|ch a IH]; intros min prev b c x Ha Hm Hk Hno; simpl in *.
  - assert (min = 0%nat) as -> by lia. destruct b as [|d b]; [done|].
    assert (∀ s m prev', (∃ u, u ≠ EmptyString ∧ str_forall P u = true ∧ String d b = u +:+ s) → rep_greedy P m None prev' s c k = None) as Hfail.
    { induction s as [|e s IHs]; intros m prev' (u & Hu & Pu & E); simpl.
      - destruct m; [|done]. by eapply Hno.
      - assert (match m with 0%nat => k prev' (String e s) c | S _ => None end = None) as Hs by (destruct m; [by eapply Hno|done]).
        destruct (P e) eqn:Pe; [|done]. rewrite IHs; [done|]. exists (u +:+ String e EmptyString). split_and!; [by destruct u| |].
        + rewrite str_forall_app, Pu. simpl. by rewrite Pe.
        + rewrite E. by rewrite str_app_assoc. }
    simpl. destruct (P d) eqn:Pd; [|done]. rewrite Hfail; [done|]. exists (String d EmptyString). simpl. by rewrite Pd.
  - apply andb_true_iff in Ha as [Hp Ha]. rewrite Hp. rewrite (IH (pred min) (Some ch) b c x); [done|done|lia|done|done].
Qed.

(** A run that what follows it ends. *)
Lemma rep_greedy_run {X} (P : ascii → bool) (k : option ascii → string → list (nat * string) → option X) a :
  ∀ min max prev b c x, str_forall P a = true → (min ≤ str_len a)%nat → from_option (λ m, str_len a ≤ m)%nat True max →
  (∀ d t, b = String d t → P d = false) → k (last_char prev a) b c = Some x →
  rep_greedy P min max prev (a +:+ b) c k = Some x.
Proof.
  induction a as [|ch a IH]; intros min max prev b c x Ha Hm Hx Hb Hk; simpl in *.
  - assert (min = 0%nat) as -> by lia. destruct b as [|d b]; [done|]. simpl. by rewrite (Hb d b).
  - apply andb_true_iff in Ha as [Hp Ha]. rewrite Hp. assert (pred min ≤ str_len a)%nat as Hm' by lia.
    destruct max as [[|m]|]; simpl in *; [lia| |]; erewrite IH; eauto; simpl; lia.
Qed.

(** Steps of a match, from the left. *)
Section steps.
Context {X : Type} (k : option ascii → string → list (nat * string) → option X).

Lemma step_str p r prev s c x : exec r (last_char prev p) s c k = Some x → exec (Cat (Str p) r) prev (p +:+ s) c k = Some x.
Proof. intros H. rewrite <- H. apply exec_lead. Qed.

Lemma step_run P min max a r prev b c x : str_forall P a = true → (min ≤ str_len a)%nat → from_option (λ m, str_len a ≤ m)%nat True max →
  (∀ d t, b = String d t → P d = false) → exec r (last_char prev a) b c k = Some x →
  exec (Cat (Rep true P min max) r) prev (a +:+ b) c k = Some x.
Proof. intros. cbn [exec]. by apply rep_greedy_run. Qed.

Lemma step_grp n P min max a r prev b c x : str_forall P a = true → (min ≤ str_len a)%nat → from_option (λ m, str_len a ≤ m)%nat True max →
  (∀ d t, b = String d t → P d = false) → exec r (last_char prev a) b ((n, a) :: c) k = Some x →
  exec (Cat (Grp n (Rep true P min max)) r) prev (a +:+ b) c k = Some x.
Proof. intros. cbn [exec]. apply rep_greedy_run; try done. by rewrite str_take_prefix. Qed.
Lemma step_longest P min a r prev b c x : str_forall P a = true → (min ≤ str_len a)%nat → exec r (last_char prev a) b c k = Some x →
  (∀ u v prev', b = u +:+ v → u ≠ EmptyString → str_forall P u = true → exec r prev' v c k = None) →
  exec (Cat (Rep true P min None) r) prev (a +:+ b) c k = Some x.
Proof. intros. cbn [exec]. by apply rep_greedy_longest. Qed.
End steps.

(** A repetition fails when its continuation does wherever it may stop. *)
Lemma rep_greedy_none {X} (P : ascii → bool) (k : option ascii → string → list (nat * string) → option X) :
  ∀ s min max prev c, (∀ u v prev', s = u +:+ v → (min ≤ str_len u)%nat → str_forall P u = true → k prev' v c = None) →
  rep_greedy P min max prev s c k = None.
Proof.
  induction s as [|a s IH]; intros min max prev c H; simpl.
  - destruct min; [|done]. by apply (H EmptyString EmptyString).
  - assert (match min with 0%nat => k prev (String a s) c | S _ => None end = None) as Hs.
    { destruct min; [|done]. by apply (H EmptyString (String a s)). }
    destruct (P a) eqn:Ep; [|done]. assert (∀ mx, rep_greedy P (pred min) mx (Some a) s c k = None) as Hr.
    { intros mx. apply IH. intros u v prev' -> Hl Hf. apply (H (String a u) v); [done|simpl; lia|]. simpl. by rewrite Ep. }
    destruct max as [[|m]|]; [done| |]; by rewrite Hr.
Qed.

Lemma rep_greedy_sound {X} (P : ascii → bool) (k : option ascii → string → list (nat * string) → option X) :
  ∀ s min max prev c x, rep_greedy P min max prev s c k = Some x →
  ∃ u v prev', s = u +:+ v ∧ str_forall P u = true ∧ (min ≤ str_len u)%nat ∧ k prev' v c = Some x.
Proof.
  induction s as [|a s IH]; intros min max prev c x H; simpl in H.
  - destruct min; [|done]. by exists EmptyString, EmptyString, prev.
  - assert (match min with 0%nat => k prev (String a s) c | S _ => None end = Some x →
      ∃ u v prev', String a s = u +:+ v ∧ str_forall P u = true ∧ (min ≤ str_len u)%nat ∧ k prev' v c = Some x) as Hstop.
    { intros E. destruct min; [|done]. by exists EmptyString, (String a s), prev. }
    destruct (P a) eqn:Ep; [|by apply Hstop].
    assert (∀ mx, match rep_greedy P (pred min) mx (Some a) s c k with Some x => Some x | None => match min with 0%nat => k prev (String a s) c | S _ => None end end = Some x →
      ∃ u v prev', String a s = u +:+ v ∧ str_forall P u = true ∧ (min ≤ str_len u)%nat ∧ k prev' v c = Some x) as Hgo.
    { intros mx E. destruct (rep_greedy P (pred min) mx (Some a) s c k) as [y|] eqn:Er; [|by apply Hstop]. injection E as ->.
      apply IH in Er as (u & v & prev' & -> & Hu & Hm & Hk). exists (String a u), v, prev'. simpl. rewrite Ep. split_and!; try done. lia. }
    destruct max as [[|m]|]; [by apply Hstop|by apply (Hgo (Some m))|by apply (Hgo None)].
Qed.

Lemma rep_greedy_total {X} (P : ascii → bool) (k : option ascii → string → list (nat * string) → option X) :
  (∀ prev v c, is_Some (k prev v c)) → ∀ s max prev c, is_Some (rep_greedy P 0 max prev s c k).
Proof.
  intros Hk. induction s as [|a s IH]; intros max prev c; simpl; [apply Hk|]. destruct (P a); [|apply Hk].
  destruct max as [[|m]|]; [apply Hk| |]; by destruct (rep_greedy _ _ _ _ _ _ _); eauto.
Qed.

Lemma str_forall_suffix P a b : str_forall P (a +:+ b) = true → str_forall P a = true ∧ str_forall P b = true.
Proof. rewrite str_forall_app. apply andb_true_iff. Qed.

(** Two decompositions of a text: the shorter prefix is a prefix of the longer. *)
Lemma app_split (a b u v : string) : a +:+ b = u +:+ v → (str_len a ≤ str_len u)%nat → ∃ w, u = a +:+ w ∧ b = w +:+ v.
Proof.
  revert u. induction a as [|c a IH]; intros u E H; simpl in *; [by exists u|].
  destruct u as [|d u]; simpl in *; [lia|]. injection E as <- E. destruct (IH u E) as (w & -> & ->); [lia|]. by exists w.
Qed.

Example greedy_example :
  (λ c, (sub c 1, sub c 2)) <$> match_at (cats [Str "for "; Grp 1 (plus re_any); Str " from "; Grp 2 (plus re_digit)]) "for a from 1 from 22 x" =
  Some ("a from 1", "22")%string.
Proof. vm_compute. done. Qed.

Example lazy_example :
  (λ c, sub c 1) <$> find (cats [WordB; Str "k="; Grp 1 (Rep false re_nonspace 1 None); Str ";"]) "xk=0; k=1;2;" = Some "1"%string.
Proof. vm_compute. done. Qed.
