(* ===== verification/Json.v ===== *)
(** JSON texts as [encoding/json] reads them, and the conversions the program
    asks for: into a map of raw values, a text, a list of texts, a number.
    Standard-library code, not mapped to the repository.

    The nesting limit of the library, ten thousand, is not modelled: the program
    reads texts shorter than that. *)
From Stdlib Require Import Ascii NArith.
From S2P Require Import Prelude GoStrings GoUtf8.
#[local] Open Scope Z_scope.

Inductive json :=
| JNull
| JBool (b : bool)
| JNum (lit : string)
| JStr (s : string)
| JArr (l : list json)
| JObj (l : list (string * json)).

(** ** Texts between quotes *)
Definition quote : ascii := "034"%char.

Inductive piece := PByte (a : ascii) | PUnit (u : Z).

Definition esc (a : ascii) : option ascii :=
  if bool_decide (a = quote ∨ a = "\"%char ∨ a = "/"%char) then Some a
  else if bool_decide (a = "b"%char) then Some (chr 8)
  else if bool_decide (a = "f"%char) then Some (chr 12)
  else if bool_decide (a = "n"%char) then Some (chr 10)
  else if bool_decide (a = "r"%char) then Some (chr 13)
  else if bool_decide (a = "t"%char) then Some (chr 9)
  else None.

Fixpoint pieces (s : string) : option (list piece * string) :=
  match s with
  | EmptyString => None
  | String a t =>
      if decide (a = quote) then Some ([], t)
      else if decide (a = "\"%char) then
        match t with
        | String "u" (String h1 (String h2 (String h3 (String h4 u)))) =>
            x ← parse_base hex_val 16 0 (String h1 (String h2 (String h3 (String h4 EmptyString))));
            '(ps, r) ← pieces u; Some (PUnit x :: ps, r)
        | String e u => c ← esc e; '(ps, r) ← pieces u; Some (PByte c :: ps, r)
        | EmptyString => None
        end
      else if byte a <? 32 then None
      else '(ps, r) ← pieces t; Some (PByte a :: ps, r)
  end.

(** Bytes that are no UTF-8 and lone halves of a surrogate pair become U+FFFD. *)
Definition coerce (s : string) : string := encode_all (runes s).
Definition surr1 (u : Z) : bool := (0xD800 <=? u) && (u <? 0xDC00).
Definition surr2 (u : Z) : bool := (0xDC00 <=? u) && (u <? 0xE000).

Fixpoint unquote (run : string) (ps : list piece) : string :=
  match ps with
  | [] => coerce run
  | PByte a :: ps => unquote (run +:+ String a EmptyString) ps
  | PUnit u :: ((PUnit v :: ps2) as ps1) =>
      coerce run +:+
      (if surr1 u && surr2 v then encode ((u - 0xD800) * 1024 + (v - 0xDC00) + 0x10000) +:+ unquote EmptyString ps2
       else encode u +:+ unquote EmptyString ps1)
  | PUnit u :: ps => coerce run +:+ encode u +:+ unquote EmptyString ps
  end.

Definition text (s : string) : option (string * string) := '(ps, r) ← pieces s; Some (unquote EmptyString ps, r).

(** ** Numbers *)
Definition is_digit (a : ascii) : bool := bool_decide (is_Some (digit_val a)).

Fixpoint digit_run (s : string) : string * string :=
  match s with
  | String a t => if is_digit a then let '(d, r) := digit_run t in (String a d, r) else (EmptyString, s)
  | EmptyString => (EmptyString, s)
  end.
Definition digits1 (s : string) : option (string * string) :=
  let '(d, r) := digit_run s in if bool_decide (d = EmptyString) then None else Some (d, r).

Definition integer (s : string) : option (string * string) :=
  match s with String "0" t => Some ("0"%string, t) | _ => digits1 s end.
Definition fraction (s : string) : option (string * string) :=
  match s with String "." t => '(d, r) ← digits1 t; Some (String "." d, r) | _ => Some (EmptyString, s) end.
Definition exponent (s : string) : option (string * string) :=
  match s with
  | String e t =>
      if bool_decide (e = "e"%char ∨ e = "E"%char) then
        let '(sg, u) := match t with
                        | String c u => if bool_decide (c = "+"%char ∨ c = "-"%char) then (String c EmptyString, u) else (EmptyString, t)
                        | EmptyString => (EmptyString, t)
                        end in
        '(d, r) ← digits1 u; Some (String e (sg +:+ d), r)
      else Some (EmptyString, s)
  | EmptyString => Some (EmptyString, s)
  end.

Definition number (s : string) : option (string * string) :=
  let '(sg, s) := match s with String "-" t => ("-"%string, t) | _ => (EmptyString, s) end in
  '(i, s) ← integer s; '(f, s) ← fraction s; '(e, s) ← exponent s; Some (sg +:+ i +:+ f +:+ e, s).

(** ** Values *)
Definition ws (a : ascii) : bool := let n := byte a in (n =? 32) || (n =? 9) || (n =? 10) || (n =? 13).
Fixpoint skip_ws (s : string) : string :=
  match s with String a t => if ws a then skip_ws t else s | EmptyString => s end.

Definition word (w : string) (v : json) (s : string) : option (json * string) :=
  if has_prefix w s then Some (v, str_drop (str_len w) s) else None.

Fixpoint value (n : nat) (s : string) : option (json * string) :=
  match n with
  | O => None
  | S n =>
      match skip_ws s with
      | String a t =>
          if decide (a = "{"%char) then
            match skip_ws t with
            | String "}" u => Some (JObj [], u)
            | _ => '(l, u) ← members n t; Some (JObj l, u)
            end
          else if decide (a = "["%char) then
            match skip_ws t with
            | String "]" u => Some (JArr [], u)
            | _ => '(l, u) ← elements n t; Some (JArr l, u)
            end
          else if decide (a = quote) then '(x, u) ← text t; Some (JStr x, u)
          else if decide (a = "n"%char) then word "null" JNull (String a t)
          else if decide (a = "t"%char) then word "true" (JBool true) (String a t)
          else if decide (a = "f"%char) then word "false" (JBool false) (String a t)
          else '(x, u) ← number (String a t); Some (JNum x, u)
      | EmptyString => None
      end
  end
with members (n : nat) (s : string) : option (list (string * json) * string) :=
  match n with
  | O => None
  | S n =>
      match skip_ws s with
      | String a t =>
          if decide (a = quote) then
            '(k, u) ← text t;
            match skip_ws u with
            | String ":" u =>
                '(v, u) ← value n u;
                match skip_ws u with
                | String "," u => '(l, u) ← members n u; Some ((k, v) :: l, u)
                | String "}" u => Some ([(k, v)], u)
                | _ => None
                end
            | _ => None
            end
          else None
      | EmptyString => None
      end
  end
with elements (n : nat) (s : string) : option (list json * string) :=
  match n with
  | O => None
  | S n =>
      '(v, u) ← value n s;
      match skip_ws u with
      | String "," u => '(l, u) ← elements n u; Some (v :: l, u)
      | String "]" u => Some ([v], u)
      | _ => None
      end
  end.

(** [json.Unmarshal], up to the conversion. *)
Definition parse_json (s : string) : option json :=
  '(v, r) ← value (S (2 * str_len s)) s;
  if decide (skip_ws r = EmptyString) then Some v else None.

(** ** Conversions; [null] leaves the target as it is *)
Definition as_object (v : json) : option (gmap string json) :=
  match v with
  | JObj l => Some (foldl (λ m kv, <[kv.1 := kv.2]> m) ∅ l)
  | JNull => Some ∅
  | _ => None
  end.
Definition as_string (v : json) : option string :=
  match v with JStr s => Some s | JNull => Some EmptyString | _ => None end.
Definition as_number (v : json) : option string :=
  match v with JNum s => Some s | JNull => Some EmptyString | _ => None end.
Definition as_strings (v : json) : option (list string) :=
  match v with JArr l => mapM as_string l | JNull => Some [] | _ => None end.

(** A member name against a struct field's: case-blind, [ſ] and [K] included. *)
Definition fold_rune (r : Z) : Z :=
  if (97 <=? r) && (r <=? 122) then r - 32 else if r =? 0x17F then 83 else if r =? 0x212A then 75 else r.
Definition same_name (key name : string) : bool := bool_decide (fold_rune <$> runes key = fold_rune <$> runes name).

(** The field [name] of a struct, of type [string]: the last member that names it
    and is no [null]; [None] when one has another type. *)
Definition field_text (name : string) (l : list (string * json)) : option string :=
  foldl (λ acc kv, x ← acc; if same_name kv.1 name then match kv.2 with JStr s => Some s | JNull => Some x | _ => None end else Some x)
    (Some EmptyString) l.

(** ** The fuel is enough *)
Definition shrinks {A} (s : string) (r : option (A * string)) : Prop := ∀ v t, r = Some (v, t) → (str_len t < str_len s)%nat.

Lemma shrinks_None {A} s : shrinks (A := A) s None.
Proof. by intros ? ?. Qed.
Lemma shrinks_Some {A} s (v : A) t : (str_len t < str_len s)%nat → shrinks s (Some (v, t)).
Proof. by intros H ? ? [= <- <-]. Qed.
Lemma shrinks_bind {A B} s s' (r : option (A * string)) (f : A * string → option (B * string)) :
  shrinks s r → (∀ v t, (str_len t < str_len s)%nat → shrinks s' (f (v, t))) → shrinks s' (r ≫= f).
Proof. intros Hr Hf. destruct r as [[v t]|]; [|apply shrinks_None]. apply Hf. by eapply Hr. Qed.
Lemma shrinks_le {A} s s' (r : option (A * string)) : shrinks s r → (str_len s ≤ str_len s')%nat → shrinks s' r.
Proof. intros Hr Hl v t E. specialize (Hr v t E). lia. Qed.

Lemma skip_ws_len s : (str_len (skip_ws s) ≤ str_len s)%nat.
Proof. induction s as [|a s IH]; simpl; [done|]. destruct (ws a); simpl; lia. Qed.

Lemma pieces_step a s t f : (str_len t ≤ str_len s)%nat → shrinks t (pieces t) →
  shrinks (String a s) ('(ps, r) ← pieces t; Some (f ps : list piece, r)).
Proof. intros Hl Ht. eapply shrinks_bind; [exact Ht|]. intros ps r Hr. apply shrinks_Some. simpl. lia. Qed.

Lemma pieces_shrinks s : shrinks s (pieces s).
Proof.
  assert (∀ n s, (str_len s < n)%nat → shrinks s (pieces s)) as H; [|apply (H (S (str_len s))); lia].
  induction n as [|n IH]; intros [|a t] Hn; simpl in Hn; try lia; [apply shrinks_None|].
  cbn [pieces]. case_decide; [apply shrinks_Some; simpl; lia|]. case_decide.
  - destruct t as [|e u]; [apply shrinks_None|]. simpl in Hn.
    assert (shrinks (String a (String e u)) (c ← esc e; '(ps, r) ← pieces u; Some (PByte c :: ps, r))) as Hesc.
    { destruct (esc e) as [c|]; cbn; [|apply shrinks_None]. apply (pieces_step _ _ _ (λ ps, PByte c :: ps)); [simpl; lia|]. apply IH. lia. }
    destruct u as [|h1 [|h2 [|h3 [|h4 u]]]]; try (repeat case_match; exact Hesc).
    repeat case_match; subst; try exact Hesc. destruct (parse_base _ _ _ _) as [x|]; cbn [mbind option_bind]; [|apply shrinks_None].
    apply (pieces_step _ _ _ (λ ps, PUnit x :: ps)); [simpl; lia|]. apply IH. simpl in Hn. lia.
  - case_match; [apply shrinks_None|]. apply (pieces_step _ _ _ (λ ps, PByte a :: ps)); [done|]. apply IH. lia.
Qed.

Lemma text_shrinks s : shrinks s (text s).
Proof. eapply shrinks_bind; [apply pieces_shrinks|]. intros v t Ht. by apply shrinks_Some. Qed.

Lemma digit_run_len s : (str_len (digit_run s).1 + str_len (digit_run s).2 = str_len s)%nat.
Proof. induction s as [|a s IH]; simpl; [done|]. destruct (is_digit a); [|done]. destruct (digit_run s). simpl in *. lia. Qed.

Lemma digits1_shrinks s : shrinks s (digits1 s).
Proof.
  unfold digits1. pose proof (digit_run_len s) as H. destruct (digit_run s) as [d r]. simpl in *.
  case_bool_decide; [apply shrinks_None|]. apply shrinks_Some. destruct d; [done|]. simpl in *. lia.
Qed.

Lemma integer_shrinks s : shrinks s (integer s).
Proof.
  unfold integer. destruct s as [|a s]; [apply digits1_shrinks|].
  repeat case_match; try apply digits1_shrinks. apply shrinks_Some. simpl. lia.
Qed.

Lemma fraction_len s d r : fraction s = Some (d, r) → (str_len r ≤ str_len s)%nat.
Proof.
  unfold fraction. intros E. repeat case_match; simplify_eq; try done.
  destruct (digits1 _) as [[x y]|] eqn:E2; simplify_eq/=. apply digits1_shrinks in E2. lia.
Qed.
Lemma exponent_len s d r : exponent s = Some (d, r) → (str_len r ≤ str_len s)%nat.
Proof.
  unfold exponent. intros E. destruct s as [|e t]; [by simplify_eq|]. case_bool_decide; [|by simplify_eq].
  destruct t as [|c u]; [done|]. case_bool_decide; destruct (digits1 _) as [[x y]|] eqn:E2; simplify_eq/=;
    apply digits1_shrinks in E2; simpl in *; lia.
Qed.

Lemma number_shrinks s : shrinks s (number s).
Proof.
  unfold number. set (st := match s with String "-" t => _ | _ => _ end).
  assert (str_len st.2 ≤ str_len s)%nat as Hs by (unfold st; repeat case_match; simpl; lia).
  destruct st as [sg u]. simpl in Hs. eapply shrinks_le; [|exact Hs].
  eapply shrinks_bind; [apply integer_shrinks|]. intros i t Ht.
  destruct (fraction t) as [[f t1]|] eqn:E1; simpl; [|apply shrinks_None]. apply fraction_len in E1.
  destruct (exponent t1) as [[e t2]|] eqn:E2; simpl; [|apply shrinks_None]. apply exponent_len in E2.
  apply shrinks_Some. lia.
Qed.

Lemma str_drop_len n s : (str_len (str_drop n s) = str_len s - n)%nat.
Proof. revert s. induction n as [|n IH]; intros [|a s]; simpl; try done; try lia; apply IH. Qed.

Lemma word_shrinks w v s : w ≠ EmptyString → shrinks s (word w v s).
Proof.
  intros Hw. unfold word. destruct (has_prefix w s) eqn:E; [|apply shrinks_None].
  apply has_prefix_spec in E as (t & ->). apply shrinks_Some. rewrite str_drop_len, str_length_app. destruct w; [done|]. simpl. lia.
Qed.

(** Every reader consumes, so fuel above twice the length makes no difference. *)
Lemma value_shrinks n s : shrinks s (value n s) ∧ shrinks s (members n s) ∧ shrinks s (elements n s).
Proof.
  revert s. induction n as [|n IH]; intros s; [repeat split; apply shrinks_None|].
  repeat split; cbn [value members elements].
  - pose proof (skip_ws_len s) as Hs. destruct (skip_ws s) as [|a t]; [apply shrinks_None|]. simpl in Hs.
    apply (shrinks_le (String a t)); [|exact Hs]. pose proof (skip_ws_len t) as Ht.
    case_decide; [|case_decide; [|case_decide; [|case_decide; [|case_decide; [|case_decide]]]]].
    + destruct (IH t) as (_ & Hm & _). assert (shrinks (String a t) ('(l, u) ← members n t; Some (JObj l, u))) as Hgo.
      { eapply shrinks_bind; [exact Hm|]. intros. apply shrinks_Some. simpl. lia. }
      repeat case_match; try exact Hgo. apply shrinks_Some. simpl in *. lia.
    + destruct (IH t) as (_ & _ & He). assert (shrinks (String a t) ('(l, u) ← elements n t; Some (JArr l, u))) as Hgo.
      { eapply shrinks_bind; [exact He|]. intros. apply shrinks_Some. simpl. lia. }
      repeat case_match; try exact Hgo. apply shrinks_Some. simpl in *. lia.
    + eapply shrinks_bind; [apply text_shrinks|]. intros. apply shrinks_Some. simpl. lia.
    + by apply word_shrinks.
    + by apply word_shrinks.
    + by apply word_shrinks.
    + eapply shrinks_bind; [apply number_shrinks|]. intros. by apply shrinks_Some.
  - pose proof (skip_ws_len s) as Hs. destruct (skip_ws s) as [|a t]; [apply shrinks_None|]. simpl in Hs.
    apply (shrinks_le (String a t)); [|exact Hs]. case_decide; [|apply shrinks_None].
    eapply shrinks_bind; [apply text_shrinks|]. intros k u Hu. pose proof (skip_ws_len u) as Hsu.
    destruct (skip_ws u) as [|c w]; [apply shrinks_None|]. simpl in Hsu.
    assert (shrinks (String a t) ('(v, u0) ← value n w; match skip_ws u0 with
      | String "," u1 => '(l, u2) ← members n u1; Some ((k, v) :: l, u2) | String "}" u1 => Some ([(k, v)], u1) | _ => None end)) as Hgo.
    { eapply shrinks_bind; [apply (proj1 (IH w))|]. intros v x Hx. pose proof (skip_ws_len x) as Hsx.
      destruct (skip_ws x) as [|d y]; [apply shrinks_None|]. simpl in Hsx.
      assert (shrinks (String a t) ('(l, u2) ← members n y; Some ((k, v) :: l, u2))) as Hgo.
      { eapply shrinks_bind; [apply (proj1 (proj2 (IH y)))|]. intros l z Hz. apply shrinks_Some. simpl. lia. }
      repeat case_match; try exact Hgo; try done; try apply shrinks_None. apply shrinks_Some. simpl. lia. }
    repeat case_match; try exact Hgo; try done; try apply shrinks_None.
  - eapply shrinks_bind; [apply (proj1 (IH s))|]. intros v x Hx. pose proof (skip_ws_len x) as Hsx.
    destruct (skip_ws x) as [|d y]; [apply shrinks_None|]. simpl in Hsx.
    assert (shrinks s ('(l, u2) ← elements n y; Some (v :: l, u2))) as Hgo.
    { eapply shrinks_bind; [apply (proj2 (proj2 (IH y)))|]. intros l z Hz. apply shrinks_Some. lia. }
    repeat case_match; try exact Hgo; try done; try apply shrinks_None. apply shrinks_Some. lia.
Qed.

Lemma value_more n s :
  ((2 * str_len s < n)%nat → value (S n) s = value n s) ∧
  ((2 * str_len s + 1 < n)%nat → members (S n) s = members n s ∧ elements (S n) s = elements n s).
Proof.
  revert s. induction n as [|n IH]; intros s; [split; intros ?; lia|]. pose proof (skip_ws_len s) as Hs. split; intros Hn.
  - cbn [value]. destruct (skip_ws s) as [|a t]; [done|]. simpl in Hs. destruct (proj2 (IH t) ltac:(lia)) as [Hm He].
    by rewrite Hm, He.
  - assert (∀ u, (str_len u < str_len s)%nat → value (S n) u = value n u) as Hv by (intros u Hu; apply IH; lia).
    assert (∀ u, (str_len u < str_len s)%nat → members (S n) u = members n u ∧ elements (S n) u = elements n u) as Hm
      by (intros u Hu; apply IH; lia).
    assert (value (S n) s = value n s) as Hvs by (apply IH; lia).
    remember (S n) as m eqn:Em.
    split; [replace (members m s) with (members (S n) s) by (by subst)|replace (elements m s) with (elements (S n) s) by (by subst)];
      cbn [members elements].
    + destruct (skip_ws s) as [|a t]; [done|]. simpl in Hs. case_decide; [|done]. destruct (text t) as [[k u]|] eqn:Et; [|done].
      apply text_shrinks in Et. cbn [mbind option_bind]. pose proof (skip_ws_len u) as Hu. destruct (skip_ws u) as [|c w]; [done|]. simpl in Hu.
      rewrite (Hv w) by lia. destruct (value n w) as [[v x]|] eqn:Ev; [|done]. apply (proj1 (value_shrinks n w)) in Ev.
      cbn [mbind option_bind]. pose proof (skip_ws_len x) as Hx. destruct (skip_ws x) as [|d y]; [done|]. simpl in Hx.
      destruct (Hm y) as [-> _]; [lia|done].
    + rewrite Hvs. destruct (value n s) as [[v x]|] eqn:Ev; [|done]. apply (proj1 (value_shrinks n s)) in Ev.
      cbn [mbind option_bind]. pose proof (skip_ws_len x) as Hx. destruct (skip_ws x) as [|d y]; [done|]. simpl in Hx.
      destruct (Hm y) as [_ ->]; [lia|done].
Qed.

Lemma value_fuel n s : (2 * str_len s < n)%nat → value n s = value (S (2 * str_len s)) s.
Proof.
  intros H. replace n with ((n - S (2 * str_len s)) + S (2 * str_len s))%nat by lia. generalize (n - S (2 * str_len s))%nat as k.
  induction k as [|k IH]; [done|]. rewrite <- IH. cbn [Nat.add]. apply value_more. lia.
Qed.

#[local] Definition q (s : string) : string := String quote (s +:+ String quote EmptyString).

Example json_example :
  parse_json (" {" +:+ q "log" +:+ ":" +:+ q "a\n\u00e9\ud83d\ude00\ud800x" +:+ ", " +:+ q "n" +:+ " : [1.5e3,null ,true,{}] } ") =
    Some (JObj [("log"%string, JStr ("a" +:+ str1 10 +:+ encode 0xe9 +:+ encode 0x1F600 +:+ encode 0xFFFD +:+ "x"));
                ("n"%string, JArr [JNum "1.5e3"; JNull; JBool true; JObj []])]).
Proof. vm_compute. done. Qed.

Example json_refused :
  map parse_json ["01"; "{,}"; "[1,]"; "nul"; "1 2"; q "\x"; q (str1 10); EmptyString; "-"; "1."; "[1"]%string = replicate 11 None.
Proof. vm_compute. done. Qed.

Example json_duplicate : (λ m : gmap string json, m !! "a"%string) <$> (parse_json ("{" +:+ q "a" +:+ ":1," +:+ q "a" +:+ ":2}") ≫= as_object) = Some (Some (JNum "2")).
Proof. vm_compute. done. Qed.
