(* ===== verification/Secrets.v ===== *)
(** Credentials and where they may stand: [internal/config/secret.go] and
    [secretguard.go].

    A secret field holds a reference to an environment variable; a value that
    looks like a key is refused wherever else it stands, and an error shows at most
    its first four characters and its length.  The scan walks the configuration as
    its YAML rendering, a tree of texts; the classes of runes are those of Go's
    [unicode] tables, an argument. *)
From Stdlib Require Import Ascii Sorting Orders.
From stdpp Require Import sorting.
From S2P Require Import Prelude GoStrings GoUtf8 NftNames.
#[local] Open Scope Z_scope.

(** ** Errors

    A format of [fmt.Errorf] with its arguments: texts of the configuration, and
    computed ones (numbers, paths, fingerprints). *)
Inductive earg := Shown (s : string) | Computed (s : string).

Inductive config_error :=
| Errorf (format : string) (args : list earg)
| Wrap (at_ : string) (e : config_error).

Abbreviation check := (option config_error) (only parsing).

(** The first error of checks made in order. *)
Fixpoint checks (l : list check) : check :=
  match l with [] => None | Some e :: _ => Some e | None :: l => checks l end.

Definition fail_if (b : bool) (format : string) (args : list earg) : check := if b then Some (Errorf format args) else None.
Definition wrap_check (at_ : string) (c : check) : check := Wrap at_ <$> c.

(** ** Secret references *)
Definition envPrefix : string := "env:".

(** [envVarNameRe]. *)
Definition envVarNameRe (s : string) : bool := nameRe s.

Definition knownSecretPrefixes : list string :=
  ["sk-"; "sk-ant-"; "sk_live_"; "pk-"; "xoxb-"; "xoxp-"; "ghp_"; "gho_"; "github_pat_"].

Definition redactSecret (s : string) : string :=
  let n := Z.of_nat (str_len s) in
  if n =? 0 then "<empty>"
  else if n <? 5 then "..(" +:+ show_Z n +:+ " chars)"
  else str_take 4 s +:+ "..(" +:+ show_Z n +:+ " chars)".

Definition validateEnvVarName (name : string) : check :=
  if bool_decide (name = EmptyString) then Some (Errorf "env var name is empty" [])
  else if existsb (λ p, has_prefix p name) knownSecretPrefixes then
    Some (Errorf "input looks like an API key (%s), not an env var name" [Computed (redactSecret name)])
  else if negb (envVarNameRe name) then
    Some (Errorf "env var name must match [A-Za-z_][A-Za-z0-9_]* (got %s)" [Computed (redactSecret name)])
  else None.


(** [SecretRef.UnmarshalYAML] of a decoded text. *)
Definition unmarshalSecretRef (line : Z) (raw : string) : result config_error string :=
  if bool_decide (raw = EmptyString) then Ok EmptyString
  else if negb (has_prefix envPrefix raw) then
    Err (Errorf "line %d: secret field must use 'env:VARNAME' reference, not an inline value (got %s)"
           [Computed (show_Z line); Computed (redactSecret raw)])
  else match validateEnvVarName (TrimPrefix envPrefix raw) with
       | Some e => Err (Wrap ("line " +:+ show_Z line +:+ ": secret field 'env:' reference") e)
       | None => Ok raw
       end.

Definition secretIsSet (s : string) : bool := negb (bool_decide (s = EmptyString)).

Definition PlaceholderAPIKey : string := "YOUR_API_KEY_HERE".
Definition ErrAPIKeyMissing : config_error := Errorf "AI API key missing — check /etc/ezyshield/.env" [].

(** [SecretRef.Resolve] in an environment. *)
Definition Resolve (env : string → option string) (s : string) : result config_error string :=
  if negb (secretIsSet s) then Err (Errorf "secret reference is not configured" [])
  else if negb (has_prefix envPrefix s) then
    Err (Errorf "secret reference is malformed: missing 'env:' prefix (got %s)" [Computed (redactSecret s)])
  else match validateEnvVarName (TrimPrefix envPrefix s) with
       | Some e => Err (Wrap "secret reference is malformed" e)
       | None => match env (TrimPrefix envPrefix s) with
                 | None => Err ErrAPIKeyMissing
                 | Some v => if bool_decide (v = EmptyString) || bool_decide (v = PlaceholderAPIKey) then Err ErrAPIKeyMissing else Ok v
                 end
       end.

(** ** The guard against misplaced credentials *)
Definition credentialPrefixes : list string :=
  ["sk-"; "ghp_"; "gho_"; "ghu_"; "ghs_"; "ghr_"; "github_pat_"; "glpat-"; "xoxb-"; "xoxp-"; "xoxa-"; "xoxs-"; "AKIA"; "ASIA"; "AIza"].

Definition credPrefixMinLen : nat := 16.
Definition credGenericMinLen : nat := 32.

(** Go's rune classes. *)
Record unicode := MkUnicode { IsUpper : Z → bool; IsLower : Z → bool; IsDigit : Z → bool }.

Section guard.
Context (U : unicode).

(** The loop over the runes: the cases seen, or [None] at a rune no token has. *)
Fixpoint token_scan (upper lower digit : bool) (rs : list Z) : option (bool * bool * bool) :=
  match rs with
  | [] => Some (upper, lower, digit)
  | r :: rs =>
      if IsUpper U r then token_scan true lower digit rs
      else if IsLower U r then token_scan upper true digit rs
      else if IsDigit U r then token_scan upper lower true rs
      else if existsb (Z.eqb r) [0x2B; 0x2F; 0x3D; 0x5F; 0x2D] then token_scan upper lower digit rs
      else None
  end.

Definition looksLikeCredential (s : string) : bool :=
  if has_prefix envPrefix s then false
  else if (credPrefixMinLen <=? str_len s)%nat && existsb (λ p, has_prefix p s) credentialPrefixes then true
  else if (str_len s <? credGenericMinLen)%nat then false
  else match token_scan false false false (runes s) with
       | Some (upper, lower, digit) => upper && lower && digit
       | None => false
       end.

(** The rendering of a configuration: mappings, sequences, texts, other scalars. *)
Inductive ynode := YMap (m : list (string * ynode)) | YSeq (l : list ynode) | YStr (s : string) | YOther.

Definition webhookHeadersPath : string := "notify.webhook.headers".

Definition child_path (path k : string) : string := if bool_decide (path = EmptyString) then k else path +:+ "." +:+ k.

(** [sort.Strings]. *)
Definition key_le (a b : string * ynode) : Prop := String.le a.1 b.1.
#[local] Instance key_le_dec a b : Decision (key_le a b).
Proof. unfold key_le. apply _. Defined.

Definition credential_error (path s : string) : config_error :=
  Errorf "field %s appears to contain a credential (%s) — secrets never go in config.yaml" [Computed path; Computed (redactSecret s)].

(** One visit of a node; the fuel is the depth of the tree. *)
Fixpoint walkForSecrets (fuel : nat) (path : string) (n : ynode) : check :=
  match fuel with
  | O => None
  | S fuel =>
      match n with
      | YMap m => checks (map (λ kn,
          let child := child_path path kn.1 in
          if bool_decide (child = webhookHeadersPath) then None else walkForSecrets fuel child kn.2) (merge_sort key_le m))
      | YSeq l => checks (imap (λ i n, walkForSecrets fuel (path +:+ "[" +:+ show_Z (Z.of_nat i) +:+ "]") n) l)
      | YStr s => if looksLikeCredential s then Some (credential_error path s) else None
      | YOther => None
      end
  end.

Fixpoint depth (n : ynode) : nat :=
  match n with
  | YMap m => S (foldr (λ kn d, Nat.max (depth kn.2) d) 0 m)%nat
  | YSeq l => S (foldr (λ n d, Nat.max (depth n) d) 0 l)%nat
  | _ => 1%nat
  end.

(** [scanForMisplacedSecrets] of the rendering; [None]: it cannot be rendered. *)
Definition scanForMisplacedSecrets (rendered : option ynode) : check :=
  match rendered with
  | None => Some (Errorf "secret scan: rendering config" [])
  | Some t => walkForSecrets (depth t) EmptyString t
  end.

Definition enumValueForError (s : string) : earg :=
  if looksLikeCredential s || (40 <? str_len s)%nat then Computed (redactSecret s) else Shown s.
End guard.

(** ** Checks in order *)
Lemma checks_None l : checks l = None ↔ Forall (λ c, c = None) l.
Proof. induction l as [|[e|] l IH]; simpl; [by split|split; [done|by intros [? _]%Forall_cons]|]. rewrite Forall_cons, <- IH. tauto. Qed.

Lemma checks_Some l e : checks l = Some e → Some e ∈ l.
Proof. induction l as [|[e'|] l IH]; simpl; [done|intros [= ->]; left|right; auto]. Qed.

Lemma checks_cons c l : checks (c :: l) = None ↔ c = None ∧ checks l = None.
Proof. rewrite !checks_None, Forall_cons. done. Qed.

Lemma checks_nil : checks [] = None ↔ True.
Proof. done. Qed.

Lemma fail_if_None b f args : fail_if b f args = None ↔ b = false.
Proof. destruct b; by split. Qed.

Lemma wrap_None at_ c : wrap_check at_ c = None ↔ c = None.
Proof. destruct c; by split. Qed.

(** ** Leaves *)

(** A text of the rendering, by its path, outside the exempt subtree. *)
Inductive leaf : string → ynode → string → string → Prop :=
| LStr path s : leaf path (YStr s) path s
| LMap path m k n p s : (k, n) ∈ m → child_path path k ≠ webhookHeadersPath →
    leaf (child_path path k) n p s → leaf path (YMap m) p s
| LSeq path l i n p s : l !! i = Some n → leaf (path +:+ "[" +:+ show_Z (Z.of_nat i) +:+ "]") n p s → leaf path (YSeq l) p s.

Lemma depth_in {A} (f : A → nat) l x : x ∈ l → (f x ≤ foldr (λ a d, Nat.max (f a) d) 0 l)%nat.
Proof. induction 1; simpl; lia. Qed.

Lemma walk_spec U fuel : ∀ path n, (depth n ≤ fuel)%nat →
  match walkForSecrets U fuel path n with
  | None => ∀ p s, leaf path n p s → looksLikeCredential U s = false
  | Some e => ∃ p s, leaf path n p s ∧ looksLikeCredential U s = true ∧ e = credential_error p s
  end.
Proof.
  induction fuel as [|fuel IH]; intros path n Hd; [destruct n; simpl in Hd; lia|].
  destruct n as [m|l|s|]; cbn [walkForSecrets depth] in *.
  - assert (∀ k n, (k, n) ∈ m → (depth n ≤ fuel)%nat) as Hk.
    { intros k n Hin. pose proof (depth_in (λ kn, depth kn.2) m _ Hin). simpl in *. lia. }
    destruct (checks _) as [e|] eqn:E.
    + apply checks_Some, list_elem_of_In, in_map_iff in E as ([k n] & Hw & Hin%list_elem_of_In). simpl in Hw.
      rewrite merge_sort_Permutation in Hin. case_bool_decide as Hh; [done|].
      pose proof (IH (child_path path k) n (Hk _ _ Hin)) as H. rewrite Hw in H. destruct H as (p & s & Hl & ? & ?).
      exists p, s. split; [by eapply LMap|done].
    + intros p s Hl. inversion_clear Hl as [|? ? k n ? ? Hin Hh Hl'|]. apply checks_None in E.
      pose proof (IH (child_path path k) n (Hk _ _ Hin)) as H. rewrite Forall_forall in E.
      rewrite (E (walkForSecrets U fuel (child_path path k) n)) in H; [by eapply H|].
      apply list_elem_of_In, in_map_iff. exists (k, n). split; [simpl; by rewrite bool_decide_false by done|].
      apply list_elem_of_In. by rewrite merge_sort_Permutation.
  - assert (∀ i n, l !! i = Some n → (depth n ≤ fuel)%nat) as Hk.
    { intros i n Hi. pose proof (depth_in depth l n (list_elem_of_lookup_2 _ _ _ Hi)). simpl in *. lia. }
    destruct (checks _) as [e|] eqn:E.
    + apply checks_Some, list_elem_of_lookup_1 in E as (i & Hi). rewrite list_lookup_imap in Hi. apply fmap_Some in Hi as (n & Hn & Hw).
      pose proof (IH (path +:+ "[" +:+ show_Z (Z.of_nat i) +:+ "]") n (Hk _ _ Hn)) as H. rewrite <- Hw in H. destruct H as (p & s & Hl & ? & ?).
      exists p, s. split; [by eapply LSeq|done].
    + intros p s Hl. inversion_clear Hl as [| |? ? i n ? ? Hi Hl']. apply checks_None in E. rewrite Forall_lookup in E.
      pose proof (IH (path +:+ "[" +:+ show_Z (Z.of_nat i) +:+ "]") n (Hk _ _ Hi)) as H.
      rewrite (E i (walkForSecrets U fuel (path +:+ "[" +:+ show_Z (Z.of_nat i) +:+ "]") n)) in H; [by eapply H|].
      by rewrite list_lookup_imap, Hi.
  - destruct (looksLikeCredential U s) eqn:E; [|intros p t Hl; inversion Hl; by subst].
    exists path, s. by repeat constructor.
  - intros p s Hl; by inversion Hl.
Qed.

(** A fingerprint tells the first four characters and the length. *)
Lemma redact_fingerprint s t : str_take 4 s = str_take 4 t → str_len s = str_len t → redactSecret s = redactSecret t.
Proof. intros H1 H2. unfold redactSecret. by rewrite H1, H2. Qed.

(** ** References *)
Definition env_ref (s : string) : Prop :=
  ∃ name, s = envPrefix +:+ name ∧ envVarNameRe name = true ∧ Forall (λ p, has_prefix p name = false) knownSecretPrefixes.

Lemma env_name_ok name : validateEnvVarName name = None ↔
  envVarNameRe name = true ∧ Forall (λ p, has_prefix p name = false) knownSecretPrefixes.
Proof.
  unfold validateEnvVarName. case_bool_decide as Hn; [subst; by split; [|intros [? _]]|].
  destruct (existsb _ _) eqn:E.
  - split; [done|]. intros [_ H]. apply existsb_exists_elem in E as (p & Hp & Ht). rewrite Forall_forall in H. rewrite H in Ht; done.
  - assert (Forall (λ p, has_prefix p name = false) knownSecretPrefixes) as HF.
    { apply Forall_forall. intros p Hp. by eapply existsb_false_elem in E. }
    destruct (envVarNameRe name); simpl; split; try done. by intros [? _].
Qed.

(** What a secret field of a loaded file holds. *)
Lemma unmarshal_ref line raw s : unmarshalSecretRef line raw = Ok s → s = raw ∧ (s = EmptyString ∨ env_ref s).
Proof.
  unfold unmarshalSecretRef. case_bool_decide as Hr; [intros [= <-]; auto|].
  destruct (has_prefix envPrefix raw) eqn:Hp; [|done]. apply has_prefix_spec in Hp as (name & ->).
  rewrite TrimPrefix_app. simpl. destruct (validateEnvVarName name) eqn:E; [done|]. intros [= <-]. split; [done|]. right.
  exists name. split; [done|]. by apply env_name_ok.
Qed.

(** A reference of a loaded file resolves to the variable's value, and fails only
    as a missing one. *)
Lemma resolve_ref env s : env_ref s →
  ∃ name, s = envPrefix +:+ name ∧
  Resolve env s = match env name with
                  | Some v => if bool_decide (v = EmptyString) || bool_decide (v = PlaceholderAPIKey) then Err ErrAPIKeyMissing else Ok v
                  | None => Err ErrAPIKeyMissing
                  end.
Proof.
  intros (name & -> & H). exists name. split; [done|]. apply env_name_ok in H. unfold Resolve.
  rewrite has_prefix_app, TrimPrefix_app, H. simpl. by destruct (env name).
Qed.

(** ** Properties *)

(** C36. A credential anywhere in the configuration, outside the webhook's headers,
    stops the load: the scan passes exactly when no text of the rendering looks
    like one, and otherwise reports one by its path, with an error that is the same
    for every text with those first four characters and that length. *)
Theorem credential_refused U t :
  (scanForMisplacedSecrets U (Some t) = None ↔ ∀ p s, leaf EmptyString t p s → looksLikeCredential U s = false) ∧
  ∀ e, scanForMisplacedSecrets U (Some t) = Some e →
    ∃ p s, leaf EmptyString t p s ∧ looksLikeCredential U s = true ∧
      ∀ s', str_take 4 s' = str_take 4 s → str_len s' = str_len s → e = credential_error p s'.
Proof.
  unfold scanForMisplacedSecrets. pose proof (walk_spec U (depth t) EmptyString t ltac:(lia)) as H.
  destruct (walkForSecrets _ _ _ _) as [e|].
  - destruct H as (p & s & Hl & Hc & ->). split.
    + split; [done|]. intros Hn. specialize (Hn p s Hl). congruence.
    + intros e [= <-]. exists p, s. repeat (split; [done|]). intros s' H1 H2. unfold credential_error.
      by rewrite (redact_fingerprint s' s).
  - split; [done|]. done.
Qed.

(** ** Witnesses *)
Definition ascii_unicode : unicode :=
  MkUnicode (λ r, (65 <=? r) && (r <=? 90)) (λ r, (97 <=? r) && (r <=? 122)) (λ r, (48 <=? r) && (r <=? 57)).

Definition leaky : ynode :=
  YMap [("ai", YMap [("provider", YStr "sk-ant-api03-0123456789"); ("async", YOther)]);
        ("notify", YMap [("webhook", YMap [("headers", YMap [("Authorization", YStr "sk-ant-api03-0123456789")])])])]%string.

Example leak_reported : scanForMisplacedSecrets ascii_unicode (Some leaky) =
  Some (Errorf "field %s appears to contain a credential (%s) — secrets never go in config.yaml"
          [Computed "ai.provider"; Computed "sk-a..(23 chars)"]).
Proof. vm_compute. done. Qed.

Lemma credential_refused_witness : ∃ p s, leaf EmptyString leaky p s ∧ looksLikeCredential ascii_unicode s = true.
Proof.
  destruct (proj2 (credential_refused ascii_unicode leaky) _ leak_reported) as (p & s & H1 & H2 & _). by exists p, s.
Defined.

(** A blank before a key hides it from the scan; what is trimmed later shows it. *)
Example blank_hides_key :
  looksLikeCredential ascii_unicode " sk-ant-api03-0123456789" = false ∧
  looksLikeCredential ascii_unicode (TrimSpace " sk-ant-api03-0123456789") = true.
Proof. vm_compute. done. Qed.
