(* ===== verification/Config.v ===== *)
(** The daemon's configuration: [internal/config/config.go], [retention.go],
    [verifiedbots.go], [redact.go], with [collector/dockerhost.go] and
    [siem/transport.go]'s address reader.

    The YAML decoder and renderer, [url.Parse] and the rune tables are arguments;
    the decoded configuration is a record with a field for each of the source's
    (a secret field holds what [unmarshalSecretRef] let through).  Checks are made
    in the source's order and the first error is the answer. *)
From Stdlib Require Import Ascii.
From S2P Require Import Prelude GoStrings GoUtf8 Netip NetipParse GoTime GoNet NftNames Policy BotVerify Retention Secrets.
#[local] Open Scope Z_scope.

(** ** The sections *)
Record LogConfig := MkLog { Level : string }.
Record CollectorCfg := MkCollector { co_Kind : string; co_Path : string; co_Unit : string; co_Container : string; co_Parser : string }.
Record NFTablesCfg := MkNft { nf_Socket : string; nf_Table : string; nf_Set : string }.
Record CloudflareCfg := MkCloudflare {
  cf_Name : string; cf_APIToken : string; cf_Mode : string; cf_AccountID : string; cf_ListName : string; cf_Instance : string;
  cf_AdoptLegacyItems : bool; cf_ZoneIDs : list string; cf_Action : string; cf_Debounce : duration; cf_ExpireFlushInterval : duration
}.
Record BunnyCfg := MkBunny { bu_Name : string; bu_APIKey : string; bu_PullZones : list Z }.
Record AWSIPSetRefCfg := MkIPSet { is_Name : string; is_ID : string }.
Record AWSWAFCfg := MkAWSWAF { aw_Name : string; aw_Scope : string; aw_Region : string; aw_IPSetV4 : option AWSIPSetRefCfg; aw_IPSetV6 : option AWSIPSetRefCfg }.
Record EnforceCfg := MkEnforce { NFTables : option NFTablesCfg; Cloudflare : list CloudflareCfg; Bunny : option BunnyCfg; AWSWAF : option AWSWAFCfg }.
Record ProviderCfg := MkProviderCfg { pr_Name : string; pr_Priority : Z; pr_Model : string; pr_APIKey : string; pr_Endpoint : string; pr_TokenBudgetDaily : Z }.
Record AICfg := MkAI {
  ai_Provider : string; ai_Model : string; ai_APIKey : string; ai_Endpoint : string; AmbiguousBand : Z * Z; ai_TokenBudgetDaily : Z;
  CacheTTL : duration; Providers : list ProviderCfg; Async : bool; AsyncQueueSize : Z
}.
Record TelegramCfg := MkTelegram { BotToken : string; ChatIDs : list string; tg_Severity : list string }.
Record EmailCfg := MkEmail {
  From_ : string; To_ : list string; em_Host : string; em_Port : Z; Username : string; Password : string; TLS : string; em_Severity : list string
}.
Record SlackCfg := MkSlack { sl_WebhookURL : string; sl_Channel : string; sl_Severity : list string }.
Record DiscordCfg := MkDiscord { di_WebhookURL : string; di_Severity : list string }.
Record WebhookCfg := MkWebhook { wh_URL : string; Headers : gmap string string; wh_Severity : list string }.
Record NotifyCfg := MkNotify {
  RateLimitPerMinute : Z; DedupWindowSec : Z; NotifyOnlyWindowSec : Z; Telegram : option TelegramCfg; Email : option EmailCfg;
  Slack : option SlackCfg; Discord : option DiscordCfg; Webhook : option WebhookCfg
}.
Record EnrichCfg := MkEnrich { DBPath : string; ASNPath : string; AutoUpdate : bool; LicenseKey : string }.
Record DashboardUserCfg := MkDashUser { du_Name : string; du_Role : string; du_Token : string }.
Record DashboardCfg := MkDashboard { Addr : string; AuthDBPath : string; MetricsAuth : option bool; Users : list DashboardUserCfg }.
Record SIEMSinkCfg := MkSIEM {
  si_Name : string; si_Address : string; si_Format : string; si_Events : list string; CAFile : string; QueueSize : Z; AllowInsecureTransport : bool
}.
Record VerifiedBotsCfg := MkBots { vb_Enabled : bool; vb_Providers : list Provider }.
Record RetentionCfg := MkRetentionCfg {
  rt_Strikes : string; rt_Audit : string; rt_AIUsage : string; IUnderstandTheRisks : bool; AuditExportNotRequired : bool
}.
Record DockerCfg := MkDocker { dk_Host : string; AllowRemote : bool }.
Record DockerExecCfg := MkDockerExec { de_Enabled : bool; de_Ignore : list string }.
Record WebshellWatchCfg := MkWebshell { ww_Enabled : bool; Roots : list string; Extensions : list string; ww_Ignore : list string; IntervalSec : Z }.
Record FeedCfg := MkFeed {
  fd_Name : string; fd_URL : string; fd_Format : string; fd_RefreshInterval : duration; fd_MaxEntries : Z; fd_Timeout : duration;
  fd_Action : string; fd_TTL : duration
}.
Record PluginsCfg := MkPlugins { pl_Enabled : bool; pl_Dir : string; Allow : list string }.
Record SelfCheckCfg := MkSelfCheck { sc_Enabled : option bool; sc_Interval : duration }.

Record Config := MkConfig {
  DataDir : string; SocketPath : string; RulesPath : string; RulesDir : string; Log : LogConfig; Collectors : list CollectorCfg;
  Enforce : option EnforceCfg; AI : option AICfg; Notify : option NotifyCfg; Enrich : option EnrichCfg; Dashboard : option DashboardCfg;
  SIEM : list SIEMSinkCfg; VerifiedBots : option VerifiedBotsCfg; Retention : option RetentionCfg; Docker : option DockerCfg;
  DockerExec : option DockerExecCfg; WebshellWatch : option WebshellWatchCfg; Feeds : list FeedCfg; Plugins : option PluginsCfg;
  SelfCheck : option SelfCheckCfg
}.

Definition SelfCheckEnabled (c : Config) : bool :=
  match SelfCheck c with None => true | Some s => default true (sc_Enabled s) end.

(** ** Checks *)
Definition blank (s : string) : bool := bool_decide (s = EmptyString).
Definition eqs (s t : string) : bool := bool_decide (s = t).
Definition one_of (s : string) (l : list string) : bool := bool_decide (s ∈ l).
Definition num (n : Z) : earg := Computed (show_Z n).
Definition refuse (format : string) (args : list earg) : check := Some (Errorf format args).

(** A section that may be absent. *)
Definition section {A} (o : option A) (f : A → check) : check := match o with Some a => f a | None => None end.

(** The elements of a list in order. *)
Definition each {A} (f : Z → A → check) (l : list A) : check := checks (imap (λ i a, f (Z.of_nat i) a) l).

(** The elements of a list whose keys must differ: the checks before the key is
    looked up, and those after it is recorded. *)
Fixpoint each_named {A K} `{Countable K} (pre : Z → A → check) (key : A → option K) (dup : Z → A → Z → config_error)
    (post : Z → A → check) (i : Z) (seen : gmap K Z) (l : list A) : check :=
  match l with
  | [] => None
  | a :: l =>
      match pre i a with
      | Some e => Some e
      | None =>
          match key a with
          | Some k =>
              match seen !! k with
              | Some prev => Some (dup i a prev)
              | None => match post i a with Some e => Some e | None => each_named pre key dup post (i + 1) (<[k := i]> seen) l end
              end
          | None => match post i a with Some e => Some e | None => each_named pre key dup post (i + 1) seen l end
          end
      end
  end.

(** ** Names *)
Definition cfInstanceNameMaxLen : nat := 32.
Definition cfListNameMaxLen : nat := 50.
Definition alnum (a : ascii) : bool := in_range 97 122 a || in_range 65 90 a || in_range 48 57 a.

(** A rune that is not one of these bytes has a byte that is not. *)
Definition validate_name (max : nat) (extra : list ascii) (format : string) (args : list earg) (name : string) : check :=
  let n := str_len name in
  if (n =? 0)%nat || (max <? n)%nat then
    refuse "length must be 1..%d, got %d" [num (Z.of_nat max); num (Z.of_nat n)]
  else fail_if (negb (str_forall (λ a, alnum a || bool_decide (a ∈ extra)) name)) format args.

Definition validateCFInstanceName (name : string) : check :=
  validate_name cfInstanceNameMaxLen ["_"; "-"]%char "must match [A-Za-z0-9_-]+" [] name.
Definition validateCFInstance (instance : string) : check :=
  validate_name 32 ["."; "_"; "-"]%char "must match [A-Za-z0-9._-]+, got %q" [Shown instance] instance.
Definition validateCFListName (name : string) : check :=
  validate_name cfListNameMaxLen ["_"]%char "must match [A-Za-z0-9_]+" [] name.

(** The head every list of named things checks. *)
Definition name_check (i : Z) (name : string) : check :=
  if blank name then refuse "[%d]: 'name' is required" [num i]
  else wrap_check "'name'" (validateCFInstanceName name).

(** ** Collectors, log level *)
Definition validLogLevels : list string := ["debug"; "info"; "warn"; "error"].
Definition validParserNames : list string :=
  ["nginx"; "ssh"; "apache"; "apache-error"; "traefik"; "caddy"; "postfix"; "dovecot"; "vaultwarden"; "nextcloud"; "keycloak"].

Definition validateCollector (idx : Z) (col : CollectorCfg) : check := checks [
  if eqs (co_Kind col) "file" then fail_if (blank (co_Path col)) "collectors[%d]: kind 'file' requires 'path'" [num idx]
  else if eqs (co_Kind col) "journald" then fail_if (blank (co_Unit col)) "collectors[%d]: kind 'journald' requires 'unit'" [num idx]
  else if eqs (co_Kind col) "docker" then fail_if (blank (co_Container col)) "collectors[%d]: kind 'docker' requires 'container'" [num idx]
  else if blank (co_Kind col) then refuse "collectors[%d]: 'kind' is required" [num idx]
  else refuse "collectors[%d]: invalid kind %q (must be file|journald|docker)" [num idx; Shown (co_Kind col)];
  fail_if (negb (blank (co_Parser col)) && negb (one_of (co_Parser col) validParserNames)) "collectors[%d]: invalid parser %q" [num idx; Shown (co_Parser col)]].

(** ** Enforcers *)
Definition validateNFTables (n : NFTablesCfg) : check :=
  match NftNames.Resolve (nf_Table n) (nf_Set n) with
  | Ok _ => None
  | Err _ => refuse "nftables names: %q %q" [Shown (nf_Table n); Shown (nf_Set n)]
  end.

Definition validCFActions : list string := ["block"; "challenge"; "js_challenge"].
Definition validCFModes : list string := ["lists"; "rulesets"].

Definition zones_named (zs : list string) : check := each (λ i z, fail_if (blank z) "zone_ids[%d]: must not be empty" [num i]) zs.

Definition validateCloudflare (cf : CloudflareCfg) : check :=
  let mode := if blank (cf_Mode cf) then "lists" else cf_Mode cf in checks [
  fail_if (negb (secretIsSet (cf_APIToken cf))) "'api_token' is required" [];
  fail_if (cf_Debounce cf <? 0) "'debounce' must be positive, got %s" [Computed (dur_string (cf_Debounce cf))];
  fail_if (cf_ExpireFlushInterval cf <? 0) "'expire_flush_interval' must be positive, got %s" [Computed (dur_string (cf_ExpireFlushInterval cf))];
  fail_if (negb (one_of mode validCFModes)) "'mode' must be lists|rulesets, got %q" [Shown (cf_Mode cf)];
  if eqs mode "lists" then checks [
    fail_if (blank (cf_AccountID cf)) "'account_id' is required when mode is 'lists'" [];
    (if blank (cf_ListName cf) then None else wrap_check "'list_name'" (validateCFListName (cf_ListName cf)));
    (if blank (cf_Instance cf) then None else wrap_check "'instance'" (validateCFInstance (cf_Instance cf)));
    zones_named (cf_ZoneIDs cf)]
  else checks [
    fail_if (bool_decide (cf_ZoneIDs cf = [])) "at least one 'zone_ids' entry is required when mode is 'rulesets'" [];
    zones_named (cf_ZoneIDs cf)];
  fail_if (negb (blank (cf_Action cf)) && negb (one_of (cf_Action cf) validCFActions)) "'action' must be block|challenge|js_challenge, got %q" [Shown (cf_Action cf)]].

Definition validateCloudflareList (l : list CloudflareCfg) : check :=
  let requireNames := (1 <? length l)%nat in
  if bool_decide (l = []) then refuse "at least one entry is required when 'cloudflare' is set" []
  else each_named
    (λ i cf, checks [
       wrap_check "[%d]" (validateCloudflare cf);
       if blank (cf_Name cf) then fail_if requireNames "[%d]: 'name' is required when more than one cloudflare account is configured" [num i]
       else wrap_check "[%d]: 'name'" (validateCFInstanceName (cf_Name cf))])
    (λ cf, if blank (cf_Name cf) then None else Some (cf_Name cf))
    (λ i cf prev, Errorf "[%d]: duplicate 'name' %q (also used by [%d])" [num i; Shown (cf_Name cf); num prev])
    (λ _ _, None) 0 ∅ l.

Definition validateBunny (b : BunnyCfg) : check := checks [
  fail_if (negb (secretIsSet (bu_APIKey b))) "'api_key' is required" [];
  fail_if (bool_decide (bu_PullZones b = [])) "at least one 'pull_zones' entry is required" [];
  each_named (λ i z, fail_if (z <=? 0) "pull_zones[%d]: must be a positive pull zone ID, got %d" [num i; num z]) Some
    (λ i z prev, Errorf "pull_zones[%d]: duplicate zone %d (also at [%d])" [num i; num z; num prev]) (λ _ _, None) 0 ∅ (bu_PullZones b);
  if blank (bu_Name b) then None else wrap_check "'name'" (validateCFInstanceName (bu_Name b))].

(** [v6_first]: the order in which Go walks its two-entry map. *)
Definition validateAWSWAF (v6_first : bool) (a : AWSWAFCfg) : check :=
  let scope := ToLower (aw_Scope a) in
  let named label o := section o (λ r, fail_if (blank (is_Name r) || blank (is_ID r)) "%s: both 'name' and 'id' are required" [Computed label]) in
  let v4 := named "ipset_v4" (aw_IPSetV4 a) in
  let v6 := named "ipset_v6" (aw_IPSetV6 a) in checks [
  if eqs scope "regional" then fail_if (blank (aw_Region a)) "scope 'regional' requires 'region' (e.g. eu-west-1)" []
  else if eqs scope "cloudfront" then
    fail_if (negb (blank (aw_Region a)) && negb (eqs (aw_Region a) "us-east-1")) "scope 'cloudfront' pins region us-east-1; drop 'region' (got %q)" [Shown (aw_Region a)]
  else if blank scope then refuse "'scope' is required: regional or cloudfront" []
  else refuse "'scope' must be regional or cloudfront, got %q" [Shown (aw_Scope a)];
  match aw_IPSetV4 a, aw_IPSetV6 a with None, None => refuse "at least one of 'ipset_v4'/'ipset_v6' is required" [] | _, _ => None end;
  (if v6_first then v6 else v4);
  (if v6_first then v4 else v6);
  if blank (aw_Name a) then None else wrap_check "'name'" (validateCFInstanceName (aw_Name a))].

(** ** AI *)
Definition validProviderNames : list string := ["anthropic"; "openai"; "ollama"].

Definition ai_configured (ai : AICfg) : bool := negb (blank (ai_Provider ai)) || negb (bool_decide (Providers ai = [])).

Section validate.
Context (U : unicode) (url_parse : string → option url).

Definition validateAI (ai : AICfg) : check :=
  let '(lo, hi) := AmbiguousBand ai in checks [
  fail_if (negb (blank (ai_Provider ai)) && negb (one_of (ai_Provider ai) validProviderNames))
    "unknown provider %s (must be anthropic|openai|ollama)" [enumValueForError U (ai_Provider ai)];
  each (λ i p, checks [
    fail_if (blank (pr_Name p)) "ai.providers[%d]: 'name' is required" [num i];
    fail_if (negb (one_of (pr_Name p) validProviderNames)) "ai.providers[%d]: unknown provider %s (must be anthropic|openai|ollama)" [num i; enumValueForError U (pr_Name p)];
    fail_if (pr_Priority p <? 0) "ai.providers[%d]: priority must be >= 0" [num i]]) (Providers ai);
  fail_if (ai_configured ai && ((lo <? 0) || (100 <? hi) || (hi <=? lo))) "ambiguous_band: want [low, high] with 0 <= low < high <= 100, got [%d, %d]" [num lo; num hi];
  fail_if ((AsyncQueueSize ai <? 0) || (65536 <? AsyncQueueSize ai)) "async_queue_size: must be in [0, 65536] (0 = default 256), got %d" [num (AsyncQueueSize ai)];
  fail_if (Async ai && blank (ai_Provider ai) && bool_decide (Providers ai = [])) "async: true requires a configured provider" []].

(** ** Notifications *)
Definition validSeverities : list string := ["info"; "warn"; "critical"].
Definition validTLSModes : list string := ["starttls"; "tls"; "none"].

Definition severities (channel : string) (l : list string) : check :=
  each (λ i s, fail_if (negb (one_of s validSeverities)) (channel +:+ ".severity[%d]: %q is not one of info|warn|critical") [num i; Shown s]) l.

Definition validateNotify (n : NotifyCfg) : check := checks [
  fail_if (RateLimitPerMinute n <? 0) "rate_limit_per_minute must be ≥ 0" [];
  fail_if (DedupWindowSec n <? 0) "dedup_window_sec must be ≥ 0" [];
  section (Telegram n) (λ t, checks [
    fail_if (negb (secretIsSet (BotToken t))) "telegram: 'bot_token' is required" [];
    fail_if (bool_decide (ChatIDs t = [])) "telegram: at least one chat_id is required" [];
    severities "telegram" (tg_Severity t)]);
  section (Email n) (λ e, checks [
    fail_if (blank (From_ e)) "email: 'from' is required" [];
    fail_if (bool_decide (To_ e = [])) "email: at least one 'to' address is required" [];
    fail_if (blank (em_Host e)) "email: 'host' is required" [];
    fail_if ((em_Port e <=? 0) || (65535 <? em_Port e)) "email: 'port' must be in [1, 65535], got %d" [num (em_Port e)];
    fail_if (negb (blank (TLS e)) && negb (one_of (TLS e) validTLSModes)) "email: tls %q is not one of starttls|tls|none" [Shown (TLS e)];
    fail_if (negb (secretIsSet (Password e))) "email: 'password' is required" [];
    severities "email" (em_Severity e)]);
  section (Slack n) (λ s, checks [
    fail_if (negb (secretIsSet (sl_WebhookURL s))) "slack: 'webhook_url' is required" []; severities "slack" (sl_Severity s)]);
  section (Discord n) (λ d, checks [
    fail_if (negb (secretIsSet (di_WebhookURL d))) "discord: 'webhook_url' is required" []; severities "discord" (di_Severity d)]);
  section (Webhook n) (λ w, checks [
    fail_if (negb (secretIsSet (wh_URL w))) "webhook: 'url' is required" []; severities "webhook" (wh_Severity w)])].

(** ** Enrichment, dashboard, plugins *)
Definition validateEnrich (e : EnrichCfg) : check :=
  fail_if (AutoUpdate e && negb (secretIsSet (LicenseKey e))) "'license_key' is required when auto_update is true" [].

Definition validateLoopbackAddr (addr : string) : check :=
  match SplitHostPort addr with
  | None => refuse "addr %q: %w" [Shown addr]
  | Some (host, _) =>
      if eqs host "localhost" then None else
      match ParseAddr host with
      | None => refuse "addr %q: host must be a loopback IP or localhost" [Shown addr]
      | Some ip => fail_if (negb (IsLoopback ip)) "addr %q: refusing non-loopback bind; dashboard is localhost-only" [Shown addr]
      end
  end.

Definition validDashboardRoles : list string := ["viewer"; "operator"; "admin"].

Definition validateDashboardUsers (users : list DashboardUserCfg) : check :=
  each_named (λ i u, name_check i (du_Name u)) (λ u, Some (du_Name u))
    (λ i u prev, Errorf "[%d]: duplicate name %q (also at [%d])" [num i; Shown (du_Name u); num prev])
    (λ i u, checks [
       fail_if (negb (one_of (du_Role u) validDashboardRoles)) "[%d] (%s): 'role' must be viewer, operator, or admin, got %q" [num i; Shown (du_Name u); Shown (du_Role u)];
       fail_if (negb (secretIsSet (du_Token u))) "[%d] (%s): 'token' is required (env:VARNAME reference)" [num i; Shown (du_Name u)]]) 0 ∅ users.

(** [pluginAllowNameRE]. *)
Definition plugin_head (a : ascii) : bool := in_range 97 122 a || in_range 48 57 a.
Definition pluginAllowNameRE (s : string) : bool :=
  match s with
  | String a t => plugin_head a && (str_len t <=? 31)%nat && str_forall (λ c, plugin_head c || bool_decide (c ∈ ["_"; "-"]%char)) t
  | EmptyString => false
  end.

Definition validatePlugins (p : PluginsCfg) : check := checks [
  fail_if (pl_Enabled p && bool_decide (Allow p = [])) "'allow' must list at least one plugin name when enabled" [];
  each_named (λ i n, fail_if (negb (pluginAllowNameRE n)) "allow[%d]: %q is not a valid plugin name" [num i; Shown n]) Some
    (λ i n prev, Errorf "allow[%d]: duplicate name %q (also at [%d])" [num i; Shown n; num prev]) (λ _ _, None) 0 ∅ (Allow p)].

(** ** Log forwarding: [siem.ParseAddress] *)
Definition ParseAddress (addr : string) : result config_error (string * string) :=
  match url_parse addr with
  | None => Err (Errorf "siem: invalid address: %w" [Shown addr])
  | Some u =>
      if one_of (Scheme u) ["udp"; "tcp"; "tls"]%string then
        if blank (Host u) then Err (Errorf "siem: %s:// address needs host:port" [Shown (Scheme u)])
        else match SplitHostPort (Host u) with
             | None => Err (Errorf "siem: %s:// address needs host:port: %w" [Shown (Scheme u); Shown (Host u)])
             | Some _ => Ok (Scheme u, Host u)
             end
      else if one_of (Scheme u) ["uds"; "file"]%string then
        let path := if blank (u_Path u) then Host u +:+ u_Path u else u_Path u in
        if blank path || negb (has_prefix "/" path) then Err (Errorf "siem: %s:// address needs an absolute path" [Shown (Scheme u)])
        else Ok (Scheme u, path)
      else Err (Errorf "siem: unsupported scheme %q (want udp|tcp|tls|uds|file)" [Shown (Scheme u)])
  end.

Definition validSIEMFormats : list string := [EmptyString; "json"; "cef"; "rfc5424"]%string.

Definition sink_check (i : Z) (s : SIEMSinkCfg) : check :=
  match ParseAddress (si_Address s) with
  | Err e => Some (Wrap "[%d] %s: 'address'" e)
  | Ok (scheme, _) => checks [
      fail_if (one_of scheme ["tcp"; "udp"]%string && negb (AllowInsecureTransport s)) "[%d] %s: plaintext %s:// sends audit events unencrypted" [num i; Shown (si_Name s); Shown scheme];
      fail_if (negb (one_of (si_Format s) validSIEMFormats)) "[%d] %s: 'format' must be json|cef|rfc5424, got %q" [num i; Shown (si_Name s); Shown (si_Format s)];
      fail_if (negb (blank (CAFile s)) && negb (eqs scheme "tls")) "[%d] %s: 'ca_file' only applies to tls:// addresses" [num i; Shown (si_Name s)];
      fail_if ((QueueSize s <? 0) || (65536 <? QueueSize s)) "[%d] %s: 'queue_size' must be 0..65536, got %d" [num i; Shown (si_Name s); num (QueueSize s)];
      each (λ j ev, fail_if (blank (TrimSpace ev)) "[%d] %s: events[%d] must not be empty" [num i; Shown (si_Name s); num j]) (si_Events s)]
  end.

Definition validateSIEM (l : list SIEMSinkCfg) : check :=
  each_named (λ i s, name_check i (si_Name s)) (λ s, Some (si_Name s))
    (λ i s prev, Errorf "[%d]: duplicate 'name' %q (also used by [%d])" [num i; Shown (si_Name s); num prev]) sink_check 0 ∅ l.

(** ** Reputation feeds *)
Definition feedHardMaxEntries : Z := 500000.
Definition feedMinRefreshSeconds : Z := 3600.
Definition validFeedFormats : list string := ["plain"; "cidr"; "abuseipdb"].

Definition feed_check (i : Z) (f : FeedCfg) : check :=
  let bad format := refuse format [num i; Shown (fd_Name f)] in
  match url_parse (fd_URL f) with
  | None => bad "[%d] %s: 'url' is not a valid URL"
  | Some u => checks [
      (if blank (Host u) then bad "[%d] %s: 'url' is not a valid URL" else None);
      (if negb (eqs (Scheme u) "https") then bad "[%d] %s: 'url' must be https://" else None);
      fail_if (negb (one_of (fd_Format f) validFeedFormats)) "[%d] %s: 'format' must be plain|cidr|abuseipdb, got %q" [num i; Shown (fd_Name f); Shown (fd_Format f)];
      (if fd_RefreshInterval f <=? 0 then bad "[%d] %s: 'refresh_interval' is required (minimum 1h)" else None);
      fail_if (fd_RefreshInterval f <? feedMinRefreshSeconds * Second) "[%d] %s: 'refresh_interval' %s is below the 1h politeness floor" [num i; Shown (fd_Name f); Computed (dur_string (fd_RefreshInterval f))];
      (if fd_MaxEntries f <? 0 then bad "[%d] %s: 'max_entries' must not be negative" else None);
      fail_if (feedHardMaxEntries <? fd_MaxEntries f) "[%d] %s: 'max_entries' %d exceeds the %d hard cap" [num i; Shown (fd_Name f); num (fd_MaxEntries f); num feedHardMaxEntries];
      (if fd_Timeout f <? 0 then bad "[%d] %s: 'timeout' must not be negative" else None);
      fail_if (negb (one_of (fd_Action f) [EmptyString; "observe"; "block"]%string)) "[%d] %s: 'action' must be observe|block, got %q" [num i; Shown (fd_Name f); Shown (fd_Action f)];
      (if fd_TTL f <? 0 then bad "[%d] %s: 'ttl' must not be negative" else None)]
  end.

Definition validateFeeds (l : list FeedCfg) : check :=
  each_named (λ i f, name_check i (fd_Name f)) (λ f, Some (fd_Name f))
    (λ i f prev, Errorf "[%d]: duplicate 'name' %q (also used by [%d])" [num i; Shown (fd_Name f); num prev]) feed_check 0 ∅ l.

(** ** Verified bots *)
Definition domain_ok (d : string) : bool :=
  negb (blank d) && str_forall (λ a, negb (bool_decide (a ∈ [" "; "/"; "\"; ":"; "@"]%char))) d &&
  negb (no_char "." d) && negb (has_prefix "." d) && negb (has_suffix "." d).

Definition validateVerifiedBots (v : VerifiedBotsCfg) : check :=
  each (λ i p, checks [
    fail_if (blank (TrimSpace (p_Name p))) "providers[%d]: name is required" [num i];
    fail_if (bool_decide (UAContains p = [])) "provider %q: ua_contains must be non-empty" [Shown (p_Name p)];
    fail_if (bool_decide (Domains p = [])) "provider %q: domains must be non-empty" [Shown (p_Name p)];
    each (λ _ d, let d := TrimSpace d in fail_if (negb (domain_ok d)) "provider %q: %q is not a valid domain suffix" [Shown (p_Name p); Shown d]) (Domains p)])
  (vb_Providers v).

(** ** Retention *)
Definition Day : duration := 24 * Hour.
Definition DefaultRetentionStrikes : duration := 730 * Day.
Definition DefaultRetentionAudit : duration := 365 * Day.
Definition DefaultRetentionAIUsage : duration := 90 * Day.
Definition MinRetentionStrikes : duration := 180 * Day.
Definition MinRetentionAudit : duration := 90 * Day.
Definition MinRetentionAIUsage : duration := 7 * Day.
Definition AbsoluteMinRetention : duration := 24 * Hour.

Record RetentionWindows := MkWindows { w_Strikes : duration; w_Audit : duration; w_AIUsage : duration }.

Definition parseRetentionDuration (s : string) : result config_error duration :=
  let s := TrimSpace s in
  let bad := Err (Errorf "invalid duration %q" [Shown s]) in
  if one_of (ToLower s) ["never"; "0"]%string then Ok 0
  else if has_suffix "d" s then
    match Atoi (TrimSuffix "d" s) with
    | Some days => if days <? 0 then bad else Ok (wrap64 (days * Day))
    | None => bad
    end
  else match ParseDuration s with Some d => if d <? 0 then bad else Ok d | None => bad end.

Definition window (name s : string) (dflt : duration) : result config_error duration :=
  if blank s then Ok dflt
  else match parseRetentionDuration s with Ok d => Ok d | Err e => Err (Wrap name e) end.

Definition Windows (r : RetentionCfg) : result config_error RetentionWindows :=
  s ← window "strikes" (rt_Strikes r) DefaultRetentionStrikes;
  a ← window "audit" (rt_Audit r) DefaultRetentionAudit;
  u ← window "ai_usage" (rt_AIUsage r) DefaultRetentionAIUsage;
  mret (MkWindows s a u).

Definition floor_check (r : RetentionCfg) (field : string) (got floor : duration) : check :=
  if got =? 0 then None else checks [
  fail_if (negb (IUnderstandTheRisks r) && (got <? floor)) "%s: %s is below the %s safety floor" [Computed field; Computed (dur_string got); Computed (dur_string floor)];
  fail_if (got <? AbsoluteMinRetention) "%s: %s is below the absolute 24h minimum (not overridable)" [Computed field; Computed (dur_string got)]].

Definition validateRetention (r : RetentionCfg) : check :=
  match Windows r with
  | Err e => Some e
  | Ok w => checks [
      floor_check r "strikes" (w_Strikes w) MinRetentionStrikes;
      floor_check r "audit" (w_Audit w) MinRetentionAudit;
      floor_check r "ai_usage" (w_AIUsage w) MinRetentionAIUsage]
  end.

(** The pruning policy the daemon runs with ([daemon.New]). *)
Definition retention_policy (o : option RetentionCfg) : option RetentionPolicy :=
  r ← o;
  match Windows r with
  | Ok w => Some (MkRetention (w_Strikes w) (w_Audit w) (w_AIUsage w) (AuditExportNotRequired r))
  | Err _ => None
  end.

(** ** The Docker endpoint: [collector.ParseDockerHost] *)
Definition DefaultDockerHost : string := "unix:///var/run/docker.sock".

Record DockerEndpoint := MkEndpoint { ep_Scheme : string; ep_SocketPath : string; ep_Address : string }.

Definition ParseDockerHost (raw : string) : result config_error DockerEndpoint :=
  let raw := TrimSpace raw in
  let raw := if blank raw then DefaultDockerHost else raw in
  let bad why := Err (Errorf ("invalid docker host %q: " +:+ why) [Shown raw]) in
  match url_parse raw with
  | None => bad "%w"
  | Some u =>
      if eqs (Scheme u) "unix" then
        if negb (blank (Host u)) then bad "unix:// takes an absolute path and no host (unix:///var/run/docker.sock)"
        else if negb (has_prefix "/" (u_Path u)) then bad "unix:// socket path must be absolute"
        else if negb (blank (RawQuery u)) || negb (blank (Fragment u)) then bad "unix:// takes a plain socket path (no query or fragment)"
        else Ok (MkEndpoint "unix" (Clean (u_Path u)) EmptyString)
      else if eqs (Scheme u) "tcp" then
        if has_User u then Err (Errorf "invalid docker host: credentials in a tcp:// endpoint are not supported (the Engine API takes none)" [])
        else if negb (one_of (u_Path u) [EmptyString; "/"]%string) then bad "tcp:// takes host:port with no path (tcp://127.0.0.1:2375)"
        else if negb (blank (RawQuery u)) || negb (blank (Fragment u)) then bad "tcp:// takes host:port only (no query or fragment)"
        else match SplitHostPort (Host u) with
             | None => bad "tcp:// requires host:port (tcp://127.0.0.1:2375)"
             | Some (host, port) =>
                 if blank host then bad "tcp:// requires a host (tcp://127.0.0.1:2375)"
                 else match Atoi port with
                      | Some n => if (n <? 1) || (65535 <? n) then bad "port must be a number in 1..65535"
                                  else Ok (MkEndpoint "tcp" EmptyString (JoinHostPort host port))
                      | None => bad "port must be a number in 1..65535"
                      end
             end
      else if blank (Scheme u) then bad "missing scheme (use unix:///var/run/docker.sock or tcp://127.0.0.1:2375)"
      else Err (Errorf "invalid docker host %q: scheme %q is not supported (use unix:// or tcp://)" [Shown raw; Shown (Scheme u)])
  end.

Definition IsUnix (e : DockerEndpoint) : bool := eqs (ep_Scheme e) "unix".
Definition IsTCP (e : DockerEndpoint) : bool := eqs (ep_Scheme e) "tcp".
Definition endpoint_string (e : DockerEndpoint) : string :=
  if IsUnix e then "unix://" +:+ ep_SocketPath e else if IsTCP e then "tcp://" +:+ ep_Address e else EmptyString.

Definition endpoint_loopback (e : DockerEndpoint) : bool :=
  if negb (IsTCP e) then true else
  match SplitHostPort (ep_Address e) with
  | None => false
  | Some (host, _) => match ParseAddr host with Some a => IsLoopback a | None => false end
  end.

Definition validateDocker (d : DockerCfg) : check :=
  if blank (dk_Host d) then fail_if (AllowRemote d) "'allow_remote' is set but no 'host' is configured; it only applies to a tcp:// endpoint" []
  else match ParseDockerHost (dk_Host d) with
       | Err e => Some (Wrap "'host'" e)
       | Ok ep => checks [
           fail_if (IsUnix ep && AllowRemote d) "'allow_remote' is set but 'host' is a unix socket; it only applies to a tcp:// endpoint" [];
           fail_if (IsTCP ep && negb (endpoint_loopback ep) && negb (AllowRemote d)) "'host': %s is not a loopback address" [Shown (endpoint_string ep)]]
       end.

Definition DockerHost (c : Config) : string :=
  match Docker c with
  | Some d => if blank (dk_Host d) then DefaultDockerHost else dk_Host d
  | None => DefaultDockerHost
  end.

(** ** Watchers *)
Definition patterns (section : string) (l : list string) : check :=
  each (λ i p, fail_if (negb (pattern_ok p)) (section +:+ "ignore[%d]: invalid pattern %q") [num i; Shown p]) l.

Definition validateWebshellWatch (w : WebshellWatchCfg) : check := checks [
  fail_if (ww_Enabled w && bool_decide (Roots w = [])) "'roots' is required when enabled (the web directories to sweep)" [];
  each (λ i r, fail_if (negb (has_prefix "/" r)) "roots[%d]: %q must be an absolute path" [num i; Shown r]) (Roots w);
  each (λ i e, fail_if (negb (has_prefix "." e) || (str_len e <? 2)%nat) "extensions[%d]: %q must start with a dot" [num i; Shown e]) (Extensions w);
  patterns EmptyString (ww_Ignore w);
  fail_if (negb (IntervalSec w =? 0) && (IntervalSec w <? 5)) "interval_sec: %d is below the 5s floor (a hot sweep loop over web roots)" [num (IntervalSec w)]].

(** ** The whole configuration *)
Definition list_section {A} (l : list A) (f : list A → check) : check := match l with [] => None | _ => f l end.

Definition Validate (render : Config → option ynode) (v6_first : bool) (c : Config) : check := checks [
  scanForMisplacedSecrets U (render c);
  fail_if (negb (blank (Level (Log c))) && negb (one_of (Level (Log c)) validLogLevels)) "log.level: %q is not one of debug|info|warn|error" [Shown (Level (Log c))];
  each validateCollector (Collectors c);
  section (Enforce c) (λ e, section (NFTables e) (λ n, wrap_check "enforce.nftables" (validateNFTables n)));
  section (Enforce c) (λ e, list_section (Cloudflare e) (λ l, wrap_check "enforce.cloudflare" (validateCloudflareList l)));
  section (Enforce c) (λ e, section (Bunny e) (λ b, wrap_check "enforce.bunny" (validateBunny b)));
  section (Enforce c) (λ e, section (AWSWAF e) (λ a, wrap_check "enforce.aws_waf" (validateAWSWAF v6_first a)));
  section (Notify c) (λ n, wrap_check "notify" (validateNotify n));
  section (AI c) (λ a, wrap_check "ai" (validateAI a));
  section (Enrich c) (λ e, wrap_check "enrich" (validateEnrich e));
  section (Dashboard c) (λ d, if blank (Addr d) then None else wrap_check "dashboard" (validateLoopbackAddr (Addr d)));
  section (Dashboard c) (λ d, list_section (Users d) (λ l, wrap_check "dashboard.users" (validateDashboardUsers l)));
  section (Plugins c) (λ p, wrap_check "plugins" (validatePlugins p));
  section (SelfCheck c) (λ s, fail_if (negb (sc_Interval s =? 0) && (sc_Interval s <? 10 * Minute)) "self_check: interval %s is below the 10m floor (0/omitted = default 6h)" [Computed (dur_string (sc_Interval s))]);
  list_section (SIEM c) (λ l, wrap_check "siem" (validateSIEM l));
  section (VerifiedBots c) (λ v, wrap_check "verified_bots" (validateVerifiedBots v));
  section (Retention c) (λ r, wrap_check "retention" (validateRetention r));
  section (Docker c) (λ d, wrap_check "docker" (validateDocker d));
  section (DockerExec c) (λ d, patterns "docker_exec." (de_Ignore d));
  section (WebshellWatch c) (λ w, wrap_check "webshell_watch" (validateWebshellWatch w));
  list_section (Feeds c) (λ l, wrap_check "feeds" (validateFeeds l))].
End validate.

(** ** Loading *)
Definition DefaultRulesDir : string := "/etc/ezyshield/rules.d".
Definition DefaultAmbiguousBand : Z * Z := (30, DefaultBanThreshold - 1).
Definition DefaultCFDebounce : duration := 15 * Second.
Definition DefaultCFExpireFlushInterval : duration := 3 * Minute.

Definition default_band (ai : AICfg) : AICfg :=
  if bool_decide (AmbiguousBand ai = (0, 0)) then
    MkAI (ai_Provider ai) (ai_Model ai) (ai_APIKey ai) (ai_Endpoint ai) DefaultAmbiguousBand (ai_TokenBudgetDaily ai)
      (CacheTTL ai) (Providers ai) (Async ai) (AsyncQueueSize ai)
  else ai.

Definition default_cadence (cf : CloudflareCfg) : CloudflareCfg :=
  MkCloudflare (cf_Name cf) (cf_APIToken cf) (cf_Mode cf) (cf_AccountID cf) (cf_ListName cf) (cf_Instance cf) (cf_AdoptLegacyItems cf)
    (cf_ZoneIDs cf) (cf_Action cf) (if cf_Debounce cf =? 0 then DefaultCFDebounce else cf_Debounce cf)
    (if cf_ExpireFlushInterval cf =? 0 then DefaultCFExpireFlushInterval else cf_ExpireFlushInterval cf).

Definition default_enforce (e : EnforceCfg) : EnforceCfg :=
  MkEnforce (NFTables e) (default_cadence <$> Cloudflare e) (Bunny e) (AWSWAF e).

(** The defaults made before validation. *)
Definition with_defaults (c : Config) : Config :=
  MkConfig (DataDir c) (SocketPath c) (RulesPath c) (RulesDir c) (Log c) (Collectors c) (default_enforce <$> Enforce c)
    (default_band <$> AI c) (Notify c) (Enrich c) (Dashboard c) (SIEM c) (VerifiedBots c) (Retention c) (Docker c) (DockerExec c)
    (WebshellWatch c) (Feeds c) (Plugins c) (SelfCheck c).

Definition with_rules_dir (c : Config) : Config :=
  MkConfig (DataDir c) (SocketPath c) (RulesPath c) (if blank (RulesDir c) then DefaultRulesDir else RulesDir c) (Log c) (Collectors c)
    (Enforce c) (AI c) (Notify c) (Enrich c) (Dashboard c) (SIEM c) (VerifiedBots c) (Retention c) (Docker c) (DockerExec c)
    (WebshellWatch c) (Feeds c) (Plugins c) (SelfCheck c).

(** [decoded]: what the strict YAML decoder returns. *)
Definition LoadConfigReader (U : unicode) (url_parse : string → option url) (render : Config → option ynode) (v6_first : bool)
    (decoded : result config_error Config) : result config_error Config :=
  c ← decoded;
  let c := with_defaults c in
  match Validate U url_parse render v6_first c with
  | Some e => Err (Wrap "validating" e)
  | None => Ok (with_rules_dir c)
  end.

(** The advisory of [AIBandOverlapWarning]: the band and the threshold it names. *)
Definition AIBandOverlapWarning (cfg : option Config) (pol : option Policy) : option (Z * Z * Z) :=
  c ← cfg; p ← pol; ai ← AI c;
  if blank (ai_Provider ai) && bool_decide (Providers ai = []) then None
  else let '(lo, hi) := AmbiguousBand ai in
       if hi <? BanThreshold p then None else Some (lo, hi, BanThreshold p).

(** ** The view for display *)
Definition RedactedMarker : string := "<redacted>".

Definition redact_webhook (w : WebhookCfg) : WebhookCfg := MkWebhook (wh_URL w) ((λ _, RedactedMarker) <$> Headers w) (wh_Severity w).

Definition redact_notify (n : NotifyCfg) : NotifyCfg :=
  MkNotify (RateLimitPerMinute n) (DedupWindowSec n) (NotifyOnlyWindowSec n) (Telegram n) (Email n) (Slack n) (Discord n)
    (redact_webhook <$> Webhook n).

Definition Redacted (c : Config) : Config :=
  MkConfig (DataDir c) (SocketPath c) (RulesPath c) (RulesDir c) (Log c) (Collectors c) (Enforce c) (AI c) (redact_notify <$> Notify c)
    (Enrich c) (Dashboard c) (SIEM c) (VerifiedBots c) (Retention c) (Docker c) (DockerExec c) (WebshellWatch c) (Feeds c) (Plugins c)
    (SelfCheck c).
