(* ===== verification/ConfigSafety.v ===== *)
(** What a loaded configuration guarantees to the components it configures. *)
From Stdlib Require Import Ascii.
From S2P Require Import Prelude GoStrings GoUtf8 Netip NetipParse GoTime GoNet NftNames Policy BotVerify Retention Feeds FeedParse Secrets Config.
#[local] Open Scope Z_scope.

(** ** Checks over lists *)
Lemma each_None {A} (f : Z → A → check) l : each f l = None ↔ ∀ i a, l !! i = Some a → f (Z.of_nat i) a = None.
Proof.
  unfold each. rewrite checks_None, Forall_lookup. split.
  - intros H i a Hi. apply (H i). by rewrite list_lookup_imap, Hi.
  - intros H i c Hc. rewrite list_lookup_imap in Hc. apply fmap_Some in Hc as (a & Ha & ->). by apply H.
Qed.

Lemma each_elem {A} (f : Z → A → check) l a : each f l = None → a ∈ l → ∃ i, f i a = None.
Proof. rewrite each_None. intros H [i Hi]%list_elem_of_lookup_1. eauto. Qed.

Lemma each_named_None {A K} `{Countable K} pre (key : A → option K) dup post : ∀ l i seen,
  each_named pre key dup post i seen l = None →
  NoDup (omap key l) ∧ (∀ k, k ∈ omap key l → seen !! k = None) ∧ ∀ a, a ∈ l → ∃ j, pre j a = None ∧ post j a = None.
Proof.
  induction l as [|a l IH]; intros i seen; simpl; [intros _; split; [constructor|split; [by intros k ?%not_elem_of_nil|by intros a ?%not_elem_of_nil]]|].
  destruct (pre i a) eqn:E1; [done|]. destruct (key a) as [k|] eqn:E2.
  - destruct (seen !! k) eqn:E3; [done|]. destruct (post i a) eqn:E4; [done|]. intros (H1 & H2 & H3)%IH. split; [|split].
    + constructor; [|done]. intros Hk. specialize (H2 k Hk). by rewrite lookup_insert_eq in H2.
    + intros k' [->|Hk]%elem_of_cons; [done|]. specialize (H2 k' Hk). by apply lookup_insert_None in H2 as [? _].
    + intros b [->|Hb]%elem_of_cons; eauto.
  - destruct (post i a) eqn:E4; [done|]. intros (H1 & H2 & H3)%IH. split; [done|]. split; [done|].
    intros b [->|Hb]%elem_of_cons; eauto.
Qed.

Lemma omap_Some {A B} (f : A → B) (l : list A) : omap (λ a, Some (f a)) l = f <$> l.
Proof. induction l as [|a l IH]; csimpl; [done|]. by rewrite IH. Qed.

Lemma unique_keys {A} (key : A → string) pre dup post l :
  each_named pre (λ a, Some (key a)) dup post 0 ∅ l = None → NoDup (key <$> l) ∧ ∀ a, a ∈ l → ∃ j, pre j a = None ∧ post j a = None.
Proof. intros (H1 & _ & H2)%each_named_None. by rewrite omap_Some in H1. Qed.

(** The checks of a list that passed, one by one. *)
Ltac passed H := repeat (rewrite ?checks_cons, ?fail_if_None, ?wrap_None in H); destruct_and? H.

Lemma section_None {A} (o : option A) f a : section o f = None → o = Some a → f a = None.
Proof. by intros H ->. Qed.

Lemma list_section_None {A} (l : list A) f : list_section l f = None → l = [] ∨ f l = None.
Proof. destruct l; auto. Qed.

Lemma blank_false s : blank s = false ↔ s ≠ EmptyString.
Proof. unfold blank. apply bool_decide_eq_false. Qed.

Lemma refuse_if_None (b : bool) f args : (if b then refuse f args else None) = None ↔ b = false.
Proof. destruct b; by split. Qed.

(** ** The configured feeds *)
Section loaded.
Context (U : unicode) (url_parse : string → option url).

(** The runtime's feed for a section of the file. *)
Definition to_feed (f : FeedCfg) : FeedParse.FeedCfg :=
  FeedParse.MkFeedCfg (MkFeedConfig (fd_Name f) ((λ u, (Scheme u, Host u)) <$> url_parse (fd_URL f)) (fd_Format f) (fd_RefreshInterval f) (fd_MaxEntries f))
    (fd_Action f) (fd_TTL f).

(** A section the fetcher takes: only a server can make it fail. *)
Record feed_wf (f : FeedCfg) : Prop := {
  fw_fetch : ∀ get s, match (Fetch get (feed (to_feed f)) s).1 with Err EURL | Err (EFormat _) => False | _ => True end;
  fw_interval : MinRefreshInterval <= fd_RefreshInterval f;
  fw_entries : 0 <= fd_MaxEntries f <= HardMaxEntries;
  fw_action : fd_Action f ∈ [EmptyString; "observe"; "block"]%string;
  fw_ttl : 0 <= fd_TTL f
}.

Lemma feed_check_wf i f : feed_check url_parse i f = None → feed_wf f.
Proof.
  unfold feed_check. destruct (url_parse (fd_URL f)) as [u|] eqn:Eu; [|done].
  intros H. rewrite !checks_cons, !refuse_if_None, !fail_if_None, !negb_false_iff in H.
  destruct H as (H1 & H2 & H3 & H4 & H5 & H6 & H7 & H8 & H9 & H10 & _).
  unfold blank, eqs, one_of in *. apply bool_decide_eq_false in H1. apply bool_decide_eq_true in H2, H3, H9.
  split; [|unfold MinRefreshInterval, feedMinRefreshSeconds, Hour, Minute, Second in *; lia|unfold feedHardMaxEntries, HardMaxEntries in *; lia|done|lia].
  intros get s. unfold Fetch, to_feed. simpl. rewrite Eu. simpl.
  rewrite (bool_decide_true (Scheme u = "https"%string)) by done. rewrite (bool_decide_false (Host u = EmptyString)) by done. simpl.
  rewrite bool_decide_true by done. simpl. repeat case_match; done.
Qed.

Lemma meta_of_other fs n : ∀ m, n ∉ (λ f, fc_Name (feed f)) <$> fs →
  foldl (λ m f, <[fc_Name (feed f) := f]> m) m fs !! n = (m : gmap string FeedParse.FeedCfg) !! n.
Proof.
  induction fs as [|f fs IH]; intros m Hn; simpl; [done|]. rewrite IH by set_solver. rewrite lookup_insert_ne; [done|].
  intros <-. apply Hn. left.
Qed.

Lemma meta_of_own fs f : NoDup ((λ f, fc_Name (feed f)) <$> fs) → f ∈ fs → meta_of fs !! fc_Name (feed f) = Some f.
Proof.
  unfold meta_of. generalize (∅ : gmap string FeedParse.FeedCfg). induction fs as [|g fs IH]; intros m Hd Hin; [by apply elem_of_nil in Hin|].
  simpl in *. apply NoDup_cons in Hd as [Hn Hd]. apply elem_of_cons in Hin as [->|Hin]; [|auto].
  rewrite meta_of_other by done. by rewrite lookup_insert_eq.
Qed.

(** An update of a configured feed has a positive element timeout. *)
Lemma update_ttl fs f res : NoDup (fd_Name <$> fs) → f ∈ fs → feed_wf f → r_Name res = fd_Name f →
  0 < fu_TTL (toUpdate (meta_of (to_feed <$> fs)) res).
Proof.
  intros Hd Hin [_ H1 _ _ _] Hr. unfold toUpdate. rewrite Hr. change (fd_Name f) with (fc_Name (feed (to_feed f))).
  rewrite meta_of_own; [|by rewrite <- list_fmap_compose|by apply list_elem_of_fmap_2]. simpl.
  unfold MinRefreshInterval, Hour, Minute, Second in *. case_match; lia.
Qed.

(** ** Section by section *)
Lemma named_wf {A} (key : A → string) dup post l :
  each_named (λ i a, name_check i (key a)) (λ a, Some (key a)) dup post 0 ∅ l = None →
  NoDup (key <$> l) ∧ ∀ a, a ∈ l → validateCFInstanceName (key a) = None ∧ ∃ j, post j a = None.
Proof.
  intros (H1 & H2)%unique_keys. split; [done|]. intros a Ha. destruct (H2 a Ha) as (j & Hp & Hq). unfold name_check in Hp.
  destruct (blank (key a)); [done|]. apply wrap_None in Hp. eauto.
Qed.

(** A dashboard bound to this host only. *)
Definition loopback_bind (addr : string) : Prop :=
  ∃ host port, SplitHostPort addr = Some (host, port) ∧
    (host = "localhost"%string ∨ ∃ a, ParseAddr host = Some a ∧ IsLoopback a = true).

Lemma loopback_bind_ok addr : validateLoopbackAddr addr = None ↔ loopback_bind addr.
Proof.
  unfold validateLoopbackAddr, loopback_bind, eqs. destruct (SplitHostPort addr) as [[h p]|]; [|split; [done|naive_solver]].
  case_bool_decide as Hl; [split; [eauto 10|done]|]. destruct (ParseAddr h) as [a|] eqn:Ea.
  - rewrite fail_if_None, negb_false_iff. split; [intros; eauto 10|]. intros (h' & p' & [= <- <-] & [?|(b & Hb & Hbl)]); [done|].
    rewrite Ea in Hb. by simplify_eq.
  - split; [done|]. intros (h' & p' & [= <- <-] & [?|(b & Hb & _)]); [done|]. congruence.
Qed.

Definition siem_wf (s : SIEMSinkCfg) : Prop :=
  ∃ scheme target, ParseAddress url_parse (si_Address s) = Ok (scheme, target) ∧
    (scheme ∈ ["tcp"; "udp"]%string → AllowInsecureTransport s = true) ∧ 0 <= QueueSize s <= 65536.

Lemma sink_check_wf i s : sink_check url_parse i s = None → siem_wf s.
Proof.
  unfold sink_check, siem_wf. destruct (ParseAddress _ _) as [[scheme target]|]; [|done]. intros H.
  rewrite !checks_cons, !fail_if_None in H. destruct H as (H1 & _ & _ & H4 & _).
  exists scheme, target. split; [done|]. apply orb_false_iff in H4 as [H4 H4']. split; [|lia].
  intros Hs. unfold one_of in H1. rewrite bool_decide_true in H1 by done. by destruct (AllowInsecureTransport s).
Qed.

Definition docker_wf (d : DockerCfg) : Prop :=
  dk_Host d ≠ EmptyString →
  ∃ ep, ParseDockerHost url_parse (dk_Host d) = Ok ep ∧ (endpoint_loopback ep = true ∨ IsTCP ep = true ∧ AllowRemote d = true).

Lemma validateDocker_wf d : validateDocker url_parse d = None → docker_wf d.
Proof.
  unfold validateDocker, docker_wf. intros H Hh. apply blank_false in Hh. rewrite Hh in H.
  destruct (ParseDockerHost _ _) as [ep|]; [|done]. exists ep. split; [done|].
  rewrite !checks_cons, !fail_if_None in H. destruct H as (_ & H & _).
  destruct (endpoint_loopback ep) eqn:E; [auto|]. right.
  assert (IsTCP ep = true) as Ht by (unfold endpoint_loopback in E; by destruct (IsTCP ep)).
  split; [done|]. rewrite Ht in H. by destruct (AllowRemote d).
Qed.

(** A window the daemon may prune by. *)
Definition window_ok (r : RetentionCfg) (floor got : duration) : Prop :=
  got = 0 ∨ AbsoluteMinRetention <= got ∧ (IUnderstandTheRisks r = false → floor <= got).

Lemma floor_check_ok r field got floor : floor_check r field got floor = None ↔ window_ok r floor got.
Proof.
  unfold floor_check, window_ok. destruct (Z.eqb_spec got 0) as [->|Hn]; [by split; [left|]|].
  rewrite !checks_cons, !fail_if_None. destruct (IUnderstandTheRisks r); simpl; split.
  - intros (_ & H & _). right. split; [lia|done].
  - intros [?|[? _]]; [done|]. split; [done|]. split; [lia|done].
  - intros (H1 & H2 & _). right. split; [lia|]. intros _. lia.
  - intros [?|[? Hf]]; [done|]. specialize (Hf eq_refl). split; [lia|]. split; [lia|done].
Qed.

Definition retention_wf (r : RetentionCfg) : Prop :=
  ∃ pol, retention_policy (Some r) = Some pol ∧ window_ok r MinRetentionStrikes (rp_Strikes pol) ∧
    window_ok r MinRetentionAudit (rp_Audit pol) ∧ window_ok r MinRetentionAIUsage (rp_AIUsage pol) ∧
    AuditPruneAcknowledged pol = AuditExportNotRequired r.

Lemma validateRetention_wf r : validateRetention r = None → retention_wf r.
Proof.
  unfold validateRetention, retention_wf, retention_policy. cbn [mbind option_bind]. destruct (Windows r) as [w|]; [|done]. intros H.
  rewrite !checks_cons, !floor_check_ok in H. destruct H as (H1 & H2 & H3 & _). by eexists.
Qed.

Definition ai_wf (ai : AICfg) : Prop :=
  (ai_configured ai = true → 0 <= (AmbiguousBand ai).1 < (AmbiguousBand ai).2 ∧ (AmbiguousBand ai).2 <= 100) ∧
  Forall (λ p, pr_Name p ∈ validProviderNames) (Providers ai) ∧ (Async ai = true → ai_configured ai = true) ∧
  (ai_Provider ai ≠ EmptyString → ai_Provider ai ∈ validProviderNames).

Lemma validateAI_wf ai : validateAI U ai = None → ai_wf ai.
Proof.
  unfold validateAI, ai_wf, ai_configured. destruct (AmbiguousBand ai) as [lo hi]. intros H.
  rewrite !checks_cons, !fail_if_None in H. destruct H as (H1 & H2 & H3 & _ & H5 & _). cbn [fst snd]. split; [|split; [|split]].
  - intros Hc. rewrite Hc in H3. cbn [andb] in H3. rewrite !orb_false_iff in H3. lia.
  - apply Forall_forall. intros p Hp. destruct (each_elem _ _ _ H2 Hp) as (i & Hi). rewrite !checks_cons, !fail_if_None in Hi.
    destruct Hi as (_ & Hi & _). unfold one_of in Hi. by apply negb_false_iff, bool_decide_eq_true in Hi.
  - intros Ha. rewrite Ha in H5. destruct (blank (ai_Provider ai)); simpl in *; [|done]. by rewrite H5.
  - intros Hp. apply blank_false in Hp. rewrite Hp in H1. simpl in H1. by apply negb_false_iff, bool_decide_eq_true in H1.
Qed.

Definition plugins_wf (p : PluginsCfg) : Prop :=
  (pl_Enabled p = true → Allow p ≠ []) ∧ NoDup (Allow p) ∧ Forall (λ n, pluginAllowNameRE n = true) (Allow p).

Lemma validatePlugins_wf p : validatePlugins p = None → plugins_wf p.
Proof.
  unfold validatePlugins, plugins_wf. intros H. rewrite !checks_cons, fail_if_None in H. destruct H as (H1 & H2 & _).
  apply (unique_keys id) in H2 as [H2 H3]. rewrite list_fmap_id in H2. split; [|split; [done|]].
  - intros He Hn. rewrite He, Hn in H1. done.
  - apply Forall_forall. intros n Hn. destruct (H3 n Hn) as (j & Hj & _). rewrite fail_if_None in Hj. by apply negb_false_iff in Hj.
Qed.

Definition bots_wf (v : VerifiedBotsCfg) : Prop :=
  Forall (λ p, UAContains p ≠ [] ∧ Domains p ≠ [] ∧ Forall (λ d, domain_ok (TrimSpace d) = true) (Domains p)) (vb_Providers v).

Lemma validateVerifiedBots_wf v : validateVerifiedBots v = None → bots_wf v.
Proof.
  unfold validateVerifiedBots, bots_wf. intros H. apply Forall_forall. intros p Hp. destruct (each_elem _ _ _ H Hp) as (i & Hi).
  rewrite !checks_cons, !fail_if_None in Hi. destruct Hi as (_ & H2 & H3 & H4 & _).
  split; [by apply bool_decide_eq_false in H2|]. split; [by apply bool_decide_eq_false in H3|].
  apply Forall_forall. intros d Hd. destruct (each_elem _ _ _ H4 Hd) as (j & Hj). rewrite fail_if_None in Hj. by apply negb_false_iff in Hj.
Qed.

Definition enforce_wf (e : EnforceCfg) : Prop :=
  (∀ n, NFTables e = Some n → ∃ names, NftNames.Resolve (nf_Table n) (nf_Set n) = Ok names) ∧
  NoDup (omap (λ cf, if blank (cf_Name cf) then None else Some (cf_Name cf)) (Cloudflare e)) ∧
  Forall (λ cf, secretIsSet (cf_APIToken cf) = true ∧ 0 <= cf_Debounce cf ∧ 0 <= cf_ExpireFlushInterval cf ∧
                ((1 < length (Cloudflare e))%nat → cf_Name cf ≠ EmptyString)) (Cloudflare e).

Lemma cloudflare_wf l : list_section l (λ l, wrap_check "enforce.cloudflare" (validateCloudflareList l)) = None →
  NoDup (omap (λ cf, if blank (cf_Name cf) then None else Some (cf_Name cf)) l) ∧
  Forall (λ cf, secretIsSet (cf_APIToken cf) = true ∧ 0 <= cf_Debounce cf ∧ 0 <= cf_ExpireFlushInterval cf ∧
                ((1 < length l)%nat → cf_Name cf ≠ EmptyString)) l.
Proof.
  intros [->|H]%list_section_None; [split; [constructor|constructor]|]. apply wrap_None in H. unfold validateCloudflareList in H.
  case_bool_decide as Hl; [done|]. apply each_named_None in H as (H1 & _ & H2). split; [done|]. apply Forall_forall. intros cf Hc.
  destruct (H2 cf Hc) as (j & Hj & _). rewrite !checks_cons, wrap_None in Hj. destruct Hj as (Hv & Hn & _).
  unfold validateCloudflare in Hv. rewrite !checks_cons, !fail_if_None in Hv. destruct Hv as (Hs & Hd & He & _).
  split; [by apply negb_false_iff in Hs|]. split; [lia|]. split; [lia|]. intros Hlen. apply blank_false.
  destruct (blank (cf_Name cf)); [|done]. rewrite fail_if_None in Hn. apply Nat.ltb_lt in Hlen. congruence.
Qed.

(** ** The whole *)
Record config_wf (c : Config) : Prop := {
  cw_enforce : ∀ e, Enforce c = Some e → enforce_wf e;
  cw_ai : ∀ a, AI c = Some a → ai_wf a;
  cw_dashboard : ∀ d, Dashboard c = Some d → (Addr d ≠ EmptyString → loopback_bind (Addr d)) ∧
                   NoDup (du_Name <$> Users d) ∧ Forall (λ u, du_Role u ∈ validDashboardRoles ∧ secretIsSet (du_Token u) = true) (Users d);
  cw_plugins : ∀ p, Plugins c = Some p → plugins_wf p;
  cw_siem : NoDup (si_Name <$> SIEM c) ∧ Forall siem_wf (SIEM c);
  cw_bots : ∀ v, VerifiedBots c = Some v → bots_wf v;
  cw_retention : ∀ r, Retention c = Some r → retention_wf r;
  cw_docker : ∀ d, Docker c = Some d → docker_wf d;
  cw_feeds : NoDup (fd_Name <$> Feeds c) ∧ Forall feed_wf (Feeds c)
}.

Lemma dashboard_users_wf l : list_section l (λ l, wrap_check "dashboard.users" (validateDashboardUsers l)) = None →
  NoDup (du_Name <$> l) ∧ Forall (λ u, du_Role u ∈ validDashboardRoles ∧ secretIsSet (du_Token u) = true) l.
Proof.
  intros [->|H]%list_section_None; [split; constructor|]. apply wrap_None, named_wf in H as [H1 H2]. split; [done|].
  apply Forall_forall. intros u Hu. destruct (H2 u Hu) as (_ & j & Hj). rewrite !checks_cons, !fail_if_None in Hj.
  destruct Hj as (Hr & Ht & _). unfold one_of in Hr. by apply negb_false_iff, bool_decide_eq_true in Hr; apply negb_false_iff in Ht.
Qed.

Lemma named_list_wf {A} (key : A → string) (P : A → Prop) dup post at_ l :
  (∀ j a, post j a = None → P a) →
  list_section l (λ l, wrap_check at_ (each_named (λ i a, name_check i (key a)) (λ a, Some (key a)) dup post 0 ∅ l)) = None →
  NoDup (key <$> l) ∧ Forall P l.
Proof.
  intros HP [->|H]%list_section_None; [split; constructor|]. apply wrap_None, named_wf in H as [H1 H2]. split; [done|].
  apply Forall_forall. intros a Ha. destruct (H2 a Ha) as (_ & j & Hj). eauto.
Qed.

Lemma Validate_wf render v6 c : Validate U url_parse render v6 c = None → config_wf c ∧ scanForMisplacedSecrets U (render c) = None.
Proof.
  unfold Validate. intros H. rewrite !checks_cons in H.
  destruct H as (Hs & _ & _ & Hnft & Hcf & _ & _ & _ & Hai & _ & Hda & Hdu & Hpl & _ & Hsi & Hvb & Hre & Hdo & _ & _ & Hfe & _).
  split; [|done]. split.
  - intros e He. rewrite He in Hnft, Hcf. simpl in Hnft, Hcf. split.
    + intros n Hn. rewrite Hn in Hnft. simpl in Hnft. apply wrap_None in Hnft. unfold validateNFTables in Hnft.
      destruct (NftNames.Resolve _ _); [eauto|done].
    + by apply cloudflare_wf.
  - intros a Ha. rewrite Ha in Hai. by apply wrap_None, validateAI_wf in Hai.
  - intros d Hd. rewrite Hd in Hda, Hdu. simpl in Hda, Hdu. split; [|by apply dashboard_users_wf].
    intros Hb. apply blank_false in Hb. rewrite Hb in Hda. by apply wrap_None, loopback_bind_ok in Hda.
  - intros p Hp. rewrite Hp in Hpl. by apply wrap_None, validatePlugins_wf in Hpl.
  - eapply named_list_wf; [|exact Hsi]. apply sink_check_wf.
  - intros v Hv. rewrite Hv in Hvb. by apply wrap_None, validateVerifiedBots_wf in Hvb.
  - intros r Hr. rewrite Hr in Hre. by apply wrap_None, validateRetention_wf in Hre.
  - intros d Hd. rewrite Hd in Hdo. by apply wrap_None, validateDocker_wf in Hdo.
  - eapply named_list_wf; [|exact Hfe]. apply feed_check_wf.
Qed.
End loaded.

(** ** Display *)

(** The displayed view holds no header value, and is otherwise the configuration. *)
Lemma Redacted_spec c n w : Notify (Redacted c) = Some n → Webhook n = Some w →
  (∀ k v, Headers w !! k = Some v → v = RedactedMarker) ∧
  ∃ n0 w0, Notify c = Some n0 ∧ Webhook n0 = Some w0 ∧ dom (Headers w) = dom (Headers w0) ∧ wh_URL w = wh_URL w0.
Proof.
  simpl. intros (n0 & Hn & ->)%fmap_Some. simpl. intros (w0 & Hw & ->)%fmap_Some. simpl. split.
  - intros k v Hk. rewrite lookup_fmap in Hk. by apply fmap_Some in Hk as (x & _ & ->).
  - exists n0, w0. rewrite dom_fmap_L. done.
Qed.

Lemma Redacted_idemp c : Redacted (Redacted c) = Redacted c.
Proof.
  unfold Redacted. simpl. f_equal. destruct (Notify c) as [n|]; [|done]. simpl. f_equal. unfold redact_notify. simpl. f_equal.
  destruct (Webhook n) as [w|]; [|done]. simpl. f_equal. unfold redact_webhook. simpl. f_equal. by rewrite <- map_fmap_compose.
Qed.

(** An omitted band stays below any ban threshold from the default up. *)
Lemma default_band_no_overlap c p a : AI c = Some a → AmbiguousBand a = (0, 0) → DefaultBanThreshold <= BanThreshold p →
  AIBandOverlapWarning (Some (with_defaults c)) (Some p) = None.
Proof.
  intros Ha Hb Hp. unfold AIBandOverlapWarning, with_defaults, default_band. simpl. rewrite Ha. simpl. rewrite Hb. simpl.
  destruct (blank _ && _); [done|]. unfold DefaultBanThreshold in *.
  by rewrite (proj2 (Z.ltb_lt (70 - 1) (BanThreshold p))) by lia.
Qed.

(** ** Properties *)

(** C35. A configuration that loads meets what its components rely on: the packet
    filter's names resolve; the Cloudflare accounts that have a name, the SIEM
    forwarders, the dashboard's users, the feeds and the allowed plugins have
    distinct names, each list for itself (nothing is said of the AI providers' and
    verified bots' names, which may repeat); with an AI provider configured the
    band it judges is not empty and lies within 0 to 100; the dashboard binds to
    this host; a Docker endpoint beyond it and plaintext forwarding were opted
    into; enabled plugins are listed by name; a pruning window is off, or above the
    absolute floor and, unless the risk was accepted, above its own; every feed is
    one only its server can make fail, with a positive timeout for its elements;
    and no text of the file looks like a credential. *)
Theorem loaded_config_wf U url_parse render v6_first d c :
  LoadConfigReader U url_parse render v6_first (Ok d) = Ok c →
  config_wf url_parse c ∧ RulesDir c ≠ EmptyString ∧
  (∃ t, render (with_defaults d) = Some t ∧ ∀ p s, leaf EmptyString t p s → looksLikeCredential U s = false) ∧
  ∀ f res, f ∈ Feeds c → r_Name res = fd_Name f → 0 < fu_TTL (toUpdate (meta_of (to_feed url_parse <$> Feeds c)) res).
Proof.
  unfold LoadConfigReader. cbn [mbind result_mbind result_bind]. destruct (Validate _ _ _ _ _) eqn:E; [done|]. intros [= <-].
  apply Validate_wf in E as [Hw Hs].
  assert (config_wf url_parse (with_rules_dir (with_defaults d))) as Hc by (split; apply Hw).
  split; [done|]. split; [|split].
  - unfold with_rules_dir. cbn [RulesDir]. destruct (blank _) eqn:Eb; [done|]. by apply blank_false.
  - unfold scanForMisplacedSecrets in Hs. destruct (render _) as [t|]; [|done]. exists t. split; [done|].
    pose proof (walk_spec U (depth t) EmptyString t ltac:(lia)) as H. by rewrite Hs in H.
  - intros f res Hf Hr. pose proof (cw_feeds _ _ Hc) as [Hd Hall]. eapply update_ttl; [done|done| |done]. rewrite Forall_forall in Hall. auto.
Qed.

(** ** Witnesses *)
Definition sample_url_parse (s : string) : option url :=
  if bool_decide (s = "https://feeds.example/drop.txt"%string) then Some (MkURL "https" false "feeds.example" "/drop.txt" EmptyString EmptyString)
  else if bool_decide (s = "tcp://127.0.0.1:2375"%string) then Some (MkURL "tcp" false "127.0.0.1:2375" EmptyString EmptyString EmptyString)
  else if bool_decide (s = "tls://siem.example:6514"%string) then Some (MkURL "tls" false "siem.example:6514" EmptyString EmptyString EmptyString)
  else None.

Definition sample_loaded (docker retention : string) : Config :=
  MkConfig "/var/lib/ezyshield" "/run/ezyshield.sock" EmptyString EmptyString (MkLog "info") [MkCollector "journald" EmptyString "ssh.service" EmptyString "ssh"]
    (Some (MkEnforce (Some (MkNft EmptyString "inet shield" EmptyString)) [] None None))
    (Some (MkAI "anthropic" EmptyString "env:ANTHROPIC_API_KEY" EmptyString (0, 0) 0 0 [] true 0))
    None None (Some (MkDashboard "127.0.0.1:9090" EmptyString None [MkDashUser "ana" "admin" "env:ANA_TOKEN"]))
    [MkSIEM "main" "tls://siem.example:6514" "cef" [] EmptyString 0 false] None
    (Some (MkRetentionCfg retention EmptyString "never" false false)) (Some (MkDocker docker false)) None None
    [MkFeed "drop" "https://feeds.example/drop.txt" "cidr" (2 * Hour) 0 0 "block" 0] None None.

Definition sample_render (c : Config) : option ynode :=
  Some (YMap [("data_dir", YStr (DataDir c)); ("socket_path", YStr (SocketPath c))]%string).

Lemma loaded_config_wf_witness : ∃ c,
  LoadConfigReader ascii_unicode sample_url_parse sample_render false (Ok (sample_loaded "tcp://127.0.0.1:2375" "365d")) = Ok c ∧
  config_wf sample_url_parse c ∧ AmbiguousBand <$> AI c = Some (30, 69).
Proof.
  destruct (LoadConfigReader ascii_unicode sample_url_parse sample_render false (Ok (sample_loaded "tcp://127.0.0.1:2375" "365d"))) as [c|] eqn:E;
    [|exfalso; vm_compute in E; discriminate E].
  exists c. split; [done|]. split; [exact (proj1 (loaded_config_wf _ _ _ _ _ _ E))|]. revert E. vm_compute. by intros [= <-].
Defined.

(** A remote engine, a day count that wraps and a window under its floor. *)
Example refused :
  (λ '(dk, rt), is_ok (LoadConfigReader ascii_unicode sample_url_parse sample_render false (Ok (sample_loaded dk rt)))) <$>
    [("tcp://127.0.0.1:2375", "365d"); ("tcp://127.0.0.1:2375", "30d"); ("tcp://127.0.0.1:2375", "106752d"); ("ssh://host", "365d")]%string =
  [true; false; false; false].
Proof. vm_compute. done. Qed.

(** A window of 585 years wraps to about half a year, above the floor. *)
Example retention_wraps :
  match parseRetentionDuration "213685d" with Ok d => Some (d / Day) | Err _ => None end = Some 181 ∧
  is_ok (LoadConfigReader ascii_unicode sample_url_parse sample_render false (Ok (sample_loaded "tcp://127.0.0.1:2375" "213685d"))) = true.
Proof. vm_compute. done. Qed.
