(* ===== verification/ConfigSave.v ===== *)
(** Replacing a configuration file: [internal/config/save.go].

    Files have a text and a mode; every step that touches the disk may fail as the
    fault list says, a failing write leaving any text behind.  What is rendered,
    and whether it loads again, are arguments. *)
From S2P Require Import Prelude GoStrings Secrets Config ConfigSafety.
#[local] Open Scope Z_scope.

(** ** The disk *)
Record file := MkFile { text : string; mode : Z }.
Record disk := MkDisk { files : gmap string file; faults : list (option string) }.

(** The octal modes 0640 and 0600. *)
Definition mode640 : Z := 416.
Definition mode600 : Z := 384.

(** The next step's fault: what a failing write leaves. *)
Definition next_fault (d : disk) : option string * disk :=
  match faults d with [] => (None, d) | f :: fs => (f, MkDisk (files d) fs) end.

Definition on_files (f : gmap string file → gmap string file) (d : disk) : disk := MkDisk (f (files d)) (faults d).

Inductive save_error :=
| SInvalid (e : config_error) | SRender | SRevalidate (e : config_error) | SBackup | SRead | STemp | SWrite | SChmod | SClose | SRename.

(** [os.WriteFile]: truncate, then write. *)
Definition WriteFile (p t : string) (m : Z) (d : disk) : bool * disk :=
  let '(f, d) := next_fault d in
  let m := from_option mode m (files d !! p) in
  match f with
  | None => (true, on_files (<[p := MkFile t m]>) d)
  | Some partial => (false, on_files (<[p := MkFile partial m]>) d)
  end.

(** A step that changes nothing when it fails. *)
Definition step (change : gmap string file → gmap string file) (d : disk) : bool * disk :=
  let '(f, d) := next_fault d in
  match f with None => (true, on_files change d) | Some _ => (false, d) end.

Section save.
Context (validate : Config → check) (marshal : Config → option string) (load : string → result config_error Config).

(** The backup, and the mode of the file there was. *)
Definition backup (path : string) (d : disk) : result save_error (Z * string) * disk :=
  match files d !! path with
  | None =>
      match next_fault d with
      | (None, d) => (Ok (mode640, EmptyString), d)
      | (Some _, d) => (Err SRead, d)
      end
  | Some orig =>
      match next_fault d with
      | (Some _, d) => (Err SRead, d)
      | (None, d) =>
          let '(sf, d) := next_fault d in
          let m := match sf with None => mode orig | Some _ => mode640 end in
          let bak := path +:+ ".bak" in
          let '(ok, d) := WriteFile bak (text orig) m d in
          if (ok : bool) then (Ok (m, bak), d) else (Err SBackup, d)
      end
  end.

(** Best-effort removal of the temporary file. *)
Definition cleanup (tmp : string) (d : disk) : disk := (step (delete tmp) d).2.

(** The temporary file is written, given its mode, closed and renamed. *)
Definition replace (path tmp data : string) (m : Z) (d : disk) : result save_error unit * disk :=
  let '(ok, d) := step (<[tmp := MkFile EmptyString mode600]>) d in
  if negb ok then (Err STemp, d) else
  let '(ok, d) := WriteFile tmp data mode600 d in
  if negb ok then (Err SWrite, cleanup tmp d) else
  let '(ok, d) := step (<[tmp := MkFile data m]>) d in
  if negb ok then (Err SChmod, cleanup tmp d) else
  let '(ok, d) := step id d in
  if negb ok then (Err SClose, cleanup tmp d) else
  let '(ok, d) := step (λ fs, <[path := MkFile data m]> (delete tmp fs)) d in
  if negb ok then (Err SRename, cleanup tmp d) else (Ok tt, d).

(** [tmp]: the name [os.CreateTemp] finds. *)
Definition SaveConfig (path tmp : string) (cfg : Config) (header : string) (d : disk) : result save_error string * disk :=
  match validate cfg with
  | Some e => (Err (SInvalid e), d)
  | None =>
      match marshal cfg with
      | None => (Err SRender, d)
      | Some body =>
          let data := header +:+ body in
          match load data with
          | Err e => (Err (SRevalidate e), d)
          | Ok _ =>
              match backup path d with
              | (Err e, d) => (Err e, d)
              | (Ok (m, bak), d) =>
                  match replace path tmp data m d with
                  | (Err e, d) => (Err e, d)
                  | (Ok _, d) => (Ok bak, d)
                  end
              end
          end
      end
  end.

(** ** Effects *)
Definition frame (touched : list string) (d d' : disk) : Prop := ∀ p, p ∉ touched → files d' !! p = files d !! p.

Lemma next_fault_files d f d' : next_fault d = (f, d') → files d' = files d.
Proof. unfold next_fault. destruct (faults d); by intros [= <- <-]. Qed.

Lemma step_spec change d ok d' : step change d = (ok, d') → files d' = if ok then change (files d) else files d.
Proof.
  unfold step. destruct (next_fault d) as [f d1] eqn:E. apply next_fault_files in E as H.
  destruct f; intros [= <- <-]; simpl; by rewrite ?H.
Qed.

Lemma WriteFile_spec p t m d ok d' : WriteFile p t m d = (ok, d') → frame [p] d d' ∧
  (ok = true → files d' !! p = Some (MkFile t (from_option mode m (files d !! p)))).
Proof.
  unfold WriteFile. destruct (next_fault d) as [f d1] eqn:E. apply next_fault_files in E as H.
  destruct f; intros [= <- <-]; rewrite <- H; (split; [intros q Hq; simpl; rewrite lookup_insert_ne; [by rewrite ?H|set_solver]|]); [done|].
  intros _. simpl. by rewrite lookup_insert_eq.
Qed.

Lemma cleanup_frame tmp d : frame [tmp] d (cleanup tmp d).
Proof.
  unfold cleanup. destruct (step _ d) as [ok d'] eqn:E. apply step_spec in E. simpl. intros p Hp. rewrite E.
  destruct ok; [|done]. rewrite lookup_delete_ne; [done|set_solver].
Qed.

Lemma frame_trans ps d1 d2 d3 : frame ps d1 d2 → frame ps d2 d3 → frame ps d1 d3.
Proof. intros H1 H2 p Hp. by rewrite H2, H1. Qed.

Lemma frame_step ps change d ok d' : step change d = (ok, d') → (∀ fs p, p ∉ ps → change fs !! p = fs !! p) → frame ps d d'.
Proof. intros E%step_spec H p Hp. rewrite E. destruct ok; [|done]. by apply H. Qed.

Lemma replace_file_spec path tmp data m d r d' : path ≠ tmp → replace path tmp data m d = (r, d') →
  match r with
  | Ok _ => files d' !! path = Some (MkFile data m) ∧ files d' !! tmp = None ∧ frame [path; tmp] d d'
  | Err _ => frame [tmp] d d'
  end.
Proof.
  intros Hn. unfold replace.
  destruct (step _ d) as [ok1 d1] eqn:E1. apply (frame_step [tmp]) in E1 as F1; [|intros; rewrite lookup_insert_ne; [done|set_solver]].
  destruct ok1; cbn [negb]; [|by intros [= <- <-]].
  destruct (WriteFile tmp data _ d1) as [ok2 d2] eqn:E2. apply WriteFile_spec in E2 as [F2 _].
  assert (frame [tmp] d d2) as F by (by eapply frame_trans).
  destruct ok2; cbn [negb]; [|intros [= <- <-]; eapply frame_trans; [done|apply cleanup_frame]].
  destruct (step _ d2) as [ok3 d3] eqn:E3. apply (frame_step [tmp]) in E3 as F3; [|intros; rewrite lookup_insert_ne; [done|set_solver]].
  assert (frame [tmp] d d3) as G by (by eapply frame_trans).
  destruct ok3; cbn [negb]; [|intros [= <- <-]; eapply frame_trans; [done|apply cleanup_frame]].
  destruct (step id d3) as [ok4 d4] eqn:E4. apply (frame_step [tmp]) in E4 as F4; [|done].
  assert (frame [tmp] d d4) as K by (by eapply frame_trans).
  destruct ok4; cbn [negb]; [|intros [= <- <-]; eapply frame_trans; [done|apply cleanup_frame]].
  destruct (step _ d4) as [ok5 d5] eqn:E5. apply step_spec in E5 as E6.
  destruct ok5; cbn [negb]; intros [= <- <-].
  - rewrite E6. split; [by rewrite lookup_insert_eq|]. split; [rewrite lookup_insert_ne by done; by rewrite lookup_delete_eq|].
    intros p Hp. rewrite E6, lookup_insert_ne, lookup_delete_ne by set_solver. apply K. set_solver.
  - eapply frame_trans; [|apply cleanup_frame]. intros p Hp. rewrite E6. by apply K.
Qed.

Lemma backup_spec path d r d' : backup path d = (r, d') → path ≠ path +:+ ".bak" → frame [path +:+ ".bak"] d d' ∧
  match r with
  | Ok (m, bak) => match files d !! path with
                   | Some orig => bak = path +:+ ".bak" ∧ text <$> files d' !! bak = Some (text orig)
                   | None => bak = EmptyString ∧ files d' = files d
                   end
  | Err _ => True
  end.
Proof.
  intros H Hn. unfold backup in H. destruct (files d !! path) as [orig|] eqn:Ep.
  - destruct (next_fault d) as [f1 d1] eqn:E1. apply next_fault_files in E1. destruct f1; [by simplify_eq; split; [intros p _; by rewrite E1|]|].
    destruct (next_fault d1) as [f2 d2] eqn:E2. apply next_fault_files in E2.
    destruct (WriteFile _ _ _ d2) as [ok d3] eqn:E3. apply WriteFile_spec in E3 as [F3 Ht].
    assert (frame [path +:+ ".bak"] d d3) as F by (intros p Hp; rewrite F3 by done; by rewrite E2, E1).
    destruct ok; simplify_eq; split; try done. split; [done|]. by rewrite (Ht eq_refl).
  - destruct (next_fault d) as [f1 d1] eqn:E1. apply next_fault_files in E1. destruct f1; simplify_eq; (split; [intros p _; by rewrite E1|]); done.
Qed.

(** ** Property *)

(** Saving is all or nothing: the file is replaced whole, by a text the loader
    accepts, of a configuration that validates, with a copy of the old text beside
    it; or it is untouched.  Whatever steps fail, no other file than the backup and
    the temporary one changes. *)
Theorem save_atomic path tmp cfg header d r d' : tmp ≠ path → tmp ≠ path +:+ ".bak" →
  SaveConfig path tmp cfg header d = (r, d') →
  (∀ p, p ∉ [path; path +:+ ".bak"; tmp] → files d' !! p = files d !! p) ∧
  match r with
  | Err _ => files d' !! path = files d !! path
  | Ok bak =>
      validate cfg = None ∧
      (∃ body m c, marshal cfg = Some body ∧ load (header +:+ body) = Ok c ∧ files d' !! path = Some (MkFile (header +:+ body) m)) ∧
      files d' !! tmp = None ∧
      match files d !! path with
      | Some orig => bak = path +:+ ".bak" ∧ text <$> files d' !! bak = Some (text orig)
      | None => bak = EmptyString
      end
  end.
Proof.
  intros H1 H2. assert (path ≠ path +:+ ".bak") as H3.
  { intros E. apply (f_equal str_len) in E. rewrite str_length_app in E. simpl in E. lia. }
  unfold SaveConfig. destruct (validate cfg); [by intros [= <- <-]|]. destruct (marshal cfg) as [body|]; [|by intros [= <- <-]].
  destruct (load _) as [c|] eqn:El; [|by intros [= <- <-]].
  destruct (backup path d) as [rb d1] eqn:Eb. apply backup_spec in Eb as [Fb Hb]; [|done].
  destruct rb as [[m bak]|]; [|intros [= <- <-]; split; [intros p Hp|]; apply Fb; set_solver].
  destruct (replace path tmp _ m d1) as [rr d2] eqn:Er. apply replace_file_spec in Er; [|done].
  destruct rr; intros [= <- <-].
  - destruct Er as (Hp & Ht & Fr). split; [intros p Hn; rewrite Fr by set_solver; apply Fb; set_solver|].
    split; [done|]. split; [by exists body, m, c|]. split; [done|].
    destruct (files d !! path) as [orig|]; [|by destruct Hb]. destruct Hb as [-> Hb]. split; [done|]. rewrite Fr; [done|set_solver].
  - split; [intros p Hn|]; rewrite Er by set_solver; apply Fb; set_solver.
Qed.
End save.

(** ** Witnesses *)
Definition old_disk (faults : list (option string)) : disk := MkDisk {["/etc/config.yaml"%string := MkFile "old" mode600]} faults.

Definition sample_save (faults : list (option string)) : result save_error string * disk :=
  let c := sample_loaded EmptyString EmptyString in
  SaveConfig (λ _, None) (λ _, Some "new"%string) (λ _, Ok c) "/etc/config.yaml" "/etc/config.yaml.tmp-1" c "# x " (old_disk faults).

(** The rename fails, and the removal of the temporary file too. *)
Definition unlucky : list (option string) := [None; None; None; None; None; None; None; Some "x"; Some "x"]%string.

Lemma save_atomic_witness :
  (let '(r, d) := sample_save [] in
   r = Ok "/etc/config.yaml.bak"%string ∧ text <$> files d !! "/etc/config.yaml"%string = Some "# x new"%string) ∧
  (let '(r, d) := sample_save unlucky in
   r = Err SRename ∧ files d !! "/etc/config.yaml"%string = Some (MkFile "old" mode600) ∧
   is_Some (files d !! "/etc/config.yaml.tmp-1"%string)).
Proof.
  split; [vm_compute; by split|]. destruct (sample_save unlucky) as [r d] eqn:E.
  assert (r = Err SRename ∧ is_Some (files d !! "/etc/config.yaml.tmp-1"%string)) as [-> H] by (revert E; vm_compute; intros [= <- <-]; eauto).
  split; [done|]. split; [|done].
  unfold sample_save in E. apply save_atomic in E; [|done|done]. exact (eq_trans (proj2 E) eq_refl).
Defined.
