(* ===== verification/EdgeNet.v ===== *)
(** What the edge enforcers share ([internal/enforce/cloudflare.go]): Go error
    values and the question whether a failure is only throttling, the back-off
    schedule, the outbound rate limiter, and the monad their code is written in:
    the enforcer's state, a network that answers as it likes, and the log of the
    requests it was sent. *)
From Stdlib Require Import Ascii Sorted.
From stdpp Require Import sorting.
From S2P Require Import Prelude GoStrings GoUtf8.

(** ** Errors

    An error is a text, an API error with its type, one of the two sentinels, an
    error wrapped by one [%w], or several joined ([errors.Join]). *)
Inductive goerr :=
| EText (text : string)
| EApi (type text : string)
| ErrCFThrottled
| errBulkOpUnconfirmed
| EWrap (text : string) (inner : goerr)
| EJoin (text : string) (es : list goerr).

Definition ErrorText (e : goerr) : string :=
  match e with
  | EText t | EApi _ t | EWrap t _ | EJoin t _ => t
  | ErrCFThrottled => "cloudflare API throttled"
  | errBulkOpUnconfirmed => "cloudflare bulk operation unconfirmed"
  end.

(** [fmt.Errorf("pre: %w", err)] *)
Definition wrapf (pre : string) (e : goerr) : goerr := EWrap (pre +:+ ": " +:+ ErrorText e) e.

Definition newline : string := String "010"%char EmptyString.
Definition joinErrs (es : list goerr) : option goerr :=
  match es with [] => None | _ => Some (EJoin (Join (ErrorText <$> es) newline) es) end.

(** [errors.Is] for a sentinel. *)
Fixpoint errors_Is (sentinel : goerr → bool) (e : goerr) : bool :=
  sentinel e || match e with
  | EWrap _ e => errors_Is sentinel e
  | EJoin _ es => existsb (errors_Is sentinel) es
  | _ => false
  end.
(** [errors.As] for an API error: its type. *)
Fixpoint errors_As (e : goerr) : option string :=
  match e with
  | EApi type _ => Some type
  | EWrap _ e => errors_As e
  | EJoin _ es => foldr (λ e o, match errors_As e with Some t => Some t | None => o end) None es
  | _ => None
  end.
Definition is_throttled (e : goerr) : bool := match e with ErrCFThrottled => true | _ => false end.
Definition is_unconfirmed (e : goerr) : bool := match e with errBulkOpUnconfirmed => true | _ => false end.

Fixpoint IsThrottleOnly (e : goerr) : bool :=
  match e with
  | EJoin _ es => match es with [] => false | _ => forallb IsThrottleOnly es end
  | EWrap _ (EJoin _ _ as inner) => IsThrottleOnly inner
  | _ => errors_Is is_throttled e
  end.

(** ** Throttling *)
Record cfAPIError := MkAPIError { Code : Z; Message : string }.

Definition cfErrMsg (errs : list cfAPIError) : string :=
  match errs with
  | [] => "unknown error"
  | _ => Join ((λ ce, show_Z (Code ce) +:+ ": " +:+ Message ce) <$> errs) "; "
  end.

Definition cfThrottleCodes : list Z := [10040; 971].
Definition StatusTooManyRequests : Z := 429.
Definition cfIsThrottle (status : Z) (errs : list cfAPIError) : bool :=
  (status =? StatusTooManyRequests) || existsb (λ e, bool_decide (Code e ∈ cfThrottleCodes)) errs.

Definition parseRetryAfter (v : string) : duration :=
  if bool_decide (v = EmptyString) then 0
  else match Atoi (UTrimSpace v) with
       | Some secs => if secs <=? 0 then 0 else wrap64 (secs * Second)
       | None => 0
       end.

Definition cfRetryAfterCap : duration := 5 * Minute.
Definition cfRetryDelays : list duration := [2 * Second; 8 * Second; 30 * Second].

(** The delay of an attempt: the jittered base, or the server's hint when longer. *)
Definition backoff_delay (jittered retryAfter : duration) : duration :=
  if jittered <? retryAfter then Z.min retryAfter cfRetryAfterCap else jittered.

(** ** The rate limiter *)
Record cfRateLimiter := MkLimiter { last : time; interval : duration }.

Definition newCFRateLimiter (rps : Z) : cfRateLimiter := MkLimiter (- unixToInternal * Second) (Second `div` rps).

(** How long a caller at [now] waits. *)
Definition limiter_wait (r : cfRateLimiter) (now : time) : duration * cfRateLimiter :=
  let next := last r + interval r in
  if now <? next then (next - now, MkLimiter next (interval r)) else (0, MkLimiter now (interval r)).

(** The instants at which the callers of a list of arrivals are let through. *)
Fixpoint releases (r : cfRateLimiter) (arrivals : list time) : list time :=
  match arrivals with
  | [] => []
  | now :: rest => let '(d, r') := limiter_wait r now in (now + d) :: releases r' rest
  end.

Definition spaced (i : duration) : list time → Prop := StronglySorted (λ a b, a + i <= b).

(** Whenever the callers arrive, two of them are let through at least an interval apart. *)
Lemma limiter_spaced r ts : 0 <= interval r → StronglySorted Z.le ts → spaced (interval r) (releases r ts).
Proof.
  intros Hi. revert r Hi. induction ts as [|now ts IH]; intros r Hi Hs; [constructor|].
  apply StronglySorted_inv in Hs as [Hs Hle]. simpl.
  assert (∀ q : cfRateLimiter, interval q = interval r → now <= last q → Forall (λ t, last q + interval r <= t) (releases q ts)) as Hall.
  { clear IH. revert Hle Hs. induction ts as [|n ts IHt]; intros Hle Hs q Hq Hl; simpl; [constructor|].
    apply Forall_cons_1 in Hle as [Hn Hle]. apply StronglySorted_inv in Hs as [Hs Hn'].
    unfold limiter_wait. rewrite Hq. destruct (Z.ltb_spec n (last q + interval r)).
    - constructor; [lia|]. eapply Forall_impl; [apply (IHt Hle Hs (MkLimiter (last q + interval r) (interval r))); simpl; [done|lia]|].
      simpl. lia.
    - constructor; [lia|]. eapply Forall_impl; [apply (IHt Hle Hs (MkLimiter n (interval r))); simpl; [done|lia]|]. simpl. lia. }
  unfold limiter_wait. destruct (Z.ltb_spec now (last r + interval r)); cbn [fst snd]; constructor.
  - apply (IH (MkLimiter _ _) Hi Hs).
  - replace (now + _) with (last r + interval r) by lia. apply (Hall (MkLimiter (last r + interval r) (interval r))); [done|simpl; lia].
  - apply (IH (MkLimiter _ _) Hi Hs).
  - rewrite Z.add_0_r. apply (Hall (MkLimiter now (interval r))); [done|simpl; lia].
Qed.

(** ** The network

    The limiter and the pauses end early with the context's error.  The jitter of
    a back-off and the order in which Go walks a map are random, so they are the
    network's choice too. *)
Class Net (S : Type) := {
  net_wait : S → option string * S;
  net_pause : duration → S → option string * S;
  net_ctx : S → option string;
  net_jitter : duration → S → duration * S;
  net_order : S → list string → list string;
  net_order_perm : ∀ s l, net_order s l ≡ₚ l
}.

(** [for k, v := range m] *)
Definition in_order {S} `{Net S} {A} (s : S) (m : gmap string A) : list (string * A) :=
  omap (λ k, pair k <$> m !! k) (net_order s (map_to_list m).*1).

Lemma in_order_elem {S} `{Net S} {A} (s : S) (m : gmap string A) k v : (k, v) ∈ in_order s m ↔ m !! k = Some v.
Proof.
  unfold in_order. rewrite list_elem_of_omap. split.
  - intros (k' & _ & (v' & Hv & [= -> ->])%fmap_Some). done.
  - intros Hk. exists k. rewrite net_order_perm, Hk. split; [|done].
    apply list_elem_of_fmap. exists (k, v). by rewrite elem_of_map_to_list.
Qed.

Lemma in_order_keys {S} `{Net S} {A} (s : S) (m : gmap string A) : NoDup (in_order s m).*1.
Proof.
  assert ((in_order s m).*1 = net_order s (map_to_list m).*1) as ->.
  { unfold in_order. assert (∀ k, k ∈ net_order s (map_to_list m).*1 → is_Some (m !! k)) as Hk.
    { intros k. rewrite net_order_perm, list_elem_of_fmap. intros ([k' v] & -> & Hv%elem_of_map_to_list). by exists v. }
    induction (net_order s (map_to_list m).*1) as [|k l IH]; [done|]. cbn [omap list_omap].
    destruct (Hk k) as [v Hv]; [left|]. rewrite Hv. cbn [fmap option_fmap option_map list_fmap fst]. f_equal. apply IH. intros. apply Hk. by right. }
  rewrite net_order_perm. apply NoDup_fst_map_to_list.
Qed.

(** An answer: no response, or a status, the Retry-After header and the body as
    it decodes (or the decoder's error). *)
Inductive reply (A : Type) := Transport (text : string) | Resp (status : Z) (retryAfter : string) (dec : string + A).
Arguments Transport {A} _.
Arguments Resp {A} _ _ _.

(** The enforcer's state, the network, and what was sent, the last first. *)
Record world (T V S : Type) := MkWorld { st : T; net : S; sent : list V }.
Arguments MkWorld {T V S} _ _ _.
Arguments st {T V S} _.
Arguments net {T V S} _.
Arguments sent {T V S} _.

Section monad.
Context {T V S : Type}.
Notation world := (world T V S).

Definition io (A : Type) : Type := world → result goerr A * world.
#[global] Instance io_mret : MRet io := λ A a w, (Ok a, w).
#[global] Instance io_mbind : MBind io := λ A B k m w,
  match m w with (Ok a, w') => k a w' | (Err e, w') => (Err e, w') end.

Definition fail {A} (e : goerr) : io A := λ w, (Err e, w).
Definition get_st : io T := λ w, (Ok (st w), w).
Definition put_st (f : T → T) : io unit := λ w, (Ok tt, MkWorld (f (st w)) (net w) (sent w)).
Definition log (v : V) : io unit := λ w, (Ok tt, MkWorld (st w) (net w) (v :: sent w)).
Definition lift {A} (f : S → A * S) : io A := λ w, let '(a, s) := f (net w) in (Ok a, MkWorld (st w) s (sent w)).
(** The outcome of [m] as a value. *)
Definition try {A} (m : io A) : io (result goerr A) := λ w, let '(r, w') := m w in (Ok r, w').
(** [return fmt.Errorf("pre: %w", err)] *)
Definition wrap {A} (pre : string) (m : io A) : io A := λ w,
  match m w with (Err e, w') => (Err (wrapf pre e), w') | r => r end.

Context `{Net S}.
Definition ctx_result (o : option string) : io unit := match o with Some t => fail (EText t) | None => mret tt end.
(** [e.limiter.wait(ctx)] *)
Definition wait : io unit := lift net_wait ≫= ctx_result.
(** [select { case <-ctx.Done(): … case <-time.After(d): }] *)
Definition pause (d : duration) : io unit := lift (net_pause d) ≫= ctx_result.
Definition ctx_Err : io (option string) := lift (λ s, (net_ctx s, s)).

Definition cfBackoffWait (delays : list duration) (attempt : nat) (retryAfter : duration) : io unit :=
  match delays with
  | [] => mret tt
  | d0 :: _ =>
    d ← lift (net_jitter (default d0 (delays !! Nat.min attempt (length delays - 1))));
    pause (backoff_delay d retryAfter)
  end.

(** ** Reasoning *)
Definition triple {A} (P : world → Prop) (m : io A) (Q : result goerr A → world → Prop) : Prop :=
  ∀ w, P w → Q (m w).1 (m w).2.

Lemma triple_ret {A} (a : A) (P : world → Prop) (Q : result goerr A → world → Prop) :
  (∀ w, P w → Q (Ok a) w) → triple P (mret a) Q.
Proof. intros Hq w Hp. by apply Hq. Qed.
Lemma triple_fail {A} e (P : world → Prop) (Q : result goerr A → world → Prop) :
  (∀ w, P w → Q (Err e) w) → triple P (fail e) Q.
Proof. intros Hq w Hp. by apply Hq. Qed.
Lemma triple_bind {A B} (P : world → Prop) (m : io A) (k : A → io B) (R : result goerr A → world → Prop) (Q : result goerr B → world → Prop) :
  triple P m R → (∀ a, triple (R (Ok a)) (k a) Q) → (∀ e w, R (Err e) w → Q (Err e) w) → triple P (m ≫= k) Q.
Proof.
  intros Hm Hk He w Hp. specialize (Hm w Hp). unfold mbind, io_mbind. destruct (m w) as [[a|e] w']; [by apply Hk|by apply He].
Qed.
Lemma triple_conseq {A} (P P' : world → Prop) (m : io A) (Q Q' : result goerr A → world → Prop) :
  triple P m Q → (∀ w, P' w → P w) → (∀ r w, Q r w → Q' r w) → triple P' m Q'.
Proof. intros Hm Hp Hq w Hw. by apply Hq, Hm, Hp. Qed.
Lemma triple_try {A} (P : world → Prop) (m : io A) (Q : result goerr (result goerr A) → world → Prop) :
  triple P m (λ r, Q (Ok r)) → triple P (try m) Q.
Proof. intros Hm w Hp. specialize (Hm w Hp). unfold try. by destruct (m w). Qed.
Lemma triple_wrap {A} pre (P : world → Prop) (m : io A) (Q : result goerr A → world → Prop) :
  triple P m (λ r, Q (match r with Ok a => Ok a | Err e => Err (wrapf pre e) end)) → triple P (wrap pre m) Q.
Proof. intros Hm w Hp. specialize (Hm w Hp). unfold wrap. by destruct (m w) as [[?|?] ?]. Qed.
Lemma triple_pre {A} (P : world → Prop) (m : io A) Q : (∀ w, P w → triple (λ w', w' = w) m Q) → triple P m Q.
Proof. intros Hm w Hp. by apply (Hm w Hp). Qed.
End monad.

Arguments io T V S A : clear implicits.

(** The network operations alone: they answer or fail, and leave state and log alone. *)
Definition quiet {T V S} (P : world T V S → Prop) : Prop := ∀ t s s' l, P (MkWorld t s l) → P (MkWorld t s' l).

Lemma quiet_lift {T V S A} (f : S → A * S) (P : world T V S → Prop) : quiet P → triple P (lift f) (λ _, P).
Proof. intros Hq [t s l] Hp. unfold lift. simpl. destruct (f s). simpl. by eapply Hq. Qed.
Lemma quiet_read {T V S A} (g : S → A) (P : world T V S → Prop) : quiet P →
  triple P (lift (λ s, (g s, s))) (λ r w, P w ∧ ∃ s, r = Ok (g s)).
Proof. intros _ [t s l] Hp. split; [done|]. by exists s. Qed.
Lemma quiet_ctx_result {T V S} o (P : world T V S → Prop) : triple P (ctx_result o) (λ _, P).
Proof. destruct o; intros w Hp; done. Qed.
Lemma quiet_wait {T V S} `{Net S} (P : world T V S → Prop) : quiet P → triple P wait (λ _, P).
Proof. intros Hq. eapply triple_bind; [by apply quiet_lift|intros; apply quiet_ctx_result|done]. Qed.
Lemma quiet_pause {T V S} `{Net S} d (P : world T V S → Prop) : quiet P → triple P (pause d) (λ _, P).
Proof. intros Hq. eapply triple_bind; [by apply quiet_lift|intros; apply quiet_ctx_result|done]. Qed.
Lemma quiet_backoff {T V S} `{Net S} ds n ra (P : world T V S → Prop) : quiet P → triple P (cfBackoffWait ds n ra) (λ _, P).
Proof.
  intros Hq. unfold cfBackoffWait. destruct ds; [by apply triple_ret|].
  eapply triple_bind; [by apply quiet_lift|intros; by apply quiet_pause|done].
Qed.

(** A log that grew from [l0] by events each of which was right when it happened. *)
Inductive grows {V} (ok : list V → V → Prop) (l0 : list V) : list V → Prop :=
| grows_refl : grows ok l0 l0
| grows_cons v l : grows ok l0 l → ok l v → grows ok l0 (v :: l).

Lemma grows_trans {V} (ok : list V → V → Prop) l0 l1 l2 : grows ok l0 l1 → grows ok l1 l2 → grows ok l0 l2.
Proof. intros H. induction 1; [done|by constructor]. Qed.
Lemma grows_suffix {V} (ok : list V → V → Prop) l0 l : grows ok l0 l → ∃ new, l = new ++ l0.
Proof. induction 1 as [|v l _ [new ->]]; [by exists []|by exists (v :: new)]. Qed.
Lemma grows_in {V} (ok : list V → V → Prop) l0 l v : grows ok l0 l → v ∈ l → v ∈ l0 ∨ ∃ l', ok l' v ∧ l' `suffix_of` l.
Proof.
  induction 1 as [|u l Hg IH Hok]; [by left|]. intros [->|Hv]%elem_of_cons.
  - right. exists l. split; [done|]. by exists [u].
  - destruct (IH Hv) as [?|(l' & Hok' & k & ->)]; [by left|]. right. exists l'. split; [done|]. by exists (u :: k).
Qed.
Lemma grows_impl {V} (ok ok' : list V → V → Prop) l0 l : (∀ l v, ok l v → ok' l v) → grows ok l0 l → grows ok' l0 l.
Proof. intros Hi. induction 1; constructor; auto. Qed.

(** A property of the state and the log. *)
Definition on {T V S} (I : T → list V → Prop) (w : world T V S) : Prop := I (st w) (sent w).
Lemma quiet_on {T V S} (I : T → list V → Prop) : quiet (on (S := S) I).
Proof. by intros t s s' l. Qed.
#[export] Hint Resolve quiet_on : ezy.

(** ** Facts *)

(** A server's hint stretches a wait to five minutes at most. *)
Lemma backoff_delay_le d ra : backoff_delay d ra <= Z.max d cfRetryAfterCap.
Proof. unfold backoff_delay. case_match; bool_hyps; lia. Qed.

(** No error is throttle-only unless some branch of it is a throttle. *)
Lemma throttle_only_throttled e : IsThrottleOnly e = true → errors_Is is_throttled e = true.
Proof.
  revert e. fix IH 1. intros [| | | |t e|t es]; simpl; try done.
  - intros H. assert (IsThrottleOnly e = true ∨ errors_Is is_throttled e = true) as [H'|H'] by (clear IH; destruct e; auto); [by apply IH|done].
  - destruct es as [|e es]; [done|]. simpl. rewrite andb_true_iff. intros [H _]. by rewrite (IH e H).
Qed.

(** A failure joined under two wrappings hides behind a throttle: the mixed tree counts as transient. *)
Lemma mixed_tree_throttle_only :
  let mixed := EJoin "a; b" [wrapf "cloudflare" ErrCFThrottled; EText "nftables: permission denied"] in
  IsThrottleOnly mixed = false ∧ IsThrottleOnly (wrapf "sync" mixed) = false ∧ IsThrottleOnly (wrapf "reconcile" (wrapf "sync" mixed)) = true.
Proof. done. Qed.

Example backoff_example : map parseRetryAfter ["30"; " 7 "; "Wed, 21 Oct 2026 07:28:00 GMT"; "-1"]%string = [30 * Second; 7 * Second; 0; 0].
Proof. reflexivity. Qed.
