(* ===== verification/CfRules.v ===== *)
(** The per-zone Cloudflare enforcer ([internal/enforce/cloudflare.go]): one
    custom firewall rule per zone, or several when the expression is too long,
    holding every banned address.

    The Rulesets API is the class [ZoneAPI]: each call answers as it likes.  A
    decoded body is the value of its wire type; the bytes are the decoder's. *)
From Stdlib Require Import Ascii.
From stdpp Require Import sorting.
From S2P Require Import Prelude GoStrings Netip NetipShow Sdk NftClient Secrets Config EdgeNet NetipParse.
(** ** Wire types *)
Record cfResp (A : Type) := MkCfResp { Success : bool; Errors : list cfAPIError; Result : A }.
Arguments MkCfResp {A} _ _ _.
Arguments Success {A} _.
Arguments Errors {A} _.
Arguments Result {A} _.

Record cfRulesetInfo := MkRulesetInfo { rs_ID : string; Phase : string }.
Record cfWAFRule := MkWAFRule { ru_ID : string; ru_Action : string; ru_Expression : string; ru_Description : string }.
Record cfRulesetDetail := MkRulesetDetail { rd_ID : string; rd_Phase : string; rd_Rules : list cfWAFRule }.
Record cfRuleReq := MkRuleReq { rq_Action : string; rq_Expression : string; rq_Description : string }.
Record cfCreateRulesetReq := MkCreateRuleset { cr_Name : string; cr_Kind : string; cr_Phase : string; cr_Rules : list cfRuleReq }.

Definition cfListRulesetsResp := cfResp (list cfRulesetInfo).
Definition cfGetRulesetResp := cfResp cfRulesetDetail.
Definition cfCreateRulesetResp := cfResp cfRulesetDetail.
Definition cfRuleWriteResp := cfResp (option cfWAFRule).

Definition cfBaseURL : string := "https://api.cloudflare.com/client/v4".
Definition cfMaxRPS : Z := 4.
Definition cfRulePhase : string := "http_request_firewall_custom".
Definition cfDescBase : string := "ezyshield-blocklist".
Definition cfExprMax : nat := 3900.

(** ** Descriptions and expressions *)
Definition ruleDesc (i : nat) : string :=
  if bool_decide (i = 0%nat) then cfDescBase else cfDescBase +:+ "-" +:+ show_Z (Z.of_nat i + 1).

Definition isEzyshieldDesc (desc : string) : bool :=
  if bool_decide (desc = cfDescBase) then true
  else if negb (has_prefix (cfDescBase +:+ "-") desc) then false
  else let suffix := str_drop (str_len cfDescBase + 1) desc in
       if bool_decide (suffix = EmptyString) then false
       else str_forall (λ c, match digit_val c with Some _ => true | None => false end) suffix.

Definition expr_prefix : string := "(ip.src in {".
Definition expr_suffix : string := "})".

(** The loop over the sorted addresses: [cur] is the builder, [empty] is whether
    the expression being built holds no address yet. *)
Fixpoint build (limit : nat) (ips : list string) (cur : string) (empty : bool) : list string :=
  match ips with
  | [] => if empty then [] else [cur +:+ expr_suffix]
  | ip :: ips =>
    let addLen := (str_len ip + if empty then 0 else 1)%nat in
    if negb empty && (limit <? str_len cur + addLen + str_len expr_suffix)%nat
    then (cur +:+ expr_suffix) :: build limit ips (expr_prefix +:+ ip) false
    else build limit ips (cur +:+ (if empty then EmptyString else " ") +:+ ip) false
  end.

Definition expr_limit (exprMax : nat) : nat := if bool_decide (exprMax = 0%nat) then cfExprMax else exprMax.

Definition buildExpressions (exprMax : nat) (ips : gset string) : list string :=
  if bool_decide (ips = ∅) then []
  else build (expr_limit exprMax) (merge_sort String.le (elements ips)) expr_prefix true.

(** ** The Rulesets API *)
Class ZoneAPI (S : Type) := {
  getRulesets (zone : string) : S → reply cfListRulesetsResp * S;
  getRuleset (zone ruleset : string) : S → reply cfGetRulesetResp * S;
  postRuleset (zone : string) (q : cfCreateRulesetReq) : S → reply cfCreateRulesetResp * S;
  postRule (zone ruleset : string) (q : cfRuleReq) : S → reply cfRuleWriteResp * S;
  patchRule_ (zone ruleset rule : string) (q : cfRuleReq) : S → reply cfRuleWriteResp * S;
  deleteRule_ (zone ruleset rule : string) : S → reply cfRuleWriteResp * S
}.

(** A request of the Rulesets API with its answer. *)
Inductive zone_event :=
| GotRulesets (zone : string) (r : reply cfListRulesetsResp)
| GotRuleset (zone ruleset : string) (r : reply cfGetRulesetResp)
| PostedRuleset (zone : string) (q : cfCreateRulesetReq) (r : reply cfCreateRulesetResp)
| PostedRule (zone ruleset : string) (q : cfRuleReq) (r : reply cfRuleWriteResp)
| PatchedRule (zone ruleset rule : string) (q : cfRuleReq) (r : reply cfRuleWriteResp)
| DeletedRule (zone ruleset rule : string) (r : reply cfRuleWriteResp).

(** What the calls of both Cloudflare enforcers have in common. *)
Section calls.
Context {T V S : Type} `{Net S}.

(** [doRequest]: the limiter is asked first; no response is an error that names the request. *)
Definition request {A} (verb url : string) (call : S → reply A * S) (ev : reply A → V) : io T V S (Z * string * (string + A)) :=
  r ← lift call;
  _ ← log (ev r);
  match r with
  | Transport t => fail (EWrap ("http " +:+ verb +:+ " " +:+ url +:+ ": " +:+ t) (EText t))
  | Resp status retryAfter dec => mret (status, retryAfter, dec)
  end.

(** A body that must decode and report success. *)
Definition succeed {A} (op api : string) (dec : string + cfResp A) : io T V S A :=
  match dec with
  | inl t => fail (wrapf ("decode " +:+ op) (EText t))
  | inr r => if Success r then mret (Result r) else fail (EText ("cloudflare " +:+ api +:+ ": " +:+ cfErrMsg (Errors r)))
  end.

Definition simple_call {A} (verb url op api : string) (call : S → reply (cfResp A) * S) (ev : reply (cfResp A) → V) : io T V S A :=
  _ ← wait;
  r ← request verb url call ev;
  succeed op api r.2.
End calls.

Section call_rules.
Context {T V S : Type} `{Net S}.
#[local] Notation io := (io T V S).

Lemma triple_request {A} verb url (call : S → reply A * S) (ev : reply A → V) (I : T → list V → Prop) (J : reply A → T → list V → Prop) :
  (∀ t l r, I t l → J r t (ev r :: l)) →
  triple (on I) (request verb url call ev : io _) (λ res w,
    match res with Ok p => on (J (Resp p.1.1 p.1.2 p.2)) w | Err _ => ∃ r, on (J r) w end).
Proof.
  intros HJ [t s l] HI. unfold request, mbind, io_mbind, lift, log, mret, io_mret, fail. cbn [net st sent].
  destruct (call s) as [[x|status ra dec] s']; cbn; [exists (Transport x)|]; by apply HJ.
Qed.

Lemma triple_simple_call {A} verb url op api (call : S → reply (cfResp A) * S) (ev : reply (cfResp A) → V)
    (I : T → list V → Prop) (J : reply (cfResp A) → T → list V → Prop) :
  (∀ t l r, I t l → J r t (ev r :: l)) →
  triple (on I) (simple_call verb url op api call ev : io A) (λ res w,
    match res with
    | Ok a => ∃ status ra r, on (J (Resp status ra (inr r))) w ∧ Success r = true ∧ Result r = a
    | Err _ => on I w ∨ ∃ r, on (J r) w
    end).
Proof.
  intros HJ. unfold simple_call. eapply triple_bind; [apply quiet_wait, quiet_on| |by left]. intros [].
  eapply triple_bind; [by apply triple_request| |by right].
  intros [[status ra] dec] w Hw. cbn in Hw |- *. unfold succeed. destruct dec as [x|r]; [right; by eexists|].
  destruct (Success r) eqn:E; [by exists status, ra, r|right; by eexists].
Qed.
End call_rules.

Section zones.
Context {T V S : Type} `{Net S} `{ZoneAPI S} (base action : string) (inj : zone_event → V).
#[local] Notation io := (io T V S).

Definition zone_url (zone : string) : string := base +:+ "/zones/" +:+ zone +:+ "/rulesets".
Definition ruleset_url (zone ruleset : string) : string := zone_url zone +:+ "/" +:+ ruleset.
Definition rules_url (zone ruleset : string) : string := ruleset_url zone ruleset +:+ "/rules".

(** The zone's custom-firewall ruleset and its rules; no ruleset is no rules. *)
Definition discover_rules (zone : string) : io (string * list cfWAFRule) :=
  sets ← simple_call "GET" (zone_url zone) "list rulesets" "list rulesets" (getRulesets zone) (inj ∘ GotRulesets zone);
  let rulesetID := match List.find (λ rs, bool_decide (Phase rs = cfRulePhase)) sets with Some rs => rs_ID rs | None => EmptyString end in
  if bool_decide (rulesetID = EmptyString) then mret (EmptyString, [])
  else d ← simple_call "GET" (ruleset_url zone rulesetID) "ruleset" "get ruleset" (getRuleset zone rulesetID) (inj ∘ GotRuleset zone rulesetID);
       mret (rulesetID, rd_Rules d).

(** Every managed rule by its description; a later rule of the same description wins. *)
Definition discoverZone (zone : string) : io (string * gmap string string) :=
  p ← discover_rules zone;
  mret (p.1, foldl (λ m r, if isEzyshieldDesc (ru_Description r) then <[ru_Description r := ru_ID r]> m else m) ∅ p.2).

Definition createRulesetWithRule (zone desc expr : string) : io (string * string) :=
  d ← simple_call "POST" (zone_url zone) "create ruleset" "create ruleset"
        (postRuleset zone (MkCreateRuleset "Custom rules" "zone" cfRulePhase [MkRuleReq action expr desc]))
        (inj ∘ PostedRuleset zone (MkCreateRuleset "Custom rules" "zone" cfRulePhase [MkRuleReq action expr desc]));
  match rd_Rules d with
  | [] => fail (EText "cloudflare create ruleset: no rule in response")
  | r :: _ => mret (rd_ID d, ru_ID r)
  end.

Definition createRule (zone rulesetID desc expr : string) : io string :=
  r ← simple_call "POST" (rules_url zone rulesetID) "create rule" "create rule"
        (postRule zone rulesetID (MkRuleReq action expr desc)) (inj ∘ PostedRule zone rulesetID (MkRuleReq action expr desc));
  match r with None => fail (EText "cloudflare create rule: empty response") | Some r => mret (ru_ID r) end.

Definition patchRule (zone rulesetID ruleID desc expr : string) : io unit :=
  _ ← simple_call "PATCH" (rules_url zone rulesetID +:+ "/" +:+ ruleID) "patch rule" "patch rule"
        (patchRule_ zone rulesetID ruleID (MkRuleReq action expr desc)) (inj ∘ PatchedRule zone rulesetID ruleID (MkRuleReq action expr desc));
  mret tt.

Definition deleteRulesetRule (zone rulesetID ruleID : string) : io unit :=
  _ ← simple_call "DELETE" (rules_url zone rulesetID +:+ "/" +:+ ruleID) "delete rule" "delete rule"
        (deleteRule_ zone rulesetID ruleID) (inj ∘ DeletedRule zone rulesetID ruleID);
  mret tt.
End zones.

(** ** The enforcer *)
Record zoneState := MkZone {
  discovered : bool;
  rulesetID : string;
  ruleIDs : gmap string string;
  ips : gset string;
  timer : bool
}.
Definition newZoneState : zoneState := MkZone false EmptyString ∅ ∅ false.

Record CloudflareEnforcer := MkCF {
  instanceName : string;
  zoneIDs : list string;
  action : string;
  baseURL : string;
  allowlist : list prefix;
  debounceInterval : duration;
  exprMax : nat
}.

Definition cfDebounceFromCfg (cfg : CloudflareCfg) : duration :=
  if 0 <? cf_Debounce cfg then cf_Debounce cfg else DefaultCFDebounce.

(** The API token is resolved and kept in the request headers only. *)
Definition newCloudflareRulesetsEnforcer (env : string → option string) (cfg : CloudflareCfg) (al : list prefix) : result goerr CloudflareEnforcer :=
  match Resolve env (cf_APIToken cfg) with
  | Err _ => Err (EText "enforce/cloudflare: resolve api_token")
  | Ok _ => Ok (MkCF (cf_Name cfg) (cf_ZoneIDs cfg) (if bool_decide (cf_Action cfg = EmptyString) then "block" else cf_Action cfg)
                  cfBaseURL al (cfDebounceFromCfg cfg) cfExprMax)
  end.

Definition Name (e : CloudflareEnforcer) : string :=
  if bool_decide (instanceName e = EmptyString) then "cloudflare" else "cloudflare[" +:+ instanceName e +:+ "]".

(** The targets of a reconcile by key; allowlisted and unsupported ones are skipped. *)
Definition want_set (al : list prefix) (want : list Target) : gset string :=
  list_to_set (omap (λ t, if targetOverlapsAllowlist t al then None else targetKey t) want).

Section enforcer.
Context {S : Type} `{Net S} `{ZoneAPI S} (e : CloudflareEnforcer).
#[local] Notation zio := (io (gmap string zoneState) zone_event S).

(** [getOrCreateZone] *)
Definition zone_of (zs : gmap string zoneState) (zone : string) : zoneState := default newZoneState (zs !! zone).
Definition upd (zone : string) (f : zoneState → zoneState) : zio unit := put_st (λ zs, <[zone := f (zone_of zs zone)]> zs).
Definition with_ruleIDs (f : gmap string string → gmap string string) (z : zoneState) : zoneState :=
  MkZone (discovered z) (rulesetID z) (f (ruleIDs z)) (ips z) (timer z).
Definition with_ips (f : gset string → gset string) (z : zoneState) : zoneState :=
  MkZone (discovered z) (rulesetID z) (ruleIDs z) (f (ips z)) (timer z).
Definition with_timer (b : bool) (z : zoneState) : zoneState := MkZone (discovered z) (rulesetID z) (ruleIDs z) (ips z) b.

Definition delete_rule (zone rulesetID ruleID : string) : zio unit := deleteRulesetRule (baseURL e) id zone rulesetID ruleID.

Fixpoint delete_all (zone rulesetID : string) (rules : list (string * string)) : zio unit :=
  match rules with
  | [] => mret tt
  | (desc, ruleID) :: rules =>
    _ ← delete_rule zone rulesetID ruleID;
    _ ← upd zone (with_ruleIDs (delete desc));
    delete_all zone rulesetID rules
  end.

Fixpoint delete_obsolete (zone rulesetID : string) (desired : gmap string string) (rules : list (string * string)) : zio unit :=
  match rules with
  | [] => mret tt
  | (desc, ruleID) :: rules =>
    _ ← (if bool_decide (is_Some (desired !! desc)) then mret tt else delete_rule zone rulesetID ruleID);
    delete_obsolete zone rulesetID desired rules
  end.

(** Create or patch each rule of a list: the ruleset in the end and the new IDs. *)
Fixpoint apply_rules (zone : string) (known : gmap string string) (rules : list (string * string)) (rsID : string) (new : gmap string string) : zio (string * gmap string string) :=
  match rules with
  | [] => mret (rsID, new)
  | (desc, expr) :: rules =>
    match known !! desc with
    | Some ruleID =>
      _ ← patchRule (baseURL e) (action e) id zone rsID ruleID desc expr;
      apply_rules zone known rules rsID (<[desc := ruleID]> new)
    | None =>
      if negb (bool_decide (rsID = EmptyString)) then
        ruleID ← createRule (baseURL e) (action e) id zone rsID desc expr;
        _ ← upd zone (with_ruleIDs (<[desc := ruleID]>));
        apply_rules zone known rules rsID (<[desc := ruleID]> new)
      else
        p ← createRulesetWithRule (baseURL e) (action e) id zone desc expr;
        _ ← upd zone (λ z, MkZone (discovered z) p.1 (<[desc := p.2]> (ruleIDs z)) (ips z) (timer z));
        apply_rules zone known rules p.1 (<[desc := p.2]> new)
    end
  end.

(** What the zone holds, asked once per run of the daemon. *)
Definition known_rules (zone : string) (z : zoneState) : zio (string * gmap string string) :=
  if discovered z then mret (rulesetID z, ruleIDs z)
  else p ← discoverZone (baseURL e) id zone;
       _ ← upd zone (λ z, if discovered z then z else MkZone true p.1 (p.2 ∪ ruleIDs z) (ips z) (timer z));
       zs ← get_st;
       let z' := zone_of zs zone in
       mret (rulesetID z', ruleIDs z' ∪ ruleIDs z).

Definition desired_rules (exprs : list string) : gmap string string :=
  foldl (λ m p, <[p.1 := p.2]> m) ∅ (imap (λ i expr, (ruleDesc i, expr)) exprs).

Definition pushZone (zone : string) : zio unit :=
  zs ← get_st;
  let z := zone_of zs zone in
  p ← known_rules zone z;
  let exprs := buildExpressions (exprMax e) (ips z) in
  if bool_decide (exprs = []) then
    rules ← lift (λ s, (in_order s p.2, s));
    delete_all zone p.1 rules
  else
    rules ← lift (λ s, (in_order s (desired_rules exprs), s));
    q ← apply_rules zone p.2 rules p.1 ∅;
    old ← lift (λ s, (in_order s p.2, s));
    _ ← delete_obsolete zone q.1 (desired_rules exprs) old;
    upd zone (with_ruleIDs (λ _, q.2)).

(** A push, or a timer that pushes when it fires. *)
Definition scheduleFlush (zone : string) : zio unit :=
  if debounceInterval e =? 0 then pushZone zone else upd zone (with_timer true).
(** The timer of a zone fires; [down] when the service is stopping. *)
Definition fire_timer (down : bool) (zone : string) : zio unit :=
  zs ← get_st;
  if negb (timer (zone_of zs zone)) then mret tt
  else _ ← upd zone (with_timer false); if down then mret tt else _ ← try (pushZone zone); mret tt.

(** [f] on every zone in turn, up to the first failure. *)
Fixpoint each_zone (op : string) (f : string → zio unit) (zones : list string) : zio unit :=
  match zones with
  | [] => mret tt
  | zone :: zones => _ ← wrap ("enforce/cloudflare " +:+ op +:+ " zone " +:+ zone) (f zone); each_zone op f zones
  end.

Definition no_key : goerr := EText "target must have IP or Prefix set (ASN/Country not supported by nftables enforcer)".

Definition Ban (t : Target) : zio unit :=
  if targetOverlapsAllowlist t (allowlist e)
  then fail (EText ("enforce/cloudflare: refusing to ban allowlisted target " +:+ default EmptyString (targetKey t)))
  else match targetKey t with
       | None => fail (wrapf "enforce/cloudflare Ban" no_key)
       | Some ip => each_zone "Ban" (λ zone, _ ← upd zone (with_ips (union {[ip]})); scheduleFlush zone) (zoneIDs e)
       end.

Definition Unban (t : Target) : zio unit :=
  match targetKey t with
  | None => fail (wrapf "enforce/cloudflare Unban" no_key)
  | Some ip => each_zone "Unban" (λ zone, _ ← upd zone (with_ips (λ s, s ∖ {[ip]})); scheduleFlush zone) (zoneIDs e)
  end.

Definition Sync (want : list Target) : zio unit :=
  each_zone "Sync" (λ zone, _ ← upd zone (λ z, with_timer false (with_ips (λ _, want_set (allowlist e) want) z)); pushZone zone) (zoneIDs e).
End enforcer.

(** ** The expressions *)
Definition expr_of (c : list string) : string := expr_prefix +:+ Join c " " +:+ expr_suffix.

Lemma Join_snoc c ip : c ≠ [] → Join (c ++ [ip]) " " = Join c " " +:+ " " +:+ ip.
Proof.
  induction c as [|x [|y c] IH]; [done|done|]. intros _.
  change ((x :: y :: c) ++ [ip]) with (x :: (y :: c) ++ [ip]). rewrite Join_cons by done. rewrite IH by done.
  rewrite (Join_cons x (y :: c)) by done. by rewrite !str_app_assoc.
Qed.

Section build.
Context (limit : nat).

(** A chunk may only be too long when it holds a single address. *)
Definition chunk_fits (c : list string) : Prop := (str_len (expr_of c) ≤ limit)%nat ∨ ∃ ip, c = [ip].

(** Two neighbours are split only where the next address does not fit. *)
Fixpoint split_needed (chunks : list (list string)) : Prop :=
  match chunks with
  | c :: (((ip :: _) :: _) as rest) => (limit < str_len (expr_of (c ++ [ip])))%nat ∧ split_needed rest
  | _ => True
  end.

Lemma build_chunks l c : c ≠ [] → chunk_fits c → ∃ ch chs, c ++ l = ch ++ concat chs ∧ (∃ d, ch = c ++ d) ∧
  build limit l (expr_prefix +:+ Join c " ") false = expr_of <$> ch :: chs ∧
  Forall (λ c, c ≠ []) (ch :: chs) ∧ Forall chunk_fits (ch :: chs) ∧ split_needed (ch :: chs).
Proof.
  revert c. induction l as [|ip l IH]; intros c Hc Hf.
  - exists c, []. cbn [concat split_needed]. rewrite !app_nil_r. split; [done|]. split; [exists []; by rewrite app_nil_r|].
    split; [|by rewrite !Forall_singleton]. cbn [build]. cbn [fmap list_fmap]. unfold expr_of. by rewrite str_app_assoc.
  - cbn [build negb andb]. destruct (Nat.ltb_spec limit (str_len (expr_prefix +:+ Join c " ") + (str_len ip + 1) + str_len expr_suffix)) as [Hl|Hl].
    + destruct (IH [ip]) as (ch & chs & Hcat & [d ->] & Hb & Hne & Hfit & Hsplit); [done|right; by eexists|].
      exists c, (([ip] ++ d) :: chs). split_and!.
      * cbn [concat]. by rewrite <- Hcat.
      * exists []. by rewrite app_nil_r.
      * cbn [Join] in Hb. rewrite Hb. cbn [fmap list_fmap]. done.
      * by constructor.
      * by constructor.
      * cbn [split_needed app]. split; [|done]. unfold expr_of. rewrite Join_snoc by done.
        rewrite !str_length_app in *. simpl in *. lia.
    + destruct (IH (c ++ [ip])) as (ch & chs & Hcat & [d ->] & Hb & Hrest); [by destruct c| |].
      { left. unfold expr_of. rewrite Join_snoc by done. rewrite !str_length_app in *. simpl in *. lia. }
      exists ((c ++ [ip]) ++ d), chs. split_and!; [by rewrite <- Hcat, <- app_assoc|exists ([ip] ++ d); by rewrite <- app_assoc| |apply Hrest..].
      rewrite <- Hb. rewrite Join_snoc by done. by rewrite !str_app_assoc.
Qed.
End build.

(** The blocklist is split into expressions without losing an address: the expressions hold, in byte order, exactly the banned addresses; each is at most the limit long (3900 bytes unless configured) or holds one address, and one begins only where the address no longer fits the one before. *)
Theorem expressions_split (m : nat) (ips : gset string) : ∃ chunks,
  buildExpressions m ips = expr_of <$> chunks ∧ concat chunks = merge_sort String.le (elements ips) ∧
  Forall (λ c, c ≠ [] ∧ chunk_fits (expr_limit m) c) chunks ∧ split_needed (expr_limit m) chunks.
Proof.
  unfold buildExpressions. case_bool_decide as Hi.
  { exists []. rewrite Hi, elements_empty. by repeat constructor. }
  destruct (merge_sort String.le (elements ips)) as [|ip l] eqn:E.
  { pose proof (merge_sort_Permutation String.le (elements ips)) as Hp. rewrite E in Hp. apply Permutation_nil_l in Hp. symmetry in Hp. apply elements_empty_inv in Hp. set_solver. }
  cbn [build negb andb]. destruct (build_chunks (expr_limit m) l [ip]) as (ch & chs & Hcat & _ & Hb & Hne & Hf & Hs); [done|right; by eexists|].
  exists (ch :: chs). split_and!; [exact Hb|symmetry; exact Hcat|by apply Forall_and|done].
Qed.

(** ** Descriptions *)
Lemma show_Z_nonempty n : 0 <= n → show_Z n ≠ EmptyString.
Proof. intros Hn E. destruct (show_Z_parse n Hn) as [Hp _]. rewrite E in Hp. injection Hp as <-. done. Qed.

Lemma ruleDesc_managed i : isEzyshieldDesc (ruleDesc i) = true.
Proof.
  unfold ruleDesc. case_bool_decide as Hi; [done|]. unfold isEzyshieldDesc. case_bool_decide; [done|]. rewrite <- str_app_assoc. rewrite has_prefix_app. cbn [negb].
  change (str_len cfDescBase + 1)%nat with (str_len (cfDescBase +:+ "-")). rewrite str_drop_app.
  rewrite bool_decide_eq_false_2 by (apply show_Z_nonempty; lia). apply show_Z_parse. lia.
Qed.

Lemma ruleDesc_inj : Inj (=) (=) ruleDesc.
Proof.
  intros i j. unfold ruleDesc. do 2 case_bool_decide; subst; try done. rewrite <- !str_app_assoc.
  intros E%str_app_inj. destruct (show_Z_parse (Z.of_nat i + 1)) as [Hi _]; [lia|].
  destruct (show_Z_parse (Z.of_nat j + 1)) as [Hj _]; [lia|]. rewrite E, Hj in Hi. injection Hi. lia.
Qed.

(** * What the per-zone Cloudflare enforcer may send, whatever the API answers:
    it changes and deletes only rules it named itself, and every rule it writes
    is an expression of the zone's blocklist. *)
(** ** Operations *)
Inductive op := OBan (t : Target) | OUnban (t : Target) | OSync (want : list Target) | OTimer (down : bool) (zone : string).

Section run.
Context {S : Type} `{Net S} `{ZoneAPI S} (e : CloudflareEnforcer).

Definition run_op (o : op) : io (gmap string zoneState) zone_event S unit :=
  match o with
  | OBan t => Ban e t
  | OUnban t => Unban e t
  | OSync want => Sync e want
  | OTimer down zone => fire_timer e down zone
  end.

Definition start (s : S) : world (gmap string zoneState) zone_event S := MkWorld ∅ s [].
Definition run_ops (ops : list op) (w : world (gmap string zoneState) zone_event S) : world (gmap string zoneState) zone_event S :=
  foldl (λ w o, (run_op o w).2) w ops.
End run.

(** The blocklist an operation means a zone to have. *)
Definition intended (e : CloudflareEnforcer) (o : op) (old : gset string) : gset string :=
  match o with
  | OBan t => if targetOverlapsAllowlist t (allowlist e) then old
              else match targetKey t with Some k => {[k]} ∪ old | None => old end
  | OUnban t => match targetKey t with Some k => old ∖ {[k]} | None => old end
  | OSync want => want_set (allowlist e) want
  | OTimer _ _ => old
  end.

(** ** Rules the enforcer may touch *)

(** An answer named rule [id] of [zone], and its description is one of ours. *)
Definition names (zone desc id : string) (ev : zone_event) : Prop :=
  match ev with
  | GotRuleset z _ (Resp _ _ (inr r)) => z = zone ∧ Success r = true ∧ isEzyshieldDesc desc = true ∧
      ∃ ru, ru ∈ rd_Rules (Result r) ∧ ru_Description ru = desc ∧ ru_ID ru = id
  | PostedRule z _ q (Resp _ _ (inr r)) => z = zone ∧ Success r = true ∧ rq_Description q = desc ∧ ru_ID <$> Result r = Some id
  | PostedRuleset z q (Resp _ _ (inr r)) => z = zone ∧ Success r = true ∧ rq_Description <$> cr_Rules q = [desc] ∧
      ru_ID <$> head (rd_Rules (Result r)) = Some id
  | _ => False
  end.
Definition managed (l : list zone_event) (zone desc id : string) : Prop := ∃ ev, ev ∈ l ∧ names zone desc id ev.

Lemma managed_cons ev l zone desc id : managed l zone desc id → managed (ev :: l) zone desc id.
Proof. intros (v & Hv & Hn). exists v. split; [by right|done]. Qed.
#[export] Hint Resolve managed_cons : ezy.

(** The rules of a list of expressions. *)
Lemma foldl_insert_Some {A} (l : list (string * A)) (m : gmap string A) k v :
  foldl (λ m p, <[p.1 := p.2]> m) m l !! k = Some v → (k, v) ∈ l ∨ m !! k = Some v.
Proof.
  revert m. induction l as [|[k' v'] l IH]; intros m; [by right|]. cbn. intros [Hl|Hm]%IH; [left; by right|].
  destruct (decide (k' = k)) as [->|Hne]; [|rewrite lookup_insert_ne in Hm by done; by right].
  rewrite lookup_insert_eq in Hm. injection Hm as ->. left. by left.
Qed.
Lemma foldl_insert_None {A} (l : list (string * A)) (m : gmap string A) k :
  foldl (λ m p, <[p.1 := p.2]> m) m l !! k = None → k ∉ l.*1 ∧ m !! k = None.
Proof.
  revert m. induction l as [|[k' v'] l IH]; intros m; [split; [apply not_elem_of_nil|done]|]. cbn. intros [Hl Hm]%IH.
  apply lookup_insert_None in Hm as [Hm Hne]. split; [|done]. by rewrite not_elem_of_cons.
Qed.

Section safe.
Context (e : CloudflareEnforcer) (D : string → gset string).

Definition wanted (zone : string) : list (string * string) := imap (λ i x, (ruleDesc i, x)) (buildExpressions (exprMax e) (D zone)).
Definition right_rule (zone : string) (q : cfRuleReq) : Prop :=
  rq_Action q = action e ∧ (rq_Description q, rq_Expression q) ∈ wanted zone.

(** An event is right after [l] when it reads, writes a wanted rule, or deletes an own rule that is not wanted. *)
Definition right_event (l : list zone_event) (ev : zone_event) : Prop :=
  match ev with
  | GotRulesets _ _ | GotRuleset _ _ _ => True
  | PostedRuleset z q _ => ∃ r, cr_Rules q = [r] ∧ right_rule z r
  | PostedRule z _ q _ => right_rule z q
  | PatchedRule z _ id q _ => managed l z (rq_Description q) id ∧ right_rule z q
  | DeletedRule z _ id _ => ∃ desc, managed l z desc id ∧ desc ∉ (wanted z).*1
  end.

Section push.
Context {S : Type} `{Net S} `{ZoneAPI S} (l0 : list zone_event) (Y : string → gset string).
#[local] Notation zio := (io (gmap string zoneState) zone_event S).

(** Between two requests: every remembered rule is ours, the blocklists stand, the log is right. *)
Definition inv (t : gmap string zoneState) (l : list zone_event) : Prop :=
  ∀ zone desc id, ruleIDs (zone_of t zone) !! desc = Some id → managed l zone desc id.
Definition K (t : gmap string zoneState) (l : list zone_event) : Prop :=
  inv t l ∧ (∀ z, ips (zone_of t z) = Y z) ∧ grows right_event l0 l.
Definition knows (zone : string) (known : gmap string string) (l : list zone_event) : Prop :=
  ∀ desc id, known !! desc = Some id → managed l zone desc id.

Lemma zone_knows_cons zone known ev l : knows zone known l → knows zone known (ev :: l).
Proof. intros Hk desc id Hd. by apply managed_cons, Hk. Qed.

Lemma K_cons t l ev : K t l → right_event l ev → K t (ev :: l).
Proof.
  intros (Hi & Hy & Hg) Hok. split_and!; [|done|by constructor]. intros zone desc id Hd. by apply managed_cons, Hi.
Qed.

(** A call whose event is right keeps what is known, and its answer joins the log. *)
Lemma triple_call {A} verb url op api (call : S → reply (cfResp A) * S) (ev : reply (cfResp A) → zone_event)
    (G : gmap string zoneState → list zone_event → Prop) :
  (∀ t l r, G t l → K t l ∧ right_event l (ev r) ∧ G t (ev r :: l)) →
  triple (on G) (simple_call verb url op api call ev : zio A) (λ res w,
    match res with
    | Ok a => ∃ status ra r, on (λ t l, G t l ∧ ev (Resp status ra (inr r)) ∈ l) w ∧ Success r = true ∧ Result r = a
    | Err _ => on G w
    end).
Proof.
  intros HG. eapply triple_conseq; [apply (triple_simple_call _ _ _ _ _ _ G (λ r t l, G t l ∧ ev r ∈ l))|done|].
  - intros t l r Hg. split; [by apply (HG t l r)|left].
  - intros [a|x] w; [done|]. intros [?|[? [? _]]]; done.
Qed.

Lemma upd_zone zone f t z : zone_of (<[zone := f (zone_of t zone)]> t) z = if decide (z = zone) then f (zone_of t z) else zone_of t z.
Proof. unfold zone_of at 1. case_decide; [subst; by rewrite lookup_insert_eq|by rewrite lookup_insert_ne]. Qed.

(** Changes of a zone that keep its blocklist and only learn own rules. *)
Lemma K_upd zone f t l : K t l → (∀ z, ips (f z) = ips z) →
  (∀ desc id, ruleIDs (f (zone_of t zone)) !! desc = Some id → managed l zone desc id) → K (<[zone := f (zone_of t zone)]> t) l.
Proof.
  intros (Hi & Hy & Hg) Hf Hl. split_and!; [| |done].
  - intros z desc id. rewrite upd_zone. case_decide as Hz; [subst; apply Hl|apply Hi].
  - intros z. rewrite upd_zone. case_decide; [|apply Hy]. by rewrite Hf.
Qed.

Lemma zone_discover_K zone (G : list zone_event → Prop) : (∀ ev l, G l → G (ev :: l)) →
  triple (on (λ t l, K t l ∧ G l)) (discoverZone (baseURL e) id zone : zio _) (λ res w,
    match res with
    | Ok p => on (λ t l, (K t l ∧ G l) ∧ knows zone p.2 l) w
    | Err _ => on (λ t l, K t l ∧ G l) w
    end).
Proof.
  intros HG. unfold discoverZone, discover_rules.
  assert (∀ {A} (ev : reply (cfResp A) → zone_event) (R : list zone_event → Prop), (∀ l r, right_event l (ev r)) → (∀ ev l, R l → R (ev :: l)) →
    ∀ t l r, K t l ∧ R l → K t l ∧ right_event l (ev r) ∧ K t (ev r :: l) ∧ R (ev r :: l)) as Hstep.
  { intros A ev R Hr HR t l r [Hk Hl]. split_and!; [done|apply Hr|by apply K_cons|by apply HR]. }
  eapply (triple_bind _ _ _ (λ res w, match res with
    | Ok p => on (λ t l, (K t l ∧ G l) ∧ (p.2 = [] ∨ ∃ rs status ra r, GotRuleset zone rs (Resp status ra (inr r)) ∈ l ∧ Success r = true ∧ rd_Rules (Result r) = p.2)) w
    | Err _ => on (λ t l, K t l ∧ G l) w end)); [| |done].
  - eapply triple_bind; [apply (triple_call _ _ _ _ _ _ (λ t l, K t l ∧ G l)), Hstep; [intros; exact I|exact HG]| |done]. intros sets. cbn.
    set (rs := match List.find _ _ with Some _ => _ | None => _ end). case_bool_decide.
    { apply triple_ret. intros w (? & ? & ? & [Hk _] & _). split; [done|by left]. }
    eapply triple_bind; [eapply triple_conseq; [apply (triple_call _ _ _ _ _ _ (λ t l, K t l ∧ G l)), Hstep; [intros; exact I|exact HG]| |intros r w Hr; exact Hr]| |].
    + intros w (? & ? & ? & [Hk _] & _). exact Hk.
    + intros d. apply triple_ret.
      intros w (status & ra & r & [Hk Hin] & Hs & <-). split; [exact Hk|]. right. by exists rs, status, ra, r.
    + intros x w Hk. exact Hk.
  - intros [rs rules]. apply triple_ret. intros w [Hk Hr]. split; [done|]. cbn in Hr |- *.
    assert (∀ m, knows zone m (sent w) → (∀ ru, ru ∈ rules → isEzyshieldDesc (ru_Description ru) = true → managed (sent w) zone (ru_Description ru) (ru_ID ru)) →
      knows zone (foldl (λ m r, if isEzyshieldDesc (ru_Description r) then <[ru_Description r := ru_ID r]> m else m) m rules) (sent w)) as Hfold.
    { clear. induction rules as [|ru rules IH]; intros m Hm Hr; [done|]. cbn [foldl]. apply IH; [|intros; apply Hr; [by right|done]].
      destruct (isEzyshieldDesc (ru_Description ru)) eqn:E; [|done]. intros desc id.
      destruct (decide (ru_Description ru = desc)) as [<-|Hne]; [rewrite lookup_insert_eq|rewrite lookup_insert_ne by done; apply Hm].
      intros [= <-]. apply Hr; [by left|done]. }
    apply Hfold; [intros desc id; by rewrite lookup_empty|].
    intros ru Hin Hd. destruct Hr as [->|(rs' & status & ra & r & Hev & Hs & <-)]; [by apply elem_of_nil in Hin|].
    eexists. split; [exact Hev|]. cbn. split_and!; [done..|]. by exists ru.
Qed.
(** In the middle of a push: the rules known before it and the ones it goes on with are ours. *)
Section middle.
Context (zone : string) (known : gmap string string).
Definition F (new : gmap string string) (t : gmap string zoneState) (l : list zone_event) : Prop :=
  K t l ∧ knows zone known l ∧ knows zone new l.

Lemma F_step new t l ev : F new t l → right_event l ev → F new t l ∧ K t l ∧ right_event l ev ∧ F new t (ev :: l).
Proof.
  intros HF Hok. pose proof HF as (HK & Hk & Hn). split; [exact HF|]. split; [exact HK|]. split; [exact Hok|].
  split; [by apply K_cons|]. split; by apply zone_knows_cons.
Qed.

Lemma F_learn new desc id t l : F new t l → managed l zone desc id → F (<[desc := id]> new) t l.
Proof.
  intros (HK & Hk & Hn) Hm. split_and!; [done..|]. intros d i.
  destruct (decide (d = desc)) as [->|Hne]; [rewrite lookup_insert_eq; by intros [= <-]|rewrite lookup_insert_ne by done; apply Hn].
Qed.

Lemma F_upd new desc id f t l : F new t l → managed l zone desc id → (∀ z, ips (f z) = ips z) → (∀ z, ruleIDs (f z) = <[desc := id]> (ruleIDs z)) →
  F (<[desc := id]> new) (<[zone := f (zone_of t zone)]> t) l.
Proof.
  intros HF Hm Hf Hr. apply F_learn; [|done]. destruct HF as (HK & Hk & Hn). split; [|done].
  apply K_upd; [done..|]. intros d i. rewrite Hr.
  destruct (decide (d = desc)) as [->|Hne]; [rewrite lookup_insert_eq; by intros [= <-]|rewrite lookup_insert_ne by done; apply HK].
Qed.

(** A call of the push whose event is right; [Q] is what its answer gives. *)
Lemma F_call {A B} verb url op api (call : S → reply (cfResp A) * S) (ev : reply (cfResp A) → zone_event) (k : A → zio B) new
    (Q : result goerr B → gmap string zoneState → list zone_event → Prop) :
  (∀ t l r, F new t l → right_event l (ev r)) → (∀ x t l, F new t l → Q (Err x) t l) →
  (∀ a, triple (λ w, ∃ status ra r, on (λ t l, F new t l ∧ ev (Resp status ra (inr r)) ∈ l) w ∧ Success r = true ∧ Result r = a) (k a) (λ res, on (Q res))) →
  triple (on (F new)) (a ← simple_call verb url op api call ev; k a) (λ res, on (Q res)).
Proof.
  intros Hok He Hk. eapply triple_bind; [apply (triple_call _ _ _ _ _ _ (F new))|exact Hk|].
  - intros t l r HF. destruct (F_step new t l (ev r) HF) as (_ & ? & ? & ?); [by eapply Hok|done].
  - intros x w HF. by apply He.
Qed.

Lemma patch_F rs id desc expr new : known !! desc = Some id → (desc, expr) ∈ wanted zone →
  triple (on (F new)) (patchRule (baseURL e) (action e) Datatypes.id zone rs id desc expr : zio _)
    (λ res, on (match res with Ok _ => F (<[desc := id]> new) | Err _ => K end)).
Proof.
  intros Hk Hw. apply F_call.
  - intros t l r (_ & Hn & _). split; [by apply Hn|done].
  - by intros x t l [? _].
  - intros a. apply triple_ret. intros w (? & ? & ? & [HF _] & _). apply F_learn; [done|]. destruct HF as (_ & Hn & _). by apply Hn.
Qed.

Lemma delete_F rs id desc new : known !! desc = Some id → desc ∉ (wanted zone).*1 →
  triple (on (F new)) (delete_rule e zone rs id : zio _) (λ res, on (F new)).
Proof.
  intros Hk Hw. apply (F_call _ _ _ _ _ _ _ _ (λ _, F new)).
  - intros t l r (_ & Hn & _). exists desc. split; [by apply Hn|done].
  - done.
  - intros a. apply triple_ret. by intros w (? & ? & ? & [HF _] & _).
Qed.

Lemma create_F rs desc expr new : (desc, expr) ∈ wanted zone →
  triple (on (F new)) (createRule (baseURL e) (action e) Datatypes.id zone rs desc expr : zio _)
    (λ res, on (λ t l, match res with Ok id => F new t l ∧ managed l zone desc id | Err _ => K t l end)).
Proof.
  intros Hw. apply (F_call _ _ _ _ _ _ _ _ (λ res t l, match res with Ok id => F new t l ∧ managed l zone desc id | Err _ => K t l end)).
  - done.
  - by intros x t l [? _].
  - intros [r|]; [apply triple_ret|apply triple_fail]; intros w (status & ra & rsp & [HF Hin] & Hs & Hr); [|by destruct HF].
    split; [done|]. eexists. split; [exact Hin|]. cbn. by rewrite Hr.
Qed.

Lemma create_ruleset_F desc expr new : (desc, expr) ∈ wanted zone →
  triple (on (F new)) (createRulesetWithRule (baseURL e) (action e) Datatypes.id zone desc expr : zio _)
    (λ res, on (λ t l, match res with Ok p => F new t l ∧ managed l zone desc p.2 | Err _ => K t l end)).
Proof.
  intros Hw. apply (F_call _ _ _ _ _ _ _ _ (λ res t l, match res with Ok p => F new t l ∧ managed l zone desc p.2 | Err _ => K t l end)).
  - intros t l r _. eexists. split; [done|]. done.
  - by intros x t l [? _].
  - intros d. destruct (rd_Rules d) as [|r rs] eqn:E; [apply triple_fail|apply triple_ret]; intros w (status & ra & rsp & [HF Hin] & Hs & Hr); [by destruct HF|].
    split; [done|]. eexists. split; [exact Hin|]. cbn. by rewrite Hr, E.
Qed.

Lemma apply_F rules : Forall (.∈ wanted zone) rules → ∀ rs new,
  triple (on (F new)) (apply_rules e zone known rules rs new : zio _)
    (λ res, on (match res with Ok q => F q.2 | Err _ => K end)).
Proof.
  induction rules as [|[desc expr] rules IH]; intros Hr rs new; [by apply triple_ret|]. apply Forall_cons_1 in Hr as [Hd Hr].
  cbn [apply_rules]. destruct (known !! desc) as [id|] eqn:Hk; [|destruct (negb _)].
  - eapply triple_bind; [by apply patch_F|intros []; by apply IH|done].
  - eapply triple_bind; [by apply create_F| |done]. intros id. cbn.
    eapply (triple_bind _ _ _ (λ _, on (F (<[desc := id]> new)))); [|intros []; by apply IH|by intros x w [? _]].
    intros w [HF Hm]. by apply F_upd.
  - eapply triple_bind; [by apply create_ruleset_F| |done]. intros p. cbn.
    eapply (triple_bind _ _ _ (λ _, on (F (<[desc := p.2]> new)))); [|intros []; by apply IH|by intros x w [? _]].
    intros w [HF Hm]. by apply F_upd.
Qed.

Lemma obsolete_F desired rules rs new : Forall (λ p, known !! p.1 = Some p.2) rules → (∀ desc, desired !! desc = None → desc ∉ (wanted zone).*1) →
  triple (on (F new)) (delete_obsolete e zone rs desired rules : zio _) (λ _, on (F new)).
Proof.
  intros Hr Hw. induction rules as [|[desc id] rules IH]; [by apply triple_ret|]. apply Forall_cons_1 in Hr as [Hd Hr].
  cbn [delete_obsolete]. apply (triple_bind _ _ _ (λ _, on (F new))); [|intros []; by apply IH|by intros x w HF; exact HF].
  case_bool_decide as Hs; [by apply triple_ret|]. apply (delete_F _ _ desc); [done|]. apply Hw. by apply eq_None_not_Some.
Qed.

Lemma delete_all_F rules rs new : wanted zone = [] → Forall (λ p, known !! p.1 = Some p.2) rules →
  triple (on (F new)) (delete_all e zone rs rules : zio _) (λ _, on (F new)).
Proof.
  intros Hw Hr. induction rules as [|[desc id] rules IH]; [by apply triple_ret|]. apply Forall_cons_1 in Hr as [Hd Hr].
  cbn [delete_all]. eapply triple_bind; [apply (delete_F _ _ desc); [done|]; by rewrite Hw; apply not_elem_of_nil|intros []|by intros x w HF; exact HF].
  eapply (triple_bind _ _ _ (λ _, on (F new))); [|intros []; by apply IH|done].
  intros w (HK & Hk & Hn). split; [|done]. apply K_upd; [done..|]. intros d i. cbn. intros [_ Hl]%lookup_delete_Some. by apply HK.
Qed.
End middle.

Lemma known_F zone z :
  triple (on (λ t l, K t l ∧ zone_of t zone = z)) (known_rules e zone z : zio _)
    (λ res, on (λ t l, match res with Ok p => F zone p.2 ∅ t l | Err _ => K t l end)).
Proof.
  assert (∀ l, knows zone ∅ l) as He by (intros l desc id; by rewrite lookup_empty).
  assert (∀ m m' l, knows zone m l → knows zone m' l → knows zone (m ∪ m') l) as Hu.
  { intros m m' l Hm Hm' desc id [?|[_ ?]]%lookup_union_Some_raw; auto. }
  unfold known_rules. destruct (discovered z).
  { apply triple_ret. intros w [HK <-]. split; [done|]. split; [|done]. intros desc id. apply HK. }
  eapply triple_bind; [eapply triple_conseq; [apply (zone_discover_K zone (knows zone (ruleIDs z))); auto using zone_knows_cons| |intros r w Hr; exact Hr]| |by intros x w [? _]].
  { intros w [HK <-]. split; [done|]. intros desc id. apply HK. }
  intros p. cbn. apply (triple_bind _ _ _ (λ _, on (λ t l, K t l ∧ knows zone (ruleIDs z) l))); [| |by intros x w [? _]].
  - intros w [[HK Hz] Hp]. split; [|done]. apply K_upd; [done|by intros z'; destruct (discovered z')|].
    destruct (discovered _); intros desc id; [apply HK|]. apply (Hu p.2); [done|]. intros d i. apply HK.
  - intros [] w [HK Hz]. split; [done|]. split; [|done]. apply Hu; [|done]. intros desc id. apply HK.
Qed.

Lemma zone_push_K zone : Y zone = D zone → triple (on K) (pushZone e zone : zio _) (λ _, on K).
Proof.
  intros HY. unfold pushZone. apply triple_pre. intros w0 HK0.
  apply (triple_bind _ _ _ (λ res w, res = Ok (st w0) ∧ w = w0)); [by intros w ->| |by intros x w [? _]].
  intros t. apply triple_pre. intros w [[= ->] ->]. set (z := zone_of (st w0) zone).
  assert (imap (λ i x, (ruleDesc i, x)) (buildExpressions (exprMax e) (ips z)) = wanted zone) as Hz.
  { unfold wanted. rewrite <- HY. by destruct HK0 as (_ & <- & _). }
  eapply triple_bind; [eapply triple_conseq; [apply (known_F zone z)|by intros w ->|intros r w Hr; exact Hr]| |done].
  intros p. cbn. case_bool_decide as Hx.
  - assert (wanted zone = []) as Hw by (by rewrite <- Hz, Hx).
    eapply triple_bind; [apply (quiet_read (λ s, in_order s p.2) (on (F zone p.2 ∅))), quiet_on| |by intros x w [_ [? [=]]]].
    intros rules. apply triple_pre. intros w [HF [s [= ->]]].
    eapply triple_conseq; [apply (delete_all_F zone p.2 _ p.1 ∅ Hw)|by intros ? ->|by intros r ? [? _]].
    apply Forall_forall. by intros [d i] Hd%in_order_elem.
  - 
    assert (∀ desc expr, desired_rules (buildExpressions (exprMax e) (ips z)) !! desc = Some expr → (desc, expr) ∈ wanted zone) as Hd.
    { intros desc expr Hd. unfold desired_rules in Hd. rewrite Hz in Hd. apply foldl_insert_Some in Hd as [?|Hd]; [done|]. by rewrite lookup_empty in Hd. }
    eapply triple_bind; [apply (quiet_read (λ s, in_order s (desired_rules (buildExpressions (exprMax e) (ips z)))) (on (F zone p.2 ∅))), quiet_on| |by intros x w [_ [? [=]]]].
    intros rules. apply triple_pre. intros w [HF [s [= ->]]].
    eapply triple_bind; [eapply triple_conseq; [apply (apply_F zone p.2)|by intros ? ->|intros r ? Hr; exact Hr]| |done].
    { apply Forall_forall. intros [desc expr] Hin%in_order_elem. by apply Hd. }
    intros q. cbn.
    eapply triple_bind; [apply (quiet_read (λ s, in_order s p.2) (on (F zone p.2 q.2))), quiet_on| |by intros x ? [_ [? [=]]]].
    intros old. apply triple_pre. intros w1 [HF1 [s1 [= ->]]].
    apply (triple_bind _ _ _ (λ _, on (F zone p.2 q.2))); [|intros []|by intros x ? [? _]].
    + eapply triple_conseq; [apply (obsolete_F zone p.2)|by intros ? ->|done].
      * apply Forall_forall. by intros [d i] Hi%in_order_elem.
      * intros desc Hn. unfold desired_rules in Hn. rewrite Hz in Hn. by apply foldl_insert_None in Hn as [? _].
    + intros w2 (HK & _ & Hq). apply K_upd; [done..|]. intros desc id. apply Hq.
Qed.
End push.
End safe.

(** ** The operations

    An operation applies [f] to the blocklist of the zones it has reached. *)
Section ops.
Context {S : Type} `{Net S} `{ZoneAPI S} (e : CloudflareEnforcer) (f : gset string → gset string) (Y : string → gset string) (l0 : list zone_event).
Context (Hf : ∀ s, f (f s) = f s).
#[local] Notation zio := (io (gmap string zoneState) zone_event S).
#[local] Notation D := (λ z, f (Y z)).

Definition M (t : gmap string zoneState) (l : list zone_event) : Prop :=
  inv t l ∧ grows (right_event e D) l0 l ∧ ∀ z, ips (zone_of t z) = Y z ∨ ips (zone_of t z) = D z.

Lemma M_push zone : triple (on (λ t l, M t l ∧ ips (zone_of t zone) = D zone)) (pushZone e zone : zio _) (λ _, on M).
Proof.
  intros w [(Hi & Hg & Hy) Hz].
  destruct (zone_push_K e D l0 (λ z, ips (zone_of (st w) z)) zone Hz w) as (Hi' & Hy' & Hg'); [by split_and!|].
  split; [done|]. split; [done|]. intros z. rewrite Hy'. apply Hy.
Qed.

Lemma M_upd zone g (k : zio unit) : (∀ z, ips (g z) = f (ips z)) → (∀ z, ruleIDs (g z) = ruleIDs z) →
  triple (on (λ t l, M t l ∧ ips (zone_of t zone) = D zone)) k (λ _, on M) →
  triple (on M) (_ ← upd zone g; k) (λ _, on M).
Proof.
  intros Hg Hr Hk. apply (triple_bind _ _ _ (λ _, on (λ t l, M t l ∧ ips (zone_of t zone) = D zone))); [|intros []; exact Hk|by intros x w [? _]].
  intros w (Hi & Hgr & Hy). assert (ips (g (zone_of (st w) zone)) = D zone) as Hz by (rewrite Hg; destruct (Hy zone) as [->| ->]; auto).
  split; [split; [|split; [done|]]|].
  - intros z desc id. cbn. rewrite upd_zone. case_decide; [subst; rewrite Hr|]; apply Hi.
  - intros z. cbn. rewrite upd_zone. case_decide; [subst; by right|apply Hy].
  - cbn. rewrite upd_zone. by rewrite decide_True.
Qed.

Lemma M_timer zone b : triple (on (λ t l, M t l ∧ ips (zone_of t zone) = D zone)) (upd zone (with_timer b) : zio _)
  (λ _, on (λ t l, M t l ∧ ips (zone_of t zone) = D zone)).
Proof.
  intros w [(Hi & Hgr & Hy) Hz]. split; [split; [|split; [done|]]|].
  - intros z desc id. cbn. rewrite upd_zone. case_decide; [subst|]; apply Hi.
  - intros z. cbn. rewrite upd_zone. case_decide; [subst|]; apply Hy.
  - cbn. rewrite upd_zone. by rewrite decide_True.
Qed.

Lemma M_flush zone : triple (on (λ t l, M t l ∧ ips (zone_of t zone) = D zone)) (scheduleFlush e zone : zio _) (λ _, on M).
Proof.
  unfold scheduleFlush. case_match; [apply M_push|]. eapply triple_conseq; [apply M_timer|done|by intros r w [? _]].
Qed.

Lemma M_each opname (h : string → zio unit) zones : (∀ zone, triple (on M) (h zone) (λ _, on M)) → triple (on M) (each_zone opname h zones) (λ _, on M).
Proof.
  intros Hh. induction zones as [|zone zones IH]; [by apply triple_ret|]. cbn [each_zone].
  apply (triple_bind _ _ _ (λ _, on M)); [|intros []; exact IH|done]. apply triple_wrap. apply Hh.
Qed.
End ops.

Section steps.
Context {S : Type} `{Net S} `{ZoneAPI S} (e : CloudflareEnforcer).

Lemma zone_op_step o (w : world (gmap string zoneState) zone_event S) : inv (st w) (sent w) →
  inv (st (run_op e o w).2) (sent (run_op e o w).2) ∧
  grows (right_event e (λ z, intended e o (ips (zone_of (st w) z)))) (sent w) (sent (run_op e o w).2).
Proof.
  intros Hi. set (Y := λ z, ips (zone_of (st w) z)).
  assert (∀ f, M e f Y (sent w) (st w) (sent w)) as HM by (intros f; split; [done|split; [constructor|by left]]).
  cut (triple (on (M e (intended e o) Y (sent w))) (run_op e o) (λ _, on (M e (intended e o) Y (sent w)))).
  { intros Ht. by destruct (Ht w (HM _)) as (? & ? & _). }
  destruct o as [t|t|want|down zone]; cbn [run_op].
  - unfold Ban. destruct (targetOverlapsAllowlist t (allowlist e)) eqn:Ea; [by apply triple_fail|].
    destruct (targetKey t) as [k|] eqn:Ek; [|by apply triple_fail].
    assert (∀ s, intended e (OBan t) s = {[k]} ∪ s) as HF by (intros s; cbn; by rewrite Ea, Ek).
    apply M_each. intros zone. apply M_upd; [intros s; rewrite !HF; set_solver|intros z; by rewrite HF|done|apply M_flush].
  - unfold Unban. destruct (targetKey t) as [k|] eqn:Ek; [|by apply triple_fail].
    assert (∀ s, intended e (OUnban t) s = s ∖ {[k]}) as HF by (intros s; cbn; by rewrite Ek).
    apply M_each. intros zone. apply M_upd; [intros s; rewrite !HF; set_solver|intros z; by rewrite HF|done|apply M_flush].
  - unfold Sync. apply M_each. intros zone. apply M_upd; [done..|apply M_push].
  - unfold fire_timer. change (intended e (OTimer down zone)) with (λ s : gset string, s).
    assert (∀ z, triple (on (M e (λ s, s) Y (sent w))) (_ ← upd z (with_timer false); if down then mret tt else _ ← try (pushZone e z); mret tt) (λ _, on (M e (λ s, s) Y (sent w)))) as Hz.
    { intros z. apply M_upd; [done..|]. destruct down; [apply triple_ret; by intros ? [? _]|].
      apply (triple_bind _ _ _ (λ _, on (M e (λ s, s) Y (sent w)))); [apply triple_try, M_push|intros a; by apply triple_ret|done]. }
    apply (triple_bind _ _ _ (λ _, on (M e (λ s, s) Y (sent w)))); [by intros ? ?|intros zs|done].
    destruct (negb _); [by apply triple_ret|apply Hz].
Qed.

Lemma zone_run_inv ops s : inv (st (run_ops e ops (start s))) (sent (run_ops e ops (start s))).
Proof.
  unfold run_ops. assert (inv (st (start s)) (sent (start s))) as H0' by (intros zone desc id; unfold zone_of; cbn; by rewrite !lookup_empty).
  revert H0'. generalize (start s) as w. induction ops as [|o ops IH]; intros w Hw; [done|]. cbn. apply IH. by apply zone_op_step.
Qed.
End steps.

(** C24. Whatever the Cloudflare API answers, the zone enforcer keeps to its own rules: after any history of operations, an operation changes only rules the API named under one of our descriptions, deletes only such rules that the zone's blocklist no longer needs, and creates or rewrites rules only as the expressions of the blocklist the operation asks for. *)
Theorem rules_own {S} `{Net S} `{ZoneAPI S} (e : CloudflareEnforcer) (s : S) (ops : list op) (o : op) :
  let w := run_ops e ops (start s) in
  grows (right_event e (λ z, intended e o (ips (zone_of (st w) z)))) (sent w) (sent (run_op e o w).2).
Proof. apply zone_op_step, zone_run_inv. Qed.
