(* ===== verification/CfLists.v ===== *)
(** The Cloudflare Lists enforcer ([internal/enforce/cloudflare_lists.go]): one
    account-level IP list shared by several instances, each of which adds, removes
    and remembers only the items that carry its own tag.

    The Lists API is the class [ListsAPI].  [pushMu] makes a push or a removal
    flush one step; the timers are fields that say whether one is pending, and
    their callbacks are operations. *)
From Stdlib Require Import Ascii.
From stdpp Require Import sorting.
From S2P Require Import Prelude GoStrings Netip Sdk NftClient Secrets Config EdgeNet CfRules.

(** ** Wire types *)
Record cfListInfo := MkListInfo { li_ID : string; li_Name : string; li_Kind : string; NumItems : Z }.
Record cfListItem := MkListItem { ID : string; IP : string; Comment : string }.
Record cfListItemsResp := MkItemsResp { it_Success : bool; it_Errors : list cfAPIError; it_Result : list cfListItem; After : string }.
Record cfCreateListReq := MkCreateList { cl_Name : string; cl_Kind : string; cl_Description : string }.
Record cfListItemReq := MkItemReq { q_IP : string; q_Comment : string }.
Record cfListAddResult := MkAddResult { OperationID : string; Items : list cfListItem }.
Record cfBulkOpResult := MkBulkOp { bo_ID : string; Status : string; Error : string }.

Definition cfListListsResp := cfResp (list cfListInfo).
Definition cfCreateListResp := cfResp (option cfListInfo).
Definition cfBulkOpResp := cfResp cfBulkOpResult.
(** The operation a bulk delete runs as. *)
Definition cfListDeleteResp := cfResp string.

(** The [result] of a bulk add decodes as an object with an operation, as an
    array of items, both or neither. *)
Record add_body := MkAddBody { as_object : option string; as_array : option (list cfListItem) }.
Definition UnmarshalJSON (data : add_body) : cfListAddResult :=
  let array := MkAddResult EmptyString (default [] (as_array data)) in
  match as_object data with
  | Some op => if bool_decide (op = EmptyString) then array else MkAddResult op []
  | None => array
  end.
Definition cfListAddResp := cfResp add_body.

Definition cfDefaultListName : string := "ezyshield_blocked".
Definition cfListItemTag : string := "ezyshield".
Definition cfListBatchMax : nat := 1000.
Definition cfListItemsPerPage : Z := 500.
Definition maxPages : nat := 50.
Definition cfBulkOpPollMax : nat := 30.
Definition cfBulkOpPollInterval : duration := Second.
Definition cfPageRetryDelays : list duration := [500 * Millisecond; 2 * Second].
Definition cfStaleRetryDelays : list duration := [5 * Second; 30 * Second; 2 * Minute; 10 * Minute].
Definition cfListRuleDescPattern : string := "ezyshield-list-block".

(** ** Ownership *)
Definition tag_char (a : ascii) : bool :=
  let n := nat_of_ascii a in
  ((97 <=? n) && (n <=? 122) || (65 <=? n) && (n <=? 90) || (48 <=? n) && (n <=? 57))%nat || bool_decide (a ∈ ["."; "_"; "-"]%char).

Fixpoint sanitize (s : string) : string :=
  match s with
  | EmptyString => EmptyString
  | String a s => if tag_char a then String a (sanitize s) else sanitize s
  end.

(** [hostname] is what [os.Hostname] gives. *)
Definition cfOwnTag (hostname : option string) (instance : string) : string :=
  let instance := if bool_decide (instance = EmptyString) then default EmptyString hostname else instance in
  let s := str_take 32 (sanitize instance) in
  cfListItemTag +:+ ":" +:+ (if bool_decide (s = EmptyString) then "default" else s).

Definition isLegacyManagedItem (comment : string) : bool :=
  has_prefix cfListItemTag comment && negb (has_prefix (cfListItemTag +:+ ":") comment).

Record CloudflareListsEnforcer := MkLists {
  instanceName : string;
  ownTag : string;
  adoptLegacy : bool;
  accountID : string;
  listName : string;
  zoneIDs : list string;
  action : string;
  baseURL : string;
  allowlist : list prefix;
  debounceInterval : duration;
  expireFlushInterval : duration;
  retryDelays : list duration;
  pageRetryDelays : list duration;
  staleRetryDelays : list duration;
  opPollInterval : duration
}.

Definition ownsItem (e : CloudflareListsEnforcer) (comment : string) : bool :=
  if bool_decide (comment = ownTag e) then true else adoptLegacy e && isLegacyManagedItem comment.

Definition NewCloudflareListsEnforcer (env : string → option string) (hostname : option string) (cfg : CloudflareCfg) (al : list prefix) : result goerr CloudflareListsEnforcer :=
  match Resolve env (cf_APIToken cfg) with
  | Err _ => Err (EText "enforce/cloudflare-lists: resolve api_token")
  | Ok _ =>
    if bool_decide (cf_AccountID cfg = EmptyString) then Err (EText "enforce/cloudflare-lists: account_id is required")
    else Ok (MkLists (cf_Name cfg) (cfOwnTag hostname (cf_Instance cfg)) (cf_AdoptLegacyItems cfg) (cf_AccountID cfg)
               (if bool_decide (cf_ListName cfg = EmptyString) then cfDefaultListName else cf_ListName cfg)
               (cf_ZoneIDs cfg) (if bool_decide (cf_Action cfg = EmptyString) then "block" else cf_Action cfg) cfBaseURL al
               (cfDebounceFromCfg cfg)
               (if 0 <? cf_ExpireFlushInterval cfg then cf_ExpireFlushInterval cfg else DefaultCFExpireFlushInterval)
               cfRetryDelays cfPageRetryDelays cfStaleRetryDelays cfBulkOpPollInterval)
  end.

(** The enforcer of a configuration, by its mode. *)
Definition NewCloudflareEnforcer (env : string → option string) (hostname : option string) (cfg : CloudflareCfg) (al : list prefix) : result goerr (CloudflareListsEnforcer + CloudflareEnforcer) :=
  let mode := if bool_decide (cf_Mode cfg = EmptyString) then "lists"%string else cf_Mode cfg in
  if bool_decide (mode = "lists"%string) then match NewCloudflareListsEnforcer env hostname cfg al with Ok e => Ok (inl e) | Err x => Err x end
  else if bool_decide (mode = "rulesets"%string) then match newCloudflareRulesetsEnforcer env cfg al with Ok e => Ok (inr e) | Err x => Err x end
  else Err (EText ("enforce/cloudflare: unknown mode " +:+ cf_Mode cfg)).

Definition Name (e : CloudflareListsEnforcer) : string :=
  if bool_decide (instanceName e = EmptyString) then "cloudflare" else "cloudflare[" +:+ instanceName e +:+ "]".

(** ** State *)
Record listState := MkListState {
  discovered : bool;
  listID : string;
  items : gmap string string;
  desired : gset string;
  foreign : gset string;
  timer : bool;
  mirrorStale : bool;
  staleAttempts : nat;
  staleTimer : option duration
}.
Definition newListState : listState := MkListState false EmptyString ∅ ∅ ∅ false false 0 None.

Definition with_items f t := MkListState (discovered t) (listID t) (f (items t)) (desired t) (foreign t) (timer t) (mirrorStale t) (staleAttempts t) (staleTimer t).
Definition with_desired f t := MkListState (discovered t) (listID t) (items t) (f (desired t)) (foreign t) (timer t) (mirrorStale t) (staleAttempts t) (staleTimer t).
Definition with_foreign f t := MkListState (discovered t) (listID t) (items t) (desired t) (f (foreign t)) (timer t) (mirrorStale t) (staleAttempts t) (staleTimer t).
Definition with_timer b t := MkListState (discovered t) (listID t) (items t) (desired t) (foreign t) b (mirrorStale t) (staleAttempts t) (staleTimer t).
Definition with_stale b n d t := MkListState (discovered t) (listID t) (items t) (desired t) (foreign t) (timer t) b n d.

(** ** The Lists API *)
Class ListsAPI (S : Type) := {
  getLists : S → reply cfListListsResp * S;
  postList (q : cfCreateListReq) : S → reply cfCreateListResp * S;
  getItems (lid cursor : string) : S → reply cfListItemsResp * S;
  getBulkOp (op : string) : S → reply cfBulkOpResp * S;
  postItems (lid : string) (q : list cfListItemReq) : S → reply cfListAddResp * S;
  deleteItems (lid : string) (ids : list string) : S → reply cfListDeleteResp * S
}.

Inductive list_event :=
| GotLists (r : reply cfListListsResp)
| PostedList (q : cfCreateListReq) (r : reply cfCreateListResp)
| GotItems (lid cursor : string) (r : reply cfListItemsResp)
| GotBulkOp (op : string) (r : reply cfBulkOpResp)
| PostedItems (lid : string) (q : list cfListItemReq) (r : reply cfListAddResp)
| DeletedItems (lid : string) (ids : list string) (r : reply cfListDeleteResp)
| OnZone (ev : zone_event).

(** A list cut into pieces of [n]. *)
Fixpoint batches {A} (fuel n : nat) (l : list A) : list (list A) :=
  match fuel, l with
  | _, [] | O, _ => []
  | Datatypes.S fuel, _ => take n l :: batches fuel n (drop n l)
  end.

Definition isCFDuplicateErr (err : goerr) : bool := str_contains (ToLower (ErrorText err)) "duplicate".

(** The items of a page: what this instance owns, and every address present. *)
Definition read_item (e : CloudflareListsEnforcer) (acc : gmap string string * gset string) (it : cfListItem) : gmap string string * gset string :=
  if bool_decide (IP it = EmptyString) then acc
  else (if ownsItem e (Comment it) then <[IP it := ID it]> acc.1 else acc.1, {[IP it]} ∪ acc.2).

Section enforcer.
Context {S : Type} `{Net S} `{ListsAPI S} `{ZoneAPI S} (e : CloudflareListsEnforcer).
#[local] Notation lio := (io listState list_event S).

Definition lists_url : string := baseURL e +:+ "/accounts/" +:+ accountID e +:+ "/rules/lists".
Definition items_url (lid : string) : string := lists_url +:+ "/" +:+ lid +:+ "/items".

(** ** Calls with retries *)
Fixpoint mutate_attempts {A} (more attempt : nat) (op verb url : string) (call : S → reply (cfResp A) * S) (ev : reply (cfResp A) → list_event) : lio A :=
  _ ← wait;
  r ← request verb url call ev;
  let fails (apiErrs : list cfAPIError) (failure : goerr) : lio A :=
    if negb (cfIsThrottle r.1.1 apiErrs) then fail failure
    else let detail := match apiErrs with [] => "http " +:+ show_Z r.1.1 | _ => cfErrMsg apiErrs end in
         match more with
         | O => fail (wrapf ("cloudflare " +:+ op +:+ ": " +:+ detail) ErrCFThrottled)
         | Datatypes.S more =>
           _ ← cfBackoffWait (retryDelays e) attempt (parseRetryAfter r.1.2);
           mutate_attempts more (Datatypes.S attempt) op verb url call ev
         end in
  match r.2 with
  | inr rsp => if Success rsp then mret (Result rsp) else fails (Errors rsp) (EText ("cloudflare " +:+ op +:+ ": " +:+ cfErrMsg (Errors rsp)))
  | inl t => fails [] (wrapf ("decode " +:+ op) (EText t))
  end.
Definition mutateWithRetry {A} (op verb url : string) (call : S → reply (cfResp A) * S) (ev : reply (cfResp A) → list_event) : lio A :=
  mutate_attempts (length (retryDelays e)) 0 op verb url call ev.

Fixpoint page_attempts {A} (more attempt : nat) (url : string) (call : S → reply A * S) (ev : reply A → list_event) : lio (string + A) :=
  r ← try (request "GET" url call ev);
  match r with
  | Ok p => mret p.2
  | Err err =>
    match more with
    | O => fail err
    | Datatypes.S more =>
      c ← ctx_Err;
      match c with
      | Some _ => fail err
      | None =>
        _ ← pause (default 0 (pageRetryDelays e !! attempt));
        _ ← wait;
        page_attempts more (Datatypes.S attempt) url call ev
      end
    end
  end.
Definition getPageWithRetry {A} (url : string) (call : S → reply A * S) (ev : reply A → list_event) : lio (string + A) :=
  page_attempts (length (pageRetryDelays e)) 0 url call ev.

(** ** Reading the list *)
Fixpoint fetch_pages (fuel : nat) (lid cursor : string) (acc : gmap string string * gset string) : lio (gmap string string * gset string) :=
  match fuel with
  | O => fail (EText "cloudflare list items: pagination exceeded 50 pages at 500 items/page (unmoving cursor?)")
  | Datatypes.S fuel =>
    _ ← wait;
    dec ← getPageWithRetry (items_url lid +:+ "?per_page=" +:+ show_Z cfListItemsPerPage +:+
             (if bool_decide (cursor = EmptyString) then EmptyString else "&cursor=" +:+ cursor)) (getItems lid cursor) (GotItems lid cursor);
    match dec with
    | inl t => fail (wrapf "decode list items" (EText t))
    | inr pg =>
      if negb (it_Success pg) then fail (EText ("cloudflare list items: " +:+ cfErrMsg (it_Errors pg)))
      else let acc := foldl (read_item e) acc (it_Result pg) in
           if bool_decide (After pg = EmptyString) || bool_decide (After pg = cursor) then mret acc
           else fetch_pages fuel lid (After pg) acc
    end
  end.
(** An empty list is not read: the API refuses a page size on it. *)
Definition fetchAllItems (lid : string) (numItems : Z) : lio (gmap string string * gset string) :=
  if numItems =? 0 then mret (∅, ∅) else fetch_pages maxPages lid EmptyString (∅, ∅).

(** The list's ID (empty when there is none), the owned items, every address present. *)
Definition discoverList : lio (string * (gmap string string * gset string)) :=
  lists ← simple_call "GET" lists_url "list lists" "list lists" getLists GotLists;
  match List.find (λ l, bool_decide (li_Name l = listName e) && bool_decide (li_Kind l = "ip"%string)) lists with
  | None => mret (EmptyString, (∅, ∅))
  | Some l =>
    if bool_decide (li_ID l = EmptyString) then mret (EmptyString, (∅, ∅))
    else p ← fetchAllItems (li_ID l) (NumItems l); mret (li_ID l, p)
  end.

Definition createList : lio string :=
  let q := MkCreateList (listName e) "ip" "Managed by ezyshield — do not edit items manually" in
  r ← simple_call "POST" lists_url "create list" "create list" (postList q) (PostedList q);
  match r with
  | Some l => if bool_decide (li_ID l = EmptyString) then fail (EText "cloudflare create list: empty response") else mret (li_ID l)
  | None => fail (EText "cloudflare create list: empty response")
  end.

(** ** Writing the list *)

(** A timer is armed only in background mode and only when none is pending. *)
Definition markMirrorStale (escalate : bool) : lio unit := put_st (λ t,
  if (debounceInterval e <=? 0) || bool_decide (is_Some (staleTimer t)) then with_stale true (staleAttempts t) (staleTimer t) t
  else let n := if escalate && (staleAttempts t <? length (staleRetryDelays e) - 1)%nat then Datatypes.S (staleAttempts t) else staleAttempts t in
       with_stale true n (Some (default 0 (staleRetryDelays e !! n))) t).

Fixpoint poll (fuel : nat) (op : string) : lio unit :=
  match fuel with
  | O => fail (EWrap ("cloudflare bulk operation unconfirmed: " +:+ op +:+ " not completed after 30 polls") errBulkOpUnconfirmed)
  | Datatypes.S fuel =>
    _ ← wait;
    r ← try (getPageWithRetry (lists_url +:+ "/bulk_operations/" +:+ op) (getBulkOp op) (GotBulkOp op));
    match r with
    | Err err => fail (EWrap ("cloudflare bulk operation unconfirmed: poll " +:+ op +:+ ": " +:+ ErrorText err) errBulkOpUnconfirmed)
    | Ok (inl t) => fail (wrapf "decode bulk operation" (EText t))
    | Ok (inr out) =>
      if negb (Success out) then fail (EText ("cloudflare bulk operation: " +:+ cfErrMsg (Errors out)))
      else if bool_decide (Status (Result out) = "completed"%string) || bool_decide (Status (Result out) = EmptyString) then mret tt
      else if bool_decide (Status (Result out) = "failed"%string)
      then fail (EText ("cloudflare bulk operation " +:+ op +:+ " failed: " +:+ Error (Result out)))
      else _ ← pause (opPollInterval e); poll fuel op
    end
  end.
Definition waitBulkOperation (op : string) : lio unit := poll cfBulkOpPollMax op.

(** An unconfirmed operation was accepted: it is kept, and the mirror is stale. *)
Definition settle (op : string) : lio unit :=
  if bool_decide (op = EmptyString) then mret tt
  else r ← try (waitBulkOperation op);
       match r with
       | Ok _ => mret tt
       | Err err => if errors_Is is_unconfirmed err then markMirrorStale false else fail err
       end.

(** The bulk adds: the IDs echoed, and whether some answer held none. *)
Fixpoint add_batches (lid : string) (todo : list (list string)) (out : gmap string string) (needRefresh : bool) : lio (gmap string string * bool) :=
  match todo with
  | [] => mret (out, needRefresh)
  | batch :: todo =>
    let q := (λ ip, MkItemReq ip (ownTag e)) <$> batch in
    body ← mutateWithRetry "add items" "POST" (items_url lid) (postItems lid q) (PostedItems lid q);
    let ar := UnmarshalJSON body in
    _ ← settle (OperationID ar);
    match Items ar with
    | [] => add_batches lid todo out true
    | its => add_batches lid todo
        (foldl (λ m it, if bool_decide (IP it = EmptyString) || bool_decide (ID it = EmptyString) then m else <[IP it := ID it]> m) out its) needRefresh
    end
  end.

Definition addItems (lid : string) (ips : list string) : lio (gmap string string) :=
  p ← add_batches lid (batches (length ips) cfListBatchMax ips) ∅ false;
  if negb p.2 then mret p.1
  else r ← try (fetchAllItems lid 1);
       match r with
       | Err _ => _ ← markMirrorStale false; mret p.1
       | Ok (all, _) => mret (foldl (λ m ip, match all !! ip with Some id => <[ip := id]> m | None => m end) p.1 ips)
       end.

Fixpoint removeItems_ (lid : string) (todo : list (list string)) : lio unit :=
  match todo with
  | [] => mret tt
  | batch :: todo =>
    op ← mutateWithRetry "delete items" "DELETE" (items_url lid) (deleteItems lid batch) (DeletedItems lid batch);
    _ ← settle op;
    removeItems_ lid todo
  end.
Definition removeItems (lid : string) (ids : list string) : lio unit := removeItems_ lid (batches (length ids) cfListBatchMax ids).

(** ** The push *)
Definition sort_set (s : gset string) : list string := merge_sort String.le (elements s).

(** After a duplicate refusal: own items found are recorded, foreign ones noted, the rest is added once more. *)
Definition retryAddSkippingPresent (lid : string) (want : list string) : lio (gmap string string) :=
  p ← wrap "duplicate-add refresh" (fetchAllItems lid 1);
  _ ← put_st (λ t, foldl (λ t ip,
        match p.1 !! ip with
        | Some id => with_items (<[ip := id]>) t
        | None => if bool_decide (ip ∈ p.2) then with_foreign (union {[ip]}) t else t
        end) t want);
  let remaining := List.filter (λ ip, negb (bool_decide (is_Some (p.1 !! ip))) && negb (bool_decide (ip ∈ p.2))) want in
  match remaining with [] => mret ∅ | _ => addItems lid remaining end.

Definition removeStale (lid : string) (desired : gset string) (items : gmap string string) : lio unit :=
  order ← lift (λ s, (in_order s items, s));
  let gone := List.filter (λ p, negb (bool_decide (p.1 ∈ desired))) order in
  match gone with
  | [] => mret tt
  | _ => _ ← removeItems lid gone.*2; put_st (with_items (λ m, foldl (λ m ip, delete ip m) m gone.*1))
  end.

(** Discovery when it is needed: the list, the items and the foreign addresses to go on with. *)
Definition ensure_discovered : lio unit :=
  t ← get_st;
  if discovered t && negb (mirrorStale t) then mret tt
  else
    d ← discoverList;
    found ← (if bool_decide (d.1 = EmptyString) then id ← createList; mret (id, (∅, ∅)) else mret d);
    put_st (λ t, MkListState true found.1 found.2.1 (desired t)
                   (filter (λ ip, found.2.1 !! ip = None) found.2.2) (timer t) false 0 (staleTimer t)).

Definition push : lio unit :=
  t0 ← get_st;
  _ ← ensure_discovered;
  t ← get_st;
  let toAdd := sort_set (filter (λ ip, items t !! ip = None ∧ ip ∉ foreign t) (desired t0)) in
  _ ← match toAdd with
      | [] => mret tt
      | _ =>
        r ← try (addItems (listID t) toAdd);
        added ← match r with
                | Ok added => mret added
                | Err err => if isCFDuplicateErr err then retryAddSkippingPresent (listID t) toAdd else fail err
                end;
        put_st (with_items (union added))
      end;
  if expireFlushInterval e =? 0 then removeStale (listID t) (desired t0) (items t) else mret tt.

Definition flushRemovals : lio unit :=
  _ ← put_st (with_foreign (λ _, ∅));
  t ← get_st;
  if negb (discovered t) || bool_decide (listID t = EmptyString) then mret tt
  else removeStale (listID t) (desired t) (items t).

(** One tick of the removal flusher. *)
Definition runRemovalFlusher : lio unit :=
  if expireFlushInterval e <=? 0 then mret tt else _ ← try flushRemovals; mret tt.

(** The stale timer's callback; [down] when the service is stopping. *)
Definition rebuildStaleMirror (down : bool) : lio unit :=
  t ← get_st;
  if bool_decide (staleTimer t = None) then mret tt
  else
    _ ← put_st (λ t, with_stale (mirrorStale t) (staleAttempts t) None t);
    if negb (mirrorStale t) || down then mret tt
    else r ← try push;
         match r with
         | Ok _ => mret tt
         | Err _ => t' ← get_st; if mirrorStale t' then markMirrorStale true else mret tt
         end.

Definition scheduleFlush : lio unit := if debounceInterval e =? 0 then push else put_st (with_timer true).
Definition fire_timer (down : bool) : lio unit :=
  t ← get_st;
  if negb (timer t) then mret tt
  else _ ← put_st (with_timer false); if down then mret tt else _ ← try push; mret tt.

(** ** The rule of a zone *)
Definition isManagedListRule (desc : string) : bool := str_contains desc cfListRuleDescPattern.

Definition discoverListRuleID (zone : string) : lio (string * string) :=
  p ← discover_rules (baseURL e) OnZone zone;
  mret (p.1, match List.find (λ r, isManagedListRule (ru_Description r)) p.2 with Some r => ru_ID r | None => EmptyString end).

Definition list_expr (lid : string) : string := "(ip.src in $" +:+ lid +:+ ")".

Definition createListRulesetWithRule (zone desc expr : string) : lio unit :=
  _ ← createRulesetWithRule (baseURL e) (action e) OnZone zone desc expr; mret tt.
Definition createListRule (zone rulesetID desc expr : string) : lio unit :=
  _ ← createRule (baseURL e) (action e) OnZone zone rulesetID desc expr; mret tt.
Definition updateListRule (zone rulesetID ruleID desc expr : string) : lio unit :=
  patchRule (baseURL e) (action e) OnZone zone rulesetID ruleID desc expr.

Definition syncZoneRule (zone : string) : lio unit :=
  t ← get_st;
  if bool_decide (listID t = EmptyString) then mret tt
  else
    p ← discoverListRuleID zone;
    let expr := list_expr (listID t) in
    if bool_decide (p.2 = EmptyString) then
      if bool_decide (p.1 = EmptyString)
      then createListRulesetWithRule zone cfListRuleDescPattern expr
      else createListRule zone p.1 cfListRuleDescPattern expr
    else updateListRule zone p.1 p.2 cfListRuleDescPattern expr.

Fixpoint sync_zones (zones : list string) : lio unit :=
  match zones with
  | [] => mret tt
  | zone :: zones => _ ← wrap ("enforce/cloudflare-lists Sync zone " +:+ zone) (syncZoneRule zone); sync_zones zones
  end.

(** ** The enforcer's operations *)
Definition Ban (t : Target) : lio unit :=
  if targetOverlapsAllowlist t (allowlist e)
  then fail (EText ("enforce/cloudflare-lists: refusing to ban allowlisted target " +:+ default EmptyString (targetKey t)))
  else match targetKey t with
       | None => fail (wrapf "enforce/cloudflare-lists Ban" no_key)
       | Some ip => _ ← put_st (with_desired (union {[ip]})); wrap "enforce/cloudflare-lists Ban" scheduleFlush
       end.

Definition Unban (t : Target) : lio unit :=
  match targetKey t with
  | None => fail (wrapf "enforce/cloudflare-lists Unban" no_key)
  | Some ip => _ ← put_st (with_desired (λ s, s ∖ {[ip]})); wrap "enforce/cloudflare-lists Unban" scheduleFlush
  end.

Definition Sync (want : list Target) : lio unit :=
  _ ← put_st (λ t, with_timer false (with_desired (λ _, want_set (allowlist e) want) t));
  _ ← wrap "enforce/cloudflare-lists Sync" push;
  sync_zones (zoneIDs e).
End enforcer.
