(* ===== verification/CfListsSafety.v ===== *)
(** What the Cloudflare Lists enforcer may send, whatever the API answers: items
    it adds are wanted and carry its tag, items it deletes are its own and not
    wanted, and a zone's rules of other people are left alone. *)
From stdpp Require Import sorting.
From S2P Require Import Prelude GoStrings Netip Sdk NftClient EdgeNet CfRules CfLists.

(** ** Operations *)
Inductive op := OBan (t : Target) | OUnban (t : Target) | OSync (want : list Target)
  | OTimer (down : bool) | OFlusher | OStale (down : bool).

Section run.
Context {S : Type} `{Net S} `{ListsAPI S} `{ZoneAPI S} (e : CloudflareListsEnforcer).

Definition run_op (o : op) : io listState list_event S unit :=
  match o with
  | OBan t => Ban e t
  | OUnban t => Unban e t
  | OSync want => Sync e want
  | OTimer down => fire_timer e down
  | OFlusher => runRemovalFlusher e
  | OStale down => rebuildStaleMirror e down
  end.
Definition start (s : S) : world listState list_event S := MkWorld newListState s [].
Definition run_ops (ops : list op) (w : world listState list_event S) : world listState list_event S :=
  foldl (λ w o, (run_op o w).2) w ops.
End run.

(** The set an operation means to block. *)
Definition intended (e : CloudflareListsEnforcer) (o : op) (old : gset string) : gset string :=
  match o with
  | OBan t => if targetOverlapsAllowlist t (allowlist e) then old
              else match targetKey t with Some k => {[k]} ∪ old | None => old end
  | OUnban t => match targetKey t with Some k => old ∖ {[k]} | None => old end
  | OSync want => want_set (allowlist e) want
  | _ => old
  end.

Section safe.
Context (e : CloudflareListsEnforcer).

(** ** Items the enforcer may delete

    An answer gave item [id] for [ip]: it carries our tag (or an adopted one),
    or it was echoed to an add of ours. *)
Definition offers (lid ip id : string) (ev : list_event) : Prop :=
  match ev with
  | GotItems l _ (Resp _ _ (inr pg)) => l = lid ∧ it_Success pg = true ∧
      ∃ it, it ∈ it_Result pg ∧ IP it = ip ∧ ID it = id ∧ ownsItem e (Comment it) = true
  | PostedItems l _ (Resp _ _ (inr rsp)) => l = lid ∧ Success rsp = true ∧
      ∃ it, it ∈ Items (UnmarshalJSON (Result rsp)) ∧ IP it = ip ∧ ID it = id
  | _ => False
  end.
Definition own (l : list list_event) (lid ip id : string) : Prop := ∃ ev, ev ∈ l ∧ offers lid ip id ev.

Lemma own_cons ev l lid ip id : own l lid ip id → own (ev :: l) lid ip id.
Proof. intros (v & Hv & Ho). exists v. split; [by right|done]. Qed.

Definition knows (lid : string) (m : gmap string string) (l : list list_event) : Prop :=
  ∀ ip id, m !! ip = Some id → own l lid ip id.
Lemma knows_cons lid m ev l : knows lid m l → knows lid m (ev :: l).
Proof. intros Hk ip id Hm. by apply own_cons, Hk. Qed.
Lemma knows_insert lid m ip id l : knows lid m l → own l lid ip id → knows lid (<[ip := id]> m) l.
Proof.
  intros Hk Ho i d. destruct (decide (i = ip)) as [->|Hne]; [rewrite lookup_insert_eq; by intros [= <-]|].
  rewrite lookup_insert_ne by done. apply Hk.
Qed.
Lemma knows_empty lid l : knows lid ∅ l.
Proof. intros ip id. by rewrite lookup_empty. Qed.
Lemma knows_sub lid m m' l : m' ⊆ m → knows lid m l → knows lid m' l.
Proof. intros Hs Hk ip id Hm. apply Hk. by eapply lookup_weaken. Qed.

(** ** Right events *)
Section right.
Context (Y : gset string).

Definition our_rule (q : cfRuleReq) : Prop :=
  rq_Action q = action e ∧ rq_Description q = cfListRuleDescPattern ∧ ∃ lid, rq_Expression q = list_expr lid.

(** A rule the API described with the list's mark. *)
Definition marked (l : list list_event) (z id : string) : Prop := ∃ rs status ra rsp ru,
  OnZone (GotRuleset z rs (Resp status ra (inr rsp))) ∈ l ∧ Success rsp = true ∧ ru ∈ rd_Rules (Result rsp) ∧
  isManagedListRule (ru_Description ru) = true ∧ ru_ID ru = id.

Definition right_zone_event (l : list list_event) (ev : zone_event) : Prop :=
  match ev with
  | GotRulesets _ _ | GotRuleset _ _ _ => True
  | PostedRuleset _ q _ => ∃ r, cr_Rules q = [r] ∧ our_rule r
  | PostedRule _ _ q _ => our_rule q
  | PatchedRule z _ id q _ => marked l z id ∧ our_rule q
  | DeletedRule _ _ _ _ => False
  end.

Definition right_event (l : list list_event) (ev : list_event) : Prop :=
  match ev with
  | GotLists _ | GotItems _ _ _ | GotBulkOp _ _ => True
  | PostedList q _ => cl_Name q = listName e ∧ cl_Kind q = "ip"%string
  | PostedItems _ q _ => (1 ≤ length q ≤ cfListBatchMax)%nat ∧ Forall (λ i, q_Comment i = ownTag e ∧ q_IP i ∈ Y) q
  | DeletedItems lid ids _ => (1 ≤ length ids ≤ cfListBatchMax)%nat ∧ Forall (λ id, ∃ ip, own l lid ip id ∧ ip ∉ Y) ids
  | OnZone ev => right_zone_event l ev
  end.
End right.

Lemma batches_spec {A} n (l : list A) fuel : (0 < n)%nat → (length l ≤ fuel)%nat →
  concat (batches fuel n l) = l ∧ Forall (λ b, (1 ≤ length b ≤ n)%nat) (batches fuel n l).
Proof.
  intros Hn. revert l. induction fuel as [|fuel IH]; intros [|x l] Hl; cbn [batches length] in *; try (split; [done|constructor]); try lia.
  destruct (IH (drop n (x :: l))) as [Hc Hf].
  { rewrite length_drop. cbn [length]. lia. }
  split.
  - cbn [concat]. rewrite Hc. apply take_drop.
  - constructor; [|exact Hf]. rewrite length_take. cbn [length]. lia.
Qed.

Lemma batches_forall {A} (P : A → Prop) n (l : list A) : (0 < n)%nat → Forall P l →
  Forall (λ b, (1 ≤ length b ≤ n)%nat ∧ Forall P b) (batches (length l) n l).
Proof.
  intros Hn Hp. destruct (batches_spec n l (length l) Hn (le_n _)) as [Hc Hf]. rewrite <- Hc in Hp. clear Hc.
  induction Hf as [|b bs Hb Hf IH]; [constructor|]. cbn [concat] in Hp. apply Forall_app in Hp as [Hp1 Hp2]. constructor; auto.
Qed.

(** ** The calls

    [G] holds between two requests: it stands whatever right event joins the log
    and however the stale flags move. *)
Section calls.
Context {S : Type} `{Net S} `{ListsAPI S} `{ZoneAPI S} (Y : gset string) (G : listState → list list_event → Prop).
Context (Hev : ∀ t l ev, G t l → right_event Y l ev → G t (ev :: l)).
#[local] Notation lio := (io listState list_event S).
#[local] Notation answered ev a := (λ w, ∃ status ra rsp, on (λ t l, G t l ∧ ev (Resp status ra (inr rsp)) ∈ l) w ∧ Success rsp = true ∧ Result rsp = a).

Lemma mutate_G {A} op verb url (call : S → reply (cfResp A) * S) ev :
  (∀ t l r, G t l → right_event Y l (ev r)) →
  triple (on G) (mutateWithRetry e op verb url call ev : lio A) (λ res w, match res with Ok a => answered ev a w | Err _ => on G w end).
Proof.
  intros Hr. unfold mutateWithRetry. generalize 0%nat as n. generalize (length (retryDelays e)) as more.
  assert (∀ more n, (∀ n', match more with Datatypes.S m => triple (on G) (mutate_attempts e m n' op verb url call ev : lio A) (λ res w, match res with Ok a => answered ev a w | Err _ => on G w end) | O => True end) →
    triple (on G) (mutate_attempts e more n op verb url call ev : lio A) (λ res w, match res with Ok a => answered ev a w | Err _ => on G w end)) as Hstep.
  { intros more n Hm. destruct more as [|more]; cbn [mutate_attempts];
    (eapply triple_bind; [apply quiet_wait, quiet_on|intros []|by intros x w HG]);
    (eapply triple_bind; [apply (triple_request _ _ _ _ G (λ r t l, G t l ∧ ev r ∈ l)); intros t l r HG; split; [apply Hev; [done|by eapply Hr]|left]| |by intros x w (r & HG & _)]);
    intros [[status ra] [tx|rsp]]; cbn [fst snd]; try destruct (Success rsp) eqn:Es; try (case_match; [apply triple_fail; by intros w [? _]|]).
    all: try (apply triple_ret; intros w [HG Hin]; by exists status, ra, rsp).
    all: try (apply triple_fail; by intros w [? _]).
    all: eapply triple_bind; [eapply triple_conseq; [apply quiet_backoff, (quiet_on G)|by intros w [? _]|intros r w Hw; exact Hw]|intros []; apply Hm|by intros x w HG]. }
  induction more as [|more IH]; intros n; apply Hstep; [done|]. intros n'. apply IH.
Qed.

Lemma page_G {A} url (call : S → reply A * S) (ev : reply A → list_event) : (∀ t l r, G t l → right_event Y l (ev r)) →
  triple (on G) (getPageWithRetry e url call ev : lio _)
    (λ res w, match res with Ok dec => ∃ status ra, on (λ t l, G t l ∧ ev (Resp status ra dec) ∈ l) w | Err _ => on G w end).
Proof.
  intros Hr. unfold getPageWithRetry. generalize 0%nat as n. induction (length (pageRetryDelays e)) as [|more IH]; intros n; cbn [page_attempts];
    (apply (triple_bind _ _ _ (λ res w, match res with Ok (Ok p) => on (λ t l, G t l ∧ ev (Resp p.1.1 p.1.2 p.2) ∈ l) w | _ => on G w end));
     [apply triple_try; eapply triple_conseq;
       [apply (triple_request _ _ _ _ G (λ r t l, G t l ∧ ev r ∈ l)); intros t l r HG; split; [apply Hev; [done|by eapply Hr]|left]
       |done|intros [p|x] w; [done|intros (r & HG & _); exact HG]]| |done]);
    intros [[[status ra] dec]|x]; cbn; try (apply triple_ret; intros w Hw; by exists status, ra).
  - by apply triple_fail.
  - apply (triple_bind _ _ _ (λ _, on G)); [|intros [c|]; [by apply triple_fail|]|done].
    { intros w HG. destruct w. exact HG. }
    eapply triple_bind; [apply quiet_pause, quiet_on|intros []|by intros y w HG].
    eapply triple_bind; [apply quiet_wait, quiet_on|intros []; apply IH|by intros y w HG].
Qed.

End calls.

Lemma read_item_knows lid acc it l : knows lid acc.1 l →
  (IP it ≠ EmptyString → ownsItem e (Comment it) = true → own l lid (IP it) (ID it)) → knows lid (read_item e acc it).1 l.
Proof.
  intros Hk Ho. unfold read_item. case_bool_decide; [done|]. cbn. destruct (ownsItem e (Comment it)); [|done].
  apply knows_insert; auto.
Qed.

(** ** Reading and writing the list *)
Section list_calls.
Context {S : Type} `{Net S} `{ListsAPI S} `{ZoneAPI S} (Y : gset string) (lid : string) (G : listState → list list_event → Prop).
Context (Hev : ∀ t l ev, G t l → right_event Y l ev → G t (ev :: l)).
Context (Hst : ∀ t l b n d, G t l → G (with_stale b n d t) l).
#[local] Notation lio := (io listState list_event S).

Lemma Hev_knows m t l ev : G t l ∧ knows lid m l → right_event Y l ev → G t (ev :: l) ∧ knows lid m (ev :: l).
Proof. intros [HG Hk] Hr. split; [by apply Hev|by apply knows_cons]. Qed.

Lemma fetch_pages_G fuel cursor acc :
  triple (on (λ t l, G t l ∧ knows lid acc.1 l)) (fetch_pages e fuel lid cursor acc : lio _)
    (λ res w, match res with Ok p => on (λ t l, G t l ∧ knows lid p.1 l) w | Err _ => on G w end).
Proof.
  revert cursor acc. induction fuel as [|fuel IH]; intros cursor acc; cbn [fetch_pages]; [apply triple_fail; by intros w [? _]|].
  eapply triple_bind; [apply quiet_wait, quiet_on|intros []|by intros x w [? _]].
  eapply triple_bind; [apply (page_G Y (λ t l, G t l ∧ knows lid acc.1 l)); [intros t l ev; apply Hev_knows|done]| |by intros x w [? _]].
  intros [tx|pg]; cbn; [apply triple_fail; by intros w (? & ? & [? _] & _)|].
  destruct (it_Success pg) eqn:Es; cbn [negb]; [|apply triple_fail; by intros w (? & ? & [? _] & _)].
  assert (∀ w : world listState list_event S, (∃ status ra, on (λ t l, (G t l ∧ knows lid acc.1 l) ∧ GotItems lid cursor (Resp status ra (inr pg)) ∈ l) w) →
    on (λ t l, G t l ∧ knows lid (foldl (read_item e) acc (it_Result pg)).1 l) w) as Hread.
  { intros w (status & ra & [HG Hk] & Hin). split; [done|].
    assert (∀ it, it ∈ it_Result pg → ownsItem e (Comment it) = true → own (sent w) lid (IP it) (ID it)) as Ho.
    { intros it Hit Hc. eexists. split; [exact Hin|]. cbn. split_and!; [done..|]. by exists it. }
    revert acc Hk. induction (it_Result pg) as [|it its IHi]; intros acc Hk; [done|]. cbn [foldl]. apply IHi.
    - intros it' Hit'. apply Ho. by right.
    - apply read_item_knows; [done|]. intros _. apply Ho. by left. }
  destruct (_ || _); [by apply triple_ret|]. eapply triple_conseq; [apply IH|exact Hread|done].
Qed.

Lemma fetch_G n : triple (on G) (fetchAllItems e lid n : lio _)
  (λ res w, match res with Ok p => on (λ t l, G t l ∧ knows lid p.1 l) w | Err _ => on G w end).
Proof.
  unfold fetchAllItems. case_match; [apply triple_ret; intros w HG; split; [done|apply knows_empty]|].
  eapply triple_conseq; [apply fetch_pages_G| |done]. intros w HG. split; [done|apply knows_empty].
Qed.

Lemma stale_G b : triple (on G) (markMirrorStale e b : lio _) (λ _, on G).
Proof. intros w HG. unfold markMirrorStale, put_st, on. cbn. destruct (_ || _); by apply Hst. Qed.

Lemma poll_G fuel o : triple (on G) (poll e fuel o : lio _) (λ _, on G).
Proof.
  induction fuel as [|fuel IH]; cbn [poll]; [by apply triple_fail|].
  eapply triple_bind; [apply quiet_wait, quiet_on|intros []|done].
  apply (triple_bind _ _ _ (λ _, on G)); [|intros [[tx|out]|x]|done].
  - apply triple_try. eapply triple_conseq; [by apply (page_G Y)|done|]. intros [dec|x] w; [by intros (? & ? & ? & _)|done].
  - by apply triple_fail.
  - repeat (case_match; [first [by apply triple_ret|by apply triple_fail]|]).
    eapply triple_bind; [apply quiet_pause, quiet_on|intros []; exact IH|done].
  - by apply triple_fail.
Qed.

Lemma settle_G o : triple (on G) (settle e o : lio _) (λ _, on G).
Proof.
  unfold settle. case_bool_decide; [by apply triple_ret|].
  apply (triple_bind _ _ _ (λ _, on G)); [apply triple_try, poll_G|intros [[]|x]|done]; [by apply triple_ret|].
  case_match; [apply stale_G|by apply triple_fail].
Qed.
End list_calls.

Lemma foldl_knows {B} lid l (f : gmap string string → B → gmap string string) (xs : list B) m :
  (∀ m x, x ∈ xs → knows lid m l → knows lid (f m x) l) → knows lid m l → knows lid (foldl f m xs) l.
Proof.
  revert m. induction xs as [|x xs IH]; intros m Hf Hm; [done|]. cbn. apply IH; [intros; apply Hf; [by right|done]|].
  apply Hf; [by left|done].
Qed.

Section list_writes.
Context {S : Type} `{Net S} `{ListsAPI S} `{ZoneAPI S} (Y : gset string) (lid : string) (G : listState → list list_event → Prop).
Context (Hev : ∀ t l ev, G t l → right_event Y l ev → G t (ev :: l)).
Context (Hst : ∀ t l b n d, G t l → G (with_stale b n d t) l).
#[local] Notation lio := (io listState list_event S).

Lemma add_batches_G todo out need : Forall (λ b, (1 ≤ length b ≤ cfListBatchMax)%nat ∧ Forall (.∈ Y) b) todo →
  triple (on (λ t l, G t l ∧ knows lid out l)) (add_batches e lid todo out need : lio _)
    (λ res w, match res with Ok p => on (λ t l, G t l ∧ knows lid p.1 l) w | Err _ => on G w end).
Proof.
  revert out need. induction todo as [|b todo IH]; intros out need Hb; cbn [add_batches]; [by apply triple_ret|].
  apply Forall_cons_1 in Hb as [[Hl Hy] Hb].
  eapply triple_bind; [apply (mutate_G Y (λ t l, G t l ∧ knows lid out l)); [intros t l ev; by eapply Hev_knows|]| |by intros x w [? _]].
  { intros t l r _. cbn. rewrite length_fmap. split; [done|]. apply Forall_fmap. eapply Forall_impl; [exact Hy|]. intros ip Hip. done. }
  intros body. cbn.
  set (its := Items (UnmarshalJSON body)).
  set (out' := foldl (λ m it, if bool_decide (IP it = EmptyString) || bool_decide (ID it = EmptyString) then m else <[IP it := ID it]> m) out its).
  apply (triple_bind _ _ _ (λ _, on (λ t l, (G t l ∧ knows lid out l) ∧ knows lid out' l))); [| |by intros x w [[? _] _]].
  - eapply triple_conseq; [apply (settle_G Y (λ t l, (G t l ∧ knows lid out l) ∧ knows lid out' l))| |done].
    + intros t l ev [HG Hk] Hr. split; [by eapply Hev_knows|by apply knows_cons].
    + intros t l bb n d [[HG Hk] Hk']. by split; [split; [apply Hst|]|].
    + intros w (status & ra & rsp & [[HG Hk] Hin] & Hs & Hr). split; [done|]. unfold out'.
      apply foldl_knows; [|done]. intros m it Hit Hm. case_match; [done|]. apply knows_insert; [done|].
      eexists. split; [exact Hin|]. cbn. split_and!; [done..|]. exists it. by rewrite Hr.
  - intros []. unfold out'. destruct its; (eapply triple_conseq; [by apply IH| |done]); intros w [[? ?] ?]; done.
Qed.

Lemma addItems_G ips : Forall (.∈ Y) ips →
  triple (on G) (addItems e lid ips : lio _) (λ res w, match res with Ok m => on (λ t l, G t l ∧ knows lid m l) w | Err _ => on G w end).
Proof.
  intros Hy. unfold addItems. eapply triple_bind; [eapply triple_conseq; [apply (add_batches_G _ ∅ false)| |intros r w Hr; exact Hr]| |done].
  { apply batches_forall; [unfold cfListBatchMax; lia|done]. }
  { intros w HG. split; [done|apply knows_empty]. }
  intros p. cbn. destruct (negb p.2); [by apply triple_ret|].
  apply (triple_bind _ _ _ (λ res w, match res with
    | Ok (Ok q) => on (λ t l, (G t l ∧ knows lid p.1 l) ∧ knows lid q.1 l) w
    | _ => on (λ t l, G t l ∧ knows lid p.1 l) w end)); [|intros [[all present]|x]|by intros x w [? _]].
  - apply triple_try. eapply triple_conseq; [apply (fetch_G Y lid (λ t l, G t l ∧ knows lid p.1 l)) with (n := 1)|done|intros [q|x] w Hw; exact Hw].
    intros t l ev. by eapply Hev_knows.
  - apply triple_ret. intros w [[HG Hk] Ha]. split; [done|]. apply foldl_knows; [|done].
    intros m ip _ Hm. destruct (all !! ip) as [id|] eqn:E; [|done]. apply knows_insert; [done|]. by apply Ha.
  - apply (triple_bind _ _ _ (λ _, on (λ t l, G t l ∧ knows lid p.1 l))); [apply stale_G|intros []; by apply triple_ret|by intros y w [? _]].
    intros t l b n d [HG Hk]. by split; [apply Hst|].
Qed.

(** Items to delete: own and not wanted. *)
Definition removable (ids : list string) (l : list list_event) : Prop := Forall (λ id, ∃ ip, own l lid ip id ∧ ip ∉ Y) ids.
Lemma removable_cons ids l ev : removable ids l → removable ids (ev :: l).
Proof. intros Hr. eapply Forall_impl; [exact Hr|]. intros id (ip & Ho & Hy). exists ip. split; [by apply own_cons|done]. Qed.

Lemma remove_batches_G todo : Forall (λ b, (1 ≤ length b ≤ cfListBatchMax)%nat) todo →
  triple (on (λ t l, G t l ∧ removable (concat todo) l)) (removeItems_ e lid todo : lio _) (λ _, on G).
Proof.
  induction todo as [|b todo IH]; intros Hb; cbn [removeItems_]; [apply triple_ret; by intros w [? _]|].
  apply Forall_cons_1 in Hb as [Hl Hb]. cbn [concat].
  assert (∀ t l ev, (G t l ∧ removable (b ++ concat todo) l) → right_event Y l ev → G t (ev :: l) ∧ removable (b ++ concat todo) (ev :: l)) as Hev'.
  { intros t l ev [HG Hr] Hok. split; [by apply Hev|by apply removable_cons]. }
  eapply triple_bind; [apply (mutate_G Y (λ t l, G t l ∧ removable (b ++ concat todo) l) Hev')| |by intros x w [? _]].
  { intros t l r [_ Hr]. split; [done|]. by apply Forall_app in Hr as [? _]. }
  intros op. cbn. apply (triple_bind _ _ _ (λ _, on (λ t l, G t l ∧ removable (b ++ concat todo) l))); [| |by intros x w [? _]].
  - eapply triple_conseq; [apply (settle_G Y (λ t l, G t l ∧ removable (b ++ concat todo) l) Hev')| |done].
    + intros t l bb n d [HG Hr]. by split; [apply Hst|].
    + by intros w (? & ? & ? & [? _] & _).
  - intros []. eapply triple_conseq; [by apply IH| |done]. intros w [HG Hr]. split; [done|]. by apply Forall_app in Hr as [_ ?].
Qed.

Lemma removeItems_G ids : triple (on (λ t l, G t l ∧ removable ids l)) (removeItems e lid ids : lio _) (λ _, on G).
Proof.
  unfold removeItems. destruct (batches_spec cfListBatchMax ids (length ids)) as [Hc Hb]; [unfold cfListBatchMax; lia|done|].
  eapply triple_conseq; [by apply remove_batches_G| |done]. by rewrite Hc.
Qed.
End list_writes.
(** ** The push *)
Section push.
Context {S : Type} `{Net S} `{ListsAPI S} `{ZoneAPI S} (Y : gset string) (l0 : list list_event).
#[local] Notation lio := (io listState list_event S).

(** Every remembered item is ours in the current list; the log is right for the set [Y]. *)
Definition inv (t : listState) (l : list list_event) : Prop := knows (listID t) (items t) l.
Definition K (t : listState) (l : list list_event) : Prop := inv t l ∧ desired t = Y ∧ grows (right_event Y) l0 l.

Lemma K_ev t l ev : K t l → right_event Y l ev → K t (ev :: l).
Proof. intros (Hi & Hd & Hg) Hr. split; [by apply knows_cons|]. split; [done|by constructor]. Qed.
Lemma K_same t t' l : K t l → items t' = items t → listID t' = listID t → desired t' = desired t → K t' l.
Proof. intros (Hi & Hd & Hg) H1' H2' H3'. unfold K, inv. by rewrite H1', H2', H3'. Qed.

(** With the list the push works on, and a set of items known to be ours in it. *)
Definition G (lid : string) (m : gmap string string) (t : listState) (l : list list_event) : Prop :=
  K t l ∧ listID t = lid ∧ knows lid m l.
Lemma G_ev lid m t l ev : G lid m t l → right_event Y l ev → G lid m t (ev :: l).
Proof. intros (HK & Hl & Hk) Hr. split; [by apply K_ev|]. split; [done|by apply knows_cons]. Qed.
Lemma G_st lid m t l b n d : G lid m t l → G lid m (with_stale b n d t) l.
Proof. intros (HK & Hl & Hk). split; [|done]. by eapply K_same. Qed.

(** Items just learnt join the mirror. *)
Lemma G_learn lid m added t l : G lid m t l → knows lid added l → G lid m (with_items (union added) t) l.
Proof.
  intros ((Hi & Hd & Hg) & Hl & Hk) Ha. split; [|done]. split; [|done]. unfold inv. cbn. unfold inv in Hi. rewrite Hl in *.
  intros ip id [?|[_ ?]]%lookup_union_Some_raw; [by apply Ha|by apply Hi].
Qed.

Lemma discover_K : triple (on K) (ensure_discovered e : lio _) (λ _, on K).
Proof.
  unfold ensure_discovered. apply (triple_bind _ _ _ (λ _, on K)); [by intros w ?|intros t0|done].
  destruct (_ && _); [by apply triple_ret|].
  assert (∀ t l ev, K t l → right_event Y l ev → K t (ev :: l)) as HKev by (intros; by apply K_ev).
  apply (triple_bind _ _ _ (λ res w, match res with Ok d => on (λ t l, K t l ∧ knows d.1 d.2.1 l) w | Err _ => on K w end)); [| |done].
  - unfold discoverList. eapply triple_bind; [eapply triple_conseq; [apply (triple_simple_call _ _ _ _ _ _ K (λ _, K))|done|intros r w Hr; exact Hr]| |by intros x w [?|[_ ?]]].
    { intros t l r HK. by apply K_ev. }
    intros ls. cbn.
    assert (∀ w : world listState list_event S, (∃ (status : Z) (ra : string) r, on K w ∧ Success r = true ∧ Result r = ls) → on K w) as Hw by (by intros w (? & ? & ? & ? & _)).
    destruct (List.find _ ls) as [l|]; [case_bool_decide|]; try (apply triple_ret; intros w HK%Hw; split; [done|apply knows_empty]).
    eapply triple_bind; [eapply triple_conseq; [apply (fetch_G Y (li_ID l) K) with (n := NumItems l); done|exact Hw|intros r w Hr; exact Hr]| |done].
    intros p. by apply triple_ret.
  - intros d. cbn. apply (triple_bind _ _ _ (λ res w, match res with Ok d => on (λ t l, K t l ∧ knows d.1 d.2.1 l) w | Err _ => on K w end)); [| |done].
    + case_bool_decide; [|by apply triple_ret]. unfold createList.
      apply (triple_bind _ _ _ (λ _, on K)); [|intros id; apply triple_ret; intros w HK; split; [done|apply knows_empty]|done].
      eapply triple_bind; [eapply triple_conseq; [apply (triple_simple_call _ _ _ _ _ _ K (λ _, K))|by intros w [? _]|intros r w Hr; exact Hr]| |by intros x w [?|[_ ?]]].
      { intros t l r HK. by apply K_ev. }
      intros [l|]; [case_bool_decide|]; first [apply triple_ret|apply triple_fail]; by intros w (? & ? & ? & ? & _).
    + intros found w [(Hi & Hd & Hg) Hk]. by split.
Qed.

Lemma remove_K lid m : triple (on (G lid m)) (removeStale e lid Y m : lio _) (λ _, on K).
Proof.
  unfold removeStale. eapply triple_bind; [apply (quiet_read (λ s, in_order s m) (on (G lid m))), quiet_on| |by intros x w [_ [? [=]]]].
  intros order. apply triple_pre. intros w [HG [s [= ->]]].
  set (gone := List.filter _ (in_order s m)). destruct gone as [|p gone'] eqn:Eg; [by apply triple_ret; intros ? ->; destruct HG|].
  rewrite <- Eg. apply (triple_bind _ _ _ (λ _, on (G lid m))); [|intros []|by intros x w' [? _]].
  - eapply triple_conseq; [apply (removeItems_G Y lid (G lid m))|intros ? ->; split; [exact HG|]|done].
    + intros t l ev. apply G_ev.
    + intros t l b n d. apply G_st.
    + apply Forall_forall. intros id ([ip i] & -> & Hin)%list_elem_of_fmap.
      unfold gone in Hin. apply list_elem_of_In, filter_In in Hin as [Hin Hn]. apply list_elem_of_In, in_order_elem in Hin.
      bool_hyps. exists ip. destruct HG as (_ & _ & Hk). split; [by apply Hk|done].
  - intros w' ((Hi & Hd & Hg) & _ & _). split; [|done]. cbn.
    assert (∀ ks (m' : gmap string string), foldl (λ m ip, delete ip m) m' ks ⊆ m') as Hsub.
    { induction ks as [|k ks IH]; intros m'; [done|]. cbn. etrans; [apply IH|apply delete_subseteq]. }
    eapply knows_sub; [apply Hsub|exact Hi].
Qed.

Lemma retry_K lid m want : Forall (.∈ Y) want →
  triple (on (G lid m)) (retryAddSkippingPresent e lid want : lio _)
    (λ res w, match res with Ok a => on (λ t l, G lid m t l ∧ knows lid a l) w | Err _ => on (G lid m) w end).
Proof.
  intros Hy. unfold retryAddSkippingPresent.
  apply (triple_bind _ _ _ (λ res w, match res with Ok p => on (λ t l, G lid m t l ∧ knows lid p.1 l) w | Err _ => on (G lid m) w end)); [| |done].
  { apply triple_wrap. eapply triple_conseq; [apply (fetch_G Y lid (G lid m)) with (n := 1)|done|intros [p|x] w Hw; exact Hw].
    intros t l ev. apply G_ev. }
  intros [owned present]. cbn.
  apply (triple_bind _ _ _ (λ _, on (G lid m))); [| |done].
  - intros w [HG Ho]. unfold put_st, on. cbn. clear Hy. cbn in Ho. revert HG Ho. unfold on. generalize (st w) as t, (sent w) as l. clear.
    induction want as [|ip want IH]; intros t l HG Ho; [done|]. cbn [foldl]. apply IH; [|done].
    destruct (owned !! ip) as [id|] eqn:E.
    + destruct HG as ((Hi & Hd & Hg) & Hl & Hk). split; [|done]. split; [|done]. unfold inv in *. cbn. rewrite Hl in *. apply knows_insert; [done|]. by apply Ho.
    + case_bool_decide; [|done]. destruct HG as (HK & Hl & Hk). split; [|done]. by eapply K_same.
  - intros []. set (remaining := List.filter _ want). assert (Forall (.∈ Y) remaining) as Hr.
    { apply Forall_forall. intros ip Hin. apply list_elem_of_In, filter_In in Hin as [Hin _]. apply list_elem_of_In in Hin. by rewrite Forall_forall in Hy; apply Hy. }
    destruct remaining; [apply triple_ret; intros w HG; split; [done|apply knows_empty]|].
    apply (addItems_G Y lid (G lid m)); [intros t l ev; apply G_ev|intros t l b n d; apply G_st|done].
Qed.

Lemma push_K : triple (on K) (push e : lio _) (λ _, on K).
Proof.
  unfold push. apply (triple_bind _ _ _ (λ res w, ∃ t0, res = Ok t0 ∧ desired t0 = Y ∧ on K w)); [|intros t0|by intros x w (? & [=] & _)].
  { intros w HK. exists (st w). split_and!; [done|apply HK|exact HK]. }
  apply triple_pre. intros w0 (? & [= <-] & Hd & HK0).
  apply (triple_bind _ _ _ (λ _, on K)); [eapply triple_conseq; [apply discover_K|by intros ? ->|done]|intros []|done].
  apply (triple_bind _ _ _ (λ res w, match res with Ok t => on (G (listID t) (items t)) w | Err _ => False end)); [|intros t|done].
  { intros w HK. split; [exact HK|]. split; [done|]. apply HK. }
  set (toAdd := sort_set _). assert (Forall (.∈ Y) toAdd) as Hy.
  { apply Forall_forall. intros ip. unfold toAdd, sort_set. rewrite merge_sort_Permutation, elem_of_elements. rewrite <- Hd. set_solver. }
  apply (triple_bind _ _ _ (λ _, on (G (listID t) (items t)))); [|intros []|by intros x w [? _]].
  - destruct toAdd as [|ip ips]; [by apply triple_ret|].
    apply (triple_bind _ _ _ (λ res w, match res with
      | Ok (Ok a) => on (λ t' l, G (listID t) (items t) t' l ∧ knows (listID t) a l) w | _ => on (G (listID t) (items t)) w end)); [| |done].
    { apply triple_try. eapply triple_conseq; [apply (addItems_G Y (listID t) (G (listID t) (items t))); [| |exact Hy]|done|intros [a|x] w Hw; exact Hw].
      - intros t' l ev. apply G_ev.
      - intros t' l b n d. apply G_st. }
    intros r. apply (triple_bind _ _ _ (λ res w, match res with
      | Ok a => on (λ t' l, G (listID t) (items t) t' l ∧ knows (listID t) a l) w | Err _ => on (G (listID t) (items t)) w end)); [| |done].
    { destruct r as [a|x]; [by apply triple_ret|]. destruct (isCFDuplicateErr x); [by apply retry_K|by apply triple_fail]. }
    intros a w [HG Ha]. by apply G_learn.
  - destruct (_ =? 0); [rewrite Hd; apply remove_K|apply triple_ret; by intros w [? _]].
Qed.

Lemma flush_K : triple (on K) (flushRemovals e : lio _) (λ _, on K).
Proof.
  unfold flushRemovals. apply (triple_bind _ _ _ (λ _, on K)); [intros w HK; by eapply K_same|intros []|done].
  apply (triple_bind _ _ _ (λ res w, match res with Ok t => on (G (listID t) (items t)) w ∧ desired t = Y | Err _ => False end)); [|intros t|done].
  { intros w HK. split; [|apply HK]. split; [exact HK|]. split; [done|]. apply HK. }
  destruct (_ || _); [apply triple_ret; by intros w [[? _] _]|].
  apply triple_pre. intros w [HG Hd]. rewrite Hd. eapply triple_conseq; [apply remove_K|by intros ? ->|done].
Qed.
(** ** Zone rules *)
Lemma zone_call_K {A} verb url o api (call : S → reply (cfResp A) * S) (ev : reply (cfResp A) → list_event) (R : list list_event → Prop) :
  (∀ l v, R l → R (v :: l)) → (∀ l r, R l → right_event Y l (ev r)) →
  triple (on (λ t l, K t l ∧ R l)) (simple_call verb url o api call ev : lio A) (λ res w, match res with
    | Ok a => ∃ status ra r, on (λ t l, (K t l ∧ R l) ∧ ev (Resp status ra (inr r)) ∈ l) w ∧ Success r = true ∧ Result r = a
    | Err _ => on K w end).
Proof.
  intros HR Hr. eapply triple_conseq; [apply (triple_simple_call _ _ _ _ _ _ (λ t l, K t l ∧ R l) (λ r t l, (K t l ∧ R l) ∧ ev r ∈ l))|done|].
  - intros t l r [HK HRl]. split; [|left]. split; [apply K_ev; [done|by apply Hr]|by apply HR].
  - intros [a|x] w; [done|]. by intros [[? _]|(? & [? _] & _)].
Qed.

Lemma marked_cons l v zone id : marked l zone id → marked (v :: l) zone id.
Proof. intros (rs & status & ra & rsp & ru & Hin & Hrest). exists rs, status, ra, rsp, ru. split; [by right|done]. Qed.

Lemma discover_rule_K zone : triple (on K) (discoverListRuleID e zone : lio _) (λ res w, match res with
  | Ok p => on (λ t l, K t l ∧ (p.2 = EmptyString ∨ marked l zone p.2)) w | Err _ => on K w end).
Proof.
  unfold discoverListRuleID, discover_rules.
  apply (triple_bind _ _ _ (λ res w, match res with
    | Ok p => on (λ t l, K t l ∧ ∀ ru, ru ∈ p.2 → isManagedListRule (ru_Description ru) = true → marked l zone (ru_ID ru)) w
    | Err _ => on K w end)); [| |done].
  - eapply triple_bind; [eapply triple_conseq; [apply (zone_call_K _ _ _ _ _ _ (λ _, True)); done|done|intros r w Hr; exact Hr]| |done].
    intros sets. cbn. set (rs := match List.find _ _ with Some _ => _ | None => _ end).
    assert (∀ w : world listState list_event S, (∃ (status : Z) (ra : string) r, on (λ t l, (K t l ∧ True) ∧ (OnZone ∘ GotRulesets zone) (Resp status ra (inr r)) ∈ l) w ∧ Success r = true ∧ Result r = sets) → on (λ t l, K t l ∧ True) w) as Hw.
    { by intros w (? & ? & ? & [? _] & _). }
    case_bool_decide; [apply triple_ret; intros w [HK _]%Hw; split; [done|]; by intros ru ?%elem_of_nil|].
    eapply triple_bind; [eapply triple_conseq; [apply (zone_call_K _ _ _ _ _ (OnZone ∘ GotRuleset zone rs) (λ _, True)); done|exact Hw|intros r w Hr; exact Hr]| |done].
    intros d. apply triple_ret. intros w (status & ra & r & [[HK _] Hin] & Hs & <-). split; [done|].
    intros ru Hru Hm. by exists rs, status, ra, r, ru.
  - intros p. apply triple_ret. intros w [HK Hm]. split; [done|]. cbn.
    destruct (List.find _ p.2) as [ru|] eqn:E; [|by left]. right. apply find_Some_elem in E as [Hin Hd]. by apply Hm.
Qed.

Lemma zone_rule_K zone : triple (on K) (syncZoneRule e zone : lio _) (λ _, on K).
Proof.
  unfold syncZoneRule. apply (triple_bind _ _ _ (λ _, on K)); [by intros w ?|intros t|done].
  case_bool_decide; [by apply triple_ret|].
  assert (our_rule (MkRuleReq (action e) (list_expr (listID t)) cfListRuleDescPattern)) as Hour by (split_and!; [done..|by eexists]).
  eapply triple_bind; [apply discover_rule_K| |done]. intros p. cbn. case_bool_decide as Hp; [case_bool_decide|].
  - unfold createListRulesetWithRule, createRulesetWithRule. apply (triple_bind _ _ _ (λ _, on K)); [|intros ?; by apply triple_ret|done].
    eapply triple_bind; [eapply triple_conseq; [apply (zone_call_K _ _ _ _ _ _ (λ _, True)); [done|]|by intros w [? _]|intros r w Hr; exact Hr]| |done].
    { intros l r _. by eexists. }
    intros d. cbn. destruct (rd_Rules d); [apply triple_fail|apply triple_ret]; by intros w (? & ? & ? & [[? _] _] & _).
  - unfold createListRule, createRule. apply (triple_bind _ _ _ (λ _, on K)); [|intros ?; by apply triple_ret|done].
    eapply triple_bind; [eapply triple_conseq; [apply (zone_call_K _ _ _ _ _ _ (λ _, True)); done|by intros w [? _]|intros r w Hr; exact Hr]| |done].
    intros [d|]; [apply triple_ret|apply triple_fail]; by intros w (? & ? & ? & [[? _] _] & _).
  - unfold updateListRule, patchRule.
    eapply triple_bind; [eapply triple_conseq; [apply (zone_call_K _ _ _ _ _ _ (λ l, marked l zone p.2)); [by intros; apply marked_cons|]| |intros r w Hr; exact Hr]| |done].
    { by intros l r Hm. }
    { intros w [HK [?|Hm]]; [done|by split]. }
    intros d. apply triple_ret. by intros w (? & ? & ? & [[? _] _] & _).
Qed.

Lemma zones_K zones : triple (on K) (sync_zones e zones : lio _) (λ _, on K).
Proof.
  induction zones as [|zone zones IH]; [by apply triple_ret|]. cbn [sync_zones].
  apply (triple_bind _ _ _ (λ _, on K)); [apply triple_wrap, zone_rule_K|intros []; exact IH|done].
Qed.

Lemma schedule_K : triple (on K) (scheduleFlush e : lio _) (λ _, on K).
Proof. unfold scheduleFlush. case_match; [apply push_K|intros w HK; by eapply K_same]. Qed.

Lemma stale_K b : triple (on K) (markMirrorStale e b : lio _) (λ _, on K).
Proof. apply stale_G. intros t l b' n d HK. by eapply K_same. Qed.
End push.

(** ** The operations *)
Lemma op_step {S} `{Net S} `{ListsAPI S} `{ZoneAPI S} o (w : world listState list_event S) : inv (st w) (sent w) →
  inv (st (run_op e o w).2) (sent (run_op e o w).2) ∧ desired (st (run_op e o w).2) = intended e o (desired (st w)) ∧
  grows (right_event (intended e o (desired (st w)))) (sent w) (sent (run_op e o w).2).
Proof.
  intros Hi. set (Y := intended e o (desired (st w))).
  assert (∀ (m : io listState list_event S unit) f,
    (items (f (st w)) = items (st w)) → listID (f (st w)) = listID (st w) → desired (f (st w)) = Y →
    triple (on (K Y (sent w))) m (λ _, on (K Y (sent w))) → on (K Y (sent w)) ((_ ← put_st f; m) w).2) as Hput.
  { intros m f Hit Hl Hd Hm. apply Hm. split; [|split; [done|constructor]]. unfold inv. cbn. by rewrite Hit, Hl. }
  cut (on (K Y (sent w)) (run_op e o w).2); [by intros (? & ? & ?)|].
  assert (desired (st w) = Y → on (K Y (sent w)) w) as Hw by (intros Hd; split; [done|split; [done|constructor]]).
  assert (∀ m : io listState list_event S unit, triple (on (K Y (sent w))) m (λ _, on (K Y (sent w))) →
    triple (on (K Y (sent w))) (_ ← try m; mret tt) (λ _, on (K Y (sent w)))) as Htry.
  { intros m Hm. apply (triple_bind _ _ _ (λ _, on (K Y (sent w)))); [by apply triple_try|intros ?; by apply triple_ret|done]. }
  destruct o as [t|t|want|down| |down]; cbn [run_op intended] in *.
  - unfold Ban. destruct (targetOverlapsAllowlist t (allowlist e)); [by apply Hw|]. destruct (targetKey t) as [k|]; [|by apply Hw].
    apply Hput; [done..|]. apply triple_wrap, schedule_K.
  - unfold Unban. destruct (targetKey t) as [k|]; [|by apply Hw]. apply Hput; [done..|]. apply triple_wrap, schedule_K.
  - unfold Sync. apply Hput; [done..|]. apply (triple_bind _ _ _ (λ _, on (K Y (sent w)))); [apply triple_wrap, push_K|intros []; apply zones_K|done].
  - unfold fire_timer. unfold mbind at 1, io_mbind, get_st. destruct (negb _); [by apply Hw|].
    apply Hput; [done..|]. destruct down; [by apply triple_ret|]. apply Htry, push_K.
  - unfold runRemovalFlusher. destruct (_ <=? 0); [by apply Hw|]. apply (Htry _ (flush_K Y (sent w)) w). by apply Hw.
  - unfold rebuildStaleMirror. unfold mbind at 1, io_mbind, get_st. case_bool_decide; [by apply Hw|].
    apply Hput; [done..|]. destruct (_ || _); [by apply triple_ret|].
    apply (triple_bind _ _ _ (λ _, on (K Y (sent w)))); [apply triple_try, push_K|intros [[]|x]; [by apply triple_ret|]|done].
    apply (triple_bind _ _ _ (λ _, on (K Y (sent w)))); [by intros ? ?|intros t'|done]. destruct (mirrorStale t'); [apply stale_K|by apply triple_ret].
Qed.

Lemma run_inv {S} `{Net S} `{ListsAPI S} `{ZoneAPI S} ops (s : S) : inv (st (run_ops e ops (start s))) (sent (run_ops e ops (start s))).
Proof.
  unfold run_ops. assert (inv (st (start s)) (sent (start s))) as H0' by apply knows_empty.
  revert H0'. generalize (start s) as w. induction ops as [|o ops IH]; intros w Hw; [done|]. cbn. apply IH. by apply op_step.
Qed.
End safe.

(** C21. Several servers can share one Cloudflare list: whatever the API answers, after any history an operation adds only addresses it is to block, tagged as this instance's, deletes only items the API offered as this instance's (by their tag, or echoed to an add of its own) and that are no longer to be blocked, in requests of one to a thousand items, and changes only rules that carry the list's mark. *)
Theorem lists_own {S} `{Net S} `{ListsAPI S} `{ZoneAPI S} (e : CloudflareListsEnforcer) (s : S) (ops : list op) (o : op) :
  let w := run_ops e ops (start s) in
  let Y := intended e o (desired (st w)) in
  desired (st (run_op e o w).2) = Y ∧ grows (right_event e Y) (sent w) (sent (run_op e o w).2).
Proof. apply op_step, run_inv. Qed.
