(* ===== verification/CfListsServer.v ===== *)
(** A Lists API that does its job: a list with its items, pages of five hundred,
    refusal of duplicates, item IDs that are never used twice, bulk operations
    answered at once or by the items they made.  What the calls of [CfLists] get
    from it. *)
From stdpp Require Import sorting.
From S2P Require Import Prelude GoStrings NetipShow EdgeNet CfRules CfLists.

Record server := MkServer {
  s_name : option string;         (* the account's list, when there is one *)
  s_items : list cfListItem;
  s_next : nat;                   (* the number of the next item ID *)
  s_async : bool                  (* bulk operations answer with an operation *)
}.

Definition item_id (n : nat) : string := "item-" +:+ show_Z (Z.of_nat n).
#[global] Arguments item_id : simpl never.
Definition created (n : nat) (tag : string) (ips : list string) : list cfListItem := imap (λ i ip, MkListItem (item_id (n + i)) ip tag) ips.
Definition with_s_items (its : list cfListItem) (next : nat) (s : server) : server := MkServer (s_name s) its next (s_async s).
Definition grow (tag : string) (ips : list string) (s : server) : server :=
  with_s_items (s_items s ++ created (s_next s) tag ips) (s_next s + length ips) s.
Definition shrink (ids : list string) (s : server) : server := with_s_items (filter (λ it, ID it ∉ ids) (s_items s)) (s_next s) s.

Definition cursor_of (off : nat) : string := if bool_decide (off = 0%nat) then EmptyString else show_Z (Z.of_nat off).
Definition offset (cursor : string) : nat := Z.to_nat (default 0 (parse_base digit_val 10 0 cursor)).
Definition page_size : nat := 500.
Definition page (s : server) (off : nat) : cfListItemsResp :=
  MkItemsResp true [] (take page_size (drop off (s_items s))) (if (off + page_size <? length (s_items s))%nat then cursor_of (off + page_size) else EmptyString).

Definition answer {A} (a : A) : reply (cfResp A) := Resp 200 EmptyString (inr (MkCfResp true [] a)).
Definition refusal {A} (code : Z) (text : string) (a : A) : reply (cfResp A) := Resp 400 EmptyString (inr (MkCfResp false [MkAPIError code text] a)).

#[export] Instance server_net : Net server.
Proof.
  refine {| net_wait s := (None, s); net_pause d s := (None, s); net_ctx s := None; net_jitter d s := (d, s); net_order s l := l |}.
  done.
Defined.

(** The ID of the list. *)
Definition the_list : string := "list-1".

Definition duplicates (s : server) (ips : list string) : bool :=
  negb (bool_decide (NoDup ips)) || existsb (λ ip, bool_decide (ip ∈ IP <$> s_items s)) ips.

#[export] Instance server_lists : ListsAPI server := {
  getLists s := (answer (match s_name s with Some n => [MkListInfo the_list n "ip" (Z.of_nat (length (s_items s)))] | None => [] end), s);
  postList q s := (answer (Some (MkListInfo the_list (cl_Name q) (cl_Kind q) 0)), MkServer (Some (cl_Name q)) [] (s_next s) (s_async s));
  getItems lid cursor s :=
    (match s_items s with
     | [] => Resp 400 EmptyString (inr (MkItemsResp false [MkAPIError 10027 "per_page on an empty list"] [] EmptyString))
     | _ => Resp 200 EmptyString (inr (page s (offset cursor)))
     end, s);
  getBulkOp op s := (answer (MkBulkOp op "completed" EmptyString), s);
  postItems lid q s :=
    if duplicates s (q_IP <$> q) then (refusal 10026 "duplicate items in the list" (MkAddBody None None), s)
    else let s' := MkServer (s_name s) (s_items s ++ imap (λ i it, MkListItem (item_id (s_next s + i)) (q_IP it) (q_Comment it)) q)
                     (s_next s + length q) (s_async s) in
         (answer (if s_async s then MkAddBody (Some "operation") None
                  else MkAddBody None (Some (imap (λ i it, MkListItem (item_id (s_next s + i)) (q_IP it) (q_Comment it)) q))), s');
  deleteItems lid ids s := (answer (if s_async s then "operation" else EmptyString), shrink ids s)
}.

(** The zones of the account are not looked at. *)
#[export] Instance server_zones : ZoneAPI server := {
  getRulesets zone s := (answer [], s);
  getRuleset zone rs s := (answer (MkRulesetDetail rs cfRulePhase []), s);
  postRuleset zone q s := (refusal 1 "no zone" (MkRulesetDetail EmptyString EmptyString []), s);
  postRule zone rs q s := (refusal 1 "no zone" None, s);
  patchRule_ zone rs r q s := (refusal 1 "no zone" None, s);
  deleteRule_ zone rs r s := (refusal 1 "no zone" None, s)
}.

(** What such a server keeps to: addresses and IDs are distinct and not empty, fresh IDs are fresh. *)
Definition server_ok (s : server) : Prop :=
  NoDup (IP <$> s_items s) ∧ NoDup (ID <$> s_items s) ∧
  Forall (λ it, IP it ≠ EmptyString ∧ ID it ≠ EmptyString ∧ ∀ n, (s_next s ≤ n)%nat → ID it ≠ item_id n) (s_items s) ∧
  (s_name s = None → s_items s = []).

Lemma item_id_inj : Inj (=) (=) item_id.
Proof.
  intros i j. unfold item_id. intros E%str_app_inj. destruct (show_Z_parse (Z.of_nat i)) as [Hi _]; [lia|].
  destruct (show_Z_parse (Z.of_nat j)) as [Hj _]; [lia|]. rewrite E, Hj in Hi. injection Hi. lia.
Qed.

Lemma created_IP n tag ips : IP <$> created n tag ips = ips.
Proof. unfold created. rewrite fmap_imap. etrans; [apply (imap_const id)|apply list_fmap_id]. Qed.

Lemma created_elem n tag ips it : it ∈ created n tag ips ↔ ∃ i ip, ips !! i = Some ip ∧ it = MkListItem (item_id (n + i)) ip tag.
Proof.
  unfold created. rewrite elem_of_lookup_imap. split; [intros (i & ip & -> & Hi)|intros (i & ip & Hi & ->)]; by exists i, ip.
Qed.

Lemma created_app n tag a b : created n tag (a ++ b) = created n tag a ++ created (n + length a) tag b.
Proof. unfold created. rewrite imap_app. f_equal. apply imap_ext. intros i x _. cbn. do 2 f_equal. lia. Qed.

Lemma grow_app tag a b s : grow tag b (grow tag a s) = grow tag (a ++ b) s.
Proof. unfold grow, with_s_items. cbn. rewrite created_app, <- app_assoc, length_app. f_equal. lia. Qed.

Lemma grow_nil tag s : grow tag [] s = s.
Proof. unfold grow, with_s_items. cbn. rewrite app_nil_r. destruct s. cbn. f_equal. lia. Qed.

Lemma grow_ok tag ips s : server_ok s → is_Some (s_name s) → NoDup ips → Forall (λ ip, ip ≠ EmptyString ∧ ip ∉ IP <$> s_items s) ips → server_ok (grow tag ips s).
Proof.
  intros (Hip & Hid & Hall & Hn) [nm Hs] Hnd Hf. rewrite Forall_forall in Hf. rewrite Forall_forall in Hall. split_and!.
  - cbn. rewrite fmap_app, created_IP. apply NoDup_app. split_and!; [done| |done]. intros x Hx Hx'. by apply (Hf x).
  - cbn. rewrite fmap_app. apply NoDup_app. split_and!; [done| |].
    + intros x Hx (it & -> & (i & ip & Hi & ->)%created_elem)%list_elem_of_fmap. cbn in Hx.
      apply list_elem_of_fmap in Hx as (it & E & Hit). destruct (Hall it Hit) as (_ & _ & Hfr). apply (Hfr (s_next s + i)%nat); [lia|done].
    + clear -Hnd. generalize (s_next s) as n. induction ips as [|ip ips IH]; intros n; [constructor|].
      change (ip :: ips) with ([ip] ++ ips). rewrite created_app. cbn. apply NoDup_cons in Hnd as [_ Hnd]. constructor; [|by apply IH].
      intros (it & E & (i & x & Hi & ->)%created_elem)%list_elem_of_fmap. cbn in E. apply item_id_inj in E. lia.
  - cbn. apply Forall_app. split; apply Forall_forall.
    + intros it Hit. destruct (Hall it Hit) as (? & ? & Hfr). split_and!; [done..|]. intros m Hm. apply Hfr. lia.
    + intros it (i & ip & Hi & ->)%created_elem. cbn. split_and!; [by apply Hf; eapply list_elem_of_lookup_2|done|].
      intros m Hm E%item_id_inj. apply lookup_lt_Some in Hi. lia.
  - cbn. congruence.
Qed.

Lemma shrink_ok ids s : server_ok s → server_ok (shrink ids s).
Proof.
  intros (Hip & Hid & Hall & Hn). cbn. unfold server_ok. cbn.
  assert (∀ {B} (f : cfListItem → B) l, NoDup (f <$> l) → NoDup (f <$> filter (λ it, ID it ∉ ids) l)) as Hf.
  { intros B f l Hl. eapply sublist_NoDup; [exact Hl|]. apply fmap_sublist, sublist_filter. }
  split_and!; [by apply Hf|by apply Hf| |].
  - apply Forall_forall. intros it [_ Hit]%list_elem_of_filter. by rewrite Forall_forall in Hall; apply Hall.
  - intros E. by rewrite (Hn E).
Qed.
