(* ===== verification/CfListsHonest.v ===== *)
(** The Lists enforcer against a server that does its job: after a reconcile the
    list holds, of this instance's items, exactly the addresses to block that
    nobody else blocks already, and everybody else's items are untouched. *)
From stdpp Require Import sorting.
From S2P Require Import Prelude GoStrings Netip NetipShow Sdk EdgeNet CfRules CfLists CfListsSafety CfListsServer.

(** [m] takes the state and the server from one pair to the other, with this result. *)
Definition runs {T V S A} (m : io T V S A) (t : T) (s : S) (r : result goerr A) (t' : T) (s' : S) : Prop :=
  ∀ l, ∃ l', m (MkWorld t s l) = (r, MkWorld t' s' l').

Section runs.
Context {T V S : Type}.
#[local] Notation io := (io T V S).

Lemma runs_ret {A} (a : A) t s : runs (mret a : io A) t s (Ok a) t s.
Proof. intros l. by exists l. Qed.
Lemma runs_fail {A} x t s : runs (fail x : io A) t s (Err x) t s.
Proof. intros l. by exists l. Qed.
Lemma runs_bind {A B} (m : io A) (k : A → io B) t s a t1 s1 r t2 s2 :
  runs m t s (Ok a) t1 s1 → runs (k a) t1 s1 r t2 s2 → runs (m ≫= k) t s r t2 s2.
Proof. intros Hm Hk l. destruct (Hm l) as [l1 E]. destruct (Hk l1) as [l2 E']. exists l2. unfold mbind, io_mbind. by rewrite E. Qed.
Lemma runs_bind_err {A B} (m : io A) (k : A → io B) t s x t1 s1 : runs m t s (Err x) t1 s1 → runs (m ≫= k) t s (Err x) t1 s1.
Proof. intros Hm l. destruct (Hm l) as [l1 E]. exists l1. unfold mbind, io_mbind. by rewrite E. Qed.
Lemma runs_try {A} (m : io A) t s r t' s' : runs m t s r t' s' → runs (try m) t s (Ok r) t' s'.
Proof. intros Hm l. destruct (Hm l) as [l1 E]. exists l1. unfold try. by rewrite E. Qed.
Lemma runs_wrap {A} pre (m : io A) t s a t' s' : runs m t s (Ok a) t' s' → runs (wrap pre m) t s (Ok a) t' s'.
Proof. intros Hm l. destruct (Hm l) as [l1 E]. exists l1. unfold wrap. by rewrite E. Qed.
Lemma runs_get t s : runs (get_st : io T) t s (Ok t) t s.
Proof. intros l. by exists l. Qed.
Lemma runs_put f t s : runs (put_st f : io unit) t s (Ok tt) (f t) s.
Proof. intros l. by exists l. Qed.
Lemma runs_request {A} `{Net S} verb url (call : S → reply A * S) (ev : reply A → V) t s status ra dec s' :
  call s = (Resp status ra dec, s') → runs (request verb url call ev : io _) t s (Ok (status, ra, dec)) t s'.
Proof. intros Hc l. eexists. unfold request, mbind, io_mbind, lift, log. cbn. rewrite Hc. done. Qed.
End runs.

Lemma runs_wait {T V} t (s : server) : runs (wait : io T V server unit) t s (Ok tt) t s.
Proof. intros l. by exists l. Qed.

Section honest.
Context (e : CloudflareListsEnforcer).
#[local] Notation lio := (io listState list_event server).

Lemma runs_simple {A} verb url o api (call : server → reply (cfResp A) * server) (ev : reply (cfResp A) → list_event) t s a s' :
  call s = (answer a, s') → runs (simple_call verb url o api call ev : lio A) t s (Ok a) t s'.
Proof.
  intros Hc. unfold simple_call. eapply runs_bind; [apply runs_wait|].
  eapply runs_bind; [by apply runs_request|]. cbn. apply runs_ret.
Qed.

Lemma runs_mutate {A} o verb url (call : server → reply (cfResp A) * server) (ev : reply (cfResp A) → list_event) t s a s' :
  call s = (answer a, s') → runs (mutateWithRetry e o verb url call ev : lio A) t s (Ok a) t s'.
Proof.
  intros Hc. unfold mutateWithRetry. destruct (length (retryDelays e)); cbn [mutate_attempts];
    (eapply runs_bind; [apply runs_wait|]; eapply runs_bind; [by apply runs_request|]; cbn; apply runs_ret).
Qed.

Lemma runs_refused {A} o verb url (call : server → reply (cfResp A) * server) (ev : reply (cfResp A) → list_event) t s code text a s' :
  call s = (refusal code text a, s') → code ∉ cfThrottleCodes →
  runs (mutateWithRetry e o verb url call ev : lio A) t s (Err (EText ("cloudflare " +:+ o +:+ ": " +:+ cfErrMsg [MkAPIError code text]))) t s'.
Proof.
  intros Hc Ht. unfold mutateWithRetry.
  assert (cfIsThrottle 400 [MkAPIError code text] = false) as Hn by (unfold cfIsThrottle; cbn [existsb Code]; by rewrite bool_decide_eq_false_2).
  destruct (length (retryDelays e)); cbn [mutate_attempts];
    (eapply runs_bind; [apply runs_wait|]; eapply runs_bind; [by apply runs_request|]; cbn [fst snd Success Errors]; rewrite Hn; apply runs_fail).
Qed.

Lemma runs_page {A} url (call : server → reply A * server) (ev : reply A → list_event) t s status ra dec s' :
  call s = (Resp status ra dec, s') → runs (getPageWithRetry e url call ev : lio _) t s (Ok dec) t s'.
Proof.
  intros Hc. unfold getPageWithRetry. destruct (length (pageRetryDelays e)); cbn [page_attempts];
    (eapply runs_bind; [by apply runs_try, runs_request|]; cbn; apply runs_ret).
Qed.

(** ** Reading *)
Lemma offset_cursor off : offset (cursor_of off) = off.
Proof.
  unfold offset, cursor_of. case_bool_decide; [by subst|]. destruct (show_Z_parse (Z.of_nat off)) as [-> _]; [lia|]. cbn. lia.
Qed.

Lemma getItems_run lid cursor s : s_items s ≠ [] →
  getItems lid cursor s = (Resp 200 EmptyString (inr (page s (offset cursor))), s).
Proof. cbn. by destruct (s_items s). Qed.

Lemma fetch_pages_run fuel off acc t s lid : s_items s ≠ [] → (off < length (s_items s))%nat → (length (s_items s) ≤ off + fuel * page_size)%nat →
  runs (fetch_pages e fuel lid (cursor_of off) acc : lio _) t s (Ok (foldl (read_item e) acc (drop off (s_items s)))) t s.
Proof.
  intros Hne. revert off acc. induction fuel as [|fuel IH]; intros off acc Hoff Hlen; [lia|]. cbn [fetch_pages].
  eapply runs_bind; [apply runs_wait|].
  eapply runs_bind; [by eapply runs_page, getItems_run|]. cbn [it_Success page negb].
  rewrite offset_cursor. unfold page. cbn [it_Result After].
  assert (cursor_of (off + page_size) ≠ EmptyString) as Hcne.
  { unfold cursor_of. rewrite bool_decide_eq_false_2 by (unfold page_size; lia). apply show_Z_nonempty. lia. }
  destruct (Nat.ltb_spec (off + page_size) (length (s_items s))) as [Hlt|Hge].
  - rewrite (bool_decide_eq_false_2 (cursor_of (off + page_size) = EmptyString)) by done. rewrite bool_decide_eq_false_2.
    2: { intros E. apply (f_equal offset) in E. rewrite !offset_cursor in E. unfold page_size in E. lia. }
    cbn [orb]. assert (drop off (s_items s) = take page_size (drop off (s_items s)) ++ drop (off + page_size) (s_items s)) as ->.
    { rewrite <- drop_drop. by rewrite take_drop. }
    rewrite foldl_app. rewrite take_app_length'; [|rewrite length_take, length_drop; lia]. apply IH; lia.
  - rewrite bool_decide_eq_true_2 by done. cbn [orb]. rewrite take_ge by (rewrite length_drop; lia). apply runs_ret.
Qed.

Definition fits (s : server) : Prop := (length (s_items s) ≤ maxPages * page_size)%nat.
Definition read (s : server) : gmap string string * gset string := foldl (read_item e) (∅, ∅) (s_items s).

Lemma fetch_run n t s lid : fits s → (n = 0 ↔ s_items s = []) →
  runs (fetchAllItems e lid n : lio _) t s (Ok (read s)) t s.
Proof.
  intros Hf Hn. unfold fetchAllItems, read. destruct (Z.eqb_spec n 0) as [E|E].
  - apply Hn in E. rewrite E. apply runs_ret.
  - assert (s_items s ≠ []) as Hne by (intros Hi; by apply E, Hn).
    change EmptyString with (cursor_of 0). eapply (fetch_pages_run maxPages 0 (∅, ∅)); [done| |].
    + destruct (s_items s); [done|cbn; lia].
    + unfold fits in Hf. lia.
Qed.

(** The own items of a list, by address. *)
Definition mirrors (m : gmap string string) (its : list cfListItem) : Prop := ∀ ip id,
  m !! ip = Some id ↔ ∃ it, it ∈ its ∧ IP it = ip ∧ ID it = id ∧ ownsItem e (Comment it) = true.

Lemma read_spec its : NoDup (IP <$> its) → Forall (λ it, IP it ≠ EmptyString) its →
  mirrors (foldl (read_item e) (∅, ∅) its).1 its ∧ (foldl (read_item e) (∅, ∅) its).2 = list_to_set (IP <$> its).
Proof.
  induction its as [|it its IH] using rev_ind; intros Hnd Hne.
  - split; [|done]. intros ip id. cbn [foldl fst]; rewrite lookup_empty. split; [done|]. by intros (it & ?%elem_of_nil & _).
  - rewrite fmap_app in Hnd. apply NoDup_app in Hnd as (Hnd & Hdis & _). apply Forall_app in Hne as [Hne Hit]. rewrite Forall_singleton in Hit.
    destruct (IH Hnd Hne) as [Hm Hp]. rewrite foldl_app. cbn [foldl]. unfold read_item at 1 3. rewrite bool_decide_eq_false_2 by done. cbn [fst snd].
    split; [|rewrite Hp, fmap_app, list_to_set_app_L; cbn; set_solver].
    intros ip id. destruct (ownsItem e (Comment it)) eqn:Eo.
    + destruct (decide (IP it = ip)) as [<-|Hneq].
      * rewrite lookup_insert_eq. split; [intros [= <-]; exists it; set_solver|].
        intros (it' & [Hin| ->%list_elem_of_singleton]%elem_of_app & E & <- & _); [|done].
        destruct (Hdis (IP it)); [|set_solver]. rewrite <- E. by apply list_elem_of_fmap_2.
      * rewrite lookup_insert_ne by done. rewrite (Hm ip id). split; [intros (it' & ? & ?); exists it'; set_solver|].
        intros (it' & [Hin| ->%list_elem_of_singleton]%elem_of_app & E & Hr); [by exists it'|done].
    + rewrite (Hm ip id). split; [intros (it' & ? & ?); exists it'; set_solver|].
      intros (it' & [Hin| ->%list_elem_of_singleton]%elem_of_app & E & Hr); [by exists it'|]. destruct Hr; congruence.
Qed.
(** ** Writing *)
Definition item_of (n : nat) (ips : list string) : list cfListItem := created n (ownTag e) ips.
Definition add_item (m : gmap string string) (it : cfListItem) : gmap string string :=
  if bool_decide (IP it = EmptyString) || bool_decide (ID it = EmptyString) then m else <[IP it := ID it]> m.
Definition fresh_ips (s : server) (ips : list string) : Prop := Forall (λ ip, ip ∉ IP <$> s_items s) ips.

Lemma settle_run o t s : runs (settle e o : lio unit) t s (Ok tt) t s.
Proof.
  unfold settle. case_bool_decide; [apply runs_ret|].
  apply (runs_bind _ _ _ _ (Ok tt) t s); [apply runs_try|apply runs_ret]. unfold waitBulkOperation, cfBulkOpPollMax. cbn [poll].
  eapply runs_bind; [apply runs_wait|]. eapply runs_bind; [by eapply runs_try, runs_page|]. cbn. apply runs_ret.
Qed.

Lemma duplicates_false s ips : NoDup ips → fresh_ips s ips → duplicates s ips = false.
Proof.
  intros Hn Hf. unfold duplicates. rewrite bool_decide_eq_true_2 by done. apply existsb_false_elem. intros ip Hip.
  apply bool_decide_eq_false_2. by eapply Forall_forall in Hf.
Qed.

Lemma post_run lid ips s : duplicates s ips = false →
  postItems lid ((λ ip, MkItemReq ip (ownTag e)) <$> ips) s =
    (answer (if s_async s then MkAddBody (Some "operation") None else MkAddBody None (Some (item_of (s_next s) ips))), grow (ownTag e) ips s).
Proof.
  intros Hd. cbn. rewrite <- list_fmap_compose. rewrite (list_fmap_ext _ id ips) by done. rewrite list_fmap_id, Hd.
  unfold grow, with_s_items, item_of, created. rewrite length_fmap, imap_fmap. done.
Qed.

Lemma add_batches_run lid todo out need t s : Forall (λ b, b ≠ []) todo → NoDup (concat todo) →
  ¬ fresh_ips s (concat todo) ∧ (∃ pre post x, concat todo = pre ++ post ∧ fresh_ips s pre ∧ isCFDuplicateErr x = true ∧ s_items (grow (ownTag e) pre s) ≠ [] ∧
     runs (add_batches e lid todo out need : lio _) t s (Err x) t (grow (ownTag e) pre s)) ∨
  fresh_ips s (concat todo) ∧
  runs (add_batches e lid todo out need : lio _) t s
    (Ok (if s_async s then out else foldl add_item out (item_of (s_next s) (concat todo)), need || s_async s && bool_decide (todo ≠ []))) t (grow (ownTag e) (concat todo) s).
Proof.
  revert out need s. induction todo as [|b todo IH]; intros out need s Hb Hnd.
  { right. split; [constructor|]. cbn. rewrite grow_nil, andb_false_r, orb_false_r. destruct (s_async s); apply runs_ret. }
  apply Forall_cons_1 in Hb as [Hb0 Hb]. cbn [concat] in *. apply NoDup_app in Hnd as (Hnb & Hdis & Hnd). cbn [add_batches].
  destruct (duplicates s b) eqn:Ed.
  { left. split; [intros Hf; apply Forall_app in Hf as [Hf _]; by rewrite (duplicates_false s b Hnb Hf) in Ed|]. exists [], (b ++ concat todo), (EText "cloudflare add items: 10026: duplicate items in the list"). rewrite grow_nil. split_and!; [done|constructor|reflexivity| |].
    { intros Hi. unfold duplicates in Ed. rewrite bool_decide_eq_true_2, Hi in Ed by done. cbn in Ed.
      apply existsb_exists_elem in Ed as (ip & _ & Hip). apply bool_decide_eq_true_1, elem_of_nil in Hip. done. }
    eapply runs_bind_err. apply (runs_refused "add items" _ _ _ _ _ _ 10026 "duplicate items in the list" (MkAddBody None None)); [|by vm_compute; set_solver].
    cbn. rewrite <- list_fmap_compose. rewrite (list_fmap_ext _ id b) by done. by rewrite list_fmap_id, Ed. }
  assert (fresh_ips s b) as Hfb.
  { apply Forall_forall. intros ip Hip Hin. unfold duplicates in Ed. apply orb_false_iff in Ed as [_ Ed]. rewrite existsb_false_elem in Ed.
    specialize (Ed ip Hip). by apply bool_decide_eq_false_1 in Ed. }
  assert (∀ ips, fresh_ips (grow (ownTag e) b s) ips → fresh_ips s ips) as Hweak.
  { intros ips Hf. eapply Forall_impl; [exact Hf|]. intros ip. cbn. rewrite fmap_app. set_solver. }
  set (out1 := if s_async s then out else foldl add_item out (item_of (s_next s) b)).
  set (need1 := need || s_async s).
  assert (∀ r t' s', runs (add_batches e lid todo out1 need1 : lio _) t (grow (ownTag e) b s) r t' s' →
    runs (add_batches e lid (b :: todo) out need : lio _) t s r t' s') as Hgo.
  { intros r t' s' Hr. cbn [add_batches]. eapply runs_bind; [apply runs_mutate, (post_run lid b s Ed)|].
    eapply runs_bind; [apply settle_run|]. unfold out1, need1 in Hr. destruct (s_async s); cbn; [by rewrite orb_true_r in Hr|].
    rewrite orb_false_r in Hr. destruct b as [|ip b']; [done|]. exact Hr. }
  destruct (IH out1 need1 (grow (ownTag e) b s) Hb Hnd) as [(Hnf & pre & post & x & Ecat & Hf & Hx & Hi & Hr)|[Hf Hr]].
  - left. split.
    { intros Hall. apply Forall_app in Hall as [_ Hall]. apply Hnf. apply Forall_forall. intros ip Hip. cbn. rewrite fmap_app, created_IP, elem_of_app.
      rewrite Forall_forall in Hall. intros [Hin|Hin]; [exact (Hall ip Hip Hin)|by eapply Hdis]. }
    rewrite Ecat.
    exists (b ++ pre), post, x. rewrite <- grow_app. split_and!; [by rewrite <- app_assoc| |done|exact Hi|].
    + apply Forall_app. split; [done|by apply Hweak].
    + by apply Hgo.
  - right. split; [apply Forall_app; split; [done|by apply Hweak]|]. rewrite bool_decide_eq_true_2 by done. rewrite andb_true_r.
    apply Hgo. rewrite <- grow_app. unfold out1, need1, item_of in *. cbn [s_async grow with_s_items s_next] in Hr.
    destruct (s_async s); cbn [andb] in *; rewrite ?orb_true_r, ?orb_false_r in *; [exact Hr|].
    rewrite created_app, foldl_app. exact Hr.
Qed.
Lemma own_tag : ownsItem e (ownTag e) = true.
Proof. unfold ownsItem. by rewrite bool_decide_eq_true_2. Qed.

Lemma add_items_mirror its : NoDup (IP <$> its) → Forall (λ it, IP it ≠ EmptyString ∧ ID it ≠ EmptyString ∧ Comment it = ownTag e) its →
  mirrors (foldl add_item ∅ its) its.
Proof.
  induction its as [|it its IH] using rev_ind; intros Hnd Hf.
  - intros ip id. cbn. rewrite lookup_empty. split; [done|]. by intros (it & ?%elem_of_nil & _).
  - rewrite fmap_app in Hnd. apply NoDup_app in Hnd as (Hnd & Hdis & _). apply Forall_app in Hf as [Hf Hit]. rewrite Forall_singleton in Hit.
    destruct Hit as (H1 & H2 & H3). specialize (IH Hnd Hf). rewrite foldl_app. cbn [foldl]. unfold add_item at 1. rewrite !bool_decide_eq_false_2 by done. cbn [orb].
    intros ip id. destruct (decide (IP it = ip)) as [<-|Hneq].
    + rewrite lookup_insert_eq. split; [intros [= <-]; exists it; rewrite H3, own_tag; set_solver|].
      intros (it' & [Hin| ->%list_elem_of_singleton]%elem_of_app & E & <- & _); [|done].
      destruct (Hdis (IP it)); [|set_solver]. rewrite <- E. by apply list_elem_of_fmap_2.
    + rewrite lookup_insert_ne by done. rewrite (IH ip id). split; [intros (it' & ? & ?); exists it'; set_solver|].
      intros (it' & [Hin| ->%list_elem_of_singleton]%elem_of_app & E & Hr); [by exists it'|done].
Qed.

Lemma created_fields n ips : Forall (λ ip, ip ≠ EmptyString) ips →
  Forall (λ it, IP it ≠ EmptyString ∧ ID it ≠ EmptyString ∧ Comment it = ownTag e) (item_of n ips).
Proof.
  rewrite Forall_forall. intros Hf. apply Forall_forall. intros it (i & ip & Hi & ->)%created_elem. cbn.
  split_and!; [by apply Hf; eapply list_elem_of_lookup_2|done|done].
Qed.

Lemma pick_spec (all : gmap string string) ips ip id :
  foldl (λ (m : gmap string string) ip, match all !! ip with Some id => <[ip := id]> m | None => m end) ∅ ips !! ip = Some id ↔ ip ∈ ips ∧ all !! ip = Some id.
Proof.
  induction ips as [|x ips IH] using rev_ind; [cbn; rewrite lookup_empty; set_solver|]. rewrite foldl_app. cbn [foldl].
  rewrite elem_of_app, list_elem_of_singleton. destruct (all !! x) as [i|] eqn:E.
  - destruct (decide (x = ip)) as [->|Hne]; [rewrite lookup_insert_eq, E; naive_solver|rewrite lookup_insert_ne by done]. rewrite IH. naive_solver.
  - rewrite IH. naive_solver.
Qed.

Lemma addItems_run lid ips t s : server_ok s → is_Some (s_name s) → ips ≠ [] → NoDup ips → Forall (λ ip, ip ≠ EmptyString) ips → fits (grow (ownTag e) ips s) →
  ¬ fresh_ips s ips ∧ (∃ pre post x, ips = pre ++ post ∧ fresh_ips s pre ∧ isCFDuplicateErr x = true ∧ s_items (grow (ownTag e) pre s) ≠ [] ∧ runs (addItems e lid ips : lio _) t s (Err x) t (grow (ownTag e) pre s)) ∨
  fresh_ips s ips ∧ ∃ m, runs (addItems e lid ips : lio _) t s (Ok m) t (grow (ownTag e) ips s) ∧ mirrors m (item_of (s_next s) ips).
Proof.
  intros Hok Hnm Hne Hnd Hes Hfit. unfold addItems.
  destruct (batches_spec cfListBatchMax ips (length ips)) as [Hc Hb]; [unfold cfListBatchMax; lia|done|].
  assert (Forall (λ b : list string, b ≠ []) (batches (length ips) cfListBatchMax ips)) as Hb'.
  { eapply Forall_impl; [exact Hb|]. intros b Hl ->. cbn in Hl. lia. }
  destruct (add_batches_run lid _ ∅ false t s Hb') as [(Hnf & pre & post & x & E & Hf & Hx & Hi & Hr)|[Hf Hr]]; [by rewrite Hc| |]; rewrite Hc in *.
  - left. split; [done|]. exists pre, post, x. split_and!; [done..|]. by eapply runs_bind_err.
  - right. split; [done|]. cbn [orb] in Hr. rewrite bool_decide_eq_true_2 in Hr by (intros E; rewrite E in Hc; by subst). rewrite andb_true_r in Hr.
    assert (server_ok (grow (ownTag e) ips s)) as Hok'.
    { apply grow_ok; [done..|]. apply Forall_forall. intros ip Hip. rewrite Forall_forall in Hes. unfold fresh_ips in Hf. rewrite Forall_forall in Hf. auto. }
    destruct (s_async s).
    + destruct (read_spec (s_items (grow (ownTag e) ips s))) as [Hm _]; [apply Hok'|eapply Forall_impl; [apply Hok'|]; by intros it (? & _)|].
      assert (s_items (grow (ownTag e) ips s) ≠ []) as Hgne.
      { cbn. intros [_ E]%app_eq_nil. apply (f_equal (fmap IP)) in E. by rewrite created_IP in E. }
      destruct (read (grow (ownTag e) ips s)) as [all present] eqn:Er. eexists. split.
      * eapply runs_bind; [exact Hr|]. cbn [snd negb]. eapply runs_bind; [eapply runs_try, (fetch_run 1); [exact Hfit|by split]|].
        rewrite Er. cbn. apply runs_ret.
      * intros ip id. cbn [fst]. rewrite pick_spec. unfold read in Er. rewrite Er in Hm. cbn [fst] in Hm. rewrite (Hm ip id). split.
        -- intros (Hip & it & Hit & <- & <- & Ho). exists it. split_and!; [|done..]. cbn in Hit. apply elem_of_app in Hit as [Hit|Hit]; [|done].
           exfalso. unfold fresh_ips in Hf. rewrite Forall_forall in Hf. apply (Hf _ Hip). by apply list_elem_of_fmap_2.
        -- intros (it & Hit & <- & <- & Ho). split; [|exists it; cbn; set_solver].
           unfold item_of in Hit. apply (list_elem_of_fmap_2 IP) in Hit. by rewrite created_IP in Hit.
    + eexists. split; [eapply runs_bind; [exact Hr|]; cbn; apply runs_ret|].
      apply add_items_mirror; [unfold item_of; by rewrite created_IP|by apply created_fields].
Qed.
(** ** The push *)
Definition mine (s : server) (ip : string) : Prop := ∃ it, it ∈ s_items s ∧ IP it = ip ∧ ownsItem e (Comment it) = true.
Definition theirs (s : server) (ip : string) : Prop := ∃ it, it ∈ s_items s ∧ IP it = ip ∧ ownsItem e (Comment it) = false.
Definition others (s : server) : list cfListItem := filter (λ it, ownsItem e (Comment it) = false) (s_items s).

(** The mirror of a state that is up to date. *)
Definition tracks (t : listState) (s : server) : Prop :=
  discovered t = true ∧ mirrorStale t = false ∧ listID t = the_list ∧ s_name s = Some (listName e) ∧
  mirrors (items t) (s_items s) ∧ ∀ ip, ip ∈ foreign t → theirs s ip.

Lemma mirrors_app m its m' extra : mirrors m its → mirrors m' extra → NoDup (IP <$> its ++ extra) → mirrors (m' ∪ m) (its ++ extra).
Proof.
  intros Hm Hm' Hnd ip id. rewrite fmap_app in Hnd. apply NoDup_app in Hnd as (_ & Hdis & _). rewrite lookup_union_Some_raw. split.
  - intros [Hi|[_ Hi]]; [apply Hm' in Hi as (it & ? & ?)|apply Hm in Hi as (it & ? & ?)]; exists it; set_solver.
  - intros (it & [Hin|Hin]%elem_of_app & <- & <- & Ho); [right|left; apply Hm'; by exists it].
    split; [|apply Hm; by exists it]. apply eq_None_not_Some. intros [id Hid]. apply Hm' in Hid as (it' & Hin' & E & _).
    apply (Hdis (IP it)); [by apply list_elem_of_fmap_2|]. rewrite <- E. by apply list_elem_of_fmap_2.
Qed.

(** [s'] is [s] with new items of ours for addresses of [D]. *)
Definition extends (D : gset string) (s s' : server) : Prop :=
  server_ok s' ∧ ∃ extra, s_items s' = s_items s ++ extra ∧ Forall (λ it, Comment it = ownTag e ∧ IP it ∈ D) extra.

Lemma extends_refl D s : server_ok s → extends D s s.
Proof. intros Hok. split; [done|]. exists []. by rewrite app_nil_r. Qed.
Lemma extends_trans D s s1 s2 : extends D s s1 → extends D s1 s2 → extends D s s2.
Proof.
  intros (_ & x & E & Hx) (Hok & y & E' & Hy). split; [done|].
  exists (x ++ y). rewrite E', E, app_assoc. split; [done|]. by apply Forall_app.
Qed.
Lemma extends_grow D ips s : server_ok s → is_Some (s_name s) → NoDup ips → Forall (λ ip, ip ≠ EmptyString ∧ ip ∈ D) ips → fresh_ips s ips → extends D s (grow (ownTag e) ips s).
Proof.
  intros Hok Hn Hnd Hf Hfr. rewrite Forall_forall in Hf. unfold fresh_ips in Hfr. rewrite Forall_forall in Hfr. split.
  - apply grow_ok; [done..|]. apply Forall_forall. intros ip Hip. split; [by apply Hf|by apply Hfr].
  - eexists. split; [done|]. apply Forall_forall. intros it (i & ip & Hi & ->)%created_elem. cbn. split; [done|]. apply Hf. by eapply list_elem_of_lookup_2.
Qed.
Lemma extends_theirs D s s' ip : extends D s s' → theirs s' ip ↔ theirs s ip.
Proof.
  intros (_ & x & E & Hx). unfold theirs. rewrite E. split; intros (it & Hin & Hr); exists it; [|set_solver].
  split; [|done]. apply elem_of_app in Hin as [?|Hin]; [done|]. rewrite Forall_forall in Hx. destruct (Hx _ Hin) as [Hc _], Hr as [_ Hr].
  by rewrite Hc, own_tag in Hr.
Qed.
Lemma extends_others D s s' : extends D s s' → others s' = others s.
Proof.
  intros (_ & x & E & Hx). unfold others. rewrite E, filter_app.
  assert (filter (λ it, ownsItem e (Comment it) = false) x = []) as ->; [|by rewrite app_nil_r].
  clear E. induction Hx as [|it x [Hc _] _ IH]; [done|]. rewrite filter_cons_False; [done|]. by rewrite Hc, own_tag.
Qed.
Lemma extends_mine D s s' ip : extends D s s' → mine s' ip → mine s ip ∨ ip ∈ D.
Proof.
  intros (_ & x & E & Hx) (it & Hin & <- & Ho). rewrite E in Hin. apply elem_of_app in Hin as [Hin|Hin]; [left; by exists it|right].
  rewrite Forall_forall in Hx. by apply Hx.
Qed.
Lemma extends_mine_mono D s s' ip : extends D s s' → mine s ip → mine s' ip.
Proof. intros (_ & x & E & Hx) (it & Hin & Hr). exists it. rewrite E. set_solver. Qed.

(** Two items of one list with the same address are the same. *)
Lemma ip_inj s it it' : server_ok s → it ∈ s_items s → it' ∈ s_items s → IP it = IP it' → it = it'.
Proof.
  intros (Hnd & _) (i & Hi)%list_elem_of_lookup (j & Hj)%list_elem_of_lookup E.
  assert (i = j) as ->; [|congruence]. eapply NoDup_lookup; [exact Hnd| |]; rewrite list_lookup_fmap, ?Hi, ?Hj; [done|cbn; by rewrite E].
Qed.
Lemma id_inj s it it' : server_ok s → it ∈ s_items s → it' ∈ s_items s → ID it = ID it' → it = it'.
Proof.
  intros (_ & Hnd & _) (i & Hi)%list_elem_of_lookup (j & Hj)%list_elem_of_lookup E.
  assert (i = j) as ->; [|congruence]. eapply NoDup_lookup; [exact Hnd| |]; rewrite list_lookup_fmap, ?Hi, ?Hj; [done|cbn; by rewrite E].
Qed.
Lemma mine_not_theirs s ip : server_ok s → mine s ip → ¬ theirs s ip.
Proof. intros Hok (it & Hin & <- & Ho) (it' & Hin' & E & Ho'). apply (ip_inj s it' it Hok) in E; [congruence|done..]. Qed.

Lemma discover_run t s : server_ok s → fits s → (s_name s = None ∨ s_name s = Some (listName e)) →
  (tracks t s ∨ discovered t && negb (mirrorStale t) = false) →
  ∃ t1 s1, runs (ensure_discovered e : lio unit) t s (Ok tt) t1 s1 ∧ tracks t1 s1 ∧ desired t1 = desired t ∧ extends ∅ s s1.
Proof.
  intros Hok Hf Hn Ht. unfold ensure_discovered. destruct (discovered t && negb (mirrorStale t)) eqn:E.
  { destruct Ht as [Ht|]; [|done]. exists t, s. split; [|split; [done|split; [done|by apply extends_refl]]].
    eapply runs_bind; [apply runs_get|]. rewrite E. apply runs_ret. }
  clear Ht. assert (li_Kind_ok : ∀ n, bool_decide (li_Kind (MkListInfo the_list (listName e) "ip" n) = "ip"%string) = true) by done.
  destruct Hn as [Hn|Hn].
  - pose proof Hok as (_ & _ & _ & Hempty). specialize (Hempty Hn).
    exists (MkListState true the_list ∅ (desired t) ∅ (timer t) false 0 (staleTimer t)), (MkServer (Some (listName e)) [] (s_next s) (s_async s)).
    split; [|split; [|split; [done|]]].
    + eapply runs_bind; [apply runs_get|]. rewrite E. eapply runs_bind.
      { unfold discoverList. eapply runs_bind; [by apply runs_simple|]. rewrite Hn. cbn [List.find]. apply runs_ret. }
      cbn [fst snd]. rewrite bool_decide_eq_true_2 by done. eapply runs_bind.
      { eapply runs_bind; [|apply runs_ret]. unfold createList. eapply runs_bind; [by apply runs_simple|]. cbn. apply runs_ret. }
      intros l. by eexists.
    + split_and!; [done..| |]; [|by intros ip ?%elem_of_empty]. intros ip id. cbn. rewrite lookup_empty. split; [done|]. by intros (it & ?%elem_of_nil & _).
    + split; [split_and!; [constructor|constructor|constructor|done]|]. exists []. by rewrite Hempty.
  - destruct (read_spec (s_items s)) as [Hm Hp]; [apply Hok|eapply Forall_impl; [apply Hok|]; by intros it (? & _)|].
    exists (MkListState true the_list (read s).1 (desired t) (filter (λ ip, (read s).1 !! ip = None) (read s).2) (timer t) false 0 (staleTimer t)), s.
    split; [|split; [|split; [done|by apply extends_refl]]].
    + eapply runs_bind; [apply runs_get|]. rewrite E. eapply runs_bind.
      { unfold discoverList. eapply runs_bind; [by apply runs_simple|]. rewrite Hn. cbn [List.find].
        rewrite bool_decide_eq_true_2 by done. rewrite li_Kind_ok. cbn [andb li_ID]. rewrite bool_decide_eq_false_2 by done.
        eapply runs_bind; [apply fetch_run; [done|]|apply runs_ret]. cbn. destruct (s_items s); cbn; split; intros; done || lia. }
      cbn [fst snd]. rewrite bool_decide_eq_false_2 by done. eapply runs_bind; [apply runs_ret|]. intros l. by eexists.
    + split_and!; [done..| |]; [exact Hm|]. intros ip [Hnone Hin]%elem_of_filter. unfold read in Hin. rewrite Hp in Hin.
      apply elem_of_list_to_set, list_elem_of_fmap in Hin as (it & -> & Hin). exists it. split_and!; [done..|].
      destruct (ownsItem e (Comment it)) eqn:Eo; [|done]. exfalso. unfold read in Hnone.
      assert ((foldl (read_item e) (∅, ∅) (s_items s)).1 !! IP it = Some (ID it)) as Hs by (apply Hm; by exists it). congruence.
Qed.

(** ** After a duplicate refusal *)
Definition retry_step (p : gmap string string * gset string) (t : listState) (ip : string) : listState :=
  match p.1 !! ip with
  | Some id => with_items (<[ip := id]>) t
  | None => if bool_decide (ip ∈ p.2) then with_foreign (union {[ip]}) t else t
  end.

Lemma retry_state p want t : let t' := foldl (retry_step p) t want in
  discovered t' = discovered t ∧ mirrorStale t' = mirrorStale t ∧ listID t' = listID t ∧ desired t' = desired t ∧
  (∀ ip id, items t' !! ip = Some id ↔ (ip ∈ want ∧ p.1 !! ip = Some id) ∨ ((ip ∉ want ∨ p.1 !! ip = None) ∧ items t !! ip = Some id)) ∧
  (∀ ip, ip ∈ foreign t' ↔ ip ∈ foreign t ∨ ip ∈ want ∧ p.1 !! ip = None ∧ ip ∈ p.2).
Proof.
  induction want as [|x want IH] using rev_ind.
  { cbn. split_and!; [done..| |]; intros; [|set_solver]. split; [intros Hi; right; split; [left; apply not_elem_of_nil|done]|]. intros [[?%elem_of_nil _]|[_ ?]]; done. }
  cbn. rewrite foldl_app. cbn [foldl]. destruct IH as (H1 & H2 & H3 & H4 & H5 & H6). unfold retry_step at 1 3 5 7 9 11.
  destruct (p.1 !! x) as [i|] eqn:E; [|case_bool_decide as Hx]; cbn; split_and!; try done.
  - intros ip id. rewrite elem_of_app, list_elem_of_singleton. destruct (decide (x = ip)) as [->|Hne].
    + rewrite lookup_insert_eq, E. naive_solver.
    + rewrite lookup_insert_ne by done. rewrite H5. naive_solver.
  - intros ip. rewrite H6, elem_of_app, list_elem_of_singleton. naive_solver congruence.
  - intros ip id. rewrite H5, elem_of_app, list_elem_of_singleton. destruct (decide (x = ip)) as [->|Hne]; [rewrite E|]; naive_solver.
  - intros ip. rewrite elem_of_union, elem_of_singleton, H6, elem_of_app, list_elem_of_singleton. naive_solver.
  - intros ip id. rewrite H5, elem_of_app, list_elem_of_singleton. destruct (decide (x = ip)) as [->|Hne]; [rewrite E|]; naive_solver.
  - intros ip. rewrite H6, elem_of_app, list_elem_of_singleton. naive_solver.
Qed.
Definition roomy (D : gset string) (s : server) : Prop := (length (s_items s) + size D ≤ maxPages * page_size)%nat.

Lemma dom_length (D : gset string) (ips : list string) : NoDup ips → Forall (.∈ D) ips → (length ips ≤ size D)%nat.
Proof.
  intros Hnd Hf. rewrite <- (size_list_to_set (C := gset string) ips Hnd). apply subseteq_size.
  intros ip Hip%elem_of_list_to_set. rewrite Forall_forall in Hf. auto.
Qed.

(** A successful add brings the mirror up to date. *)
Lemma add_tracks (D : gset string) ips t s m : server_ok s → tracks t s → NoDup ips → Forall (λ ip, ip ≠ EmptyString ∧ ip ∈ D) ips → fresh_ips s ips →
  mirrors m (item_of (s_next s) ips) →
  extends D s (grow (ownTag e) ips s) ∧ tracks (with_items (union m) t) (grow (ownTag e) ips s) ∧ ∀ ip, ip ∈ ips → mine (grow (ownTag e) ips s) ip.
Proof.
  intros Hok (Hd & Hs & Hl & Hn & Hm & Hfo) Hnd Hf Hfr Hm'.
  assert (extends D s (grow (ownTag e) ips s)) as Hext by (apply extends_grow; [done|by eexists|done..]).
  split; [done|]. split.
  - pose proof Hext as [(Hnd' & _) _]. split_and!; [exact Hd|exact Hs|exact Hl|exact Hn| |]; cbn; [by apply mirrors_app|]. intros ip Hip. rewrite (extends_theirs D s _ ip Hext). by apply Hfo.
  - intros ip (i & Hi)%list_elem_of_lookup. exists (MkListItem (item_id (s_next s + i)) ip (ownTag e)).
    split; [|split; [done|apply own_tag]]. cbn. apply elem_of_app. right. apply created_elem. by exists i, ip.
Qed.

Lemma retry_run (D : gset string) want t s : server_ok s → fits s → s_items s ≠ [] → NoDup want → Forall (λ ip, ip ≠ EmptyString ∧ ip ∈ D) want →
  fits (grow (ownTag e) (List.filter (λ ip, negb (bool_decide (is_Some ((read s).1 !! ip))) && negb (bool_decide (ip ∈ (read s).2))) want) s) →
  discovered t = true → mirrorStale t = false → listID t = the_list → s_name s = Some (listName e) → (∀ ip, ip ∈ foreign t → theirs s ip) →
  (∀ ip id, items t !! ip = Some id → ∃ it, it ∈ s_items s ∧ IP it = ip ∧ ID it = id ∧ ownsItem e (Comment it) = true) →
  (∀ it, it ∈ s_items s → ownsItem e (Comment it) = true → items t !! IP it = Some (ID it) ∨ IP it ∈ want) →
  ∃ m t' s', runs (retryAddSkippingPresent e the_list want : lio _) t s (Ok m) t' s' ∧ desired t' = desired t ∧ extends D s s' ∧
    tracks (with_items (union m) t') s' ∧ ∀ ip, ip ∈ want → mine s' ip ∨ theirs s' ip.
Proof.
  intros Hok Hfit Hne Hnd Hw Hfit' Hd Hst Hl Hn Hfo Hi1 Hi2.
  destruct (read_spec (s_items s)) as [Hm Hp]; [apply Hok|eapply Forall_impl; [apply Hok|]; by intros it (? & _)|].
  fold (read s) in Hm, Hp. set (t' := foldl (retry_step (read s)) t want).
  destruct (retry_state (read s) want t) as (R1 & R2 & R3 & R4 & R5 & R6). fold t' in R1, R2, R3, R4, R5, R6.
  assert (tracks t' s) as Ht.
  { split_and!; [congruence..| |].
    - intros ip id. rewrite R5. split.
      + intros [[_ Ho]|[_ Hi]]; [by apply Hm|by apply Hi1].
      + intros (it & Hin & <- & <- & Ho). destruct (decide (IP it ∈ want)); [left; split; [done|]; apply Hm; by exists it|].
        right. split; [by left|]. by destruct (Hi2 it Hin Ho).
    - intros ip Hip. apply R6 in Hip as [?|(_ & Hno & Hin)]; [by apply Hfo|]. rewrite Hp in Hin.
      apply elem_of_list_to_set, list_elem_of_fmap in Hin as (it & -> & Hin). exists it. split_and!; [done..|].
      destruct (ownsItem e (Comment it)) eqn:Eo; [|done]. exfalso. assert ((read s).1 !! IP it = Some (ID it)) by (apply Hm; by exists it). congruence. }
  set (remaining := List.filter (λ ip, negb (bool_decide (is_Some ((read s).1 !! ip))) && negb (bool_decide (ip ∈ (read s).2))) want) in *.
  assert (∀ ip, ip ∈ remaining ↔ ip ∈ want ∧ (read s).1 !! ip = None ∧ ip ∉ (read s).2) as Hrem.
  { intros ip. unfold remaining. rewrite list_elem_of_In, filter_In, <- list_elem_of_In, andb_true_iff, !negb_true_iff, !bool_decide_eq_false. by rewrite <- eq_None_not_Some. }
  assert (runs (wrap "duplicate-add refresh" (fetchAllItems e the_list 1) : lio _) t s (Ok (read s)) t s) as Hfetch.
  { apply runs_wrap, fetch_run; [done|]. by split. }
  assert (fresh_ips s remaining) as Hfr.
  { apply Forall_forall. intros ip (_ & _ & Hno)%Hrem. by rewrite Hp, elem_of_list_to_set in Hno. }
  assert (∀ ip, ip ∈ want → ip ∈ remaining ∨ mine s ip ∨ theirs s ip) as Hcov.
  { intros ip Hip. destruct (decide (ip ∈ IP <$> s_items s)) as [Hin|Hno].
    - right. apply list_elem_of_fmap in Hin as (it & -> & Hin). destruct (ownsItem e (Comment it)) eqn:Eo; [left|right]; by exists it.
    - left. apply Hrem. split; [done|]. rewrite Hp, elem_of_list_to_set. split; [|done]. apply eq_None_not_Some. intros [id Hid].
      apply Hm in Hid as (it & Hin & <- & _). apply Hno. by apply list_elem_of_fmap_2. }
  assert (∀ m s', runs (match remaining with [] => mret ∅ | _ => addItems e the_list remaining end : lio _) t' s (Ok m) t' s' →
    runs (retryAddSkippingPresent e the_list want : lio _) t s (Ok m) t' s') as Hgo.
  { intros m s' Hr. unfold retryAddSkippingPresent. eapply runs_bind; [exact Hfetch|].
    apply (runs_bind _ _ _ _ tt t' s); [intros l; by eexists|exact Hr]. }
  destruct (decide (remaining = [])) as [Hr0|Hr0].
  - exists ∅, t', s. split_and!; [apply Hgo; rewrite Hr0; apply runs_ret|done|by apply extends_refl| |].
    + destruct Ht as (T1 & T2 & T3 & T4 & T5 & T6). split_and!; [done..|cbn; by rewrite (left_id_L ∅ (∪))|done].
    + intros ip [Hin|?]%Hcov; [|done]. rewrite Hr0 in Hin. by apply elem_of_nil in Hin.
  - assert (NoDup remaining) as Hndr by (apply NoDup_ListNoDup, List.NoDup_filter, NoDup_ListNoDup; done).
    assert (Forall (λ ip, ip ≠ EmptyString ∧ ip ∈ D) remaining) as Hwr.
    { apply Forall_forall. intros ip [Hip _]%Hrem. by eapply Forall_forall in Hw. }
    destruct (addItems_run the_list remaining t' s Hok) as [[Hnf _]|[_ (m & Hr & Hmm)]]; [by eexists|done|done|by eapply Forall_impl; [exact Hwr|]; intros ip [? _]|done|done|].
    destruct (add_tracks D remaining t' s m) as (Hext & Htr & Hmine); [done..|].
    exists m, t', (grow (ownTag e) remaining s). split_and!; [apply Hgo; by destruct remaining|done|done|done|].
    intros ip [Hin|[Hin|Hin]]%Hcov; [left; by apply Hmine|left; by eapply extends_mine_mono|right; by apply (extends_theirs D s)].
Qed.
(** ** The removal *)
Lemma shrink_app a b s : shrink b (shrink a s) = shrink (a ++ b) s.
Proof.
  unfold shrink, with_s_items. cbn. f_equal. rewrite list_filter_filter. apply list_filter_iff. intros it. rewrite elem_of_app. tauto.
Qed.
Lemma shrink_nil s : shrink [] s = s.
Proof.
  unfold shrink, with_s_items. destruct s as [n its nx a]. cbn. f_equal.
  induction its as [|it its IH]; [done|]. rewrite filter_cons_True by apply not_elem_of_nil. by rewrite IH.
Qed.

Lemma remove_batches_run lid todo t s : runs (removeItems_ e lid todo : lio unit) t s (Ok tt) t (shrink (concat todo) s).
Proof.
  revert s. induction todo as [|b todo IH]; intros s; cbn [removeItems_ concat]; [rewrite shrink_nil; apply runs_ret|].
  eapply runs_bind; [by apply runs_mutate|]. eapply runs_bind; [apply settle_run|]. rewrite <- shrink_app. apply IH.
Qed.

Lemma removeItems_run lid ids t s : runs (removeItems e lid ids : lio unit) t s (Ok tt) t (shrink ids s).
Proof.
  unfold removeItems. destruct (batches_spec cfListBatchMax ids (length ids)) as [Hc _]; [unfold cfListBatchMax; lia|done|].
  pose proof (remove_batches_run lid (batches (length ids) cfListBatchMax ids) t s) as Hr. by rewrite Hc in Hr.
Qed.

Lemma foldl_delete_spec (m : gmap string string) ks ip id : foldl (λ m ip, delete ip m) m ks !! ip = Some id ↔ ip ∉ ks ∧ m !! ip = Some id.
Proof.
  revert m. induction ks as [|k ks IH]; intros m; cbn; [rewrite elem_of_nil; tauto|]. rewrite IH, lookup_delete_Some, not_elem_of_cons. naive_solver.
Qed.

Lemma remove_run lid D m t s : server_ok s → tracks t s →
  (∀ ip id, m !! ip = Some id → ∃ it, it ∈ s_items s ∧ IP it = ip ∧ ID it = id ∧ ownsItem e (Comment it) = true) →
  (∀ it, it ∈ s_items s → ownsItem e (Comment it) = true → IP it ∈ D ∨ m !! IP it = Some (ID it)) →
  ∃ t' s', runs (removeStale e lid D m : lio unit) t s (Ok tt) t' s' ∧ desired t' = desired t ∧ tracks t' s' ∧ server_ok s' ∧ others s' = others s ∧
    (∀ ip, theirs s' ip ↔ theirs s ip) ∧ ∀ ip, mine s' ip ↔ mine s ip ∧ ip ∈ D.
Proof.
  intros Hok (T1 & T2 & T3 & T4 & T5 & T6) Hm1 Hm2.
  set (gone := List.filter (λ p : string * string, negb (bool_decide (p.1 ∈ D))) (in_order s m)).
  assert (∀ ip id, (ip, id) ∈ gone ↔ m !! ip = Some id ∧ ip ∉ D) as Hgone.
  { intros ip id. unfold gone. rewrite list_elem_of_In, filter_In, <- list_elem_of_In, in_order_elem, negb_true_iff, bool_decide_eq_false. done. }
  set (s' := shrink gone.*2 s). set (t' := with_items (λ m', foldl (λ m ip, delete ip m) m' gone.*1) t).
  assert (∀ it, it ∈ s_items s → (ID it ∈ gone.*2 ↔ ownsItem e (Comment it) = true ∧ IP it ∉ D)) as Hids.
  { intros it Hit. rewrite list_elem_of_fmap. split.
    - intros ([ip id] & E & [Hi Hn]%Hgone). cbn in E. destruct (Hm1 ip id Hi) as (it' & Hin & <- & <- & Ho).
      rewrite (id_inj s it it') by done. done.
    - intros [Ho Hn]. exists (IP it, ID it). split; [done|]. apply Hgone. destruct (Hm2 it Hit Ho); done. }
  assert (∀ it, it ∈ s_items s' ↔ it ∈ s_items s ∧ (ownsItem e (Comment it) = true → IP it ∈ D)) as Hitems.
  { intros it. cbn. rewrite list_elem_of_filter. split.
    - intros [Hn Hin]. split; [done|]. intros Ho. destruct (decide (IP it ∈ D)); [done|]. exfalso. apply Hn, Hids; done.
    - intros [Hin Hd]. split; [|done]. intros Hg. apply (Hids it Hin) in Hg as [Ho Hn]. auto. }
  assert (∀ ip, ip ∈ gone.*1 ↔ ip ∉ D ∧ is_Some (m !! ip)) as Hips.
  { intros ip. rewrite list_elem_of_fmap. split; [intros ([ip' id] & -> & [Hi Hn]%Hgone); split; [done|by eexists]|].
    intros [Hn [id Hi]]. exists (ip, id). split; [done|]. by apply Hgone. }
  assert (runs (removeStale e lid D m : lio unit) t s (Ok tt) t' s') as Hrun.
  { unfold removeStale. apply (runs_bind _ _ _ _ (in_order s m) t s); [intros l; by eexists|].
    fold gone. destruct gone as [|p gone'] eqn:Eg.
    - unfold t', s'. rewrite shrink_nil. cbn. destruct t. apply runs_ret.
    - rewrite <- Eg. eapply runs_bind; [apply removeItems_run|]. intros l. unfold s', t'. rewrite Eg. by eexists. }
  exists t', s'. split; [done|]. split; [done|]. split; [|split; [by apply shrink_ok|split; [|split]]].
  - split_and!; [exact T1|exact T2|exact T3|exact T4| |].
    + intros ip id. unfold t'. cbn [items with_items]. rewrite foldl_delete_spec, Hips. rewrite (T5 ip id). split.
      * intros (Hn & it & Hin & <- & <- & Ho). exists it. split_and!; [|done..]. apply Hitems. split; [done|]. intros _.
        destruct (Hm2 it Hin Ho) as [|Hs]; [done|]. destruct (decide (IP it ∈ D)); [done|]. exfalso. apply Hn. split; [done|by eexists].
      * intros (it & [Hin Hd]%Hitems & <- & <- & Ho). split; [|by exists it]. intros [Hn _]. by apply Hn, Hd.
    + intros ip Hip. destruct (T6 ip Hip) as (it & Hin & E & Ho). exists it. split; [|done]. apply Hitems. split; [done|]. congruence.
  - unfold others. cbn. rewrite list_filter_filter. unfold others.
    assert (∀ l : list cfListItem, (∀ it, it ∈ l → it ∈ s_items s) → filter (λ it, ownsItem e (Comment it) = false ∧ ID it ∉ gone.*2) l = filter (λ it, ownsItem e (Comment it) = false) l) as Hl; [|by apply Hl].
    induction l as [|it l IH]; intros Hsub; [done|]. rewrite !filter_cons. rewrite IH by (intros; apply Hsub; by right).
    specialize (Hids it (Hsub it ltac:(left))). do 2 case_decide; try done; [naive_solver|]. exfalso. naive_solver congruence.
  - intros ip. split; intros (it & Hin & E & Ho); exists it; (split; [|done]); [by apply Hitems in Hin as [? _]|apply Hitems; split; [done|congruence]].
  - intros ip. split.
    + intros (it & [Hin Hd]%Hitems & <- & Ho). split; [by exists it|by apply Hd].
    + intros [(it & Hin & <- & Ho) Hd]. exists it. split; [by apply Hitems|done].
Qed.

(** ** A push *)
Definition ready (t : listState) (s : server) : Prop :=
  server_ok s ∧ (s_name s = None ∨ s_name s = Some (listName e)) ∧ roomy (desired t) s ∧ EmptyString ∉ desired t ∧
  (tracks t s ∨ discovered t && negb (mirrorStale t) = false).

Lemma size_grow ips s : length (s_items (grow (ownTag e) ips s)) = (length (s_items s) + length ips)%nat.
Proof. cbn. rewrite length_app. unfold created. by rewrite length_imap. Qed.

Lemma add_run t s D : D = desired t → server_ok s → tracks t s → roomy D s → EmptyString ∉ D →
  let toAdd := sort_set (filter (λ ip, items t !! ip = None ∧ ip ∉ foreign t) D) in
  ∃ t' s', runs (match toAdd with
      | [] => mret tt
      | _ =>
        r ← try (addItems e the_list toAdd);
        added ← match r with
                | Ok added => mret added
                | Err err => if isCFDuplicateErr err then retryAddSkippingPresent e the_list toAdd else fail err
                end;
        put_st (with_items (union added))
      end : lio unit) t s (Ok tt) t' s' ∧ desired t' = D ∧ tracks t' s' ∧ extends D s s' ∧ ∀ ip, ip ∈ D → mine s' ip ∨ theirs s' ip.
Proof.
  intros HD Hok Ht Hroom Hes. pose proof Ht as (T1 & T2 & T3 & T4 & T5 & T6). cbn.
  set (toAdd := sort_set (filter (λ ip, items t !! ip = None ∧ ip ∉ foreign t) D)).
  assert (∀ ip, ip ∈ toAdd ↔ ip ∈ D ∧ items t !! ip = None ∧ ip ∉ foreign t) as Hin.
  { intros ip. unfold toAdd, sort_set. rewrite merge_sort_Permutation, elem_of_elements, elem_of_filter. tauto. }
  assert (NoDup toAdd) as Hnd by (unfold toAdd, sort_set; rewrite merge_sort_Permutation; apply NoDup_elements).
  assert (Forall (λ ip, ip ≠ EmptyString ∧ ip ∈ D) toAdd) as Hf.
  { apply Forall_forall. intros ip [Hip _]%Hin. split; [by intros ->|done]. }
  assert (∀ ips, NoDup ips → Forall (.∈ D) ips → fits (grow (ownTag e) ips s)) as Hfit.
  { intros ips Hn Hd. unfold fits. rewrite size_grow. pose proof (dom_length D ips Hn Hd). unfold roomy in Hroom. lia. }
  assert (∀ s', extends D s s' → (∀ ip, ip ∈ toAdd → mine s' ip ∨ theirs s' ip) → ∀ ip, ip ∈ D → mine s' ip ∨ theirs s' ip) as Hall.
  { intros s' Hext Hadd ip Hip. destruct (items t !! ip) as [id|] eqn:Ei.
    - left. eapply extends_mine_mono; [done|]. apply T5 in Ei as (it & ? & ? & _ & ?). by exists it.
    - destruct (decide (ip ∈ foreign t)); [right; apply (extends_theirs D s); auto|]. apply Hadd, Hin. done. }
  destruct (decide (toAdd = [])) as [E0|E0].
  { exists t, s. split; [rewrite E0; apply runs_ret|]. split; [done|]. split; [done|]. split; [by apply extends_refl|].
    apply Hall; [by apply extends_refl|]. intros ip. rewrite E0. by intros ?%elem_of_nil. }
  assert (∀ r t' s', runs (r0 ← try (addItems e the_list toAdd); added ← match r0 with Ok added => mret added
      | Err err => if isCFDuplicateErr err then retryAddSkippingPresent e the_list toAdd else fail err end; put_st (with_items (union added)) : lio unit) t s r t' s' →
    runs (match toAdd with [] => mret tt | _ => r0 ← try (addItems e the_list toAdd); added ← match r0 with Ok added => mret added
      | Err err => if isCFDuplicateErr err then retryAddSkippingPresent e the_list toAdd else fail err end; put_st (with_items (union added)) end : lio unit) t s r t' s') as Hgo.
  { intros r t' s' Hr. by destruct toAdd. }
  assert (Forall (.∈ D) toAdd) as HfD by (eapply Forall_impl; [exact Hf|]; by intros ip [_ ?]).
  destruct (addItems_run the_list toAdd t s Hok) as [[Hnf (pre & post & x & Ep & Hfr & Hx & Hi & Hr)]|[Hfr (m & Hr & Hm)]];
    [by eexists|done|done|by eapply Forall_impl; [exact Hf|]; intros ip [? _]|by apply Hfit| |].
  - rewrite Ep in Hnd, Hf, HfD. apply NoDup_app in Hnd as (Hnp & Hdis & Hnpost). apply Forall_app in Hf as [Hfp Hfpost]. apply Forall_app in HfD as [HDp HDpost].
    set (s1 := grow (ownTag e) pre s). assert (extends D s s1) as Hext by (apply extends_grow; [done|by eexists|done..]).
    pose proof Hext as [Hok1 _].
    destruct (read_spec (s_items s1)) as [Hrm Hrp]; [apply Hok1|eapply Forall_impl; [apply Hok1|]; by intros it (? & _)|]. fold (read s1) in Hrm, Hrp.
    destruct (retry_run D toAdd t s1) as (m & t' & s' & Hrun & Hdes & Hext' & Htr & Hcov); [done| |done| | | |done|done|done|done| | | |].
    + by apply Hfit.
    + rewrite Ep. by apply NoDup_app.
    + rewrite Ep. by apply Forall_app.
    + set (rem := List.filter _ toAdd). unfold s1. rewrite grow_app. apply Hfit.
      * apply NoDup_app. split; [done|]. split.
        -- intros ip Hip Hrem. unfold rem in Hrem. rewrite list_elem_of_In, filter_In in Hrem. destruct Hrem as [_ Hrem]. apply andb_true_iff in Hrem as [_ Hrem].
           apply negb_true_iff, bool_decide_eq_false_1 in Hrem. apply Hrem. rewrite Hrp, elem_of_list_to_set. cbn. rewrite fmap_app, created_IP. set_solver.
        -- apply NoDup_ListNoDup, List.NoDup_filter, NoDup_ListNoDup. rewrite Ep. by apply NoDup_app.
      * apply Forall_app. split; [done|]. apply Forall_forall. intros ip Hip. unfold rem in Hip. rewrite list_elem_of_In, filter_In, <- list_elem_of_In in Hip. destruct Hip as [Hip _]. by apply Hin in Hip as [? _].
    + intros ip Hip. apply (extends_theirs D s); auto.
    + intros ip id Hi'. apply T5 in Hi' as (it & ? & ?). exists it. split; [|done]. cbn. set_solver.
    + intros it Hit Ho. cbn in Hit. apply elem_of_app in Hit as [Hit|Hit]; [left; apply T5; by exists it|right].
      apply (list_elem_of_fmap_2 IP) in Hit. rewrite created_IP in Hit. rewrite Ep. set_solver.
    + exists (with_items (union m) t'), s'. assert (extends D s s') as Hext2 by by eapply extends_trans.
      split; [|split; [cbn; congruence|split; [done|split; [done|by apply Hall]]]].
      apply Hgo. eapply runs_bind; [by apply runs_try|]. cbn. rewrite Hx. eapply runs_bind; [exact Hrun|]. apply runs_put.
  - destruct (add_tracks D toAdd t s m) as (Hext & Htr & Hmine); [done..|].
    exists (with_items (union m) t), (grow (ownTag e) toAdd s). split; [|split; [done|split; [done|split; [done|]]]].
    + apply Hgo. eapply runs_bind; [by apply runs_try|]. cbn. eapply runs_bind; [apply runs_ret|]. apply runs_put.
    + apply Hall; [done|]. intros ip Hip. left. by apply Hmine.
Qed.
(** What a push leaves: a mirror up to date, nothing of the others touched, every
    address to block on the list. *)
Definition settled (D : gset string) (s : server) (t' : listState) (s' : server) : Prop :=
  desired t' = D ∧ tracks t' s' ∧ server_ok s' ∧ others s' = others s ∧ (∀ ip, theirs s' ip ↔ theirs s ip) ∧
  (∀ ip, ip ∈ D → mine s' ip ∨ theirs s' ip).

Lemma push_run t s : ready t s → ∃ t' s', runs (push e : lio unit) t s (Ok tt) t' s' ∧ settled (desired t) s t' s' ∧
  (if expireFlushInterval e =? 0 then ∀ ip, mine s' ip → ip ∈ desired t else ∀ ip, mine s' ip → mine s ip ∨ ip ∈ desired t).
Proof.
  intros (Hok & Hn & Hroom & Hes & Ht). set (D := desired t) in *.
  assert (fits s) as Hfit by (unfold fits, roomy in *; lia).
  destruct (discover_run t s Hok Hfit Hn Ht) as (t1 & s1 & Hd1 & Ht1 & HD1 & Hext1).
  assert (s_items s1 = s_items s) as Hs1.
  { destruct Hext1 as (_ & x & -> & Hx). destruct x as [|it x]; [by rewrite app_nil_r|]. apply Forall_cons_1 in Hx as [[_ Hx] _]. set_solver. }
  pose proof Hext1 as [Hok1 _].
  destruct (add_run t1 s1 D) as (t2 & s2 & Ha & HD2 & Ht2 & Hext2 & Hcov); [done|done|done|by unfold roomy; rewrite Hs1|done|].
  pose proof Hext2 as [Hok2 _]. pose proof Ht1 as (T1 & T2 & T3 & T4 & T5 & T6).
  assert (∀ ip, theirs s1 ip ↔ theirs s ip) as Hth by (intros ip; unfold theirs; by rewrite Hs1).
  assert (others s1 = others s) as Hoth by (unfold others; by rewrite Hs1).
  assert (∀ ip, mine s1 ip ↔ mine s ip) as Hmi by (intros ip; unfold mine; by rewrite Hs1).
  destruct (remove_run (listID t1) D (items t1) t2 s2 Hok2 Ht2) as (t3 & s3 & Hr & HD3 & Ht3 & Hok3 & Ho3 & Hth3 & Hm3).
  { intros ip id Hi. apply T5 in Hi as (it & Hin & Hrest). destruct Hext2 as (_ & x & E & _). exists it. rewrite E. set_solver. }
  { intros it Hin Ho. destruct Hext2 as (_ & x & E & Hx). rewrite E in Hin. apply elem_of_app in Hin as [Hin|Hin].
    - right. apply T5. by exists it.
    - left. rewrite Forall_forall in Hx. by apply Hx. }
  assert (∀ r t' s', runs (if expireFlushInterval e =? 0 then removeStale e (listID t1) D (items t1) else mret tt : lio unit) t2 s2 r t' s' →
    runs (push e : lio unit) t s r t' s') as Hgo.
  { intros r t' s' Hk. unfold push. eapply runs_bind; [apply runs_get|]. eapply runs_bind; [exact Hd1|]. eapply runs_bind; [apply runs_get|].
    rewrite T3 in *. eapply runs_bind; [exact Ha|]. exact Hk. }
  assert (∀ ip, theirs s2 ip ↔ theirs s ip) as Hth2 by (intros ip; rewrite (extends_theirs D s1 s2 ip Hext2); apply Hth).
  destruct (expireFlushInterval e =? 0) eqn:Ef.
  - exists t3, s3. split; [by apply Hgo|]. split; [|by intros ip [_ ?]%Hm3].
    split_and!; [congruence|done|done|rewrite Ho3, (extends_others D s1 s2 Hext2); done|intros ip; rewrite Hth3; apply Hth2|].
    intros ip Hip. destruct (Hcov ip Hip); [left; by apply Hm3|right; by apply Hth3].
  - exists t2, s2. split; [apply Hgo, runs_ret|]. split.
    + split_and!; [done|done|done|rewrite (extends_others D s1 s2 Hext2); done|exact Hth2|exact Hcov].
    + intros ip Hip. destruct (extends_mine D s1 s2 ip Hext2 Hip); [left; by apply Hmi|by right].
Qed.

Lemma flush_run t s : server_ok s → tracks t s → ∃ t' s', runs (flushRemovals e : lio unit) t s (Ok tt) t' s' ∧
  desired t' = desired t ∧ tracks t' s' ∧ server_ok s' ∧ others s' = others s ∧ (∀ ip, theirs s' ip ↔ theirs s ip) ∧
  ∀ ip, mine s' ip ↔ mine s ip ∧ ip ∈ desired t.
Proof.
  intros Hok (T1 & T2 & T3 & T4 & T5 & T6). set (t1 := with_foreign (λ _, ∅) t).
  assert (tracks t1 s) as Ht1 by (split_and!; [done..|]; by intros ip ?%elem_of_empty).
  destruct (remove_run (listID t1) (desired t1) (items t1) t1 s Hok Ht1) as (t' & s' & Hr & Hrest).
  { intros ip id Hi. by apply T5 in Hi. }
  { intros it Hin Ho. right. apply T5. by exists it. }
  exists t', s'. split; [|exact Hrest]. unfold flushRemovals. eapply runs_bind; [apply runs_put|]. eapply runs_bind; [apply runs_get|].
  fold t1. assert (negb (discovered t1) || bool_decide (listID t1 = EmptyString) = false) as ->; [|exact Hr].
  cbn. by rewrite T1, T3.
Qed.
End honest.

(** A reconcile and a tick of the removal flusher. *)
Definition reconcile (e : CloudflareListsEnforcer) (want : list Target) : io listState list_event server unit :=
  _ ← Sync e want; flushRemovals e.

(** C22. On a Lists API that does its job, a reconcile succeeds whatever the list held: from a first start, a stale mirror or a current one, [Sync] leaves every wanted address on the list and everybody else's items exactly as they were, and after the removals are flushed this instance's items are the wanted addresses that nobody else lists; pages, duplicates refused because another instance was faster, batches and asynchronous operations included. The instance manages no zone rules, and the list fits the pages a reconcile reads. *)
Theorem lists_converge (e : CloudflareListsEnforcer) (t : listState) (s : server) (want : list Target) l :
  let D := want_set (allowlist e) want in
  zoneIDs e = [] → ready e (with_desired (λ _, D) t) s →
  ∃ t' s' l', reconcile e want (MkWorld t s l) = (Ok tt, MkWorld t' s' l') ∧
    others e s' = others e s ∧ (∀ ip, ip ∈ D → mine e s' ip ∨ theirs e s' ip) ∧ (∀ ip, mine e s' ip ↔ ip ∈ D ∧ ¬ theirs e s ip) ∧
    tracks e t' s'.
Proof.
  intros D Hz Hready. set (t0 := with_timer false (with_desired (λ _, D) t)).
  destruct (push_run e t0 s) as (t1 & s1 & Hp & (HD1 & Ht1 & Hok1 & Ho1 & Hth1 & Hcov) & Hm1); [exact Hready|].
  destruct (flush_run e t1 s1 Hok1 Ht1) as (t2 & s2 & Hf & HD2 & Ht2 & Hok2 & Ho2 & Hth2 & Hm2).
  assert (runs (reconcile e want) t s (Ok tt) t2 s2) as Hr.
  { unfold reconcile, Sync. eapply runs_bind; [|exact Hf]. rewrite Hz. eapply runs_bind; [apply runs_put|]. eapply runs_bind; [apply runs_wrap; exact Hp|]. apply runs_ret. }
  destruct (Hr l) as [l' E]. exists t2, s2, l'. split; [exact E|].
  change (desired t0) with D in *. rewrite HD1 in *.
  assert (∀ ip, ip ∈ D → mine e s2 ip ∨ theirs e s2 ip) as Hcov2.
  { intros ip Hip. destruct (Hcov ip Hip); [left; by apply Hm2|right; by apply Hth2]. }
  split; [congruence|]. split; [done|]. split; [|done]. intros ip. split.
  - intros Hip. pose proof Hip as [_ Hd]%Hm2. split; [done|]. rewrite <- Hth1, <- Hth2. by apply mine_not_theirs.
  - intros [Hip Hno]. destruct (Hcov2 ip Hip) as [|Ht]; [done|]. by rewrite Hth2, Hth1 in Ht.
Qed.

(** Three servers share a list: ours holds a stale item and meets an address that
    another instance lists already. *)
Definition sample_enforcer : CloudflareListsEnforcer :=
  MkLists EmptyString "ezyshield:web1" false "acct" "ezyshield_blocked" [] "block" cfBaseURL [] 0 0 cfRetryDelays cfPageRetryDelays cfStaleRetryDelays cfBulkOpPollInterval.
Definition sample_server (async : bool) : server :=
  MkServer (Some "ezyshield_blocked"%string)
    [MkListItem "a" "203.0.113.1" "ezyshield:web1"; MkListItem "b" "203.0.113.2" "ezyshield:web2"; MkListItem "c" "203.0.113.3" "by hand"]%string 0 async.
Definition sample_want : list Target :=
  [MkTarget (Addr4 0xCB007102) PrefixNone 0 EmptyString 0; MkTarget (Addr4 0xCB007104) PrefixNone 0 EmptyString 0].

Theorem lists_converge_witness : ∃ t' s' l',
  reconcile sample_enforcer sample_want (MkWorld newListState (sample_server true) []) = (Ok tt, MkWorld t' s' l') ∧
  others sample_enforcer s' = others sample_enforcer (sample_server true) ∧ mine sample_enforcer s' "203.0.113.4" ∧ ¬ mine sample_enforcer s' "203.0.113.1".
Proof.
  destruct (lists_converge sample_enforcer newListState (sample_server true) sample_want []) as (t' & s' & l' & Hrun & Ho & _ & Hm & _); [reflexivity| |].
  - split; [split; [|split; [|split]]|split; [by right|split; [|split; [|by right]]]].
    1, 2, 5, 6: try unfold roomy; apply (bool_decide_unpack _); vm_compute; exact I.
    + repeat constructor; done.
    + done.
  - exists t', s', l'. split; [exact Hrun|]. split; [exact Ho|]. split.
    + apply Hm. split; [apply (bool_decide_unpack _); vm_compute; exact I|].
      intros (it & Hin & E & _). cbn in Hin. repeat (apply elem_of_cons in Hin as [->|Hin]; [done|]). by apply elem_of_nil in Hin.
    + rewrite Hm. intros [Hd _]. revert Hd. apply (bool_decide_unpack _). vm_compute. exact I.
Defined.
