(* ===== verification/CfFaults.v ===== *)
(** Two places where a Cloudflare enforcer does not recover from a single failed
    answer, on concrete servers. *)
From S2P Require Import Prelude GoStrings Netip Sdk EdgeNet CfRules CfLists CfListsSafety CfListsServer CfListsHonest.

(** ** Lists: an accepted add that is forgotten

    The server answers the first question about a bulk operation with an error. *)
Record flaky := MkFlaky { inner : server; faulty : bool }.
Definition over {A} (f : server → A * server) (s : flaky) : A * flaky := let '(a, i) := f (inner s) in (a, MkFlaky i (faulty s)).

#[export] Instance flaky_net : Net flaky.
Proof.
  refine {| net_wait s := (None, s); net_pause d s := (None, s); net_ctx s := None; net_jitter d s := (d, s); net_order s l := l |}.
  done.
Defined.
#[export] Instance flaky_lists : ListsAPI flaky := {
  getLists := over getLists;
  postList q := over (postList q);
  getItems lid cursor := over (getItems lid cursor);
  getBulkOp op s := if faulty s then (refusal 1000 "internal error" (MkBulkOp EmptyString EmptyString EmptyString), MkFlaky (inner s) false)
                    else over (getBulkOp op) s;
  postItems lid q := over (postItems lid q);
  deleteItems lid ids := over (deleteItems lid ids)
}.
#[export] Instance flaky_zones : ZoneAPI flaky := {
  getRulesets zone := over (getRulesets zone);
  getRuleset zone rs := over (getRuleset zone rs);
  postRuleset zone q := over (postRuleset zone q);
  postRule zone rs q := over (postRule zone rs q);
  patchRule_ zone rs r q := over (patchRule_ zone rs r q);
  deleteRule_ zone rs r := over (deleteRule_ zone rs r)
}.

Definition host (v : Z) : Target := MkTarget (Addr4 v) PrefixNone 0 EmptyString 0.
Definition empty_account : flaky := MkFlaky (MkServer None [] 0 true) true.

(** A ban whose operation could not be asked about is on the list but not in the
    mirror; lifted before the next push, it stays blocked at the edge. *)
Lemma accepted_add_forgotten :
  let w := CfListsSafety.run_ops sample_enforcer [CfListsSafety.OBan (host 0xCB007109); CfListsSafety.OUnban (host 0xCB007109); CfListsSafety.OSync []]
             (CfListsSafety.start empty_account) in
  IP <$> s_items (inner (net w)) = ["203.0.113.9"%string] ∧ desired (st w) = ∅ ∧ items (st w) = ∅ ∧ mirrorStale (st w) = false.
Proof. vm_compute. done. Qed.

(** ** Rulesets: a half-done deletion

    One zone whose ruleset exists; the outcome of the deletions to come is given. *)
Record zserver := MkZ { z_rules : list cfWAFRule; z_next : nat; z_deletes : list bool }.
#[export] Instance zserver_net : Net zserver.
Proof.
  refine {| net_wait s := (None, s); net_pause d s := (None, s); net_ctx s := None; net_jitter d s := (d, s); net_order s l := l |}.
  done.
Defined.
Definition rule_of (id : string) (q : cfRuleReq) : cfWAFRule := MkWAFRule id (rq_Action q) (rq_Expression q) (rq_Description q).
Definition not_found : reply cfRuleWriteResp := refusal 10007 "rule not found" None.
Definition has_rule (id : string) (s : zserver) : bool := existsb (λ r, bool_decide (ru_ID r = id)) (z_rules s).
#[export] Instance zserver_api : ZoneAPI zserver := {
  getRulesets zone s := (answer [MkRulesetInfo "rs" cfRulePhase], s);
  getRuleset zone rs s := (answer (MkRulesetDetail rs cfRulePhase (z_rules s)), s);
  postRuleset zone q s := (refusal 1 "exists" (MkRulesetDetail EmptyString EmptyString []), s);
  postRule zone rs q s :=
    let r := rule_of (item_id (z_next s)) q in (answer (Some r), MkZ (z_rules s ++ [r]) (z_next s + 1) (z_deletes s));
  patchRule_ zone rs id q s :=
    if has_rule id s
    then (answer (Some (rule_of id q)), MkZ ((λ r, if bool_decide (ru_ID r = id) then rule_of id q else r) <$> z_rules s) (z_next s) (z_deletes s))
    else (not_found, s);
  deleteRule_ zone rs id s :=
    match z_deletes s with
    | false :: rest => (refusal 1000 "internal error" None, MkZ (z_rules s) (z_next s) rest)
    | rest => if has_rule id s then (answer None, MkZ (filter (λ r, ru_ID r ≠ id) (z_rules s)) (z_next s) (tail rest)) else (not_found, s)
    end
}.

Definition zone_enforcer : CloudflareEnforcer := MkCF EmptyString ["zone"%string] "block" cfBaseURL [] 0 30.
Definition three : list Target := [host 0xCB007101; host 0xCB007102; host 0xCB007103].
Definition failed {A} (r : result goerr A) : bool := match r with Ok _ => false | Err _ => true end.

(** The blocklist shrinks from three rules to one; one deletion succeeds, the
    other fails.  The zone remembers the deleted rule for good: once the blocklist
    grows again, every push tries to change that rule, fails, and leaves an
    address unblocked. *)
Lemma half_deletion_wedges :
  let w := CfRules.run_ops zone_enforcer [CfRules.OSync three; CfRules.OSync [host 0xCB007101]] (CfRules.start (MkZ [] 0 [true; false])) in
  let next w := CfRules.run_op zone_enforcer (CfRules.OSync three) w in
  failed (next w).1 = true ∧ failed (next (next w).2).1 = true ∧ failed (next (next (next w).2).2).1 = true ∧
  length (z_rules (net (next (next (next w).2).2).2)) = 2%nat.
Proof. vm_compute. done. Qed.
