(* ===== verification/Bunny.v ===== *)
(** The bunny.net edge enforcer ([internal/enforce/bunny.go]): the blocked-IP list
    of each pull zone belongs to EzyShield, holds at most a cap of addresses, and
    gives up the oldest ban first. *)
From Stdlib Require Import Ascii.
From S2P Require Import Prelude GoStrings Netip NetipParse Sdk NftClient EdgeNet CfRules.
Definition bunnyMaxRPS : Z := 4.
Definition DefaultBunnyZoneCap : nat := 500.
Definition bunnyErrSnippet : nat := 256.
Definition bunnyRetryDelays : list duration := [2 * Second; 8 * Second; 30 * Second].
Definition bunnyBaseURL : string := "https://api.bunny.net".

(** A response body, and what the decoder makes of it: the zone's list, the
    API's error key and message. *)
Record bunny_body := MkBody { raw : string; blockedIps : string + list string; apiErr : option (string * string) }.

(** A call: no response, a body that cannot be read ([inl]), or a body. *)
Class BunnyAPI (S : Type) := {
  getZone (zone : Z) : S → reply bunny_body * S;
  postBlocked (verb : string) (zone : Z) (ip : string) : S → reply bunny_body * S
}.

Inductive bunny_event :=
| Fetched (zone : Z) (r : reply bunny_body)
| Mutated (verb : string) (zone : Z) (ip : string) (r : reply bunny_body).

Record bunnyZoneState := MkBunnyZone { synced : bool; order : list string; present : gset string }.
Definition newBunnyZone : bunnyZoneState := MkBunnyZone false [] ∅.

Record BunnyEnforcer := MkBunny { instanceName : string; pullZoneIDs : list Z; baseURL : string; allowlist : list prefix; retryDelays : list duration; zoneCap : nat }.

(** The access key is resolved once and goes into the request header only. *)
Definition NewBunnyEnforcer (key_resolves : bool) (name : string) (zones : list Z) (al : list prefix) : result goerr BunnyEnforcer :=
  if negb key_resolves then Err (EText "enforce/bunny: resolve access key")
  else match zones with
       | [] => Err (EText "enforce/bunny: at least one pull zone id is required")
       | _ => Ok (MkBunny name zones bunnyBaseURL al bunnyRetryDelays DefaultBunnyZoneCap)
       end.

Definition Name (e : BunnyEnforcer) : string :=
  if bool_decide (instanceName e = EmptyString) then "bunny" else "bunny[" +:+ instanceName e +:+ "]".

Definition targetAddr (t : Target) : option addr :=
  if IsValid (t_IP t) then Some (t_IP t) else if PIsValid (t_Prefix t) then Some (paddr (t_Prefix t)) else None.

(** The target's address, for a range its first, against the allowlist. *)
Definition isAllowlisted (al : list prefix) (t : Target) : bool :=
  match targetAddr t with Some a => existsb (λ p, Contains p a) al | None => false end.

Definition bunnyStatusErr (status : Z) (b : bunny_body) : string :=
  match apiErr b with
  | Some (key, msg) =>
    if negb (bool_decide (msg = EmptyString)) || negb (bool_decide (key = EmptyString))
    then "HTTP " +:+ show_Z status +:+ ": " +:+ key +:+ " " +:+ msg
    else "HTTP " +:+ show_Z status +:+ ": " +:+ str_take bunnyErrSnippet (raw b)
  | None => "HTTP " +:+ show_Z status +:+ ": " +:+ str_take bunnyErrSnippet (raw b)
  end.

(** An entry of the remote list that reads as an address or a prefix. *)
Definition is_entry (s : string) : bool := match ParseAddr s with Some _ => true | None => match ParsePrefix s with Some _ => true | None => false end end.

(** The wanted keys: distinct, in the order given, the newest [cap] of them. *)
Fixpoint want_keys (al : list prefix) (seen : gset string) (want : list Target) : list string :=
  match want with
  | [] => []
  | t :: want =>
    if isAllowlisted al t then want_keys al seen want
    else match targetKey t with
         | None => want_keys al seen want
         | Some k => if bool_decide (k ∈ seen) then want_keys al seen want else k :: want_keys al ({[k]} ∪ seen) want
         end
  end.
Definition newest {A} (cap : nat) (l : list A) : list A := drop (length l - cap) l.

Fixpoint remove_first (ip : string) (l : list string) : list string :=
  match l with [] => [] | x :: l => if bool_decide (x = ip) then l else x :: remove_first ip l end.

Section enforcer.
Context {S : Type} `{Net S} `{BunnyAPI S} (e : BunnyEnforcer).
#[local] Notation bio := (io (gmap Z bunnyZoneState) bunny_event S).

(** [getOrCreateZone] *)
Definition zone_of (zs : gmap Z bunnyZoneState) (zone : Z) : bunnyZoneState := default newBunnyZone (zs !! zone).
Definition upd (zone : Z) (f : bunnyZoneState → bunnyZoneState) : bio unit := put_st (λ zs, <[zone := f (zone_of zs zone)]> zs).

Definition doOnce (call : S → reply bunny_body * S) (ev : reply bunny_body → bunny_event) : bio (bunny_body * Z * duration) :=
  _ ← wait;
  r ← lift call;
  _ ← log (ev r);
  match r with
  | Transport t => fail (EWrap ("request failed: " +:+ t) (EText t))
  | Resp _ _ (inl t) => fail (wrapf "read response" (EText t))
  | Resp status retryAfter (inr b) => mret (b, status, parseRetryAfter retryAfter)
  end.

Fixpoint attempts (more attempt : nat) (call : S → reply bunny_body * S) (ev : reply bunny_body → bunny_event) : bio (bunny_body * Z) :=
  r ← try (doOnce call ev);
  let again (retryAfter : duration) (last : bio (bunny_body * Z)) : bio (bunny_body * Z) :=
    match more with
    | O => last
    | Datatypes.S more => _ ← cfBackoffWait (retryDelays e) attempt retryAfter; attempts more (Datatypes.S attempt) call ev
    end in
  match r with
  | Ok (b, status, retryAfter) =>
    if negb (status =? StatusTooManyRequests) && (status <? 500) then mret (b, status) else again retryAfter (mret (b, status))
  | Err x => again 0 (fail x)
  end.
Definition doWithRetry (call : S → reply bunny_body * S) (ev : reply bunny_body → bunny_event) : bio (bunny_body * Z) :=
  attempts (length (retryDelays e)) 0 call ev.

Definition mutateBlockedIP (zone : Z) (verb ip : string) : bio unit :=
  r ← wrap verb (doWithRetry (postBlocked verb zone ip) (Mutated verb zone ip));
  if negb (r.2 =? 204) && negb (r.2 =? 200) then fail (EText (verb +:+ ": " +:+ bunnyStatusErr r.2 r.1)) else mret tt.

Definition fetchBlockedIPs (zone : Z) : bio (gset string) :=
  r ← doWithRetry (getZone zone) (Fetched zone);
  if negb (r.2 =? 200) then fail (EText ("get pull zone: " +:+ bunnyStatusErr r.2 r.1))
  else match blockedIps r.1 with
       | inl t => fail (wrapf "get pull zone: malformed response" (EText t))
       | inr ips => mret (list_to_set (List.filter is_entry ips))
       end.

Definition banZone (zone : Z) (ip : string) : bio unit :=
  zs ← get_st;
  let z := zone_of zs zone in
  if bool_decide (ip ∈ present z) then mret tt
  else
    _ ← (if (zoneCap e <=? length (order z))%nat then
           match order z with
           | [] => fail (EText "index out of range [0] with length 0")
           | oldest :: rest =>
             _ ← wrap ("evict oldest " +:+ oldest) (mutateBlockedIP zone "removeBlockedIp" oldest);
             upd zone (λ z, MkBunnyZone (synced z) (tail (order z)) (present z ∖ {[oldest]}))
           end
         else mret tt);
    _ ← mutateBlockedIP zone "addBlockedIp" ip;
    upd zone (λ z, MkBunnyZone (synced z) (order z ++ [ip]) ({[ip]} ∪ present z)).

(** [f] on every zone; the failures of the zones are joined at the end. *)
Fixpoint all_zones (op : string) (f : Z → bio unit) (zones : list Z) (errs : list goerr) : bio unit :=
  match zones with
  | [] => match joinErrs (rev errs) with None => mret tt | Some x => fail x end
  | zone :: zones =>
    r ← try (f zone);
    all_zones op f zones (match r with Ok _ => errs | Err x => wrapf ("enforce/bunny " +:+ op +:+ " zone " +:+ show_Z zone) x :: errs end)
  end.

Definition Ban (t : Target) : bio unit :=
  if isAllowlisted (allowlist e) t
  then fail (EText ("enforce/bunny: refusing to ban allowlisted target " +:+ default EmptyString (targetKey t)))
  else match targetKey t with
       | None => fail (wrapf "enforce/bunny Ban" no_key)
       | Some ip => all_zones "Ban" (λ zone, banZone zone ip) (pullZoneIDs e) []
       end.

Definition unbanZone (zone : Z) (ip : string) : bio unit :=
  _ ← mutateBlockedIP zone "removeBlockedIp" ip;
  upd zone (λ z, MkBunnyZone (synced z) (remove_first ip (order z)) (present z ∖ {[ip]})).

Definition Unban (t : Target) : bio unit :=
  match targetKey t with
  | None => fail (wrapf "enforce/bunny Unban" no_key)
  | Some ip => all_zones "Unban" (λ zone, unbanZone zone ip) (pullZoneIDs e) []
  end.

(** Stale entries go first; what is left of the remote list, and the errors. *)
Fixpoint remove_stale (zone : Z) (want : gset string) (ips : list string) (remote : gset string) (errs : list goerr) : bio (gset string * list goerr) :=
  match ips with
  | [] => mret (remote, errs)
  | ip :: ips =>
    if bool_decide (ip ∈ want) then remove_stale zone want ips remote errs
    else r ← try (mutateBlockedIP zone "removeBlockedIp" ip);
         match r with
         | Ok _ => remove_stale zone want ips (remote ∖ {[ip]}) errs
         | Err x => remove_stale zone want ips remote (wrapf ("remove stale " +:+ ip) x :: errs)
         end
  end.

Fixpoint add_missing (zone : Z) (keys : list string) (remote : gset string) (done : list string) (errs : list goerr) : bio (list string * list goerr) :=
  match keys with
  | [] => mret (done, errs)
  | ip :: keys =>
    r ← (if bool_decide (ip ∈ remote) then mret (Ok tt) else try (mutateBlockedIP zone "addBlockedIp" ip));
    match r with
    | Ok _ => add_missing zone keys remote (done ++ [ip]) errs
    | Err x => add_missing zone keys remote done (wrapf ("add " +:+ ip) x :: errs)
    end
  end.

Definition syncZone (keys : list string) (zone : Z) : bio unit :=
  remote ← fetchBlockedIPs zone;
  ips ← lift (λ s, (net_order s (elements remote), s));
  p ← remove_stale zone (list_to_set keys) ips remote [];
  q ← add_missing zone keys p.1 [] p.2;
  _ ← upd zone (λ z, MkBunnyZone (if bool_decide (q.2 = []) then true else synced z) q.1 (list_to_set q.1));
  match joinErrs (rev q.2) with None => mret tt | Some x => fail x end.

Definition sync_keys (want : list Target) : list string := newest (zoneCap e) (want_keys (allowlist e) ∅ want).

Definition Sync (want : list Target) : bio unit := all_zones "Sync" (syncZone (sync_keys want)) (pullZoneIDs e) [].
End enforcer.

(** * What the bunny.net enforcer keeps to, whatever the API answers, and what a
    reconcile leaves on an API that does its job. *)
Inductive op := OBan (t : Target) | OUnban (t : Target) | OSync (want : list Target).

Section run.
Context {S : Type} `{Net S} `{BunnyAPI S} (e : BunnyEnforcer).
Definition run_op (o : op) : io (gmap Z bunnyZoneState) bunny_event S unit :=
  match o with OBan t => Ban e t | OUnban t => Unban e t | OSync want => Sync e want end.
Definition start (s : S) : world (gmap Z bunnyZoneState) bunny_event S := MkWorld ∅ s [].
Definition run_ops (ops : list op) (w : world (gmap Z bunnyZoneState) bunny_event S) : world (gmap Z bunnyZoneState) bunny_event S :=
  foldl (λ w o, (run_op o w).2) w ops.
End run.

(** ** The keys of a reconcile *)
Lemma want_keys_spec al seen want : NoDup (want_keys al seen want) ∧
  ∀ k, k ∈ want_keys al seen want → k ∉ seen ∧ ∃ t, t ∈ want ∧ isAllowlisted al t = false ∧ targetKey t = Some k.
Proof.
  revert seen. induction want as [|t want IH]; intros seen; cbn; [split; [constructor|by intros k ?%elem_of_nil]|].
  assert (∀ seen', seen ⊆ seen' → NoDup (want_keys al seen' want) ∧ ∀ k, k ∈ want_keys al seen' want →
    (k ∉ seen ∧ k ∉ seen') ∧ ∃ u, u ∈ t :: want ∧ isAllowlisted al u = false ∧ targetKey u = Some k) as Hrest.
  { intros seen' Hs. destruct (IH seen') as [Hn Hk]. split; [done|]. intros k (Hns & u & Hu & Hr)%Hk. split; [set_solver|]. exists u. split; [by right|done]. }
  destruct (isAllowlisted al t) eqn:Ea; [|destruct (targetKey t) as [k0|] eqn:Ek; [case_bool_decide as Hs|]].
  - destruct (Hrest seen) as [Hn Hk]; [done|]. split; [done|]. intros k Hin. by destruct (Hk k Hin) as [[? _] ?].
  - destruct (Hrest seen) as [Hn Hk]; [done|]. split; [done|]. intros k Hin. by destruct (Hk k Hin) as [[? _] ?].
  - destruct (Hrest ({[k0]} ∪ seen)) as [Hn Hk]; [set_solver|]. split.
    + constructor; [|done]. intros Hin. destruct (Hk k0 Hin) as [[_ Hno] _]. set_solver.
    + intros k [->|Hin]%elem_of_cons; [|by destruct (Hk k Hin) as [[? _] ?]]. split; [done|]. exists t. split; [by left|done].
  - destruct (Hrest seen) as [Hn Hk]; [done|]. split; [done|]. intros k Hin. by destruct (Hk k Hin) as [[? _] ?].
Qed.

Lemma sync_keys_spec e want : NoDup (sync_keys e want) ∧ (length (sync_keys e want) ≤ zoneCap e)%nat ∧
  ∀ k, k ∈ sync_keys e want → ∃ t, t ∈ want ∧ isAllowlisted (allowlist e) t = false ∧ targetKey t = Some k.
Proof.
  unfold sync_keys, newest. destruct (want_keys_spec (allowlist e) ∅ want) as [Hn Hk]. split_and!.
  - eapply sublist_NoDup; [exact Hn|]. apply sublist_drop.
  - rewrite length_drop. lia.
  - intros k Hin. apply Hk. revert Hin. apply sublist_subseteq, sublist_drop.
Qed.

(** Each wanted key where it is first wanted, and the last [zoneCap] of them. *)
Definition wanted_keys (al : list prefix) (want : list Target) : list string :=
  reverse (remove_dups (reverse (omap (λ t, if isAllowlisted al t then None else targetKey t) want))).
Definition newest_wanted (e : BunnyEnforcer) (want : list Target) : list string :=
  let keys := wanted_keys (allowlist e) want in drop (length keys - zoneCap e) keys.

Lemma remove_dups_snoc (l : list string) x : remove_dups (l ++ [x]) = filter (.≠ x) (remove_dups l) ++ [x].
Proof.
  induction l as [|y l IH]; [done|]. cbn [app remove_dups].
  assert (y ∈ l ++ [x] ↔ y ∈ l ∨ y = x) as Hin by (rewrite elem_of_app, list_elem_of_singleton; done).
  repeat case_decide; try tauto.
  - assert (y = x) as -> by tauto. by rewrite filter_cons_False, IH by tauto.
  - rewrite filter_cons_True, IH by tauto. done.
Qed.

Lemma wanted_keys_cons al t want : wanted_keys al (t :: want) =
  match (if isAllowlisted al t then None else targetKey t) with
  | None => wanted_keys al want
  | Some k => k :: filter (.≠ k) (wanted_keys al want)
  end.
Proof.
  unfold wanted_keys. cbn [omap list_omap]. destruct (if isAllowlisted al t then None else targetKey t) as [k|]; [|done].
  rewrite reverse_cons, remove_dups_snoc, reverse_snoc, filter_reverse. done.
Qed.

Lemma want_keysE al seen want : want_keys al seen want = filter (.∉ seen) (wanted_keys al want).
Proof.
  revert seen. induction want as [|t want IH]; intros seen; [done|]. rewrite wanted_keys_cons. cbn [want_keys].
  destruct (isAllowlisted al t); [apply IH|]. destruct (targetKey t) as [k|]; [|apply IH]. rewrite !IH.
  assert (filter (.∉ {[k]} ∪ seen) (wanted_keys al want) = filter (.∉ seen) (filter (.≠ k) (wanted_keys al want))) as Hf.
  { rewrite list_filter_filter. apply list_filter_iff. intros x. set_solver. }
  case_bool_decide as Hk; [rewrite filter_cons_False by tauto|by rewrite filter_cons_True, Hf by done].
  rewrite <- Hf. apply list_filter_iff. intros x. set_solver.
Qed.

Lemma sync_keysE e want : sync_keys e want = newest_wanted e want.
Proof.
  unfold sync_keys, newest, newest_wanted. rewrite want_keysE.
  replace (filter _ (wanted_keys _ _)) with (wanted_keys (allowlist e) want); [done|].
  generalize (wanted_keys (allowlist e) want) as l. induction l as [|k l IH]; [done|]. rewrite filter_cons_True by set_solver. by rewrite <- IH.
Qed.

Section safe.
Context (e : BunnyEnforcer).

(** ** Right events *)

(** An answer listed [ip] in the zone. *)
Definition listed (l : list bunny_event) (zone : Z) (ip : string) : Prop :=
  ∃ status ra b ips, Fetched zone (Resp status ra (inr b)) ∈ l ∧ blockedIps b = inr ips ∧ ip ∈ ips.

Definition may_add (o : op) (zone : Z) (ip : string) : Prop :=
  match o with
  | OBan t => isAllowlisted (allowlist e) t = false ∧ targetKey t = Some ip
  | OUnban _ => False
  | OSync want => ip ∈ newest_wanted e want
  end.
Definition may_remove (o : op) (zs : gmap Z bunnyZoneState) (l : list bunny_event) (zone : Z) (ip : string) : Prop :=
  match o with
  | OBan _ => head (order (zone_of zs zone)) = Some ip ∧ (zoneCap e ≤ length (order (zone_of zs zone)))%nat
  | OUnban t => targetKey t = Some ip
  | OSync want => listed l zone ip ∧ ip ∉ newest_wanted e want
  end.

Section op.
Context (o : op) (zs0 : gmap Z bunnyZoneState).
Definition right_event (l : list bunny_event) (ev : bunny_event) : Prop :=
  match ev with
  | Fetched zone _ => zone ∈ pullZoneIDs e
  | Mutated verb zone ip _ => zone ∈ pullZoneIDs e ∧
      ((verb = "addBlockedIp"%string ∧ may_add o zone ip) ∨ (verb = "removeBlockedIp"%string ∧ may_remove o zs0 l zone ip))
  end.
End op.

(** What an operation does to a zone's list of bans, oldest first: a ban takes the
    head when the list is full and puts its address at the end; an unban takes its
    address out; a reconcile puts wanted addresses, in the order wanted. *)
Definition moved (o : op) (z z' : bunnyZoneState) : Prop :=
  match o with
  | OBan t => ∃ gone kept new, order z = gone ++ kept ∧ order z' = kept ++ new ∧
      (gone = [] ∨ length gone = 1%nat ∧ (zoneCap e ≤ length (order z))%nat) ∧ (new = [] ∨ ∃ ip, targetKey t = Some ip ∧ new = [ip])
  | OUnban t => order z' = order z ∨ ∃ ip, targetKey t = Some ip ∧ order z' = filter (.≠ ip) (order z)
  | OSync want => order z' = order z ∨ order z' `sublist_of` newest_wanted e want
  end.

#[local] Instance moved_refl o : Reflexive (moved o).
Proof. intros z. destruct o; simpl; [|by left|by left]. exists [], (order z), []. rewrite app_nil_r. auto. Qed.

(** ** Calls *)
Section calls.
Context {S : Type} `{Net S} `{BunnyAPI S} (G : gmap Z bunnyZoneState → list bunny_event → Prop).
#[local] Notation bio := (io (gmap Z bunnyZoneState) bunny_event S).

Lemma retry_G call (ev : reply bunny_body → bunny_event) : (∀ t l r, G t l → G t (ev r :: l)) →
  triple (on G) (doWithRetry e call ev : bio _) (λ res w, match res with
    | Ok p => ∃ status ra, on (λ t l, G t l ∧ ev (Resp status ra (inr p.1)) ∈ l) w
    | Err _ => on G w end).
Proof.
  intros HG. unfold doWithRetry. generalize 0%nat as n. induction (length (retryDelays e)) as [|more IH]; intros n; cbn [attempts];
    (apply (triple_bind _ _ _ (λ res w, match res with
        | Ok (Ok p) => ∃ status ra, on (λ t l, G t l ∧ ev (Resp status ra (inr p.1.1)) ∈ l) w | _ => on G w end)); [apply triple_try| |done]).
  1, 3: unfold doOnce; (eapply triple_bind; [apply quiet_wait, quiet_on|intros []|done]);
    intros [t s l] Hw; unfold mbind, io_mbind, lift, log, mret, io_mret, fail; cbn [net st sent];
    destruct (call s) as [[x|status ra [x|b]] s']; cbn; try (by apply HG); exists status, ra; (split; [by apply HG|left]).
  - intros [[[b status] ra]|x]; cbn; [|by apply triple_fail]. destruct (_ && _); apply triple_ret; by intros w.
  - intros [[[b status] ra]|x]; cbn.
    + destruct (_ && _); [by apply triple_ret|].
      eapply triple_bind; [eapply triple_conseq; [apply quiet_backoff, (quiet_on G)|by intros w (? & ? & ? & _)|intros r w Hw; exact Hw]|intros []; apply IH|done].
    + eapply triple_bind; [apply quiet_backoff, quiet_on|intros []; apply IH|done].
Qed.

Lemma mutate_blocked zone verb ip : (∀ t l r, G t l → G t (Mutated verb zone ip r :: l)) →
  triple (on G) (mutateBlockedIP e zone verb ip : bio _) (λ _, on G).
Proof.
  intros HG. unfold mutateBlockedIP. apply (triple_bind _ _ _ (λ _, on G)); [|intros r; destruct (_ && _); [by apply triple_fail|by apply triple_ret]|done].
  apply triple_wrap. eapply triple_conseq; [by apply retry_G|done|]. intros [p|x] w; [by intros (? & ? & ? & _)|done].
Qed.
End calls.

(** ** The state of a zone *)
Definition zone_wf (z : bunnyZoneState) : Prop := NoDup (order z) ∧ present z = list_to_set (order z) ∧ (length (order z) ≤ zoneCap e)%nat.
Definition inv (zs : gmap Z bunnyZoneState) : Prop := ∀ zone, zone_wf (zone_of zs zone).

Lemma zone_of_upd zs zone v z : zone_of (<[zone := v]> zs) z = if decide (z = zone) then v else zone_of zs z.
Proof. unfold zone_of at 1. case_decide; [subst; by rewrite lookup_insert_eq|by rewrite lookup_insert_ne]. Qed.

Lemma remove_firstE ip l : NoDup l → remove_first ip l = filter (.≠ ip) l.
Proof.
  induction l as [|x l IH]; intros Hn; [done|]. apply NoDup_cons in Hn as [Hx Hn]. cbn [remove_first]. case_bool_decide as Hd.
  - subst x. rewrite filter_cons_False by tauto. clear -Hx. induction l as [|y l IH]; [done|]. rewrite filter_cons_True by set_solver. f_equal. set_solver.
  - by rewrite filter_cons_True, IH by done.
Qed.

Lemma remove_first_wf ip l : NoDup l → NoDup (remove_first ip l) ∧ (∀ x, x ∈ remove_first ip l ↔ x ∈ l ∧ x ≠ ip) ∧ (length (remove_first ip l) ≤ length l)%nat.
Proof.
  induction l as [|x l IH]; intros Hn; cbn; [split_and!; [done|set_solver|done]|]. apply NoDup_cons in Hn as [Hx Hn]. destruct (IH Hn) as (H1 & H2 & H3).
  case_bool_decide as Hd; [subst; split_and!; [done|set_solver|lia]|]. split_and!; [|set_solver|cbn; lia].
  constructor; [|done]. rewrite H2. tauto.
Qed.

Section ops.
Context {S : Type} `{Net S} `{BunnyAPI S} (o : op) (zs0 : gmap Z bunnyZoneState) (l0 : list bunny_event).
#[local] Notation bio := (io (gmap Z bunnyZoneState) bunny_event S).
#[local] Notation right_log := (grows (right_event o zs0) l0).
Context (Hcap : (0 < zoneCap e)%nat).

(** The state is [zs], and only right events were added. *)
Definition at_zones (zs t : gmap Z bunnyZoneState) (l : list bunny_event) : Prop := t = zs ∧ right_log l.
(** At most [zone] is changed from [zs], and every zone is well formed. *)
Definition after (zone : Z) (zs t : gmap Z bunnyZoneState) (l : list bunny_event) : Prop :=
  inv t ∧ ((∀ z, z ≠ zone → zone_of t z = zone_of zs z) ∧ moved o (zone_of zs zone) (zone_of t zone)) ∧ right_log l.

Lemma after_same zone zs t l : inv zs → at_zones zs t l → after zone zs t l.
Proof. by intros Hi [-> Hl]. Qed.
Lemma after_upd zone zs v l : inv zs → zone_wf v → moved o (zone_of zs zone) v → right_log l → after zone zs (<[zone := v]> zs) l.
Proof.
  intros Hi Hf Hm Hl. split; [|split; [split|done]]; try (intros z; rewrite zone_of_upd).
  - case_decide; [done|apply Hi].
  - by intros; rewrite decide_False.
  - by rewrite zone_of_upd, decide_True.
Qed.

Lemma mutate_at zs zone verb ip : (∀ l r, right_log l → right_event o zs0 l (Mutated verb zone ip r)) →
  triple (on (at_zones zs)) (mutateBlockedIP e zone verb ip : bio _) (λ _, on (at_zones zs)).
Proof. intros Hr. apply mutate_blocked. intros t l r [-> Hl]. split; [done|]. constructor; auto. Qed.

Lemma banZone_at zs zone ip t : o = OBan t → may_add o zone ip → zone ∈ pullZoneIDs e →
  inv zs → zone_of zs zone = zone_of zs0 zone →
  triple (on (at_zones zs)) (banZone e zone ip : bio _) (λ _, on (after zone zs)).
Proof.
  intros Ho Hadd Hz Hi E. destruct (Hi zone) as (Hn & Hp & Hc). intros w Hw. unfold banZone. unfold mbind at 1, io_mbind, get_st.
  assert (st w = zs) as -> by apply Hw. revert w Hw. change (triple (on (at_zones zs)) (if bool_decide (ip ∈ present (zone_of zs zone)) then mret tt else
    _ ← (if (zoneCap e <=? length (order (zone_of zs zone)))%nat then
           match order (zone_of zs zone) with
           | [] => fail (EText "index out of range [0] with length 0")
           | oldest :: rest =>
             _ ← wrap ("evict oldest " +:+ oldest) (mutateBlockedIP e zone "removeBlockedIp" oldest);
             upd zone (λ z, MkBunnyZone (synced z) (tail (order z)) (present z ∖ {[oldest]}))
           end
         else mret tt);
    _ ← mutateBlockedIP e zone "addBlockedIp" ip;
    upd zone (λ z, MkBunnyZone (synced z) (order z ++ [ip]) ({[ip]} ∪ present z))) (λ _, on (after zone zs))).
  case_bool_decide as Hin; [apply triple_ret; intros w; by apply after_same|].
  assert (∀ zs1, (∀ z, z ≠ zone → zone_of zs1 z = zone_of zs z) → zone_wf (zone_of zs1 zone) → (length (order (zone_of zs1 zone)) < zoneCap e)%nat → ip ∉ present (zone_of zs1 zone) →
    (∃ gone, order (zone_of zs zone) = gone ++ order (zone_of zs1 zone) ∧ (gone = [] ∨ length gone = 1%nat ∧ (zoneCap e ≤ length (order (zone_of zs zone)))%nat)) →
    triple (on (at_zones zs1)) (_ ← mutateBlockedIP e zone "addBlockedIp" ip; upd zone (λ z, MkBunnyZone (synced z) (order z ++ [ip]) ({[ip]} ∪ present z)) : bio _) (λ _, on (after zone zs))) as Hrest.
  { intros zs1 Hsame (Hn1 & Hp1 & _) Hlen Hno (gone & Hg & Hfl). assert (inv zs1) as Hi1.
    { intros z. destruct (decide (z = zone)) as [->|Hne]; [split; [done|split; [done|lia]]|]. rewrite Hsame by done. apply Hi. }
    assert (∀ t' l new, (new = [] ∨ ∃ k, targetKey t = Some k ∧ new = [k]) → order (zone_of t' zone) = order (zone_of zs1 zone) ++ new →
      after zone zs1 t' l → after zone zs t' l) as Hback.
    { intros t' l new Hnew Eo (? & [Hs _] & ?). split; [done|split; [split|done]]; [intros z Hne; by rewrite Hs, Hsame|].
      rewrite Ho. by exists gone, (order (zone_of zs1 zone)), new. }
    apply (triple_bind _ _ _ (λ _, on (at_zones zs1))).
    - apply mutate_at. intros l r _. split; [done|left; split; [done|exact Hadd]].
    - intros [] w [Et Hl]. assert (moved o (zone_of zs1 zone) (MkBunnyZone (synced (zone_of zs1 zone)) (order (zone_of zs1 zone) ++ [ip]) ({[ip]} ∪ present (zone_of zs1 zone)))) as Hm.
      { rewrite Ho. exists [], (order (zone_of zs1 zone)), [ip]. split_and!; [done|done|by left|right; exists ip; split; [|done]].
        rewrite Ho in Hadd. apply Hadd. }
      unfold on, upd, put_st. cbn [st net sent snd]. rewrite Et. apply (Hback _ _ [ip]); [right; exists ip; split; [|done]; rewrite Ho in Hadd; apply Hadd|by rewrite zone_of_upd, decide_True|].
      apply after_upd; [done| |done|done]. split; [|split].
      + cbn. apply NoDup_app. split; [done|]. split; [|apply NoDup_singleton]. intros x Hx ->%list_elem_of_singleton. apply Hno. rewrite Hp1. set_solver.
      + cbn. rewrite Hp1, list_to_set_app_L. cbn. set_solver.
      + cbn. rewrite length_app. cbn. lia.
    - intros x w Hw. apply (Hback _ _ []); [by left|by rewrite app_nil_r, (proj1 Hw)|by apply after_same]. }
  destruct (Nat.leb_spec (zoneCap e) (length (order (zone_of zs zone)))) as [Hfull|Hroom].
  2: { apply (triple_bind _ _ _ (λ r w, r = Ok tt ∧ on (at_zones zs) w)); [by apply triple_ret|intros []|by intros x w [? _]].
       eapply triple_conseq; [apply (Hrest zs); [done..|by exists []; auto]|by intros w [_ ?]|done]. }
  destruct (order (zone_of zs zone)) as [|oldest rest] eqn:Eo; [cbn in Hfull; lia|].
  apply NoDup_cons in Hn as [Hold Hn].
  set (f := λ z, MkBunnyZone (synced z) (tail (order z)) (present z ∖ {[oldest]})).
  apply (triple_bind _ _ _ (λ r, match r with Ok _ => on (at_zones (<[zone := f (zone_of zs zone)]> zs)) | Err _ => on (at_zones zs) end)).
  - apply (triple_bind _ _ _ (λ _, on (at_zones zs))); [apply triple_wrap, mutate_at|intros [] w [Et Hl]|done].
    + intros l r _. split; [done|right]. split; [done|]. rewrite Ho. cbn. rewrite <- E, Eo. done.
    + split; [|done]. unfold upd, put_st. cbn [st net sent snd]. by rewrite Et.
  - intros []. apply Hrest; rewrite ?zone_of_upd.
    + intros z Hne. by rewrite zone_of_upd, decide_False.
    + rewrite decide_True by done. unfold f. rewrite Eo. split; [done|]. split; [cbn; rewrite Hp; cbn; set_solver|cbn in *; lia].
    + rewrite decide_True by done. unfold f. rewrite Eo. cbn in *. lia.
    + rewrite decide_True by done. unfold f. rewrite Eo. cbn. set_solver.
    + rewrite decide_True by done. unfold f. rewrite Eo. exists [oldest]. split; [done|right]. by split.
  - intros x w Hw. by apply after_same.
Qed.

Lemma unbanZone_at zs zone ip t : o = OUnban t → targetKey t = Some ip → zone ∈ pullZoneIDs e → inv zs →
  triple (on (at_zones zs)) (unbanZone e zone ip : bio _) (λ _, on (after zone zs)).
Proof.
  intros Ho Ht Hz Hi. destruct (Hi zone) as (Hn & Hp & Hc). unfold unbanZone. apply (triple_bind _ _ _ (λ _, on (at_zones zs))).
  - apply mutate_at. intros l r _. split; [done|right; split; [done|by rewrite Ho]].
  - intros [] w [Et Hl]. unfold on, upd, put_st. cbn [st net sent snd]. rewrite Et. apply (after_upd zone zs); [done| |rewrite Ho; right; exists ip; split; [done|by apply remove_firstE]|done]. destruct (remove_first_wf ip _ Hn) as (H1 & H2 & H3).
    split; [done|]. split; [|cbn; lia]. cbn. rewrite Hp. apply set_eq. intros x. rewrite elem_of_difference, !elem_of_list_to_set, H2, elem_of_singleton. done.
  - intros x w Hw. by apply after_same.
Qed.

(** ** A reconcile *)
Definition at_listed (zone : Z) (ips : list string) (zs t : gmap Z bunnyZoneState) (l : list bunny_event) : Prop :=
  at_zones zs t l ∧ ∀ ip, ip ∈ ips → listed l zone ip.

Lemma listed_cons l zone ip ev : listed l zone ip → listed (ev :: l) zone ip.
Proof. intros (s' & ra & b & ips & Hin & Hr). exists s', ra, b, ips. split; [by right|done]. Qed.

Lemma fetch_at zs zone : zone ∈ pullZoneIDs e →
  triple (on (at_zones zs)) (fetchBlockedIPs e zone : bio _)
    (λ r w, match r with Ok remote => on (at_listed zone (elements remote) zs) w | Err _ => on (at_zones zs) w end).
Proof.
  intros Hz. unfold fetchBlockedIPs. eapply triple_bind; [apply retry_G; intros t l r [-> Hl]; split; [done|by constructor]|intros [b status]|done].
  intros w (st' & ra & [Ha Hin]). cbn [fst snd] in *. destruct (negb _); [done|]. destruct (blockedIps b) as [x|ips] eqn:Eb; [done|].
  split; [done|]. intros ip. rewrite elem_of_elements, elem_of_list_to_set, list_elem_of_In, filter_In, <- list_elem_of_In. intros [Hip _].
  exists st', ra, b, ips. done.
Qed.

Lemma remove_stale_at want zs zone keys ips remote errs : o = OSync want → keys = sync_keys e want → zone ∈ pullZoneIDs e →
  triple (on (at_listed zone ips zs)) (remove_stale e zone (list_to_set keys) ips remote errs : bio _) (λ _, on (at_zones zs)).
Proof.
  intros Ho -> Hz. revert remote errs. induction ips as [|ip ips IH]; intros remote errs; cbn [remove_stale]; [apply triple_ret; by intros w [? _]|].
  assert (∀ w : world _ _ S, on (at_listed zone (ip :: ips) zs) w → on (at_listed zone ips zs) w) as Htl.
  { intros w [Ha Hl]. split; [done|]. intros x Hx. apply Hl. by right. }
  case_bool_decide as Hk; [eapply triple_conseq; [apply IH|apply Htl|done]|].
  apply (triple_bind _ _ _ (λ _, on (at_listed zone (ip :: ips) zs))).
  - apply triple_try, mutate_blocked. intros t l r [[-> Hl] Hall]. split; [split; [done|constructor; [done|]]|intros x Hx; by apply listed_cons, Hall].
    split; [done|right]. split; [done|]. rewrite Ho. split; [apply Hall; by left|]. rewrite <- sync_keysE. set_solver.
  - intros [[]|x]; (eapply triple_conseq; [apply IH|apply Htl|done]).
  - intros x w [Ha _]. exact Ha.
Qed.

Lemma add_missing_at want zs zone keys remote kept errs : o = OSync want → zone ∈ pullZoneIDs e → (∀ k, k ∈ keys → k ∈ sync_keys e want) → 
  triple (on (at_zones zs)) (add_missing e zone keys remote kept errs : bio _)
    (λ r w, on (at_zones zs) w ∧ match r with Ok q => ∃ more, q.1 = kept ++ more ∧ sublist more keys | Err _ => True end).
Proof.
  intros Ho Hz. revert kept errs. induction keys as [|ip keys IH]; intros kept errs Hk; cbn [add_missing].
  - apply triple_ret. intros w Hw. split; [done|]. exists []. by rewrite app_nil_r.
  - assert (∀ k, k ∈ keys → k ∈ sync_keys e want) as Hk' by (intros; apply Hk; by right).
    apply (triple_bind _ _ _ (λ _, on (at_zones zs))); [|intros [[]|x]|by intros].
    + case_bool_decide; [by apply triple_ret|]. apply triple_try, mutate_at. intros l r _. split; [done|left]. split; [done|]. rewrite Ho. simpl. rewrite <- sync_keysE. apply Hk. by left.
    + eapply triple_conseq; [apply IH, Hk'|done|]. intros [q|x] w [Hw Hq]; split; try done. destruct Hq as (more & -> & Hs).
      exists (ip :: more). split; [by rewrite <- app_assoc|by constructor].
    + eapply triple_conseq; [apply IH, Hk'|done|]. intros [q|y] w [Hw Hq]; split; try done. destruct Hq as (more & -> & Hs). exists more. split; [done|by constructor].
Qed.

Lemma syncZone_at want zs zone : o = OSync want → zone ∈ pullZoneIDs e → inv zs →
  triple (on (at_zones zs)) (syncZone e (sync_keys e want) zone : bio _) (λ _, on (after zone zs)).
Proof.
  intros Ho Hz Hi. assert (∀ w : world _ _ S, on (at_zones zs) w → on (after zone zs) w) as Hsame by (intros w; by apply after_same).
  unfold syncZone. eapply triple_bind; [by apply fetch_at|intros remote|intros; by apply Hsame]. cbn beta iota.
  apply (triple_bind _ _ _ (λ r w, match r with Ok ips => on (at_listed zone ips zs) w | Err _ => on (at_zones zs) w end)).
  { intros [t s l] [Ha Hl]. cbn. split; [done|]. intros ip. rewrite net_order_perm. apply Hl. }
  2: intros; by apply Hsame. intros ips. cbn beta iota.
  eapply triple_bind; [by eapply remove_stale_at|intros p|intros; by apply Hsame].
  eapply triple_bind; [by eapply add_missing_at|intros q|intros x w [? _]; by apply Hsame].
  apply (triple_bind _ _ _ (λ _, on (after zone zs))).
  - intros w [[Et Hl] (more & Eq & Hs)]. unfold on, upd, put_st. cbn [st net sent snd]. rewrite Et. apply (after_upd zone zs); [done| | |done].
    2: { rewrite Ho. right. cbn in Eq. cbn. rewrite Eq, <- sync_keysE. exact Hs. }
    destruct (sync_keys_spec e want) as (Hn & Hc & _). cbn in Eq. rewrite Eq. split; [by eapply sublist_NoDup|]. split; [done|].
    cbn. apply sublist_length in Hs. lia.
  - intros []. destruct (joinErrs _); [by apply triple_fail|by apply triple_ret].
  - done.
Qed.

(** ** All zones *)
Definition before (rest : list Z) (t : gmap Z bunnyZoneState) (l : list bunny_event) : Prop :=
  inv t ∧ ((∀ z, z ∈ rest → zone_of t z = zone_of zs0 z) ∧ ∀ z, moved o (zone_of zs0 z) (zone_of t z)) ∧ right_log l.

Lemma all_zones_at opname (f : Z → bio unit) zones errs : NoDup zones →
  (∀ zone zs, zone ∈ zones → inv zs → zone_of zs zone = zone_of zs0 zone → triple (on (at_zones zs)) (f zone) (λ _, on (after zone zs))) →
  triple (on (before zones)) (all_zones opname f zones errs) (λ _, on (before [])).
Proof.
  revert errs. induction zones as [|zone zones IH]; intros errs Hn Hf; cbn [all_zones].
  - destruct (joinErrs _); [by apply triple_fail|by apply triple_ret].
  - apply NoDup_cons in Hn as [Hno Hn]. apply (triple_bind _ _ _ (λ _, on (before zones))).
    + apply triple_try. intros w (Hi & [Hsame Hmv] & Hl). assert (zone ∈ zone :: zones) as Hz by left.
      destruct (Hf zone (st w) Hz Hi (Hsame zone Hz) w) as (Hi' & [Hs' Hm'] & Hl'); [done|]. split; [done|]. split; [split|done].
      * intros z Hin. rewrite Hs' by (intros ->; done). apply Hsame. by right.
      * intros z. destruct (decide (z = zone)) as [->|Hne]; [by rewrite <- (Hsame zone Hz)|]. rewrite Hs' by done. apply Hmv.
    + intros r. apply IH; [done|]. intros z zs Hin. apply Hf. by right.
    + intros x w (? & [_ ?] & ?). split; [done|]. split; [split; [by intros z ?%elem_of_nil|done]|done].
Qed.
End ops.

(** ** The operations *)
Lemma bunny_step {S} `{Net S} `{BunnyAPI S} o (w : world (gmap Z bunnyZoneState) bunny_event S) : (0 < zoneCap e)%nat → NoDup (pullZoneIDs e) → inv (st w) →
  inv (st (run_op e o w).2) ∧ (∀ zone, moved o (zone_of (st w) zone) (zone_of (st (run_op e o w).2) zone)) ∧
  grows (right_event o (st w)) (sent w) (sent (run_op e o w).2).
Proof.
  intros Hcap Hn Hi. assert (on (before o (st w) (sent w) []) w) as Hw by (split; [done|split; [done|constructor]]).
  cut (on (before o (st w) (sent w) []) (run_op e o w).2); [by intros (? & [_ ?] & ?)|].
  assert (∀ opname f, (∀ zone zs, zone ∈ pullZoneIDs e → inv zs → zone_of zs zone = zone_of (st w) zone →
      triple (on (at_zones o (st w) (sent w) zs)) (f zone : io _ _ S unit) (λ _, on (after o (st w) (sent w) zone zs))) →
    on (before o (st w) (sent w) []) (all_zones opname f (pullZoneIDs e) [] w).2) as Hall.
  { intros opname f Hf. apply (all_zones_at o (st w) (sent w) opname f (pullZoneIDs e) [] Hn Hf). split; [done|split; [done|constructor]]. }
  destruct o as [t|t|want]; cbn [run_op].
  - unfold Ban. destruct (isAllowlisted _ t) eqn:Ea; [done|]. destruct (targetKey t) as [ip|] eqn:Ek; [|done]. apply Hall. intros. by eapply banZone_at.
  - unfold Unban. destruct (targetKey t) as [ip|] eqn:Ek; [|done]. apply Hall. intros. by eapply unbanZone_at.
  - apply Hall. intros. by eapply syncZone_at.
Qed.

Lemma bunny_run {S} `{Net S} `{BunnyAPI S} ops (s : S) : (0 < zoneCap e)%nat → NoDup (pullZoneIDs e) → inv (st (run_ops e ops (start s))).
Proof.
  intros Hcap Hn. unfold run_ops. assert (inv (st (start s))) as H0'.
  { intros z. unfold zone_of. cbn. rewrite lookup_empty. split; [constructor|]. split; [done|cbn; lia]. }
  revert H0'. generalize (start s) as w. induction ops as [|o ops IH]; intros w Hw; [done|]. cbn. apply IH. by apply bunny_step.
Qed.
End safe.

(** C25. Whatever the bunny.net API answers and whatever came before, an operation
    on distinct pull zones keeps each zone's list of bans without repeats and
    within five hundred, and in order: a ban puts its address at the end, after
    taking the address at the head away when the list is full, an unban takes its
    address out, a reconcile leaves wanted addresses in the order wanted.  It sends
    only calls it may: it adds a banned address that is not allowlisted, or one of
    the last five hundred wanted ones; it removes an address to make room only when
    the zone is full, and then the head of the list, the oldest; and a reconcile
    removes only addresses the API listed that are not wanted. *)
Theorem bunny_own {S} `{Net S} `{BunnyAPI S} (name : string) (zones : list Z) (al : list prefix) (s : S) (ops : list op) (o : op)
  (Hdistinct : NoDup zones) :
  match NewBunnyEnforcer true name zones al with
  | Err _ => zones = []
  | Ok e => let w := run_ops e ops (start s) in let w' := (run_op e o w).2 in
      inv e (st w) ∧ inv e (st w') ∧ (∀ zone, moved e o (zone_of (st w) zone) (zone_of (st w') zone)) ∧
      grows (right_event e o (st w)) (sent w) (sent w')
  end.
Proof.
  unfold NewBunnyEnforcer. cbn [negb]. destruct zones as [|z zones]; [done|]. cbn zeta.
  assert (0 < DefaultBunnyZoneCap)%nat as Hcap by (unfold DefaultBunnyZoneCap; lia).
  set (e := MkBunny _ _ _ _ _ _). pose proof (bunny_run e ops s Hcap Hdistinct) as Hi. split; [done|]. by apply bunny_step.
Qed.

(** An API that lists one stale address and says yes to everything. *)
Definition yes : string := "203.0.113.9".
#[export] Instance yes_net : Net unit.
Proof. refine {| net_wait s := (None, s); net_pause d s := (None, s); net_ctx s := None; net_jitter d s := (d, s); net_order s l := l |}. done. Defined.
#[export] Instance yes_bunny : BunnyAPI unit := {
  getZone zone s := (Resp 200 EmptyString (inr (MkBody EmptyString (inr [yes]) None)), s);
  postBlocked verb zone ip s := (Resp 204 EmptyString (inr (MkBody EmptyString (inr []) None)), s)
}.
Definition sample_target : Target := MkTarget (Addr4 0xCB007102) PrefixNone 0 EmptyString 0.

Theorem bunny_own_witness : ∃ e, NewBunnyEnforcer true "edge" [7; 8] [] = Ok e ∧
  inv e (st (run_op e (OSync [sample_target]) (run_ops e [OBan sample_target] (start tt))).2) ∧
  map (λ ev, match ev with Mutated verb zone ip _ => Some (verb, zone, ip) | _ => None end) (sent (run_op e (OSync [sample_target]) (start tt)).2)
  = [Some ("addBlockedIp", 8, "203.0.113.2"); Some ("removeBlockedIp", 8, "203.0.113.9"); None;
     Some ("addBlockedIp", 7, "203.0.113.2"); Some ("removeBlockedIp", 7, "203.0.113.9"); None]%string.
Proof.
  eexists. split; [reflexivity|]. split; [|vm_compute; reflexivity].
  exact (proj1 (proj2 (bunny_own "edge" [7; 8] [] tt [OBan sample_target] (OSync [sample_target]) ltac:(apply (bool_decide_unpack _); vm_compute; exact I)))).
Defined.

(** The guard looks at a range's first address only: a range around an allowlisted network passes it. *)
Lemma range_around_allowlisted : let al := [Prefix (Addr4 0xCB007140) 26] in
  let t := MkTarget AddrNone (Prefix (Addr4 0xCB007100) 24) 0 EmptyString 0 in
  isAllowlisted al t = false ∧ targetOverlapsAllowlist t al = true.
Proof. by vm_compute. Qed.
