(* ===== verification/AwsWaf.v ===== *)
(** The AWS WAF edge enforcer ([internal/enforce/awswaf.go]): one IP set per
    address family, read with a lock token and written back whole.  ([%q] is left
    unquoted in error texts.) *)
From Stdlib Require Import Ascii.
From stdpp Require Import sorting.
From S2P Require Import Prelude GoStrings Netip NetipParse Sdk NftClient EdgeNet CfRules Bunny.
Definition awsIPSetCap : nat := 10000.
Definition awsWAFErrSnippet : nat := 256.
Definition awsWAFMaxRPS : Z := 4.
Definition awsLockRetries : nat := 3.
Definition awsWAFRetryDelays : list duration := [2 * Second; 8 * Second; 30 * Second].

Record AWSIPSetRef := MkRef { ref_Name : string; ref_ID : string }.
Record AWSWAFConfig := MkAWSConfig { cfg_Scope : string; cfg_Region : string; IPSetV4 : option AWSIPSetRef; IPSetV6 : option AWSIPSetRef; cfg_Name : string }.
Record awsIPSetState := MkSetState { order : list string; present : gset string }.
Record AWSWAFEnforcer := MkAWS {
  endpoint : string; region : string; scope : string; instanceName : string; allowlist : list prefix;
  retryDelays : list duration; setCap : nat; v4 : option AWSIPSetRef; v6 : option AWSIPSetRef
}.

(** [strings.ToUpper], as far as a comparison with ASCII words can tell: the
    ASCII letters, and the two runes above them whose capital is an ASCII letter. *)
Fixpoint upper (s : string) : string :=
  match s with
  | String "196" (String "177" s) => String "I" (upper s)
  | String "197" (String "191" s) => String "S" (upper s)
  | String a s => String (if (97 <=? nat_of_ascii a)%nat && (nat_of_ascii a <=? 122)%nat then ascii_of_nat (nat_of_ascii a - 32) else a) (upper s)
  | EmptyString => EmptyString
  end%char.

Definition NewAWSWAFEnforcer (cfg : AWSWAFConfig) (al : list prefix) : result goerr AWSWAFEnforcer :=
  let build (scope region : string) :=
    match IPSetV4 cfg, IPSetV6 cfg with
    | None, None => Err (EText "enforce/awswaf: at least one of the v4/v6 IPSets must be designated")
    | _, _ => Ok (MkAWS ("https://wafv2." +:+ region +:+ ".amazonaws.com") region scope (cfg_Name cfg) al awsWAFRetryDelays awsIPSetCap (IPSetV4 cfg) (IPSetV6 cfg))
    end in
  if bool_decide (upper (cfg_Scope cfg) = "CLOUDFRONT"%string) then build "CLOUDFRONT" "us-east-1"
  else if bool_decide (upper (cfg_Scope cfg) = "REGIONAL"%string) then
    if bool_decide (cfg_Region cfg = EmptyString) then Err (EText "enforce/awswaf: scope REGIONAL requires a region")
    else build "REGIONAL" (cfg_Region cfg)
  else Err (EText ("enforce/awswaf: scope must be REGIONAL or CLOUDFRONT, got " +:+ cfg_Scope cfg))%string.

Definition Name (e : AWSWAFEnforcer) : string :=
  if bool_decide (instanceName e = EmptyString) then "awswaf" else "awswaf[" +:+ instanceName e +:+ "]".

(** The CIDR of a target and whether it is IPv6. *)
Definition awsCIDR (t : Target) : result goerr (string * bool) :=
  if IsValid (t_IP t) then
    let a := Unmap (t_IP t) in Ok (show_prefix (PrefixFrom a (BitLen a)), negb (Is4 a))
  else if PIsValid (t_Prefix t) then
    let p := t_Prefix t in
    if Is4In6 (paddr p) then
      if pbits p <? 96 then Err (EText ("IPv4-mapped prefix " +:+ show_prefix p +:+ " broader than /96 has no IPv4 equivalent"))
      else let q := PrefixFrom (Unmap (paddr p)) (pbits p - 96) in Ok (show_prefix (Masked q), negb (Is4 (Unmap (paddr q))))
    else Ok (show_prefix (Masked p), negb (Is4 (Unmap (paddr p))))
  else Err (EText "target must have IP or Prefix set (ASN/Country not supported by the AWS WAF enforcer)").

Definition setFor (e : AWSWAFEnforcer) (six : bool) : option AWSIPSetRef := if six then v6 e else v4 e.
Definition isAllowlisted (e : AWSWAFEnforcer) (t : Target) : bool :=
  match targetAddr t with Some a => existsb (λ p, Contains p a) (allowlist e) | None => false end.

(** A body: the bytes, the set it decodes to, the error envelope when it has a type. *)
Record waf_body := MkWafBody { raw : string; ipset : string + (list string * string); envelope : option (string * string * string) }.

Definition awsAPIError (type : string) (status : Z) (message : string) : goerr :=
  EApi type ("HTTP " +:+ show_Z status +:+ ": " +:+ type +:+ " " +:+ message).
Definition awsStatusErr (status : Z) (b : waf_body) : goerr :=
  match envelope b with
  | Some (type, message, messageU) =>
    if bool_decide (type = EmptyString) then awsAPIError EmptyString status (str_take awsWAFErrSnippet (raw b))
    else awsAPIError type status (if bool_decide (message = EmptyString) then messageU else message)
  | None => awsAPIError EmptyString status (str_take awsWAFErrSnippet (raw b))
  end.
Definition isAWSLockConflict (x : goerr) : bool :=
  match errors_As x with Some type => str_contains type "WAFOptimisticLockException" | None => false end.

Class WAFAPI (S : Type) := {
  credentials : S → option goerr * S;
  GetIPSet (ref : AWSIPSetRef) (scope : string) : S → reply waf_body * S;
  UpdateIPSet (ref : AWSIPSetRef) (scope : string) (addresses : list string) (lockToken : string) : S → reply waf_body * S
}.

Inductive waf_event :=
| Got (ref : AWSIPSetRef) (r : reply waf_body)
| Updated (ref : AWSIPSetRef) (addresses : list string) (lockToken : string) (r : reply waf_body).

(** The two sets' states, by family. *)
Record sets := MkSets { set4 : awsIPSetState; set6 : awsIPSetState }.
Definition newSets : sets := MkSets (MkSetState [] ∅) (MkSetState [] ∅).
Definition state_of (six : bool) (t : sets) : awsIPSetState := if six then set6 t else set4 t.
Definition with_state (six : bool) (s : awsIPSetState) (t : sets) : sets :=
  if six then MkSets (set4 t) s else MkSets s (set6 t).

(** The wanted CIDRs, each once, in the order given; with their family. *)
Fixpoint aws_keys (e : AWSWAFEnforcer) (seen : gset string) (want : list Target) : list (string * bool) :=
  match want with
  | [] => []
  | t :: want =>
    if isAllowlisted e t then aws_keys e seen want
    else match awsCIDR t with
         | Err _ => aws_keys e seen want
         | Ok (cidr, six) => if bool_decide (cidr ∈ seen) then aws_keys e seen want else (cidr, six) :: aws_keys e ({[cidr]} ∪ seen) want
         end
  end.
Definition family_keys (six : bool) (keys : list (string * bool)) : list string := (List.filter (λ k, Bool.eqb k.2 six) keys).*1.

(** The changes the operations make to a set's members. *)
Definition ban_members (drop cidr : string) (m : gset string) : gset string :=
  {[cidr]} ∪ (if bool_decide (drop = EmptyString) then m else m ∖ {[drop]}).
Definition unban_members (cidr : string) (m : gset string) : gset string := m ∖ {[cidr]}.
Definition sync_members (keys : list string) (m : gset string) : gset string := list_to_set keys.

Section enforcer.
Context {S : Type} `{Net S} `{WAFAPI S} (e : AWSWAFEnforcer).
#[local] Notation aio := (io sets waf_event S).

Definition callOnce (call : S → reply waf_body * S) (ev : reply waf_body → waf_event) : aio (waf_body * Z * duration) :=
  _ ← wait;
  c ← lift credentials;
  _ ← (match c with Some x => fail x | None => mret tt end);
  r ← lift call;
  _ ← log (ev r);
  match r with
  | Transport t => fail (EWrap ("request failed: " +:+ t) (EText t))
  | Resp _ _ (inl t) => fail (wrapf "read response" (EText t))
  | Resp status retryAfter (inr b) => mret (b, status, parseRetryAfter retryAfter)
  end.

Fixpoint call_attempts (more attempt : nat) (call : S → reply waf_body * S) (ev : reply waf_body → waf_event) : aio waf_body :=
  r ← try (callOnce call ev);
  let again (retryAfter : duration) (last : goerr) : aio waf_body :=
    match more with
    | O => fail last
    | Datatypes.S more => _ ← cfBackoffWait (retryDelays e) attempt retryAfter; call_attempts more (Datatypes.S attempt) call ev
    end in
  match r with
  | Err x => again 0 x
  | Ok (b, status, retryAfter) =>
    if status =? 200 then mret b
    else if (status =? StatusTooManyRequests) || (500 <=? status) then again retryAfter (awsStatusErr status b)
    else fail (awsStatusErr status b)
  end.
Definition callWAF (call : S → reply waf_body * S) (ev : reply waf_body → waf_event) : aio waf_body :=
  call_attempts (length (retryDelays e)) 0 call ev.

Definition getIPSet (ref : AWSIPSetRef) : aio (gset string * string) :=
  b ← wrap "GetIPSet" (callWAF (GetIPSet ref (scope e)) (Got ref));
  match ipset b with
  | inl t => fail (wrapf "GetIPSet: malformed response" (EText t))
  | inr (addrs, lockToken) => mret (list_to_set addrs, lockToken)
  end.

Definition updateIPSet (ref : AWSIPSetRef) (addrs : gset string) (lockToken : string) : aio unit :=
  l ← lift (λ s, (net_order s (elements addrs), s));
  _ ← wrap "UpdateIPSet" (callWAF (UpdateIPSet ref (scope e) l lockToken) (Updated ref l lockToken));
  mret tt.

Fixpoint mutate_attempts (more : nat) (ref : AWSIPSetRef) (f : gset string → gset string) : aio unit :=
  p ← getIPSet ref;
  r ← try (updateIPSet ref (f p.1) p.2);
  match r with
  | Ok _ => mret tt
  | Err x =>
    if negb (isAWSLockConflict x) then fail x
    else match more with
         | O => fail (wrapf "optimistic-lock retries exhausted" x)
         | Datatypes.S more => mutate_attempts more ref f
         end
  end.
Definition mutateIPSet (ref : AWSIPSetRef) (f : gset string → gset string) : aio unit := mutate_attempts awsLockRetries ref f.

Definition ban_set (ref : AWSIPSetRef) (six : bool) (cidr drop : string) : aio unit :=
  _ ← wrap ("enforce/awswaf Ban " +:+ cidr) (mutateIPSet ref (ban_members drop cidr));
  put_st (λ t, let s := state_of six t in
    let s1 := if bool_decide (drop = EmptyString) then s else MkSetState (tail (order s)) (present s ∖ {[drop]}) in
    with_state six (MkSetState (order s1 ++ [cidr]) ({[cidr]} ∪ present s1)) t).

Definition Ban (t : Target) : aio unit :=
  if isAllowlisted e t then fail (EText ("enforce/awswaf: refusing to ban allowlisted target " +:+ default EmptyString (targetKey t)))
  else match awsCIDR t with
       | Err x => fail (wrapf "enforce/awswaf Ban" x)
       | Ok (cidr, six) =>
         match setFor e six with
         | None => mret tt
         | Some ref =>
           zs ← get_st;
           if bool_decide (cidr ∈ present (state_of six zs)) then mret tt
           else if (setCap e <=? length (order (state_of six zs)))%nat then
             match order (state_of six zs) with
             | [] => fail (EText "index out of range [0] with length 0")
             | oldest :: _ => ban_set ref six cidr oldest
             end
           else ban_set ref six cidr EmptyString
         end
       end.

Definition Unban (t : Target) : aio unit :=
  match awsCIDR t with
  | Err x => fail (wrapf "enforce/awswaf Unban" x)
  | Ok (cidr, six) =>
    match setFor e six with
    | None => mret tt
    | Some ref =>
      _ ← wrap ("enforce/awswaf Unban " +:+ cidr) (mutateIPSet ref (unban_members cidr));
      put_st (λ t, let s := state_of six t in with_state six (MkSetState (remove_first cidr (order s)) (present s ∖ {[cidr]})) t)
    end
  end.

Definition syncSet (ref : AWSIPSetRef) (six : bool) (keys : list string) : aio unit :=
  let keys := newest (setCap e) keys in
  _ ← mutateIPSet ref (sync_members keys);
  put_st (with_state six (MkSetState keys (list_to_set keys))).

(** A designated set's part of a reconcile; its failure, when it has one. *)
Definition sync_family (six : bool) (keys : list string) : aio (list goerr) :=
  match setFor e six with
  | None => mret []
  | Some ref =>
    r ← try (syncSet ref six keys);
    mret (match r with Ok _ => [] | Err x => [wrapf ("enforce/awswaf Sync " +:+ ref_Name ref) x] end)
  end.

Definition Sync (want : list Target) : aio unit :=
  let keys := aws_keys e ∅ want in
  errs4 ← sync_family false (family_keys false keys);
  errs6 ← sync_family true (family_keys true keys);
  match joinErrs (errs4 ++ errs6) with None => mret tt | Some x => fail x end.

(** ** The read-only checks of [doctor] *)
Record PreflightResult := MkPreflight { Label : string; check_err : option goerr }.
Definition label_le (a b : PreflightResult) : Prop := String.le (Label a) (Label b).
#[local] Instance label_le_dec : RelDecision label_le := λ a b, String.le_dec (Label a) (Label b).

Fixpoint preflight_sets (labels : list string) : aio (list PreflightResult) :=
  match labels with
  | [] => mret []
  | label :: labels =>
    match setFor e (bool_decide (label = "ipset_v6"%string)) with
    | None => preflight_sets labels
    | Some ref =>
      r ← try (getIPSet ref);
      rest ← preflight_sets labels;
      mret (MkPreflight (label +:+ ":" +:+ ref_Name ref) (match r with Ok _ => None | Err x => Some x end) :: rest)
    end
  end.

Definition Preflight : aio (list PreflightResult) :=
  c ← lift credentials;
  match c with
  | Some x => mret [MkPreflight "credentials" (Some x)]
  | None =>
    labels ← lift (λ s, (net_order s ["ipset_v4"; "ipset_v6"]%string, s));
    out ← preflight_sets labels;
    mret (merge_sort label_le (MkPreflight "credentials" None :: out))
  end.
End enforcer.

Example awsCIDR_example : map awsCIDR
  [MkTarget (Addr4 0xCB007102) PrefixNone 0 EmptyString 0; MkTarget AddrNone (Prefix (Addr4 0xCB0071FF) 24) 0 EmptyString 0]
  = [Ok ("203.0.113.2/32", false); Ok ("203.0.113.0/24", false)]%string.
Proof. vm_compute. reflexivity. Qed.

(** * No lost updates: on an IP set guarded by its lock token, with other writers
    changing it between any two calls, requests lost on the way, answers lost on
    the way back and throttling, everything the enforcer writes is its change
    applied to what the set held at that moment. *)
(** ** The service *)

(** What happens around one call: other writers put these members (of these
    sets) first; then the request is lost, answered, or served but its answer
    lost, with the text of the failure. *)
Inductive fate := Served | RequestLost (text : string) | AnswerLost (status : Z) | Throttled (retryAfter : string).
Record step := MkStep { others : list (string * gset string); fate_of : fate }.

Record service := MkService {
  members : gmap string (gset string * nat);   (* a set's members and version *)
  writes : list (string * gset string * gset string);   (* our writes: set, members before and after; the last first *)
  schedule : list step;                        (* what happens around the next calls *)
  failures : list (option string)              (* what the next waits and credential lookups answer *)
}.

Definition set_of (s : service) (id : string) : gset string * nat := default (∅, O) (members s !! id).
Definition put_set (m : gmap string (gset string * nat)) (id : string) (new : gset string) : gmap string (gset string * nat) :=
  <[id := (new, Datatypes.S (default (∅, O) (m !! id)).2)]> m.
(** The next step of the schedule, with the other writers' changes made. *)
Definition interfere (s : service) : service * fate :=
  match schedule s with
  | [] => (s, Served)
  | p :: rest => (MkService (foldl (λ m w, put_set m w.1 w.2) (members s) (others p)) (writes s) rest (failures s), fate_of p)
  end.
Definition token (n : nat) : string := show_Z (Z.of_nat n).

Definition lost (b : waf_body) (f : fate) : reply waf_body :=
  match f with
  | Served => Resp 200 EmptyString (inr b)
  | RequestLost t => Transport t
  | AnswerLost status => Resp (Z.max 500 status) EmptyString (inr (MkWafBody EmptyString (inl "no body"%string) None))
  | Throttled ra => Resp 429 ra (inr (MkWafBody EmptyString (inl "no body"%string) None))
  end.
Definition reached (f : fate) : bool := match f with Served | AnswerLost _ => true | _ => false end.
Definition conflict : reply waf_body :=
  Resp 400 EmptyString (inr (MkWafBody EmptyString (inl "no set"%string) (Some ("com.amazonaws.wafv2#WAFOptimisticLockException", "stale token", EmptyString)%string))).

#[export] Instance service_net : Net service.
Proof.
  refine (let next s := (default None (head (failures s)), MkService (members s) (writes s) (schedule s) (tail (failures s))) in
    {| net_wait := next; net_pause d := next; net_ctx s := None; net_jitter d s := (d, s); net_order s l := rev l |}).
  intros s l. symmetry. apply Permutation_rev.
Defined.

#[export] Instance service_waf : WAFAPI service := {
  credentials s := (EText <$> default None (head (failures s)), MkService (members s) (writes s) (schedule s) (tail (failures s)));
  GetIPSet ref sc s := let '(s, f) := interfere s in let '(m, n) := set_of s (ref_ID ref) in
    (lost (MkWafBody EmptyString (inr (elements m, token n)) None) f, s);
  UpdateIPSet ref sc l tok s := let '(s, f) := interfere s in let '(m, n) := set_of s (ref_ID ref) in
    if negb (reached f) then (lost (MkWafBody EmptyString (inl EmptyString) None) f, s)
    else if bool_decide (tok = token n) then
      (lost (MkWafBody EmptyString (inl EmptyString) None) f,
       MkService (put_set (members s) (ref_ID ref) (list_to_set l)) ((ref_ID ref, m, list_to_set l) :: writes s) (schedule s) (failures s))
    else (match f with Served => conflict | _ => lost (MkWafBody EmptyString (inl EmptyString) None) f end, s)
}.

(** ** Versions *)

(** From [s] on, a set's version tells whether its members are still those. *)
Definition since (id : string) (m : gset string) (n : nat) (s : service) : Prop :=
  (n ≤ (set_of s id).2)%nat ∧ ((set_of s id).2 = n → (set_of s id).1 = m).

Lemma since_put id m n id' new (M : gmap string (gset string * nat)) :
  (n ≤ (default (∅, O) (M !! id)).2)%nat ∧ ((default (∅, O) (M !! id)).2 = n → (default (∅, O) (M !! id)).1 = m) →
  (n ≤ (default (∅, O) (put_set M id' new !! id)).2)%nat ∧
  ((default (∅, O) (put_set M id' new !! id)).2 = n → (default (∅, O) (put_set M id' new !! id)).1 = m).
Proof.
  intros [Hle Heq]. unfold put_set. destruct (decide (id' = id)) as [->|Hne]; [|by rewrite lookup_insert_ne].
  rewrite lookup_insert_eq. cbn. split; [lia|intros; lia].
Qed.

Lemma since_interfere id m n s : since id m n s → since id m n (interfere s).1.
Proof.
  unfold since, set_of, interfere. destruct (schedule s) as [|p rest]; [done|]. cbn. revert s.
  assert (∀ l M, (n ≤ (default (∅, O) (M !! id)).2)%nat ∧ ((default (∅, O) (M !! id)).2 = n → (default (∅, O) (M !! id)).1 = m) →
    let M' := foldl (λ m w, put_set m w.1 w.2) M l in
    (n ≤ (default (∅, O) (M' !! id)).2)%nat ∧ ((default (∅, O) (M' !! id)).2 = n → (default (∅, O) (M' !! id)).1 = m)) as Hall.
  { intros l. induction l as [|w l IH]; intros M HM; [done|]. cbn. apply IH. by apply since_put. }
  intros s. apply Hall.
Qed.
Lemma interfere_writes s : writes (interfere s).1 = writes s.
Proof. unfold interfere. by destruct (schedule s). Qed.
Lemma token_inj n n' : token n = token n' → n = n'.
Proof. unfold token, show_Z. intros H%(inj pretty). lia. Qed.

(** ** Calls *)
Section calls.
Context (e : AWSWAFEnforcer).
#[local] Notation aio := (io sets waf_event service).
#[local] Notation aworld := (world sets waf_event service).
#[local] Notation log_of := (list (string * gset string * gset string)).

(** A property of the memory and the service that failures do not touch. *)
Definition calm (P : sets → service → Prop) : Prop := ∀ t s fs, P t s → P t (MkService (members s) (writes s) (schedule s) fs).
Definition within (P : sets → service → Prop) (w : aworld) : Prop := P (st w) (net w).

Lemma calm_wait P : calm P → triple (within P) (wait : aio unit) (λ _, within P).
Proof.
  intros Hc. eapply triple_bind with (R := λ _, within P); [|intros o; by apply quiet_ctx_result|done].
  intros [t s l] Hw. by apply Hc.
Qed.
Lemma calm_backoff ds n ra P : calm P → triple (within P) (cfBackoffWait ds n ra : aio unit) (λ _, within P).
Proof.
  intros Hc. unfold cfBackoffWait. destruct ds; [by apply triple_ret|].
  apply (triple_bind _ _ _ (λ _, within P)); [by intros [t s l]|intros d|done].
  eapply triple_bind with (R := λ _, within P); [|intros o; by apply quiet_ctx_result|done].
  intros [t s l] Hw. by apply Hc.
Qed.

(** [P] holds before every attempt and [P] or [Q body] after one: [Q] after the
    answer 200 with that body. *)
Lemma callWAF_rule (P : sets → service → Prop) (Q : waf_body → sets → service → Prop) call (ev : reply waf_body → waf_event) : calm P →
  (∀ t s, P t s → P t (call s).2 ∧ ∀ ra b, (call s).1 = Resp 200 ra (inr b) → Q b t (call s).2) →
  triple (within P) (callWAF e call ev : aio waf_body) (λ r w, match r with Ok b => within (Q b) w | Err _ => within P w end).
Proof.
  intros Hc Hcall. unfold callWAF. generalize 0%nat as n. induction (length (retryDelays e)) as [|more IH]; intros n; cbn [call_attempts];
    (apply (triple_bind _ _ _ (λ r w, within P w ∧ match r with Ok (Ok (b, status, _)) => status = 200 → within (Q b) w | _ => True end)); [apply triple_try| |by intros ? ? [? _]]).
  1, 3: unfold callOnce; eapply triple_bind; [by apply calm_wait|intros []|done];
    (apply (triple_bind _ _ _ (λ _, within P)); [by intros [t s l] Hw; apply Hc|intros c|done]);
    (apply (triple_bind _ _ _ (λ _, within P)); [destruct c; [by apply triple_fail|by apply triple_ret]|intros []|done]);
    intros [t s l] Hw; unfold mbind, io_mbind, lift, log; cbn [net st sent]; destruct (Hcall t s Hw) as [HP HQ];
    destruct (call s) as [[x|status ra [x|b]] s']; cbn; (split; [exact HP|]); try done; intros ->; by eapply HQ.
  - intros [[[b status] ra]|x]; [|apply triple_fail; by intros w [? _]]. destruct (Z.eqb_spec status 200) as [->|].
    + apply triple_ret. intros w [_ HQ]. by apply HQ.
    + destruct (_ || _); apply triple_fail; by intros w [? _].
  - intros [[[b status] ra]|x].
    + destruct (Z.eqb_spec status 200) as [->|]; [apply triple_ret; intros w [_ HQ]; by apply HQ|].
      destruct (_ || _); [|apply triple_fail; by intros w [? _]].
      eapply triple_bind; [eapply triple_conseq; [by apply (calm_backoff _ n _ P)|by intros w [? _]|intros r w Hw; exact Hw]|intros []; apply IH|done].
    + eapply triple_bind; [eapply triple_conseq; [by apply (calm_backoff _ n _ P)|by intros w [? _]|intros r w Hw; exact Hw]|intros []; apply IH|done].
Qed.

(** ** One change of a set *)
Section change.
Context (ref : AWSIPSetRef) (f : gset string → gset string) (t0 : sets) (old : log_of).

(** The memory is [t0] and the writes since [old] are all [f] of what was there. *)
Definition ours (t : sets) (s : service) : Prop :=
  t = t0 ∧ ∃ new, writes s = new ++ old ∧ Forall (λ w, w.1.1 = ref_ID ref ∧ w.2 = f w.1.2) new.
(** One was made. *)
Definition made (t : sets) (s : service) : Prop :=
  t = t0 ∧ ∃ m new, writes s = (ref_ID ref, m, f m) :: new ++ old ∧ Forall (λ w, w.1.1 = ref_ID ref ∧ w.2 = f w.1.2) new.

Lemma ours_same t s s' : writes s' = writes s → ours t s → ours t s'.
Proof. unfold ours. by intros ->. Qed.
Lemma made_ours t s : made t s → ours t s.
Proof. intros (-> & m & new & Hw & Hn). split; [done|]. exists ((ref_ID ref, m, f m) :: new). rewrite Hw. split; [done|]. by constructor. Qed.

Lemma get_ours : triple (within ours) (getIPSet e ref : aio _)
  (λ r w, match r with Ok p => ∃ n, p.2 = token n ∧ within (λ t s, ours t s ∧ since (ref_ID ref) p.1 n s) w | Err _ => within ours w end).
Proof.
  unfold getIPSet. eapply triple_bind with (R := λ r w, match r with
    | Ok b => ∃ m n, ipset b = inr (elements m, token n) ∧ within (λ t s, ours t s ∧ since (ref_ID ref) m n s) w | Err _ => within ours w end); [|intros b|done].
  - apply triple_wrap. eapply triple_conseq; [apply (callWAF_rule ours (λ b t s, ∃ m n, ipset b = inr (elements m, token n) ∧ ours t s ∧ since (ref_ID ref) m n s))|done|].
    + by intros t s fs.
    + intros t s Ho. cbn. pose proof (interfere_writes s) as Ew. destruct (interfere s) as [s1 fa]. cbn in Ew. destruct (set_of s1 (ref_ID ref)) as [m n] eqn:Es. cbn.
      split; [by apply (ours_same t s)|]. destruct fa; cbn; intros ra b [=]; try lia. subst. exists m, n. cbn. split; [done|]. split; [by apply (ours_same t s)|].
      unfold since. rewrite Es. done.
    + intros [b|x] w; [|done]. intros (m & n & Hb & Hw). by exists m, n.
  - intros w (m & n & Hb & Hw). rewrite Hb. cbn. exists n. split; [done|]. by rewrite list_to_set_elements_L.
Qed.

Lemma update_ours m n : triple (within (λ t s, ours t s ∧ since (ref_ID ref) m n s)) (updateIPSet e ref (f m) (token n) : aio unit)
  (λ r w, match r with Ok _ => within made w | Err _ => within ours w end).
Proof.
  unfold updateIPSet. set (P := λ t s, ours t s ∧ since (ref_ID ref) m n s).
  apply (triple_bind _ _ _ (λ r w, ∃ l, r = Ok l ∧ list_to_set l = f m ∧ within P w)).
  - intros [t s l] Hw. exists (rev (elements (f m))). split; [done|]. split; [|done].
    rewrite <- (list_to_set_elements_L (f m)) at 2. apply set_eq. intros x. rewrite !elem_of_list_to_set. by rewrite list_elem_of_In, <- in_rev, <- list_elem_of_In.
  - intros l w0 (l' & [= <-] & Hl & Hw). revert w0 Hw. change (triple (within P) (_ ← wrap "UpdateIPSet" (callWAF e (UpdateIPSet ref (scope e) l (token n)) (Updated ref l (token n))); mret tt : aio unit)
      (λ r w, match r with Ok _ => within made w | Err _ => within ours w end)).
    apply (triple_bind _ _ _ (λ r w, match r with Ok _ => within made w | Err _ => within ours w end)); [|intros b; by apply triple_ret|done].
    apply triple_wrap. eapply triple_conseq; [apply (callWAF_rule P (λ _, made))|done|].
    + intros t s fs HP. exact HP.
    + intros t s [Ho Hs]. cbn. pose proof (interfere_writes s) as Ew. pose proof (since_interfere _ _ _ _ Hs) as Hs1. destruct (interfere s) as [s1 fa]. cbn in Ew, Hs1.
      destruct (set_of s1 (ref_ID ref)) as [m1 n1] eqn:Es. pose proof (ours_same t s s1 Ew Ho) as Ho1.
      destruct (negb (reached fa)) eqn:Er; [split; [by split|]; destruct fa; cbn in *; try done; intros ra b [=]; lia|].
      case_bool_decide as Et; cbn [fst snd].
      * apply token_inj in Et as <-. assert (m1 = m) as -> by (destruct Hs1 as [_ Heq]; rewrite Es in Heq; by apply Heq).
        set (s2 := MkService _ _ _ _). assert (made t s2) as Hm.
        { destruct Ho1 as (-> & new & Hw & Hn). split; [done|]. exists m, new. cbn. by rewrite Hw, Hl. }
        split; [|done]. split; [by apply made_ours|]. unfold since, set_of. cbn. apply since_put. exact Hs1.
      * split; [by split|]. destruct fa; cbn in *; try done; intros ra b [=]; lia.
    + intros [b|x] w; [done|]. by intros [? _].
  - by intros x w (l & ? & _).
Qed.

Lemma mutate_ours : triple (within ours) (mutateIPSet e ref f : aio unit) (λ r w, match r with Ok _ => within made w | Err _ => within ours w end).
Proof.
  assert (∀ k : result goerr unit → aio unit,
    (∀ w, within made w → match (k (Ok tt) w).1 with Ok _ => within made (k (Ok tt) w).2 | Err _ => within ours (k (Ok tt) w).2 end) →
    (∀ x, triple (within ours) (k (Err x)) (λ r w, match r with Ok _ => within made w | Err _ => within ours w end)) →
    triple (within ours) (p ← getIPSet e ref; r ← try (updateIPSet e ref (f p.1) p.2); k r)
      (λ r w, match r with Ok _ => within made w | Err _ => within ours w end)) as Hround.
  { intros k Hok Herr. eapply triple_bind; [apply get_ours|intros [m tok] w (n & Et & Hw); cbn [fst snd] in *|done]. subst tok.
    pose proof (update_ours m n w Hw) as Hu. unfold mbind, io_mbind, try. destruct (updateIPSet e ref (f m) (token n) w) as [[[]|x] w']; cbn [fst snd] in Hu.
    - exact (Hok w' Hu).
    - exact (Herr x w' Hu). }
  unfold mutateIPSet. induction awsLockRetries as [|more IH]; cbn [mutate_attempts]; apply Hround; try done;
    intros x; destruct (negb (isAWSLockConflict x)); try (by apply triple_fail). exact IH.
Qed.
End change.
End calls.

(** ** The operations *)
Inductive op := OBan (t : Target) | OUnban (t : Target) | OSync (want : list Target).
Definition run_op (e : AWSWAFEnforcer) (o : op) : io sets waf_event service unit :=
  match o with OBan t => Ban e t | OUnban t => Unban e t | OSync want => Sync e want end.

(** The entry a ban of a full set gives up. *)
Definition victim (e : AWSWAFEnforcer) (six : bool) (t : sets) : string :=
  if (setCap e <=? length (order (state_of six t)))%nat then default EmptyString (head (order (state_of six t))) else EmptyString.
(** What an operation, begun with memory [t], does to the members of a family's set. *)
Definition effect (e : AWSWAFEnforcer) (o : op) (t : sets) (six : bool) (m : gset string) : gset string :=
  match o with
  | OBan tg => match awsCIDR tg with Ok (cidr, _) => ban_members (victim e six t) cidr m | Err _ => m end
  | OUnban tg => match awsCIDR tg with Ok (cidr, _) => unban_members cidr m | Err _ => m end
  | OSync want => sync_members (newest (setCap e) (family_keys six (aws_keys e ∅ want))) m
  end.
(** The sets an operation is about. *)
Definition concerns (e : AWSWAFEnforcer) (o : op) (t : sets) (six : bool) : Prop :=
  match o with
  | OBan tg => isAllowlisted e tg = false ∧ ∃ cidr, awsCIDR tg = Ok (cidr, six) ∧ cidr ∉ present (state_of six t)
  | OUnban tg => ∃ cidr, awsCIDR tg = Ok (cidr, six)
  | OSync _ => True
  end.
Definition right_write (e : AWSWAFEnforcer) (o : op) (t : sets) (x : string * gset string * gset string) : Prop :=
  ∃ six ref, concerns e o t six ∧ setFor e six = Some ref ∧ x.1.1 = ref_ID ref ∧ x.2 = effect e o t six x.1.2.

Section op.
Context (e : AWSWAFEnforcer) (o : op) (t0 : sets).
#[local] Notation aio := (io sets waf_event service).

(** The writes since [old] are the operation's, and the sets of [fams] have one. *)
Definition op_writes (fams : list bool) (old : list (string * gset string * gset string)) (s : service) : Prop :=
  ∃ new, writes s = new ++ old ∧ Forall (right_write e o t0) new ∧
    ∀ six ref, six ∈ fams → setFor e six = Some ref → ∃ m, (ref_ID ref, m, effect e o t0 six m) ∈ new.

Lemma op_writes_nil old s : writes s = old → op_writes [] old s.
Proof. intros Hw. exists []. split; [done|]. split; [constructor|]. by intros six ref ?%elem_of_nil. Qed.

Lemma ours_op fams ref six t1 old mid s : concerns e o t0 six → setFor e six = Some ref →
  (∃ new, mid = new ++ old ∧ Forall (right_write e o t0) new ∧ ∀ six ref, six ∈ fams → setFor e six = Some ref → ∃ m, (ref_ID ref, m, effect e o t0 six m) ∈ new) →
  (ours ref (effect e o t0 six) t1 mid t1 s → op_writes fams old s) ∧ (made ref (effect e o t0 six) t1 mid t1 s → op_writes (six :: fams) old s).
Proof.
  intros Hc Hf (new0 & -> & H0' & Hin).
  assert (∀ new, Forall (λ w : string * gset string * gset string, w.1.1 = ref_ID ref ∧ w.2 = effect e o t0 six w.1.2) new → Forall (right_write e o t0) new) as Hall.
  { intros new Hn. eapply Forall_impl; [exact Hn|]. intros x [? ?]. by exists six, ref. }
  split.
  - intros (_ & new & Hw & Hn). exists (new ++ new0). rewrite Hw, app_assoc. split; [done|]. split; [apply Forall_app; auto|].
    intros six' ref' Hi Hs. destruct (Hin six' ref' Hi Hs) as [m Hm]. exists m. apply elem_of_app. by right.
  - intros (_ & m & new & Hw & Hn). exists ((ref_ID ref, m, effect e o t0 six m) :: new ++ new0). rewrite Hw. split; [by rewrite app_comm_cons, app_assoc|].
    split; [constructor; [by exists six, ref|apply Forall_app; auto]|].
    intros six' ref' [->|Hi]%elem_of_cons Hs.
    + rewrite Hf in Hs. injection Hs as <-. exists m. by left.
    + destruct (Hin six' ref' Hi Hs) as [m' Hm]. exists m'. right. apply elem_of_app. by right.
Qed.

Lemma mutate_op fams ref six old : concerns e o t0 six → setFor e six = Some ref →
  triple (λ w, op_writes fams old (net w)) (mutateIPSet e ref (effect e o t0 six) : aio unit)
    (λ r w, op_writes (match r with Ok _ => six :: fams | Err _ => fams end) old (net w)).
Proof.
  intros Hc Hf w Hw. pose proof (mutate_ours e ref (effect e o t0 six) (st w) (writes (net w)) w) as Hm.
  assert (within (ours ref (effect e o t0 six) (st w) (writes (net w))) w) as Hpre by (split; [done|]; by exists []). specialize (Hm Hpre).
  destruct (mutateIPSet e ref (effect e o t0 six) w) as [[[]|x] w']; cbn [fst snd] in *.
  - assert (st w' = st w) as Est by apply Hm. eapply (ours_op fams ref six (st w) old (writes (net w))); [done..|]. red in Hm. by rewrite Est in Hm.
  - assert (st w' = st w) as Est by apply Hm. eapply (ours_op fams ref six (st w) old (writes (net w))); [done..|]. red in Hm. by rewrite Est in Hm.
Qed.

(** The change, then the memory. *)
Lemma mutate_put fams ref six f old pre g : f = effect e o t0 six → concerns e o t0 six → setFor e six = Some ref →
  triple (λ w, op_writes fams old (net w)) (_ ← wrap pre (mutateIPSet e ref f); put_st g : aio unit)
    (λ r w, op_writes (match r with Ok _ => six :: fams | Err _ => fams end) old (net w)).
Proof.
  intros -> Hc Hf. apply (triple_bind _ _ _ (λ r w, op_writes (match r with Ok _ => six :: fams | Err _ => fams end) old (net w))); [|intros [] w Hw; exact Hw|done].
  apply triple_wrap. eapply triple_conseq; [apply (mutate_op fams ref six old Hc Hf)|done|]. by intros [?|?] w.
Qed.
End op.

Lemma effect_ban e tg t six cidr six' : awsCIDR tg = Ok (cidr, six') → effect e (OBan tg) t six = ban_members (victim e six t) cidr.
Proof. unfold effect. by intros ->. Qed.
Lemma effect_unban e tg t six cidr six' : awsCIDR tg = Ok (cidr, six') → effect e (OUnban tg) t six = unban_members cidr.
Proof. unfold effect. by intros ->. Qed.

(** One family's part of a reconcile: without errors, its set was written. *)
Lemma sync_family_op e want t six fams old :
  triple (λ w, op_writes e (OSync want) t fams old (net w)) (sync_family e six (family_keys six (aws_keys e ∅ want)))
    (λ r w, ∃ errs, r = Ok errs ∧ op_writes e (OSync want) t fams old (net w) ∧ (errs = [] → op_writes e (OSync want) t (six :: fams) old (net w))).
Proof.
  unfold sync_family. destruct (setFor e six) as [ref|] eqn:Es.
  - apply (triple_bind _ _ _ (λ r w, ∃ r', r = Ok r' ∧ op_writes e (OSync want) t (match r' with Ok _ => six :: fams | Err _ => fams end) old (net w))).
    + apply triple_try. unfold syncSet. eapply triple_conseq with (P := λ w, op_writes e (OSync want) t fams old (net w)) (Q := λ r w, op_writes e (OSync want) t (match r with Ok _ => six :: fams | Err _ => fams end) old (net w)); [|done|].
      * eapply triple_bind; [apply (mutate_op e (OSync want) t fams ref six old I Es)|intros [] w Hw; exact Hw|done].
      * intros r w Hw. by exists r.
    + intros r'. apply triple_ret. intros w (r2 & [= <-] & Hw). destruct r' as [[]|x].
      * exists []. split; [done|]. split; [|done]. destruct Hw as (new & Hw & Hn & Hf). exists new. split; [done|]. split; [done|].
        intros six' ref' Hi. apply Hf. by right.
      * eexists. split; [done|]. by split.
    + by intros x w (? & ? & _).
  - apply triple_ret. intros w (new & Hw & Hn & Hf). exists []. split; [done|]. split; [by exists new|]. intros _. exists new. split; [done|]. split; [done|].
    intros six' ref [->|Hi]%elem_of_cons Hs; [congruence|]. by eapply Hf.
Qed.

Definition fams_of (e : AWSWAFEnforcer) (o : op) (t : sets) : list bool :=
  match o with
  | OBan tg => match awsCIDR tg with Ok (cidr, six) => if bool_decide (cidr ∈ present (state_of six t)) then [] else [six] | Err _ => [] end
  | OUnban tg => match awsCIDR tg with Ok (_, six) => [six] | Err _ => [] end
  | OSync _ => [true; false]
  end.

(** ** The changes, entry by entry *)

(** The entry a ban gives up: the oldest this process banned, of a full set (the
    empty text stands for none). *)
Definition given_up (e : AWSWAFEnforcer) (six : bool) (t : sets) (k : string) : Prop :=
  (setCap e ≤ length (order (state_of six t)))%nat ∧ head (order (state_of six t)) = Some k ∧ k ≠ EmptyString.

(** The CIDR a target asks for, with its family. *)
Definition wanted_key (e : AWSWAFEnforcer) (tg : Target) : option (string * bool) :=
  if isAllowlisted e tg then None else match awsCIDR tg with Ok k => Some k | Err _ => None end.

(** A family's share of a reconcile: [all] are the wanted CIDRs, each where it is
    first wanted; of the family's the last [setCap] are kept. *)
Definition kept_of (e : AWSWAFEnforcer) (six : bool) (want : list Target) (keys : list string) : Prop :=
  ∃ all older, all `sublist_of` omap (wanted_key e) want ∧ NoDup all.*1 ∧ (∀ k, k ∈ (omap (wanted_key e) want).*1 → k ∈ all.*1) ∧
    (List.filter (λ k, Bool.eqb k.2 six) all).*1 = older ++ keys ∧
    (length keys ≤ setCap e)%nat ∧ (older = [] ∨ length keys = setCap e).

(** From [m], an operation begun with memory [t] leaves [m'] in a family's set. *)
Definition changed (e : AWSWAFEnforcer) (o : op) (t : sets) (six : bool) (m m' : gset string) : Prop :=
  match o with
  | OBan tg => ∃ cidr, awsCIDR tg = Ok (cidr, six) ∧ ∀ k, k ∈ m' ↔ k = cidr ∨ k ∈ m ∧ ¬ given_up e six t k
  | OUnban tg => ∃ cidr, awsCIDR tg = Ok (cidr, six) ∧ ∀ k, k ∈ m' ↔ k ∈ m ∧ k ≠ cidr
  | OSync want => ∃ keys, kept_of e six want keys ∧ ∀ k, k ∈ m' ↔ k ∈ keys
  end.

Lemma newest_split {A} cap (l : list A) : ∃ older, l = older ++ newest cap l ∧ (length (newest cap l) ≤ cap)%nat ∧ (older = [] ∨ length (newest cap l) = cap).
Proof.
  exists (take (length l - cap) l). unfold newest. rewrite take_drop, length_drop. split_and!; [done|lia|].
  destruct (decide (length l ≤ cap)%nat); [left; by replace (length l - cap)%nat with 0%nat by lia|right; lia].
Qed.

Lemma aws_keysE e want seen :
  aws_keys e seen want `sublist_of` omap (wanted_key e) want ∧ NoDup (aws_keys e seen want).*1 ∧
  (∀ k, k ∈ (aws_keys e seen want).*1 → k ∉ seen) ∧
  (∀ k, k ∈ (omap (wanted_key e) want).*1 → k ∈ seen ∨ k ∈ (aws_keys e seen want).*1).
Proof.
  revert seen. induction want as [|tg want IH]; intros seen; csimpl.
  { split_and!; [constructor|constructor|by intros k ?%elem_of_nil|by intros k ?%elem_of_nil]. }
  assert (wanted_key e tg = if isAllowlisted e tg then None else match awsCIDR tg with Ok k => Some k | Err _ => None end) as Hw by done.
  destruct (isAllowlisted e tg); [rewrite Hw; apply IH|]. destruct (awsCIDR tg) as [[cidr six]|x]; rewrite Hw; [|apply IH].
  case_bool_decide as Hin; csimpl.
  - destruct (IH seen) as (H1 & H2 & H3 & H4). split_and!; [by constructor|done|done|]. intros k [->|Hk]%elem_of_cons; [by left|by apply H4].
  - destruct (IH ({[cidr]} ∪ seen)) as (H1 & H2 & H3 & H4). split_and!.
    + by constructor.
    + constructor; [|done]. intros Hc. apply (H3 _ Hc). set_solver.
    + intros k [->|Hk]%elem_of_cons; [done|]. specialize (H3 k Hk). set_solver.
    + intros k [->|Hk]%elem_of_cons; [right; by left|]. destruct (H4 k Hk) as [Hs|Hs]; [|right; by right].
      apply elem_of_union in Hs as [->%elem_of_singleton|Hs]; [right; by left|by left].
Qed.

Lemma effect_changed e o t six m : concerns e o t six → changed e o t six m (effect e o t six m).
Proof.
  destruct o as [tg|tg|want]; simpl.
  - intros (_ & cidr & E & _). rewrite E. exists cidr. split; [done|]. intros k. unfold ban_members, victim, given_up.
    rewrite elem_of_union, elem_of_singleton. destruct (Nat.leb_spec (setCap e) (length (order (state_of six t)))) as [Hf|Hf].
    + destruct (order (state_of six t)) as [|x l]; simpl; [set_solver|]. case_bool_decide; set_solver.
    + simpl. split; [intros [?|?]; [by left|right; split; [done|lia]]|tauto].
  - intros (cidr & E). rewrite E. exists cidr. split; [done|]. intros k. unfold unban_members. set_solver.
  - intros _. destruct (aws_keysE e want ∅) as (H1 & H2 & _ & H4). set (all := aws_keys e ∅ want) in *.
    destruct (newest_split (setCap e) (family_keys six all)) as (older & Ho & Hl & Hc).
    exists (newest (setCap e) (family_keys six all)). split.
    + exists all, older. split_and!; [done|done| |done|done|done]. intros k Hk. destruct (H4 k Hk); [set_solver|done].
    + intros k. unfold sync_members. apply elem_of_list_to_set.
Qed.

Lemma fams_concern e o t six six' : concerns e o t six' → six ∈ fams_of e o t → concerns e o t six.
Proof.
  destruct o as [tg|tg|want]; simpl; [|by intros (cidr & ->) ->%list_elem_of_singleton; exists cidr|done].
  intros (Ha & cidr & -> & Hp). case_bool_decide; [by intros ?%elem_of_nil|]. intros ->%list_elem_of_singleton. split; [done|by exists cidr].
Qed.

(** C23. However other writers change the IP sets between any two calls, and
    whatever requests, answers or waits fail, an AWS operation is atomic: every
    update the service accepts from it goes to a set designated for it and is the
    operation's change applied to what the set held at that very moment.  A ban
    adds its CIDR and keeps every other entry, whoever wrote it, except the oldest
    of this process's bans when the set is full; an unban removes its CIDR alone;
    a reconcile replaces the set, other writers' entries included, by the wanted
    CIDRs of the family, of which the last are kept up to the capacity.  And when
    the operation reports success, each set it is about was updated so. *)
Theorem aws_atomic (e : AWSWAFEnforcer) (o : op) (t : sets) (s : service) l :
  let r := run_op e o (MkWorld t s l) in
  ∃ new, writes (net r.2) = new ++ writes s ∧
    (∀ id m m', (id, m, m') ∈ new → ∃ six ref, concerns e o t six ∧ setFor e six = Some ref ∧ id = ref_ID ref ∧ changed e o t six m m') ∧
    (r.1 = Ok tt → ∀ six ref, six ∈ fams_of e o t → setFor e six = Some ref → ∃ m m', (ref_ID ref, m, m') ∈ new ∧ changed e o t six m m').
Proof.
  intros r. cut (op_writes e o t (match r.1 with Ok _ => fams_of e o t | Err _ => [] end) (writes s) (net r.2)).
  { intros (new & Hw & Hn & Hf). exists new. split; [done|]. rewrite Forall_forall in Hn. split.
    - intros id m m' Hin. destruct (Hn _ Hin) as (six & ref & Hc & Hs & Hi & Hm). simpl in Hi, Hm. subst id m'.
      exists six, ref. split_and!; [done..|by apply effect_changed].
    - intros E six ref Hi Hs. rewrite E in Hf. destruct (Hf six ref Hi Hs) as [m Hm]. exists m, (effect e o t six m). split; [done|].
      destruct (Hn _ Hm) as (six' & ref' & Hc & _). apply effect_changed. by eapply fams_concern. }
  assert (∀ x, op_writes e o t [] (writes s) (net ((fail x : io sets waf_event service unit) (MkWorld t s l)).2)) as Hfail by (intros x; by apply op_writes_nil).
  assert (op_writes e o t [] (writes s) (net (MkWorld t s l : world sets waf_event service))) as H0' by by apply op_writes_nil.
  subst r. destruct o as [tg|tg|want]; cbn [run_op].
  - unfold Ban. destruct (isAllowlisted e tg) eqn:Ea; [apply Hfail|]. unfold fams_of. destruct (awsCIDR tg) as [[cidr six]|x] eqn:Ek; [|apply Hfail].
    destruct (setFor e six) as [ref|] eqn:Es.
    2: { cbn. destruct (bool_decide _); [done|]. destruct H0' as (new & Hw & Hn & _). exists new. split; [done|]. split; [done|].
         intros six' ref' ->%list_elem_of_singleton Hs. congruence. }
    unfold mbind, io_mbind, get_st. cbn [st]. destruct (bool_decide (cidr ∈ present (state_of six t))) eqn:Hin; [done|]. apply bool_decide_eq_false in Hin.
    assert (concerns e (OBan tg) t six) as Hc by (split; [done|by exists cidr]). pose proof (effect_ban e tg t six cidr six Ek) as Eeff. unfold victim in Eeff.
    destruct (Nat.leb_spec (setCap e) (length (order (state_of six t)))); [destruct (order (state_of six t)) as [|oldest rest]; [apply Hfail|]|];
      exact (mutate_put e (OBan tg) t [] ref six _ (writes s) _ _ (eq_sym Eeff) Hc Es (MkWorld t s l) H0').
  - unfold Unban, fams_of. destruct (awsCIDR tg) as [[cidr six]|x] eqn:Ek; [|apply Hfail]. destruct (setFor e six) as [ref|] eqn:Es.
    + assert (concerns e (OUnban tg) t six) as Hc by by exists cidr. pose proof (effect_unban e tg t six cidr six Ek) as Eeff.
      exact (mutate_put e (OUnban tg) t [] ref six _ (writes s) _ _ (eq_sym Eeff) Hc Es (MkWorld t s l) H0').
    + destruct H0' as (new & Hw & Hn & _). exists new. split; [done|]. split; [done|]. intros six' ref' ->%list_elem_of_singleton Hs. congruence.
  - unfold Sync. set (w := MkWorld t s l) in *.
    refine (triple_bind _ _ _ (λ r w, ∃ errs, r = Ok errs ∧ op_writes e (OSync want) t [] (writes s) (net w) ∧ (errs = [] → op_writes e (OSync want) t [false] (writes s) (net w)))
      (λ r w, op_writes e (OSync want) t (match r with Ok _ => [true; false] | Err _ => [] end) (writes s) (net w)) (sync_family_op e want t false [] (writes s)) _ _ w H0').
    2: by intros x w' (? & ? & _).
    intros errs4 w' (errs & [= <-] & H4 & H4').
    destruct (sync_family_op e want t true (match errs4 with [] => [false] | _ => [] end) (writes s) w') as (errs6 & E6 & H6 & H6'); [destruct errs4; auto|].
    unfold mbind, io_mbind. destruct (sync_family e true _ w') as [r6 w6]. cbn in E6. subst r6. cbn [fst snd] in *.
    destruct errs4 as [|x errs4]; [destruct errs6 as [|y errs6]|].
    + exact (H6' eq_refl).
    + cbn. destruct H6 as (new & Hw & Hn & Hf). exists new. split; [done|]. split; [done|]. by intros ? ? ?%elem_of_nil.
    + cbn. done.
Qed.
