(* ===== verification/AwsCreds.v ===== *)
(** Where the AWS enforcer's credentials come from ([internal/enforce/awscreds.go])
    and how a request is signed with them ([internal/enforce/sigv4.go]).  The
    environment, the files and the metadata service are what the machine answers;
    the hash functions of the standard library are parameters. *)
From Stdlib Require Import Ascii.
From stdpp Require Import sorting.
From S2P Require Import Prelude GoStrings GoUtf8 Rfc3339 EdgeNet.

Definition awsIMDSBase : string := "http://169.254.169.254".
Definition awsCredsRefreshMargin : duration := 5 * Minute.

(** [Expiration]: none for the zero time. *)
Record awsCredentials := MkCreds { AccessKeyID : string; SecretAccessKey : string; SessionToken : string; Expiration : option time }.

(** ** The chain *)

(** [os.Getenv]; the home directory; [os.ReadFile]: the file, or whether it is
    missing and why it cannot be read.  ([filepath.Join] cleans the path as well,
    which names the same file; [%q] is left unquoted in error texts.) *)
Record machine := MkMachine { Getenv : string → string; UserHomeDir : option string; ReadFile : string → (bool * string) + string }.

Definition credsFromEnv (m : machine) : option awsCredentials :=
  let id := Getenv m "AWS_ACCESS_KEY_ID" in
  let secret := Getenv m "AWS_SECRET_ACCESS_KEY" in
  if bool_decide (id = EmptyString) || bool_decide (secret = EmptyString) then None
  else Some (MkCreds id secret (Getenv m "AWS_SESSION_TOKEN") None).

(** [strings.ToLower], as far as a comparison with ASCII words can tell: the
    ASCII letters, and the two runes above them that have an ASCII lower case. *)
Fixpoint lower (s : string) : string :=
  match s with
  | String "226" (String "132" (String "170" s)) => String "k" (lower s)
  | String "196" (String "176" s) => String "i" (lower s)
  | String a s => String (lower_ascii a) (lower s)
  | EmptyString => EmptyString
  end%char.

(** One line of the credentials file: the section and what was read so far. *)
Definition file_line (profile : string) (acc : string * awsCredentials) (raw : string) : string * awsCredentials :=
  let '(section, cred) := acc in
  let line := UTrimSpace raw in
  if bool_decide (line = EmptyString) || has_prefix "#" line || has_prefix ";" line then acc
  else if has_prefix "[" line && has_suffix "]" line
  then (UTrimSpace (str_take (str_len line - 2) (str_drop 1 line)), cred)
  else if negb (bool_decide (section = profile)) then acc
  else match cut "=" line with
       | (_, None) => acc
       | (key, Some value) =>
         let key := UTrimSpace (lower key) in
         let value := UTrimSpace value in
         (section,
          if bool_decide (key = "aws_access_key_id"%string) then MkCreds value (SecretAccessKey cred) (SessionToken cred) (Expiration cred)
          else if bool_decide (key = "aws_secret_access_key"%string) then MkCreds (AccessKeyID cred) value (SessionToken cred) (Expiration cred)
          else if bool_decide (key = "aws_session_token"%string) then MkCreds (AccessKeyID cred) (SecretAccessKey cred) value (Expiration cred)
          else cred)
       end.

Definition parse_file (profile data : string) : option awsCredentials :=
  let cred := (foldl (file_line profile) (EmptyString, MkCreds EmptyString EmptyString EmptyString None) (split_on "010"%char data)).2 in
  if bool_decide (AccessKeyID cred = EmptyString) || bool_decide (SecretAccessKey cred = EmptyString) then None else Some cred.

Definition credsFromSharedFile (m : machine) : result goerr (option awsCredentials) :=
  let path := Getenv m "AWS_SHARED_CREDENTIALS_FILE" in
  match (if bool_decide (path = EmptyString) then (λ home, home +:+ "/.aws/credentials") <$> UserHomeDir m else Some path) with
  | None => Ok None
  | Some path =>
    match ReadFile m path with
    | inl (true, _) => Ok None
    | inl (false, t) => Err (wrapf "enforce/awswaf: read shared credentials file" (EText t))
    | inr data =>
      let profile := Getenv m "AWS_PROFILE" in
      Ok (parse_file (if bool_decide (profile = EmptyString) then "default" else profile) data)
    end
  end.

(** ** The metadata service *)
Definition newAWSCredProvider (m : machine) : string :=
  let base := Getenv m "AWS_EC2_METADATA_SERVICE_ENDPOINT" in
  TrimSuffix "/" (if bool_decide (base = EmptyString) then awsIMDSBase else base).

(** The role's document, when it decodes. *)
Record imds_doc := MkDoc { doc_Code : string; doc_AccessKeyId : string; doc_SecretAccessKey : string; doc_Token : string; doc_Expiration : option time }.

(** A call: no response, or a status and the body (or why it cannot be read);
    what a body decodes to. *)
Class IMDS (S : Type) := {
  imds_put (url : string) : S → (string + Z * (string + string)) * S;
  imds_get (url token : string) : S → (string + Z * (string + string)) * S;
  decode (body : string) : string + imds_doc
}.

Section chain.
Context {S : Type} `{IMDS S} (m : machine) (imdsBase : string).
#[local] Notation cio := (io (option awsCredentials) unit S).

Definition imdsDo (call : S → (string + Z * (string + string)) * S) : cio string :=
  r ← lift call;
  match r with
  | inl t => fail (EText t)
  | inr (_, inl t) => fail (EText t)
  | inr (status, inr body) => if negb (status =? 200) then fail (EText ("HTTP " +:+ show_Z status)) else mret body
  end.
Definition imdsPut (path : string) : cio string := imdsDo (imds_put (imdsBase +:+ path)).
Definition imdsGet (path token : string) : cio string := imdsDo (imds_get (imdsBase +:+ path) token).

Definition credsFromIMDS : cio awsCredentials :=
  token ← wrap "IMDSv2 token" (imdsPut "/latest/api/token");
  roles ← wrap "IMDS role name" (imdsGet "/latest/meta-data/iam/security-credentials/" token);
  let role := UTrimSpace (cut "010"%char roles).1 in
  if bool_decide (role = EmptyString) then fail (EText "IMDS: no IAM role attached")
  else
    body ← wrap "IMDS role credentials" (imdsGet ("/latest/meta-data/iam/security-credentials/" +:+ role) token);
    match decode body with
    | inl t => fail (wrapf "IMDS credentials document" (EText t))
    | inr d =>
      if negb (bool_decide (doc_Code d = "Success"%string)) || bool_decide (doc_AccessKeyId d = EmptyString)
      then fail (EText ("IMDS credentials document: code " +:+ doc_Code d))
      else mret (MkCreds (doc_AccessKeyId d) (doc_SecretAccessKey d) (doc_Token d) (doc_Expiration d))
    end.

Definition resolve : cio awsCredentials :=
  match credsFromEnv m with
  | Some c => mret c
  | None =>
    match credsFromSharedFile m with
    | Err x => fail x
    | Ok (Some c) => mret c
    | Ok None => wrap "enforce/awswaf: no AWS credentials found (checked env vars, shared credentials file, IMDSv2)" credsFromIMDS
    end
  end.

(** Credentials that may be used at [now] without asking again. *)
Definition still_good (now : time) (c : awsCredentials) : bool :=
  match Expiration c with None => true | Some t => awsCredsRefreshMargin <? t - now end.

Definition credentials (now : time) : cio awsCredentials :=
  cached ← get_st;
  match (c ← cached; if still_good now c then Some c else None) with
  | Some c => mret c
  | None => c ← resolve; _ ← put_st (λ _, Some c); mret c
  end.
End chain.

(** ** Signatures *)
Section sign.
Context (Sum256 : string → string) (hmacSHA256 : string → string → string) (HexEncode : string → string).

Definition FormatAmz (t : time) : string :=
  let '(y, mo, d) := civil_from_days (t `div` Day) in
  let s := Unix (t `mod` Day) in
  digits 4 y +:+ digits 2 mo +:+ digits 2 d +:+ "T" +:+ digits 2 (s `div` 3600) +:+ digits 2 ((s `div` 60) `mod` 60) +:+ digits 2 (s `mod` 60) +:+ "Z".
Definition FormatStamp (t : time) : string :=
  let '(y, mo, d) := civil_from_days (t `div` Day) in digits 4 y +:+ digits 2 mo +:+ digits 2 d.

(** A request: the host it names, its URL's host, escaped path and query, its headers. *)
Record request := MkRequest { req_Method : string; req_Host : string; url_Host : string; EscapedPath : string; RawQuery : string; Header : gmap string (list string) }.

Definition hdr_le (a b : string * string) : Prop := String.le a.1 b.1.
#[local] Instance hdr_le_dec : RelDecision hdr_le := λ a b, String.le_dec a.1 b.1.

Definition signed (name : string) : bool := bool_decide (ToLower name = "content-type"%string) || has_prefix "x-amz-" (ToLower name).
Definition canonical (r : request) (h : gmap string (list string)) : list (string * string) :=
  merge_sort hdr_le (("host"%string, if bool_decide (req_Host r = EmptyString) then url_Host r else req_Host r) ::
    ((λ p, (ToLower p.1, UTrimSpace (Join p.2 ","))) <$> List.filter (λ p, signed p.1) (map_to_list h))).

(** The headers the request is sent with. *)
Definition signSigV4 (r : request) (body : string) (creds : awsCredentials) (region service : string) (now : time) : gmap string (list string) :=
  let amzDate := FormatAmz now in
  let dateStamp := FormatStamp now in
  let h := <["X-Amz-Date" := [amzDate]]> (Header r) in
  let h := if bool_decide (SessionToken creds = EmptyString) then h else <["X-Amz-Security-Token" := [SessionToken creds]]> h in
  let payloadHash := Sum256 body in
  let cs := canonical r h in
  let canonicalHeaders := foldr (λ c t, c.1 +:+ ":" +:+ c.2 +:+ newline +:+ t) EmptyString cs in
  let signedHeaders := Join cs.*1 ";" in
  let uri := if bool_decide (EscapedPath r = EmptyString) then "/"%string else EscapedPath r in
  let canonicalRequest := Join [req_Method r; uri; RawQuery r; canonicalHeaders; signedHeaders; HexEncode payloadHash] newline in
  let scope := Join [dateStamp; region; service; "aws4_request"%string] "/" in
  let stringToSign := Join ["AWS4-HMAC-SHA256"%string; amzDate; scope; HexEncode (Sum256 canonicalRequest)] newline in
  let kDate := hmacSHA256 ("AWS4" +:+ SecretAccessKey creds) dateStamp in
  let kRegion := hmacSHA256 kDate region in
  let kService := hmacSHA256 kRegion service in
  let kSigning := hmacSHA256 kService "aws4_request" in
  let signature := HexEncode (hmacSHA256 kSigning stringToSign) in
  <["Authorization" := ["AWS4-HMAC-SHA256 Credential=" +:+ AccessKeyID creds +:+ "/" +:+ scope +:+ ", SignedHeaders=" +:+ signedHeaders +:+ ", Signature=" +:+ signature]]> h.

(** The secret reaches the request only as the key of the first HMAC, over the day. *)
Lemma secret_is_a_key r body c1 c2 region service now :
  AccessKeyID c1 = AccessKeyID c2 → SessionToken c1 = SessionToken c2 →
  hmacSHA256 ("AWS4" +:+ SecretAccessKey c1) (FormatStamp now) = hmacSHA256 ("AWS4" +:+ SecretAccessKey c2) (FormatStamp now) →
  signSigV4 r body c1 region service now = signSigV4 r body c2 region service now.
Proof. unfold signSigV4. intros -> -> ->. done. Qed.

(** The headers that are signed are named in order, with the host, the date and the session's token among them. *)
Lemma canonical_covers r h : StronglySorted hdr_le (canonical r h) ∧ "host"%string ∈ (canonical r h).*1 ∧
  ∀ name, is_Some (h !! name) → signed name = true → ToLower name ∈ (canonical r h).*1.
Proof.
  unfold canonical. set (l := _ :: _). assert (∀ x, x ∈ (merge_sort hdr_le l).*1 ↔ x ∈ l.*1) as Hp by (intros x; by rewrite merge_sort_Permutation).
  split; [|split].
  - apply StronglySorted_merge_sort; [intros a b c; apply (transitivity (R := String.le))|intros a b; apply (total String.le)].
  - apply Hp. by left.
  - intros name [v Hv] Hs. apply Hp. right. apply list_elem_of_fmap. exists (ToLower name, UTrimSpace (Join v ",")). split; [done|].
    apply list_elem_of_fmap. exists (name, v). split; [done|]. rewrite list_elem_of_In, filter_In, <- list_elem_of_In, elem_of_map_to_list. done.
Qed.
End sign.

(** ** The chain's order *)

(** The environment is preferred to the file and the file to the metadata service. *)
Lemma resolve_order {S} `{IMDS S} m base (w : world (option awsCredentials) unit S) :
  match credsFromEnv m, credsFromSharedFile m with
  | Some c, _ => resolve m base w = (Ok c, w)
  | None, Ok (Some c) => resolve m base w = (Ok c, w)
  | None, Err x => resolve m base w = (Err x, w)
  | None, Ok None => (resolve m base w).2 = (credsFromIMDS base w).2
  end.
Proof.
  unfold resolve. destruct (credsFromEnv m); [done|]. destruct (credsFromSharedFile m) as [[c|]|x]; try done.
  unfold wrap. by destruct (credsFromIMDS base w) as [[?|?] ?].
Qed.

(** Credentials come from the cache only while they are good for more than five minutes. *)
Lemma creds_cache_fresh {S} `{IMDS S} m base now (w : world (option awsCredentials) unit S) :
  match credentials m base now w with
  | (Ok c, w') => st w' = Some c ∧ ((w' = w ∧ still_good now c = true) ∨ (resolve m base w).1 = Ok c)
  | (Err x, _) => (resolve m base w).1 = Err x
  end.
Proof.
  unfold credentials. unfold mbind at 1, io_mbind at 1, get_st. destruct (st w) as [c|] eqn:Ec; cbn [mbind option_bind].
  - destruct (still_good now c) eqn:Eg.
    + cbn. rewrite Ec. auto.
    + unfold mbind, io_mbind. destruct (resolve m base w) as [[c'|x] w'] eqn:Er; cbn; auto.
  - unfold mbind, io_mbind. destruct (resolve m base w) as [[c'|x] w'] eqn:Er; cbn; auto.
Qed.

Example parse_file_example : parse_file "default"
  (Join ["# keys"; "[other]"; "aws_access_key_id = no"; "[ default ]"; "AWS_Access_Key_ID=AKIA1"; " aws_secret_access_key = s=1 "]%string newline)
  = Some (MkCreds "AKIA1" "s=1" EmptyString None).
Proof. vm_compute. reflexivity. Qed.
