(* ===== verification/ParserCore.v ===== *)
(** What the log parsers of [internal/parser] share: the raw line and its caps,
    the unwrapping of a Docker json-file entry, addresses, the values of a JSON
    line, and the client behind a chain of proxies ([xff.go]).

    A parser never returns an error; its debug messages are left out. *)
From Stdlib Require Import Ascii.
From S2P Require Import Prelude Netip NetipParse GoStrings GoUtf8 GoNet Regex Json Sdk.
#[local] Open Scope Z_scope.

Record RawLine := MkRaw { Source : string; Line : string; At : time }.

Definition maxLineBytes : nat := 4096.
Definition maxUsernameBytes : nat := 64.
Definition maxRedactLen : Z := 200.
Definition maxPathBytes : nat := 2048.
Definition maxUABytes : nat := 512.
Definition maxMethodBytes : nat := 16.

(** ** The line *)
Definition extractDockerLogField (raw : string) : string :=
  match parse_json raw ≫= as_object with
  | None => EmptyString
  | Some obj =>
      match obj !! "log", obj !! "stream" with
      | Some logVal, Some _ => default EmptyString (as_string logVal)
      | _, _ => EmptyString
      end
  end.

Definition starts (a : ascii) (s : string) : bool := match s with String b _ => bool_decide (b = a) | EmptyString => false end.

Definition unwrap_docker (raw : string) : string :=
  if starts "{" raw then
    let inner := extractDockerLogField raw in if bool_decide (inner = EmptyString) then raw else TrimEOL inner
  else raw.

Definition blank_line (raw : string) : bool := bool_decide (UTrimSpace raw = EmptyString).

(** The text a parser looks at: none of an oversized or a blank line. *)
Definition line_text (line : RawLine) : option string :=
  if (maxLineBytes <? str_len (Line line))%nat then None else
  let raw := TrimEOL (Line line) in
  if blank_line raw then None else Some (unwrap_docker raw).

(** The HTTP parsers look for a blank once more. *)
Definition http_text (line : RawLine) : option string :=
  raw ← line_text line; if blank_line raw then None else Some raw.

(** ** Fields *)
Definition RuneStart (a : ascii) : bool := negb (Z.land (byte a) 0xC0 =? 0x80).

Fixpoint back_off (cut : nat) (s : string) : nat :=
  match cut with
  | O => O
  | S k => match String.get cut s with
           | Some a => if RuneStart a then cut else back_off k s
           | None => cut
           end
  end.

Definition capUsername (username : string) : string :=
  if (str_len username <=? maxUsernameBytes)%nat then username
  else str_take (back_off maxUsernameBytes username) username.

Definition capField (s : string) (n : nat) : string := if (n <? str_len s)%nat then str_take n s else s.

(** Control characters dropped, cut after [maxRedactLen] bytes. *)
Fixpoint redact_runes (count : Z) (rs : list Z) : string :=
  match rs with
  | [] => EmptyString
  | r :: rs =>
      if maxRedactLen <=? count then EmptyString
      else if (r <? 0x20) && negb (r =? 9) then redact_runes count rs
      else encode r +:+ redact_runes (count + Z.of_nat (str_len (encode r))) rs
  end.
Definition redactForLog (s : string) : string := redact_runes 0 (runes s).

(** ** Addresses *)
(** The characters of an address, as the patterns have them. *)
Definition ipch : ascii → bool := λ a, rng 48 57 a || rng 97 102 a || rng 65 70 a || chars ".:" a.

Definition parseIP (s : string) : option addr := ParseAddr (TrimSuffix "]" (TrimPrefix "[" s)).

Definition parseHop (tok : string) : option addr :=
  match ParseAddrPort tok with
  | Some (a, _) => Some (Unmap a)
  | None => Unmap <$> parseIP tok
  end.

Fixpoint rightmost (trusted : addr → bool) (parts : list string) : option addr :=
  match parts with
  | [] => None
  | p :: ps =>
      let part := UTrimSpace p in
      if bool_decide (part = EmptyString) then rightmost trusted ps
      else match parseHop part with
           | None => None
           | Some ip => if trusted ip then rightmost trusted ps else Some ip
           end
  end.
Definition clientFromXFF (xff : string) (trusted : addr → bool) : option addr := rightmost trusted (reverse (split_on "," xff)).

Definition isTrustedProxy (ps : list prefix) (ip : addr) : bool := existsb (λ p, Contains p ip) ps.

Definition resolveXFF (ps : list prefix) (ip : addr) (xff : string) : addr :=
  if bool_decide (xff = EmptyString) || bool_decide (xff = "-"%string) || bool_decide (ps = []) then ip
  else if negb (isTrustedProxy ps ip) then ip
  else default ip (clientFromXFF xff (isTrustedProxy ps)).

(** ** JSON lines *)

(** The first key present with a text or a number. *)
Fixpoint jsonString (obj : gmap string json) (keys : list string) : string :=
  match keys with
  | [] => EmptyString
  | k :: ks =>
      match obj !! k with
      | None => jsonString obj ks
      | Some v => match as_string v with
                  | Some s => s
                  | None => match as_number v with Some n => n | None => jsonString obj ks end
                  end
      end
  end.

Definition mk_event (line : RawLine) (ip : addr) (kind : string) (fields : gmap string string) : Event :=
  MkEvent (At line) ip kind fields (Source line) EmptyString.

(** ** Lemmas *)
Lemma TrimEOL_len s : (str_len (TrimEOL s) ≤ str_len s)%nat.
Proof. destruct (TrimEOL_prefix s) as (t & E). rewrite E at 2. rewrite str_length_app. lia. Qed.

Lemma capField_len s n : (str_len (capField s n) ≤ n)%nat.
Proof. unfold capField. destruct (Nat.ltb_spec n (str_len s)); [apply str_take_length|lia]. Qed.

Lemma back_off_le n s : (back_off n s ≤ n)%nat.
Proof. induction n as [|n IH]; [done|]. simpl. destruct (String.get (S n) s); [|lia]. destruct (RuneStart _); lia. Qed.

Lemma capUsername_len s : (str_len (capUsername s) ≤ maxUsernameBytes)%nat.
Proof.
  unfold capUsername. destruct (Nat.leb_spec (str_len s) maxUsernameBytes); [done|].
  pose proof (str_take_length (back_off maxUsernameBytes s) s). pose proof (back_off_le maxUsernameBytes s). lia.
Qed.

Lemma str_take_is_prefix n s : ∃ t, s = str_take n s +:+ t.
Proof. revert s. induction n as [|n IH]; intros [|a s]; simpl; eauto. destruct (IH s) as (t & E). exists t. by rewrite <- E. Qed.

Lemma str_take_app_plus p s n : str_take (str_len p + n) (p +:+ s) = p +:+ str_take n s.
Proof. induction p as [|a p IH]; simpl; [done|]. by rewrite IH. Qed.

(** *** Truncation never splits a character *)
Definition complete (s : string) : Prop := ∃ rs, Forall (λ r, valid_rune r = true) rs ∧ s = encode_all rs.

Lemma tail_byte (a : ascii) : RuneStart a = negb ((0x80 <=? byte a) && (byte a <? 0xC0)).
Proof. by destruct a as [[] [] [] [] [] [] [] []]. Qed.

Lemma encode_bytes r : valid_rune r = true →
  ∃ a t, encode r = String a t ∧ RuneStart a = true ∧ str_forall (λ b, negb (RuneStart b)) t = true.
Proof.
  intros Hr. unfold encode. rewrite Hr. unfold valid_rune, MaxRune in Hr. bool_hyps.
  assert (∀ z, 0x80 <= z < 0xC0 → negb (RuneStart (chr z)) = true) as Ht.
  { intros z Hz. rewrite tail_byte, byte_chr by lia. rewrite negb_involutive. lia. }
  assert (∀ z, 0 <= z < 256 → (z < 0x80 ∨ 0xC0 <= z) → RuneStart (chr z) = true) as Hs.
  { intros z Hz Hc. rewrite tail_byte, byte_chr by lia. lia. }
  assert (∀ z, 0x80 <= 0x80 + z mod 64 < 0xC0) as Hm by (intros z; pose proof (Z.mod_pos_bound z 64); lia).
  destruct (Z.ltb_spec r 0x80); [|destruct (Z.ltb_spec r 0x800); [|destruct (Z.ltb_spec r 0x10000)]]; unfold str1; cbn [String.append];
    do 2 eexists; (split; [done|]); cbn [str_forall].
  - split; [apply Hs; lia|done].
  - assert (0x2 <= r / 64 < 0x20) by (split; [apply Z.div_le_lower_bound|apply Z.div_lt_upper_bound]; lia).
    split; [apply Hs; lia|]. by rewrite Ht by apply Hm.
  - assert (0 <= r / 4096 < 0x10) by (split; [apply Z.div_le_lower_bound|apply Z.div_lt_upper_bound]; lia).
    split; [apply Hs; lia|]. by rewrite !Ht by apply Hm.
  - assert (0 <= r / 262144 < 8) by (split; [apply Z.div_le_lower_bound|apply Z.div_lt_upper_bound]; lia).
    split; [apply Hs; lia|]. by rewrite !Ht by apply Hm.
Qed.

Lemma back_off_stop n a t s : RuneStart a = true → str_forall (λ b, negb (RuneStart b)) t = true → (n ≤ str_len t)%nat →
  back_off n (String a t +:+ s) = O.
Proof.
  intros Ha Ht. revert s. induction n as [|n IH]; intros s Hn; [done|]. cbn [back_off String.append String.get].
  assert (∃ b, String.get n (t +:+ s) = Some b ∧ RuneStart b = false) as (b & -> & ->).
  { clear -Ht Hn. revert n Hn. induction t as [|b t IH]; intros n Hn; simpl in *; [lia|]. apply andb_true_iff in Ht as [Hb Ht].
    destruct n as [|n]; [exists b; split; [done|]; by apply negb_true_iff|]. apply IH; [done|lia]. }
  apply (IH s). lia.
Qed.

Lemma get_app p s n : String.get (str_len p + n) (p +:+ s) = String.get n s.
Proof. by induction p as [|a p IH]. Qed.

Lemma back_off_app n p s : back_off (str_len p + n) (p +:+ s) = (if decide (back_off n s = 0%nat) then back_off (str_len p) (p +:+ s) else str_len p + back_off n s)%nat.
Proof.
  induction n as [|n IH]; [by rewrite Nat.add_0_r|]. rewrite Nat.add_succ_r. cbn [back_off].
  replace (S (str_len p + n)) with (str_len p + S n)%nat by lia. rewrite get_app.
  destruct (String.get (S n) s) as [a|]; [|done]. destruct (RuneStart a); [done|]. apply IH.
Qed.

Lemma back_off_head p s : (∀ a t, s = String a t → RuneStart a = true) → back_off (str_len p) (p +:+ s) = str_len p.
Proof.
  intros Hs. destruct p as [|c p]; [done|]. cbn [str_len back_off].
  pose proof (get_app (String c p) s 0) as G. rewrite Nat.add_0_r in G. cbn [str_len] in G. rewrite G. clear G. destruct s as [|a t]; cbn [String.get]; [done|]. by rewrite (Hs a t).
Qed.

Lemma take_complete rs n : Forall (λ r, valid_rune r = true) rs → complete (str_take (back_off n (encode_all rs)) (encode_all rs)).
Proof.
  intros H. revert n. induction H as [|r rs Hr Hrs IH]; intros n; simpl.
  { exists []. split; [done|]. destruct (back_off n EmptyString); done. }
  destruct (encode_bytes r Hr) as (a & t & E & Ha & Ht). rewrite E. destruct (decide (n ≤ str_len t)%nat) as [Hn|Hn].
  - rewrite back_off_stop by done. by exists [].
  - assert (n = str_len (String a t) + (n - S (str_len t)))%nat as -> by (simpl; lia). rewrite back_off_app.
    assert (∀ b u, encode_all rs = String b u → RuneStart b = true) as Hhead.
    { intros b u Eb. destruct Hrs as [|r' rs' Hr' Hrs']; [done|]. simpl in Eb. destruct (encode_bytes r' Hr') as (c & v & E' & Hc & _).
      rewrite E' in Eb. simpl in Eb. congruence. }
    case_decide as Hz.
    + rewrite back_off_head by done. rewrite str_take_app. exists [r]. split; [by repeat constructor|]. simpl. by rewrite str_app_nil_r.
    + destruct (IH (n - S (str_len t))%nat) as (rs' & Hrs' & E'). exists (r :: rs'). split; [by constructor|].
      rewrite str_take_app_plus, E'. simpl. by rewrite E.
Qed.

Lemma capUsername_complete u : complete u → complete (capUsername u).
Proof. intros (rs & Hrs & ->). unfold capUsername. destruct (_ <=? _)%nat; [by exists rs|]. by apply take_complete. Qed.

Lemma parseIP_plain R : str_forall ipch R = true → parseIP R = ParseAddr R.
Proof.
  intros H. unfold parseIP, TrimPrefix. destruct R as [|a R]; [done|].
  assert (has_prefix "[" (String a R) = false) as ->.
  { simpl in H. apply andb_true_iff in H as [Ha _]. simpl. case_decide as E; [subst; done|done]. }
  f_equal. pose proof (TrimSuffix_spec "]" (String a R)) as Hs. destruct (has_suffix "]" (String a R)) eqn:E; [|done].
  exfalso. rewrite Hs, str_forall_app in H. simpl in H. by rewrite andb_false_r in H.
Qed.

Lemma TrimEOL_app a b : TrimEOL b ≠ EmptyString → TrimEOL (a +:+ b) = a +:+ TrimEOL b.
Proof.
  intros Hb. induction a as [|c a IH]; [done|]. cbn [String.append TrimEOL]. rewrite IH.
  destruct (a +:+ TrimEOL b) eqn:E; [|done]. destruct a; [done|discriminate].
Qed.

Lemma blank_line_ip a t : ipch a = true → blank_line (String a t) = false.
Proof.
  intros Ha. unfold blank_line. apply bool_decide_eq_false_2. assert (utrim_left 0 (String a t) = String a t) as E.
  { destruct a as [[] [] [] [] [] [] [] []]; try done; simpl in Ha; done. }
  unfold UTrimSpace. rewrite E. cbn [utrim_right]. rewrite E. by rewrite bool_decide_eq_false_2.
Qed.

(** *** The client behind trusted proxies *)
Lemma split_on_cat c a b : split_on c (a +:+ String c b) = split_on c a ++ split_on c b.
Proof.
  induction a as [|x a IH]; simpl.
  - destruct (split_on_cons c b) as (w & ws & ->). by rewrite decide_True.
  - rewrite IH. destruct (split_on_cons c a) as (w & ws & ->). simpl. by case_decide.
Qed.

Definition passes (trusted : addr → bool) (part : string) : Prop :=
  UTrimSpace part = EmptyString ∨ ∃ a, parseHop (UTrimSpace part) = Some a ∧ trusted a = true.

(** The address found is the rightmost hop that is not trusted, with only
    blanks and trusted hops to its right. *)
Lemma rightmost_spec trusted parts ip : rightmost trusted parts = Some ip ↔
  ∃ l part r, parts = l ++ part :: r ∧ Forall (passes trusted) l ∧
    UTrimSpace part ≠ EmptyString ∧ parseHop (UTrimSpace part) = Some ip ∧ trusted ip = false.
Proof.
  split.
  - induction parts as [|p ps IH]; simpl; [done|]. case_bool_decide as Hb.
    + intros (l & part & r & -> & Hl & H)%IH. exists (p :: l), part, r. split_and!; try apply H; [done|]. constructor; [by left|done].
    + destruct (parseHop (UTrimSpace p)) as [a|] eqn:Ea; [|done]. destruct (trusted a) eqn:Et.
      * intros (l & part & r & -> & Hl & H)%IH. exists (p :: l), part, r. split_and!; try apply H; [done|]. constructor; [right; eauto|done].
      * intros [= <-]. exists [], p, ps. split_and!; done.
  - intros (l & part & r & -> & Hl & Hb & Hp & Ht). induction Hl as [|p l Hpass Hl IH]; simpl.
    + rewrite bool_decide_eq_false_2 by done. by rewrite Hp, Ht.
    + destruct Hpass as [->|(a & Ha & Hta)]; [done|]. case_bool_decide; [done|]. by rewrite Ha, Hta.
Qed.

(** Text the client puts in front of the header its proxies complete changes nothing. *)
Lemma xff_prefix trusted forged xff ip : clientFromXFF xff trusted = Some ip →
  clientFromXFF (forged +:+ String "," xff) trusted = Some ip.
Proof.
  unfold clientFromXFF. rewrite split_on_cat, reverse_app. intros (l & part & r & E & H)%rightmost_spec.
  apply rightmost_spec. exists l, part, (r ++ reverse (split_on "," forged)). rewrite E. by rewrite <- app_assoc.
Qed.

Lemma existsb_trusted ps a : isTrustedProxy ps a = true ↔ ∃ p, p ∈ ps ∧ Contains p a = true.
Proof. unfold isTrustedProxy. by rewrite existsb_exists_elem. Qed.

(** What a parser attributes a request to: the connection, or an untrusted hop
    of a header that a trusted proxy sent. *)
Lemma resolveXFF_spec ps ip xff : let r := resolveXFF ps ip xff in
  r = ip ∨ isTrustedProxy ps ip = true ∧ isTrustedProxy ps r = false ∧ clientFromXFF xff (isTrustedProxy ps) = Some r.
Proof.
  simpl. unfold resolveXFF. repeat case_match; try by left. destruct (clientFromXFF _ _) as [a|] eqn:E; [|by left].
  simpl. right. split; [by apply negb_false_iff|]. split; [|done]. unfold clientFromXFF in E. by apply rightmost_spec in E as (? & ? & ? & ? & ? & ? & ? & ?).
Qed.

Example xff_example :
  let ps := omap ParsePrefix ["10.0.0.0/8"; "2001:db8::/32"]%string in
  map (resolveXFF ps (Addr4 0x0a000001))
    ["1.2.3.4, 203.0.113.9:80, 10.1.1.1"; "1.2.3.4, unknown, 10.1.1.1"; "203.0.113.9 , , [2001:db8::7]:443"; "-"]%string =
    [Addr4 0xcb007109; Addr4 0x0a000001; Addr4 0xcb007109; Addr4 0x0a000001].
Proof. vm_compute. done. Qed.

Example docker_example :
  let q s := String quote (s +:+ String quote EmptyString) in
  line_text (MkRaw "docker:x" ("{" +:+ q "log" +:+ ":" +:+ q "Invalid user\n" +:+ "," +:+ q "stream" +:+ ":" +:+ q "stderr" +:+ "}") 0) = Some "Invalid user"%string.
Proof. vm_compute. done. Qed.

(** C27. An X-Forwarded-For header cannot be forged from the left: when a trusted proxy sent the request and the part its chain wrote is the client's address (untrusted) followed by trusted hops or blanks, the request is attributed to that address, whatever text the client put in front. *)
Theorem xff_unforgeable (ps : list prefix) (ip a : addr) (c : string) (ts : list string) :
  isTrustedProxy ps ip = true → Forall (λ t, no_char "," t = true) (c :: ts) →
  parseHop (UTrimSpace c) = Some a → isTrustedProxy ps a = false → Forall (passes (isTrustedProxy ps)) ts →
  let written := Join (c :: ts) "," in
  resolveXFF ps ip written = a ∧ ∀ forged, resolveXFF ps ip (forged +:+ String "," written) = a.
Proof.
  intros Hip Hcs Hc Ha Hts written.
  assert (clientFromXFF written (isTrustedProxy ps) = Some a) as Hw.
  { unfold clientFromXFF, written. rewrite split_Join by done. rewrite reverse_cons. apply rightmost_spec.
    exists (reverse ts), c, []. split_and!; [done|by apply Forall_reverse|by intros E; rewrite E in Hc|done|done]. }
  assert (ps ≠ []) as Hps by (by intros ->).
  assert (∀ xff, clientFromXFF xff (isTrustedProxy ps) = Some a → resolveXFF ps ip xff = a) as Hr.
  { intros xff Hx. unfold resolveXFF. rewrite !bool_decide_eq_false_2; [|done|by intros ->|by intros ->]. simpl. by rewrite Hip, Hx. }
  split; [by apply Hr|]. intros forged. by apply Hr, xff_prefix.
Qed.

Theorem xff_unforgeable_witness :
  let ps := omap ParsePrefix ["10.0.0.0/8"]%string in
  resolveXFF ps (Addr4 0x0a000001) (Join ["203.0.113.9:80"; " 10.1.1.1"]%string ",") = Addr4 0xcb007109 ∧
  ∀ forged, resolveXFF ps (Addr4 0x0a000001) (forged +:+ String "," (Join ["203.0.113.9:80"; " 10.1.1.1"]%string ",")) = Addr4 0xcb007109.
Proof.
  apply (xff_unforgeable (omap ParsePrefix ["10.0.0.0/8"]%string) (Addr4 0x0a000001) (Addr4 0xcb007109) "203.0.113.9:80" [" 10.1.1.1"%string]).
  - vm_compute. done.
  - repeat constructor.
  - vm_compute. done.
  - vm_compute. done.
  - apply Forall_singleton. right. exists (Addr4 0x0a010101). vm_compute. done.
Defined.
