(* ===== verification/ParserSSH.v ===== *)
(** The SSH parser, [internal/parser/ssh.go]: the patterns in their order, the
    syslog prefixes, the time of the line, and the parser.

    The calendar of the collector's time zone is a record of functions.  The
    main result is that a user name cannot move the blame: whatever the client
    sends as its name, the address that is counted is the one sshd wrote. *)
From Stdlib Require Import Ascii.
From S2P Require Import Prelude Netip NetipParse GoStrings GoUtf8 Rfc3339 Regex Sdk ParserCore.
#[local] Open Scope Z_scope.

Definition kindInvalidUser : string := "ssh_invalid_user".
Definition kindFail : string := "ssh_fail".
Definition kindAccept : string := "ssh_accept".
Definition kindProbe : string := "ssh_probe".

(** ** Patterns *)
Definition spaces : re := plus re_space.
Definition digits_n (lo hi : nat) : re := Rep true re_digit lo (Some hi).
Definition port_digits : re := digits_n 1 5.

Definition sshd_tag : list re :=
  [spaces; plus re_nonspace; spaces; Str "sshd"; opt (Str "-session"); Str "["; Grp 2 (plus re_digit); Str "]:"; spaces;
   Grp 3 (star re_any); Eot].

Definition reSyslogPrefix : re := cats (
  Grp 1 (cats [Rep true re_word 3 (Some 3%nat); spaces; digits_n 1 2; spaces; digits_n 2 2; Str ":"; digits_n 2 2; Str ":"; digits_n 2 2])
  :: sshd_tag).

Definition reSyslogPrefixISO : re := cats (
  Grp 1 (cats [digits_n 4 4; Str "-"; digits_n 2 2; Str "-"; digits_n 2 2; Str "T"; digits_n 2 2; Str ":"; digits_n 2 2; Str ":"; digits_n 2 2;
    opt (Cat (Str ".") (plus re_digit));
    Alt (Str "Z") (cats [Rep true (chars "+-") 1 (Some 1%nat); digits_n 2 2; opt (Str ":"); digits_n 2 2])])
  :: sshd_tag).

Record sshPattern := MkPattern { p_re : re; p_kind : string; subtype : string; userIdx : nat; ipIdx : nat; portIdx : nat }.

(** A name, an address and a port; an address and a port. *)
Definition user_ip_port (sep : string) : list re := [Grp 1 (plus re_any); Str sep; Grp 2 (plus ipch); Str " port "; Grp 3 port_digits].
Definition ip_port : list re := [Grp 1 (plus ipch); Str " port "; Grp 2 port_digits].
Definition preauth : list re := [star re_any; Str "[preauth]"].

Definition from_pat (head kind sub : string) : sshPattern := MkPattern (cats (Str head :: user_ip_port " from ")) kind sub 1 2 3.
Definition by_pat (head sub : string) : sshPattern := MkPattern (cats (Str head :: user_ip_port " ")) kindProbe sub 1 2 3.
Definition method_pat (verb for_ kind sub : string) : sshPattern :=
  MkPattern (cats (Str verb :: plus re_nonspace :: Str for_ :: user_ip_port " from ")) kind sub 1 2 3.
Definition bare_pat (head : string) (rest : list re) (sub : string) : sshPattern :=
  MkPattern (cats (Str head :: ip_port ++ rest)) kindProbe sub 0 1 2.

Definition sshPatterns : list sshPattern := [
  method_pat "Failed " " for invalid user " kindInvalidUser "failed_invalid";
  method_pat "Failed " " for " kindFail "failed_password";
  from_pat "Invalid user " kindInvalidUser "invalid_user";
  MkPattern (cats [Str "User "; Grp 1 (plus re_any); Str " from "; Grp 2 (plus ipch); Str " not allowed"]) kindInvalidUser "not_allowed" 1 2 0;
  from_pat "error: maximum authentication attempts exceeded for invalid user " kindProbe "max_attempts";
  from_pat "error: maximum authentication attempts exceeded for " kindProbe "max_attempts";
  MkPattern (cats (Str "ssh_dispatch_run_fatal: Connection from invalid user " :: user_ip_port " " ++ [Str ":"])) kindProbe "dispatch_fatal" 1 2 3;
  by_pat "Connection closed by invalid user " "conn_closed_invalid";
  by_pat "Connection reset by invalid user " "conn_reset_invalid";
  by_pat "Disconnected from invalid user " "disconnected_invalid";
  by_pat "Disconnecting invalid user " "disconnecting_invalid";
  by_pat "Connection closed by authenticating user " "authenticating_closed";
  by_pat "Connection reset by authenticating user " "authenticating_reset";
  by_pat "Disconnected from authenticating user " "authenticating_disconnected";
  by_pat "Disconnecting authenticating user " "authenticating_disconnecting";
  bare_pat "Connection closed by " preauth "conn_closed";
  bare_pat "Connection reset by " preauth "conn_reset";
  bare_pat "Received disconnect from " preauth "disconnect_recv";
  bare_pat "Disconnected from " preauth "disconnected";
  bare_pat "banner exchange: Connection from " [Str ":"] "banner_invalid";
  MkPattern (cats (Str "error: kex_exchange_identification: Connection " :: Alt (Str "reset") (Str "closed") :: Str " by " :: ip_port)) kindProbe "kex_reset" 0 1 2;
  bare_pat "Unable to negotiate with " [] "negotiate_fail";
  MkPattern (cats [Str "drop connection #"; plus re_digit; Str " from ["; Grp 1 (plus ipch); Str "]:"; Grp 2 (plus re_digit); Str " on [";
    plus ipch; Str "]:"; plus re_digit; Str " penalty: "]) kindProbe "server_penalty" 0 1 2;
  MkPattern (cats [Str "Timeout before authentication for connection from "; Grp 1 (plus ipch); Str " to "; plus ipch]) kindProbe "auth_timeout" 0 1 0;
  MkPattern (cats [Str "pam_unix(sshd:auth): authentication failure;"; Rep false re_any 0 None; Str "rhost="; Grp 1 (plus ipch)]) kindProbe "pam_auth_fail" 0 1 0;
  MkPattern (cats [Str "PAM "; plus re_digit; Str " more authentication failure"; opt (Str "s"); Str ";"; Rep false re_any 0 None; Str "rhost="; Grp 1 (plus ipch)])
    kindProbe "pam_more_fail" 0 1 0;
  method_pat "Accepted " " for " kindAccept "accepted"].

(** ** Sources *)
Definition isSSHLogPath (path : string) : bool := has_suffix "auth.log" path || has_suffix "/secure" path.

Definition Matches (source : string) : bool :=
  if has_prefix "ssh:" source then true else
  match CutPrefix "journald:" source with
  | Some unit => bool_decide (TrimSuffix ".service" unit ∈ ["ssh"; "sshd"; "sshd-session"]%string)
  | None =>
      match CutPrefix "file:" source with
      | Some path => isSSHLogPath path
      | None => if str_contains source ":" then false else isSSHLogPath source
      end
  end.

(** ** Times *)

(** The civil time of an instant, and back; days past the month's end carry over. *)
Record civil := MkCivil { c_year : Z; c_month : Z; c_day : Z; c_secs : Z }.
Record location := MkLoc { to_civil : time → civil; from_civil : civil → time }.

Definition utc : location :=
  MkLoc (λ t, let '(y, m, d) := civil_from_days (t `div` Day) in MkCivil y m d (Unix (t `mod` Day)))
        (λ c, days_from_civil (c_year c) (c_month c) (c_day c) * Day + c_secs c * Second).

Definition months : list string := ["Jan"; "Feb"; "Mar"; "Apr"; "May"; "Jun"; "Jul"; "Aug"; "Sep"; "Oct"; "Nov"; "Dec"].

Fixpoint lookup_month (i : Z) (ms : list string) (s : string) : option Z :=
  match ms with
  | [] => None
  | m :: ms => if EqualFold (str_take 3 s) m then Some i else lookup_month (i + 1) ms s
  end.

Fixpoint cut_space (s : string) : string := match s with String " " t => cut_space t | _ => s end.

(** A blank of the layout: any number of blanks, at least one unless the text ends. *)
Definition skip_blank (s : string) : option string :=
  match s with String " " _ => Some (cut_space s) | EmptyString => Some s | _ => None end.

(** One digit, or two. *)
Definition getnum (s : string) : option (Z * string) :=
  match s with
  | EmptyString => None
  | String a t =>
      d ← digit_val a;
      match t with
      | String b u => match digit_val b with Some e => Some (10 * d + e, u) | None => Some (d, t) end
      | EmptyString => Some (d, t)
      end
  end.

(** The layout [Jan _2 15:04:05]: month, day, seconds of the day. *)
Definition parse_stamp (s : string) : option (Z * Z * Z) :=
  m ← lookup_month 1 months s; s ← skip_blank (str_drop 3 s);
  '(d, s) ← getnum s; s ← skip_blank s; '(h, s) ← getnum s; s ← expect ":" s; '(mi, s) ← take_digits 2 0 s; s ← expect ":" s;
  '(x, s) ← take_digits 2 0 s;
  if bool_decide (s ≠ EmptyString) || (24 <=? h) || (60 <=? mi) || (60 <=? x) || (d <? 1) || (daysIn 0 m <? d) then None
  else Some (m, d, 3600 * h + 60 * mi + x).

Definition parseSSHTime (loc : location) (stamp : string) (ref : time) : option time :=
  '(m, d, secs) ← parse_stamp stamp;
  let t := from_civil loc (MkCivil (c_year (to_civil loc ref)) m d secs) in
  if ref + 24 * Hour <? t
  then let c := to_civil loc t in Some (from_civil loc (MkCivil (c_year c - 1) (c_month c) (c_day c) (c_secs c)))
  else Some t.

(** An offset without its colon. *)
Definition parse_zone0 (s : string) : option Z :=
  if decide (s = "Z"%string) then Some 0 else
  match s with
  | String a r =>
      if negb (bool_decide (a = "+"%char ∨ a = "-"%char)) then None else
      '(h, r) ← take_digits 2 0 r; '(m, r) ← take_digits 2 0 r;
      if (24 <? h) || (60 <? m) || negb (bool_decide (r = EmptyString)) then None
      else Some (if decide (a = "+"%char) then 3600 * h + 60 * m else - (3600 * h + 60 * m))
  | EmptyString => None
  end.

Definition parse_zone1 (s : string) : option Z :=
  match s with
  | String a (String b (String c (String ":" r))) => parse_zone0 (String a (String b (String c r)))
  | _ => if decide (s = "Z"%string) then Some 0 else None
  end.

Definition parse_iso (zone : string → option Z) (s : string) : option time :=
  '(day, s) ← parse_date s; s ← expect "T" s; '(secs, s) ← parse_clock s; '(ns, s) ← parse_fraction s; off ← zone s;
  Some (day * Day + (secs - off) * Second + ns).

Definition parseISOTime (stamp : string) : option time :=
  match parse_iso parse_zone1 stamp with Some t => Some t | None => parse_iso parse_zone0 stamp end.

(** ** Parsing *)
Definition event_fields (pat : sshPattern) (c : list (nat * string)) (pid : string) : gmap string string :=
  let f : gmap string string := {["subtype"%string := subtype pat]} in
  let f := if (0 <? userIdx pat)%nat then <["username"%string := capUsername (sub c (userIdx pat))]> f else f in
  let f := if (0 <? portIdx pat)%nat then <["port"%string := sub c (portIdx pat)]> f else f in
  if bool_decide (pid = EmptyString) then f else <["pid"%string := pid]> f.

Fixpoint matchMessage (pats : list sshPattern) (msg : string) (t : time) (origin pid : string) : option Event :=
  match pats with
  | [] => None
  | pat :: pats =>
      match match_at (p_re pat) msg with
      | None => matchMessage pats msg t origin pid
      | Some c =>
          match parseIP (sub c (ipIdx pat)) with
          | None => None
          | Some ip => Some (MkEvent t ip (p_kind pat) (event_fields pat c pid) origin EmptyString)
          end
      end
  end.

Definition split_prefix (loc : location) (raw : string) (at_ : time) : time * string * string :=
  match match_at reSyslogPrefixISO raw with
  | Some c => (default at_ (parseISOTime (sub c 1)), sub c 2, sub c 3)
  | None =>
      match match_at reSyslogPrefix raw with
      | Some c => (default at_ (parseSSHTime loc (sub c 1) at_), sub c 2, sub c 3)
      | None => (at_, EmptyString, raw)
      end
  end.

Definition Parse (loc : location) (line : RawLine) : list Event :=
  match line_text line with
  | None => []
  | Some raw =>
      let '(t, pid, msg) := split_prefix loc raw (At line) in
      match matchMessage sshPatterns msg t (Source line) pid with Some ev => [ev] | None => [] end
  end.

Example parse_example :
  (λ ev : Event, (ev_Time ev, SourceIP ev, Kind ev, Fields ev !! "username"%string, Fields ev !! "pid"%string, Fields ev !! "port"%string)) <$>
  Parse utc (MkRaw "journald:ssh" "Jan  2 03:04:05 host sshd-session[77]: Failed password for invalid user root from 9.9.9.9 port 22 from 203.0.113.5 port 4711 ssh2"
    (10 * Second)) =
  [((- 365 + 1) * Day + 11045 * Second, Addr4 0xcb007105, kindInvalidUser, Some "root from 9.9.9.9 port 22"%string, Some "77"%string, Some "4711"%string)].
Proof. vm_compute. done. Qed.

Example parse_iso_example :
  (λ ev : Event, (ev_Time ev, Kind ev)) <$> Parse utc (MkRaw "file:/var/log/auth.log" "2026-07-13T22:57:35.182105+0200 h sshd[1]: Invalid user x from ::1 port 1" 0) =
  [(1783976255 * Second + 182105 * Microsecond, kindInvalidUser)].
Proof. vm_compute. done. Qed.

(** ** A name cannot move the blame *)
Lemma no_space_contains a s t : no_char " " a = true → str_contains (a +:+ s) (String " " t) = str_contains s (String " " t).
Proof.
  induction a as [|c a IH]; [done|]. cbn [no_char String.append str_contains has_prefix]. intros [Hc Ha]%andb_true_iff.
  apply negb_true_iff, bool_decide_eq_false_1 in Hc. rewrite decide_False by done. by apply IH.
Qed.

Lemma first_space a b s t : no_char " " a = true → no_char " " b = true → a +:+ String " " s = b +:+ String " " t → a = b ∧ s = t.
Proof.
  revert b. induction a as [|c a IH]; intros [|d b]; cbn [no_char String.append].
  - by intros _ _ [= ->].
  - intros _ Hd [= <- _]. done.
  - intros Hc _ [= -> _]. done.
  - intros [_ Ha]%andb_true_iff [_ Hb]%andb_true_iff [= -> E]. by destruct (IH b Ha Hb E) as [-> ->].
Qed.

Section blame.
Context (sep R P tail : string).
Context (Hsep : sep = " from "%string ∨ sep = " "%string).
Context (HR : str_forall ipch R = true) (HR0 : R ≠ EmptyString).
Context (HP : str_forall re_digit P = true) (HP0 : P ≠ EmptyString).
Context (Htail : str_contains tail " port " = false).

Definition rest : string := sep +:+ R +:+ " port " +:+ P +:+ tail.

Lemma ip_no_space : no_char " " R = true.
Proof. by apply (no_char_forall _ ipch). Qed.
Lemma port_no_space : no_char " " P = true.
Proof. by apply (no_char_forall _ re_digit). Qed.

Lemma head_not_p (Q : ascii → bool) s : Q "p"%char = false → str_forall Q s = true → s ≠ EmptyString → ∃ a t, s = String a t ∧ a ≠ "p"%char.
Proof. destruct s as [|a t]; [done|]. simpl. intros Hq [Ha _]%andb_true_iff _. exists a, t. split; [done|]. intros ->. congruence. Qed.

Lemma later_port : str_contains ("port " +:+ P +:+ tail) " port " = false.
Proof.
  destruct (head_not_p re_digit P) as (a & t & EP & Ha); [done..|].
  pose proof (no_space_contains P tail "port " port_no_space) as HC. rewrite Htail in HC.
  rewrite EP in *. cbn -[has_prefix]. cbn -[str_contains]. rewrite (decide_False (P := "p"%char = a)) by congruence. cbn -[str_contains]. done.
Qed.

Lemma early_port : str_contains (sep +:+ R) " p" = false.
Proof.
  destruct (head_not_p ipch R) as (a & t & ER & Ha); [done..|].
  pose proof (no_space_contains R EmptyString "p" ip_no_space) as HC. rewrite str_app_nil_r in HC. rewrite ER in *.
  destruct Hsep as [-> | ->]; cbn -[str_contains]; cbn -[has_prefix]; cbn -[str_contains];
    rewrite ?(decide_False (P := "p"%char = a)) by congruence; cbn -[str_contains]; done.
Qed.

Lemma port_unique x y : rest = x +:+ " port " +:+ y → x = sep +:+ R.
Proof.
  intros E. unfold rest in E. rewrite <- (str_app_assoc sep R) in E.
  destruct (le_lt_dec (str_len (sep +:+ R)) (str_len x)) as [Hl|Hl].
  - destruct (app_split _ _ _ _ E Hl) as (w & -> & Ew). destruct w as [|c w]; [by rewrite str_app_nil_r|].
    injection Ew as <- Ew. exfalso. assert (str_contains ("port " +:+ P +:+ tail) " port " = true) as H; [|by rewrite later_port in H].
    apply str_contains_spec. exists w, y. done.
  - symmetry in E. destruct (app_split _ _ _ _ E) as (w & Ew & E2); [lia|]. exfalso.
    assert (str_contains (sep +:+ R) " p" = true) as H; [|by rewrite early_port in H].
    destruct w as [|c [|d w]].
    + rewrite str_app_nil_r in Ew. rewrite Ew in Hl. lia.
    + simpl in E2. injection E2 as <- _. assert (no_char " " R = true) as Hn by apply ip_no_space.
      destruct (app_split sep R x " ") as (w & -> & Ew2); [done| |].
      { apply (f_equal str_len) in Ew. rewrite !str_length_app in Ew. destruct R; [done|]. simpl in *. lia. }
      rewrite Ew2, no_char_app in Hn. simpl in Hn. by rewrite andb_false_r in Hn.
    + simpl in E2. injection E2 as <- <- _. apply str_contains_spec. exists x, w. done.
Qed.

Definition after_user : re := cats [Str sep; Grp 2 (plus ipch); Str " port "; Grp 3 port_digits].

Lemma later_none u v prev c : rest = u +:+ v → u ≠ EmptyString → exec after_user prev v c (λ _ _ c, Some c) = None.
Proof.
  intros E Hu. destruct (exec _ _ _ _ _) as [x|] eqn:Ex; [|done]. exfalso. unfold after_user in Ex. cbn [cats exec] in Ex.
  destruct (has_prefix sep v) eqn:Ep; [|done]. apply has_prefix_split in Ep.
  apply rep_greedy_sound in Ex as (ips & v2 & prev2 & E2 & Hips & _ & Ex).
  destruct (has_prefix " port " v2) eqn:Ep2; [|done]. apply has_prefix_split in Ep2. rewrite Ep, E2, Ep2 in E.
  assert (rest = (u +:+ sep +:+ ips) +:+ " port " +:+ str_drop (str_len " port ") v2) as E3.
  { rewrite E. by rewrite !str_app_assoc. }
  apply port_unique in E3. clear Ex Ep Ep2 E E2.
  assert (∃ s0, sep = s0 +:+ " ") as (s0 & Es) by (destruct Hsep as [-> | ->]; [by exists " from"%string|by exists EmptyString]).
  symmetry in E3. rewrite <- (str_app_assoc u) in E3. apply app_split in E3 as (w & Ew & ER).
  2: { rewrite str_length_app. destruct u; [done|]. simpl. lia. }
  rewrite Es in Ew at 1. rewrite <- str_app_assoc in Ew. symmetry in Ew. apply app_split in Ew as (w1 & _ & ->).
  2: { rewrite Es, !str_length_app. destruct u; [done|]. simpl. lia. }
  rewrite ER in HR. rewrite !str_forall_app in HR. simpl in HR. bool_hyps. done.
Qed.

Lemma after_user_hit prev c : ∃ p, exec after_user prev rest c (λ _ _ c, Some c) = Some ((3%nat, p) :: (2%nat, R) :: c).
Proof.
  unfold after_user, rest, plus. cbn [cats exec]. rewrite has_prefix_app, str_drop_app.
  assert (∀ prev v c, ∃ p, (λ prev0 s c0, if has_prefix " port " s then exec (Grp 3 port_digits) (last_char prev0 " port ") (str_drop (str_len " port ") s) c0 (λ _ _ c, Some c) else None)
    prev (" port " +:+ P +:+ v) c = Some ((3%nat, p) :: c)) as Hport.
  { intros prev' v c'. cbv beta. rewrite has_prefix_app, str_drop_app. cbn [exec port_digits digits_n]. destruct P as [|d P']; [done|].
    assert (re_digit d = true) as Hd by (simpl in HP; by apply andb_true_iff in HP as [? _]).
    unfold port_digits, digits_n. cbn [exec String.append rep_greedy]. rewrite Hd. cbn [pred option_map].
    set (k := λ _ t0 c'0, Some ((3%nat, _) :: c'0)).
    destruct (rep_greedy_total re_digit k (λ _ _ _, ltac:(by eexists)) (P' +:+ v) (Some 4%nat) (Some d) c') as [x Hx]. rewrite Hx.
    apply rep_greedy_sound in Hx as (u1 & v1 & pr & _ & _ & _ & Hx). injection Hx as <-. eauto. }
  destruct (Hport (last_char (last_char prev sep) R) tail ((2%nat, R) :: c)) as (p & Hp). exists p.
  apply rep_greedy_run; [done|destruct R; simpl; [done|lia]|done|by intros d t [= <- _]|].
  rewrite str_take_prefix. exact Hp.
Qed.

(** The whole of a name and what sshd wrote after it. *)
Lemma user_hit u prev c : str_forall re_any u = true → u ≠ EmptyString →
  ∃ p, exec (cats (user_ip_port sep)) prev (u +:+ rest) c (λ _ _ c, Some c) = Some ((3%nat, p) :: (2%nat, R) :: (1%nat, u) :: c).
Proof.
  intros Hu Hu0. destruct (after_user_hit (last_char prev u) ((1%nat, str_take (str_len (u +:+ rest) - str_len rest) (u +:+ rest)) :: c)) as (p & Hp).
  exists p. rewrite str_take_prefix in Hp. unfold user_ip_port, plus. cbn [cats].
  change (Cat (Str sep) _) with after_user. cbn [exec].
  apply rep_greedy_longest; [done|destruct u; [done|simpl; lia]| |].
  - rewrite str_take_prefix. exact Hp.
  - intros u' v prev' E Hne _. by apply (later_none u').
Qed.

(** A text that starts no earlier than what sshd wrote matches nothing. *)
Lemma suffix_none u v prev c : rest = u +:+ v → exec (cats (user_ip_port sep)) prev v c (λ _ _ c, Some c) = None.
Proof.
  intros E. unfold user_ip_port, plus. cbn [cats]. change (Cat (Str sep) _) with after_user. cbn [exec].
  apply rep_greedy_none. intros u' v' prev' -> Hlen _. apply (later_none (u +:+ u')).
  - by rewrite str_app_assoc.
  - destruct u; [|done]. destruct u'; [simpl in Hlen; lia|done].
Qed.

(** Where matching can have come to: inside the name, or inside what sshd wrote. *)
Definition reached (v : string) : Prop :=
  (∃ w, str_forall re_any w = true ∧ v = w +:+ rest) ∨ ∃ u, rest = u +:+ v.

Lemma reached_drop u v : reached (u +:+ v) → reached v.
Proof.
  intros [(w & Hw & E)|(x & E)]; [|right; exists (x +:+ u); by rewrite str_app_assoc].
  destruct (le_lt_dec (str_len u) (str_len w)) as [Hl|Hl].
  - destruct (app_split _ _ _ _ E Hl) as (w' & -> & ->). left. exists w'. rewrite str_forall_app in Hw. by apply andb_true_iff in Hw as [_ ?].
  - symmetry in E. apply app_split in E as (x & _ & E); [|lia]. right. by exists x.
Qed.

Definition pinned (o : option (list (nat * string))) : Prop := match o with Some c => sub c 2 = R | None => True end.

Lemma user_pinned prev v : reached v → pinned (exec (cats (user_ip_port sep)) prev v [] (λ _ _ c, Some c)).
Proof.
  intros [(w & Hw & ->)|(u & E)]; [|by rewrite (suffix_none u)].
  destruct (decide (w = EmptyString)) as [->|Hne]; [by rewrite (suffix_none EmptyString)|].
  destruct (user_hit w prev [] Hw Hne) as (p & ->). done.
Qed.

Lemma str_pinned h r prev v : (∀ prev v, reached v → pinned (exec r prev v [] (λ _ _ c, Some c))) →
  reached v → pinned (exec (Cat (Str h) r) prev v [] (λ _ _ c, Some c)).
Proof.
  intros Hr Hv. cbn [exec]. destruct (has_prefix h v) eqn:E; [|done]. apply Hr. apply (reached_drop h). by rewrite <- (has_prefix_split _ _ E).
Qed.

(** Whatever pattern with a name matches, it captures the address sshd wrote. *)
Lemma from_pinned h prev v : reached v → pinned (exec (cats (Str h :: user_ip_port sep)) prev v [] (λ _ _ c, Some c)).
Proof. apply str_pinned, user_pinned. Qed.

Lemma from_hit h u : str_forall re_any u = true → u ≠ EmptyString →
  ∃ p, match_at (cats (Str h :: user_ip_port sep)) (h +:+ u +:+ rest) = Some [(3%nat, p); (2%nat, R); (1%nat, u)].
Proof.
  intros Hu Hne. unfold match_at. change (cats (Str h :: user_ip_port sep)) with (Cat (Str h) (cats (user_ip_port sep))).
  rewrite exec_lead. by apply user_hit.
Qed.

Lemma method_hit verb M for_ u : str_forall re_nonspace M = true → M ≠ EmptyString →
  str_forall re_any u = true → u ≠ EmptyString →
  ∃ p, match_at (cats (Str verb :: plus re_nonspace :: Str (String " " for_) :: user_ip_port sep)) (verb +:+ M +:+ String " " for_ +:+ u +:+ rest) =
    Some [(3%nat, p); (2%nat, R); (1%nat, u)].
Proof.
  intros HM HM0 Hu Hne. unfold match_at.
  change (cats (Str verb :: plus re_nonspace :: Str (String " " for_) :: user_ip_port sep))
    with (Cat (Str verb) (Cat (plus re_nonspace) (Cat (Str (String " " for_)) (cats (user_ip_port sep))))).
  rewrite exec_lead. destruct (user_hit u (last_char (last_char (last_char None verb) M) (String " " for_)) [] Hu Hne) as (p & Hp). exists p.
  rewrite <- exec_lead in Hp. unfold plus. cbn [exec]. cbn [exec] in Hp. apply rep_greedy_run; [done|destruct M; [done|simpl; lia]|done|by intros d t [= <- _]|exact Hp].
Qed.

(** A name that is not one of "invalid user" is not read as one. *)
Lemma not_invalid M u : str_forall re_nonspace M = true → (∀ v, u = "invalid user " +:+ v → v = EmptyString) →
  match_at (cats (Str "Failed " :: plus re_nonspace :: Str " for invalid user " :: user_ip_port sep)) ("Failed " +:+ M +:+ " for " +:+ u +:+ rest) = None.
Proof.
  intros HM Hu. unfold match_at.
  change (cats (Str "Failed " :: plus re_nonspace :: Str " for invalid user " :: user_ip_port sep))
    with (Cat (Str "Failed ") (Cat (plus re_nonspace) (Cat (Str " for invalid user ") (cats (user_ip_port sep))))).
  rewrite exec_lead. unfold plus. cbn [exec]. destruct (rep_greedy _ _ _ _ _ _ _) as [x|] eqn:E; [|done]. exfalso.
  apply rep_greedy_sound in E as (m & w & prev & Es & Hm & _ & Ex). destruct (has_prefix " for invalid user " w) eqn:Ep; [|done].
  apply has_prefix_split in Ep. rewrite Ep in Es. set (y := str_drop _ w) in *.
  destruct (first_space M m ("for " +:+ u +:+ rest) ("for invalid user " +:+ y)) as [_ Ey]; [by apply (no_char_forall _ re_nonspace)..|done|].
  assert (u +:+ rest = "invalid user " +:+ y) as Ey' by (simpl in Ey; by simplify_eq). clear Ey.
  destruct (le_lt_dec (str_len "invalid user ") (str_len u)) as [Hl|Hl].
  - symmetry in Ey'. apply app_split in Ey' as (v & -> & Ev); [|exact Hl]. rewrite (Hu v eq_refl) in Ev. rewrite Ev in Ex.
    by rewrite (suffix_none EmptyString) in Ex.
  - apply app_split in Ey' as (v & _ & Ev); [|lia]. by rewrite (suffix_none v) in Ex.
Qed.
End blame.

(** What sshd writes around a name: the head, the separator, the kind counted.
    The text between "for " and " from " of a failed attempt is a name, or
    "invalid user " and a name. *)
Inductive written (user : string) : string → string → string → Prop :=
| w_failed M : str_forall re_nonspace M = true → M ≠ EmptyString → (∀ v, user = "invalid user " +:+ v → v = EmptyString) →
    written user ("Failed " +:+ M +:+ " for ") " from " kindFail
| w_failed_invalid M : str_forall re_nonspace M = true → M ≠ EmptyString →
    written user ("Failed " +:+ M +:+ " for invalid user ") " from " kindInvalidUser
| w_accepted M : str_forall re_nonspace M = true → M ≠ EmptyString → written user ("Accepted " +:+ M +:+ " for ") " from " kindAccept
| w_invalid : written user "Invalid user " " from " kindInvalidUser
| w_max : written user "error: maximum authentication attempts exceeded for " " from " kindProbe
| w_by h : h ∈ ["Connection closed by invalid user "; "Connection reset by invalid user "; "Disconnected from invalid user ";
    "Disconnecting invalid user "; "Connection closed by authenticating user "; "Connection reset by authenticating user ";
    "Disconnected from authenticating user "; "Disconnecting authenticating user "]%string → written user h " " kindProbe.

Definition lead_ok (r : re) (msg : string) : bool := match r with Cat (Str h) _ => has_prefix h msg | _ => true end.

Lemma lead_ok_None r msg : lead_ok r msg = false → match_at r msg = None.
Proof. intros H. destruct r as [| |a b| | | | |]; try done. destruct a; try done. unfold match_at. simpl in *. by rewrite H. Qed.

Lemma matchMessage_skip pre pats msg t origin pid : forallb (λ p, negb (lead_ok (p_re p) msg)) pre = true →
  matchMessage (pre ++ pats) msg t origin pid = matchMessage pats msg t origin pid.
Proof.
  induction pre as [|p pre IH]; [done|]. cbn [forallb app matchMessage]. intros [Hp Hpre]%andb_true_iff.
  rewrite lead_ok_None by (by apply negb_true_iff). by apply IH.
Qed.

Section counted.
Context (loc : location) (line : RawLine) (raw : string) (t : time) (pid : string).
Context (user R port tail : string) (a : addr).
Context (Hu0 : user ≠ EmptyString) (Hu : str_forall re_any user = true).
Context (HR : str_forall ipch R = true) (Ha : ParseAddr R = Some a).
Context (HP : str_forall re_digit port = true) (HP0 : port ≠ EmptyString) (Htail : str_contains tail " port " = false).

Lemma R_nonempty : R ≠ EmptyString.
Proof. by intros ->. Qed.

Definition counted (kind : string) (o : option Event) : Prop :=
  ∃ ev, o = Some ev ∧ SourceIP ev = a ∧ Kind ev = kind ∧ Origin ev = Source line ∧ ev_Time ev = t.

Lemma counted_here kd pat pats c msg : match_at (p_re pat) msg = Some c → ipIdx pat = 2%nat → sub c 2 = R → p_kind pat = kd →
  counted kd (matchMessage (pat :: pats) msg t (Source line) pid).
Proof. intros Hm Hi Hc Hk. cbn [matchMessage]. rewrite Hm, Hi, Hc, parseIP_plain, Ha by done. eexists. by split_and!. Qed.

Lemma counted_next kd pat pats msg : match_at (p_re pat) msg = None →
  counted kd (matchMessage pats msg t (Source line) pid) → counted kd (matchMessage (pat :: pats) msg t (Source line) pid).
Proof. intros Hm H. cbn [matchMessage]. by rewrite Hm. Qed.

Lemma counted_skip n kd msg : forallb (λ p, negb (lead_ok (p_re p) msg)) (take n sshPatterns) = true →
  counted kd (matchMessage (drop n sshPatterns) msg t (Source line) pid) → counted kd (matchMessage sshPatterns msg t (Source line) pid).
Proof. intros Hp H. rewrite <- (take_drop n sshPatterns). by rewrite matchMessage_skip. Qed.

(** A pattern of one head, alone or behind the one for names nobody has. *)
Lemma counted_from sep n kd h kind sub_ : sep = " from "%string ∨ sep = " "%string →
  forallb (λ p, negb (lead_ok (p_re p) (h +:+ user +:+ rest sep R port tail))) (take n sshPatterns) = true →
  sshPatterns !! n = Some (MkPattern (cats (Str h :: user_ip_port sep)) kind sub_ 1 2 3) → kind = kd →
  counted kd (matchMessage sshPatterns (h +:+ user +:+ rest sep R port tail) t (Source line) pid).
Proof.
  intros Hsep Hpre Hn Hk. apply (counted_skip n); [done|]. rewrite (drop_S _ _ _ Hn).
  destruct (from_hit sep R port tail Hsep HR R_nonempty HP HP0 Htail h user Hu Hu0) as (p & Hp). by eapply counted_here.
Qed.

Lemma written_counted sep head kd : written user head sep kd →
  counted kd (matchMessage sshPatterns (head +:+ user +:+ rest sep R port tail) t (Source line) pid).
Proof.
  assert (∀ h, str_forall re_any h = true → reached sep R port tail (h +:+ user +:+ rest sep R port tail)) as Hreach.
  { intros h Hh. left. exists (h +:+ user). by rewrite str_forall_app, Hh, Hu, str_app_assoc. }
  assert (∀ M verb for_, str_forall re_nonspace M = true → str_forall re_any verb = true → str_forall re_any for_ = true →
    str_forall re_any (verb +:+ M +:+ for_) = true) as Hany.
  { intros M verb for_ HM Hv Hf. rewrite !str_forall_app, Hv, Hf, andb_true_r. eapply str_forall_impl; [|exact HM].
    intros c. by destruct c as [[] [] [] [] [] [] [] []]. }
  intros Hw. destruct Hw as [M HM HM0 Hinv|M HM HM0|M HM HM0| | |h Hh].
  - rewrite !str_app_assoc. apply counted_next; [apply (not_invalid " from " R port tail); (done || by left || apply R_nonempty)|].
    destruct (method_hit " from " R port tail (or_introl eq_refl) HR R_nonempty HP HP0 Htail "Failed " M "for " user) as (p & Hp); [done..|].
    by eapply counted_here; [exact Hp|..].
  - rewrite !str_app_assoc.
    destruct (method_hit " from " R port tail (or_introl eq_refl) HR R_nonempty HP HP0 Htail "Failed " M "for invalid user " user) as (p & Hp); [done..|].
    by eapply counted_here; [exact Hp|..].
  - rewrite !str_app_assoc. apply (counted_skip 26); [done|].
    destruct (method_hit " from " R port tail (or_introl eq_refl) HR R_nonempty HP HP0 Htail "Accepted " M "for " user) as (p & Hp); [done..|].
    by eapply counted_here; [exact Hp|..].
  - eapply (counted_from " from " 2); [by left|done|done|done].
  - set (h := "error: maximum authentication attempts exceeded for "%string). apply (counted_skip 4); [done|].
    set (msg := (_ +:+ user +:+ _)).
    assert (pinned R (match_at (p_re (from_pat "error: maximum authentication attempts exceeded for invalid user " kindProbe "max_attempts")) msg)) as Hpin.
    { apply (from_pinned " from " R port tail); [by left|done|apply R_nonempty|done..|by apply Hreach]. }
    destruct (match_at _ msg) as [c|] eqn:E; [by eapply counted_here; [exact E|..]|].
    eapply counted_next; [exact E|]. destruct (from_hit " from " R port tail (or_introl eq_refl) HR R_nonempty HP HP0 Htail h user) as (p & Hp); [done..|].
    by eapply counted_here; [exact Hp|..].
  - assert (∃ n s, forallb (λ p, negb (lead_ok (p_re p) (h +:+ user +:+ rest " " R port tail))) (take n sshPatterns) = true ∧ sshPatterns !! n = Some (by_pat h s)) as (n & s & Hpre & Hn).
    { repeat (apply elem_of_cons in Hh as [->|Hh]); [..|by apply elem_of_nil in Hh];
        [exists 7%nat|exists 8%nat|exists 9%nat|exists 10%nat|exists 11%nat|exists 12%nat|exists 13%nat|exists 14%nat]; eexists; done. }
    eapply (counted_from " " n); [by right|done|exact Hn|done].
Qed.
End counted.

(** C26. A user name cannot move the blame: on every line that sshd writes about a
    name (a failed, accepted or excessive attempt, an unknown user, a connection
    ended while authenticating), whatever the name is as long as it is not empty
    and has no line feed, exactly one event is counted, for the address sshd wrote
    after the name, at the time of the line, of the kind of the line: a failed
    attempt for "invalid user" and a name counts as an unknown user, any other as a
    failure.  (An "Invalid user" line with the empty name counts no event.) *)
Theorem ssh_source_pinned (loc : location) (line : RawLine) raw t pid head sep kind user R port tail a :
  line_text line = Some raw → split_prefix loc raw (At line) = (t, pid, head +:+ user +:+ sep +:+ R +:+ " port " +:+ port +:+ tail) →
  written user head sep kind → user ≠ EmptyString → str_forall re_any user = true →
  str_forall ipch R = true → ParseAddr R = Some a → port ≠ EmptyString → str_forall re_digit port = true →
  str_contains tail " port " = false →
  ∃ ev, Parse loc line = [ev] ∧ SourceIP ev = a ∧ Kind ev = kind ∧ Origin ev = Source line ∧ ev_Time ev = t.
Proof.
  intros Hline Hsplit Hw Hu0 Hu HR Ha HP0 HP Htail. unfold Parse. rewrite Hline, Hsplit.
  destruct (written_counted line t pid user R port tail a Hu0 Hu HR Ha HP HP0 Htail sep head kind Hw) as (ev & E & H).
  change (sep +:+ R +:+ " port " +:+ port +:+ tail) with (rest sep R port tail). rewrite E. by exists ev.
Qed.

Definition sample_line : RawLine := MkRaw "journald:ssh"
  "Jan  2 03:04:05 host sshd[77]: Failed password for root from 9.9.9.9 port 22 from 203.0.113.5 port 4711 ssh2" (40 * Day).

Theorem ssh_source_pinned_witness :
  ∃ ev, Parse utc sample_line = [ev] ∧ SourceIP ev = Addr4 0xcb007105 ∧ Kind ev = kindFail ∧
    Origin ev = "journald:ssh"%string ∧ ev_Time ev = Day + 11045 * Second.
Proof.
  apply (ssh_source_pinned utc sample_line (Line sample_line) (Day + 11045 * Second) "77" ("Failed " +:+ "password" +:+ " for ") " from "
    kindFail "root from 9.9.9.9 port 22" "203.0.113.5" "4711" " ssh2" (Addr4 0xcb007105)).
  - vm_compute. reflexivity.
  - vm_compute. reflexivity.
  - apply (w_failed _ "password"); [done|done|]. intros v E. discriminate E.
  - done.
  - vm_compute. reflexivity.
  - vm_compute. reflexivity.
  - vm_compute. reflexivity.
  - done.
  - vm_compute. reflexivity.
  - vm_compute. reflexivity.
Defined.

(** sshd writes two blanks around an empty name: no pattern takes the line of an
    unknown user then, nor that of a connection closed by one. *)
Lemma empty_name_uncounted : Forall (λ msg, Parse utc (MkRaw "journald:ssh" msg 0) = [])
  ["Invalid user  from 203.0.113.5 port 4711"; "Connection closed by invalid user  203.0.113.5 port 4711 [preauth]"]%string.
Proof. repeat constructor; vm_compute; reflexivity. Qed.
