(* ===== verification/ParserHTTP.v ===== *)
(** The HTTP parsers: [nginx.go] (and Apache's access log), [caddy.go],
    [traefik.go], [apache_error.go].

    A custom nginx format is a function from the line to its named groups. *)
From Stdlib Require Import Ascii.
From S2P Require Import Prelude Netip NetipParse GoStrings GoUtf8 GoNet Regex Json Sdk ParserCore.
#[local] Open Scope Z_scope.

Definition Q : re := Str (String quote EmptyString).
Definition notq : ascii → bool := λ a, negb (bool_decide (a = quote)).
Definition notrb : ascii → bool := not_in "]".
Definition upper : ascii → bool := rng 65 90.
Definition sp : re := plus re_space.
Definition field : re := plus re_nonspace.

(** The part the formats share: address, user, time, request, status, bytes. *)
Definition clf_head : list re :=
  [Grp 1 field; sp; Str "-"; sp; field; sp; Str "["; plus notrb; Str "]"; sp;
   Q; Grp 2 (Rep true upper 1 (Some 16%nat)); sp; Grp 3 field; sp; field; Q; sp;
   Grp 4 (Rep true re_digit 1 (Some 3%nat)); sp; Grp 5 (Alt (plus re_digit) (Str "-"))].
Definition referer_ua : list re := [sp; Q; star notq; Q; sp; Q; Grp 6 (star notq); Q].

Definition reNginxCombined : re := cats (clf_head ++ referer_ua).
Definition reNginxVhostCombined : re := cats ([field; sp] ++ clf_head ++ referer_ua).
Definition reCaddyCLF : re := cats clf_head.
Definition reTraefikCLF : re := cats (clf_head ++ referer_ua ++
  [sp; plus re_digit; sp; Q; Grp 7 (star notq); Q; sp; Q; Grp 8 (star notq); Q; sp; Grp 9 field]).

Definition req_event (line : RawLine) (ip : addr) (fields : gmap string string) : Event := mk_event line ip "http_request" fields.
Definition opt_event (o : option Event) : list Event := match o with Some ev => [ev] | None => [] end.

Module Nginx.
Record NginxConfig := MkNginx { TrustedProxies : list prefix; CustomFormats : list (string → option (gmap string string)) }.

Definition Matches (source : string) : bool :=
  bool_decide (source = "journald:nginx"%string) || str_contains source "/nginx/" || has_prefix "nginx:" source || has_prefix "apache:" source.

Definition nginxFields (method path status bytesSent ua : string) : gmap string string := list_to_map [
  ("method", capField method maxMethodBytes); ("path", capField path maxPathBytes); ("status", status);
  ("bytes", bytesSent); ("ua", capField ua maxUABytes)]%string.

Definition splitHTTPRequest (req : string) : string * string :=
  if bool_decide (req = EmptyString) || bool_decide (req = "-"%string) then (EmptyString, EmptyString)
  else match cut " " req with
       | (method, Some rest) => (method, (cut " " rest).1)
       | (_, None) => (EmptyString, EmptyString)
       end.

Definition parse_with (r : re) (line : RawLine) (raw : string) : option Event :=
  m ← match_at r raw;
  ip ← parseIP (sub m 1);
  Some (req_event line ip (nginxFields (sub m 2) (sub m 3) (sub m 4) (sub m 5) (sub m 6))).
Definition parseCombined := parse_with reNginxCombined.
Definition parseVhostCombined := parse_with reNginxVhostCombined.

Definition parseJSON (cfg : NginxConfig) (line : RawLine) (raw : string) : option Event :=
  obj ← parse_json raw ≫= as_object;
  let remoteAddr := jsonString obj ["remote_addr"; "client"]%string in
  if bool_decide (remoteAddr = EmptyString) then None else
  ip ← parseIP remoteAddr;
  let ip := resolveXFF (TrustedProxies cfg) ip (jsonString obj ["http_x_forwarded_for"; "x_forwarded_for"]%string) in
  let '(method, path) := splitHTTPRequest (jsonString obj ["request"]%string) in
  Some (req_event line ip (nginxFields method path (jsonString obj ["status"]%string)
    (jsonString obj ["body_bytes_sent"; "bytes_sent"]%string) (jsonString obj ["http_user_agent"; "user_agent"; "agent"]%string))).

Definition named (m : gmap string string) (k : string) : string := default EmptyString (m !! k).

Fixpoint parseCustom (ps : list prefix) (formats : list (string → option (gmap string string))) (line : RawLine) (raw : string) : option Event :=
  match formats with
  | [] => None
  | f :: fs =>
      match f raw with
      | None => parseCustom ps fs line raw
      | Some m =>
          if bool_decide (named m "remote_addr" = EmptyString) then parseCustom ps fs line raw else
          match parseIP (named m "remote_addr") with
          | None => parseCustom ps fs line raw
          | Some ip => Some (req_event line (resolveXFF ps ip (named m "xff"))
              (nginxFields (named m "method") (named m "path") (named m "status") (named m "bytes") (named m "ua")))
          end
      end
  end.

Definition Parse (cfg : NginxConfig) (line : RawLine) : list Event :=
  match http_text line with
  | None => []
  | Some raw => opt_event
      (if starts "{" raw then parseJSON cfg line raw
       else match parseCombined line raw with
            | Some ev => Some ev
            | None => match parseVhostCombined line raw with
                      | Some ev => Some ev
                      | None => parseCustom (TrustedProxies cfg) (CustomFormats cfg) line raw
                      end
            end)
  end.
End Nginx.

Module Caddy.
Definition maxHostBytes : nat := 256.

Definition Matches (source : string) : bool :=
  bool_decide (source = "journald:caddy"%string) || str_contains source "/caddy/" || has_prefix "caddy:" source.

Definition caddyFields (method path status bytesSent ua host duration : string) : gmap string string := list_to_map [
  ("method", capField method maxMethodBytes); ("path", capField path maxPathBytes); ("status", status); ("bytes", bytesSent);
  ("ua", capField ua maxUABytes); ("host", capField host maxHostBytes); ("duration", duration)]%string.

(** The first of the names present with a list or a text. *)
Fixpoint header (pick : list string → string) (headers : gmap string json) (keys : list string) : string :=
  match keys with
  | [] => EmptyString
  | k :: ks =>
      match headers !! k with
      | None => header pick headers ks
      | Some v =>
          match as_strings v with
          | Some (x :: xs) => pick (x :: xs)
          | _ => match as_string v with Some s => s | None => header pick headers ks end
          end
      end
  end.
Definition headerFirstString := header (λ l, default EmptyString (head l)).
Definition headerJoined := header (λ l, Join l ", ").

Definition extractCaddyHeaders (req : gmap string json) : string * string :=
  match req !! "headers"%string ≫= as_object with
  | None => (EmptyString, EmptyString)
  | Some headers => (headerFirstString headers ["User-Agent"; "user-agent"]%string,
                     headerJoined headers ["X-Forwarded-For"; "x-forwarded-for"]%string)
  end.

Definition parseCLF (line : RawLine) (raw : string) : option Event :=
  m ← match_at reCaddyCLF raw;
  ip ← parseIP (sub m 1);
  Some (req_event line ip (caddyFields (sub m 2) (sub m 3) (sub m 4) (sub m 5) EmptyString EmptyString EmptyString)).

Definition parseJSON (ps : list prefix) (line : RawLine) (raw : string) : option Event :=
  obj ← parse_json raw ≫= as_object;
  reqRaw ← obj !! "request"%string;
  req ← as_object reqRaw;
  let remoteIP := jsonString req ["remote_ip"]%string in
  if bool_decide (remoteIP = EmptyString) then None else
  ip ← parseIP remoteIP;
  let '(ua, xff) := extractCaddyHeaders req in
  Some (req_event line (resolveXFF ps ip xff)
    (caddyFields (jsonString req ["method"]%string) (jsonString req ["uri"]%string) (jsonString obj ["status"]%string)
       (jsonString obj ["size"]%string) ua (jsonString req ["host"]%string) (jsonString obj ["duration"]%string))).

Definition Parse (ps : list prefix) (line : RawLine) : list Event :=
  match http_text line with
  | None => []
  | Some raw => opt_event (if starts "{" raw then parseJSON ps line raw else parseCLF line raw)
  end.
End Caddy.

Module Traefik.
Definition maxRouterBytes : nat := 128.
Definition maxServiceBytes : nat := 256.

Definition Matches (source : string) : bool :=
  bool_decide (source = "journald:traefik"%string) || str_contains source "/traefik/" || has_prefix "traefik:" source.

Definition traefikFields (method path status bytesSent ua router service duration : string) : gmap string string := list_to_map [
  ("method", capField method maxMethodBytes); ("path", capField path maxPathBytes); ("status", status); ("bytes", bytesSent);
  ("ua", capField ua maxUABytes); ("router", capField router maxRouterBytes); ("service", capField service maxServiceBytes); ("duration", duration)]%string.

Definition parseCLF (line : RawLine) (raw : string) : option Event :=
  m ← match_at reTraefikCLF raw;
  ip ← parseIP (sub m 1);
  Some (req_event line ip (traefikFields (sub m 2) (sub m 3) (sub m 4) (sub m 5) (sub m 6) (sub m 7) (sub m 8) (sub m 9))).

Definition client_host (obj : gmap string json) : string :=
  let host := jsonString obj ["ClientHost"]%string in
  if bool_decide (host = EmptyString) then
    let a := jsonString obj ["ClientAddr"]%string in
    match SplitHostPort a with Some (h, _) => h | None => a end
  else host.

Definition parseJSON (ps : list prefix) (line : RawLine) (raw : string) : option Event :=
  obj ← parse_json raw ≫= as_object;
  ip ← parseIP (client_host obj);
  Some (req_event line (resolveXFF ps ip (jsonString obj ["request_X-Forwarded-For"; "RequestXForwardedFor"]%string))
    (traefikFields (jsonString obj ["RequestMethod"]%string) (jsonString obj ["RequestPath"]%string)
       (jsonString obj ["DownstreamStatus"]%string) (jsonString obj ["DownstreamContentSize"]%string)
       (jsonString obj ["request_User-Agent"; "RequestUserAgent"]%string) (jsonString obj ["RouterName"]%string)
       (jsonString obj ["ServiceName"; "ServiceURL"]%string) (jsonString obj ["Duration"]%string))).

Definition Parse (ps : list prefix) (line : RawLine) : list Event :=
  match http_text line with
  | None => []
  | Some raw => opt_event (if starts "{" raw then parseJSON ps line raw else parseCLF line raw)
  end.
End Traefik.

Module ApacheError.
Definition maxApacheMsgBytes : nat := 512.

Definition reApacheError : re := cats
  [Str "["; plus notrb; Str "]"; sp; Str "["; Grp 1 (plus notrb); Str "]"; sp;
   opt (cats [Str "[pid"; plus notrb; Str "]"; sp]);
   Str "[client"; sp; Grp 2 (Rep false re_any 1 None); Str "]"; opt (Cat sp (Grp 3 (star re_any))); Eot].
Definition reApacheCode : re := cats [Grp 1 (Cat (Str "AH") (plus re_digit)); Str ":"; star re_space; Grp 2 (star re_any); Eot].

Definition Matches (source : string) : bool :=
  has_prefix "apache-error:" source || str_contains source "/apache2/error" || str_contains source "/httpd/error".

Definition splitApacheInfo (info : string) : string * string :=
  match cut ":" info with (l, Some r) => (l, r) | (_, None) => (EmptyString, info) end.

Definition splitApacheCode (msg : string) : string * string :=
  match match_at reApacheCode msg with Some m => (sub m 1, sub m 2) | None => (EmptyString, msg) end.

(** After the last colon, unless the text starts with it. *)
Definition before_port (s : string) : option addr :=
  match cut_last ":" s with
  | Some (before, _) => if bool_decide (before = EmptyString) then None else parseIP before
  | None => None
  end.

Definition parseApacheClientField (s : string) : option addr :=
  match ParseAddr s with
  | Some a => Some a
  | None =>
      match cut "]" s with
      | (before, Some _) =>
          if has_prefix "[" s && (1 <? str_len before)%nat then parseIP (str_drop 1 before) else before_port s
      | (_, None) => before_port s
      end
  end.

Definition Parse (line : RawLine) : list Event :=
  match line_text line with
  | None => []
  | Some raw => opt_event
      (m ← match_at reApacheError raw;
       ip ← parseApacheClientField (sub m 2);
       let '(module_, level) := splitApacheInfo (sub m 1) in
       let '(code, msg) := splitApacheCode (sub m 3) in
       Some (mk_event line ip "http_error" (list_to_map
         [("module", module_); ("level", level); ("code", code); ("msg", capField msg maxApacheMsgBytes)]%string)))
  end.
End ApacheError.

(** ** A line in the combined format is read back *)
Definition quoted (s : string) : string := String quote EmptyString +:+ s +:+ String quote EmptyString.

(** [$remote_addr - $remote_user \[$time_local\] "$request" $status $body_bytes_sent "$http_referer" "$http_user_agent"] *)
Definition combined_line (ip user time_ method path proto status bytes referer ua : string) : string :=
  ip +:+ " - " +:+ user +:+ " [" +:+ time_ +:+ "] " +:+ quoted (method +:+ " " +:+ path +:+ " " +:+ proto) +:+ " " +:+
  status +:+ " " +:+ bytes +:+ " " +:+ quoted referer +:+ " " +:+ quoted ua.

Definition word_ (s : string) : Prop := str_forall re_nonspace s = true ∧ s ≠ EmptyString.

Lemma nonempty_len s : s ≠ EmptyString → (1 ≤ str_len s)%nat.
Proof. destruct s; [done|]. simpl. lia. Qed.

Lemma head_of (P : ascii → bool) a s : str_forall P a = true → a ≠ EmptyString → (∀ d, P d = true → re_space d = false) →
  ∀ d t, a +:+ s = String d t → re_space d = false.
Proof. intros Ha H0 HP d t E. destruct a as [|c a]; [done|]. simpl in *. injection E as -> _. apply HP. by apply andb_true_iff in Ha as [? _]. Qed.

Lemma nonspace_head d : re_nonspace d = true → re_space d = false.
Proof. apply negb_true_iff. Qed.
Lemma upper_head d : upper d = true → re_space d = false.
Proof. by destruct d as [[] [] [] [] [] [] [] []]. Qed.
Lemma digit_head d : re_digit d = true → re_space d = false.
Proof. by destruct d as [[] [] [] [] [] [] [] []]. Qed.

#[local] Ltac side := first [done | by intros ? ? [= <- _] | by apply nonempty_len | simpl; lia
  | eapply head_of; [eassumption|assumption|first [exact nonspace_head|exact upper_head|exact digit_head]] | match goal with H : ∀ s d t, _ |- _ => apply H end].
#[local] Ltac piece := first [apply step_str | apply step_grp; [side..|] | apply step_run; [side..|]].

Section combined.
Context (ip user time_ method path proto status bytes referer ua : string).
Context (Hip : word_ ip) (Huser : word_ user) (Hpath : word_ path) (Hproto : word_ proto) (Hq : str_forall notq proto = true).
Context (Htime : str_forall notrb time_ = true) (Htime0 : time_ ≠ EmptyString).
Context (Hm : str_forall upper method = true) (Hm1 : (1 ≤ str_len method ≤ 16)%nat).
Context (Hs : str_forall re_digit status = true) (Hs1 : (1 ≤ str_len status ≤ 3)%nat).
Context (Hb : (str_forall re_digit bytes = true ∧ bytes ≠ EmptyString) ∨ bytes = "-"%string).
Context (Hr : str_forall notq referer = true) (Hua : str_forall notq ua = true).

Abbreviation line := (combined_line ip user time_ method path proto status bytes referer ua) (only parsing).

Lemma combined_matches : match_at reNginxCombined line =
  Some [(6%nat, ua); (5%nat, bytes); (4%nat, status); (3%nat, path); (2%nat, method); (1%nat, ip)].
Proof.
  destruct Hip, Huser, Hpath, Hproto. assert (method ≠ EmptyString) by (intros ->; simpl in Hm1; lia).
  assert (status ≠ EmptyString) by (intros ->; simpl in Hs1; lia).
  assert (∀ s d t, bytes +:+ s = String d t → re_space d = false) as Hbh.
  { intros s. destruct Hb as [[Hd Hd0] | ->]; [by eapply head_of; [exact Hd|done|exact digit_head]|]. by intros ? ? [= <- _]. }
  unfold match_at, reNginxCombined.
  change (cats (clf_head ++ referer_ua)) with
    (Cat (Grp 1 field) (Cat sp (Cat (Str "-") (Cat sp (Cat field (Cat sp (Cat (Str "[") (Cat (plus notrb) (Cat (Str "]") (Cat sp
     (Cat Q (Cat (Grp 2 (Rep true upper 1 (Some 16%nat))) (Cat sp (Cat (Grp 3 field) (Cat sp (Cat field (Cat Q (Cat sp
     (Cat (Grp 4 (Rep true re_digit 1 (Some 3%nat))) (Cat sp (Cat (Grp 5 (Alt (plus re_digit) (Str "-"))) (cats referer_ua)))))))))))))))))))))).
  replace line with (ip +:+ " " +:+ "-" +:+ " " +:+ user +:+ " " +:+ "[" +:+ time_ +:+ "]" +:+ " " +:+ String quote EmptyString +:+ method +:+ " " +:+ path +:+
    " " +:+ proto +:+ String quote EmptyString +:+ " " +:+ status +:+ " " +:+ bytes +:+ " " +:+ String quote EmptyString +:+ referer +:+
    String quote EmptyString +:+ " " +:+ String quote EmptyString +:+ ua +:+ String quote EmptyString)
    by (unfold combined_line, quoted; by rewrite !str_app_assoc).
  unfold field, sp, plus, Q. do 10 piece. apply step_str. do 4 piece.
  (* the closing quote is no blank, so the last run takes it and gives it back *)
  apply step_longest; [done|by apply nonempty_len| |].
  2: { intros u v prev' E Hu Pu. destruct u as [|d [|e u]]; [done| |].
       - simpl in E. by injection E as <- <-.
       - exfalso. simpl in E. injection E as <- <- E. done. }
  apply step_str. do 3 piece.
  assert (∀ prev c s x, exec (cats referer_ua) (last_char prev bytes) (" " +:+ s) ((5%nat, bytes) :: c) (λ _ _ c, Some c) = Some x →
    exec (Cat (Grp 5 (Alt (Rep true re_digit 1 None) (Str "-"))) (cats referer_ua)) prev (bytes +:+ " " +:+ s) c (λ _ _ c, Some c) = Some x) as Hbytes.
  { intros prev c s x E. destruct Hb as [[Hd Hd0] | ->]; cbn [exec].
    - erewrite rep_greedy_run; [done|done|by apply nonempty_len|done|by intros d t [= <- _]|]. rewrite str_take_prefix. exact E.
    - rewrite <- (str_take_prefix "-" (" " +:+ s)) in E. exact E. }
  apply Hbytes. unfold referer_ua, Q, sp, plus, star. cbn [cats].
  piece. apply step_str. piece. apply step_str. piece. apply step_str. piece.
  replace (String quote EmptyString) with (String quote EmptyString +:+ EmptyString) by done. by rewrite exec_str.
Qed.
End combined.

(** C29. A well-formed line of nginx's combined format is read back: one event, at
    the collection time, of the source it came from, for the address of the line,
    with the method, path, status, bytes and user agent it names (path and agent
    cut to their caps).  Well formed means: the user name, the path and the
    protocol are one word each, without blanks (a name with a blank hides the
    request), the method is 1 to 16 capital letters, the status 1 to 3 digits, the
    bytes digits or a dash, protocol, referer and agent have no quote, the time is
    not empty and has no bracket, and the line is within the length cap. *)
Theorem nginx_reads_back (cfg : Nginx.NginxConfig) ip user time_ method path proto status bytes referer ua src at_ a :
  str_forall ipch ip = true → ParseAddr ip = Some a → word_ user → word_ path → word_ proto → str_forall notq proto = true →
  str_forall notrb time_ = true → time_ ≠ EmptyString →
  str_forall upper method = true → (1 ≤ str_len method ≤ 16)%nat →
  str_forall re_digit status = true → (1 ≤ str_len status ≤ 3)%nat →
  (str_forall re_digit bytes = true ∧ bytes ≠ EmptyString) ∨ bytes = "-"%string →
  str_forall notq referer = true → str_forall notq ua = true →
  let text := combined_line ip user time_ method path proto status bytes referer ua in
  (str_len text ≤ maxLineBytes)%nat →
  Nginx.Parse cfg (MkRaw src text at_) =
    [MkEvent at_ a "http_request" (list_to_map [("method", method); ("path", capField path maxPathBytes); ("status", status);
       ("bytes", bytes); ("ua", capField ua maxUABytes)]%string) src EmptyString].
Proof.
  intros Hip Ha Hu Hp Hpr Hq Ht Ht0 Hm Hm1 Hs Hs1 Hb Hr Hua text Hlen.
  assert (word_ ip) as Hipw.
  { split; [|by intros ->]. eapply str_forall_impl; [|exact Hip]. intros c. by destruct c as [[] [] [] [] [] [] [] []]. }
  assert (∃ c s, text = String c s ∧ ipch c = true) as (c & s & E & Hc).
  { destruct ip as [|c ip]; [by destruct Hipw|]. simpl in Hip. apply andb_true_iff in Hip as [Hc _]. by exists c, (ip +:+ (str_drop (str_len ip) (str_drop 1 text))); unfold text, combined_line; simpl; rewrite str_drop_app. }
  assert (TrimEOL text = text) as Heol.
  { assert (∃ s, text = s +:+ String quote EmptyString) as (s' & ->).
    { unfold text, combined_line, quoted. eexists. rewrite <- !str_app_assoc. reflexivity. }
    by rewrite TrimEOL_app. }
  assert (http_text (MkRaw src text at_) = Some text) as Htext.
  { unfold http_text, line_text. simpl. rewrite (proj2 (Nat.ltb_ge _ _)) by done. rewrite Heol.
    assert (unwrap_docker text = text) as Hun. { rewrite E. unfold unwrap_docker. simpl. destruct c as [[] [] [] [] [] [] [] []]; done. }
    assert (blank_line text = false) as Hblank by (rewrite E; by apply blank_line_ip). rewrite Hblank. simpl. by rewrite Hun, Hblank. }
  unfold Nginx.Parse. rewrite Htext. assert (starts "{" text = false) as ->.
  { rewrite E. simpl. by destruct c as [[] [] [] [] [] [] [] []]. }
  unfold Nginx.parseCombined, Nginx.parse_with. unfold text. rewrite combined_matches by done. cbn [mbind option_bind].
  change (sub _ 1) with ip. rewrite parseIP_plain, Ha by done. cbn -[capField]. unfold Nginx.nginxFields.
  assert (capField method maxMethodBytes = method) as ->; [|done]. unfold capField, maxMethodBytes. by rewrite (proj2 (Nat.ltb_ge _ _)) by lia.
Qed.

Theorem nginx_reads_back_witness :
  Nginx.Parse (Nginx.MkNginx [] []) (MkRaw "nginx:/var/log/nginx/access.log"
    (combined_line "203.0.113.5" "-" "02/Jan/2026:03:04:05 +0000" "GET" "/wp-login.php" "HTTP/1.1" "404" "162" "-" "curl/8.0 (x)") 7) =
    [MkEvent 7 (Addr4 0xcb007105) "http_request" (list_to_map [("method", "GET"); ("path", capField "/wp-login.php" maxPathBytes); ("status", "404");
       ("bytes", "162"); ("ua", capField "curl/8.0 (x)" maxUABytes)]%string) "nginx:/var/log/nginx/access.log" EmptyString].
Proof.
  apply nginx_reads_back; try (vm_compute; done).
  - split; [vm_compute; lia|vm_compute; lia].
  - split; [vm_compute; lia|vm_compute; lia].
  - left. done.
  - vm_compute. lia.
Defined.

(** A blank in the name of Basic authentication, which nginx logs as it is, hides
    the request from the parser. *)
Lemma blank_user_evades cfg : Nginx.CustomFormats cfg = [] →
  Nginx.Parse cfg (MkRaw "nginx:/var/log/nginx/access.log"
    (combined_line "203.0.113.5" "a b" "02/Jan/2026:03:04:05 +0000" "POST" "/wp-login.php" "HTTP/1.1" "401" "162" "-" "-") 7) = [].
Proof. intros H. unfold Nginx.Parse. vm_compute (http_text _). cbn [starts]. rewrite H. vm_compute. done. Qed.
