(* ===== verification/ParserMail.v ===== *)
(** The mail-server parsers: [postfix.go] and [dovecot.go]. *)
From Stdlib Require Import Ascii.
From S2P Require Import Prelude Netip NetipParse GoStrings GoUtf8 Regex Sdk ParserCore.
#[local] Open Scope Z_scope.

Definition alnum_ : ascii → bool := λ a, rng 48 57 a || rng 65 90 a || rng 97 122 a || chars "._-" a.

Module Postfix.
Definition maxPostfixMethodBytes : nat := 32.
Definition maxPostfixUserBytes : nat := 64.

(** A host name nobody trusts, and the address between brackets. *)
Definition host_addr : list re :=
  [star (λ a, negb (re_space a) && negb (chars "[" a)); Str "["; Grp 1 (plus (not_in "]")); Str "]"].

Definition rePostfixAuthFail : re := cats ([Str "warning: "] ++ host_addr ++ [Str ": SASL "; Grp 2 (plus alnum_); Str " authentication failed"]).
Definition rePostfixRelayDenied : re := cats ([Str "NOQUEUE: reject: RCPT from "] ++ host_addr ++
  [Rep true (chars ":,") 1 (Some 1%nat); star re_any; Str "Relay access denied"]).
Definition rePostfixTooManyErrors : re := cats ([Str "too many errors after "; plus (λ a, rng 65 90 a || rng 97 122 a || chars "-" a); Str " from "] ++ host_addr).
Definition rePostfixLostAuth : re := cats (Str "lost connection after AUTH from " :: host_addr).
Definition rePostfixSASLUser : re := cats [Str "sasl_username="; Grp 1 (plus (λ a, negb (re_space a) && negb (chars "," a)))].

Definition isPostfixLogPath (path : string) : bool := has_suffix "mail.log" path || has_suffix "/maillog" path.

Definition Matches (source : string) : bool :=
  if has_prefix "postfix:" source then true else
  match CutPrefix "journald:" source with
  | Some unit => let unit := TrimSuffix ".service" unit in bool_decide (unit = "postfix"%string) || has_prefix "postfix@" unit
  | None =>
      match CutPrefix "file:" source with
      | Some path => isPostfixLogPath path
      | None => if str_contains source ":" then false else isPostfixLogPath source
      end
  end.

(** Kind, address and fields; none when no signature matches. *)
Definition classifyPostfixLine (raw : string) : option (string * string * gmap string string) :=
  match find rePostfixAuthFail raw with
  | Some m => Some ("smtp_auth_fail", sub m 1, {["method" := capField (sub m 2) maxPostfixMethodBytes]})%string
  | None =>
      match find rePostfixRelayDenied raw with
      | Some m =>
          let fields : gmap string string := {["reject" := "relay"]}%string in
          Some ("smtp_relay_denied"%string, sub m 1,
            match find rePostfixSASLUser raw with
            | Some u => <["user"%string := capField (sub u 1) maxPostfixUserBytes]> fields
            | None => fields
            end)
      | None =>
          match find rePostfixTooManyErrors raw with
          | Some m => Some ("smtp_abuse", sub m 1, {["abuse" := "too_many_errors"]})%string
          | None =>
              match find rePostfixLostAuth raw with
              | Some m => Some ("smtp_abuse", sub m 1, {["abuse" := "lost_connection_after_auth"]})%string
              | None => None
              end
          end
      end
  end.

Definition parsePostfixAddr (s : string) : option addr := Unmap <$> ParseAddr (TrimPrefix "IPv6:" (UTrimSpace s)).

Definition Parse (line : RawLine) : list Event :=
  match line_text line with
  | None => []
  | Some raw =>
      match classifyPostfixLine raw with
      | None => []
      | Some (kind, ipRaw, fields) =>
          match parsePostfixAddr ipRaw with None => [] | Some ip => [mk_event line ip kind fields] end
      end
  end.
End Postfix.

Module Dovecot.
Definition maxDovecotUserBytes : nat := 64.
Definition maxDovecotMethodBytes : nat := 32.

Definition proto : re := Grp 1 (Alt (Str "imap") (Str "pop3")).
Definition reDovecotAuthFail : re := cats [proto; Str "-login: "; Alt (Str "Aborted login") (Str "Disconnected"); star (not_in ":"); Str "(auth failed, ";
  Grp 2 (plus re_digit); Str " attempt"; opt (Str "s"); star (not_in ")"); Str ")"].
Definition reDovecotNoAuth : re := cats [proto; Str "-login: Disconnected (no auth attempts"; star (not_in ")"); Str ")"].
Definition reDovecotRIP : re := cats [WordB; Str "rip="; Grp 1 (plus ipch)].
Definition reDovecotUser : re := cats [WordB; Str "user=<"; Grp 1 (star (not_in ">")); Str ">"].
Definition reDovecotMethod : re := cats [WordB; Str "method="; Grp 1 (plus alnum_)].

Definition isDovecotLogPath (path : string) : bool := has_suffix "dovecot.log" path.

Definition Matches (source : string) : bool :=
  if has_prefix "dovecot:" source then true else
  match CutPrefix "journald:" source with
  | Some unit => bool_decide (TrimSuffix ".service" unit = "dovecot"%string)
  | None =>
      match CutPrefix "file:" source with
      | Some path => isDovecotLogPath path
      | None => if str_contains source ":" then false else isDovecotLogPath source
      end
  end.

Definition classifyDovecotLine (raw : string) : option (string * gmap string string) :=
  match find reDovecotAuthFail raw with
  | Some m =>
      let fields : gmap string string := list_to_map [("proto", sub m 1); ("attempts", sub m 2)]%string in
      let fields := match find reDovecotUser raw with
                    | Some u => if bool_decide (sub u 1 = EmptyString) then fields else <["user"%string := capField (sub u 1) maxDovecotUserBytes]> fields
                    | None => fields
                    end in
      Some ("imap_auth_fail"%string,
        match find reDovecotMethod raw with
        | Some me => <["method"%string := capField (sub me 1) maxDovecotMethodBytes]> fields
        | None => fields
        end)
  | None =>
      match find reDovecotNoAuth raw with
      | Some m => Some ("imap_probe", {["proto" := sub m 1]})%string
      | None => None
      end
  end.

Definition Parse (line : RawLine) : list Event :=
  match line_text line with
  | None => []
  | Some raw =>
      match classifyDovecotLine raw with
      | None => []
      | Some (kind, fields) =>
          match find reDovecotRIP raw with
          | None => []
          | Some m => match ParseAddr (sub m 1) with None => [] | Some ip => [mk_event line (Unmap ip) kind fields] end
          end
      end
  end.
End Dovecot.

(** ** Examples *)
Example postfix_example : (λ ev : Event, (SourceIP ev, Kind ev, Fields ev !! "method"%string)) <$>
  Postfix.Parse (MkRaw "postfix:/var/log/mail.log" "Jan  2 03:04:05 mx postfix/smtpd[7]: warning: unknown[203.0.113.5]: SASL LOGIN authentication failed: x" 0) =
  [(Addr4 0xcb007105, "smtp_auth_fail", Some "LOGIN")%string].
Proof. vm_compute. done. Qed.

Example dovecot_example : (λ ev : Event, (SourceIP ev, Kind ev, Fields ev !! "user"%string)) <$>
  Dovecot.Parse (MkRaw "journald:dovecot" "imap-login: Disconnected (auth failed, 3 attempts in 6 secs): user=<admin>, method=PLAIN, rip=203.0.113.5, lip=10.0.0.1" 0) =
  [(Addr4 0xcb007105, "imap_auth_fail", Some "admin")%string].
Proof. vm_compute. done. Qed.

(** ** Blame that a client can move

    The pattern of a failed login is not tied to where the line starts: a reject
    line quotes the client's greeting, and the address the client wrote there is
    the one counted. *)
Lemma postfix_framed : (λ ev : Event, (SourceIP ev, Kind ev)) <$>
  Postfix.Parse (MkRaw "postfix:/var/log/mail.log" ("mx postfix/smtpd[7]: NOQUEUE: reject: RCPT from unknown[203.0.113.5]: 554 5.7.1 <x@y>: Relay access denied; " +:+
    "from=<x@y> to=<x@y> proto=SMTP helo=<warning: a[9.9.9.9]: SASL LOGIN authentication failed>") 0) =
  [(Addr4 0x09090909, "smtp_auth_fail")%string].
Proof. vm_compute. done. Qed.

(** The first [rip=] of the line is the one read, and the user name comes before
    the one dovecot writes. *)
Lemma dovecot_framed : SourceIP <$>
  Dovecot.Parse (MkRaw "journald:dovecot" "imap-login: Disconnected (auth failed, 1 attempts in 2 secs): user=<x rip=9.9.9.9>, method=PLAIN, rip=203.0.113.5, lip=10.0.0.1" 0) =
  [Addr4 0x09090909].
Proof. vm_compute. done. Qed.
