(* ===== verification/ParserApp.v ===== *)
(** The application parsers: [vaultwarden.go], [nextcloud.go], [keycloak.go]. *)
From Stdlib Require Import Ascii.
From S2P Require Import Prelude Netip NetipParse GoStrings GoUtf8 Regex Json Sdk ParserCore.
#[local] Open Scope Z_scope.

(** The source of a Docker container whose name mentions the application; letter
    case is the ASCII one. *)
Definition container_named (app source : string) : option bool :=
  name ← CutPrefix "docker:" source; Some (str_contains (ToLower name) app).

Definition log_file (suffix source : string) : bool :=
  match CutPrefix "file:" source with
  | Some path => has_suffix suffix path
  | None => if str_contains source ":" then false else has_suffix suffix source
  end.

Module Vaultwarden.
Definition maxVaultwardenUserBytes : nat := 64.

Definition reVWAuthFail : re := cats [Str "Username or password is incorrect. Try again. IP: "; Grp 1 (plus ipch); Str ".";
  opt (cats [Str " Username: "; Grp 2 (Rep false re_nonspace 1 None); opt (Str ".")]); Eot].
Definition reVWTotpFail : re := cats [Str "Invalid TOTP code!"; star re_any; Str " IP: "; Grp 1 (plus ipch)].

Definition Matches (source : string) : bool :=
  has_prefix "vaultwarden:" source || default (log_file "vaultwarden.log" source) (container_named "vaultwarden" source).

Definition classify (raw : string) : option (string * gmap string string) :=
  match find reVWAuthFail raw with
  | Some m => Some (sub m 1, if bool_decide (sub m 2 = EmptyString) then ∅ else {["user"%string := capField (sub m 2) maxVaultwardenUserBytes]})
  | None => match find reVWTotpFail raw with Some m => Some (sub m 1, {["mfa" := "totp"]})%string | None => None end
  end.

Definition Parse (line : RawLine) : list Event :=
  match line_text line with
  | None => []
  | Some raw =>
      match classify raw with
      | None => []
      | Some (ipRaw, fields) => match ParseAddr ipRaw with None => [] | Some ip => [mk_event line (Unmap ip) "vaultwarden_auth_fail" fields] end
      end
  end.
End Vaultwarden.

Module Nextcloud.
Definition maxNextcloudUserBytes : nat := 64.

Record nextcloudEntry := MkEntry { RemoteAddr : string; App : string; Message : string }.

Definition unmarshal_entry (raw : string) : option nextcloudEntry :=
  match parse_json raw with
  | Some (JObj l) => r ← field_text "remoteAddr" l; a ← field_text "app" l; m ← field_text "message" l; Some (MkEntry r a m)
  | Some JNull => Some (MkEntry EmptyString EmptyString EmptyString)
  | _ => None
  end.

Definition reNextcloudLoginFailed : re := cats [Str "Login failed: '"; Grp 1 (Rep false re_any 0 None); Str "'"].

Definition Matches (source : string) : bool :=
  has_prefix "nextcloud:" source || default (log_file "nextcloud.log" source) (container_named "nextcloud" source).

Definition isNextcloudLoginFailure (e : nextcloudEntry) : bool :=
  if bool_decide (App e = "core"%string) then has_prefix "Login failed:" (Message e)
  else if bool_decide (App e = "admin_audit"%string) then has_prefix "Login failed:" (Message e) || str_contains (Message e) "Login attempt failed"
  else false.

(** The object of the line, or of the Docker entry that wraps it. *)
Definition object_text (line : RawLine) : option string :=
  if (maxLineBytes <? str_len (Line line))%nat then None else
  let raw := UTrimSpace (TrimEOL (Line line)) in
  if negb (starts "{" raw) then None else
  let inner := extractDockerLogField raw in
  if bool_decide (inner = EmptyString) then Some raw
  else let raw := UTrimSpace (TrimEOL inner) in if starts "{" raw then Some raw else None.

Definition Parse (line : RawLine) : list Event :=
  match object_text line ≫= unmarshal_entry with
  | None => []
  | Some entry =>
      if negb (isNextcloudLoginFailure entry) then [] else
      match ParseAddr (RemoteAddr entry) with
      | None => []
      | Some ip =>
          let fields := match match_at reNextcloudLoginFailed (Message entry) with
                        | Some m => if bool_decide (sub m 1 = EmptyString) then ∅ else {["user"%string := capField (sub m 1) maxNextcloudUserBytes]}
                        | None => ∅
                        end in
          [mk_event line (Unmap ip) "nextcloud_auth_fail" fields]
      end
  end.
End Nextcloud.

Module Keycloak.
Definition maxKeycloakUserBytes : nat := 64.
Definition maxKeycloakRealmBytes : nat := 64.
Definition maxKeycloakErrorBytes : nat := 64.

Definition dq : re := opt (Str (String quote EmptyString)).
Definition one (P : ascii → bool) : re := Rep true P 1 (Some 1%nat).
Definition attr_ch : ascii → bool := λ a, negb (re_space a) && negb (chars "," a) && negb (bool_decide (a = quote)).

Definition reKeycloakType : re := cats [WordB; Str "type="; dq; Str "LOGIN_ERROR"; dq; one (λ a, re_space a || chars "," a)].
Definition attribute (name : string) (P : ascii → bool) : re := cats [WordB; Str name; dq; Grp 1 (plus P); dq].
Definition reKeycloakIP : re := attribute "ipAddress=" ipch.
Definition reKeycloakUser : re := attribute "username=" attr_ch.
Definition reKeycloakRealm : re := attribute "realmId=" attr_ch.
Definition reKeycloakError : re := attribute "error=" attr_ch.

Definition Matches (source : string) : bool :=
  if has_prefix "keycloak:" source then true else
  match CutPrefix "journald:" source with
  | Some unit => bool_decide (TrimSuffix ".service" unit = "keycloak"%string)
  | None => default (log_file "keycloak.log" source) (container_named "keycloak" source)
  end.

Definition with_attr (r : re) (key : string) (n : nat) (skip : option string) (raw : string) (fields : gmap string string) : gmap string string :=
  match find r raw with
  | Some m => if bool_decide (Some (sub m 1) = skip) then fields else <[key := capField (sub m 1) n]> fields
  | None => fields
  end.

Definition Parse (line : RawLine) : list Event :=
  match line_text line with
  | None => []
  | Some raw =>
      match find reKeycloakType (raw +:+ " ") with
      | None => []
      | Some _ =>
          match find reKeycloakIP raw with
          | None => []
          | Some m =>
              match ParseAddr (sub m 1) with
              | None => []
              | Some ip =>
                  let fields := with_attr reKeycloakUser "user" maxKeycloakUserBytes (Some "null"%string) raw ∅ in
                  let fields := with_attr reKeycloakRealm "realm" maxKeycloakRealmBytes None raw fields in
                  let fields := with_attr reKeycloakError "error" maxKeycloakErrorBytes None raw fields in
                  [mk_event line (Unmap ip) "keycloak_auth_fail" fields]
              end
          end
      end
  end.
End Keycloak.

(** ** Examples *)
#[local] Definition q (s : string) : string := String quote (s +:+ String quote EmptyString).

Example vaultwarden_example : (λ ev : Event, (SourceIP ev, Fields ev !! "user"%string)) <$>
  Vaultwarden.Parse (MkRaw "docker:vaultwarden" "[ERROR] Username or password is incorrect. Try again. IP: 203.0.113.5. Username: user@example.com." 0) =
  [(Addr4 0xcb007105, Some "user@example.com"%string)].
Proof. vm_compute. done. Qed.

Example nextcloud_example : (λ ev : Event, (SourceIP ev, Fields ev !! "user"%string)) <$>
  Nextcloud.Parse (MkRaw "nextcloud:x" ("{" +:+ q "remoteAddr" +:+ ":" +:+ q "203.0.113.5" +:+ "," +:+ q "APP" +:+ ":" +:+ q "core" +:+ "," +:+
    q "message" +:+ ":" +:+ q "Login failed: 'admin' (Remote IP: '203.0.113.5')" +:+ "}") 0) =
  [(Addr4 0xcb007105, Some "admin"%string)].
Proof. vm_compute. done. Qed.

Example keycloak_example : (λ ev : Event, (SourceIP ev, Fields ev)) <$>
  Keycloak.Parse (MkRaw "keycloak:x" "WARN type=LOGIN_ERROR, realmId=master, clientId=account, userId=null, ipAddress=203.0.113.5, error=invalid_user_credentials, username=admin" 0) =
  [(Addr4 0xcb007105, <["error" := "invalid_user_credentials"]> (<["realm" := "master"]> {["user" := "admin"]}))%string].
Proof. vm_compute. done. Qed.

(** ** Blame that a client can move *)

(** The failed-login text inside a user name: the line ends where the name does. *)
Lemma vaultwarden_framed : SourceIP <$>
  Vaultwarden.Parse (MkRaw "docker:vaultwarden"
    "[ERROR] Username or password is incorrect. Try again. IP: 203.0.113.5. Username: a Username or password is incorrect. Try again. IP: 9.9.9.9." 0) =
  [Addr4 0x09090909].
Proof. vm_compute. done. Qed.

(** The first [ipAddress=] is read, and the client's identifier may precede it. *)
Lemma keycloak_framed : SourceIP <$>
  Keycloak.Parse (MkRaw "keycloak:x" "WARN type=LOGIN_ERROR, realmId=master, clientId=ipAddress=9.9.9.9, userId=null, ipAddress=203.0.113.5, error=client_not_found" 0) =
  [Addr4 0x09090909].
Proof. vm_compute. done. Qed.
