(* ===== verification/ParserSet.v ===== *)
(** The parsers the daemon routes lines through: [defaultParsers] and
    [sourceID] of [cmd/ezyshield/run.go], [parse] of [daemon.go], and what holds
    of every parser. *)
From Stdlib Require Import Ascii.
From S2P Require Import Prelude Netip NetipParse GoStrings GoUtf8 GoNet Regex Json Sdk Config ParserCore.
From S2P Require ParserSSH.
From S2P Require Import ParserHTTP ParserMail ParserApp.
#[local] Open Scope Z_scope.

(** [sdk.Parser], with the name of [metricParserName]. *)
Record parser := MkParser { p_name : string; p_Matches : string → bool; p_Parse : RawLine → list Event }.

Definition sourceID (parserName path : string) : string :=
  if bool_decide (parserName = EmptyString) then EmptyString else parserName +:+ ":" +:+ path.

Definition defaultParsers (loc : ParserSSH.location) : list parser := [
  MkParser "ssh" ParserSSH.Matches (ParserSSH.Parse loc);
  MkParser "nginx" Nginx.Matches (Nginx.Parse (Nginx.MkNginx [] []));
  MkParser "apacheerror" ApacheError.Matches ApacheError.Parse;
  MkParser "caddy" Caddy.Matches (Caddy.Parse []);
  MkParser "traefik" Traefik.Matches (Traefik.Parse []);
  MkParser "postfix" Postfix.Matches Postfix.Parse;
  MkParser "dovecot" Dovecot.Matches Dovecot.Parse;
  MkParser "vaultwarden" Vaultwarden.Matches Vaultwarden.Parse;
  MkParser "nextcloud" Nextcloud.Matches Nextcloud.Parse;
  MkParser "keycloak" Keycloak.Matches Keycloak.Parse].

(** The first parser that claims the source. *)
Definition route (ps : list parser) (source : string) : option parser := List.find (λ p, p_Matches p source) ps.
Definition parse (ps : list parser) (raw : RawLine) : list Event := match route ps (Source raw) with Some p => p_Parse p raw | None => [] end.

(** ** Every line *)

(** The caps on what a client can write into a field. *)
Fixpoint assoc {A} (key : string) (l : list (string * A)) : option A :=
  match l with [] => None | (k, x) :: l => if String.eqb key k then Some x else assoc key l end.

Definition field_cap (key : string) : option nat := assoc key [
  ("username", 64); ("user", 64); ("method", 32); ("path", 2048); ("ua", 512); ("host", 256); ("router", 128); ("service", 256);
  ("msg", 512); ("realm", 64); ("error", 64)]%string%nat.

Definition kinds_of (name : string) : list string := default [] (assoc name [
  ("ssh", [ParserSSH.kindInvalidUser; ParserSSH.kindFail; ParserSSH.kindProbe; ParserSSH.kindAccept]);
  ("nginx", ["http_request"]); ("caddy", ["http_request"]); ("traefik", ["http_request"]); ("apacheerror", ["http_error"]);
  ("postfix", ["smtp_auth_fail"; "smtp_relay_denied"; "smtp_abuse"]); ("dovecot", ["imap_auth_fail"; "imap_probe"]);
  ("vaultwarden", ["vaultwarden_auth_fail"]); ("nextcloud", ["nextcloud_auth_fail"]); ("keycloak", ["keycloak_auth_fail"])]%string).

Definition capped (f : gmap string string) : Prop := map_Forall (λ k v, from_option (λ c, str_len v ≤ c)%nat True (field_cap k)) f.

Record fair (name : string) (line : RawLine) (ev : Event) : Prop := {
  fair_origin : Origin ev = Source line;
  fair_raw : Raw ev = EmptyString;
  fair_source : wf_addr (SourceIP ev) ∧ IsValid (SourceIP ev) = true;
  fair_kind : Kind ev ∈ kinds_of name;
  fair_fields : capped (Fields ev);
  fair_time : name ≠ "ssh"%string → ev_Time ev = At line
}.

Definition good (name : string) (line : RawLine) (evs : list Event) : Prop :=
  (length evs ≤ 1)%nat ∧ Forall (fair name line) evs ∧ ((maxLineBytes < str_len (Line line))%nat → evs = []).

Lemma capped_empty : capped ∅.
Proof. by intros k v H. Qed.
Lemma capped_insert k v f : from_option (λ c, str_len v ≤ c)%nat True (field_cap k) → capped f → capped (<[k := v]> f).
Proof. intros Hv Hf. by apply map_Forall_insert_2. Qed.
Lemma capped_single k v : from_option (λ c, str_len v ≤ c)%nat True (field_cap k) → capped {[k := v]}.
Proof. intros. rewrite <- insert_empty. apply capped_insert; [done|apply capped_empty]. Qed.

Lemma cap_le s n c : (n ≤ c)%nat → (str_len (capField s n) ≤ c)%nat.
Proof. pose proof (capField_len s n). lia. Qed.

#[local] Ltac caps := unfold capped; repeat first
  [ apply capped_empty
  | apply capped_insert; [vm_compute (field_cap _); cbn [from_option]; first [exact I | apply capUsername_len | apply cap_le; vm_compute; lia]|]
  | apply capped_single; vm_compute (field_cap _); cbn [from_option]; first [exact I | apply capUsername_len | apply cap_le; vm_compute; lia]
  | progress case_bool_decide | progress case_match ].

Lemma ParseAddr_valid s a : ParseAddr s = Some a → wf_addr a ∧ IsValid a = true.
Proof. apply ParseAddr_wf. Qed.
Lemma parseIP_valid s a : parseIP s = Some a → wf_addr a ∧ IsValid a = true.
Proof. apply ParseAddr_valid. Qed.
Lemma Unmap_source a : wf_addr a ∧ IsValid a = true → wf_addr (Unmap a) ∧ IsValid (Unmap a) = true.
Proof. intros [Hw Hv]. split; [by apply Unmap_wf|by rewrite Unmap_valid]. Qed.

Lemma parseHop_valid s a : parseHop s = Some a → wf_addr a ∧ IsValid a = true.
Proof.
  unfold parseHop. destruct (ParseAddrPort s) as [[b n]|] eqn:E.
  - intros [= <-]. apply Unmap_source. unfold ParseAddrPort in E. destruct (cut_last _ _) as [[h p]|]; [|done].
    destruct (ParseUint10 16 p); [|done]. cbn [mbind option_bind] in E.
    assert (∀ x f, ParseAddr x ≫= f = Some (b, n) → (∀ a', f a' = Some (b, n) → a' = b) → wf_addr b ∧ IsValid b = true) as Hb.
    { intros x f. destruct (ParseAddr x) as [a'|] eqn:Ea; [|done]. simpl. intros Hf Hab. rewrite <- (Hab a' Hf). by eapply ParseAddr_valid. }
    repeat case_match; try done; (eapply Hb; [exact E|]; intros a'; simpl; destruct (Is4 a'); congruence).
  - destruct (parseIP s) as [b|] eqn:Eb; [|done]. intros [= <-]. by eapply Unmap_source, parseIP_valid.
Qed.

Lemma resolveXFF_valid ps ip xff : wf_addr ip ∧ IsValid ip = true → wf_addr (resolveXFF ps ip xff) ∧ IsValid (resolveXFF ps ip xff) = true.
Proof.
  intros Hip. destruct (resolveXFF_spec ps ip xff) as [-> | (_ & _ & H)]; [done|].
  unfold clientFromXFF in H. apply rightmost_spec in H as (? & ? & ? & ? & ? & ? & Hp & ?). by eapply parseHop_valid.
Qed.

Lemma line_text_len line raw : line_text line = Some raw → ¬ (maxLineBytes < str_len (Line line))%nat.
Proof. unfold line_text. destruct (Nat.ltb_spec maxLineBytes (str_len (Line line))); [done|lia]. Qed.
Lemma http_text_len line raw : http_text line = Some raw → ¬ (maxLineBytes < str_len (Line line))%nat.
Proof. unfold http_text. destruct (line_text line) as [t|] eqn:E; [|done]. intros _. by eapply line_text_len. Qed.

Lemma good_nil name line : good name line [].
Proof. split_and!; [simpl; lia|by constructor|done]. Qed.
Lemma good_one name line ev : ¬ (maxLineBytes < str_len (Line line))%nat → fair name line ev → good name line [ev].
Proof. intros Hl Hf. split_and!; [simpl; lia|by apply Forall_singleton|done]. Qed.
Lemma good_opt name line o : ¬ (maxLineBytes < str_len (Line line))%nat → (∀ ev, o = Some ev → fair name line ev) → good name line (opt_event o).
Proof. intros Hl Ho. destruct o as [ev|]; [|apply good_nil]. apply good_one; [done|by apply Ho]. Qed.

Lemma fair_mk name line ip kind fields : wf_addr ip ∧ IsValid ip = true → kind ∈ kinds_of name → capped fields → fair name line (mk_event line ip kind fields).
Proof. intros. by split. Qed.

(** ** Parser by parser *)
Lemma ssh_good loc line : good "ssh" line (ParserSSH.Parse loc line).
Proof.
  unfold ParserSSH.Parse. destruct (line_text line) as [raw|] eqn:El; [|apply good_nil]. apply line_text_len in El.
  destruct (ParserSSH.split_prefix _ _ _) as [[t pid] msg].
  assert (∀ pats, Forall (λ p, ParserSSH.p_kind p ∈ kinds_of "ssh") pats → ∀ ev, ParserSSH.matchMessage pats msg t (Source line) pid = Some ev → fair "ssh" line ev) as Hm.
  { induction 1 as [|p pats Hp Hps IH]; intros ev; cbn [ParserSSH.matchMessage]; [done|].
    destruct (match_at _ _) as [c|]; [|apply IH]. destruct (parseIP _) as [ip|] eqn:Eip; [|done]. intros [= <-].
    split; try done; cbn [SourceIP Kind Fields]; [by eapply parseIP_valid|]. unfold ParserSSH.event_fields. cbv zeta.
    repeat case_match; caps. }
  apply good_opt; [done|]. apply Hm. repeat (constructor; [vm_compute; set_solver|]). constructor.
Qed.

Create HintDb parser.
#[local] Hint Resolve line_text_len http_text_len ParseAddr_valid parseIP_valid Unmap_source resolveXFF_valid : parser.

(** Open the options and matches of a parser that returned an event. *)
#[local] Ltac opened := repeat match goal with
  | H : Some _ = Some _ |- _ => injection H as <-
  | H : (_ ≫= _) = Some _ |- _ => apply bind_Some in H as (? & ? & H)
  | H : (let '(_, _) := ?p in _) = Some _ |- _ => destruct p eqn:?
  | H : (if ?b then _ else _) = Some _ |- _ => destruct b eqn:?; try discriminate
  end.

Lemma nginx_good cfg line : good "nginx" line (Nginx.Parse cfg line).
Proof.
  unfold Nginx.Parse. destruct (http_text line) as [raw|] eqn:El; [|apply good_nil]. apply http_text_len in El.
  assert (∀ ip m p s b u, wf_addr ip ∧ IsValid ip = true → fair "nginx" line (req_event line ip (Nginx.nginxFields m p s b u))) as Hreq.
  { intros. apply fair_mk; [done|vm_compute; set_solver|]. unfold Nginx.nginxFields. cbn [list_to_map foldr]. caps. }
  assert (∀ r ev, Nginx.parse_with r line raw = Some ev → fair "nginx" line ev) as Hw.
  { intros r ev H. unfold Nginx.parse_with in H. opened. eauto with parser. }
  assert (∀ ev, Nginx.parseJSON cfg line raw = Some ev → fair "nginx" line ev) as Hj.
  { intros ev H. unfold Nginx.parseJSON in H. opened. eauto with parser. }
  assert (∀ fs ev, Nginx.parseCustom (Nginx.TrustedProxies cfg) fs line raw = Some ev → fair "nginx" line ev) as Hc.
  { induction fs as [|f fs IH]; intros ev H; cbn [Nginx.parseCustom] in H; [done|].
    destruct (f raw) as [m|]; [|by apply IH]. case_bool_decide; [by apply IH|].
    destruct (parseIP _) as [ip|] eqn:Ei; [|by apply IH]. opened. eauto with parser. }
  apply good_opt; [done|]. intros ev H. destruct (starts "{" raw); [by apply Hj|].
  destruct (Nginx.parseCombined line raw) eqn:E1; [simplify_eq; by eapply Hw|].
  destruct (Nginx.parseVhostCombined line raw) eqn:E2; [simplify_eq; by eapply Hw|by eapply Hc].
Qed.

Lemma caddy_good ps line : good "caddy" line (Caddy.Parse ps line).
Proof.
  unfold Caddy.Parse. destruct (http_text line) as [raw|] eqn:El; [|apply good_nil]. apply http_text_len in El.
  assert (∀ ip m p s b u h d, wf_addr ip ∧ IsValid ip = true → fair "caddy" line (req_event line ip (Caddy.caddyFields m p s b u h d))) as Hreq.
  { intros. apply fair_mk; [done|vm_compute; set_solver|]. unfold Caddy.caddyFields. cbn [list_to_map foldr]. caps. }
  apply good_opt; [done|]. intros ev H. destruct (starts "{" raw).
  - unfold Caddy.parseJSON in H. opened. eauto with parser.
  - unfold Caddy.parseCLF in H. opened. eauto with parser.
Qed.

Lemma traefik_good ps line : good "traefik" line (Traefik.Parse ps line).
Proof.
  unfold Traefik.Parse. destruct (http_text line) as [raw|] eqn:El; [|apply good_nil]. apply http_text_len in El.
  assert (∀ ip m p s b u r v d, wf_addr ip ∧ IsValid ip = true → fair "traefik" line (req_event line ip (Traefik.traefikFields m p s b u r v d))) as Hreq.
  { intros. apply fair_mk; [done|vm_compute; set_solver|]. unfold Traefik.traefikFields. cbn [list_to_map foldr]. caps. }
  apply good_opt; [done|]. intros ev H. destruct (starts "{" raw).
  - unfold Traefik.parseJSON in H. opened. eauto with parser.
  - unfold Traefik.parseCLF in H. opened. eauto with parser.
Qed.

Lemma client_field_valid s a : ApacheError.parseApacheClientField s = Some a → wf_addr a ∧ IsValid a = true.
Proof.
  unfold ApacheError.parseApacheClientField, ApacheError.before_port. intros H.
  repeat case_match; simplify_eq; eauto with parser.
Qed.

Lemma apache_good line : good "apacheerror" line (ApacheError.Parse line).
Proof.
  unfold ApacheError.Parse. destruct (line_text line) as [raw|] eqn:El; [|apply good_nil]. apply line_text_len in El.
  apply good_opt; [done|]. intros ev H. opened. apply fair_mk; [by eapply client_field_valid|vm_compute; set_solver|].
  cbn [list_to_map foldr]. caps.
Qed.

Lemma postfix_good line : good "postfix" line (Postfix.Parse line).
Proof.
  unfold Postfix.Parse. destruct (line_text line) as [raw|] eqn:El; [|apply good_nil]. apply line_text_len in El.
  destruct (Postfix.classifyPostfixLine raw) as [[[kind ipRaw] fields]|] eqn:Ec; [|apply good_nil].
  destruct (Postfix.parsePostfixAddr ipRaw) as [ip|] eqn:Ei; [|apply good_nil]. apply good_one; [done|].
  unfold Postfix.parsePostfixAddr in Ei. apply fmap_Some in Ei as (a & Ha & ->).
  unfold Postfix.classifyPostfixLine in Ec. repeat case_match; simplify_eq;
    (apply fair_mk; [eauto with parser|vm_compute; set_solver|caps]).
Qed.

Lemma dovecot_good line : good "dovecot" line (Dovecot.Parse line).
Proof.
  unfold Dovecot.Parse. destruct (line_text line) as [raw|] eqn:El; [|apply good_nil]. apply line_text_len in El.
  destruct (Dovecot.classifyDovecotLine raw) as [[kind fields]|] eqn:Ec; [|apply good_nil].
  destruct (find _ _) as [m|]; [|apply good_nil]. destruct (ParseAddr _) as [a|] eqn:Ea; [|apply good_nil].
  apply good_one; [done|]. assert (kind ∈ kinds_of "dovecot" ∧ capped fields) as [Hk Hf]; [|apply fair_mk; eauto with parser].
  unfold Dovecot.classifyDovecotLine in Ec. cbn [list_to_map foldr] in Ec. repeat case_match; simplify_eq; (split; [vm_compute; set_solver|caps]).
Qed.

Lemma vaultwarden_good line : good "vaultwarden" line (Vaultwarden.Parse line).
Proof.
  unfold Vaultwarden.Parse. destruct (line_text line) as [raw|] eqn:El; [|apply good_nil]. apply line_text_len in El.
  destruct (Vaultwarden.classify raw) as [[ipRaw fields]|] eqn:Ec; [|apply good_nil].
  destruct (ParseAddr ipRaw) as [a|] eqn:Ea; [|apply good_nil]. apply good_one; [done|]. apply fair_mk; [eauto with parser|vm_compute; set_solver|].
  unfold Vaultwarden.classify in Ec. repeat case_match; simplify_eq; caps.
Qed.

Lemma nextcloud_good line : good "nextcloud" line (Nextcloud.Parse line).
Proof.
  unfold Nextcloud.Parse. destruct (Nextcloud.object_text line ≫= _) as [e|] eqn:El; [|apply good_nil].
  destruct (negb _); [apply good_nil|]. destruct (ParseAddr _) as [a|] eqn:Ea; [|apply good_nil].
  apply good_one; [|apply fair_mk; [eauto with parser|vm_compute; set_solver|caps]].
  apply bind_Some in El as (raw & El & _). unfold Nextcloud.object_text in El.
  destruct (Nat.ltb_spec maxLineBytes (str_len (Line line))); [done|lia].
Qed.

Lemma with_attr_capped r key n skip raw f : from_option (λ c, n ≤ c)%nat True (field_cap key) → capped f → capped (Keycloak.with_attr r key n skip raw f).
Proof.
  intros Hn Hf. unfold Keycloak.with_attr. destruct (find r raw); [|done]. case_bool_decide; [done|]. apply capped_insert; [|done].
  destruct (field_cap key); [|done]. by apply cap_le.
Qed.

Lemma keycloak_good line : good "keycloak" line (Keycloak.Parse line).
Proof.
  unfold Keycloak.Parse. destruct (line_text line) as [raw|] eqn:El; [|apply good_nil]. apply line_text_len in El.
  destruct (find _ _); [|apply good_nil]. destruct (find _ _); [|apply good_nil]. destruct (ParseAddr _) as [a|] eqn:Ea; [|apply good_nil].
  apply good_one; [done|]. apply fair_mk; [eauto with parser|vm_compute; set_solver|].
  repeat (apply with_attr_capped; [vm_compute; lia|]). apply capped_empty.
Qed.

Lemma defaultParsers_good loc : Forall (λ p, ∀ line, good (p_name p) line (p_Parse p line)) (defaultParsers loc).
Proof.
  unfold defaultParsers. repeat apply Forall_cons_2; try apply Forall_nil_2; simpl;
    auto using ssh_good, nginx_good, apache_good, caddy_good, traefik_good, postfix_good, dovecot_good, vaultwarden_good, nextcloud_good, keycloak_good.
Qed.

Lemma route_in ps source p : route ps source = Some p → p ∈ ps ∧ p_Matches p source = true.
Proof. intros H. apply List.find_some in H as [Hi Hm]. by apply list_elem_of_In in Hi. Qed.

(** C28. Parsing is bounded: whatever the bytes and the source of a line, at most one event comes out, none of an oversized line, and it carries its source, a well-formed address, a kind of the parser that claims the source, no raw copy, every field a client can fill within its cap, and (except for SSH, which reads the line's own stamp) the collection time. *)
Theorem parse_bounded loc line : let evs := parse (defaultParsers loc) line in
  (length evs ≤ 1)%nat ∧ ((maxLineBytes < str_len (Line line))%nat → evs = []) ∧
  (∀ ev, ev ∈ evs → ∃ p, route (defaultParsers loc) (Source line) = Some p ∧ fair (p_name p) line ev).
Proof.
  simpl. unfold parse. destruct (route _ _) as [p|] eqn:E; [|split_and!; [simpl; lia|done|by intros ev ?%elem_of_nil]].
  destruct (route_in _ _ _ E) as [Hp _]. pose proof (proj1 (Forall_forall _ _) (defaultParsers_good loc) p Hp line) as (Hl & Hf & Hb).
  split_and!; [done|done|]. intros ev Hev. exists p. split; [done|]. by eapply Forall_forall in Hf.
Qed.

(** ** Routing *)
Definition markers : list string := ["/nginx/"; "/caddy/"; "/traefik/"; "/apache2/error"; "/httpd/error"]%string.

(** The parser a configured name stands for. *)
Definition named_parser (name : string) : string :=
  if bool_decide (name = "apache"%string) then "nginx"%string else if bool_decide (name = "apache-error"%string) then "apacheerror"%string else name.

Lemma contains_scheme name path m : no_char "/" name = true → has_prefix "/" m = true → str_contains (name +:+ path) m = str_contains path m.
Proof.
  intros Hn Hm. induction name as [|c n IH]; [done|]. cbn [no_char] in Hn. apply andb_true_iff in Hn as [Hc Hn].
  cbn [String.append str_contains]. rewrite (IH Hn). destruct m as [|d m]; [done|]. cbn [has_prefix] in *. destruct (decide ("/"%char = d)); [|done]. subst d.
  apply negb_true_iff, bool_decide_eq_false_1 in Hc. by rewrite decide_False by congruence.
Qed.

Lemma routed_markers loc name path : name ∈ validParserNames → Forall (λ m, str_contains path m = false) markers →
  p_name <$> route (defaultParsers loc) (sourceID name path) = Some (named_parser name).
Proof.
  intros Hn Hm. unfold markers in Hm. repeat (apply Forall_cons in Hm as [? Hm]).
  unfold validParserNames in Hn. repeat (apply elem_of_cons in Hn as [->|Hn]); [..|by apply elem_of_nil in Hn];
    unfold sourceID; cbn [bool_decide]; (rewrite bool_decide_eq_false_2 by done); unfold route, defaultParsers; cbn [List.find p_Matches];
    unfold Nginx.Matches, ApacheError.Matches, Caddy.Matches, Traefik.Matches;
    rewrite !(contains_scheme _ (":" +:+ path)) by done; rewrite !(contains_scheme ":" path) by done;
    repeat match goal with H : str_contains path _ = false |- _ => rewrite H; clear H end; reflexivity.
Qed.

Lemma claimed loc name path : name ∈ validParserNames → ∃ p, route (defaultParsers loc) (sourceID name path) = Some p.
Proof.
  intros Hn. assert (∃ i p, defaultParsers loc !! i = Some p ∧ p_Matches p (sourceID name path) = true) as (i & p & Hp & Hm).
  { unfold validParserNames in Hn. repeat (apply elem_of_cons in Hn as [->|Hn]); [..|by apply elem_of_nil in Hn];
      [exists 1%nat|exists 0%nat|exists 1%nat|exists 2%nat|exists 4%nat|exists 3%nat|exists 5%nat|exists 6%nat|exists 7%nat|exists 8%nat|exists 9%nat];
      (eexists; split; [reflexivity|]); unfold sourceID; (rewrite bool_decide_eq_false_2 by done); cbn [p_Matches];
      unfold Nginx.Matches, ApacheError.Matches, Caddy.Matches, Traefik.Matches; rewrite ?orb_true_iff; first [reflexivity|by right|by left|by left; right|by left; left]. }
  unfold route. destruct (List.find _ _) as [p'|] eqn:E; [by eexists|]. apply list_elem_of_lookup_2, list_elem_of_In in Hp.
  pose proof (List.find_none _ _ E p Hp) as H. simpl in H. congruence.
Qed.

(** Every parser name a configuration may use is claimed: lines of a file collector with that override reach some parser, and the one the name stands for when the path has no web-server marker in it. *)
Theorem routing_total loc name path : name ∈ validParserNames →
  (∃ p, route (defaultParsers loc) (sourceID name path) = Some p) ∧
  (Forall (λ m, str_contains path m = false) markers →
   p_name <$> route (defaultParsers loc) (sourceID name path) = Some (named_parser name)).
Proof. intros Hn. split; [by apply claimed|by apply routed_markers]. Qed.

Theorem routing_total_witness :
  (∃ p, route (defaultParsers ParserSSH.utc) "keycloak:/var/log/kc.log" = Some p) ∧
  (Forall (λ m, str_contains "/var/log/kc.log" m = false) markers →
   p_name <$> route (defaultParsers ParserSSH.utc) "keycloak:/var/log/kc.log" = Some (named_parser "keycloak")).
Proof. apply (routing_total ParserSSH.utc "keycloak" "/var/log/kc.log"). vm_compute. set_solver. Defined.

(** A path with a web server's directory in it takes the file from the parser
    the operator named. *)
Lemma override_lost loc : p_name <$> route (defaultParsers loc) (sourceID "nextcloud" "/srv/nginx/data/nextcloud.log") = Some "nginx"%string.
Proof. reflexivity. Qed.
