(* ===== verification/CollHealth.v ===== *)
(** Collector supervision and the honest observation state:
    [runCollector] of [internal/daemon/daemon.go] and
    [internal/daemon/collhealth.go].

    A run of a collector is how long it ran and how it ended; the supervisor's
    loop is a step on its own counters and on the health map.  [%q] is the name
    between quotation marks. *)
From stdpp Require Import sorting.
From Stdlib Require Import Ascii.
From S2P Require Import Prelude GoStrings.
#[local] Open Scope Z_scope.
#[local] Arguments Z.eqb : simpl never.
#[local] Arguments Z.leb : simpl never.
#[local] Arguments Z.add : simpl never.

Inductive CollectorsState := CollOK | CollDegraded | CollNone.

Record collState := MkColl { failures : Z; coll_lastErr : string; coll_degraded : bool }.

Abbreviation collHealth := (gmap string collState).

Definition quoted (s : string) : string := String "034"%char (s +:+ String "034"%char EmptyString).

(** The supervision parameters, with their defaults. *)
Record supervision := MkSupervision { backoffBase : duration; backoffMax : duration; stableRuntime : duration; failureAlert : Z }.

Definition default_supervision : supervision := MkSupervision Second (30 * Second) (60 * Second) 5.

(** A transition is returned for the audit row: its op and its reason. *)
Definition recordCollectorFailure (alert : Z) (name : string) (n : Z) (err : string) (h : collHealth) : collHealth * option (string * string) :=
  let was := match h !! name with Some s => coll_degraded s | None => false end in
  let now := was || (alert <=? n) in
  (<[name := MkColl n err now]> h,
   if negb was && now
   then Some ("collector_degraded",
     "observation DEGRADED — collector " +:+ quoted name +:+ " is not reading (" +:+ show_Z n +:+ " consecutive failures): " +:+ err)
   else None).

Definition recordCollectorHealthy (name : string) (h : collHealth) : collHealth * option (string * string) :=
  match h !! name with
  | None => (h, None)
  | Some s =>
    (<[name := MkColl 0 EmptyString false]> h,
     if coll_degraded s then Some ("collector_recovered", "collector " +:+ name +:+ " recovered — reading again") else None)
  end.

Definition failing_text (name : string) (s : collState) : string :=
  name +:+ " is not reading (" +:+ show_Z (failures s) +:+ " consecutive failures: " +:+ coll_lastErr s +:+ ")".

(** [configured] is the number of collectors. *)
Definition collectorsState (configured : nat) (h : collHealth) : CollectorsState * string :=
  let failing := (λ kv, failing_text kv.1 kv.2) <$> List.filter (λ kv, coll_degraded kv.2) (map_to_list h) in
  match failing with
  | _ :: _ => (CollDegraded, Join (merge_sort String.le failing) "; ")
  | [] => if bool_decide (configured = 0%nat) then (CollNone, "no collectors configured — nothing is being observed") else (CollOK, EmptyString)
  end.

(** ** The supervisor's loop *)

(** How a run ended: [None] for a source that completed, else its error. *)
Record coll_run := MkRun { ran : duration; run_err : option string }.

Record supervisor := MkSup { backoff : duration; consecutiveFailures : Z }.

Definition start (sv : supervision) : supervisor := MkSup (backoffBase sv) 0.

(** After a run: the health map, the audited transitions, and, unless the
    source completed, the wait before the next run, whether the operator is
    alerted, and the counters it starts with. *)
Record after_run := MkAfter {
  ar_health : collHealth; ar_audit : list (string * string); ar_next : option (duration * bool * supervisor)
}.

Definition supervise (sv : supervision) (name : string) (r : coll_run) (s : supervisor) (h : collHealth) : after_run :=
  let stable := stableRuntime sv <=? ran r in
  let s := if stable then start sv else s in
  let '(h, recovered) := if stable then recordCollectorHealthy name h else (h, None) in
  match run_err r with
  | None => MkAfter h (option_list recovered) None
  | Some err =>
    let n := consecutiveFailures s + 1 in
    let '(h, degraded) := recordCollectorFailure (failureAlert sv) name n err h in
    MkAfter h (option_list recovered ++ option_list degraded)
      (Some (backoff s, n =? failureAlert sv, MkSup (Z.min (backoff s * 2) (backoffMax sv)) n))
  end.

(** ** A history of failing runs *)
Fixpoint run_supervised (sv : supervision) (name : string) (rs : list (duration * string)) (s : supervisor) (h : collHealth) :
    supervisor * collHealth * list (string * string) * list bool :=
  match rs with
  | [] => (s, h, [], [])
  | r :: rs =>
    let a := supervise sv name (MkRun r.1 (Some r.2)) s h in
    match ar_next a with
    | None => (s, ar_health a, ar_audit a, [])
    | Some (_, alert, s) =>
      let '(s, h, au, al) := run_supervised sv name rs s (ar_health a) in (s, h, ar_audit a ++ au, alert :: al)
    end
  end.

(** How many failures in a row each run makes: a stable run starts afresh. *)
Fixpoint streaks (stable : duration) (n : Z) (rs : list (duration * string)) : list Z :=
  match rs with
  | [] => []
  | r :: rs => let m := if stable <=? r.1 then 1 else n + 1 in m :: streaks stable m rs
  end.

Definition is_degraded (name : string) (h : collHealth) : bool :=
  match h !! name with Some s => coll_degraded s | None => false end.

Definition sane (sv : supervision) : Prop := 0 < backoffBase sv <= backoffMax sv ∧ 0 < failureAlert sv.

(** The supervisor's counters and the health entry tell the same story. *)
Definition sup_inv (sv : supervision) (name : string) (s : supervisor) (h : collHealth) : Prop :=
  backoffBase sv <= backoff s <= backoffMax sv ∧ 0 <= consecutiveFailures s ∧
  is_degraded name h = (failureAlert sv <=? consecutiveFailures s).

Lemma start_inv sv name : sane sv → sup_inv sv name (start sv) ∅.
Proof.
  intros [Hb Ha]. unfold sup_inv, is_degraded, start. simpl. rewrite lookup_empty. repeat split; try lia.
Qed.

Lemma supervise_failed sv name r err s h : sane sv → sup_inv sv name s h →
  ∃ w s', ar_next (supervise sv name (MkRun r (Some err)) s h) =
      Some (w, consecutiveFailures s' =? failureAlert sv, s') ∧
    consecutiveFailures s' = (if stableRuntime sv <=? r then 1 else consecutiveFailures s + 1) ∧
    backoffBase sv <= w <= backoffMax sv ∧
    sup_inv sv name s' (ar_health (supervise sv name (MkRun r (Some err)) s h)).
Proof.
  intros [Hb Ha] (Hk & Hn & Hd). unfold supervise. simpl.
  destruct (stableRuntime sv <=? r).
  - destruct (recordCollectorHealthy name h) as [h1 t1] eqn:E1. simpl.
    assert (is_degraded name h1 = false) as H1.
    { unfold recordCollectorHealthy in E1. unfold is_degraded. destruct (h !! name) as [x|] eqn:Ex; simplify_eq.
      - by rewrite lookup_insert_eq.
      - by rewrite Ex. }
    exists (backoffBase sv), (MkSup (Z.min (backoffBase sv * 2) (backoffMax sv)) 1). split; [reflexivity|]. simpl. split; [done|]. split; [lia|].
    unfold sup_inv. simpl. split; [lia|]. split; [lia|].
    unfold is_degraded. rewrite lookup_insert_eq. simpl. unfold is_degraded in H1. by rewrite H1.
  - exists (backoff s), (MkSup (Z.min (backoff s * 2) (backoffMax sv)) (consecutiveFailures s + 1)). split; [reflexivity|]. simpl. split; [done|]. split; [lia|].
    unfold sup_inv. simpl. split; [lia|]. split; [lia|].
    unfold is_degraded in *. rewrite lookup_insert_eq. simpl. rewrite Hd.
    destruct (Z.leb_spec (failureAlert sv) (consecutiveFailures s)); [|done]. symmetry. apply Z.leb_le. lia.
Qed.

(** The audited transition to DEGRADED comes with the alert. *)
Definition degraded_rows (au : list (string * string)) : nat :=
  length (List.filter (λ x, bool_decide (x.1 = "collector_degraded")) au).

Definition trues (l : list bool) : nat := length (List.filter (λ b : bool, b) l).

Lemma supervise_rows sv name r err s h : sane sv → sup_inv sv name s h →
  degraded_rows (ar_audit (supervise sv name (MkRun r (Some err)) s h)) =
  trues (match ar_next (supervise sv name (MkRun r (Some err)) s h) with Some (_, alert, _) => [alert] | None => [] end).
Proof.
  intros [Hb Ha] (Hk & Hn & Hd). unfold supervise, degraded_rows, trues, recordCollectorHealthy, recordCollectorFailure, is_degraded in *. simpl.
  destruct (stableRuntime sv <=? r); destruct (h !! name) as [x|] eqn:Ex; simpl; rewrite ?lookup_insert_eq, ?Ex; simpl.
  - destruct (coll_degraded x), (Z.leb_spec (failureAlert sv) (0 + 1)), (Z.eqb_spec (0 + 1) (failureAlert sv)); simpl; try done; lia.
  - destruct (Z.leb_spec (failureAlert sv) (0 + 1)), (Z.eqb_spec (0 + 1) (failureAlert sv)); simpl; try done; lia.
  - rewrite Hd.
    destruct (Z.leb_spec (failureAlert sv) (consecutiveFailures s)), (Z.leb_spec (failureAlert sv) (consecutiveFailures s + 1)),
      (Z.eqb_spec (consecutiveFailures s + 1) (failureAlert sv)); simpl; try done; lia.
  - destruct (Z.leb_spec (failureAlert sv) (consecutiveFailures s)), (Z.leb_spec (failureAlert sv) (consecutiveFailures s + 1)),
      (Z.eqb_spec (consecutiveFailures s + 1) (failureAlert sv)); simpl; try done; lia.
Qed.

Lemma run_supervised_spec sv name rs s h : sane sv → sup_inv sv name s h →
  ∃ s' h' au al, run_supervised sv name rs s h = (s', h', au, al) ∧ sup_inv sv name s' h' ∧
    consecutiveFailures s' = List.last (streaks (stableRuntime sv) (consecutiveFailures s) rs) (consecutiveFailures s) ∧
    al = (λ m, m =? failureAlert sv) <$> streaks (stableRuntime sv) (consecutiveFailures s) rs ∧
    degraded_rows au = trues al.
Proof.
  intros Hs. revert s h. induction rs as [|[r err] rs IH]; intros s h Hi; simpl; [by eexists _, _, _, _|].
  pose proof (supervise_rows sv name r err s h Hs Hi) as Hr.
  destruct (supervise_failed sv name r err s h Hs Hi) as (w & s1 & E & Hc & Hw & Hi1).
  rewrite E in Hr |- *. simpl in Hc. destruct (IH _ _ Hi1) as (s' & h' & au & al & Er & Hi' & Hl & Hal & Hd).
  rewrite Er. eexists _, _, _, _. split; [done|]. split; [done|]. rewrite <- Hc. split_and!.
  - rewrite Hl. destruct (streaks (stableRuntime sv) (consecutiveFailures s1) rs) as [|y l]; [done|]. simpl.
    clear. revert y. induction l as [|z l IH]; intros y; [done|]. apply IH.
  - rewrite Hal. done.
  - unfold degraded_rows, trues in *. rewrite List.filter_app, length_app, Hr. simpl.
    destruct (consecutiveFailures s1 =? failureAlert sv); simpl; lia.
Qed.

(** C16. A failing source is retried, reported and alerted honestly: after any
    history of failing runs the collector shows as DEGRADED exactly when it has
    failed at least the alert number of times since it was last stable; the
    operator is alerted exactly at that failure, once per incident, and each
    alert has one audited transition; the wait before a restart stays between
    the base and the cap. *)
Theorem supervision_honest sv name rs : sane sv →
  let '(s, h, au, al) := run_supervised sv name rs (start sv) ∅ in
  is_degraded name h = (failureAlert sv <=? List.last (streaks (stableRuntime sv) 0 rs) 0) ∧
  al = (λ m, m =? failureAlert sv) <$> streaks (stableRuntime sv) 0 rs ∧
  degraded_rows au = trues al ∧
  backoffBase sv <= backoff s <= backoffMax sv.
Proof.
  intros Hs. destruct (run_supervised_spec sv name rs (start sv) ∅ Hs (start_inv sv name Hs)) as (s & h & au & al & E & (Hb & _ & Hd) & Hc & Hal & Hr).
  rewrite E, Hd, Hc. done.
Qed.

Definition flapping : list (duration * string) :=
  replicate 6 (Second, "open: no such file") ++ [(2 * Minute, "read error")] ++ replicate 4 (Second, "gone").

Lemma supervision_honest_witness : sane default_supervision ∧
  let '(s, h, au, al) := run_supervised default_supervision "filetail:/var/log/auth.log" flapping (start default_supervision) ∅ in
  is_degraded "filetail:/var/log/auth.log" h = true ∧ trues al = 2%nat ∧ backoff s = 30 * Second.
Proof.
  assert (sane default_supervision) as Hs by (split; done). split; [done|].
  pose proof (supervision_honest default_supervision "filetail:/var/log/auth.log" flapping Hs) as H.
  destruct (run_supervised _ _ _ _ _) as [[[s h] au] al] eqn:E. destruct H as (Hd & Ha & Hr & _).
  split; [|split]; [rewrite Hd; by vm_compute|rewrite Ha; by vm_compute|].
  apply (f_equal (λ x, backoff x.1.1.1)) in E. revert E. vm_compute. by intros <-.
Defined.
