(* ===== verification/Daemon.v ===== *)
(** The daemon: [internal/daemon/daemon.go], with [gatedban.go],
    [sshrecheck.go], [ineffective.go] and the stream of [eventbus.go].

    One state holds what the daemon's goroutines share; an operation is a
    function on it.  [enforceMu] makes each of the kernel-and-store sections
    atomic, the other shared fields have mutexes of their own, and events are
    processed one at a time by [runPipeline], so an execution is a sequence of
    operations.  The enforcer is a [Gate] over any enforcer of a world [X]
    (cmd/ezyshield always builds one); the store is the SQLite model.  Metrics
    and log lines are left out. *)
From Stdlib Require Import QArith.
From S2P Require Import AiClean.
From S2P Require Import Prelude GoStrings Netip NetipParse Sdk Policy Aggregate NotifyEdge SSHPeers Store Rules.
From S2P Require Import StoreIface Decision Gate EventsAgg EnfState Recheck NotifySuppress NftScript Feeds CollHealth Retention.
#[local] Open Scope Z_scope.

Definition defaultIneffNotifyWindow : duration := 15 * Minute.

(** [time.Duration.Round] of a duration that is not negative. *)
Definition dur_round (d m : duration) : duration :=
  let r := Z.rem d m in
  if r + r <? m then d - r else let d1 := wrap64 (d + m - r) in if d <? d1 then d1 else 2 ^ 63 - 1.

Definition ttlString (ttl : duration) : string :=
  if ttl <=? 0 then EmptyString else dur_string (dur_round ttl Second).

(** A [StreamEvent] without its time, as a subscriber with room in its channel sees it. *)
Record StreamEvent := MkStream {
  se_Kind : string; se_IP : string; se_Score : Z; se_Category : string; se_Rule : string; se_Strike : Z;
  se_TTL : string; se_Enforcer : string; se_Reason : string; se_Source : string
}.

Definition prefixDisplay (p : prefix) : string :=
  if pbits p =? BitLen (paddr p) then show_addr (paddr p) else show_prefix p.

(** ** Deduplication of the systemic alert *)
Record ineffDedup := MkIneff { dd_start : option time; dd_suppressed : Z }.

Definition shouldNotify (now : time) (dd : ineffDedup) : bool * Z * ineffDedup :=
  if match dd_start dd with None => true | Some t => defaultIneffNotifyWindow <=? now - t end
  then (true, dd_suppressed dd, MkIneff (Some now) 0)
  else (false, dd_suppressed dd + 1, MkIneff (dd_start dd) (dd_suppressed dd + 1)).

(** ** Allowlists *)
Definition staticAllowlistFromPolicy (p : Policy) : list prefix :=
  let norm q := match NormalizePrefix q with Ok n => n | Err _ => q end in
  omap (λ s, match ParsePrefix s with
             | Some q => Some (norm q)
             | None => match ParseAddr s with
                       | Some a => let a := Unmap a in Some (PrefixFrom a (BitLen a))
                       | None => None
                       end
             end) (Allowlist p) ++
  omap (λ s, norm <$> ParsePrefix s) (AdminCIDRs p).

(** Without repetitions, in the order of first occurrence. *)
Definition union_step (out : list prefix) (p : prefix) : list prefix :=
  if bool_decide (p ∈ out) then out else out ++ [p].
Definition unionPrefixes (a b : list prefix) : list prefix := fold_left union_step b (fold_left union_step a []).

(** ** Verdicts *)
Definition bindVerdictsToIP (vs : list Verdict) (ip : addr) : list Verdict :=
  omap (λ v, if bool_decide (Unmap (v_IP v) = Unmap ip)
             then Some (MkVerdict ip (Sdk.Score v) (Category v) (Confidence v) (v_Reason v) (v_Source v) (SuggestTTL v) (Evidence v))
             else None) vs.

Definition highestScore (vs : list Verdict) : Z := fold_left (λ h v, if h <? Score v then Score v else h) vs 0.

Definition severityFor (op : Op) : string := match op with ban => "warn" | _ => "info" end.

(** What the world answers during one operation: the clocks, peers and CDN
    table of the engine, whether evaluation is cancelled, the raw verdicts of
    the AI layer (none when it fails), whether its budget is spent, the peers and
    the CDN table feeds are filtered by, map orders. *)
Record denv := MkDenv {
  denv_dec : Decision.env;
  denv_ctx : nat → bool;
  ai_raw : list Verdict;
  ai_exceeded : option bool;
  lru_order : list addr;
  queue_order : list addr → list addr;
  feed_peers : list addr;
  shared_ranges : option (list prefix);
  feed_order : list (string * list FeedElement) → list (string * list FeedElement)
}.

Definition clock (v : denv) : time := now (denv_dec v).
Definition store_clock (v : denv) : time := store_now (denv_dec v).

Section daemon.
Context {X : Type}.

(** What is fixed once the daemon is built. *)
Record config := MkConfig {
  ruleEng : Rules.Engine;
  staticAllowlist : list prefix;
  notifier : bool;
  sshRecheckDelay : duration;
  enricher : option (addr → string * Z * string);  (* country, ASN, organisation *)
  feedSyncer : option (list FeedElement → X → bool * X);
  feedRefresh : option (string → list FeedUpdate * option Z);  (* the updates it reports, how many feeds it refreshed *)
  aiProvider : bool;
  aiLo : Z;
  aiHi : Z;
  startTime : time;
  version : string;
  collectors : nat;
  retention : option Retention.RetentionPolicy;
  feedLoop : bool;                                  (* a feed refresh loop is injected *)
  enforceError : X → bool * string                 (* the error a failed enforcer call left: throttle only, text *)
}.

Record daemon := MkDaemon {
  decEng : Decision.Engine;
  store : Store.world;
  gate : option (Gate X);
  ext : X;
  runtimeAllowlist : list prefix;
  health : enfHealth;
  recheckQueue : sshRecheckQueue;
  gatedBanRetry : sshRecheckQueue;
  notifySup : option notifySuppressor;
  agg : Aggregator;
  ineff : ineffDedup;
  policyFile : option string;
  feedState : feeds;
  observation : collHealth;
  streamed : list StreamEvent;
  sent : list Notification
}.

Definition with_eng e d := MkDaemon e (store d) (gate d) (ext d) (runtimeAllowlist d) (health d) (recheckQueue d) (gatedBanRetry d) (notifySup d) (agg d) (ineff d) (policyFile d) (feedState d) (observation d) (streamed d) (sent d).
Definition with_store w d := MkDaemon (decEng d) w (gate d) (ext d) (runtimeAllowlist d) (health d) (recheckQueue d) (gatedBanRetry d) (notifySup d) (agg d) (ineff d) (policyFile d) (feedState d) (observation d) (streamed d) (sent d).
Definition with_ext x d := MkDaemon (decEng d) (store d) (gate d) x (runtimeAllowlist d) (health d) (recheckQueue d) (gatedBanRetry d) (notifySup d) (agg d) (ineff d) (policyFile d) (feedState d) (observation d) (streamed d) (sent d).
Definition with_runtime ps d := MkDaemon (decEng d) (store d) (SetExtraAllowlist ps <$> gate d) (ext d) ps (health d) (recheckQueue d) (gatedBanRetry d) (notifySup d) (agg d) (ineff d) (policyFile d) (feedState d) (observation d) (streamed d) (sent d).
Definition with_health h d := MkDaemon (decEng d) (store d) (gate d) (ext d) (runtimeAllowlist d) h (recheckQueue d) (gatedBanRetry d) (notifySup d) (agg d) (ineff d) (policyFile d) (feedState d) (observation d) (streamed d) (sent d).
Definition with_recheck q d := MkDaemon (decEng d) (store d) (gate d) (ext d) (runtimeAllowlist d) (health d) q (gatedBanRetry d) (notifySup d) (agg d) (ineff d) (policyFile d) (feedState d) (observation d) (streamed d) (sent d).
Definition with_retry q d := MkDaemon (decEng d) (store d) (gate d) (ext d) (runtimeAllowlist d) (health d) (recheckQueue d) q (notifySup d) (agg d) (ineff d) (policyFile d) (feedState d) (observation d) (streamed d) (sent d).
Definition with_sup s d := MkDaemon (decEng d) (store d) (gate d) (ext d) (runtimeAllowlist d) (health d) (recheckQueue d) (gatedBanRetry d) s (agg d) (ineff d) (policyFile d) (feedState d) (observation d) (streamed d) (sent d).
Definition with_agg a d := MkDaemon (decEng d) (store d) (gate d) (ext d) (runtimeAllowlist d) (health d) (recheckQueue d) (gatedBanRetry d) (notifySup d) a (ineff d) (policyFile d) (feedState d) (observation d) (streamed d) (sent d).
Definition with_ineff i d := MkDaemon (decEng d) (store d) (gate d) (ext d) (runtimeAllowlist d) (health d) (recheckQueue d) (gatedBanRetry d) (notifySup d) (agg d) i (policyFile d) (feedState d) (observation d) (streamed d) (sent d).
Definition with_file f d := MkDaemon (decEng d) (store d) (gate d) (ext d) (runtimeAllowlist d) (health d) (recheckQueue d) (gatedBanRetry d) (notifySup d) (agg d) (ineff d) f (feedState d) (observation d) (streamed d) (sent d).
Definition with_feeds s d := MkDaemon (decEng d) (store d) (gate d) (ext d) (runtimeAllowlist d) (health d) (recheckQueue d) (gatedBanRetry d) (notifySup d) (agg d) (ineff d) (policyFile d) s (observation d) (streamed d) (sent d).
Definition with_observation h d := MkDaemon (decEng d) (store d) (gate d) (ext d) (runtimeAllowlist d) (health d) (recheckQueue d) (gatedBanRetry d) (notifySup d) (agg d) (ineff d) (policyFile d) (feedState d) h (streamed d) (sent d).
Definition with_streamed l d := MkDaemon (decEng d) (store d) (gate d) (ext d) (runtimeAllowlist d) (health d) (recheckQueue d) (gatedBanRetry d) (notifySup d) (agg d) (ineff d) (policyFile d) (feedState d) (observation d) l (sent d).
Definition with_sent l d := MkDaemon (decEng d) (store d) (gate d) (ext d) (runtimeAllowlist d) (health d) (recheckQueue d) (gatedBanRetry d) (notifySup d) (agg d) (ineff d) (policyFile d) (feedState d) (observation d) (streamed d) l.

Definition dm (A : Type) : Type := daemon → A * daemon.
#[export] Instance dm_mret : MRet dm := λ A x d, (x, d).
#[export] Instance dm_mbind : MBind dm := λ A B k m d, let '(x, d') := m d in k x d'.

Definition get : dm daemon := λ d, (d, d).
Definition put (f : daemon → daemon) : dm unit := λ d, (tt, f d).
Definition armed (d : daemon) : bool := IsArmed (policy (decEng d)).
Definition skip : dm unit := mret tt.

Fixpoint each {A} (f : A → dm unit) (l : list A) : dm unit :=
  match l with [] => skip | x :: l => _ ← f x; each f l end.

(** A store call. *)
Definition db {A} (m : sql A) : dm (result store_error A) := λ d,
  let '(r, w) := m (store d) in (r, with_store w d).

(** An audit row or other write whose failure is only logged. *)
Definition db_ {A} (m : sql A) : dm unit := _ ← db m; skip.

(** ** Enforcer, notifier, stream *)

(** One enforcer call, and how it ended. *)
Definition enforce (cfg : config) (c : ecall) : dm outcome := λ d,
  match gate d with
  | None => (Done, d)
  | Some g =>
    let refused := match c with
                   | Gate.Ban t => match refuse g t (currentPeers g (ext d)) with Some _ => true | None => false end
                   | _ => false
                   end in
    let '(ok, x) := gate_run g c (ext d) in
    let o := if (ok : bool) then Done
             else if refused then GateRefused
             else let '(throttle, err) := enforceError cfg x in if (throttle : bool) then Throttled err else Failed err in
    (o, with_ext x d)
  end.

Definition enforcer_name (d : daemon) : string :=
  match gate d with Some g => Gate.Name (inner g) | None => EmptyString end.

Definition send (cfg : config) (n : Notification) : dm unit :=
  if notifier cfg then put (λ d, with_sent (sent d ++ [n]) d) else skip.

Definition publishActionEvent (kind ip : string) (strike : Z) (ttl : duration) (reason source : string) : dm unit :=
  put (λ d, with_streamed (streamed d ++ [MkStream kind ip 0 EmptyString EmptyString strike (ttlString ttl) (enforcer_name d) reason source]) d).

Definition publishDetections (vs : list Verdict) : dm unit :=
  put (λ d, with_streamed (streamed d ++
    ((λ v, MkStream "detection" (show_addr (v_IP v)) (Score v) (Category v) (v_Source v) 0 EmptyString EmptyString (v_Reason v) "pipeline") <$> vs)) d).

Definition notifyCritical (cfg : config) (msg : string) : dm unit := send cfg (MkNotification "critical" msg msg None).

Definition notifyEnforcerFailure (cfg : config) (ip : addr) (err : string) : dm unit :=
  send cfg (MkNotification "critical" "enforcer ban failed — bans may not be applied; check the enforcer"
    ("first failing target " +:+ show_addr ip +:+ ": " +:+ err +:+ " (repeats within the dedup window are folded into this alert)") None).

(** A transition of the enforcement state is audited, published and, armed, alerted. *)
Definition auditEnfTransition (v : denv) (op reason : string) : dm unit :=
  _ ← db_ (AuditSystem (store_clock v) op reason); publishActionEvent op "system" 0 0 reason "enforcer".

Definition labelled (name op : string) (o : outcome) : outcome :=
  match o with
  | Throttled e => Throttled (name +:+ " " +:+ op +:+ ": " +:+ e)
  | Failed e => Failed (name +:+ " " +:+ op +:+ ": " +:+ e)
  | o => o
  end.

Definition noteEnforceResult (cfg : config) (v : denv) (op : string) (o : outcome) : dm unit :=
  d ← get;
  let hasEnforcer := match gate d with Some _ => true | None => false end in
  let '(h, t) := recordEnforceResult hasEnforcer (labelled (enforcer_name d) op o) (health d) in
  _ ← put (with_health h);
  match t with
  | None => skip
  | Some (ToDegraded detail) =>
    _ ← auditEnfTransition v "enforce_degraded" ("enforcement DEGRADED — " +:+ detail);
    if armed d then notifyCritical cfg ("enforcement DEGRADED: " +:+ detail +:+ " — bans may not be applied; check the enforcer") else skip
  | Some Recovered => auditEnfTransition v "enforce_recovered" ("enforcement recovered → ACTIVE (" +:+ enforcer_name d +:+ ")")
  end.

(** ** Allowlists *)
Definition isRuntimeAllowlisted (ip : addr) (d : daemon) : bool := existsb (λ p, Contains p ip) (runtimeAllowlist d).

Definition runtimeAllowlistOverlap (p : prefix) (d : daemon) : option prefix := List.find (λ q, Overlaps q p) (runtimeAllowlist d).

(** The gate's copy is set with the daemon's. *)
Definition reloadAllowlist : dm (result store_error unit) :=
  r ← db ListAllow;
  match r with
  | Err e => mret (Err e)
  | Ok entries => _ ← put (with_runtime entries.*1); mret (Ok tt)
  end.

Definition syncEnforcerAllowlist (cfg : config) : dm outcome :=
  d ← get; enforce cfg (SyncAllowlist (unionPrefixes (staticAllowlist cfg) (runtimeAllowlist d))).

(** ** Reconcile *)
Definition host_target (ip : addr) (ttl : duration) : Target := MkTarget ip PrefixNone 0 EmptyString ttl.

(** The desired state: active real bans that are not runtime-allowlisted. *)
Definition sync_targets (d : daemon) (bans : list Action) : list Target :=
  omap (λ b, if bool_decide (act_Op b = ban) && negb (isRuntimeAllowlisted (act_IP b) d)
             then Some (host_target (act_IP b) (act_TTL b)) else None) bans.

Inductive sync_result := SyncNoEnforcer | SyncStoreError | SyncDone (o : outcome).

(** The repairs a wrapped enforcer reports after a Sync: added, removed, first. *)
Definition auditRepairs (v : denv) (repairs : option (Z * Z * bool)) (o : outcome) : dm unit :=
  match o, repairs with
  | Done, Some (added, removed, first) =>
    if ((0 <? added) || (0 <? removed)) && negb first
    then db_ (AuditSystem (store_clock v) "enforce_reconcile"
           ("reconcile repaired store↔kernel drift: re-added " +:+ show_Z added +:+ ", removed " +:+ show_Z removed))
    else skip
  | _, _ => skip
  end.

Definition syncEnforcer (cfg : config) (v : denv) (repairs : X → option (Z * Z * bool)) : dm sync_result :=
  d ← get;
  match gate d with
  | None => mret SyncNoEnforcer
  | Some _ =>
    r ← db (ActiveBans (store_clock v));
    match r with
    | Err _ => mret SyncStoreError
    | Ok bans =>
      d ← get;
      o ← enforce cfg (Sync (sync_targets d bans));
      _ ← noteEnforceResult cfg v "sync" o;
      d ← get;
      _ ← auditRepairs v (repairs (ext d)) o;
      mret (SyncDone o)
    end
  end.

(** ** Deferred enforcement: [gatedban.go] *)
Definition recheckDelay (cfg : config) : duration :=
  if 0 <? sshRecheckDelay cfg then sshRecheckDelay cfg else defaultSSHRecheckDelay.

(** A full queue drops the retry; the reconcile remains. *)
Definition deferGatedBan (cfg : config) (v : denv) (ip : addr) : dm unit :=
  put (λ d, with_retry (schedule ip (clock v + recheckDelay cfg) None (gatedBanRetry d)).2 d).

(** The audit rows whose op the action vocabulary does not have. *)
Definition audit_op (v : denv) (op : string) (ip : addr) (reason : string) : dm unit :=
  db_ (exec (insert_audit (store_clock v) op (OnIP ip) 0 0 reason)).

Definition noteGatedBanExhausted (v : denv) (ip : addr) (attempts : Z) : dm unit :=
  audit_op v "enforce_deferred_exhausted" (Unmap ip)
    ("enforcement gate refused the stored ban on all " +:+ show_Z attempts +:+
       " deferred attempts (peer still guarded) — entry left to the next reconcile").

Definition stored_target (ip : addr) (bans : list Action) : option Target :=
  (λ b, host_target (act_IP b) (act_TTL b)) <$>
    List.find (λ b, bool_decide (act_Op b = ban) && bool_decide (Unmap (act_IP b) = Unmap ip)) bans.

Definition storedBanTarget (v : denv) (ip : addr) : dm (result store_error (option Target)) :=
  r ← db (ActiveBans (store_clock v));
  mret (match r with Err e => Err e | Ok bans => Ok (stored_target ip bans) end).

Definition retryGatedBan (cfg : config) (v : denv) (it : sshRecheckItem) : dm unit :=
  let ip := it_ip it in
  let attempts := it_attempts it + 1 in
  r ← storedBanTarget v ip;
  match r with
  | Err _ | Ok None => skip
  | Ok (Some t) =>
    o ← enforce cfg (Gate.Ban t);
    match o with
    | Done => noteEnforceResult cfg v "ban" Done
    | GateRefused =>
      d ← get;
      let '(ok, q) := requeue ip attempts (clock v + recheckDelay cfg) None (gatedBanRetry d) in
      _ ← put (with_retry q);
      if (ok : bool) then skip else noteGatedBanExhausted v ip attempts
    | Throttled e | Failed e => _ ← notifyEnforcerFailure cfg ip e; noteEnforceResult cfg v "ban" o
    end
  end.

(** ** Dispatch *)
Definition notifyAction (cfg : config) (a : Action) : dm unit :=
  send cfg (MkNotification (severityFor (act_Op a))
    ("[" +:+ op_string (act_Op a) +:+ "] " +:+ show_addr (act_IP a) +:+ " — strike " +:+ show_Z (Strike a)) (act_Reason a) (Some a)).

(** A notify_only action inside an open window is folded, not sent. *)
Definition notifyFolded (cfg : config) (v : denv) (a : Action) : dm unit :=
  d ← get;
  match notifySup d with
  | None => notifyAction cfg a
  | Some s =>
    let '(now_, summary, s') := admit_ (clock v) a s in
    _ ← put (with_sup (Some s'));
    _ ← match summary with Some n => send cfg n | None => skip end;
    if (now_ : bool) then notifyAction cfg a else skip
  end.

(** A strike consumes the evidence that earned it, in memory and stored. *)
Definition consumeEvidence (cfg : config) (v : denv) (ip : addr) : dm unit :=
  _ ← put (λ d, with_agg (Reset ip (agg d)) d);
  let ws := KindsForLongWindows (ruleEng cfg) in
  if decide (ws = ∅) then skip else db_ (ConsumeEventCounts ip ws (clock v)).

Definition applyBan (cfg : config) (v : denv) (a : Action) : dm unit :=
  d ← get;
  match gate d with
  | None => skip
  | Some _ =>
    o ← enforce cfg (Gate.Ban (host_target (act_IP a) (act_TTL a)));
    _ ← match o with
        | Done => skip
        | GateRefused => deferGatedBan cfg v (act_IP a)
        | Throttled e | Failed e => notifyEnforcerFailure cfg (act_IP a) e
        end;
    noteEnforceResult cfg v "ban" o
  end.

Definition dispatch (cfg : config) (v : denv) (a : Action) : dm unit :=
  _ ← publishActionEvent (op_string (act_Op a)) (show_addr (act_IP a)) (Strike a) (act_TTL a) (act_Reason a) "pipeline";
  _ ← (if bool_decide (act_Op a = ban) || bool_decide (act_Op a = dry_ban) then consumeEvidence cfg v (act_IP a) else skip);
  _ ← (if bool_decide (act_Op a = ban) then applyBan cfg v a else skip);
  if negb (notifier cfg) then skip else
  match act_Op a with
  | ban | dry_ban => notifyAction cfg a
  | notify_only => notifyFolded cfg v a
  | _ => skip
  end.

(** ** Decisions: the engine's diagnostics are delivered by the daemon ([ineffective.go]) *)
Definition BanIneffective (cfg : config) (v : denv) (g : BanIneffectiveDiag) : dm unit :=
  let ladder := "strike " +:+ show_Z (d_Strike g) +:+ "/" +:+ show_Z (LadderLen g) +:+ " — next rungs: " +:+ NextRungs g in
  let reason := match Phase g with
    | PhaseInGrace => ladder +:+ "; " +:+ show_Z (EventsInGrace g) +:+ " events within the first " +:+ show_Z (GraceSeconds g) +:+
        "s after the ban (total suppressed: " +:+ show_Z (TotalSuppressed g) +:+ ")"
    | PhasePostGrace => ladder +:+ "; " +:+ show_Z (EventsAfterGrace g) +:+ " events ≥" +:+ show_Z (GraceSeconds g) +:+
        "s after the ban (total suppressed: " +:+ show_Z (TotalSuppressed g) +:+ ")"
    end in
  let causes := match Phase g with
    | PhaseInGrace => "an already-established connection still being served after the ban " +:+
        "(HTTP/2 or keep-alive reuse — the enforcer's pre-ban TCP teardown may be unavailable), " +:+
        "or the enforcer applying the ban late (helper latency, entry not yet in the kernel)"
    | PhasePostGrace => "a CDN/proxy in front of the server (local bans never see the client IP), " +:+
        "missing real-IP parsing, or a broken enforcer"
    end in
  _ ← publishActionEvent "ban_ineffective" (show_addr (d_IP g)) (d_Strike g) 0 reason "engine";
  if negb (notifier cfg) then skip else
  d ← get;
  let '(go, carried, dd) := shouldNotify (wall (denv_dec v)) (ineff d) in
  _ ← put (with_ineff dd);
  if negb go then skip else
  let body := "Traffic from " +:+ show_addr (d_IP g) +:+ " is flowing DESPITE an active ban (" +:+ reason +:+ ")." +:+ NLs +:+
    "This signal is systemic — likely causes: " +:+ causes +:+ "." +:+ NLs +:+
    "Fix the enforcement path (edge enforcement, real-IP config, enforcer health) — per-IP sentencing will not help." in
  let body := if 0 <? carried then body +:+ NLs +:+ show_Z carried +:+ " additional firing(s) were aggregated since the previous alert." else body in
  send cfg (MkNotification "critical" ("[ban_ineffective] enforcement looks broken (" +:+ show_addr (d_IP g) +:+ ")") body None).

Definition BanIneffectivePermanent (cfg : config) (ip : addr) (strike : Z) : dm unit :=
  let reason := "promoting to PERMANENT at strike " +:+ show_Z strike +:+ " an IP whose previous ban was ineffective" in
  _ ← publishActionEvent "ban_ineffective_permanent" (show_addr ip) strike 0 reason "engine";
  send cfg (MkNotification "critical" ("[ban_ineffective_permanent] " +:+ show_addr ip +:+ " promoted to permanent while enforcement looks broken")
    (reason +:+ "." +:+ NLs +:+ "The permanent ban will look 'resolved forever' while traffic keeps flowing. " +:+
     "Verify the enforcement path before trusting this ban (edge enforcement / real-IP parsing / enforcer health).") None).

Definition deliver (cfg : config) (v : denv) (x : effect) : dm unit :=
  match x with
  | EDeliver (Decision.BanIneffective g) => BanIneffective cfg v g
  | EDeliver (Decision.BanIneffectivePermanent ip strike) => BanIneffectivePermanent cfg ip strike
  | _ => skip
  end.

(** [decEng.Decide] on the daemon's engine and store. *)
Definition decide_ (cfg : config) (v : denv) (vs : list Verdict) : dm (result decide_error Action) :=
  d ← get;
  let '(r, ds) := Decide (denv_dec v) vs (MkD (decEng d) (store d) []) in
  _ ← put (λ d, with_store (Decision.st ds) (with_eng (Decision.eng ds) d));
  _ ← each (deliver cfg v) (trace ds);
  mret r.

(** ** Evaluation *)
Definition boost (feed : string) (v : Verdict) : Verdict :=
  MkVerdict (v_IP v) (Z.min 100 (Score v + feedReputationBoost)) (Category v) (Confidence v)
    (v_Reason v +:+ " [reputation:" +:+ feed +:+ "]") (v_Source v) (SuggestTTL v) (Evidence v).

Definition window_verdicts (cfg : config) (v : denv) (ip : addr) (a : Aggregator) : list Verdict :=
  flat_map (λ w, Evaluate (ruleEng cfg) (denv_ctx v) (AggregateIP ip w (clock v) a)) (windows a).

Definition evaluateRules (cfg : config) (v : denv) (ip : addr) (withLong : bool) : dm (list Verdict) :=
  d ← get;
  let vs := window_verdicts cfg v ip (agg d) in
  long ← (if withLong then db (evaluateLongRules (ruleEng cfg) (denv_ctx v) ip (clock v)) else mret (Ok []));
  let vs := vs ++ match long with Ok l => l | Err _ => [] end in
  d ← get;
  mret match Lookup ip (rep (feedState d)) with Some feed => boost feed <$> vs | None => vs end.

(** A listed country or ASN adds a verdict of the geo score. *)
Definition maybeInjectGeoVerdict (cfg : config) (p : Policy) (ip : addr) (vs : list Verdict) : list Verdict :=
  match enricher cfg with
  | None => vs
  | Some look =>
    if bool_decide (BlockCountries p = []) && bool_decide (BlockASNs p = []) then vs else
    let '(country, asn, org) := look ip in
    let geo source reason := vs ++ [MkVerdict ip GeoBlockScore "geo_block" 0 reason source 0 []] in
    if nonempty country && existsb (λ c, EqualFold c country) (BlockCountries p)
    then geo "policy:block_countries" ("blocked country: " +:+ country)
    else
      let asnStr := "AS" +:+ show_Z asn in
      if negb (asn =? 0) && existsb (λ a, EqualFold a asnStr) (BlockASNs p)
      then geo "policy:block_asns" ("blocked ASN: " +:+ asnStr +:+ " (" +:+ org +:+ ")")
      else vs
  end.

Definition aiEligible (cfg : config) (v : denv) (ip : addr) (highScore : Z) : dm bool :=
  if negb (aiProvider cfg) then mret false else
  if aiHi cfg <=? aiLo cfg then mret false else
  if (highScore <? aiLo cfg) || (aiHi cfg <? highScore) then mret false else
  d ← get;
  if BanThreshold (policy (decEng d)) <=? highScore then mret false else
  r ← db (Store.GetBanInfo (store_clock v) (Unmap ip));
  match r with
  | Ok (Some (_, _, dryBan)) =>
    if negb dryBan || negb (armed d) then mret false
    else mret match ai_exceeded v with Some false => true | _ => false end
  | _ => mret match ai_exceeded v with Some false => true | _ => false end
  end.

Definition maybeConsultAI (cfg : config) (v : denv) (ip : addr) (vs : list Verdict) : dm (list Verdict) :=
  ok ← aiEligible cfg v ip (highestScore vs);
  mret (if (ok : bool) then vs ++ bindVerdictsToIP (ai_raw v) ip else vs).

(** ** The pipeline *)
Definition maybeScheduleSSHRecheck (cfg : config) (v : denv) (a : Action) (vs : list Verdict) : dm unit :=
  d ← get;
  let threshold := BanThreshold (policy (decEng d)) in
  if negb (bool_decide (act_Op a = record)) || negb (bool_decide (act_Reason a = ReasonAntiLockoutSSHPeer)) then skip else
  if highestScore vs <? threshold then skip else
  put (λ d, with_recheck (schedule (act_IP a) (clock v + recheckDelay cfg) (elevatedAIVerdict vs threshold) (recheckQueue d)).2 d).

(** Persistent counters: the kind itself, and the matching field rules'. *)
Definition longKinds (e : Rules.Engine) : list string :=
  List.filter (λ k, negb (IsLongCounterKind k)) (concat (map_to_list (KindsForLongWindows e)).*2).

Definition countEvent (cfg : config) (v : denv) (ev : Event) : dm bool :=
  let e := ruleEng cfg in
  let byKind := bool_decide (Kind ev ∈ longKinds e) in
  let byField := if bool_decide (Kind ev ∈ LongFieldEventKinds e) then LongCounterKinds e ev else [] in
  _ ← (if byKind then db_ (IncrEventCount (SourceIP ev) (Kind ev) (HourBucket (clock v))) else skip);
  _ ← each (λ k, db_ (IncrEventCount (SourceIP ev) k (HourBucket (clock v)))) byField;
  mret (byKind || negb (bool_decide (byField = []))).

Definition processEvent (cfg : config) (v : denv) (ev : Event) : dm unit :=
  _ ← put (λ d, with_agg (Add (lru_order v) ev (agg d)) d);
  withLong ← countEvent cfg v ev;
  vs ← evaluateRules cfg v (SourceIP ev) withLong;
  match vs with
  | [] => skip
  | _ =>
    vs ← maybeConsultAI cfg v (SourceIP ev) vs;
    d ← get;
    let vs := maybeInjectGeoVerdict cfg (policy (decEng d)) (SourceIP ev) vs in
    _ ← publishDetections vs;
    d ← get;
    if isRuntimeAllowlisted (SourceIP ev) d then skip else
    r ← decide_ cfg v vs;
    match r with
    | Err ERateLimited => notifyCritical cfg "ban rate limit exceeded"
    | Err _ => skip
    | Ok a => _ ← dispatch cfg v a; maybeScheduleSSHRecheck cfg v a vs
    end
  end.

(** The events of a line, each with one bounded copy of the line. *)
Definition with_raw (line : string) (ev : Event) : Event :=
  MkEvent (ev_Time ev) (SourceIP ev) (Kind ev) (Fields ev) (Origin ev) (str_take EvidenceRawCap line).

(** ** The asynchronous AI layer: [aiasync.go] *)
Definition collectAIAggregates (v : denv) (ip : addr) (d : daemon) : list Aggregate :=
  (λ w, AggregateIP ip w (clock v) (agg d)) <$> windows (agg d).

(** One episode off the queue, its queue bookkeeping being that of AiQueue.v.
    Whether the cleaner leaves anything does not depend on what prints. *)
Definition processAIAsyncItem (cfg : config) (v : denv) (ip : addr) (ruleScore : Z) : dm unit :=
  d ← get;
  if isRuntimeAllowlisted ip d then skip else
  ok ← aiEligible cfg v ip ruleScore;
  if negb ok then skip else
  d ← get;
  if bool_decide ((CleanAggregates (λ _, true) (collectAIAggregates v ip d)).1 = []) then skip else
  let vs := bindVerdictsToIP (ai_raw v) ip in
  match vs with
  | [] => skip
  | _ =>
    _ ← publishDetections vs;
    d ← get;
    if isRuntimeAllowlisted ip d then skip else
    r ← decide_ cfg v vs;
    match r with
    | Err _ => skip
    | Ok a => dispatch cfg v a
    end
  end.

Definition processRaw (cfg : config) (v : denv) (line : string) (events : list Event) : dm unit :=
  each (λ ev, processEvent cfg v (with_raw line ev)) events.

(** ** Deferred re-evaluation: [sshrecheck.go] *)
Definition noteSSHRecheckDropped (v : denv) (ip : addr) (attempts : Z) : dm unit :=
  _ ← audit_op v "recheck_exhausted" (Unmap ip)
        ("ssh anti-lockout re-check retry budget exhausted after " +:+ show_Z attempts +:+
         " attempts — would-be ban evidence dropped while the peer held an ESTABLISHED SSH connection");
  db_ (Store.BumpLastSeen (store_clock v) (Unmap ip)).

Definition requeueRecheck (cfg : config) (v : denv) (it : sshRecheckItem) : dm unit :=
  d ← get;
  let '(ok, q) := requeue (it_ip it) (it_attempts it + 1) (clock v + recheckDelay cfg) (it_ai it) (recheckQueue d) in
  _ ← put (with_recheck q);
  if (ok : bool) then skip else noteSSHRecheckDropped v (it_ip it) (it_attempts it + 1).

Definition recheckAfterAntiLockout (cfg : config) (v : denv) (it : sshRecheckItem) : dm unit :=
  let ip := it_ip it in
  d ← get;
  if isRuntimeAllowlisted ip d then skip else
  vs ← evaluateRules cfg v ip true;
  d ← get;
  let vs := maybeInjectGeoVerdict cfg (policy (decEng d)) ip vs in
  match vs with
  | [] => skip
  | _ =>
    let vs := vs ++ match it_ai it with Some a => if bool_decide (v_IP a = ip) then [a] else [] | None => [] end in
    r ← decide_ cfg v vs;
    match r with
    | Err ERateLimited => _ ← notifyCritical cfg "ban rate limit exceeded"; requeueRecheck cfg v it
    | Err _ => skip
    | Ok a =>
      _ ← dispatch cfg v a;
      if bool_decide (act_Op a = record) && bool_decide (act_Reason a = ReasonAntiLockoutSSHPeer)
      then requeueRecheck cfg v it else skip
    end
  end.

(** One tick of [runSSHRecheck]: both queues' due items, popped before handled. *)
Definition recheckTick (cfg : config) (v : denv) (tick : time) : dm unit :=
  d ← get;
  let '(its, q) := due tick (queue_order v) (recheckQueue d) in
  _ ← put (with_recheck q);
  _ ← each (recheckAfterAntiLockout cfg v) its;
  d ← get;
  let '(its, q) := due tick (queue_order v) (gatedBanRetry d) in
  _ ← put (with_retry q);
  each (retryGatedBan cfg v) its.

(** ** Expiry and flush ticks *)
Definition expireBansTick (cfg : config) (v : denv) (repairs : X → option (Z * Z * bool)) (tick : time) : dm unit :=
  r ← db (ExpireBans tick);
  match r with
  | Ok n => if 0 <? n then _ ← syncEnforcer cfg v repairs; skip else skip
  | Err _ => skip
  end.

Definition expireAllowsTick (cfg : config) (tick : time) : dm unit :=
  r ← db (ExpireAllows tick);
  match r with
  | Ok n => if 0 <? n then _ ← reloadAllowlist; _ ← syncEnforcerAllowlist cfg; skip else skip
  | Err _ => skip
  end.

Definition flushAggregates (cfg : config) (reached : list addr) (tick : time) : dm unit :=
  _ ← put (λ d, with_agg (Flush reached (tick - maxWindow (agg d)) (agg d)) d);
  let longest := map_fold (λ w _ m, if m <? w then w else m) 0 (KindsForLongWindows (ruleEng cfg)) in
  if 0 <? longest then db_ (PruneEventCounts (HourBucket (tick - longest - Hour))) else skip.

(** ** Reputation feeds *)
Definition feed_guards (cfg : config) (v : denv) (d : daemon) : guards :=
  MkGuards (staticAllowlist cfg) (runtimeAllowlist d) (feed_peers v) (shared_ranges v).

(** Armed, the feed sets are replaced by every block feed's elements; a failure is only logged. *)
Definition applyFeedBlock (cfg : config) (v : denv) (u : FeedUpdate) (kept : list prefix) : dm (Z * Z) :=
  d ← get;
  let '(applied, removed, s) := desire u kept (feedState d) in
  _ ← put (with_feeds s);
  _ ← (if armed d
       then match feedSyncer cfg with
            | Some sync => put (λ d, with_ext (sync (combined (feed_order v) (feedState d)) (ext d)).2 d)
            | None => skip
            end
       else skip);
  mret (applied, removed).

Definition observeFeed (u : FeedUpdate) (kept : list prefix) : dm (Z * Z) :=
  d ← get;
  let '(applied, removed, s) := observe u kept (feedState d) in
  _ ← put (with_feeds s); mret (applied, removed).

Definition handleFeedUpdate (cfg : config) (v : denv) (u : FeedUpdate) : dm unit :=
  d ← get;
  let '(kept, skipped) := filterFeedEntries (feed_guards cfg v d) (Prefixes u) in
  n ← (if bool_decide (fu_Action u = "block") then applyFeedBlock cfg v u kept else observeFeed u kept);
  _ ← put (λ d, with_feeds (note_status (status_entry u (clock v) n.1 skipped) (feedState d)) d);
  db_ (AuditSystem (store_clock v) "feed_refresh" (feed_summary u n.1 skipped n.2)).

(** ** Collector supervision *)

(** One turn of [runCollector]'s loop: the counters of the next run and the wait before it. *)
Definition collectorRun (cfg : config) (v : denv) (sv : supervision) (name : string) (r : coll_run) (s : supervisor) :
    dm (option (duration * supervisor)) :=
  d ← get;
  let a := supervise sv name r s (observation d) in
  _ ← put (with_observation (ar_health a));
  _ ← each (λ x, _ ← db_ (AuditSystem (store_clock v) x.1 x.2); publishActionEvent x.1 "system" 0 0 x.2 "collector") (ar_audit a);
  match ar_next a with
  | None => mret None
  | Some (wait, alert, s) =>
    _ ← (if (alert : bool)
         then notifyCritical cfg ("collector " +:+ quoted name +:+ " failed " +:+ show_Z (consecutiveFailures s) +:+
                " times in a row; detection on this source may be degraded")
         else skip);
    mret (Some (wait, s))
  end.

(** The trailing summaries of closed notify_only windows. *)
Definition notifyFlushTick (cfg : config) (order : list (string * suppressWindow) → list (string * suppressWindow)) (tick : time) : dm unit :=
  d ← get;
  match notifySup d with
  | None => skip
  | Some s => let '(ns, s') := flush tick order s in _ ← put (with_sup (Some s')); each (send cfg) ns
  end.
End daemon.

Arguments config X : clear implicits.
Arguments daemon X : clear implicits.
Arguments dm X A : clear implicits.
