(* ===== verification/AiConsult.v ===== *)
(** Consulting a provider: [internal/ai/budget.go], [cache.go], [chain.go] and
    [consultProvider] of [internal/daemon/daemon.go].

    Usage rows live in the store; a budget owns the day it last reported.  A cache
    key is what [behaviorKey] digests, the window's text and the kind counts (the
    digest is taken to be collision-free).  A UTC day is its number.  A provider is
    what it does to a state of its own and the store: a single one has no state, a
    chain has its budgets. *)
From Stdlib Require Import QArith.
From S2P Require Import Prelude GoStrings Netip NetipParse Sdk Policy SSHPeers NotifyEdge Store Retention Rules StoreIface Decision Gate EventsAgg NftScript Feeds.
From S2P Require Import Daemon AiVerdict AiClean.
#[local] Open Scope Z_scope.

(** ** The daily budget *)
Record Budget := MkBudgetState { b_provider : string; daily : Z; notifiedDay : option Z }.

Definition NewBudget (provider : string) (dailyTokens : Z) : Budget := MkBudgetState provider dailyTokens None.

Definition spent (u : Usage) : Z := InputTokens u + OutputTokens u.

Definition Current (now : time) (b : Budget) : sql TokenBudget :=
  if daily b =? 0 then mret (MkBudget 0 0) else
  used ← TodayUsage now (b_provider b);
  mret (MkBudget (Z.max 0 (daily b - spent used)) (daily b)).

Definition Exceeded (now : time) (b : Budget) : sql bool :=
  t ← Current now b; mret ((0 <? DailyLimit t) && (Remaining t =? 0)).

Definition day_of (now : time) : Z := now / (24 * Hour).

Definition NoteExceededToday (now : time) (b : Budget) : bool * Budget :=
  if bool_decide (notifiedDay b = Some (day_of now)) then (false, b)
  else (true, MkBudgetState (b_provider b) (daily b) (Some (day_of now))).

Definition Consume (now : time) (u : Usage) (ip : addr) (b : Budget) (w : world) : result store_error bool * Budget * world :=
  let ipStr := if IsValid ip then show_addr (Unmap ip) else EmptyString in
  match RecordUsage now (b_provider b) u ipStr w with
  | (Err e, w) => (Err e, b, w)
  | (Ok _, w) =>
      if daily b =? 0 then (Ok false, b, w) else
      match Current now b w with
      | (Err e, w) => (Err e, b, w)
      | (Ok t, w) => if Remaining t =? 0 then let '(first, b) := NoteExceededToday now b in (Ok first, b, w) else (Ok false, b, w)
      end
  end.

(** ** The verdict cache *)
Record cacheEntry := MkCached { c_verdicts : list Verdict; expiresAt : time }.
Abbreviation cache_map := (gmap (string * gmap string Z) cacheEntry) (only parsing).
Record Cache := MkCache { c_entries : cache_map; ttl : duration }.

Definition NewCache (ttl : duration) : Cache := MkCache ∅ ttl.

Definition behaviorKey (a : Aggregate) : string * gmap string Z := (dur_string (Window a), Kinds a).

Definition Get (now : time) (a : Aggregate) (c : Cache) : option (list Verdict) * Cache :=
  if ttl c =? 0 then (None, c) else
  match c_entries c !! behaviorKey a with
  | None => (None, c)
  | Some e => if expiresAt e <? now then (None, MkCache (delete (behaviorKey a) (c_entries c)) (ttl c))
              else (Some (with_IP (agg_IP a) <$> c_verdicts e), c)
  end.

Definition Set_ (now : time) (a : Aggregate) (vs : list Verdict) (c : Cache) : Cache :=
  if ttl c =? 0 then c else
  let stored := List.filter (λ v, negb (IsAllowlistClamped v)) vs in
  match stored with
  | [] => c
  | _ => MkCache (<[behaviorKey a := MkCached stored (now + ttl c)]> (c_entries c)) (ttl c)
  end.

Definition Evict (now : time) (c : Cache) : Cache := MkCache (filter (λ kv, ¬ expiresAt kv.2 < now) (c_entries c)) (ttl c).

(** ** Providers *)
Inductive outcome := Answered (vs : list Verdict) (u : Usage) | Failed (e : call_error) (u : Usage).

Definition outcome_of (r : result call_error (list Verdict) * Usage) : outcome :=
  match r with (Ok vs, u) => Answered vs u | (Err e, u) => Failed e u end.

(** An entry of a chain: its answer to a batch and its budget. *)
Record ChainEntry := MkChainEntry {
  ce_analyze : list (Aggregate * option BehaviorSummary) → TokenBudget → outcome;
  ce_Budget : option Budget
}.

Definition check_budget (now : time) (b : option Budget) : sql bool :=
  match b with None => mret false | Some b => Exceeded now b end.

(** A failed query of the hint gives the zero budget. *)
Definition hint_budget (now : time) (b : option Budget) (w : world) : TokenBudget * world :=
  match b with
  | None => (MkBudget 0 0, w)
  | Some b => match Current now b w with (Ok t, w) => (t, w) | (Err _, w) => (MkBudget 0 0, w) end
  end.

Definition charge (now : time) (u : Usage) (ip : addr) (e : ChainEntry) (w : world) : ChainEntry * world :=
  match ce_Budget e with
  | None => (e, w)
  | Some b => let '(_, b, w) := Consume now u ip b w in (MkChainEntry (ce_analyze e) (Some b), w)
  end.

(** The entries in order; the result, the entries and the store. *)
Fixpoint chain_Analyze (now : time) (batch : list (Aggregate * option BehaviorSummary)) (es : list ChainEntry) (w : world) :
    outcome * list ChainEntry * world :=
  match es with
  | [] => (Answered [] noUsage, [], w)
  | e :: es =>
      let next w := let '(r, es, w) := chain_Analyze now batch es w in (r, e :: es, w) in
      match check_budget now (ce_Budget e) w with
      | (Err _, w) => next w
      | (Ok true, w) => next w
      | (Ok false, w) =>
          let '(budget, w) := hint_budget now (ce_Budget e) w in
          match ce_analyze e batch budget with
          | Failed (Ctx Canceled) _ => (Failed (Ctx Canceled) noUsage, e :: es, w)
          | Failed _ _ => next w
          | Answered vs u =>
              let ip := match batch with [] => AddrNone | a :: _ => agg_IP a.1 end in
              let '(e, w) := charge now u ip e w in (Answered vs u, e :: es, w)
          end
      end
  end.

(** ** One consultation *)
Section consult.
(** The provider and its state [P]. *)
Context {P : Type} (analyze : list (Aggregate * option BehaviorSummary) → TokenBudget → P → world → outcome * P * world).

Record layer := MkLayer { l_cache : Cache; l_budget : Budget; l_prov : P; l_db : world }.

Definition cached (now : time) (aggs : list (Aggregate * option BehaviorSummary)) (c : Cache) : option (list Verdict) * Cache :=
  match aggs with [] => (None, c) | a :: _ => Get now a.1 c end.

(** The bound verdicts and whether the layer answered. *)
Definition consultProvider (now : time) (ip : addr) (aggs : list (Aggregate * option BehaviorSummary)) (l : layer) :
    list Verdict * bool * layer :=
  match cached now aggs (l_cache l) with
  | (Some vs, c) => (bindVerdictsToIP vs ip, true, MkLayer c (l_budget l) (l_prov l) (l_db l))
  | (None, c) =>
      match Current now (l_budget l) (l_db l) with
      | (Err _, w) => ([], false, MkLayer c (l_budget l) (l_prov l) w)
      | (Ok t, w) =>
          match analyze aggs t (l_prov l) w with
          | (Failed _ _, p, w) => ([], false, MkLayer c (l_budget l) p w)
          | (Answered vs u, p, w) =>
              let '(_, b, w) := Consume now u ip (l_budget l) w in
              let vs := bindVerdictsToIP vs ip in
              let c := match aggs, vs with a :: _, _ :: _ => Set_ now a.1 vs c | _, _ => c end in
              (vs, true, MkLayer c b p w)
          end
      end
  end.
End consult.

(** ** Usage *)
Definition used (from : time) (provider : string) (d : Store.db) : Z :=
  sumZ (λ r, spent (u_usage r)) (List.filter (λ r, bool_decide (u_provider r = provider) && (from <=? u_called r)) (ai_usage d)).

Lemma TodayUsage_run now p d : ∃ u, TodayUsage now p (MkWorld d []) = (Ok u, MkWorld d []) ∧ spent u = used (day_start now) p d.
Proof.
  eexists. split; [reflexivity|]. unfold spent, used. simpl. induction (List.filter _ (ai_usage d)) as [|r l IH]; simpl; [done|]. unfold spent in *. lia.
Qed.

Lemma Current_run now b d : Current now b (MkWorld d []) =
  (Ok (if daily b =? 0 then MkBudget 0 0 else MkBudget (Z.max 0 (daily b - used (day_start now) (b_provider b) d)) (daily b)), MkWorld d []).
Proof.
  unfold Current. destruct (daily b =? 0); [done|]. destruct (TodayUsage_run now (b_provider b) d) as (u & E & Hu).
  unfold mbind, sql_mbind. rewrite E. by rewrite <- Hu.
Qed.

Lemma Exceeded_run now b d : Exceeded now b (MkWorld d []) =
  (Ok ((0 <? daily b) && (daily b <=? used (day_start now) (b_provider b) d)), MkWorld d []).
Proof.
  unfold Exceeded, mbind, sql_mbind. rewrite Current_run. unfold mret, sql_mret. do 2 f_equal.
  destruct (Z.eqb_spec (daily b) 0) as [->|]; [done|]. simpl. apply eq_true_iff_eq. rewrite !andb_true_iff, Z.ltb_lt, Z.leb_le, Z.eqb_eq. lia.
Qed.

Lemma Consume_run now u ip b d : ∃ r b' d', Consume now u ip b (MkWorld d []) = (Ok r, b', MkWorld d' []) ∧
  b_provider b' = b_provider b ∧ daily b' = daily b ∧
  (∀ from p, from <= now → used from p d' = used from p d + if decide (p = b_provider b) then spent u else 0) ∧
  (r = true ↔ daily b ≠ 0 ∧ daily b <= used (day_start now) (b_provider b) d' ∧ notifiedDay b ≠ Some (day_of now)) ∧
  (r = true → notifiedDay b' = Some (day_of now)) ∧ (r = false → b' = b).
Proof.
  set (ipStr := if IsValid ip then show_addr (Unmap ip) else EmptyString).
  set (d' := on_usage (λ l, l ++ [MkUsageRow now (b_provider b) u (if decide (ipStr = EmptyString) then None else Some ipStr)]) d).
  assert (∀ from p, from <= now → used from p d' = used from p d + if decide (p = b_provider b) then spent u else 0) as Hused.
  { intros from p Hf. unfold used, d'. generalize (if decide (ipStr = EmptyString) then None else Some ipStr). intros col. simpl. rewrite List.filter_app, sumZ_app. simpl.
    replace (from <=? now) with true by (symmetry; by apply Z.leb_le). rewrite andb_true_r.
    case_bool_decide; case_decide; simpl; subst; try lia; done. }
  unfold Consume. change (RecordUsage now (b_provider b) u _ (MkWorld d [])) with (Ok () : result store_error unit, MkWorld d' []). cbv iota beta.
  destruct (Z.eqb_spec (daily b) 0) as [E0|E0].
  { exists false, b, d'. split; [done|]. repeat (split; [done|]). split; [split; [done|tauto]|done]. }
  rewrite Current_run. destruct (Z.eqb_spec (daily b) 0); [done|]. cbv iota beta. cbn [Remaining].
  destruct (Z.eqb_spec (Z.max 0 (daily b - used (day_start now) (b_provider b) d')) 0) as [Er|Er].
  - unfold NoteExceededToday. case_bool_decide as Hn.
    + exists false, b, d'. split; [done|]. repeat (split; [done|]). split; [split; [done|tauto]|done].
    + eexists true, _, d'. split; [done|]. repeat (split; [done|]). split; [|done]. split; [|done]. intros _. split; [done|]. split; [lia|done].
  - exists false, b, d'. split; [done|]. repeat (split; [done|]). split; [|done]. split; [done|]. lia.
Qed.

(** ** The cache *)

(** What a cache entry comes from: a set of the same signature. *)
Inductive cache_op := OSet (t : time) (a : Aggregate) (vs : list Verdict) | OGet (t : time) (a : Aggregate) | OEvict (t : time).

Definition run_cache (c : Cache) (o : cache_op) : Cache :=
  match o with OSet t a vs => Set_ t a vs c | OGet t a => (Get t a c).2 | OEvict t => Evict t c end.

Definition stored_by (h : list cache_op) (ttl : duration) (k : string * gmap string Z) (e : cacheEntry) : Prop :=
  ∃ t a vs, OSet t a vs ∈ h ∧ behaviorKey a = k ∧ c_verdicts e = List.filter (λ v, negb (IsAllowlistClamped v)) vs ∧
    c_verdicts e ≠ [] ∧ expiresAt e = t + ttl.

Lemma run_cache_ttl h c : ttl (foldl run_cache c h) = ttl c.
Proof.
  revert c. induction h as [|o h IH]; intros c; simpl; [done|]. rewrite IH. destruct o; simpl; unfold Set_, Get, Evict; repeat case_match; done.
Qed.

Lemma cache_provenance T h : map_Forall (stored_by h T) (c_entries (foldl run_cache (NewCache T) h)).
Proof.
  induction h as [|o h IH] using rev_ind; [apply map_Forall_empty|]. rewrite foldl_app. simpl.
  pose proof (run_cache_ttl h (NewCache T)) as Ht. set (c := foldl run_cache (NewCache T) h) in *. simpl in Ht.
  assert (map_Forall (stored_by (h ++ [o]) T) (c_entries c)) as H.
  { intros k e He. destruct (IH k e He) as (t & a & vs & Hin & ?). exists t, a, vs. rewrite elem_of_app. auto. }
  destruct o as [t a vs|t a|t]; simpl.
  - unfold Set_. destruct (ttl c =? 0); [done|]. destruct (List.filter _ vs) as [|v l] eqn:E; [done|]. simpl.
    apply map_Forall_insert_2; [|done]. exists t, a, vs. rewrite elem_of_app, list_elem_of_singleton. simpl. rewrite E, Ht. auto.
  - unfold Get. destruct (ttl c =? 0); [done|]. destruct (c_entries c !! behaviorKey a) as [e|]; [|done]. destruct (expiresAt e <? t); [|done].
    simpl. by apply map_Forall_delete.
  - unfold Evict. simpl. intros k e He. apply map_lookup_filter_Some in He as [He _]. by apply H.
Qed.

(** ** The chain *)
Section chain.
Context (now : time) (batch : list (Aggregate * option BehaviorSummary)).

(** An entry whose budget is spent, by the store's tables. *)
Definition exhausted (d : Store.db) (e : ChainEntry) : Prop :=
  match ce_Budget e with
  | None => False
  | Some b => 0 < daily b ∧ daily b <= used (day_start now) (b_provider b) d
  end.

Lemma check_budget_run b d : ∃ x, check_budget now b (MkWorld d []) = (Ok x, MkWorld d []) ∧
  (x = true ↔ match b with None => False | Some b => 0 < daily b ∧ daily b <= used (day_start now) (b_provider b) d end).
Proof.
  destruct b as [b|]; simpl; [|eexists; split; [reflexivity|done]]. rewrite Exceeded_run. eexists. split; [done|].
  by rewrite andb_true_iff, Z.ltb_lt, Z.leb_le.
Qed.

Lemma hint_budget_run b d : ∃ t, hint_budget now b (MkWorld d []) = (t, MkWorld d []).
Proof. destruct b as [b|]; simpl; [|eauto]. rewrite Current_run. eauto. Qed.

Definition passed_over (d : Store.db) (e : ChainEntry) : Prop :=
  exhausted d e ∨ ∃ t err u, ce_analyze e batch t = Failed err u.

(** What a chain may come back with: an answer of the first entry that was neither
    exhausted nor failing, charged to it, or nothing. *)
Definition chain_result (d : Store.db) (es : list ChainEntry) (r : outcome) (d' : Store.db) : Prop :=
  match r with
  | Answered vs u =>
      (vs = [] ∧ u = noUsage ∧ d' = d ∧ Forall (passed_over d) es) ∨
      ∃ pre e post t, es = pre ++ e :: post ∧ ce_analyze e batch t = Answered vs u ∧ ¬ exhausted d e ∧ Forall (passed_over d) pre ∧
        (∀ from p, from <= now → used from p d' = used from p d + if decide (Some p = b_provider <$> ce_Budget e) then spent u else 0)
  | Failed e u => e = Ctx Canceled ∧ d' = d
  end.

Lemma chain_result_over d e es r d' : passed_over d e → chain_result d es r d' → chain_result d (e :: es) r d'.
Proof.
  intros He. destruct r as [vs u|]; simpl; [|done].
  intros [(-> & -> & -> & Hf)|(pre & e' & post & t & -> & Ha & Hn & Hf & Hu)]; [left|right].
  - repeat (split; [done|]). by constructor.
  - exists (e :: pre), e', post, t. repeat (split; [done|]). split; [by constructor|done].
Qed.

Lemma chain_Analyze_spec es d :
  ∃ r es' d', chain_Analyze now batch es (MkWorld d []) = (r, es', MkWorld d' []) ∧ chain_result d es r d'.
Proof.
  induction es as [|e es (r & es' & d' & E & H)]; simpl; [eexists _, _, d; split; [done|]; left; by repeat split|].
  assert (passed_over d e → ∃ r0 es0 d0, (let '(r, es, w) := chain_Analyze now batch es (MkWorld d []) in (r, e :: es, w)) =
    (r0, es0, MkWorld d0 []) ∧ chain_result d (e :: es) r0 d0) as Hnext.
  { intros He. rewrite E. eexists _, _, _. split; [done|]. by apply chain_result_over. }
  destruct (check_budget_run (ce_Budget e) d) as (x & -> & Hx). destruct x.
  { apply Hnext. left. unfold exhausted. by apply Hx. }
  destruct (hint_budget_run (ce_Budget e) d) as (t & ->).
  destruct (ce_analyze e batch t) as [vs u|err u] eqn:Ea;
    [|destruct err as [| [] |]; first [by eexists _, _, _|apply Hnext; right; eauto]].
  assert (¬ exhausted d e) as Hne by (unfold exhausted; intros HH; by apply Hx in HH). unfold charge.
  destruct (ce_Budget e) as [b|] eqn:Eb.
  - destruct (Consume_run now u (match batch with [] => AddrNone | a :: _ => agg_IP a.1 end) b d) as (x & b' & d2 & E2 & _ & _ & Hu & _).
    rewrite E2. eexists _, _, _. split; [done|]. right. exists [], e, es, t. repeat (split; [done || constructor|]).
    intros from p Hf. rewrite Hu, Eb by done. simpl. repeat case_decide; simplify_eq; done || lia.
  - eexists _, _, d. split; [done|]. right. exists [], e, es, t. repeat (split; [done || constructor|]).
    intros from p Hf. rewrite Eb. simpl. lia.
Qed.
End chain.

(** ** Consultations *)
Section consultations.
Context {P : Type} (analyze : list (Aggregate * option BehaviorSummary) → TokenBudget → P → world → outcome * P * world).
Abbreviation layer := (@layer P).

(** What a consultation hands on is bound to the address it was about. *)
Lemma consult_bound now ip aggs (l : layer) : let '(vs, _, _) := consultProvider analyze now ip aggs l in ∃ raw, vs = bindVerdictsToIP raw ip.
Proof.
  unfold consultProvider. destruct (cached now aggs (l_cache l)) as [[vs|] c]; [eauto|].
  destruct (Current now (l_budget l) (l_db l)) as [[t|e] w]; [|by exists []].
  destruct (analyze aggs t (l_prov l) w) as [[[vs u|e u] p] w2]; [|by exists []].
  destruct (Consume now u ip (l_budget l) w2) as [[r b] w3]. destruct aggs, (bindVerdictsToIP vs ip) eqn:E; rewrite <- ?E; eauto.
Qed.

(** The gate the daemon passes before it consults: the last one of [aiEligible]. *)
Definition gated_consult (now : time) (ip : addr) (aggs : list (Aggregate * option BehaviorSummary)) (l : layer) :
    list Verdict * bool * layer :=
  match Exceeded now (l_budget l) (l_db l) with
  | (Ok false, w) => consultProvider analyze now ip aggs (MkLayer (l_cache l) (l_budget l) (l_prov l) w)
  | (_, w) => ([], false, MkLayer (l_cache l) (l_budget l) (l_prov l) w)
  end.

Record question := MkQuestion { q_now : time; q_ip : addr; q_aggs : list (Aggregate * option BehaviorSummary) }.
Definition ask (l : layer) (q : question) : layer := (gated_consult (q_now q) (q_ip q) (q_aggs q) l).2.

(** The provider's own effect on the store leaves the rows of [name] alone, and a
    call costs at most [M] tokens. *)
Definition costs_at_most (name : string) (M : Z) : Prop := ∀ aggs t p d, ∃ o p' d',
  analyze aggs t p (MkWorld d []) = (o, p', MkWorld d' []) ∧ (∀ from, used from name d' = used from name d) ∧
  match o with Answered _ u => 0 <= spent u <= M | Failed _ _ => True end.

(** The provider with a meter: what its answers say they took, added up. *)
Definition metered (aggs : list (Aggregate * option BehaviorSummary)) (t : TokenBudget) (s : P * Z) (w : world) : outcome * (P * Z) * world :=
  let '(o, p, w) := analyze aggs t s.1 w in
  (o, (p, s.2 + match o with Answered _ u => spent u | Failed _ _ => 0 end), w).
End consultations.

Section metered.
Context {P : Type} (analyze : list (Aggregate * option BehaviorSummary) → TokenBudget → P → world → outcome * P * world).
#[local] Abbreviation ask := (ask (metered analyze)).

Lemma ask_spends M from q b c p n d : costs_at_most analyze (b_provider b) M → 0 < daily b → day_start (q_now q) = from → from <= q_now q →
  ∃ b' c' p' k d', ask (MkLayer c b (p, n) (MkWorld d [])) q = MkLayer c' b' (p', n + k) (MkWorld d' []) ∧
    b_provider b' = b_provider b ∧ daily b' = daily b ∧ 0 <= k ∧
    used from (b_provider b) d' = used from (b_provider b) d + k ∧
    used from (b_provider b) d' <= Z.max (used from (b_provider b) d) (daily b - 1 + M) ∧
    (daily b <= used from (b_provider b) d → k = 0 ∧ p' = p ∧ d' = d).
Proof.
  intros Hc Hd Hfrom Hle. unfold AiConsult.ask, gated_consult. cbn [l_budget l_db l_cache l_prov]. rewrite Exceeded_run, Hfrom.
  replace (0 <? daily b) with true by (symmetry; by apply Z.ltb_lt). cbn [andb].
  assert (∀ c', ∃ b' c2 p' k d', (MkLayer c' b (p, n) (MkWorld d [])) = MkLayer c2 b' (p', n + k) (MkWorld d' []) ∧
    b_provider b' = b_provider b ∧ daily b' = daily b ∧ 0 <= k ∧ used from (b_provider b) d' = used from (b_provider b) d + k ∧
    used from (b_provider b) d' <= Z.max (used from (b_provider b) d) (daily b - 1 + M) ∧
    (daily b <= used from (b_provider b) d → k = 0 ∧ p' = p ∧ d' = d)) as Hsame.
  { intros c'. exists b, c', p, 0, d. rewrite Z.add_0_r. split_and!; try done; lia. }
  destruct (Z.leb_spec (daily b) (used from (b_provider b) d)) as [Hs|Hs]; [apply Hsame|].
  unfold consultProvider. cbn [l_budget l_db l_cache l_prov]. destruct (cached (q_now q) (q_aggs q) c) as [[vs|] c']; [apply Hsame|].
  rewrite Current_run. cbv iota beta. generalize (if daily b =? 0 then MkBudget 0 0
    else MkBudget (Z.max 0 (daily b - used (day_start (q_now q)) (b_provider b) d)) (daily b)). intros t.
  unfold metered. cbn [fst snd]. destruct (Hc (q_aggs q) t p d) as (o & p' & d' & -> & Hu & Ho). destruct o as [vs u|e u].
  - destruct (Consume_run (q_now q) u (q_ip q) b d') as (r & b' & d2 & -> & Hp & Hdy & Hused & _).
    eexists b', _, p', (spent u), d2. split; [done|]. split; [done|]. split; [done|]. rewrite Hused, Hu by done. rewrite decide_True by done. lia.
  - exists b, c', p', 0, d'. split; [done|]. split; [done|]. split; [done|]. rewrite Hu. lia.
Qed.

Lemma asks_spend M from qs b c p n d : costs_at_most analyze (b_provider b) M → 0 < daily b → 0 <= M →
  Forall (λ q, day_start (q_now q) = from ∧ from <= q_now q) qs →
  ∃ b' c' p' k d', foldl ask (MkLayer c b (p, n) (MkWorld d [])) qs = MkLayer c' b' (p', n + k) (MkWorld d' []) ∧ 0 <= k ∧
    used from (b_provider b) d' = used from (b_provider b) d + k ∧
    used from (b_provider b) d' <= Z.max (used from (b_provider b) d) (daily b - 1 + M) ∧
    (daily b <= used from (b_provider b) d → k = 0 ∧ p' = p ∧ d' = d).
Proof.
  intros Hc Hd HM Hq. revert b c p n d Hc Hd. induction Hq as [|q qs [H1 H2] _ IH]; intros b c p n d Hc Hd; simpl.
  { exists b, c, p, 0, d. rewrite Z.add_0_r. split_and!; try done; lia. }
  destruct (ask_spends M from q b c p n d Hc Hd H1 H2) as (b1 & c1 & p1 & k1 & d1 & -> & Hb & Hdy & Hk1 & Hu1 & Hm1 & Hz1).
  destruct (IH b1 c1 p1 (n + k1) d1) as (b2 & c2 & p2 & k2 & d2 & -> & Hk2 & Hu2 & Hm2 & Hz2); [by rewrite Hb|by rewrite Hdy|].
  exists b2, c2, p2, (k1 + k2), d2. rewrite Z.add_assoc. split; [done|]. rewrite Hb in Hu2, Hm2, Hz2. rewrite Hdy in Hm2, Hz2. split; [lia|]. split; [lia|].
  split; [lia|]. intros Hs. destruct (Hz1 Hs) as (-> & -> & ->). destruct (Hz2 Hs) as (-> & -> & ->). done.
Qed.
End metered.

(** ** Properties *)


(** A replayed verdict is one the cache was given for the same signature, at
    most its life ago, judged by the model and not by somebody's allowlist, and
    speaks of the address that asks. *)
Theorem cache_sound T h now a vs c' : Get now a (foldl run_cache (NewCache T) h) = (Some vs, c') →
  vs ≠ [] ∧
  ∃ t b ws, OSet t b ws ∈ h ∧ behaviorKey b = behaviorKey a ∧ now <= t + T ∧
    vs = with_IP (agg_IP a) <$> List.filter (λ v, negb (IsAllowlistClamped v)) ws ∧
    Forall (λ v, v_IP v = agg_IP a ∧ IsAllowlistClamped v = false) vs.
Proof.
  intros H. pose proof (cache_provenance T h) as Hp. set (c := foldl run_cache (NewCache T) h) in *.
  unfold Get in H. destruct (ttl c =? 0); [done|]. destruct (c_entries c !! behaviorKey a) as [e|] eqn:E; [|done].
  destruct (Z.ltb_spec (expiresAt e) now); [done|]. injection H as <- <-.
  destruct (Hp _ _ E) as (t & b & ws & Hin & Hk & Hv & Hne & Hx). split; [intros Hn; by apply fmap_nil_inv in Hn|].
  exists t, b, ws. split; [done|]. split; [done|]. split; [lia|]. split; [by rewrite Hv|].
  rewrite Hv. apply Forall_fmap, Forall_forall. intros v [_ Hf]%list_elem_of_In%filter_In. simpl. split; [done|].
  by apply negb_true_iff in Hf.
Qed.

(** ** Witnesses *)
Definition sample_batch : list (Aggregate * option BehaviorSummary) := [(sample_agg (Addr4 0xcb007109), None)].
Definition sixty (_ : list (Aggregate * option BehaviorSummary)) (_ : TokenBudget) (n : nat) (w : world) : outcome * nat * world :=
  (Answered [] (MkUsage 50 10 0), S n, w).
Definition sample_qs : list question := [MkQuestion 5 (Addr4 1) sample_batch; MkQuestion 6 (Addr4 1) sample_batch; MkQuestion 7 (Addr4 2) sample_batch].

Example three_asked_two_called :
  let l := foldl (ask sixty) (MkLayer (NewCache 0) (NewBudget "anthropic" 100) O (MkWorld emptyDb [])) sample_qs in
  l_prov l = 2%nat ∧ used 0 "anthropic" (tables (l_db l)) = 120.
Proof. vm_compute. done. Qed.


Definition sample_verdict : Verdict := MkVerdict (Addr4 1) 60 "scanner" 1 "paths" "ai:anthropic" 0 [].
Definition clamped_verdict : Verdict := MkVerdict (Addr4 2) 0 "scanner" 1 ReasonAllowlistClamped ("ai:anthropic" +:+ AllowlistClampSourceSuffix) 0 [].

Lemma cache_sound_witness :
  let a := sample_agg (Addr4 0xcb007109) in
  let h := [OSet 10 (sample_agg (Addr4 1)) [sample_verdict; clamped_verdict]] in
  let r := (Get 20 a (foldl run_cache (NewCache Minute) h)).1 in
  r = Some [with_IP (Addr4 0xcb007109) sample_verdict] ∧ ∀ vs, r = Some vs → Forall (λ v, v_IP v = agg_IP a ∧ IsAllowlistClamped v = false) vs.
Proof.
  cbv zeta. split; [vm_compute; reflexivity|]. intros vs Hv.
  destruct (Get 20 (sample_agg (Addr4 0xcb007109)) _) as [r c'] eqn:E. cbn [fst] in Hv. subst r.
  destruct (cache_sound _ _ _ _ _ _ E) as (_ & t & b & ws & _ & _ & _ & _ & H). exact H.
Defined.

(** ** A surprise *)

(** The tokens of a call that failed in the end are reported by the provider and
    charged to nobody. *)
Example failed_call_uncharged :
  let failing := λ (_ : list (Aggregate * option BehaviorSummary)) (_ : TokenBudget) (p : unit) (w : world), (Failed CallFailed (MkUsage 4000 100 0), p, w) in
  let l := ask failing (MkLayer (NewCache 0) (NewBudget "anthropic" 100) tt (MkWorld emptyDb [])) (MkQuestion 5 (Addr4 1) sample_batch) in
  used 0 "anthropic" (tables (l_db l)) = 0.
Proof. vm_compute. done. Qed.
