(* ===== verification/DaemonSpec.v ===== *)
(** The abstract daemon: the elementary steps every operation is made of.

    [moves]: how the tables may change; [astep]: what one elementary step may do
    to the daemon and to the world outside.  [DaemonSteps] shows that every
    operation is a sequence of these steps, [DaemonSafety] draws the
    consequences. *)
From stdpp Require Import sorting.
From S2P Require Import Prelude GoStrings Netip NetipParse Sdk Policy Aggregate SSHPeers NotifyEdge Store StoreReport Retention Rules.
From S2P Require Import StoreIface Decision Gate EventsAgg NftScript Feeds Daemon.
#[local] Open Scope Z_scope.

(** ** Tables

    Bans only appear for addresses in [Q], with the simulated flag the armed
    flag [on] dictates; a row's flag never changes otherwise.  Allow entries only
    appear in a form [net/netip] can construct, and a permanent one in [K] stays
    permanent. *)
Definition lasting (p : prefix) (d : Store.db) : Prop :=
  ∃ e, Store.allowlist d !! p = Some e ∧ al_expires e = None.

Record moves (on : bool) (Q : addr → Prop) (K : prefix → Prop) (d d' : Store.db) : Prop := {
  mv_bans : ∀ ip b', Store.bans d' !! ip = Some b' →
    (∃ b, Store.bans d !! ip = Some b ∧ dry_run b = dry_run b') ∨ (Q ip ∧ dry_run b' = negb on);
  mv_allow : ∀ p, is_Some (Store.allowlist d' !! p) → is_Some (Store.allowlist d !! p) ∨ wf_prefix p;
  mv_kept : ∀ p, K p → lasting p d → lasting p d'
}.

Section moves.
Context (on : bool) (Q : addr → Prop) (K : prefix → Prop).

#[export] Instance moves_refl : Reflexive (moves on Q K).
Proof. intros d. split; eauto. Qed.
#[export] Instance moves_trans : Transitive (moves on Q K).
Proof.
  intros d1 d2 d3 [B1 A1 L1] [B2 A2 L2]. split; [| |eauto].
  - intros ip b' H. destruct (B2 ip b' H) as [(b & Hb & Hd)|?]; [|by right].
    destruct (B1 ip b Hb) as [(b0 & ? & ?)|[? ?]]; [left; exists b0; split; congruence|right; split; congruence].
  - intros p H. destruct (A2 p H); auto.
Qed.

Lemma moves_same d d' : Store.bans d' = Store.bans d → Store.allowlist d' = Store.allowlist d → moves on Q K d d'.
Proof. intros Hb Ha. split; unfold lasting; rewrite ?Hb, ?Ha; eauto. Qed.

Lemma moves_bans f d : (∀ m ip b', f m !! ip = Some b' → ∃ b, m !! ip = Some b ∧ dry_run b = dry_run b') → moves on Q K d (on_bans f d).
Proof. intros Hf. split; simpl; eauto. Qed.

Lemma moves_delete ip d : moves on Q K d (on_bans (delete ip) d).
Proof. apply moves_bans. intros m jp b [_ H]%lookup_delete_Some. eauto. Qed.
Lemma moves_clear d : moves on Q K d (on_bans (λ _, ∅) d).
Proof. apply moves_bans. intros m jp b H. by rewrite lookup_empty in H. Qed.
Lemma moves_filter (P : addr * ban_row → Prop) `{∀ x, Decision (P x)} d : moves on Q K d (on_bans (filter P) d).
Proof. apply moves_bans. intros m jp b [H1 _]%map_lookup_filter_Some. eauto. Qed.
Lemma moves_alter f ip d : (∀ b, dry_run (f b) = dry_run b) → moves on Q K d (on_bans (alter f ip) d).
Proof.
  intros Hf. apply moves_bans. intros m jp b'. destruct (decide (ip = jp)) as [->|].
  - rewrite lookup_alter_eq. intros (b & Hb & ->)%fmap_Some. eauto.
  - rewrite lookup_alter_ne by done. eauto.
Qed.
Lemma moves_ban ip (f : gmap addr ban_row → ban_row) d : Q ip → (∀ m, dry_run (f m) = negb on) →
  moves on Q K d (on_bans (λ m, <[ip := f m]> m) d).
Proof.
  intros HQ Hf. split; simpl; [|eauto..]. intros jp b'. destruct (decide (ip = jp)) as [<-|].
  - rewrite lookup_insert_eq. intros [= <-]. right. auto.
  - rewrite lookup_insert_ne by done. eauto.
Qed.
Lemma moves_fold {A} (f : A → bool) (g : A → Store.db → Store.db) (l : list A) d :
  (∀ x d, Store.bans (g x d) = Store.bans d ∧ Store.allowlist (g x d) = Store.allowlist d) →
  moves on Q K d (fold_left (λ d x, if f x then g x d else d) l d).
Proof.
  intros Hg. revert d. induction l as [|x l IH]; intros d; simpl; [reflexivity|].
  etransitivity; [|apply IH]. destruct (f x); [|reflexivity]. by apply moves_same; apply Hg.
Qed.
Lemma moves_rearm t ip d : moves on Q K d (on_bans (alter (rearm t) ip) d).
Proof. apply moves_alter. intros b. unfold rearm. by case_match. Qed.
Lemma moves_suppress t g ip d : moves on Q K d (on_bans (alter (suppress t g) ip) d).
Proof. by apply moves_alter. Qed.
Lemma moves_fire ip d : moves on Q K d (on_bans (alter fire ip) d).
Proof. by apply moves_alter. Qed.
Lemma moves_expired t d : moves on Q K d (audit_expired t d).
Proof. by apply moves_fold. Qed.
Lemma moves_allow_expired t d : moves on Q K d (audit_allow_expired t d).
Proof. by apply moves_fold. Qed.

(** A permanent entry never expires. *)
Lemma moves_allow_filter t d : moves on Q K d (on_allowlist (filter (λ kv, allow_expired t kv.2 = false)) d).
Proof.
  split; simpl; [eauto|..].
  - intros p [e [He _]%map_lookup_filter_Some]. eauto.
  - intros p _ (e & He & Hn). exists e. split; [|done]. simpl. apply map_lookup_filter_Some. split; [done|].
    unfold allow_expired. simpl. by rewrite Hn.
Qed.
Lemma moves_unallow p d : ¬ K p → moves on Q K d (on_allowlist (delete p) d).
Proof.
  intros Hp. split; simpl; [eauto|..].
  - intros q [e [_ He]%lookup_delete_Some]. eauto.
  - intros q Hq (e & He & Hn). exists e. split; [|done]. simpl. rewrite lookup_delete_ne; [done|]. congruence.
Qed.
Lemma moves_allow p e d : wf_prefix p → ¬ K p → moves on Q K d (on_allowlist (<[p := e]>) d).
Proof.
  intros Hp Hk. split; simpl; [eauto|..].
  - intros q. destruct (decide (p = q)) as [<-|]; [by right|]. rewrite lookup_insert_ne by done. by left.
  - intros q Hq (e' & He & Hn). exists e'. split; [|done]. simpl. rewrite lookup_insert_ne; [done|]. congruence.
Qed.
End moves.

Create HintDb moves.
#[export] Hint Resolve moves_delete moves_clear moves_filter moves_rearm moves_suppress moves_fire moves_allow_filter
  moves_expired moves_allow_expired : moves.
#[export] Hint Extern 3 (moves _ _ _ _ _) => apply moves_same; reflexivity : moves.
#[export] Hint Extern 2 (Keeps (moves _ _ _) (exec _)) =>
  apply keeps_exec; [apply _|apply _|intros ?; solve [eauto with moves nocore]] : typeclass_instances.

Section store.
Context (on : bool) (Q : addr → Prop) (K : prefix → Prop).
Abbreviation ok := (Keeps (moves on Q K)).

#[export] Instance mk_Suppressed t ip g : ok (Store.RecordSuppressed t ip g).
Proof. unfold Store.RecordSuppressed. apply _. Qed.
#[export] Instance mk_Mark ip : ok (Store.MarkBanIneffective ip).
Proof. unfold Store.MarkBanIneffective. apply _. Qed.
#[export] Instance mk_Bump t ip : ok (Store.BumpLastSeen t ip).
Proof. unfold Store.BumpLastSeen. apply _. Qed.
#[export] Instance mk_Audit t x : ok (Store.Audit t x).
Proof. unfold Store.Audit. apply _. Qed.
#[export] Instance mk_AuditOp t op p ttl r : ok (AuditOp t op p ttl r).
Proof. unfold AuditOp. apply _. Qed.
#[export] Instance mk_AuditSystem t op r : ok (AuditSystem t op r).
Proof. unfold AuditSystem. apply _. Qed.
#[export] Instance mk_ExpireBans t : ok (ExpireBans t).
Proof. unfold ExpireBans. apply _. Qed.
#[export] Instance mk_ExpireAllows t : ok (ExpireAllows t).
Proof. unfold ExpireAllows. apply _. Qed.
#[export] Instance mk_Unban t ip : ok (Store.Unban t ip).
Proof. unfold Store.Unban. apply _. Qed.
#[export] Instance mk_unban_each t r ips : ok (unban_each t r ips).
Proof. induction ips; simpl; apply _. Qed.
#[export] Instance mk_UnbanCovered t p r : ok (UnbanCovered t p r).
Proof. apply keeps_bind; [apply _..|]. intros [|ip ips]; apply _. Qed.
#[export] Instance mk_UnbanPrefix t p sh : ok (UnbanPrefix t p sh).
Proof. unfold UnbanPrefix. apply _. Qed.
#[export] Instance mk_UnbanAll t r : ok (UnbanAll t r).
Proof. unfold UnbanAll. apply _. Qed.
Lemma mk_RemoveAllow p : ¬ K (Masked p) → ok (RemoveAllow p).
Proof.
  intros Hp. unfold RemoveAllow. apply keeps_bind; [apply _..|]. intros n. apply keeps_bind; [apply _| |intros; apply _].
  apply keeps_exec; [apply _..|]. intros d. by apply moves_unallow.
Qed.
#[export] Instance mk_SetState k x : ok (SetState k x).
Proof. unfold SetState. apply _. Qed.
#[export] Instance mk_DeleteState k : ok (DeleteState k).
Proof. unfold DeleteState. apply _. Qed.
#[export] Instance mk_GetState k : ok (GetState k).
Proof. unfold GetState. apply _. Qed.
#[export] Instance mk_ListAllow : ok ListAllow.
Proof. unfold ListAllow. apply _. Qed.
#[export] Instance mk_ListAuditLog n : ok (ListAuditLog n).
Proof. unfold ListAuditLog. apply _. Qed.
#[export] Instance mk_ActiveBans t : ok (ActiveBans t).
Proof. unfold ActiveBans. apply _. Qed.
#[export] Instance mk_GetBanInfo t ip : ok (Store.GetBanInfo t ip).
Proof. unfold Store.GetBanInfo. apply _. Qed.
#[export] Instance mk_GetStrikeCount ip : ok (Store.GetStrikeCount ip).
Proof. unfold Store.GetStrikeCount. apply _. Qed.
#[export] Instance mk_LastStrike ip : ok (Store.LastStrike ip).
Proof. unfold Store.LastStrike. apply _. Qed.
#[export] Instance mk_Had ip : ok (Store.HadIneffectiveBan ip).
Proof. unfold Store.HadIneffectiveBan. apply _. Qed.
#[export] Instance mk_GetOffender ip : ok (GetOffender ip).
Proof. unfold GetOffender. apply _. Qed.
#[export] Instance mk_StrikesForIP ip n : ok (StrikesForIP ip n).
Proof. unfold StrikesForIP. apply _. Qed.
#[export] Instance mk_AuditLogForIP ip n : ok (AuditLogForIP ip n).
Proof. unfold AuditLogForIP. apply _. Qed.
#[export] Instance mk_ActiveBanForIP ip : ok (ActiveBanForIP ip).
Proof. unfold ActiveBanForIP. apply _. Qed.
#[export] Instance mk_ListOffenders b n : ok (ListOffenders b n).
Proof. unfold ListOffenders. apply _. Qed.
#[export] Instance mk_Incr ip k b : ok (IncrEventCount ip k b).
Proof. unfold IncrEventCount. apply _. Qed.
#[export] Instance mk_PruneEvents b : ok (PruneEventCounts b).
Proof. unfold PruneEventCounts. apply _. Qed.
#[export] Instance mk_Consume ip ws t : ok (ConsumeEventCounts ip ws t).
Proof.
  unfold ConsumeEventCounts. apply keeps_bind; [apply _..|]. intros xs. apply keeps_tx; [apply _..|].
  apply keeps_watermarks; [apply _..|]. intros x d _. by apply moves_same.
Qed.
#[export] Instance mk_audit_row t op s a b r : ok (exec (insert_audit t op s a b r)).
Proof. apply _. Qed.

(** New bans. *)
Lemma mk_RecordStrike t x : Q (act_IP x) → act_Op x = (if on then ban else dry_ban) → ok (Store.RecordStrike t x).
Proof.
  intros HQ Ho. unfold Store.RecordStrike. apply keeps_tx; [apply _..|]. do 2 (apply keeps_bind; [apply _..|]; intros _).
  apply keeps_bind; [apply _| |intros; apply _].
  apply keeps_exec; [apply _..|]. intros d. apply (moves_ban on Q K _ (λ _, _)); [done|]. intros m. simpl. rewrite Ho. by destruct on.
Qed.
Lemma mk_RecordManualBan t ip ttl r : Q ip → ok (RecordManualBan t ip ttl r (negb on)).
Proof.
  intros HQ. unfold RecordManualBan. destruct (ttl <? 0); [apply _|]. apply keeps_tx; [apply _..|].
  apply keeps_bind; [apply _| |intros; apply _]. apply keeps_exec; [apply _..|]. intros d.
  by apply (moves_ban on Q K ip (λ m, fresh_ban t (expiry t ttl) (match m !! ip with Some b => strike_num b | None => 1 end) r (negb on))).
Qed.
Lemma mk_AddAllow t p exp r : wf_prefix (Masked p) → ¬ K (Masked p) → ok (AddAllow t p exp r).
Proof. intros Hp Hk. apply keeps_exec; [apply _..|]. intros d. by apply moves_allow. Qed.
End store.

(** Pruning leaves bans and allow entries alone. *)
Section prune.
Context (on : bool) (Q : addr → Prop) (K : prefix → Prop).

Lemma moves_PruneRetention lim ctx pol now W : moves on Q K (tables W) (tables (PruneRetention lim ctx pol now W).2).
Proof.
  apply (PruneRetention_keeps (moves on Q K)); [intros _| |intros _|intros _]; (apply keeps_deleteBatched; [apply _..|]); intros d; by apply moves_same.
Qed.

Lemma moves_audit_prune t l W : moves on Q K (tables W) (tables (audit_prune t l W)).
Proof.
  revert W. induction l as [|x l IH]; intros W; simpl; [reflexivity|]. etransitivity; [|apply IH].
  destruct (st_Count x =? 0); [reflexivity|]. apply (mk_AuditSystem on Q K).
Qed.

Lemma moves_runPruneOnce lim ctx ret now t W : moves on Q K (tables W) (tables (runPruneOnce lim ctx ret now t W)).
Proof.
  unfold runPruneOnce. destruct ret as [pol|]; [|reflexivity].
  pose proof (moves_PruneRetention lim ctx pol now W) as H. destruct (PruneRetention _ _ _ _ W) as [r W1]. simpl in H.
  etransitivity; [exact H|apply moves_audit_prune].
Qed.

Lemma moves_handlePrune lim ctx ret dry now t W : moves on Q K (tables W) (tables (handlePrune lim ctx ret dry now t W).2).
Proof.
  unfold handlePrune. destruct ret as [pol|]; [|reflexivity]. destruct dry.
  - assert (Keeps (moves on Q K) (CountPruneCandidates pol now)) as H.
    { unfold CountPruneCandidates, count_if. apply _. }
    specialize (H W). destruct (CountPruneCandidates pol now W) as [[st|e] W1]; exact H.
  - pose proof (moves_PruneRetention lim ctx pol now W) as H. destruct (PruneRetention _ _ _ _ W) as [r W1]. simpl in H.
    destruct (failed r); [exact H|]. etransitivity; [exact H|apply moves_audit_prune].
Qed.
End prune.

(** ** Decisions *)
Lemma best_verdict_elem v0 vs : best_verdict v0 vs ∈ v0 :: vs.
Proof.
  unfold best_verdict. assert (∀ l b, b ∈ v0 :: vs → (∀ x, x ∈ l → x ∈ v0 :: vs) →
    fold_left (λ b v, if Score b <? Score v then v else b) l b ∈ v0 :: vs) as H; [|apply H; [by left|intros; by right]].
  induction l as [|y l IH]; intros b Hb Hl; simpl; [done|]. apply IH; [|intros; apply Hl; by right].
  destruct (Score b <? Score y); [apply Hl; by left|done].
Qed.

Section decisions.
Context (a : bool) (Q : addr → Prop) (K : prefix → Prop).

(** While the policy stays [a] for armed, the tables move. *)
Definition dmoves (s s' : dstate Store.world) : Prop :=
  IsArmed (policy (eng s)) = a →
  IsArmed (policy (eng s')) = a ∧ moves a Q K (tables (Decision.st s)) (tables (Decision.st s')).

#[local] Instance dmoves_preorder : PreOrder dmoves.
Proof.
  split; [intros s H; split; [done|reflexivity]|].
  intros s1 s2 s3 H1 H2 H. destruct (H1 H) as [H' K1]. destruct (H2 H') as [H'' K2].
  split; [done|by etransitivity].
Qed.

Class DSteps {A} (m : dec Store.world A) : Prop := dsteps : ∀ s, dmoves s (m s).2.

#[local] Instance dsteps_ret {A} (x : A) : DSteps (mret x).
Proof. intros s. simpl. reflexivity. Qed.
#[local] Instance dsteps_bind {A B} (m : dec Store.world A) (k : A → dec Store.world B) :
  DSteps m → (∀ x, DSteps (k x)) → DSteps (x ← m; k x).
Proof.
  intros Hm Hk s. specialize (Hm s). unfold mbind, dec_mbind. destruct (m s) as [x s1]. simpl in Hm.
  etransitivity; [done|apply Hk].
Qed.
#[local] Instance dsteps_get : DSteps get_eng.
Proof. intros s. simpl. reflexivity. Qed.
Lemma dsteps_engine {B} (k : Engine → dec Store.world B) : (∀ e, IsArmed (policy e) = a → DSteps (k e)) → DSteps (e ← get_eng; k e).
Proof. intros Hk s Ha. exact (Hk (eng s) Ha s Ha). Qed.
#[local] Instance dsteps_emit x : DSteps (emit x).
Proof. intros s H. split; [done|reflexivity]. Qed.
#[local] Instance dsteps_if {A} (b : bool) (m n : dec Store.world A) : DSteps m → DSteps n → DSteps (if b then m else n).
Proof. by destruct b. Qed.
Lemma dsteps_set f : (∀ e, policy (f e) = policy e) → DSteps (set_eng f).
Proof. intros Hf s H. simpl. rewrite Hf. split; [done|reflexivity]. Qed.
#[local] Hint Extern 2 (DSteps (set_eng _)) => by apply dsteps_set : typeclass_instances.
#[local] Instance dsteps_peers v : DSteps (active_peers v).
Proof. intros s H. unfold active_peers. destruct (activeSSHPeers _ _ _ _). simpl. split; [done|reflexivity]. Qed.
#[local] Instance dsteps_call {A} c (f : sql A) : Keeps (moves a Q K) f → DSteps (Decision.call c f).
Proof.
  intros Hf s H. unfold Decision.call. specialize (Hf (Decision.st s)). destruct (f (Decision.st s)). done.
Qed.
#[local] Hint Extern 1 (Keeps _ _) => progress simpl : typeclass_instances.

#[local] Instance dsteps_warned v : DSteps (warnCDNRangesUnavailable v).
Proof. unfold warnCDNRangesUnavailable. apply _. Qed.
#[local] Instance dsteps_check_cdn v ip : DSteps (check_cdn v ip).
Proof. unfold check_cdn. destruct (cdnRanges v) as [[]|]; apply _. Qed.
#[local] Instance dsteps_audited v x : DSteps (audited v x).
Proof. unfold audited. apply _. Qed.
#[local] Instance dsteps_rate v : DSteps (checkRateLimit v).
Proof. unfold checkRateLimit. apply dsteps_bind; [apply _|]. intros e. destruct (if _ <? _ then _ else _). apply _. Qed.
#[local] Instance dsteps_admit v ip n : DSteps (admit_ban v ip n).
Proof. unfold admit_ban, escalationExempt. apply _. Qed.
#[local] Instance dsteps_pre_permanent v ip ttl n : DSteps (pre_permanent v ip ttl n).
Proof. unfold pre_permanent. apply _. Qed.
#[local] Instance dsteps_track v ip t n : DSteps (trackSuppressedEvent v ip t n).
Proof.
  unfold trackSuppressedEvent. apply dsteps_bind; [apply _|]. intros e. apply dsteps_bind; [apply _|].
  intros [[[total after] fired]|]; [|apply _]. apply dsteps_if; [apply _|].
  case_match; [|apply _]. apply dsteps_bind; [apply _|]. intros [[]|]; apply _.
Qed.

Class Allowed (ip : addr) : Prop := allowed : Q ip.

(** The strike is written with the operation the armed flag dictates. *)
#[local] Instance dsteps_strike v b vs ip u : Allowed ip → DSteps (strike_path v b vs ip u).
Proof.
  intros HQ. unfold strike_path. apply dsteps_bind; [apply _|]. intros [n|]; [|apply _].
  apply dsteps_engine. intros e Ha. cbv zeta. case_match; [|apply _].
  apply dsteps_bind; [apply _|]. intros ok. apply dsteps_if; [apply _|].
  apply dsteps_bind; [apply _|]. intros p. apply dsteps_bind; [|intros []; apply _].
  apply dsteps_call, mk_RecordStrike; [done|]. simpl. by rewrite Ha.
Qed.

#[local] Instance dsteps_locked v b vs ip u : Allowed ip → DSteps (locked_section v b vs ip u).
Proof.
  intros HQ. unfold locked_section. apply dsteps_bind; [apply _|]. intros r. apply dsteps_bind; [apply _|]. intros e.
  destruct r as [[[[]]|]|]; apply _.
Qed.

#[local] Instance dsteps_deliver ds : DSteps (deliver_all ds).
Proof. induction ds; simpl; apply _. Qed.
#[local] Instance dsteps_ban_path v b vs ip u : Allowed ip → DSteps (ban_path v b vs ip u).
Proof. intros HQ. unfold ban_path. destruct (botVerify v ip); apply _. Qed.
#[local] Instance dsteps_notify v b vs ip : DSteps (notify_path v b vs ip).
Proof.
  unfold notify_path. apply dsteps_bind; [apply _|]. intros e. destruct (notifyEdgeRising _ _ _ _ _) as [r m].
  apply dsteps_bind; [apply _|]. intros _. apply dsteps_if; [apply _|]. apply dsteps_bind; [apply _|]. intros []; apply _.
Qed.

Lemma dsteps_Decide v vs : (∀ x, x ∈ vs → Q (Unmap (v_IP x))) → DSteps (Decide v vs).
Proof.
  intros HQ. unfold Decide. destruct vs as [|v0 rest]; [apply _|].
  assert (Allowed (Unmap (v_IP (best_verdict v0 rest)))) as Hb by apply HQ, best_verdict_elem.
  cbv zeta. apply dsteps_bind; [apply _|]. intros e. apply dsteps_if; [apply _|]. apply dsteps_bind; [apply _|]. intros ps.
  apply dsteps_if; [apply _|]. apply dsteps_bind; [apply _|]. intros []; apply _.
Qed.

Lemma dsteps_Authorize v p force peers : DSteps (AuthorizeManualBan v p force peers).
Proof.
  unfold AuthorizeManualBan, manual_cdn, manual_rate. destruct (NormalizePrefix p); [|apply _]. apply dsteps_bind; [apply _|]. intros e.
  case_match; [apply _|]. apply dsteps_bind; [apply _|]. intros ps. case_match; [apply _|]. case_match; [apply _|].
  apply dsteps_bind; [|intros []; apply _]. destruct (cdnRanges v) as [[l|]|]; apply _.
Qed.
End decisions.

(** ** Elementary steps *)

(** A proposition found by instance resolution. *)
Class Holds (P : Prop) : Prop := holds : P.
#[export] Instance holds_True : Holds True := I.

Section spec.
Context {X : Type} (cfg : config X).
Implicit Types (d : daemon X) (t : Target) (p : prefix).

(** The target stands for a real ban of the store. *)
Definition stored d t : Prop :=
  t_Prefix t = PrefixNone ∧ ∃ b, Store.bans (tables (store d)) !! t_IP t = Some b ∧ dry_run b = false.

(** A range is one [net/netip] can construct. *)
Definition ranged t : Prop := PIsValid (t_Prefix t) = true → wf_prefix (t_Prefix t).

(** What may be asked of the gate: a block while armed, of an address in [Q];
    with [resync] also of a ban the store holds, alone or as the full list of
    such bans, none of them allowed at runtime; and anything that only lifts or
    mirrors. *)
Definition entitled (resync : Prop) (Q : addr → Prop) d (c : ecall) : Prop :=
  match c with
  | Gate.Ban t => armed d = true ∧ ranged t ∧ Q (t_IP t) ∨ resync ∧ stored d t
  | Sync want => resync ∧ ∀ t, t ∈ want → stored d t ∧ isRuntimeAllowlisted (t_IP t) d = false
  | _ => True
  end.

(** The feed element is a prefix no static allowlist entry overlaps. *)
Definition screened (e : FeedElement) : Prop :=
  ∃ ttl p, e = feed_element ttl p ∧ wf_prefix p ∧ ∀ q, q ∈ staticAllowlist cfg → Overlaps q p = false.

Definition contributed (s : feeds) (e : FeedElement) : Prop := ∃ name l, blockDesired s !! name = Some l ∧ e ∈ l.

(** The parts of the state the steps below talk about. *)
Definition same_core d d' : Prop :=
  decEng d' = decEng d ∧ store d' = store d ∧ gate d' = gate d ∧ ext d' = ext d ∧
  runtimeAllowlist d' = runtimeAllowlist d ∧ feedState d' = feedState d.

(** [arming]: whether the policy may become armed; [resync]: whether stored
    bans may be applied again; [Q]: the addresses that may
    be sentenced; [K]: the allow entries nobody names. *)
Inductive astep (arming resync : Prop) (Q : addr → Prop) (K : prefix → Prop) : relation (daemon X) :=
| a_frame d d' : same_core d d' → astep arming resync Q K d d'
| a_store d w : moves (armed d) Q K (tables (store d)) (tables w) → astep arming resync Q K d (with_store w d)
| a_engine d e : (IsArmed (policy e) = true → armed d = true ∨ arming) → astep arming resync Q K d (with_eng e d)
| a_reload d ps : (∀ p, p ∈ ps ↔ is_Some (Store.allowlist (tables (store d)) !! p)) → astep arming resync Q K d (with_runtime ps d)
| a_call d g c : gate d = Some g → entitled resync Q d c → astep arming resync Q K d (with_ext (gate_run g c (ext d)).2 d)
| a_desire d s : (∀ e, contributed s e → contributed (feedState d) e ∨ screened e) → astep arming resync Q K d (with_feeds s d)
| a_feeds d sync es : feedSyncer cfg = Some sync → (es = [] ∨ armed d = true ∧ ∀ e, e ∈ es → contributed (feedState d) e) →
    astep arming resync Q K d (with_ext (sync es (ext d)).2 d).
End spec.
