(* ===== verification/ControlSocket.v ===== *)
(** The control socket: [internal/daemon/socket.go], [arm.go],
    [disableall.go], [report.go] and the feed verbs of [feeds.go].

    A request is the decoded JSON object, a reply what is encoded back; the
    accept loop, deadlines and JSON are left out.  Error replies are the cases
    of [socket_error] (their texts matter to no other code), refusals of manual
    bans keep the text that is audited. *)
From stdpp Require Import sorting.
From Stdlib Require Import Ascii.
From S2P Require Import Prelude GoStrings Netip NetipParse GoTime Rfc3339 Sdk Policy Aggregate Store StoreReport Retention Rules.
From S2P Require Import StoreIface Decision Gate EnfState CollHealth NftScript Feeds Daemon.
#[local] Open Scope Z_scope.

(** ** Requests *)
Record SocketRequest := MkRequest {
  Verb : string; rq_IP : string; rq_TTL : string; For : string; Force : bool; Peer : string; Until : string;
  rq_Reason : string; Limit : Z; Filter : string; rq_Evidence : bool; rq_Name : string; DryRun : bool
}.

Definition readOnlyVerbs : list string :=
  ["status"; "list"; "list_allow"; "events"; "report"; "subscribe"; "metrics"; "feeds_status"].

Definition mutatingVerbs : list string :=
  ["arm"; "arm_keep"; "disarm"; "ban"; "unban"; "allow"; "unallow"; "feeds_refresh"; "disable_all"; "prune"].

(** ** Targets *)
Inductive target_error := TRequired | TInvalid (s : string) | TTooBroad.

(** A host becomes its full-length prefix; mapped spellings become plain IPv4. *)
Definition parseSocketTarget (s : string) : result target_error prefix :=
  if bool_decide (s = EmptyString) then Err TRequired else
  match ParsePrefix s with
  | Some p => match NormalizePrefix p with Ok q => Ok q | Err _ => Err TTooBroad end
  | None =>
    match ParseAddr s with
    | None => Err (TInvalid s)
    | Some a => let a := Unmap a in Ok (PrefixFrom a (BitLen a))
    end
  end.

Definition single_host (p : prefix) : bool := pbits p =? BitLen (paddr p).

Definition targetFromPrefix (p : prefix) (ttl : duration) : Target :=
  if single_host p then host_target (paddr p) ttl else MkTarget AddrNone p 0 EmptyString ttl.

(** ** Durations and times *)

(** [strings.TrimSuffix(s, "d")] when [s] has it. *)
Fixpoint strip_day (s : string) : option string :=
  match s with
  | EmptyString => None
  | String c EmptyString => if bool_decide (c = "d"%char) then Some EmptyString else None
  | String c t => String c <$> strip_day t
  end.

(** Days are multiplied in 64 bits. *)
Definition parseExtendedDuration (s : string) : option duration :=
  match strip_day s with
  | Some days => match Atoi days with Some n => if n <? 0 then None else Some (wrap64 (n * (24 * Hour))) | None => None end
  | None => ParseDuration s
  end.

Definition parseUntil (s : string) : option time :=
  match ParseRFC3339 s with
  | Some t => Some t
  | None => match ParseDateTime s with Some t => Some t | None => ParseDate s end
  end.

(** [time.Time.Sub] saturates. *)
Definition time_sub (a b : time) : duration := Z.max (- 2 ^ 63) (Z.min (2 ^ 63 - 1) (a - b)).

Definition formatExpires (exp : option time) (now : time) : string :=
  match exp with
  | None => "never"
  | Some t =>
    let remaining := time_sub t now in
    if remaining <=? 0 then "expired"
    else if remaining <? 24 * Hour then dur_string (dur_round remaining Hour) +:+ " remaining"
    else FormatDate t
  end.

(** ** Replies *)
Record PreflightCheck := MkCheck { ck_Name : string; Status : string; Detail : string }.

Record ArmData := MkArm { ad_Armed : bool; Checks : list PreflightCheck; RevertAt : string }.

Record DisableAllData := MkDisable { Disarmed : bool; BansRemoved : Z; EnforcersSynced : bool }.

Record StatusData := MkStatus {
  Uptime : string; sd_Armed : bool; sd_State : EnforcementState; sd_Detail : string;
  sd_Collectors : CollectorsState; sd_CollDetail : string; CDNRangesOk : bool;
  sd_ActiveBans : Z; SimulatedBans : Z; ArmedUntil : string; sd_Version : string
}.

Record BanEntry := MkBanEntry {
  be_IP : string; be_TTL : string; be_Strike : Z; be_Reason : string; be_Country : string; be_ASN : string; Simulated : bool
}.

Record ReportAllow := MkAllowLine { le_Prefix : string; Expires : string; le_Reason : string }.

Record AbuseReport := MkReport {
  ar_IP : string; ar_row : option offender; ar_geo : option (string * string * string); ar_ban : option ban_row;
  ar_Strikes : list strike_row; ar_Actions : list AuditEntry; ar_Evidence : list string
}.

Inductive payload :=
| PNone | PStatus (s : StatusData) | PBans (l : list BanEntry) | PAllows (l : list ReportAllow)
| PEvents (l : list AuditEntry) | POffenders (l : list (OffenderSummary * string * string)) | PReport (r : AbuseReport)
| PArm (a : ArmData) | PDisable (a : DisableAllData) | PPrune (r : prune_response)
| PFeeds (l : list FeedStatusEntry) | PRefreshed (n : Z) | PStream | PMetrics.

Inductive socket_error :=
| ETarget (e : target_error) | ETTL (s : string) | ERefused (reason : string) | EEnforcerBan (o : outcome)
| EStore | EForAndUntil | EFor (s : string) | EForNotPositive (s : string) | EUntil (s : string) | EUntilPast (s : string)
| ENotAllowed (p : prefix) | EEventsIP (s : string) | EReportIP (s : string) | EFilter (s : string) | ENoRecords (a : addr)
| ESelfBan (checks : list PreflightCheck) | EPreflight (checks : list PreflightCheck) | EWindow (s : string) | EWindowRange (w : duration)
| EPersist (e : rewrite_error) | EWindowLost | ENotArmed | ENoWindow | ESyncLingers (a : DisableAllData) | EFeedsLinger (a : DisableAllData)
| EPrune (r : prune_response) | ENoFeeds | ERefresh | EReadOnly (verb : string) | EUnknown (verb : string).

Abbreviation reply := (result socket_error payload).

(** What the world answers during one request, besides [denv]: the policy
    file's I/O per direction, the text of its errors, the repairs a reconcile
    reports, which rows a prune's batches take and when it is cancelled, the
    peer's credentials, the log lines kept about an address. *)
Record senv {X : Type} := MkSenv {
  sv_env : denv;
  fs_of : bool → fs_outcome;
  err_text : rewrite_error → string;
  sv_repairs : X → option (Z * Z * bool);
  sv_limits : limits;
  prune_ctx : nat → bool;
  cred : option (Z * Z);
  collectEvidence : addr → list string
}.
Arguments senv X : clear implicits.

(** The refusal of a guard, as it is audited and returned. *)
Definition cdn_range_text : string := "target overlaps a known shared CDN edge range (use --force to override)".
Definition cdn_unverified_text : string :=
  "CDN range data unavailable — target cannot be verified against shared edge ranges (use --force to ban anyway)".

Definition manual_error_text (target : prefix) (e : manual_error) : string :=
  let t := show_prefix target in
  match e with
  | MMappedTooBroad => "refusing manual ban: IPv4-mapped IPv6 prefix " +:+ t +:+
      " is broader than /96 and has no IPv4 equivalent; use plain IPv4 or IPv6 form"
  | MAllowlisted p => "target overlaps the allowlist/admin_cidrs: " +:+ t +:+ " overlaps " +:+ show_prefix p
  | MSSHPeer a => "target covers an active SSH session: " +:+ t +:+ " contains SSH peer " +:+ show_addr a
  | MForwardedPeer a => "target covers an active SSH session: " +:+ t +:+ " contains your session's IP " +:+ show_addr a
  | MCDNUnverified => "refusing manual ban of " +:+ t +:+ ": " +:+ cdn_unverified_text
  | MCDNRange p => cdn_range_text +:+ ": " +:+ t +:+ " overlaps " +:+ show_prefix p
  | MRateLimited => "decision: global ban rate limit exceeded"
  end.

Definition with_policy (p : Policy) (e : Decision.Engine) : Decision.Engine :=
  Decision.MkEngine p (allow e) (bansInWin e) (windowStart e) (peerCache e) (cdnWarnLast e) (notifyEdges e).

Section socket.
Context {X : Type}.
Abbreviation config := (Daemon.config X).
Abbreviation dm := (Daemon.dm X).

Definition vclock (v : senv X) : time := clock (sv_env v).
Definition vstore (v : senv X) : time := store_clock (sv_env v).

Definition publish_cli (kind : string) (p : prefix) (ttl : duration) (reason : string) : dm unit :=
  publishActionEvent kind (prefixDisplay p) 0 ttl reason "cli".

(** ** Operator bans *)
Definition refuseManualBan (v : senv X) (p : prefix) (ttl : duration) (reason : string) : dm reply :=
  _ ← db_ (AuditOp (vstore v) "ban_refused" p ttl reason);
  _ ← publish_cli "ban_refused" p ttl reason;
  mret (Err (ERefused reason)).

Definition authorize (v : senv X) (p : prefix) (force : bool) (peers : list addr) : dm (result manual_error unit) :=
  d ← get;
  let '(r, ds) := AuthorizeManualBan (denv_dec (sv_env v)) p force peers (MkD (decEng d) (store d) []) in
  _ ← put (λ d, with_store (Decision.st ds) (with_eng (Decision.eng ds) d));
  mret r.

(** The store side: a row for a host, an audit row for a range or when the row fails. *)
Definition recordManual (v : senv X) (op : string) (p : prefix) (ttl : duration) (reason : string) : dm unit :=
  d ← get;
  if single_host p then
    r ← db (RecordManualBan (vstore v) (paddr p) ttl reason (negb (armed d)));
    match r with Ok _ => skip | Err _ => db_ (AuditOp (vstore v) op p ttl reason) end
  else db_ (AuditOp (vstore v) op p ttl reason).

(** Kernel first, then store, under [enforceMu]. *)
Definition applyManual (cfg : config) (v : senv X) (op : string) (p : prefix) (ttl : duration) (reason : string) : dm reply :=
  d ← get;
  o ← (if armed d then enforce cfg (Gate.Ban (targetFromPrefix p ttl)) else mret Done);
  match o with
  | Done =>
    _ ← recordManual v op p ttl reason;
    _ ← publish_cli op p ttl reason;
    mret (Ok PNone)
  | _ => mret (Err (EEnforcerBan o))
  end.

Definition request_ttl (req : SocketRequest) : option duration :=
  if bool_decide (rq_TTL req = EmptyString) then Some 0 else parseExtendedDuration (rq_TTL req).

Definition handleBan (cfg : config) (v : senv X) (req : SocketRequest) : dm reply :=
  match parseSocketTarget (rq_IP req) with
  | Err e => mret (Err (ETarget e))
  | Ok p =>
    match request_ttl req with
    | None => mret (Err (ETTL (rq_TTL req)))
    | Some ttl =>
      d ← get;
      match runtimeAllowlistOverlap p d with
      | Some q => refuseManualBan v p ttl ("target " +:+ show_prefix p +:+ " overlaps runtime allowlist entry " +:+ show_prefix q)
      | None =>
        r ← authorize v p (Force req) (option_list (ParseAddr (TrimSpace (Peer req))));
        match r with
        | Err e => refuseManualBan v p ttl (manual_error_text p e)
        | Ok _ =>
          d ← get;
          applyManual cfg v (if armed d then "ban" else "dry_ban") p ttl
            (if bool_decide (rq_Reason req = EmptyString) then "manual ban via CLI" else rq_Reason req)
        end
      end
    end
  end.

(** A failing enforcer does not keep the store from forgetting the ban. *)
Definition handleUnban (cfg : config) (v : senv X) (req : SocketRequest) : dm reply :=
  match parseSocketTarget (rq_IP req) with
  | Err e => mret (Err (ETarget e))
  | Ok p =>
    _ ← enforce cfg (Gate.Unban (targetFromPrefix p 0));
    r ← (if single_host p then db (Store.Unban (vstore v) (paddr p))
         else db (_ ← UnbanPrefix (vstore v) p show_prefix; mret tt));
    match r with
    | Err _ => mret (Err EStore)
    | Ok _ => _ ← publish_cli "unban" p 0 (rq_Reason req); mret (Ok PNone)
    end
  end.

(** ** The runtime allowlist *)
Definition lift_one (cfg : config) (p : prefix) (b : Action) : dm unit :=
  if Contains p (Unmap (act_IP b)) then _ ← enforce cfg (Gate.Unban (host_target (act_IP b) 0)); skip else skip.

Definition liftBansCoveredBy (cfg : config) (v : senv X) (p : prefix) (reason : string) : dm unit :=
  r ← db (ActiveBans (vstore v));
  match r with
  | Err _ => skip
  | Ok bans =>
    _ ← each (lift_one cfg p) bans;
    l ← db (UnbanCovered (vstore v) p reason);
    match l with
    | Err _ => skip
    | Ok lifted => each (λ ip, publishActionEvent "unban" (show_addr ip) 0 0 reason "cli") lifted
    end
  end.

(** When the entry ends: never, after [For], or at [Until]. *)
Definition allow_expiry (now : time) (req : SocketRequest) : result socket_error (option time) :=
  if negb (bool_decide (For req = EmptyString)) && negb (bool_decide (Until req = EmptyString)) then Err EForAndUntil else
  if negb (bool_decide (For req = EmptyString)) then
    match parseExtendedDuration (For req) with
    | None => Err (EFor (For req))
    | Some dur => if dur <=? 0 then Err (EForNotPositive (For req)) else Ok (Some (now + dur))
    end
  else if negb (bool_decide (Until req = EmptyString)) then
    match parseUntil (Until req) with
    | None => Err (EUntil (Until req))
    | Some t => if t <=? now then Err (EUntilPast (Until req)) else Ok (Some t)
    end
  else Ok None.

Definition handleAllow (cfg : config) (v : senv X) (req : SocketRequest) : dm reply :=
  match parseSocketTarget (rq_IP req) with
  | Err e => mret (Err (ETarget e))
  | Ok p =>
    let p := Masked p in
    match allow_expiry (vclock v) req with
    | Err e => mret (Err e)
    | Ok exp =>
      r ← db (AddAllow (vstore v) p exp (rq_Reason req));
      match r with
      | Err _ => mret (Err EStore)
      | Ok _ =>
        let ttl := match exp with Some t => time_sub t (vclock v) | None => 0 end in
        _ ← db_ (AuditOp (vstore v) "allow" p ttl (rq_Reason req));
        _ ← reloadAllowlist;
        _ ← liftBansCoveredBy cfg v p ("allowlisted: " +:+ rq_Reason req);
        _ ← enforce cfg (Gate.Allow p);
        _ ← publish_cli "allow" p ttl (rq_Reason req);
        mret (Ok PNone)
      end
    end
  end.

Definition handleUnallow (cfg : config) (v : senv X) (req : SocketRequest) : dm reply :=
  match parseSocketTarget (rq_IP req) with
  | Err e => mret (Err (ETarget e))
  | Ok p =>
    let p := Masked p in
    r ← db (RemoveAllow p);
    match r with
    | Err _ => mret (Err EStore)
    | Ok n =>
      if n =? 0 then mret (Err (ENotAllowed p)) else
      _ ← db_ (AuditOp (vstore v) "unallow" p 0 (rq_Reason req));
      _ ← reloadAllowlist;
      _ ← syncEnforcerAllowlist cfg;
      _ ← publish_cli "unallow" p 0 (rq_Reason req);
      mret (Ok PNone)
    end
  end.

(** ** Read-only verbs *)
Definition count_op (o : Op) (l : list Action) : Z := Z.of_nat (length (List.filter (λ b, bool_decide (act_Op b = o)) l)).

Definition stateKeyArmWindow : string := "arm_window_expires_at".

Definition armedUntil : dm string :=
  d ← get;
  if negb (armed d) then mret EmptyString else
  r ← db (GetState stateKeyArmWindow);
  mret match r with Ok (Some val) => val | _ => EmptyString end.

Definition handleStatus (cfg : config) (v : senv X) : dm reply :=
  r ← db (ActiveBans (vstore v));
  match r with
  | Err _ => mret (Err EStore)
  | Ok bans =>
    until ← armedUntil;
    d ← get;
    let '(st, detail) := enforcementState (match gate d with Some _ => true | None => false end) (armed d) (health d) in
    let '(cs, cd) := collectorsState (collectors cfg) (observation d) in
    let simulated := count_op dry_ban bans in
    mret (Ok (PStatus (MkStatus (dur_string (dur_round (vclock v - startTime cfg) Second)) (armed d) st detail cs cd
      (match shared_ranges (sv_env v) with Some _ => true | None => false end)
      (Z.of_nat (length bans) - simulated) simulated until (version cfg))))
  end.

Definition asnString (n : Z) : string := if n =? 0 then EmptyString else "AS" +:+ show_Z n.

Definition geo (cfg : config) (a : addr) : string * string :=
  match enricher cfg with
  | None => (EmptyString, EmptyString)
  | Some look => let '(country, asn, _) := look a in (country, asnString asn)
  end.

Definition ban_entry (cfg : config) (b : Action) : BanEntry :=
  let ttl := if Permanent b then "permanent" else if 0 <? act_TTL b then dur_string (dur_round (act_TTL b) Second) else "expired" in
  let '(country, asn) := geo cfg (act_IP b) in
  MkBanEntry (show_addr (act_IP b)) ttl (Strike b) (act_Reason b) country asn (bool_decide (act_Op b = dry_ban)).

Definition handleList (cfg : config) (v : senv X) : dm reply :=
  r ← db (ActiveBans (vstore v));
  mret match r with Err _ => Err EStore | Ok bans => Ok (PBans (ban_entry cfg <$> bans)) end.

Definition handleListAllow (v : senv X) : dm reply :=
  r ← db ListAllow;
  mret match r with
       | Err _ => Err EStore
       | Ok l => Ok (PAllows ((λ kv, MkAllowLine (show_prefix kv.1) (formatExpires (al_expires kv.2) (vclock v)) (al_reason kv.2)) <$> l))
       end.

Definition default_limit (n : Z) : Z := if n <=? 0 then 100 else n.

Definition handleEvents (req : SocketRequest) : dm reply :=
  let limit := default_limit (Limit req) in
  if bool_decide (rq_IP req = EmptyString) then
    r ← db (ListAuditLog limit); mret match r with Err _ => Err EStore | Ok l => Ok (PEvents l) end
  else match ParseAddr (rq_IP req) with
       | None => mret (Err (EEventsIP (rq_IP req)))
       | Some a =>
         r ← db (AuditLogForIP (Unmap a) limit); mret match r with Err _ => Err EStore | Ok l => Ok (PEvents l) end
       end.

Definition handleReportList (cfg : config) (filter : string) (limit : Z) : dm reply :=
  let all := bool_decide (filter = EmptyString) || bool_decide (filter = "all") in
  let perm := bool_decide (filter = "permanent") in
  if negb all && negb perm then mret (Err (EFilter filter)) else
  r ← db (ListOffenders perm limit);
  mret match r with
       | Err _ => Err EStore
       | Ok l => Ok (POffenders ((λ o, (o, (geo cfg (os_IP o)).1, (geo cfg (os_IP o)).2)) <$> l))
       end.

Definition buildAbuseReport (cfg : config) (v : senv X) (a : addr) (limit : Z) (evidence : bool) : dm (result socket_error AbuseReport) :=
  o ← db (GetOffender a);
  match o with
  | Err _ => mret (Err EStore)
  | Ok o =>
    b ← db (ActiveBanForIP a);
    match b with
    | Err _ => mret (Err EStore)
    | Ok b =>
      match o, b with
      | None, None => mret (Err (ENoRecords a))
      | _, _ =>
        s ← db (StrikesForIP a limit);
        match s with
        | Err _ => mret (Err EStore)
        | Ok s =>
          e ← db (AuditLogForIP a limit);
          mret match e with
               | Err _ => Err EStore
               | Ok e => Ok (MkReport (show_addr a) o
                   ((λ look, let '(country, asn, org) := look a in (country, asnString asn, org)) <$> enricher cfg)
                   b s e (if evidence then collectEvidence v a else []))
               end
        end
      end
    end
  end.

(** The address is taken as it is spelled, unlike in [handleEvents]. *)
Definition handleReport (cfg : config) (v : senv X) (req : SocketRequest) : dm reply :=
  let limit := default_limit (Limit req) in
  if bool_decide (rq_IP req = EmptyString) then handleReportList cfg (Filter req) limit else
  match ParseAddr (rq_IP req) with
  | None => mret (Err (EReportIP (rq_IP req)))
  | Some a => r ← buildAbuseReport cfg v a limit (rq_Evidence req); mret (PReport <$> r)
  end.

(** ** Arming *)
Definition minArmWindow : duration := Minute.
Definition maxArmWindow : duration := 7 * 24 * Hour.

(** The file first: when it cannot be rewritten nothing else changes. *)
Definition setArmedState (v : senv X) (on : bool) (op reason : string) : dm (result rewrite_error unit) :=
  d ← get;
  let '(file, r) := match policyFile d with
                    | None => (None, Ok tt)
                    | Some data => let '(data, r) := RewriteArmed (fs_of v on) data on in (Some data, r)
                    end in
  _ ← put (with_file file);
  match r with
  | Err e => mret (Err e)
  | Ok _ =>
    _ ← put (λ d, with_eng (with_policy (SetArmed on (policy (decEng d))) (decEng d)) d);
    _ ← db_ (AuditSystem (vstore v) op reason);
    _ ← publishActionEvent op "system" 0 0 reason "operator";
    mret (Ok tt)
  end.

Definition parsePrefixOrAddrDaemon (s : string) : option prefix :=
  match ParsePrefix s with
  | Some p => Some p
  | None => (λ a, PrefixFrom a (BitLen a)) <$> ParseAddr s
  end.

(** Fails, beyond any force, when the operator's known address is covered by no allowlist. *)
Definition selfBanCheck (peer : string) (d : daemon X) : PreflightCheck * bool :=
  match (if bool_decide (peer = EmptyString) then None else ParseAddr (TrimSpace peer)) with
  | None => (MkCheck "self_ban" "warn"
      "could not determine your client IP (no SSH_CLIENT?) — make sure the IP you connect from is in admin_cidrs", false)
  | Some a =>
    let p := policy (decEng d) in
    let covered := isRuntimeAllowlisted a d ||
      existsb (λ s, match parsePrefixOrAddrDaemon s with Some q => Contains q a | None => false end) (Allowlist p ++ AdminCIDRs p) in
    if covered then (MkCheck "self_ban" "pass" ("your client IP " +:+ show_addr a +:+ " is covered by the allowlist"), false)
    else (MkCheck "self_ban" "fail" ("your client IP " +:+ show_addr a +:+
      " is NOT covered by admin_cidrs or the allowlist — arming could ban your own session (not bypassable with --force)"), true)
  end.

Definition countRecentDryBans (v : senv X) (window : duration) : dm Z :=
  r ← db (ListAuditLog 1000);
  mret match r with
       | Err _ => 0
       | Ok l => Z.of_nat (length (List.filter (λ e, bool_decide (a_op e = "dry_ban") && (vclock v - window <? a_recorded_at e)) l))
       end.

Definition enforcer_check (d : daemon X) : PreflightCheck :=
  match gate d with
  | None => MkCheck "enforcer" "fail" "no enforcer configured — bans would be recorded but never enforced; configure the enforce section first"
  | Some _ => MkCheck "enforcer" "pass" ("enforcer configured: " +:+ enforcer_name d)
  end.

Definition admin_check (p : Policy) : PreflightCheck :=
  match AdminCIDRs p, Allowlist p with
  | [], [] => MkCheck "admin_cidrs" "fail"
      "admin_cidrs and allowlist are both empty — nothing protects your own access; add your management IPs to admin_cidrs"
  | [], _ => MkCheck "admin_cidrs" "warn" "admin_cidrs is empty (allowlist has entries) — prefer admin_cidrs for operator IPs"
  | l, al => MkCheck "admin_cidrs" "pass" ("admin_cidrs: " +:+ show_Z (Z.of_nat (length l)) +:+ " entr" +:+
      (if bool_decide (length l = 1%nat) then "y" else "ies") +:+ ", allowlist: " +:+ show_Z (Z.of_nat (length al)))
  end.

Definition activity_check (simulated recent : Z) : PreflightCheck :=
  if (simulated =? 0) && (recent =? 0)
  then MkCheck "dry_run_activity" "warn" "no dry-run activity observed — consider running in dry-run first and reviewing what would be banned"
  else MkCheck "dry_run_activity" "pass" ("last 24h: " +:+ show_Z recent +:+ " dry_ban decision(s); currently " +:+ show_Z simulated +:+
         " simulated ban(s) would become candidates").

(** The checks, whether any failed, whether the self-ban check did. *)
Definition runArmPreflight (v : senv X) (peer : string) : dm (list PreflightCheck * bool * bool) :=
  d ← get;
  let self := selfBanCheck peer d in
  bans ← db (ActiveBans (vstore v));
  recent ← countRecentDryBans v (24 * Hour);
  let simulated := match bans with Ok l => count_op dry_ban l | Err _ => 0 end in
  let checks := [enforcer_check d; admin_check (policy (decEng d)); self.1; activity_check simulated recent] in
  mret (checks, existsb (λ c, bool_decide (Status c = "fail")) checks, self.2).

Definition arm_reason (force : bool) (revertAt : option time) : string :=
  "operator armed via 'ezyshield arm'" +:+ (if force then " (--force)" else EmptyString) +:+
  match revertAt with
  | Some t => " (auto-revert at " +:+ FormatRFC3339 t +:+ " unless confirmed with --keep)"
  | None => EmptyString
  end.

(** [Some None]: no window asked for. *)
Definition arm_window (now : time) (req : SocketRequest) : result socket_error (option time) :=
  if bool_decide (For req = EmptyString) then Ok None else
  match parseExtendedDuration (For req) with
  | None => Err (EWindow (For req))
  | Some w => if (w <? minArmWindow) || (maxArmWindow <? w) then Err (EWindowRange w) else Ok (Some (now + w))
  end.

Definition handleArm (v : senv X) (req : SocketRequest) : dm reply :=
  pre ← runArmPreflight v (Peer req);
  let '(checks, hasFail, selfBanFail) := pre in
  if (selfBanFail : bool) then mret (Err (ESelfBan checks)) else
  if hasFail && negb (Force req) then mret (Err (EPreflight checks)) else
  match arm_window (vclock v) req with
  | Err e => mret (Err e)
  | Ok revertAt =>
    r ← setArmedState v true "arm" (arm_reason (Force req) revertAt);
    match r with
    | Err e => mret (Err (EPersist e))
    | Ok _ =>
      match revertAt with
      | None => _ ← db_ (DeleteState stateKeyArmWindow); mret (Ok (PArm (MkArm true checks EmptyString)))
      | Some t =>
        w ← db (SetState stateKeyArmWindow (FormatRFC3339 t));
        match w with
        | Ok _ => mret (Ok (PArm (MkArm true checks (FormatRFC3339 t))))
        | Err _ => _ ← setArmedState v false "arm_revert" "reverting: arm window could not be persisted"; mret (Err EWindowLost)
        end
      end
    end
  end.

Definition handleArmKeep (v : senv X) : dm reply :=
  d ← get;
  if negb (armed d) then mret (Err ENotArmed) else
  r ← db (GetState stateKeyArmWindow);
  match r with
  | Err _ => mret (Err EStore)
  | Ok None => mret (Err ENoWindow)
  | Ok (Some _) =>
    w ← db (DeleteState stateKeyArmWindow);
    match w with
    | Err _ => mret (Err EStore)
    | Ok _ =>
      _ ← db_ (AuditSystem (vstore v) "arm_keep" "operator confirmed the arm window via 'ezyshield arm --keep'");
      _ ← publishActionEvent "arm_keep" "system" 0 0 "arm window confirmed" "operator";
      mret (Ok (PArm (MkArm true [] EmptyString)))
    end
  end.

Definition handleDisarm (v : senv X) : dm reply :=
  r ← setArmedState v false "disarm" "operator disarmed via 'ezyshield disarm'";
  match r with
  | Err e => mret (Err (EPersist e))
  | Ok _ => _ ← db_ (DeleteState stateKeyArmWindow); mret (Ok (PArm (MkArm false [] EmptyString)))
  end.

Definition window_msg : string := "arm window expired without 'ezyshield arm --keep' — reverted to dry-run".

(** A deadline that does not parse counts as passed. *)
Definition checkArmWindow (cfg : config) (v : senv X) (now : time) : dm unit :=
  r ← db (GetState stateKeyArmWindow);
  match r with
  | Err _ | Ok None => skip
  | Ok (Some val) =>
    d ← get;
    if negb (armed d) then db_ (DeleteState stateKeyArmWindow) else
    let deadline := default (now - Second) (ParseRFC3339 val) in
    if now <? deadline then skip else
    r ← setArmedState v false "arm_revert" window_msg;
    _ ← match r with
        | Ok _ => skip
        | Err e =>
          _ ← put (λ d, with_eng (with_policy (SetArmed false (policy (decEng d))) (decEng d)) d);
          db_ (AuditSystem (vstore v) "arm_revert" (window_msg +:+ " (policy.yaml rewrite failed: " +:+ err_text v e +:+ ")"))
        end;
    _ ← db_ (DeleteState stateKeyArmWindow);
    notifyCritical cfg window_msg
  end.

(** ** The panic button *)
Definition handleDisableAll (cfg : config) (v : senv X) : dm reply :=
  r ← setArmedState v false "disarm" "operator ran 'ezyshield disable --all'";
  match r with
  | Err e => mret (Err (EPersist e))
  | Ok _ =>
    _ ← db_ (DeleteState stateKeyArmWindow);
    n ← db (UnbanAll (vstore v) "panic button: operator ran disable --all");
    match n with
    | Err _ => mret (Err EStore)
    | Ok removed =>
      s ← syncEnforcer cfg (sv_env v) (sv_repairs v);
      match s with
      | SyncNoEnforcer | SyncDone Done =>
        match feedSyncer cfg with
        | None => mret (Ok (PDisable (MkDisable true removed true)))
        | Some sync =>
          _ ← put (λ d, with_feeds (MkFeeds (rep (feedState d)) ∅ (observed (feedState d)) (status (feedState d))) d);
          d ← get;
          let '(ok, x) := sync [] (ext d) in
          _ ← put (with_ext x);
          mret (if (ok : bool) then Ok (PDisable (MkDisable true removed true)) else Err (EFeedsLinger (MkDisable true removed false)))
        end
      | _ => mret (Err (ESyncLingers (MkDisable true removed false)))
      end
    end
  end.

(** ** Feeds and pruning *)
Definition by_name (a b : FeedStatusEntry) : Prop := String.le (fs_Name a) (fs_Name b).

#[export] Instance by_name_dec a b : Decision (by_name a b).
Proof. unfold by_name. apply _. Defined.

Definition feedsStatusSnapshot (s : feeds) : list FeedStatusEntry := merge_sort by_name (map_to_list (status s)).*2.

Definition has_feeds (cfg : config) : bool := feedLoop cfg || match feedRefresh cfg with Some _ => true | None => false end.

Definition handleFeedsStatus (cfg : config) : dm reply :=
  d ← get; mret (if has_feeds cfg then Ok (PFeeds (feedsStatusSnapshot (feedState d))) else Err ENoFeeds).

Definition handleFeedsRefresh (cfg : config) (v : senv X) (req : SocketRequest) : dm reply :=
  match feedRefresh cfg with
  | None => mret (Err ENoFeeds)
  | Some refresh =>
    let '(us, n) := refresh (rq_Name req) in
    _ ← each (handleFeedUpdate cfg (sv_env v)) us;
    mret match n with Some n => Ok (PRefreshed n) | None => Err ERefresh end
  end.

Definition handlePruneVerb (cfg : config) (v : senv X) (req : SocketRequest) : dm reply := λ d,
  let '(r, w) := handlePrune (sv_limits v) (prune_ctx v) (retention cfg) (DryRun req) (vclock v) (vstore v) (store d) in
  (match r with PruneData _ _ _ => Ok (PPrune r) | _ => Err (EPrune r) end, with_store w d).

(** ** Dispatch *)
Definition cmd_reason (v : senv X) (req : SocketRequest) (ok : bool) : string :=
  let target := if (64 <? str_len (rq_IP req))%nat then str_take 64 (rq_IP req) else rq_IP req in
  let peer := match cred v with
              | Some (uid, gid) => "peer_uid=" +:+ show_Z uid +:+ " peer_gid=" +:+ show_Z gid
              | None => "peer=unknown"
              end in
  "verb=" +:+ Verb req +:+ (if bool_decide (target = EmptyString) then EmptyString else " target=" +:+ target) +:+
  " ok=" +:+ show_bool ok +:+ " " +:+ peer.

Definition auditSocketCmd (v : senv X) (req : SocketRequest) (ok : bool) : dm unit :=
  db_ (AuditSystem (vstore v) "socket_cmd" (cmd_reason v req ok)).

(** [subscribe] only registers a stream; the text of [metrics] is left out. *)
Definition serve (cfg : config) (v : senv X) (req : SocketRequest) : dm reply :=
  let verb := Verb req in
  if bool_decide (verb = "status") then handleStatus cfg v else
  if bool_decide (verb = "list") then handleList cfg v else
  if bool_decide (verb = "list_allow") then handleListAllow v else
  if bool_decide (verb = "events") then handleEvents req else
  if bool_decide (verb = "report") then handleReport cfg v req else
  if bool_decide (verb = "subscribe") then mret (Ok PStream) else
  if bool_decide (verb = "arm") then handleArm v req else
  if bool_decide (verb = "arm_keep") then handleArmKeep v else
  if bool_decide (verb = "disarm") then handleDisarm v else
  if bool_decide (verb = "ban") then handleBan cfg v req else
  if bool_decide (verb = "unban") then handleUnban cfg v req else
  if bool_decide (verb = "allow") then handleAllow cfg v req else
  if bool_decide (verb = "unallow") then handleUnallow cfg v req else
  if bool_decide (verb = "metrics") then mret (Ok PMetrics) else
  if bool_decide (verb = "feeds_status") then handleFeedsStatus cfg else
  if bool_decide (verb = "feeds_refresh") then handleFeedsRefresh cfg v req else
  if bool_decide (verb = "disable_all") then handleDisableAll cfg v else
  if bool_decide (verb = "prune") then handlePruneVerb cfg v req else
  mret (Err (EUnknown verb)).

(** One connection: the read-only socket serves its closed list of verbs; every
    mutating request is journalled, refused ones too. *)
Definition handleConnScoped (cfg : config) (v : senv X) (readOnly : bool) (req : SocketRequest) : dm reply :=
  let mutating := bool_decide (Verb req ∈ mutatingVerbs) in
  if readOnly && negb (bool_decide (Verb req ∈ readOnlyVerbs)) then
    _ ← (if mutating then auditSocketCmd v req false else skip);
    mret (Err (EReadOnly (Verb req)))
  else
    r ← serve cfg v req;
    _ ← (if mutating then auditSocketCmd v req (is_ok r) else skip);
    mret r.

(** ** Starting up: what [Run] does before its loops *)
Definition startup (cfg : config) (v : senv X) : dm unit :=
  _ ← syncEnforcer cfg (sv_env v) (sv_repairs v);
  _ ← reloadAllowlist;
  _ ← syncEnforcerAllowlist cfg;
  checkArmWindow cfg v (vclock v).
End socket.
