(* ===== verification/DaemonSteps.v ===== *)
(** Every operation of the daemon is a sequence of elementary steps.

    [SimAt b d m]: running [m] in [d] is such a sequence, and with [b] it leaves
    the armed flag as it was; [Sim b m]: in every state.  The operations are
    walked once, for any set [Q] of addresses that may be sentenced. *)
From stdpp Require Import sorting relations.
From S2P Require Import Prelude GoStrings Netip NetipParse GoTime Sdk Policy Aggregate SSHPeers NotifyEdge Store StoreReport Retention Rules.
From S2P Require Import StoreIface Decision DecisionSafety DecisionGuards Gate EventsAgg EnfState Recheck NotifySuppress NftScript Feeds CollHealth Daemon.
From S2P Require Import Canon DaemonSpec ControlSocket.
#[local] Open Scope Z_scope.

(** A query that fails or not leaves the tables alone. *)
Lemma query_cases {A} (f : Store.db → A) w :
  ∃ o, query f w = (Ok (f (tables w)), MkWorld (tables w) o) ∨ query f w = (Err ESql, MkWorld (tables w) o).
Proof.
  unfold query, mbind, sql_mbind, read. destruct (driver_cases w) as [[o ->]|[o ->]]; exists o; [left|right]; done.
Qed.

Lemma ActiveBans_rows now w bans w' : ActiveBans now w = (Ok bans, w') → tables w' = tables w ∧
  ∀ a, a ∈ bans → act_Op a = ban → ∃ b, Store.bans (tables w) !! act_IP a = Some b ∧ dry_run b = false.
Proof.
  unfold ActiveBans. match goal with |- context [query ?f] => destruct (query_cases f w) as [o [-> | ->]] end; [|done].
  intros [= <- <-]. split; [done|]. intros a Ha Hop. apply list_elem_of_omap in Ha as ([ip b] & Hb%elem_of_map_to_list & Ha).
  unfold active_action in Ha. simpl in Ha. destruct (expires_at b) as [t|]; [destruct (t - now <=? 0); [done|]|]; simplify_eq;
    exists b; (split; [done|]); simpl in Hop; by destruct (dry_run b).
Qed.

(** What [Decide] returns as a ban. *)
Lemma Decide_bans v vs s a s' : Decide v vs s = (Ok a, s') → act_Op a = ban →
  IsArmed (policy (eng s)) = true ∧ ∃ x, x ∈ vs ∧ act_IP a = Unmap (v_IP x).
Proof.
  destruct vs as [|v0 rest]; [done|]. intros H Hop.
  destruct (Decide_ban (S := Store.world) v v0 rest s a s' H (or_introl Hop)) as (_ & _ & _ & d1 & d2 & Hp & _ & _ & Hk).
  pose proof (sk_op _ _ _ _ _ _ _ Hk) as Ho. pose proof (sk_ip _ _ _ _ _ _ _ Hk) as Hi. rewrite Hop, Hp in Ho.
  split; [by destruct (IsArmed _)|]. exists (best_verdict v0 rest). split; [apply best_verdict_elem|done].
Qed.

(** Rules speak of the address they are asked about. *)
Lemma evaluate_ip e ctx g x : x ∈ Evaluate e ctx g → v_IP x = agg_IP g.
Proof.
  intros (r & _ & _ & H & _)%evaluate_elem. unfold applyRule in H. destruct (_ <? _); [done|]. by simplify_eq.
Qed.

Lemma long_windows_ip e ctx ip now ws w vs w' x : long_windows e ctx ip now ws w = (Ok vs, w') → x ∈ vs → v_IP x = ip.
Proof.
  revert w vs w'. induction ws as [|[win kinds] ws IH]; intros w vs w'; simpl; [intros [= <- _]; by intros ?%elem_of_nil|].
  unfold mbind, sql_mbind. destruct (long_window e ctx ip now win kinds w) as [[l|] w1] eqn:E1; [|done].
  destruct (long_windows e ctx ip now ws w1) as [[rest|] w2] eqn:E2; [|done]. intros [= <- _] [Hx|Hx]%elem_of_app; [|by eapply IH].
  unfold long_window in E1. destruct (SumEventCounts _ _ _ w) as [[s|] w3]; [|simplify_eq; by apply elem_of_nil in Hx].
  destruct (ConsumedEventCounts _ _ _ w3) as [r w4]. simplify_eq. case_match; [by apply elem_of_nil in Hx|]. by apply evaluate_ip in Hx.
Qed.

Lemma AggregateIP_ip ip w now g : agg_IP (AggregateIP ip w now g) = ip.
Proof. unfold AggregateIP. destruct (buckets g !! ip); [|done]. cbv zeta. by destruct (map_fold _ _ _). Qed.

Section walk.
Context {X : Type} (cfg : Daemon.config X) (arming resync : Prop) (Q : addr → Prop) (K : prefix → Prop).
Abbreviation daemon := (Daemon.daemon X).
Abbreviation dm := (Daemon.dm X).
Implicit Types (d : daemon) (v : denv).

Definition SimAt (b : bool) d {A} (m : dm A) : Prop :=
  rtc (astep cfg arming resync Q K) d (m d).2 ∧ (b = true → armed (m d).2 = armed d).
Class Sim (b : bool) {A} (m : dm A) : Prop := sim : ∀ d, SimAt b d m.

(** ** The monad *)
#[export] Instance sim_ret b {A} (x : A) : Sim b (mret x).
Proof. intros d. split; [apply rtc_refl|done]. Qed.
#[export] Instance sim_skip b : Sim b skip.
Proof. apply sim_ret. Qed.

Lemma at_bind b d {A B} (m : dm A) (k : A → dm B) : SimAt true d m → SimAt b (m d).2 (k (m d).1) → SimAt b d (x ← m; k x).
Proof.
  unfold SimAt, mbind, dm_mbind. destruct (m d) as [x d1]. simpl. intros [H1 A1] [H2 A2].
  split; [by etransitivity|]. intros Hb. rewrite A2 by done. auto.
Qed.

#[export] Instance sim_bind b {A B} (m : dm A) (k : A → dm B) : Sim b m → (∀ x, Sim b (k x)) → Sim b (x ← m; k x).
Proof.
  intros Hm Hk d. specialize (Hm d). unfold SimAt, mbind, dm_mbind in *. destruct (m d) as [x d1]. simpl in Hm.
  destruct Hm as [H1 A1], (Hk x d1) as [H2 A2]. split; [by etransitivity|]. intros Hb. rewrite A2 by done. auto.
Qed.

Lemma sim_weaken b {A} (m : dm A) : Sim true m → Sim b m.
Proof. intros H d. destruct (H d). split; auto. Qed.

#[export] Instance sim_get b : Sim b get.
Proof. intros d. split; [apply rtc_refl|done]. Qed.

Lemma sim_at_get b {B} (k : daemon → dm B) : (∀ d, SimAt b d (k d)) → Sim b (d ← get; k d).
Proof. intros H d. exact (H d). Qed.

#[export] Instance sim_if b {A} (c : bool) (m n : dm A) : Sim b m → Sim b n → Sim b (if c then m else n).
Proof. by destruct c. Qed.

#[export] Instance sim_each b {A} (f : A → dm unit) l : (∀ x, Sim b (f x)) → Sim b (each f l).
Proof. intros Hf. induction l; simpl; apply _. Qed.

(** ** Primitives *)
Lemma sim_put b f : (∀ d, same_core d (f d)) → Sim b (put f).
Proof.
  intros Hf d. unfold SimAt, put. simpl. split; [by apply rtc_once, a_frame|]. intros _. unfold armed. by destruct (Hf d) as [-> _].
Qed.
#[local] Hint Extern 2 (Sim _ (put _)) => (apply sim_put; by intros ?) : typeclass_instances.

#[export] Instance sim_db b {A} (m : sql A) : (∀ on, Keeps (moves on Q K) m) → Sim b (db m).
Proof.
  intros Hm d. specialize (Hm (armed d) (store d)). unfold SimAt, db. destruct (m (store d)) as [r w]. simpl in *.
  split; [by apply rtc_once, a_store|done].
Qed.
#[export] Instance sim_db_ b {A} (m : sql A) : (∀ on, Keeps (moves on Q K) m) → Sim b (db_ m).
Proof. intros H. unfold db_. apply _. Qed.

Lemma at_db b d {A} (m : sql A) : Keeps (moves (armed d) Q K) m → SimAt b d (db m).
Proof.
  intros Hm. specialize (Hm (store d)). unfold SimAt, db. destruct (m (store d)) as [r w]. simpl in *.
  split; [by apply rtc_once, a_store|done].
Qed.

Lemma at_enforce b d c : entitled resync Q d c → SimAt b d (enforce cfg c).
Proof.
  intros Hc. unfold SimAt, enforce. destruct (gate d) as [g|] eqn:Eg; [|split; [apply rtc_refl|done]].
  pose proof (a_call cfg arming resync Q K d g c Eg Hc) as H. destruct (gate_run g c (ext d)) as [ok x]. simpl in *.
  split; [by apply rtc_once|done].
Qed.
Lemma sim_enforce b c : (∀ d, entitled resync Q d c) → Sim b (enforce cfg c).
Proof. intros H d. apply at_enforce, H. Qed.
#[local] Hint Extern 2 (Sim _ (enforce _ _)) => (apply sim_enforce; by intros ?) : typeclass_instances.

#[export] Instance sim_reload b : Sim b reloadAllowlist.
Proof.
  intros d. unfold reloadAllowlist. unfold SimAt, mbind, dm_mbind, db, ListAllow.
  destruct (query_cases (λ D, map_to_list (Store.allowlist D)) (store d)) as [o [-> | ->]]; simpl; (split; [|done]).
  - eapply rtc_l; [apply (a_store cfg arming resync Q K d (MkWorld (tables (store d)) o)), moves_same; reflexivity|].
    apply rtc_once, a_reload. intros p. rewrite list_elem_of_fmap. split.
    + intros ([q e] & -> & Hq%elem_of_map_to_list). simpl. eauto.
    + intros [e He]. exists (p, e). by rewrite elem_of_map_to_list.
  - apply rtc_once, a_store, moves_same; reflexivity.
Qed.

Ltac sim := repeat first [ progress cbv zeta | apply _ | apply sim_bind; [|intros ?]
  | match goal with |- Sim _ (match ?x with _ => _ end) => destruct x end ].

(** ** Enforcement state, notifications *)
#[export] Instance sim_send b n : Sim b (send cfg n).
Proof. unfold send. sim. Qed.
#[export] Instance sim_publish b k ip s ttl r src : Sim b (publishActionEvent k ip s ttl r src).
Proof. unfold publishActionEvent. sim. Qed.
#[export] Instance sim_detections b vs : Sim b (publishDetections vs).
Proof. unfold publishDetections. sim. Qed.
#[export] Instance sim_critical b m : Sim b (notifyCritical cfg m).
Proof. unfold notifyCritical. sim. Qed.
#[export] Instance sim_failure b ip e : Sim b (notifyEnforcerFailure cfg ip e).
Proof. unfold notifyEnforcerFailure. sim. Qed.
#[export] Instance sim_transition b v op r : Sim b (auditEnfTransition v op r).
Proof. unfold auditEnfTransition. sim. Qed.
#[export] Instance sim_note b v op o : Sim b (noteEnforceResult cfg v op o).
Proof. unfold noteEnforceResult. sim. Qed.
#[export] Instance sim_sync_allowlist b : Sim b (syncEnforcerAllowlist cfg).
Proof. unfold syncEnforcerAllowlist. sim. Qed.
#[export] Instance sim_repairs b v r o : Sim b (auditRepairs v r o).
Proof. unfold auditRepairs. sim. Qed.
#[export] Instance sim_audit_op b v op ip r : Sim b (audit_op v op ip r).
Proof. unfold audit_op. sim. Qed.
#[export] Instance sim_exhausted b v ip n : Sim b (noteGatedBanExhausted v ip n).
Proof. unfold noteGatedBanExhausted. sim. Qed.
#[export] Instance sim_action b a : Sim b (notifyAction cfg a).
Proof. unfold notifyAction. sim. Qed.
#[export] Instance sim_folded b v a : Sim b (notifyFolded cfg v a).
Proof. unfold notifyFolded. sim. Qed.
#[export] Instance sim_consume b v ip : Sim b (consumeEvidence cfg v ip).
Proof. unfold consumeEvidence. sim. Qed.
#[export] Instance sim_defer b v ip : Sim b (deferGatedBan cfg v ip).
Proof. unfold deferGatedBan. sim. Qed.

(** ** Enforcement *)
#[export] Instance sim_sync `{!Holds resync} b v r : Sim b (syncEnforcer cfg v r).
Proof.
  intros d. unfold syncEnforcer. apply (at_bind b d get); [apply sim_get|]. simpl. destruct (gate d); [|apply sim_ret].
  apply at_bind; [apply at_db, mk_ActiveBans|]. unfold db.
  destruct (ActiveBans (store_clock v) (store d)) as [[bans|e] w] eqn:E; simpl; [|apply sim_ret].
  apply ActiveBans_rows in E as [Hw Hb].
  apply (at_bind b _ get); [apply sim_get|]. simpl. apply at_bind; [|apply sim_bind; [apply _|intros ?]; sim].
  apply at_enforce. split; [done|]. intros t Ht. apply list_elem_of_omap in Ht as (a & Ha & Ht).
  destruct (bool_decide (act_Op a = ban)) eqn:Eo; [|done]. destruct (isRuntimeAllowlisted (act_IP a) _) eqn:Er; [done|]. simplify_eq/=.
  split; [|done]. split; [done|]. apply bool_decide_eq_true in Eo. simpl. rewrite Hw. by apply Hb.
Qed.

Lemma at_applyBan b v a d : armed d = true → Q (act_IP a) → SimAt b d (applyBan cfg v a).
Proof.
  intros Ha Hq. unfold applyBan. apply (at_bind b d get); [apply sim_get|]. simpl. destruct (gate d); [|apply sim_ret].
  apply at_bind; [|sim]. apply at_enforce. left. split; [done|]. split; [|done]. intros H. done.
Qed.

#[export] Instance sim_retry `{!Holds resync} b v it : Sim b (retryGatedBan cfg v it).
Proof.
  intros d. unfold retryGatedBan, storedBanTarget. cbv zeta.
  assert (∀ k : result store_error (option Target) → dm unit,
    (∀ r d', (∀ t, r = Ok (Some t) → stored d' t) → SimAt b d' (k r)) →
    SimAt b d (r ← (r ← db (ActiveBans (store_clock v));
       mret match r with Err e => Err e | Ok bans => Ok (stored_target (it_ip it) bans) end); k r)) as Hb.
  { intros k Hk. apply at_bind; [apply sim_bind; [apply _|intros ?; apply sim_ret]|]. apply Hk.
    unfold mbind, dm_mbind, db. destruct (ActiveBans (store_clock v) (store d)) as [[bans|e] w] eqn:E; simpl; [|done].
    intros t [= Ht]. unfold stored_target in Ht. apply fmap_Some in Ht as (a & Ha & ->).
    apply List.find_some in Ha as [Hin Hc]. apply andb_true_iff in Hc as [Hc _]. apply bool_decide_eq_true in Hc.
    apply ActiveBans_rows in E as [Hw Hrow]. split; [done|]. simpl. rewrite Hw. apply Hrow; [by apply list_elem_of_In|done]. }
  apply Hb. intros [[t|]|] d' Ht; try apply sim_ret. apply at_bind; [apply at_enforce; right; split; [done|by apply Ht]|].
  refine (sim (Sim := _) _). sim.
Qed.

(** A ban is dispatched while the policy that dictated it holds. *)
Lemma at_dispatch b v a d : (act_Op a = ban → armed d = true ∧ Q (act_IP a)) → SimAt b d (dispatch cfg v a).
Proof.
  intros Hban. unfold dispatch. apply at_bind; [apply sim_publish|].
  destruct (sim (b := true) (m := publishActionEvent (op_string (act_Op a)) (show_addr (act_IP a)) (Strike a) (act_TTL a) (act_Reason a) "pipeline") d)
    as [_ A1]. specialize (A1 eq_refl). set (d1 := (publishActionEvent _ _ _ _ _ _ d).2) in *.
  assert (Sim true (if bool_decide (act_Op a = ban) || bool_decide (act_Op a = dry_ban) then consumeEvidence cfg v (act_IP a) else skip)) as Hc by sim.
  apply at_bind; [apply Hc|]. destruct (Hc d1) as [_ A2]. specialize (A2 eq_refl). set (d2 := (_ d1).2) in *.
  apply at_bind; [|refine (sim (Sim := _) _); sim].
  destruct (bool_decide (act_Op a = ban)) eqn:Eo; [|apply sim_skip]. apply bool_decide_eq_true in Eo. destruct (Hban Eo) as [Ha Hq].
  apply at_applyBan; [congruence|done].
Qed.

(** ** Decisions *)
#[export] Instance sim_ineffective b v g : Sim b (BanIneffective cfg v g).
Proof. unfold BanIneffective. sim. Qed.
#[export] Instance sim_permanent b ip n : Sim b (BanIneffectivePermanent cfg ip n).
Proof. unfold BanIneffectivePermanent. sim. Qed.
#[export] Instance sim_deliver b v x : Sim b (deliver cfg v x).
Proof. unfold deliver. sim. Qed.

(** The engine and the store after a call on both. *)
Lemma at_engine d (s : dstate Store.world) : dmoves (armed d) Q K (MkD (decEng d) (store d) []) s →
  rtc (astep cfg arming resync Q K) d (with_store (Decision.st s) (with_eng (Decision.eng s) d)) ∧
  armed (with_store (Decision.st s) (with_eng (Decision.eng s) d)) = armed d.
Proof.
  intros H. destruct (H eq_refl) as [Ha Hm]. split; [|done].
  eapply rtc_l; [by apply (a_store cfg arming resync Q K d (Decision.st s))|].
  apply rtc_once, (a_engine cfg arming resync Q K (with_store (Decision.st s) d)). intros He. left. change (armed d = true). by rewrite <- Ha.
Qed.

Lemma at_decide v vs d : (∀ x, x ∈ vs → Q (Unmap (v_IP x))) → SimAt true d (decide_ cfg v vs).
Proof.
  intros HQ. unfold decide_. apply (at_bind true d get); [apply sim_get|]. simpl.
  pose proof (dsteps_Decide (armed d) Q K (denv_dec v) vs HQ (MkD (decEng d) (store d) [])) as H.
  destruct (Decide _ vs _) as [r s]. simpl in H. apply at_engine in H. destruct H as [H1 H2].
  apply at_bind; [split; [exact H1|intros _; exact H2]|]. refine (sim (Sim := _) _).
Qed.

(** A returned ban was decided armed, for one of the verdicts' addresses. *)
Lemma decide_bans v vs d a d' : (∀ x, x ∈ vs → Q (Unmap (v_IP x))) → decide_ cfg v vs d = (Ok a, d') → act_Op a = ban →
  armed d' = true ∧ Q (act_IP a).
Proof.
  intros HQ E Hop. destruct (at_decide v vs d HQ) as [_ A]. rewrite E in A. specialize (A eq_refl). simpl in A. rewrite A.
  unfold decide_, mbind, dm_mbind, get in E. destruct (Decide _ vs _) as [r s] eqn:Ed.
  destruct (put _ d) as [u d1]. destruct (each _ _ d1) as [u2 d2]. unfold mret, dm_mret in E. simplify_eq.
  destruct (Decide_bans _ _ _ _ _ Ed Hop) as (Ha & x & Hx & ->). split; [exact Ha|by apply HQ].
Qed.

(** After a decision: its action is dispatched, or its error handled. *)
Lemma at_decided b v vs d (ok : Action → dm unit) (err : decide_error → dm unit) :
  (∀ x, x ∈ vs → Q (Unmap (v_IP x))) → (∀ e, Sim b (err e)) →
  (∀ a d', (act_Op a = ban → armed d' = true ∧ Q (act_IP a)) → SimAt b d' (ok a)) →
  SimAt b d (r ← decide_ cfg v vs; match r with Err e => err e | Ok a => ok a end).
Proof.
  intros HQ He Ho. apply at_bind; [by apply at_decide|]. destruct (decide_ cfg v vs d) as [[a|e] d'] eqn:E; simpl; [|apply He].
  apply Ho. intros Hop. by eapply decide_bans.
Qed.

(** ** The pipeline *)

(** What a step returns, whatever the state. *)
Definition Yields {A} (P : A → Prop) (m : dm A) : Prop := ∀ d, P (m d).1.

Lemma sim_yield b {A B} (P : A → Prop) (m : dm A) (k : A → dm B) : Sim b m → Yields P m → (∀ x, P x → Sim b (k x)) → Sim b (x ← m; k x).
Proof.
  intros Hm Hy Hk d. specialize (Hm d). specialize (Hy d). unfold SimAt, mbind, dm_mbind in *. destruct (m d) as [x d1].
  destruct Hm as [H1 A1], (Hk x Hy d1) as [H2 A2]. split; [by etransitivity|]. intros Hb. rewrite A2 by done. auto.
Qed.

Definition about (ip : addr) (vs : list Verdict) : Prop := ∀ x, x ∈ vs → v_IP x = ip.

#[export] Instance sim_longRules b e ctx ip t : Sim b (db (evaluateLongRules e ctx ip t)).
Proof.
  apply sim_db. intros on. unfold evaluateLongRules. induction (map_to_list _) as [|[w kinds] ws IH]; simpl; [apply _|].
  apply keeps_bind; [apply _| |intros; apply keeps_bind; [apply _|exact IH|intros; apply _]].
  intros W. unfold long_window.
  pose proof (keeps (R := moves on Q K) (m := SumEventCounts ip kinds (HourBucket (t - w))) W) as H1.
  destruct (SumEventCounts _ _ _ W) as [[s|] W1]; [|done]. simpl in H1.
  pose proof (keeps (R := moves on Q K) (m := ConsumedEventCounts ip w t) W1) as H2.
  destruct (ConsumedEventCounts _ _ _ W1) as [r W2]. simpl in *. by etransitivity.
Qed.

#[export] Instance sim_evaluate b v ip long : Sim b (evaluateRules cfg v ip long).
Proof. unfold evaluateRules. sim. Qed.

Lemma about_evaluate v ip long : Yields (about ip) (evaluateRules cfg v ip long).
Proof.
  intros d. unfold evaluateRules, mbind, dm_mbind, get.
  set (vs := window_verdicts cfg v ip (agg d)).
  assert (about ip vs) as Hvs.
  { intros x Hx. unfold vs, window_verdicts in Hx. apply list_elem_of_In, in_flat_map in Hx as (w & _ & Hx).
    apply list_elem_of_In, evaluate_ip in Hx. by rewrite AggregateIP_ip in Hx. }
  set (lr := (if long then db _ else mret (Ok [])) d). destruct lr as [r d1] eqn:El. subst lr.
  assert (about ip (vs ++ match r with Ok l => l | Err _ => [] end)) as Ha.
  { intros x [Hx|Hx]%elem_of_app; [by apply Hvs|]. destruct r as [l|]; [|by apply elem_of_nil in Hx].
    destruct long; [|unfold mret, dm_mret in El; simplify_eq; by apply elem_of_nil in Hx].
    unfold db in El. destruct (evaluateLongRules _ _ _ _ (store d)) as [r w] eqn:E2. simplify_eq.
    unfold evaluateLongRules in E2. by eapply long_windows_ip. }
  destruct (Lookup ip _); [|exact Ha]. intros x (y & -> & Hy)%list_elem_of_fmap. exact (Ha y Hy).
Qed.

Lemma about_geo p ip vs : about ip vs → about ip (maybeInjectGeoVerdict cfg p ip vs).
Proof.
  intros H. unfold maybeInjectGeoVerdict. destruct (enricher cfg) as [look|]; [|done]. case_match; [done|].
  destruct (look ip) as [[country asn] org].
  assert (∀ y, v_IP y = ip → about ip (vs ++ [y])) as Hg.
  { intros y Hy x [Hx|Hx%list_elem_of_singleton]%elem_of_app; [by apply H|by subst]. }
  cbv zeta. repeat case_match; auto.
Qed.

#[export] Instance sim_consult b v ip vs : Sim b (maybeConsultAI cfg v ip vs).
Proof. unfold maybeConsultAI, aiEligible. sim. Qed.

(** Whatever the AI layer answers, its verdicts are about the address asked. *)
Lemma about_bound vs ip : about ip (bindVerdictsToIP vs ip).
Proof. intros x Hx. apply list_elem_of_omap in Hx as (y & _ & Hy). by case_bool_decide; simplify_eq. Qed.

Lemma about_consult v ip vs : about ip vs → Yields (about ip) (maybeConsultAI cfg v ip vs).
Proof.
  intros H d. unfold maybeConsultAI, mbind, dm_mbind. destruct (aiEligible _ _ _ _ d) as [ok d1]. simpl.
  destruct ok; [|done]. intros x [Hx|Hx]%elem_of_app; [by apply H|by eapply about_bound].
Qed.

#[export] Instance sim_schedule b v a vs : Sim b (maybeScheduleSSHRecheck cfg v a vs).
Proof. unfold maybeScheduleSSHRecheck. sim. Qed.
#[export] Instance sim_count b v ev : Sim b (countEvent cfg v ev).
Proof. unfold countEvent. sim. Qed.

Lemma sim_processEvent b v ev : Q (Unmap (SourceIP ev)) → Sim b (processEvent cfg v ev).
Proof.
  intros HQ. unfold processEvent. apply sim_bind; [sim|intros _]. apply sim_bind; [sim|intros long].
  apply (sim_yield b (about (SourceIP ev))); [sim|apply about_evaluate|]. intros vs Hvs. destruct vs as [|v0 vs0]; [sim|].
  apply (sim_yield b (about (SourceIP ev))); [sim|by apply about_consult|]. clear v0 vs0 Hvs. intros vs Hvs.
  apply sim_bind; [sim|intros d0]. cbv zeta. set (vs' := maybeInjectGeoVerdict _ _ _ _).
  assert (about (SourceIP ev) vs') as Hvs' by by apply about_geo. clearbody vs'.
  apply sim_bind; [sim|intros _]. apply sim_bind; [sim|intros d1]. case_match; [sim|].
  intros d. eapply (at_decided b v vs' d (λ a, _ ← dispatch cfg v a; maybeScheduleSSHRecheck cfg v a vs')
    (λ e, match e with ERateLimited => notifyCritical cfg "ban rate limit exceeded" | _ => skip end)).
  - intros x Hx. by rewrite (Hvs' x Hx).
  - intros []; sim.
  - intros a d' Hb. apply at_bind; [by apply at_dispatch|apply sim_schedule].
Qed.

Lemma sim_processAI b v ip n : Q (Unmap ip) → Sim b (processAIAsyncItem cfg v ip n).
Proof.
  intros HQ. unfold processAIAsyncItem. apply sim_bind; [sim|intros d0]. case_match; [sim|].
  apply sim_bind; [unfold aiEligible; sim|intros ok]. case_match; [sim|]. apply sim_bind; [sim|intros d1]. case_match; [sim|].
  pose proof (about_bound (ai_raw v) ip) as Hvs. cbv zeta. destruct (bindVerdictsToIP (ai_raw v) ip) as [|v0 vs] eqn:Ev; [sim|].
  rewrite <- Ev in *. apply sim_bind; [sim|intros _]. apply sim_bind; [sim|intros d2]. case_match; [sim|].
  intros d. eapply (at_decided b v (bindVerdictsToIP (ai_raw v) ip) d (λ a, dispatch cfg v a) (λ _, skip)).
  - intros x Hx. by rewrite (Hvs x Hx).
  - intros _. sim.
  - intros a d' Hb. by apply at_dispatch.
Qed.

(** ** Re-checks and ticks *)
#[export] Instance sim_dropped b v ip n : Sim b (noteSSHRecheckDropped v ip n).
Proof. unfold noteSSHRecheckDropped. sim. Qed.
#[export] Instance sim_requeue b v it : Sim b (requeueRecheck cfg v it).
Proof. unfold requeueRecheck. sim. Qed.

Lemma sim_recheck b v it : Q (Unmap (it_ip it)) → Sim b (recheckAfterAntiLockout cfg v it).
Proof.
  intros HQ. unfold recheckAfterAntiLockout. apply sim_bind; [sim|intros d0]. case_match; [sim|].
  apply (sim_yield b (about (it_ip it))); [sim|apply about_evaluate|]. intros vs Hvs.
  apply sim_bind; [sim|intros d1]. cbv zeta. assert (about (it_ip it) (maybeInjectGeoVerdict cfg (policy (decEng d1)) (it_ip it) vs)) as Hg by by apply about_geo.
  revert Hg. generalize (maybeInjectGeoVerdict cfg (policy (decEng d1)) (it_ip it) vs) as gs. intros gs Hg.
  destruct gs as [|g0 gs0] eqn:Eg; [sim|]. rewrite <- Eg in *. clear Eg g0 gs0.
  set (vs' := gs ++ _). assert (about (it_ip it) vs') as Hvs'.
  { intros x [Hx|Hx]%elem_of_app; [by apply Hg|]. destruct (it_ai it) as [y|]; [|by apply elem_of_nil in Hx].
    case_bool_decide; [|by apply elem_of_nil in Hx]. apply list_elem_of_singleton in Hx. by subst. }
  clearbody vs'. intros d. eapply (at_decided b v vs' d
    (λ a, _ ← dispatch cfg v a; if bool_decide (act_Op a = record) && bool_decide (act_Reason a = ReasonAntiLockoutSSHPeer)
                                then requeueRecheck cfg v it else skip)
    (λ e, match e with ERateLimited => _ ← notifyCritical cfg "ban rate limit exceeded"; requeueRecheck cfg v it | _ => skip end)).
  - intros x Hx. by rewrite (Hvs' x Hx).
  - intros []; sim.
  - intros a d' Hb. apply at_bind; [by apply at_dispatch|refine (sim (Sim := _) _); sim].
Qed.

(** ** Reputation feeds *)
Lemma desire_contributed u kept s e : contributed (desire u kept s).2 e → contributed s e ∨ e ∈ feed_elements (fu_TTL u) kept.
Proof.
  intros (name & l & Hl & He). unfold desire in Hl. simpl in Hl. destruct (decide (fu_Name u = name)) as [<-|].
  - rewrite lookup_insert_eq in Hl. simplify_eq. by right.
  - rewrite lookup_insert_ne in Hl by done. left. by exists name, l.
Qed.

Lemma kept_screened v d u e : Forall wf_prefix (Prefixes u) →
  e ∈ feed_elements (fu_TTL u) (filterFeedEntries (feed_guards cfg v d) (Prefixes u)).1 → screened cfg e.
Proof.
  intros Hwf (p & -> & Hp)%list_elem_of_fmap. apply list_elem_of_In, filter_In in Hp as [Hp Hk]. apply list_elem_of_In in Hp.
  eexists _, p. split; [done|]. split; [by eapply Forall_forall in Hwf|]. intros q Hq.
  apply negb_true_iff in Hk. unfold feedEntryGuarded in Hk. do 3 apply orb_false_iff in Hk as [Hk _]. simpl in Hk.
  rewrite existsb_false_elem in Hk. by apply Hk.
Qed.

Lemma combined_contributed order s e : (∀ l, order l ≡ₚ l) → e ∈ combined order s → contributed s e.
Proof.
  intros Ho He. unfold combined in He. apply list_elem_of_In, in_concat in He as (l & Hl & He).
  apply list_elem_of_In, list_elem_of_fmap in Hl as ([name l'] & -> & Hl). rewrite Ho in Hl. apply elem_of_map_to_list in Hl.
  exists name, l'. split; [done|]. by apply list_elem_of_In.
Qed.

Lemma at_desire b d s : (∀ e, contributed s e → contributed (feedState d) e ∨ screened cfg e) → SimAt b d (put (with_feeds s)).
Proof. intros H. split; [by apply rtc_once, a_desire|done]. Qed.

Lemma sim_feedUpdate b v u : (∀ l, feed_order v l ≡ₚ l) → Forall wf_prefix (Prefixes u) → Sim b (handleFeedUpdate cfg v u).
Proof.
  intros Ho Hwf d. unfold handleFeedUpdate. apply (at_bind b d get); [apply sim_get|]. simpl.
  set (kept := (filterFeedEntries (feed_guards cfg v d) (Prefixes u)).1).
  assert (∀ e, e ∈ feed_elements (fu_TTL u) kept → screened cfg e) as Hk by (intros e He; by eapply kept_screened).
  unfold filterFeedEntries. fold kept. assert (Sim true (if bool_decide (fu_Action u = "block") then applyFeedBlock cfg v u kept else observeFeed u kept)) as Hs.
  - apply sim_if.
    + intros d1. unfold applyFeedBlock. apply (at_bind true d1 get); [apply sim_get|]. simpl.
      pose proof (desire_contributed u kept (feedState d1)) as Hd. set (s := (desire u kept (feedState d1)).2) in Hd.
      apply at_bind; [apply at_desire; intros e He; destruct (Hd e He); auto|].
      apply at_bind; [|apply sim_ret]. simpl. destruct (armed _) eqn:Ea; [|apply sim_skip].
      destruct (feedSyncer cfg) as [sync|] eqn:Es; [|apply sim_skip].
      split; [|done]. apply rtc_once, (a_feeds cfg arming resync Q K (with_feeds s d1)); [done|]. right. split; [done|].
      intros e. by apply combined_contributed.
    + intros d1. unfold observeFeed. apply (at_bind true d1 get); [apply sim_get|]. unfold observe. simpl.
      apply at_bind; [|apply sim_ret]. apply at_desire. intros e He. left. exact He.
  - destruct (Hs d) as [S1 S2]. apply at_bind; [by split|]. apply at_bind; [|apply sim_db_; apply _].
    split; [|done]. apply rtc_once, a_desire. intros e He. left. exact He.
Qed.

#[export] Instance sim_collector b v sv name r s : Sim b (collectorRun cfg v sv name r s).
Proof. unfold collectorRun. sim. Qed.
#[export] Instance sim_expireBans `{!Holds resync} b v r t : Sim b (expireBansTick cfg v r t).
Proof. unfold expireBansTick. sim. Qed.
#[export] Instance sim_expireAllows b t : Sim b (expireAllowsTick cfg t).
Proof. unfold expireAllowsTick. sim. Qed.
#[export] Instance sim_flush b reached t : Sim b (flushAggregates cfg reached t).
Proof. unfold flushAggregates. sim. Qed.
#[export] Instance sim_notifyFlush b order t : Sim b (notifyFlushTick cfg order t).
Proof. unfold notifyFlushTick. sim. Qed.

(** ** The control socket *)
Lemma parseSocketTarget_wf s p : parseSocketTarget s = Ok p → wf_prefix p.
Proof.
  unfold parseSocketTarget. case_bool_decide; [done|]. destruct (ParsePrefix s) as [q|] eqn:Ep.
  - destruct (NormalizePrefix q) as [r|] eqn:En; [|done]. intros [= <-]. eapply NormalizePrefix_wf; [done|by eapply ParsePrefix_wf].
  - destruct (ParseAddr s) as [a|] eqn:Ea; [|done]. intros [= <-]. apply ParseAddr_wf in Ea as [Hw Hv].
    set (u := Unmap a). rewrite <- withoutZone_PrefixFrom.
    assert (plain (withoutZone u)) as Hu by (apply withoutZone_plain; [by apply Unmap_wf|unfold u; by rewrite Unmap_valid]).
    replace (BitLen u) with (BitLen (withoutZone u)) by (by destruct u).
    destruct (PrefixFrom_wf (withoutZone u) (BitLen (withoutZone u)) Hu) as [-> Hp]; [|done].
    pose proof (BitLen_nonneg (withoutZone u)). lia.
Qed.

Lemma ranged_target p ttl : wf_prefix p → ranged (targetFromPrefix p ttl).
Proof. intros Hp. unfold targetFromPrefix, ranged. by destruct (single_host p). Qed.

#[export] Instance sim_setArmed sv op reason : Sim false (setArmedState sv false op reason).
Proof.
  unfold setArmedState. apply sim_bind; [sim|intros d0]. case_match. apply sim_bind; [sim|intros _].
  destruct r; [|sim]. apply sim_bind; [|intros _; sim]. intros d. split; [|done].
  apply rtc_once, (a_engine cfg arming resync Q K d). done.
Qed.

#[export] Instance sim_checkArm sv now : Sim false (checkArmWindow cfg sv now).
Proof.
  unfold checkArmWindow. apply sim_bind; [sim|intros r]. destruct r as [[val|]|]; [|sim..].
  apply sim_bind; [sim|intros d0]. case_match; [sim|]. cbv zeta. case_match; [sim|].
  apply sim_bind; [sim|intros r]. apply sim_bind; [|intros _; sim]. destruct r; [sim|].
  apply sim_bind; [|intros _; sim]. intros d. split; [|done]. apply rtc_once, (a_engine cfg arming resync Q K d). done.
Qed.

#[export] Instance sim_startup `{!Holds resync} sv : Sim false (startup cfg sv).
Proof. unfold startup. sim. Qed.

Section requests.
Context (HQ : ∀ a, Q a).

#[export] Instance sim_refuse b sv p ttl r : Sim b (refuseManualBan sv p ttl r).
Proof. unfold refuseManualBan, publish_cli. sim. Qed.

#[export] Instance sim_authorize b sv p force peers : Sim b (authorize sv p force peers).
Proof.
  intros d. unfold authorize. apply (at_bind b d get); [apply sim_get|]. simpl.
  pose proof (dsteps_Authorize (armed d) Q K (denv_dec (sv_env sv)) p force peers (MkD (decEng d) (store d) [])) as H.
  destruct (AuthorizeManualBan _ _ _ _ _) as [r s]. simpl in H. apply at_engine in H. destruct H as [H1 H2].
  apply at_bind; [split; [exact H1|intros _; exact H2]|]. apply sim_ret.
Qed.

Lemma sim_recordManual b sv op p ttl r : Sim b (recordManual sv op p ttl r).
Proof using All.
  intros d. unfold recordManual. apply (at_bind b d get); [apply sim_get|]. simpl. destruct (single_host p); [|apply sim_db_; apply _].
  apply at_bind; [by apply at_db, mk_RecordManualBan|]. refine (sim (Sim := _) _). sim.
Qed.

Lemma sim_applyManual b sv op p ttl r : wf_prefix p → Sim b (applyManual cfg sv op p ttl r).
Proof using All.
  intros Hp d. unfold applyManual. apply (at_bind b d get); [apply sim_get|]. simpl. apply at_bind.
  - destruct (armed d) eqn:Ea; [|apply sim_ret]. apply at_enforce. left. split; [done|]. split; [by apply ranged_target|done].
  - pose proof sim_recordManual. refine (sim (Sim := _) _). unfold publish_cli. sim.
Qed.

Lemma sim_ban b sv req : Sim b (handleBan cfg sv req).
Proof using All.
  unfold handleBan. destruct (parseSocketTarget (rq_IP req)) as [p|] eqn:Ep; [|sim]. apply parseSocketTarget_wf in Ep.
  destruct (request_ttl req); [|sim]. apply sim_bind; [sim|intros d0]. case_match; [sim|]. apply sim_bind; [sim|intros r].
  destruct r; [|sim]. apply sim_bind; [sim|intros d1]. by apply sim_applyManual.
Qed.
End requests.

#[export] Instance sim_unban b sv req : Sim b (handleUnban cfg sv req).
Proof. unfold handleUnban, publish_cli. sim. Qed.
#[export] Instance sim_lift b sv p r : Sim b (liftBansCoveredBy cfg sv p r).
Proof. unfold liftBansCoveredBy, lift_one. sim. Qed.

(** Allow and unallow requests that do not name an entry in [K]. *)
Definition unnamed (req : SocketRequest) : Prop := ∀ p, parseSocketTarget (rq_IP req) = Ok p → ¬ K (Masked p).

Lemma sim_allow b sv req : unnamed req → Sim b (handleAllow cfg sv req).
Proof.
  intros Hu. unfold unnamed in Hu. unfold handleAllow. destruct (parseSocketTarget (rq_IP req)) as [p|] eqn:Ep; [|sim]. specialize (Hu p eq_refl). apply parseSocketTarget_wf in Ep.
  cbv zeta. case_match; [|sim]. apply sim_bind; [|unfold publish_cli; intros ?; sim].
  apply sim_db. intros on. apply mk_AddAllow; [by do 2 apply Masked_wf|by rewrite Masked_idemp].
Qed.
Lemma sim_unallow b sv req : unnamed req → Sim b (handleUnallow cfg sv req).
Proof.
  intros Hu. unfold unnamed in Hu. unfold handleUnallow.
  destruct (parseSocketTarget (rq_IP req)) as [p|] eqn:Ep; [|sim]. specialize (Hu p eq_refl). apply parseSocketTarget_wf in Ep.
  cbv zeta. apply sim_bind; [|unfold publish_cli; intros ?; sim]. apply sim_db. intros on. apply mk_RemoveAllow. by rewrite Masked_idemp.
Qed.

#[export] Instance sim_status b sv : Sim b (handleStatus cfg sv).
Proof. unfold handleStatus, armedUntil. sim. Qed.
#[export] Instance sim_list b sv : Sim b (handleList cfg sv).
Proof. unfold handleList. sim. Qed.
#[export] Instance sim_listAllow b sv : Sim b (handleListAllow sv).
Proof. unfold handleListAllow. sim. Qed.
#[export] Instance sim_events b req : Sim b (handleEvents req).
Proof. unfold handleEvents. sim. Qed.
#[export] Instance sim_report b sv req : Sim b (handleReport cfg sv req).
Proof. unfold handleReport, handleReportList, buildAbuseReport. sim. Qed.
#[export] Instance sim_preflight b sv peer : Sim b (runArmPreflight sv peer).
Proof. unfold runArmPreflight, countRecentDryBans. sim. Qed.
#[export] Instance sim_keep b sv : Sim b (handleArmKeep sv).
Proof. unfold handleArmKeep. sim. Qed.
#[export] Instance sim_disarm sv : Sim false (handleDisarm sv).
Proof. unfold handleDisarm. sim. Qed.
#[export] Instance sim_feedsStatus b : Sim b (handleFeedsStatus cfg).
Proof. unfold handleFeedsStatus. sim. Qed.

#[export] Instance sim_prune b sv req : Sim b (handlePruneVerb cfg sv req).
Proof.
  intros d. unfold SimAt, handlePruneVerb.
  pose proof (moves_handlePrune (armed d) Q K (sv_limits sv) (prune_ctx sv) (retention cfg) (DryRun req) (vclock sv) (vstore sv) (store d)) as H.
  destruct (handlePrune _ _ _ _ _ _ _) as [r w]. simpl in *. split; [|done]. by apply rtc_once, a_store.
Qed.

#[export] Instance sim_disableAll `{!Holds resync} sv : Sim false (handleDisableAll cfg sv).
Proof.
  unfold handleDisableAll. apply sim_bind; [sim|intros r]. destruct r; [|sim]. apply sim_bind; [sim|intros _].
  apply sim_bind; [sim|intros n]. destruct n as [removed|]; [|sim]. apply sim_bind; [sim|intros s].
  assert (Sim false (match feedSyncer cfg with
    | None => mret (Ok (PDisable (MkDisable true removed true)))
    | Some sync => _ ← put (λ d, with_feeds (MkFeeds (rep (feedState d)) ∅ (observed (feedState d)) (status (feedState d))) d);
        d ← get; let '(ok, x) := sync [] (ext d) in _ ← put (with_ext x);
        mret (if (ok : bool) then Ok (PDisable (MkDisable true removed true)) else Err (EFeedsLinger (MkDisable true removed false))) end : dm reply)) as Hf.
  { destruct (feedSyncer cfg) as [sync|] eqn:Es; [|sim]. apply sim_bind.
    - intros d. split; [|done]. apply rtc_once, a_desire. intros e (name & l & Hl & _). simpl in Hl. by rewrite lookup_empty in Hl.
    - intros _ d. apply (at_bind false d get); [apply sim_get|]. simpl.
      pose proof (a_feeds cfg arming resync Q K d sync [] Es (or_introl eq_refl)) as Ha. destruct (sync [] (ext d)) as [ok x].
      apply at_bind; [split; [by apply rtc_once|done]|]. apply sim_ret. }
  destruct s as [| |[]]; try exact Hf; sim.
Qed.

Lemma sim_refresh b sv req : (∀ l, feed_order (sv_env sv) l ≡ₚ l) →
  (∀ refresh name us n, feedRefresh cfg = Some refresh → refresh name = (us, n) → Forall (λ u, Forall wf_prefix (Prefixes u)) us) →
  Sim b (handleFeedsRefresh cfg sv req).
Proof.
  intros Ho Hr. unfold handleFeedsRefresh. destruct (feedRefresh cfg) as [refresh|] eqn:Ef; [|sim].
  destruct (refresh (rq_Name req)) as [us n] eqn:Eu. specialize (Hr _ _ _ _ eq_refl Eu).
  apply sim_bind; [|intros _; sim]. clear Eu. induction Hr as [|u us Hu _ IH]; simpl; [sim|].
  apply sim_bind; [by apply sim_feedUpdate|intros _; exact IH].
Qed.

Lemma sim_arm sv req : arming → Sim false (handleArm sv req).
Proof.
  intros Harm. unfold handleArm. apply sim_bind; [sim|intros [[checks hf] sf]]. destruct sf; [sim|]. case_match; [sim|].
  destruct (arm_window _ _) as [revertAt|]; [|sim]. apply sim_bind.
  - unfold setArmedState. apply sim_bind; [sim|intros d0]. case_match. apply sim_bind; [sim|intros _].
    destruct r; [|sim]. apply sim_bind; [|intros _; sim]. intros d. split; [|done].
    apply rtc_once, (a_engine cfg arming resync Q K d). auto.
  - intros r. destruct r; [|sim]. destruct revertAt; sim.
Qed.
End walk.
