(* ===== verification/DaemonSafety.v ===== *)
(** What the daemon as a whole guarantees: its operations refine the elementary
    steps of [DaemonSpec], and along every sequence of operations the packet
    filter, the feeds and the store stay within what the operator allowed. *)
From stdpp Require Import relations.
From S2P Require Import FeedParse.
From S2P Require Import Prelude GoStrings Netip NetipParse Sdk Policy Aggregate NotifyEdge SSHPeers Store Retention Rules.
From S2P Require Import StoreIface Decision Gate EnfState Recheck NftScript Feeds CollHealth Canon Daemon DaemonSpec ControlSocket DaemonSteps.
#[local] Open Scope Z_scope.

Section daemon.
Context {X : Type} (cfg : Daemon.config X).
Abbreviation daemon := (Daemon.daemon X).
Implicit Types (d : daemon).

(** ** Operations: what the daemon's goroutines do, one at a time *)
Inductive dop :=
| OStartup (v : senv X)
| OLine (v : denv) (line : string) (events : list Event)
| ORecheck (v : denv) (tick : time)
| OExpireBans (v : denv) (repairs : X → option (Z * Z * bool)) (tick : time)
| OExpireAllows (tick : time)
| OFlush (reached : list addr) (tick : time)
| ONotifyFlush (order : list (string * NotifySuppress.suppressWindow) → list (string * NotifySuppress.suppressWindow)) (tick : time)
| OEnforceProbe (v : denv) (repairs : X → option (Z * Z * bool))
| OFeed (v : denv) (u : FeedUpdate)
| OCollector (v : denv) (sv : supervision) (name : string) (r : coll_run) (s : supervisor)
| OArmWindow (v : senv X) (tick : time)
| OAIAsync (v : denv) (ip : addr) (ruleScore : Z)
| OMaintenance (lim : limits) (ctx : nat → bool) (tick stamp : time)
| ORequest (v : senv X) (readOnly : bool) (req : SocketRequest).

Definition run_op (o : dop) (d : daemon) : daemon :=
  match o with
  | OStartup v => (startup cfg v d).2
  | OLine v line events => (processRaw cfg v line events d).2
  | ORecheck v t => (recheckTick cfg v t d).2
  | OExpireBans v r t => (expireBansTick cfg v r t d).2
  | OExpireAllows t => (expireAllowsTick cfg t d).2
  | OFlush reached t => (flushAggregates cfg reached t d).2
  | ONotifyFlush order t => (notifyFlushTick cfg order t d).2
  | OEnforceProbe v r => (syncEnforcer cfg v r d).2
  | OFeed v u => (handleFeedUpdate cfg v u d).2
  | OCollector v sv name r s => (collectorRun cfg v sv name r s d).2
  | OArmWindow v t => (checkArmWindow cfg v t d).2
  | OAIAsync v ip n => (processAIAsyncItem cfg v ip n d).2
  | OMaintenance lim ctx t stamp => with_store (runPruneOnce lim ctx (retention cfg) t stamp (store d)) d
  | ORequest v readOnly req => (handleConnScoped cfg v readOnly req d).2
  end.

Definition run_ops (os : list dop) (d : daemon) : daemon := fold_left (λ d o, run_op o d) os d.

(** Prefixes that [net/netip] can construct come from feeds; map iteration
    orders are orders. *)
Definition feed_source_ok : Prop := ∀ refresh name us n,
  feedRefresh cfg = Some refresh → refresh name = (us, n) → Forall (λ u, Forall wf_prefix (Prefixes u)) us.

Definition op_ok (o : dop) : Prop :=
  match o with
  | OFeed v u => (∀ l, feed_order v l ≡ₚ l) ∧ Forall wf_prefix (Prefixes u)
  | ORequest v _ _ => ∀ l, feed_order (sv_env v) l ≡ₚ l
  | _ => True
  end.

(** An operator asks to arm. *)
Definition asks_arm (o : dop) : Prop := match o with ORequest _ false req => Verb req = "arm" | _ => False end.

(** No allow or unallow request names an entry of [K]. *)
Definition leaves (K : prefix → Prop) (o : dop) : Prop :=
  match o with
  | ORequest _ false req => Verb req = "allow" ∨ Verb req = "unallow" → unnamed K req
  | _ => True
  end.

(** The feeds of the runtime are such feeds. *)
Lemma runtime_source_ok get fs f : fetcher_ok f →
  feedRefresh cfg = Some (λ name, (FeedParse.refresh get fs f name).1) → feed_source_ok.
Proof.
  intros Hf E refresh name us n E' Hr. rewrite E in E'. injection E' as <-.
  destruct (FeedParse.refresh get fs f name) as [[us' n'] f'] eqn:ER. injection Hr as -> ->. unfold FeedParse.refresh in ER.
  destruct (refresh_all _ _ _ _ _) as [[[[us2 n2] found] failed] f2] eqn:EA.
  destruct (refresh_all_spec _ _ _ _ _ _ _ _ _ _ EA Hf) as (_ & Hs & _). simplify_eq.
  eapply Forall_impl; [exact Hs|]. intros u Hu. eapply Forall_impl; [exact Hu|by intros ? []].
Qed.

Section refine.
Context (arming : Prop) (K : prefix → Prop).
Abbreviation Sim := (DaemonSteps.Sim cfg arming True (λ _, True) K).

Lemma sim_serve v ro req : feed_source_ok → (∀ l, feed_order (sv_env v) l ≡ₚ l) →
  (ro = false → Verb req = "arm" → arming) → (ro = false → Verb req = "allow" ∨ Verb req = "unallow" → unnamed K req) →
  (ro = true → Verb req ∈ readOnlyVerbs) → Sim false (serve cfg v req).
Proof.
  intros Hf Ho Ha Hk Hr. assert (ro = true → Verb req ∉ mutatingVerbs) as Hm.
  { intros E. specialize (Hr E). unfold readOnlyVerbs in Hr. rewrite !elem_of_cons, elem_of_nil in Hr. intros Hin.
    assert (bool_decide (Verb req ∈ mutatingVerbs) = true) as Hb by by apply bool_decide_eq_true.
    by destruct Hr as [E'|[E'|[E'|[E'|[E'|[E'|[E'|[E'|[]]]]]]]]]; rewrite E' in Hb. }
  assert (∀ x, Verb req = x → bool_decide (x ∈ mutatingVerbs) = true → ro = false) as Hmut.
  { intros x <- Hb. destruct ro; [|done]. apply bool_decide_eq_true in Hb. by destruct (Hm eq_refl). }
  unfold serve. cbv zeta. repeat (case_bool_decide; [solve [apply _ | apply sim_arm; eauto using eq_refl
    | apply sim_ban; done | apply sim_allow; eauto using eq_refl | apply sim_unallow; eauto using eq_refl | by apply sim_refresh]|]). apply _.
Qed.

Lemma sim_request v ro req : feed_source_ok → op_ok (ORequest v ro req) → (asks_arm (ORequest v ro req) → arming) →
  leaves K (ORequest v ro req) → Sim false (handleConnScoped cfg v ro req).
Proof.
  intros Hf Ho Ha Hk. unfold handleConnScoped, auditSocketCmd. cbv zeta. simpl in *.
  destruct (ro && negb (bool_decide (Verb req ∈ readOnlyVerbs))) eqn:E; [apply _|].
  apply sim_bind; [|intros r; apply _]. apply (sim_serve v ro); [done|done|by intros ->|by intros ->|].
  intros ->. simpl in E. apply negb_false_iff in E. by apply bool_decide_eq_true in E.
Qed.

Lemma op_steps o d : feed_source_ok → op_ok o → (asks_arm o → arming) → leaves K o →
  rtc (astep cfg arming True (λ _, True) K) d (run_op o d).
Proof.
  intros Hf Ho Ha Hk.
  assert (∀ {A} (m : dm X A), Sim false m → rtc (astep cfg arming True (λ _, True) K) d (m d).2) as Hs by (intros A m H; apply (H d)).
  destruct o; simpl; try (apply Hs; apply _).
  - apply Hs. unfold processRaw. apply sim_each. intros ev. by apply sim_processEvent.
  - apply Hs. unfold recheckTick. apply sim_bind; [apply _|intros d0]. case_match.
    apply sim_bind; [apply sim_put; by intros ?|intros _]. apply sim_bind; [apply sim_each; intros it; by apply sim_recheck|intros _].
    apply sim_bind; [apply _|intros d1]. case_match. apply sim_bind; [apply sim_put; by intros ?|intros _]. apply _.
  - apply Hs. destruct Ho. by apply sim_feedUpdate.
  - apply Hs. by apply sim_processAI.
  - by apply rtc_once, a_store, moves_runPruneOnce.
  - apply Hs. by apply sim_request.
Qed.

Lemma ops_steps os d : feed_source_ok → Forall op_ok os → Forall (λ o, asks_arm o → arming) os → Forall (leaves K) os →
  rtc (astep cfg arming True (λ _, True) K) d (run_ops os d).
Proof.
  intros Hf Ho Ha Hk. revert d. induction os as [|o os IH]; intros d; simpl; [apply rtc_refl|].
  inversion Ho; inversion Ha; inversion Hk; subst. etransitivity; [by apply op_steps|by apply IH].
Qed.
End refine.

(** ** What reaches the world

    The wrapped enforcer is called with calls in [P], the feed sets are replaced
    with lists in [F], and nothing else touches the world. *)
Inductive performs (inn : enforcer X) (P : ecall → Prop) (F : list FeedElement → Prop) : relation X :=
| pf_refl x : performs inn P F x x
| pf_call c x y : P c → performs inn P F (run inn c x).2 y → performs inn P F x y
| pf_feeds sync es x y : feedSyncer cfg = Some sync → F es → performs inn P F (sync es x).2 y → performs inn P F x y.

Definition no_call : ecall → Prop := λ _, False.

(** An invariant of the steps, with what they perform under it. *)
Lemma rtc_performs arming resync Q K inn P F (I : daemon → Prop) :
  (∀ d d', I d → astep cfg arming resync Q K d d' → I d' ∧ performs inn P F (ext d) (ext d')) →
  ∀ d d', rtc (astep cfg arming resync Q K) d d' → I d → I d' ∧ performs inn P F (ext d) (ext d').
Proof.
  intros Hstep d d' H. induction H as [d|d d1 d2 H1 _ IH]; intros HI; [split; [done|constructor]|].
  destruct (Hstep d d1 HI H1) as [HI1 Hp1]. destruct (IH HI1) as [HI2 Hp2]. split; [done|].
  clear -Hp1 Hp2. induction Hp1; [done|eapply pf_call; eauto|eapply pf_feeds; eauto].
Qed.

(** ** The allowlists *)
Definition rows_wf d : Prop := ∀ p, is_Some (Store.allowlist (tables (store d)) !! p) → wf_prefix p.

(** The gate carries the static entries and the daemon's runtime ones. *)
Record guarded inn al probe (K : prefix → Prop) d : Prop := {
  gd_gate : gate d = Some (SetExtraAllowlist (runtimeAllowlist d) (NewGate inn al probe));
  gd_rows : rows_wf d;
  gd_runtime : Forall wf_prefix (runtimeAllowlist d);
  gd_feeds : ∀ e, contributed (feedState d) e → screened cfg e;
  gd_kept : ∀ p, K p → lasting p (tables (store d)) ∧ p ∈ runtimeAllowlist d
}.

(** No static entry shares an address with what the feed element names. *)
Definition feed_clear (es : list FeedElement) : Prop := ∀ e, e ∈ es → ∃ ttl p, e = feed_element ttl p ∧
  ∀ q a, q ∈ staticAllowlist cfg → plain a → Contains p a = true → Contains q a = false.

Lemma screened_clear es : Forall wf_prefix (staticAllowlist cfg) → (∀ e, e ∈ es → screened cfg e) → feed_clear es.
Proof.
  intros Hwf H e He. destruct (H e He) as (ttl & p & -> & Hp & Ho). exists ttl, p. split; [done|]. intros q a Hq Ha Hc.
  destruct (Contains q a) eqn:E; [|done]. assert (Overlaps q p = true) as Hov; [|by rewrite (Ho q Hq) in Hov].
  apply Overlaps_iff; [by eapply Forall_forall in Hwf|done|]. eauto.
Qed.

Lemma entitled_ranged resync Q d c : entitled resync Q d c → ∀ t, t ∈ ban_targets c → ranged t.
Proof.
  assert (∀ t, stored d t → ranged t) as Hs by (by intros t [E _] H; rewrite E in H).
  destruct c as [t|t|want|p|p|want]; simpl; intros H t' Ht; try by apply elem_of_nil in Ht.
  - apply list_elem_of_singleton in Ht as ->. destruct H as [(_ & H & _)|[_ H]]; [done|by apply Hs].
  - destruct H as [_ H]. by apply Hs, H.
Qed.

Lemma guarded_step arming resync Q K inn al probe d d' :
  Forall wf_prefix al → Forall wf_prefix (staticAllowlist cfg) →
  guarded inn al probe K d → astep cfg arming resync Q K d d' →
  guarded inn al probe K d' ∧
  performs inn (λ c, clear_of al c ∧ ∀ p, K p → clear_of [p] c) feed_clear (ext d) (ext d').
Proof.
  intros Hal Hst [Hg Hr Hrt Hf Hk] H. inversion H as [d0 d1 (E1 & E2 & E3 & E4 & E5 & E6) E0|d0 w Hm|d0 e He|d0 ps Hps|d0 g c Hg0 Hc|d0 s Hs|d0 sync es Hsy Hes];
    subst; clear H.
  - split; [|rewrite E4; constructor]. unfold rows_wf in *. split; unfold rows_wf; rewrite ?E2, ?E3, ?E5, ?E6; done.
  - split; [|constructor]. destruct Hm as [_ Ha Hl]. split; simpl; [done| |done..|].
    + intros p Hp. destruct (Ha p Hp); auto.
    + intros p Hp. destruct (Hk p Hp). auto.
  - split; [|constructor]. by split.
  - split; [|constructor]. split; simpl; [by rewrite Hg|done| |done|].
    + apply Forall_forall. intros p Hp. apply Hr. by apply Hps.
    + intros p Hp. destruct (Hk p Hp) as [Hl _]. split; [done|]. apply Hps. destruct Hl as (e & He & _). eauto.
  - split; [by split|]. simpl. rewrite Hg in Hg0. simplify_eq.
    destruct (gate_clear inn al (runtimeAllowlist d) probe c (ext d) Hal Hrt (entitled_ranged _ _ _ _ Hc)) as [->|(c' & -> & Hc')]; [constructor|].
    eapply pf_call; [|constructor]. split.
    + intros t a q b Ht Ha Hta Hq. apply (Hc' t a q b Ht Ha Hta). apply elem_of_app. by left.
    + intros p Hp t a q b Ht Ha Hta ->%list_elem_of_singleton. apply (Hc' t a p b Ht Ha Hta). apply elem_of_app. right. by destruct (Hk p Hp).
  - split; [|constructor]. split; simpl; try done. intros e He. destruct (Hs e He); auto.
  - split; [by split|]. simpl. eapply pf_feeds; [done| |constructor]. apply screened_clear; [done|]. intros e He.
    destruct Hes as [->|[_ Hes]]; [by apply elem_of_nil in He|]. apply Hf, Hes, He.
Qed.

(** ** Dry run *)
Definition simulated_only d : Prop := ∀ ip b, Store.bans (tables (store d)) !! ip = Some b → dry_run b = true.

Record dry inn d : Prop := {
  dy_armed : armed d = false;
  dy_rows : simulated_only d;
  dy_gate : ∀ g, gate d = Some g → inner g = inn
}.

Lemma dry_step resync Q K inn d d' : dry inn d → astep cfg False resync Q K d d' →
  dry inn d' ∧ performs inn (λ c, ban_targets c = []) (λ es, es = []) (ext d) (ext d').
Proof.
  intros [Ha Hr Hg] H.
  assert (∀ t, ¬ stored d t) as Hns by (intros t (_ & b & Hb & Hd); by rewrite (Hr _ _ Hb) in Hd).
  inversion H as [d0 d1 (E1 & E2 & E3 & E4 & E5 & E6) E0|d0 w Hm|d0 e He|d0 ps Hps|d0 g c Hg0 Hc|d0 s Hs|d0 sync es Hsy Hes]; subst; clear H.
  - split; [|rewrite E4; constructor]. split; unfold simulated_only, armed; rewrite ?E1, ?E2, ?E3; done.
  - split; [|constructor]. split; [done| |done]. destruct Hm as [Hb _ _]. intros ip b Hip. simpl in Hip.
    destruct (Hb ip b Hip) as [(b0 & Hb0 & <-)|[_ ->]]; [by eapply Hr|by rewrite Ha].
  - split; [|constructor]. split; [|done..]. change (IsArmed (policy e) = false). destruct (IsArmed (policy e)); [|done].
    destruct (He eq_refl) as [Hx|[]]. by rewrite Ha in Hx.
  - split; [|constructor]. split; [done|done|]. simpl. intros g Eg. destruct (gate d) as [g0|]; [|done]. simplify_eq/=. by apply Hg.
  - split; [by split|]. simpl. rewrite <- (Hg g Hg0). destruct c as [t|t|want|p|p|want]; simpl in *.
    + destruct Hc as [(Hx & _)|[_ Hx]]; [congruence|by destruct (Hns t)].
    + by eapply pf_call; [|constructor].
    + destruct want as [|t want]; [|destruct Hc as [_ Hc]; destruct (Hns t), (Hc t ltac:(by left)); done].
      by eapply pf_call; [|constructor].
    + destruct (mirrors (inner g)); [by eapply pf_call; [|constructor]|constructor].
    + destruct (mirrors (inner g)); [by eapply pf_call; [|constructor]|constructor].
    + destruct (mirrors (inner g)); [by eapply pf_call; [|constructor]|constructor].
  - split; [|constructor]. by split.
  - split; [by split|]. simpl. eapply pf_feeds; [done| |constructor]. destruct Hes as [->|[Hx _]]; [done|congruence].
Qed.

(** ** One event *)
Lemma sentence_step K ip inn d d' : IsValid ip = true → (∀ g, gate d = Some g → inner g = inn) →
  astep cfg False False (λ x, x = Unmap ip) K d d' →
  (∀ g, gate d' = Some g → inner g = inn) ∧
  performs inn (λ c, ∀ t a, t ∈ ban_targets c → target_covers t a = true → a = withoutZone (Unmap ip)) (λ _, True) (ext d) (ext d').
Proof.
  intros Hv Hg H.
  inversion H as [d0 d1 (E1 & E2 & E3 & E4 & E5 & E6) E0|d0 w Hm|d0 e He|d0 ps Hps|d0 g c Hg0 Hc|d0 s Hs|d0 sync es Hsy Hes]; subst; clear H;
    try (split; [done|constructor]).
  - split; [by rewrite E3|rewrite E4; constructor].
  - split; [|constructor]. simpl. intros g Eg. destruct (gate d) as [g0|]; [|done]. simplify_eq/=. by apply Hg.
  - split; [done|]. simpl. rewrite <- (Hg g Hg0). destruct c as [t|t|want|p|p|want]; simpl in *.
    + destruct Hc as [(_ & _ & Hx)|[[] _]]. destruct (refuse _ _ _); [constructor|]. eapply pf_call; [|constructor].
      intros t' a ->%list_elem_of_singleton. unfold target_covers, normalizeGateTarget. rewrite Hx, Unmap_valid, Hv. simpl.
      rewrite Unmap_valid, Unmap_valid, Hv. intros Ha%bool_decide_eq_true. rewrite <- Ha. by rewrite Unmap_idemp.
    + eapply pf_call; [|constructor]. by intros t' a ?%elem_of_nil.
    + destruct Hc as [[] _].
    + destruct (mirrors (inner g)); [|constructor]. eapply pf_call; [|constructor]. by intros t' a ?%elem_of_nil.
    + destruct (mirrors (inner g)); [|constructor]. eapply pf_call; [|constructor]. by intros t' a ?%elem_of_nil.
    + destruct (mirrors (inner g)); [|constructor]. eapply pf_call; [|constructor]. by intros t' a ?%elem_of_nil.
  - split; [done|]. simpl. by eapply pf_feeds; [..|constructor].
Qed.

(** ** The theorems *)

(** The allow entries no request of the sequence names. *)
Definition untouched (os : list dop) (p : prefix) : Prop := Forall (leaves (λ q, q = p)) os.

(** C12. Every sequence of operations, whatever the world, the drivers and the
    network answer, is a sequence of elementary steps: bans appear with the flag
    the armed state dictates, the gate is only asked for a block while armed or
    for a ban the store holds, feeds only get screened elements, the policy only
    becomes armed when an operator asks, and a permanent allow entry no request
    names stays. *)
Theorem operations_refine os d : feed_source_ok → Forall op_ok os →
  rtc (astep cfg (Exists asks_arm os) True (λ _, True) (untouched os)) d (run_ops os d).
Proof.
  intros Hf Ho. apply ops_steps; [done|done|..].
  - apply Forall_forall. intros o Hin Ha. apply Exists_exists. eauto.
  - apply Forall_forall. intros o Hin. destruct o as [| | | | | | | | | | | | |v [] req]; try done. simpl. intros Hv p Hp Hk.
    unfold untouched in Hk. rewrite Forall_forall in Hk. by apply (Hk _ Hin Hv p Hp).
Qed.

(** C1. Along every sequence of operations no call that reaches the wrapped enforcer
    blocks an address a static allowlist entry covers, nor one a permanent
    runtime entry covers, provided the store holds that entry, the daemon has it
    in its in-memory runtime allowlist before the sequence begins, and no request
    names it; and no feed element shares an address with a static entry.  The
    runtime clause therefore starts once the allowlist is loaded: start-up
    reconciles once before it loads it, and that first reconcile can ask to block
    an address a stored entry covers. *)
Theorem allowlists_protect inn al probe os d : feed_source_ok → Forall op_ok os →
  Forall wf_prefix al → Forall wf_prefix (staticAllowlist cfg) → guarded inn al probe (λ _, False) d →
  performs inn
    (λ c, clear_of al c ∧
          ∀ p, lasting p (tables (store d)) → p ∈ runtimeAllowlist d → untouched os p → clear_of [p] c)
    feed_clear (ext d) (ext (run_ops os d)).
Proof.
  intros Hf Ho Hal Hst [Hg Hr Hrt Hfe _].
  set (K p := lasting p (tables (store d)) ∧ p ∈ runtimeAllowlist d ∧ untouched os p).
  assert (rtc (astep cfg True True (λ _, True) K) d (run_ops os d)) as H.
  { apply ops_steps; [done|done|by apply Forall_forall|]. apply Forall_forall. intros o Hin.
    destruct o as [| | | | | | | | | | | | |v [] req]; try done. simpl. intros Hv p Hp (_ & _ & Hk).
    unfold untouched in Hk. rewrite Forall_forall in Hk. by apply (Hk _ Hin Hv p Hp). }
  destruct (rtc_performs _ _ _ _ inn (λ c, clear_of al c ∧ ∀ p, K p → clear_of [p] c) feed_clear (guarded inn al probe K)
    (λ d d' Hd Hs, guarded_step _ _ _ _ inn al probe d d' Hal Hst Hd Hs) _ _ H) as [_ Hp].
  { split; try done. intros p (? & ? & _). done. }
  clear -Hp. induction Hp as [x|c x y [Hc Hk] _ IH|sync es x y Hs Hes _ IH]; [constructor| |by eapply pf_feeds].
  eapply pf_call; [|done]. split; [done|]. intros p H1 H2 H3. apply Hk. done.
Qed.

(** C2. Dry-run never blocks: from a disarmed state whose bans are all simulated,
    as long as no operator asks to arm, no call asks to block anything and the
    feed sets stay empty; the daemon stays disarmed and every ban simulated. *)
Theorem dry_run_never_blocks inn os d : feed_source_ok → Forall op_ok os → Forall (λ o, ¬ asks_arm o) os → dry inn d →
  performs inn (λ c, ban_targets c = []) (λ es, es = []) (ext d) (ext (run_ops os d)) ∧
  armed (run_ops os d) = false ∧ simulated_only (run_ops os d).
Proof.
  intros Hf Ho Ha Hd. assert (rtc (astep cfg False True (λ _, True) (λ _, False)) d (run_ops os d)) as H.
  { apply ops_steps; [done..|]. apply Forall_forall. intros o _. destruct o as [| | | | | | | | | | | | |v [] req]; try done. simpl.
    intros _ p _ []. }
  destruct (rtc_performs _ _ _ _ inn _ _ (dry inn) (λ d d' Hd Hs, dry_step _ _ _ inn d d' Hd Hs) _ _ H Hd) as [[H1 H2 _] Hp]. done.
Qed.

(** C3. An event sentences its source only: whatever the line, the rules, the AI
    layer and the feeds say, processing an event, or the asynchronous AI episode
    it started, adds a ban for no other address, asks for a block of no other
    address, and leaves the armed flag. *)
Theorem event_sentences_its_source inn m ip d :
  (∃ v ev, SourceIP ev = ip ∧ m = processEvent cfg v ev) ∨ (∃ v n, m = processAIAsyncItem cfg v ip n) →
  IsValid ip = true → (∀ g, gate d = Some g → inner g = inn) →
  let d' := (m d).2 in
  (∀ jp b, Store.bans (tables (store d')) !! jp = Some b →
     jp = Unmap ip ∨ ∃ b0, Store.bans (tables (store d)) !! jp = Some b0 ∧ dry_run b0 = dry_run b) ∧
  performs inn (λ c, ∀ t a, t ∈ ban_targets c → target_covers t a = true → a = withoutZone (Unmap ip))
    (λ _, True) (ext d) (ext d') ∧
  armed d' = armed d.
Proof.
  intros Hm Hv Hg d'. assert (DaemonSteps.Sim cfg False False (λ x, x = Unmap ip) (λ _, False) true m) as Hsim.
  { destruct Hm as [(v & ev & <- & ->)|(v & n & ->)]; [by apply sim_processEvent|by apply sim_processAI]. }
  destruct (Hsim d) as [H Ha]. fold d' in H, Ha. clear Hsim Hm.
  split; [|split; [|by apply Ha]].
  - set (I d1 := ∀ jp b, Store.bans (tables (store d1)) !! jp = Some b →
      jp = Unmap ip ∨ ∃ b0, Store.bans (tables (store d)) !! jp = Some b0 ∧ dry_run b0 = dry_run b).
    change (I d'). revert H. apply (rtc_ind_r I); [by intros jp b; eauto|]. clear. intros d1 d2 _ H IH jp b Hb.
    inversion H as [x1 x2 (E1 & E2 & E3 & E4 & E5 & E6) E0|x1 w Hm|x1 e He|x1 ps Hps|x1 g c Hg0 Hc|x1 s Hs|x1 sync es Hsy Hes]; subst; try by apply IH.
    + rewrite E2 in Hb. by apply IH.
    + destruct (mv_bans _ _ _ _ _ Hm jp b Hb) as [(b0 & Hb0 & Hd)|[-> _]]; [|by left].
      destruct (IH jp b0 Hb0) as [?|(b1 & ? & ?)]; [by left|]. right. exists b1. split; [done|congruence].
  - apply (rtc_performs _ _ _ _ inn _ _ (λ d, ∀ g, gate d = Some g → inner g = inn)
      (λ d d' Hd Hs, sentence_step _ ip inn d d' Hv Hd Hs) _ _ H Hg).
Qed.
End daemon.

(** ** A concrete daemon *)
Definition sample_config : Daemon.config (list ecall) :=
  MkConfig (Rules.MkEngine [Rules.bruteforce]) sample_al true 0 None (Some (λ es x, (true, x))) None false 0 0 0 "v1" 1 None false
    (λ _, (false, "down")).

Definition sample_aggregator : Aggregator := default (MkAggregator [] 0 0 0 0 None ∅) (Aggregate.New [10 * Minute] 100).

Definition sample_daemon (on : bool) (w : Store.world) : Daemon.daemon (list ecall) :=
  MkDaemon (DecisionSafety.sample_engine on) w (Some (NewGate recorder sample_al None)) [] [] healthy ∅ ∅ None sample_aggregator
    (MkIneff None 0) None noFeeds ∅ [] [].

Definition sample_denv (t : time) : denv :=
  MkDenv (DecisionSafety.sample_env t) (λ _, false) [] (Some false) [] id [] (Some []) id.

Definition sample_senv (t : time) : senv (list ecall) :=
  MkSenv _ (sample_denv t) (λ _, Policy.fs_ok) (λ _, "io") (λ _, None) Retention.table_order (λ _, false) (Some (0, 0)) (λ _, []).

(** Five failed logins of 203.0.113.9, in the mapped spelling. *)
Definition attacker : addr := Addr6 0xffffcb007109 EmptyString.
Definition failed_login : Event := MkEvent 1000 attacker "ssh_fail" ∅ "auth" EmptyString.

Definition allow_request (ip : string) : SocketRequest :=
  MkRequest "allow" ip EmptyString EmptyString false EmptyString EmptyString "vpn" 0 EmptyString false EmptyString false.

Definition sample_ops : list (dop (X := list ecall)) :=
  [OStartup (sample_senv 500); OLine (sample_denv 1000) "Failed password" (replicate 5 failed_login);
   ORequest (sample_senv 2000) false (allow_request "198.51.100.0/24"); OEnforceProbe (sample_denv 3000) (λ _, None)].

Lemma sample_ops_ok : Forall op_ok sample_ops.
Proof. repeat (apply Forall_cons_2; [simpl; by try intros l|]). apply Forall_nil_2. Qed.

Lemma sample_source_ok : feed_source_ok sample_config.
Proof. intros r name us n [=]. Qed.

Definition sample_target (ttl : duration) : Target := host_target (Addr4 0xcb007109) ttl.

(** Armed, the fifth failure is a ban that the next reconcile re-applies. *)
Lemma sample_run : ext (run_ops sample_config sample_ops (sample_daemon true (MkWorld emptyDb []))) =
  [Sync [sample_target (5 * Minute - 2000)]; Allow (Prefix (Addr4 0xc6336400) 24); Gate.Ban (sample_target (5 * Minute));
   SyncAllowlist [Prefix (Addr4 0xc0000200) 24; Prefix (Addr4 0x0a000000) 8]; Sync []].
Proof. vm_compute. reflexivity. Qed.

Lemma operations_refine_witness :
  let d := sample_daemon true (MkWorld emptyDb []) in
  rtc (astep sample_config (Exists asks_arm sample_ops) True (λ _, True) (untouched sample_ops)) d (run_ops sample_config sample_ops d) ∧
  length (ext (run_ops sample_config sample_ops d)) = 5%nat.
Proof.
  intros d. split; [apply (operations_refine sample_config sample_ops d sample_source_ok sample_ops_ok)|].
  unfold d. by rewrite sample_run.
Defined.

Lemma sample_guarded on o : guarded sample_config recorder sample_al None (λ _, False) (sample_daemon on (MkWorld emptyDb o)).
Proof.
  split; [done|..].
  - intros p [e He]. simpl in He. by rewrite lookup_empty in He.
  - simpl. constructor.
  - intros e (name & l & Hl & _). simpl in Hl. by rewrite lookup_empty in Hl.
  - done.
Qed.

Lemma sample_al_wf : Forall wf_prefix sample_al.
Proof. repeat apply Forall_cons_2; try apply Forall_nil_2; by repeat split. Qed.

Lemma allowlists_protect_witness :
  let d := sample_daemon true (MkWorld emptyDb []) in
  performs sample_config recorder
    (λ c, clear_of sample_al c ∧
          ∀ p, lasting p (tables (store d)) → p ∈ runtimeAllowlist d → untouched sample_ops p → clear_of [p] c)
    (feed_clear sample_config) [] (ext (run_ops sample_config sample_ops d)) ∧
  Gate.Ban (sample_target (5 * Minute)) ∈ ext (run_ops sample_config sample_ops d).
Proof.
  intros d. split.
  - apply (allowlists_protect sample_config recorder sample_al None sample_ops d sample_source_ok sample_ops_ok sample_al_wf sample_al_wf).
    apply sample_guarded.
  - unfold d. rewrite sample_run. do 2 right. left.
Defined.

(** The same run disarmed: the failure is a simulated ban. *)
Lemma dry_run_never_blocks_witness :
  let d := sample_daemon false (MkWorld emptyDb []) in
  performs sample_config recorder (λ c, ban_targets c = []) (λ es, es = []) [] (ext (run_ops sample_config sample_ops d)) ∧
  (∃ b, Store.bans (tables (store (run_ops sample_config sample_ops d))) !! Addr4 0xcb007109 = Some b ∧ dry_run b = true).
Proof.
  intros d. destruct (dry_run_never_blocks sample_config recorder sample_ops d sample_source_ok sample_ops_ok) as (H & _ & Hs).
  - repeat (apply Forall_cons_2; [simpl; (discriminate || tauto)|]). apply Forall_nil_2.
  - split; [done| |]; simpl; [|by intros g [= <-]]. intros ip b Hb. simpl in Hb. by rewrite lookup_empty in Hb.
  - split; [exact H|]. destruct (Store.bans (tables (store (run_ops sample_config sample_ops d))) !! Addr4 0xcb007109) as [b|] eqn:E.
    + exists b. split; [done|by eapply Hs].
    + exfalso. revert E. vm_compute. discriminate.
Defined.

Lemma event_sentences_its_source_witness :
  let d := (each (processEvent sample_config (sample_denv 1000)) (replicate 4 failed_login) (sample_daemon true (MkWorld emptyDb []))).2 in
  let d' := (processEvent sample_config (sample_denv 1000) failed_login d).2 in
  performs sample_config recorder (λ c, ∀ t a, t ∈ ban_targets c → target_covers t a = true → a = Addr4 0xcb007109) (λ _, True) (ext d) (ext d') ∧
  ext d' = Gate.Ban (sample_target (5 * Minute)) :: ext d.
Proof.
  intros d d'. assert (∀ g, gate d = Some g → inner g = recorder) as Hg by (intros g; vm_compute; by intros [= <-]).
  destruct (event_sentences_its_source sample_config recorder _ attacker d (or_introl (ex_intro _ (sample_denv 1000) (ex_intro _ failed_login (conj eq_refl eq_refl)))) eq_refl Hg) as (_ & H & _).
  split; [exact H|]. vm_compute. reflexivity.
Defined.
