(* ===== verification/DaemonArming.v ===== *)
(** Arming, disarming and the read-only tier of the control socket. *)
From stdpp Require Import relations.
From Stdlib Require Import Ascii.
From S2P Require Import Prelude GoStrings Netip NetipParse GoTime Rfc3339 Sdk Policy Aggregate Store StoreReport Retention Rules.
From S2P Require Import StoreIface Decision Gate EnfState CollHealth NftScript Feeds Daemon DaemonSpec ControlSocket DaemonSteps DaemonSafety.
#[local] Open Scope Z_scope.

(** ** Steps that leave the world and the bans alone *)
Definition same_rows (D D' : Store.db) : Prop := Store.bans D' = Store.bans D.
#[export] Instance same_rows_refl : Reflexive same_rows. Proof. by intros D. Qed.
#[export] Instance same_rows_trans : Transitive same_rows. Proof. intros ? ? ? H1 H2. unfold same_rows in *. congruence. Qed.
#[local] Hint Extern 2 (Keeps same_rows (exec _)) =>
  apply keeps_exec; [apply _|apply _|by intros ?] : typeclass_instances.

Section calm.
Context {X : Type} (cfg : Daemon.config X).
Abbreviation daemon := (Daemon.daemon X).
Abbreviation dm := (Daemon.dm X).
Implicit Types (d : daemon).

Record calm d d' : Prop := {
  cm_policy : armed d' = armed d;
  cm_gate : gate d' = gate d;
  cm_ext : ext d' = ext d;
  cm_feeds : feedState d' = feedState d;
  cm_runtime : runtimeAllowlist d' = runtimeAllowlist d;
  cm_rows : same_rows (tables (store d)) (tables (store d'));
  cm_file : policyFile d' = policyFile d
}.
#[local] Instance calm_refl : Reflexive calm.
Proof. by split. Qed.
#[local] Instance calm_trans : Transitive calm.
Proof. intros d1 d2 d3 [] []. split; unfold same_rows in *; congruence. Qed.

Class Calm {A} (m : dm A) : Prop := calmly : ∀ d, calm d (m d).2.

#[export] Instance calm_ret {A} (x : A) : Calm (mret x).
Proof. intros d. by split. Qed.
#[export] Instance calm_bind {A B} (m : dm A) (k : A → dm B) : Calm m → (∀ x, Calm (k x)) → Calm (x ← m; k x).
Proof.
  intros Hm Hk d. specialize (Hm d). unfold mbind, dm_mbind. destruct (m d) as [x d1]. simpl in Hm.
  etransitivity; [done|apply Hk].
Qed.
#[export] Instance calm_get : Calm get.
Proof. intros d. by split. Qed.
#[export] Instance calm_skip : Calm skip.
Proof. intros d. by split. Qed.
#[export] Instance calm_if {A} (c : bool) (m n : dm A) : Calm m → Calm n → Calm (if c then m else n).
Proof. by destruct c. Qed.
#[export] Instance calm_db {A} (m : sql A) : Keeps same_rows m → Calm (db m).
Proof. intros Hm d. specialize (Hm (store d)). unfold db. destruct (m (store d)). by split. Qed.
#[export] Instance calm_db_ {A} (m : sql A) : Keeps same_rows m → Calm (db_ m).
Proof. unfold db_. apply _. Qed.
#[local] Hint Extern 2 (Calm (put _)) => (intros ?; by split) : typeclass_instances.

#[export] Instance calm_send n : Calm (send cfg n).
Proof. unfold send. apply _. Qed.
#[export] Instance calm_publish k ip s ttl r src : Calm (publishActionEvent k ip s ttl r src).
Proof. unfold publishActionEvent. apply _. Qed.
#[export] Instance keeps_system (R : relation Store.db) `{!Reflexive R, !Transitive R} t op r :
  (∀ D, R D (insert_audit t op OnSystem 0 0 r D)) → Keeps R (AuditSystem t op r).
Proof. intros H. by apply keeps_exec. Qed.
#[export] Instance calm_system t op r : Calm (db_ (AuditSystem t op r)).
Proof. apply calm_db_, keeps_system; by try apply _. Qed.
#[export] Instance calm_note v op o : Calm (noteEnforceResult cfg v op o).
Proof.
  unfold noteEnforceResult. apply calm_bind; [apply _|]. intros d. destruct (recordEnforceResult _ _ _) as [h t].
  apply calm_bind; [apply _|]. intros _. destruct t as [[]|]; [unfold auditEnfTransition, notifyCritical..|]; apply _.
Qed.
#[export] Instance calm_repairs v r o : Calm (auditRepairs v r o).
Proof. unfold auditRepairs. repeat (case_match; try apply _). Qed.
#[export] Instance calm_delete_state k : Calm (db_ (DeleteState k)).
Proof. unfold DeleteState. apply calm_db_. apply _. Qed.

(** ** The armed flag *)
Lemma setArmed_ok (v : senv X) on op r d d' : setArmedState v on op r d = (Ok tt, d') →
  armed d' = on ∧ gate d' = gate d ∧ ext d' = ext d ∧ feedState d' = feedState d ∧ runtimeAllowlist d' = runtimeAllowlist d ∧
  same_rows (tables (store d)) (tables (store d')) ∧
  (∀ data, policyFile d = Some data → ∃ data', policyFile d' = Some data' ∧ Policy.switched on data data').
Proof.
  unfold setArmedState. unfold mbind at 1, dm_mbind at 1, get at 1.
  destruct (match policyFile d with None => _ | Some data => _ end) as [file res] eqn:Ef.
  unfold mbind at 1, dm_mbind at 1, put at 1. destruct res as [[]|]; [|done].
  unfold mbind at 1, dm_mbind at 1, put at 1. set (d1 := with_eng _ _).
  assert (Calm (_ ← db_ (AuditSystem (vstore v) op r); _ ← publishActionEvent op "system" 0 0 r "operator";
    mret (Ok tt) : dm (result rewrite_error unit))) as Hc by apply _.
  specialize (Hc d1). intros E. rewrite E in Hc. destruct Hc as [H1 H2 H3 H4 H5 H6 H7]. simpl in *.
  split; [rewrite H1; unfold d1, armed; simpl; by destruct on|]. split_and!; try done.
  intros data Hd. rewrite Hd in Ef. destruct (RewriteArmed (fs_of v on) data on) as [data' res] eqn:Er. simplify_eq. exists data'.
  split; [done|by eapply Policy.RewriteArmed_switched].
Qed.

(** A failed rewrite changes nothing but what the file holds. *)
Lemma setArmed_err (v : senv X) on op r d e d' : setArmedState v on op r d = (Err e, d') → armed d' = armed d.
Proof.
  unfold setArmedState. unfold mbind at 1, dm_mbind at 1, get at 1.
  destruct (match policyFile d with None => _ | Some data => _ end) as [file res] eqn:Ef.
  unfold mbind at 1, dm_mbind at 1, put at 1. destruct res as [[]|]; [|by intros [= _ <-]].
  unfold mbind at 1, dm_mbind at 1, put at 1. unfold mbind, dm_mbind. by repeat case_match.
Qed.
End calm.

Section theorems.
Context {X : Type} (cfg : Daemon.config X).
Abbreviation daemon := (Daemon.daemon X).
Implicit Types (d : daemon).

Lemma calm_run {A} (m : dm X A) d x d' : Calm m → m d = (x, d') → calm d d'.
Proof. intros H E. specialize (H d). by rewrite E in H. Qed.

(** A reconcile of an empty ban table asks for exactly nothing. *)
Lemma sync_empty v r d s d' : Store.bans (tables (store d)) = ∅ → syncEnforcer cfg v r d = (s, d') →
  s = SyncNoEnforcer ∨ s = SyncDone Done →
  armed d' = armed d ∧ feedState d' = feedState d ∧ Store.bans (tables (store d')) = ∅ ∧ policyFile d' = policyFile d ∧
  match gate d with
  | None => ext d' = ext d
  | Some g => gate_run g (Sync []) (ext d) = (true, ext d')
  end.
Proof.
  intros Hb E Hs. unfold syncEnforcer, mbind at 1, dm_mbind at 1, get at 1 in E.
  destruct (gate d) as [g|] eqn:Eg; [|unfold mret, dm_mret in E; by simplify_eq].
  unfold mbind at 1, dm_mbind at 1, db at 1, ActiveBans in E.
  match type of E with context [query ?f (store d)] => destruct (query_cases f (store d)) as [o [Hq|Hq]]; rewrite Hq in E; clear Hq end;
    [|unfold mret, dm_mret in E; simplify_eq; by destruct Hs].
  rewrite Hb, map_to_list_empty in E. simpl in E. unfold mbind at 1, dm_mbind at 1, get at 1 in E.
  set (d1 := with_store _ d) in E. change (sync_targets d1 []) with (@nil Target) in E.
  unfold mbind at 1, dm_mbind at 1, enforce at 1 in E. change (gate d1) with (gate d) in E. rewrite Eg in E.
  change (ext d1) with (ext d) in E. destruct (gate_run g (Sync []) (ext d)) as [ok x] eqn:Er.
  set (d2 := with_ext x d1) in E. set (o2 := if ok then Done else _) in E.
  assert (s = SyncDone o2 ∧ calm d2 d') as [-> [C1 C2 C3 C4 C5 C6 C7]].
  { assert (Calm (_ ← noteEnforceResult cfg v "sync" o2; d ← get; _ ← auditRepairs v (r (ext d)) o2; mret tt)) as Hc by apply _.
    specialize (Hc d2). revert E Hc. unfold mbind, dm_mbind, get, mret, dm_mret.
    destruct (noteEnforceResult cfg v "sync" o2 d2) as [u3 d3]. destruct (auditRepairs v (r (ext d3)) o2 d3) as [u4 d4].
    intros [= <- <-] Hc. done. }
  rewrite C1, C3, C4, C7. unfold same_rows in C6. rewrite C6. split_and!; try done.
  destruct Hs as [?|[= Ho]]; [done|]. unfold o2 in Ho. destruct ok; [done|]. by destruct (enforceError cfg x) as [[] e].
Qed.

(** C8. The panic button means it: when [disable_all] reports success the policy is
    disarmed, and so is the policy file the daemon was started with: the value
    of its one [armed:] line reads [false] and every other byte is kept; no ban
    is left in the store, the packet filter was successfully given an empty ban
    list, and the feed sets an empty element list; and what it reports is the
    number of bans removed. *)
Theorem disable_all_complete (v : senv X) d r d' : handleDisableAll cfg v d = (Ok r, d') →
  armed d' = false ∧ Store.bans (tables (store d')) = ∅ ∧
  r = PDisable (MkDisable true (Z.of_nat (size (Store.bans (tables (store d))))) true) ∧
  (∀ data, policyFile d = Some data → ∃ data', policyFile d' = Some data' ∧
     ∃ pre lead old tail post, Policy.armed_line lead tail ∧
       data = Join (pre ++ (lead +:+ Policy.show_bool old +:+ tail) :: post) Policy.NLs ∧
       data' = Join (pre ++ (lead +:+ "false" +:+ tail) :: post) Policy.NLs) ∧
  ∃ x, match gate d with None => x = ext d | Some g => gate_run g (Sync []) (ext d) = (true, x) end ∧
       match feedSyncer cfg with
       | None => ext d' = x
       | Some sync => sync [] x = (true, ext d') ∧ blockDesired (feedState d') = ∅
       end.
Proof.
  unfold handleDisableAll. unfold mbind at 1, dm_mbind at 1.
  destruct (setArmedState v false _ _ d) as [[[]|e] d1] eqn:E1; [|done].
  apply setArmed_ok in E1 as (A1 & G1 & X1 & F1 & _ & R1 & P1).
  unfold mbind at 1, dm_mbind at 1. destruct (db_ (DeleteState stateKeyArmWindow) d1) as [u d2] eqn:E2.
  apply calm_run in E2; [|apply _]. destruct E2 as [A2 G2 X2 F2 _ R2 P2].
  unfold mbind at 1, dm_mbind at 1, db at 1.
  destruct (UnbanAll (vstore v) _ (store d2)) as [[n|e] w] eqn:E3; [|done].
  unfold UnbanAll in E3. apply (does (m := tx _)) in E3 as [Hw Hn]. set (d3 := with_store w d2).
  assert (Store.bans (tables (store d3)) = ∅) as B3 by (simpl; rewrite Hw; done).
  assert (n = Z.of_nat (size (Store.bans (tables (store d))))) as Hn'.
  { rewrite Hn. unfold id. simpl. unfold same_rows in R1, R2. by rewrite R2, R1. }
  clear Hw Hn. unfold mbind at 1, dm_mbind at 1.
  destruct (syncEnforcer cfg (sv_env v) (sv_repairs v) d3) as [s d4] eqn:E4. intros E.
  assert (s = SyncNoEnforcer ∨ s = SyncDone Done) as Hs by (destruct s as [| |[]]; auto; done).
  destruct (sync_empty _ _ _ _ _ B3 E4 Hs) as (A4 & F4 & B4 & P4 & X4).
  change (policyFile d3) with (policyFile d2) in P4. rewrite P2 in P4.
  change (gate d3) with (gate d2) in X4. change (ext d3) with (ext d2) in X4. change (armed d3) with (armed d2) in A4. rewrite G2, G1, X2, X1 in X4.
  assert (match feedSyncer cfg with
    | None => mret (Ok (PDisable (MkDisable true n true)))
    | Some sync => _ ← put (λ d, with_feeds (MkFeeds (rep (feedState d)) ∅ (observed (feedState d)) (status (feedState d))) d);
        d ← get; let '(ok, x) := sync [] (ext d) in _ ← put (with_ext x);
        mret (if (ok : bool) then Ok (PDisable (MkDisable true n true)) else Err (EFeedsLinger (MkDisable true n false))) end d4 =
    (Ok r, d')) as E' by (by destruct Hs as [-> | ->]).
  clear E. rewrite <- Hn'. destruct (feedSyncer cfg) as [sync|].
  - unfold mbind, dm_mbind, put, get in E'. destruct (sync [] (ext _)) as [ok x] eqn:Es. simpl in Es.
    unfold mret, dm_mret in E'. destruct ok; [|done]. simplify_eq. simpl. unfold armed in *. simpl. split_and!; try congruence; try done.
    + intros data Hd. destruct (P1 data Hd) as (data' & ? & ?). exists data'. split; [congruence|done].
    + exists (ext d4). split; [by destruct (gate d)|]. by rewrite Es.
  - unfold mret, dm_mret in E'. simplify_eq. split_and!; try congruence; try done.
    + intros data Hd. destruct (P1 data Hd) as (data' & ? & ?). exists data'. split; [congruence|done].
    + exists (ext d'). split; [by destruct (gate d)|done].
Qed.

(** ** Arming *)
Lemma preflight_ok (v : senv X) peer d checks hf sf d1 : runArmPreflight v peer d = ((checks, hf, sf), d1) →
  calm d d1 ∧ sf = (selfBanCheck peer d).2 ∧
  (hf = false → gate d ≠ None ∧ (AdminCIDRs (policy (decEng d)) ≠ [] ∨ Allowlist (policy (decEng d)) ≠ [])).
Proof.
  intros E. assert (Calm (runArmPreflight v peer)) as Hc.
  { unfold runArmPreflight, countRecentDryBans. apply calm_bind; [apply _|]. intros x. apply calm_bind; [unfold ActiveBans; apply _|]. intros bans.
    apply calm_bind; [|apply _]. apply calm_bind; [unfold ListAuditLog; apply _|apply _]. }
  split; [by eapply calm_run|]. unfold runArmPreflight, mbind, dm_mbind, get, mret, dm_mret in E.
  destruct (db (ActiveBans (vstore v)) d) as [bans d2]. destruct (countRecentDryBans v (24 * Hour) d2) as [recent d3]. simplify_eq.
  split; [done|]. intros Hf. simpl in Hf. apply orb_false_iff in Hf as [H1 Hf]. apply orb_false_iff in Hf as [H2 _].
  split.
  - intros Hg. unfold enforcer_check in H1. by rewrite Hg in H1.
  - unfold admin_check in H2. destruct (AdminCIDRs _) as [|x l]; [|by left]. destruct (Allowlist _); [done|by right].
Qed.

(** The address the operator connects from, when the request names one. *)
Definition operator_at (peer : string) (a : addr) : Prop := peer ≠ EmptyString ∧ ParseAddr (TrimSpace peer) = Some a.

(** A list entry is a range, or an address, which stands for itself alone. *)
Definition entry_covers (s : string) (a : addr) : Prop :=
  (∃ q, ParsePrefix s = Some q ∧ Contains q a = true) ∨
  (∃ b, ParsePrefix s = None ∧ ParseAddr s = Some b ∧ Contains (PrefixFrom b (BitLen b)) a = true).

(** The runtime allowlist in memory, or the policy's two lists, cover the address. *)
Definition protected_by_lists (d : daemon) (a : addr) : Prop :=
  (∃ p, p ∈ runtimeAllowlist d ∧ Contains p a = true) ∨
  (∃ s, (s ∈ Allowlist (policy (decEng d)) ∨ s ∈ AdminCIDRs (policy (decEng d))) ∧ entry_covers s a).

Lemma entry_coversE s a : match parsePrefixOrAddrDaemon s with Some q => Contains q a | None => false end = true ↔ entry_covers s a.
Proof.
  unfold parsePrefixOrAddrDaemon, entry_covers. destruct (ParsePrefix s) as [q|].
  - split; [by eauto|]. by intros [(? & [= <-] & ?)|(? & ? & _)].
  - destruct (ParseAddr s) as [b|]; simpl.
    + split; [by eauto|]. by intros [(? & ? & _)|(? & _ & [= <-] & ?)].
    + split; [done|]. by intros [(? & ? & _)|(? & _ & ? & _)].
Qed.

Lemma selfBanCheckE peer d : (selfBanCheck peer d).2 = true ↔ ∃ a, operator_at peer a ∧ ¬ protected_by_lists d a.
Proof.
  unfold selfBanCheck, operator_at. case_bool_decide as Hp; [split; [done|by intros (? & [? _] & _)]|].
  destruct (ParseAddr (TrimSpace peer)) as [a|]; [|split; [done|by intros (? & [_ ?] & _)]].
  match goal with |- context [if ?c then _ else _] => assert (c = true ↔ protected_by_lists d a) as Hc; [|destruct c] end.
  - rewrite orb_true_iff. unfold isRuntimeAllowlisted. rewrite !existsb_exists. unfold protected_by_lists.
    setoid_rewrite <- list_elem_of_In. setoid_rewrite elem_of_app. by setoid_rewrite entry_coversE.
  - split; [done|]. intros (a' & [_ [= <-]] & []). by apply Hc.
  - split; [|done]. intros _. exists a. split; [done|]. by intros ?%Hc.
Qed.

Lemma selfBan_passed peer d : (selfBanCheck peer d).2 = false → ∀ a, operator_at peer a → protected_by_lists d a.
Proof.
  intros Hs a Ha. unfold operator_at in Ha. destruct Ha as [Hp Ha]. unfold selfBanCheck in Hs. rewrite bool_decide_false, Ha in Hs by done.
  match type of Hs with context [if ?c then _ else _] => destruct c eqn:Hc; [|done] end. clear Hs.
  apply orb_true_iff in Hc. unfold isRuntimeAllowlisted in Hc. rewrite !existsb_exists in Hc. unfold protected_by_lists.
  setoid_rewrite <- list_elem_of_In in Hc. setoid_rewrite elem_of_app in Hc. by setoid_rewrite entry_coversE in Hc.
Qed.

(** C10. Arming is guarded: the policy becomes armed only when the address the
    operator is known to connect from lies in the runtime allowlist or in an
    entry of the policy's allowlist or admin CIDRs (no force lifts that), and
    without force only when an enforcer is configured and one of those two
    lists has an entry; the self-ban refusal is given only to an operator whom
    none of them covers, the preflight refusal only without force, and a refused
    request leaves the armed flag, except when the revert window could not be
    stored. *)
Theorem arming_guarded (v : senv X) req d r d' : handleArm v req d = (r, d') →
  match r with
  | Ok _ => armed d' = true ∧ (∀ a, operator_at (Peer req) a → protected_by_lists d a) ∧
      (Force req = false → gate d ≠ None ∧ (AdminCIDRs (policy (decEng d)) ≠ [] ∨ Allowlist (policy (decEng d)) ≠ []))
  | Err (ESelfBan _) => armed d' = armed d ∧ ∃ a, operator_at (Peer req) a ∧ ¬ protected_by_lists d a
  | Err (EPreflight _) => armed d' = armed d ∧ Force req = false
  | Err EWindowLost => ∀ a, operator_at (Peer req) a → protected_by_lists d a
  | Err _ => armed d' = armed d
  end.
Proof.
  unfold handleArm, mbind at 1, dm_mbind at 1. destruct (runArmPreflight v (Peer req) d) as [[[checks hf] sf] d1] eqn:Ep.
  apply preflight_ok in Ep as ([C1 C2 C3 C4 C5 C6 C7] & -> & Hpre).
  destruct ((selfBanCheck (Peer req) d).2) eqn:Es; [intros [= <- <-]; split; [done|by apply selfBanCheckE]|].
  pose proof (selfBan_passed _ _ Es) as Hs. clear Es.
  destruct (hf && negb (Force req)) eqn:Ef; [intros [= <- <-]; apply andb_true_iff in Ef as [_ Ef]; split; [done|by apply negb_true_iff]|].
  assert (Force req = false → hf = false) as Hf by (intros Hf; rewrite Hf in Ef; by rewrite andb_true_r in Ef).
  destruct (arm_window (vclock v) req) as [revertAt|e] eqn:Ew.
  2: { intros [= <- <-]. unfold arm_window in Ew. repeat (case_match; try discriminate); by simplify_eq. }
  unfold mbind at 1, dm_mbind at 1. destruct (setArmedState v true _ _ d1) as [[[]|e] d2] eqn:E2.
  2: { intros [= <- <-]. apply setArmed_err in E2. congruence. }
  apply setArmed_ok in E2 as (A2 & _). destruct revertAt as [t|].
  - unfold mbind at 1, dm_mbind at 1. destruct (db (SetState _ _) d2) as [[[]|] d3] eqn:E3.
    + intros [= <- <-]. split; [|by eauto]. apply calm_run in E3; [|unfold SetState; apply _]. destruct E3. congruence.
    + unfold mbind, dm_mbind. destruct (setArmedState v false _ _ d3) as [r3 d4]. by intros [= <- <-].
  - unfold mbind at 1, dm_mbind at 1. destruct (db_ (DeleteState _) d2) as [u d3] eqn:E3. intros [= <- <-].
    split; [|by eauto]. apply calm_run in E3; [|apply _]. destruct E3. congruence.
Qed.

(** A tick over a standing window. *)
Lemma checkArmWindow_spec (v : senv X) now d val : armed d = true → faults (store d) = [] →
  daemon_state (tables (store d)) !! stateKeyArmWindow = Some val →
  if now <? default (now - Second) (ParseRFC3339 val) then (checkArmWindow cfg v now d).2 = d
  else armed (checkArmWindow cfg v now d).2 = false.
Proof.
  intros Ha Hf Hv.
  assert (db (GetState stateKeyArmWindow) d = (Ok (Some val), d)) as Hg.
  { unfold db, GetState, query, mbind, sql_mbind, driver, read. rewrite Hf, Hv. by destruct d. }
  destruct (checkArmWindow cfg v now d) as [u0 d9] eqn:E. simpl. unfold checkArmWindow in E.
  unfold mbind at 1, dm_mbind at 1 in E. rewrite Hg in E. unfold mbind at 1, dm_mbind at 1, get at 1 in E. rewrite Ha in E.
  cbn [negb] in E. cbv zeta in E. destruct (now <? default (now - Second) (ParseRFC3339 val)); [unfold skip, mret, dm_mret in E; by simplify_eq|].
  unfold mbind at 1, dm_mbind at 1 in E. destruct (setArmedState v false "arm_revert" window_msg d) as [r d2] eqn:E2.
  assert (∀ d3 u d4, (match r with
      | Ok _ => skip
      | Err e => _ ← put (λ d, with_eng (with_policy (SetArmed false (policy (decEng d))) (decEng d)) d);
          db_ (AuditSystem (vstore v) "arm_revert" (window_msg +:+ " (policy.yaml rewrite failed: " +:+ err_text v e +:+ ")"))
      end) d3 = (u, d4) → armed d3 = false ∨ (∃ e, r = Err e) → armed d4 = false) as Hr.
  { clear E. intros d3 u d4 E Hd. destruct r as [[]|e].
    - destruct Hd as [Hd|[e [=]]]. unfold skip, mret, dm_mret in E. by simplify_eq.
    - unfold mbind, dm_mbind, put in E. apply calm_run in E; [|apply _]. destruct E as [-> _ _ _ _ _ _]. done. }
  unfold mbind at 1, dm_mbind at 1 in E. match type of E with context [?m d2] => destruct (m d2) as [u d3] eqn:E3 end.
  assert (armed d3 = false) as H3.
  { eapply Hr; [exact E3|]. destruct r as [[]|e]; [left; by apply setArmed_ok in E2 as (A2 & _)|right; eauto]. }
  assert (Calm (_ ← db_ (DeleteState stateKeyArmWindow); notifyCritical cfg window_msg)) as Hc by (unfold notifyCritical; apply _).
  specialize (Hc d3). rewrite E in Hc. destruct Hc as [Hc _ _ _ _ _ _]. simpl in Hc. by rewrite Hc.
Qed.

(** C9. The revert window holds: an accepted [arm --for] is between a minute and
    seven days, its deadline is stored, and whatever happens meanwhile, a tick
    at or after the deadline that finds the daemon armed and the window standing
    disarms it, even when the policy file cannot be rewritten, and a tick more
    than a second before it changes nothing. *)
Theorem arm_window_reverts (v : senv X) req d a d1 :
  handleArm v req d = (Ok (PArm a), d1) → For req ≠ EmptyString → 0 <= vclock v < 2932800 * (24 * Hour) →
  daemon_state (tables (store d1)) !! stateKeyArmWindow = Some (RevertAt a) ∧ armed d1 = true ∧
  ∃ w, parseExtendedDuration (For req) = Some w ∧ Minute <= w <= 7 * 24 * Hour ∧
  ∀ v2 now d2, armed d2 = true → faults (store d2) = [] →
    daemon_state (tables (store d2)) !! stateKeyArmWindow = Some (RevertAt a) →
    (vclock v + w <= now → armed (checkArmWindow cfg v2 now d2).2 = false) ∧
    (now <= vclock v + w - Second → (checkArmWindow cfg v2 now d2).2 = d2).
Proof.
  intros E Hfor Hy. unfold handleArm, mbind at 1, dm_mbind at 1 in E.
  destruct (runArmPreflight v (Peer req) d) as [[[checks hf] sf] d0]. destruct sf; [done|]. destruct (hf && _); [done|].
  destruct (arm_window (vclock v) req) as [revertAt|e] eqn:Ew; [|done]. unfold arm_window in Ew.
  rewrite bool_decide_false in Ew by done. destruct (parseExtendedDuration (For req)) as [w|]; [|done].
  destruct ((w <? minArmWindow) || (maxArmWindow <? w)) eqn:Er; [done|]. simplify_eq. apply orb_false_iff in Er as [Er1 Er2].
  unfold minArmWindow, maxArmWindow in *. bool_hyps.
  unfold mbind at 1, dm_mbind at 1 in E. destruct (setArmedState v true _ _ d0) as [[[]|e] d2] eqn:E2; [|done].
  apply setArmed_ok in E2 as (A2 & _). unfold mbind at 1, dm_mbind at 1 in E.
  destruct (db (SetState _ _) d2) as [[[]|] d3] eqn:E3; [|unfold mbind, dm_mbind in E; by destruct (setArmedState v false _ _ d3)].
  unfold mret, dm_mret in E. simplify_eq. simpl. split_and!.
  - unfold db in E3. destruct (SetState _ _ (store d2)) as [r w'] eqn:Es. simplify_eq. unfold SetState in Es.
    apply (does (m := exec _)) in Es as [Hw _]. simpl. rewrite Hw. simpl. by rewrite lookup_insert_eq.
  - apply calm_run in E3; [|unfold SetState; apply _]. destruct E3. congruence.
  - exists w. split; [done|]. split; [lia|]. intros v2 now d4 Ha Hf Hs.
    pose proof (checkArmWindow_spec v2 now d4 _ Ha Hf Hs) as H. unfold Day, Hour, Minute, Second in *.
    rewrite Parse_Format in H by (unfold Day, Hour, Minute, Second; lia). cbn [default] in H. unfold Unix, Second, id in H.
    pose proof (Z.div_mod (vclock v + w) 1000000000 ltac:(done)). pose proof (Z.mod_pos_bound (vclock v + w) 1000000000 ltac:(done)).
    split; intros Hn; [rewrite (proj2 (Z.ltb_ge _ _)) in H by lia|rewrite (proj2 (Z.ltb_lt _ _)) in H by lia]; done.
Qed.

(** ** The read-only tier *)
Class Reads {A} (m : dm X A) : Prop := reads : ∀ d, ∃ w, (m d).2 = with_store w d ∧ tables w = tables (store d).

#[local] Instance reads_ret {A} (x : A) : Reads (mret x).
Proof. intros d. exists (store d). split; [by destruct d|done]. Qed.
#[local] Instance reads_get : Reads get.
Proof. intros d. exists (store d). split; [by destruct d|done]. Qed.
#[local] Instance reads_bind {A B} (m : dm X A) (k : A → dm X B) : Reads m → (∀ x, Reads (k x)) → Reads (x ← m; k x).
Proof.
  intros Hm Hk d. destruct (Hm d) as (w & E & T). unfold mbind, dm_mbind. destruct (m d) as [x d1]. simpl in E. subst d1.
  destruct (Hk x (with_store w d)) as (w2 & E2 & T2). exists w2. rewrite E2. split; [done|]. simpl in T2. congruence.
Qed.
#[local] Instance reads_if {A} (c : bool) (m n : dm X A) : Reads m → Reads n → Reads (if c then m else n).
Proof. by destruct c. Qed.
#[local] Instance reads_db {A} (m : sql A) : Keeps eq m → Reads (db m).
Proof. intros Hm d. specialize (Hm (store d)). unfold db. destruct (m (store d)) as [r w]. exists w. done. Qed.

Ltac reads := repeat first [ progress cbv zeta | apply _ | apply reads_bind; [|intros ?]
  | match goal with |- Reads (match ?x with _ => _ end) => destruct x end
  | match goal with |- Reads (db ?m) => apply reads_db; unfold ActiveBans, GetState, ListAllow, ListAuditLog, AuditLogForIP, ListOffenders,
      GetOffender, ActiveBanForIP, StrikesForIP; apply _ end ].

Lemma reads_serve v req : Verb req ∈ readOnlyVerbs → Reads (serve cfg v req).
Proof.
  unfold readOnlyVerbs. rewrite !elem_of_cons, elem_of_nil. unfold serve. cbv zeta.
  intros [E|[E|[E|[E|[E|[E|[E|[E|[]]]]]]]]]; rewrite E; cbn [bool_decide decide_rel]; simpl.
  - unfold handleStatus, armedUntil. reads.
  - unfold handleList. reads.
  - unfold handleListAllow. reads.
  - unfold handleEvents. reads.
  - unfold handleReport, handleReportList, buildAbuseReport. reads.
  - reads.
  - reads.
  - unfold handleFeedsStatus. reads.
Qed.

(** C11. The read-only socket reads: whatever the request, nothing of the daemon or
    the world changes, and the tables are as they were, except that a refused
    request for a mutating verb leaves one "socket_cmd" row naming the peer. *)
Theorem readonly_tier (v : senv X) req d : let '(r, d') := handleConnScoped cfg v true req d in
  ∃ w, d' = with_store w d ∧
    (tables w = tables (store d) ∨
     Verb req ∈ mutatingVerbs ∧ r = Err (EReadOnly (Verb req)) ∧
     tables w = insert_audit (vstore v) "socket_cmd" OnSystem 0 0 (cmd_reason v req false) (tables (store d))).
Proof.
  unfold handleConnScoped. cbv zeta. cbn [andb].
  destruct (bool_decide_reflect (Verb req ∈ readOnlyVerbs)) as [Hv|Hv]; cbn [negb].
  - assert (bool_decide (Verb req ∈ mutatingVerbs) = false) as Hm.
    { unfold readOnlyVerbs in Hv. rewrite !elem_of_cons, elem_of_nil in Hv.
      by destruct Hv as [E|[E|[E|[E|[E|[E|[E|[E|[]]]]]]]]]; rewrite E. }
    assert (Reads (r ← serve cfg v req; _ ← (if bool_decide (Verb req ∈ mutatingVerbs) then auditSocketCmd v req (is_ok r) else skip); mret r)) as Hr.
    { apply reads_bind; [by apply reads_serve|]. intros r. rewrite Hm. unfold skip. apply _. }
    destruct (Hr d) as (w & E & T). match goal with |- context [let (_, _) := ?m in _] => destruct m as [r d'] end. exists w. auto.
  - unfold auditSocketCmd. destruct (bool_decide_reflect (Verb req ∈ mutatingVerbs)) as [Hm|Hm].
    + unfold db_, db, skip, mbind, dm_mbind, mret, dm_mret, AuditSystem.
      destruct (EventsAgg.exec_cases (insert_audit (vstore v) "socket_cmd" OnSystem 0 0 (cmd_reason v req false)) (store d)) as [[o ->]|[o ->]]; simpl.
      * eexists. split; [done|]. right. done.
      * eexists. split; [done|]. by left.
    + exists (store d). split; [by destruct d|by left].
Qed.
End theorems.

(** ** Concrete requests *)
Definition arm_request (window : string) : SocketRequest :=
  MkRequest "arm" EmptyString EmptyString window true "192.0.2.5" EmptyString EmptyString 0 EmptyString false EmptyString false.

Definition armed_sample : Daemon.daemon (list ecall) :=
  (handleArm (sample_senv 1000) (arm_request "1h") (sample_daemon false (MkWorld emptyDb []))).2.

Definition disable_request : SocketRequest :=
  MkRequest "disable_all" EmptyString EmptyString EmptyString false EmptyString EmptyString EmptyString 0 EmptyString false EmptyString false.

Lemma arm_sample_ok : ∃ a, handleArm (sample_senv 1000) (arm_request "1h") (sample_daemon false (MkWorld emptyDb [])) = (Ok (PArm a), armed_sample) ∧
  RevertAt a = "1970-01-01T01:00:00Z".
Proof. eexists. unfold armed_sample. vm_compute. split; reflexivity. Qed.

Lemma arming_guarded_witness :
  let '(r, d') := handleArm (sample_senv 1000) (arm_request "1h") (sample_daemon false (MkWorld emptyDb [])) in
  armed d' = true ∧ protected_by_lists (sample_daemon false (MkWorld emptyDb [])) (Addr4 3221225989).
Proof.
  destruct arm_sample_ok as (a & E & _). rewrite E.
  destruct (arming_guarded (sample_senv 1000) (arm_request "1h") _ _ _ E) as (H1 & H2 & _).
  split; [exact H1|]. apply H2. split; [discriminate|vm_compute; reflexivity].
Defined.

Lemma arm_window_reverts_witness :
  armed armed_sample = true ∧ armed (checkArmWindow sample_config (sample_senv 0) (1000 + Hour) armed_sample).2 = false ∧
  (checkArmWindow sample_config (sample_senv 0) (30 * Minute) armed_sample).2 = armed_sample.
Proof.
  destruct arm_sample_ok as (a & E & _).
  destruct (arm_window_reverts sample_config (sample_senv 1000) (arm_request "1h") _ _ _ E) as (Hs & Ha & w & Hw & _ & H);
    [done|by split; vm_compute|].
  assert (w = Hour) as -> by (vm_compute in Hw; injection Hw as <-; done).
  split; [exact Ha|]. assert (faults (store armed_sample) = []) as Hf by (vm_compute; reflexivity).
  destruct (H (sample_senv 0) (1000 + Hour) armed_sample Ha Hf Hs) as [H1 _].
  destruct (H (sample_senv 0) (30 * Minute) armed_sample Ha Hf Hs) as [_ H2].
  split; [apply H1; vm_compute; discriminate|apply H2; vm_compute; discriminate].
Defined.

(** After an attack while armed. *)
Definition attacked_sample : Daemon.daemon (list ecall) := run_ops sample_config sample_ops (sample_daemon true (MkWorld emptyDb [])).

Definition attacked_file : string := "ban_threshold: 70" +:+ Policy.NLs +:+ "armed: true # live" +:+ Policy.NLs.

Lemma with_fileE {X} f (d : Daemon.daemon X) :
  policyFile (with_file f d) = f ∧ gate (with_file f d) = gate d ∧ ext (with_file f d) = ext d.
Proof. done. Qed.

Lemma disable_all_complete_witness :
  let '(r, d') := handleDisableAll sample_config (sample_senv 4000) (with_file (Some attacked_file) attacked_sample) in
  r = Ok (PDisable (MkDisable true 1 true)) ∧ armed d' = false ∧ Store.bans (tables (store d')) = ∅ ∧
  ext d' = Sync [] :: ext attacked_sample ∧
  policyFile d' = Some ("ban_threshold: 70" +:+ Policy.NLs +:+ "armed: false # live" +:+ Policy.NLs) ∧
  ∃ pre lead tail post, Policy.armed_line lead tail ∧ policyFile d' = Some (Join (pre ++ (lead +:+ "false" +:+ tail) :: post) Policy.NLs).
Proof.
  destruct (handleDisableAll sample_config (sample_senv 4000) (with_file (Some attacked_file) attacked_sample)) as [r d'] eqn:E.
  assert ((handleDisableAll sample_config (sample_senv 4000) (with_file (Some attacked_file) attacked_sample)).1 = Ok (PDisable (MkDisable true 1 true)))
    as Hr by (vm_compute; reflexivity).
  assert (policyFile (handleDisableAll sample_config (sample_senv 4000) (with_file (Some attacked_file) attacked_sample)).2 =
    Some ("ban_threshold: 70" +:+ Policy.NLs +:+ "armed: false # live" +:+ Policy.NLs)) as Hp by (vm_compute; reflexivity).
  rewrite E in Hr, Hp. simpl in Hr, Hp. subst r.
  destruct (disable_all_complete sample_config (sample_senv 4000) _ _ _ E) as (Ha & Hb & _ & Hd & x & Hx & Hf).
  split; [done|]. split; [exact Ha|]. split; [exact Hb|]. split; [|split; [exact Hp|]].
  - destruct Hf as [[= <-] _].
    destruct (with_fileE (Some attacked_file) attacked_sample) as (_ & Hg & He). rewrite Hg, He in Hx. clear Hg He E Hd.
    change (gate attacked_sample) with (Some (SetExtraAllowlist (runtimeAllowlist attacked_sample) (NewGate recorder sample_al None))) in Hx.
    revert Hx. generalize (ext attacked_sample) (runtimeAllowlist attacked_sample). intros e l. simpl. by intros [= <-].
  - destruct (Hd attacked_file (proj1 (with_fileE _ _))) as (data' & H1 & pre & lead & old & tail & post & H2 & _ & H3).
    exists pre, lead, tail, post. split; [exact H2|]. by rewrite H1, H3.
Defined.

(** ** Behaviours worth knowing *)

(** When the revert window cannot be stored and the file cannot be rewritten
    back, the reply says "reverted to dry-run" but the daemon stays armed, with
    no window to end it. *)
Lemma window_lost_stays_armed :
  let v := MkSenv _ (sample_denv 1000) (λ on, if on then Policy.fs_ok else MkFs false false false false) (λ _, "io") (λ _, None)
             Retention.table_order (λ _, false) None (λ _, []) in
  let d := with_file (Some Policy.sample_policy_file) (sample_daemon false (MkWorld emptyDb [true; true; true; false])) in
  let '(r, d') := handleArm v (arm_request "1h") d in
  r = Err EWindowLost ∧ armed d' = true ∧ daemon_state (tables (store d')) !! stateKeyArmWindow = None.
Proof. vm_compute. split_and!; reflexivity. Qed.

(** At startup the first reconcile runs before the runtime allowlist is loaded:
    a stored ban of an address the operator allowed is applied again. *)
Definition allowed_ban : world :=
  MkWorld (on_allowlist (<[Prefix (Addr4 0xcb007100) 24 := MkAllow None "office" 0]>)
    (on_bans (<[Addr4 0xcb007109 := fresh_ban 0 None 1 "r" false]>) emptyDb)) [].

Lemma startup_applies_allowed_ban :
  let d := (startup sample_config (sample_senv 1000) (sample_daemon true allowed_ban)).2 in
  Sync [sample_target 0] ∈ ext d ∧ isRuntimeAllowlisted (Addr4 0xcb007109) d = true.
Proof. vm_compute. split; [right; left|reflexivity]. Qed.

Definition ban_request (target ttl : string) : SocketRequest :=
  MkRequest "ban" target ttl EmptyString false EmptyString EmptyString EmptyString 0 EmptyString false EmptyString false.

(** A range banned by hand is in no table, so the next reconcile lifts it. *)
Lemma range_ban_lasts_until_sync :
  let d := (handleBan sample_config (sample_senv 1000) (ban_request "203.0.113.0/24" EmptyString) (sample_daemon true (MkWorld emptyDb []))).2 in
  ext (syncEnforcer sample_config (sample_denv 2000) (λ _, None) d).2 =
    [Sync []; Gate.Ban (MkTarget AddrNone (Prefix (Addr4 0xcb007100) 24) 0 EmptyString 0)].
Proof. vm_compute. reflexivity. Qed.

(** A negative TTL is enforced but refused by the store: the ban is not listed. *)
Lemma negative_ttl_unlisted :
  let d := (handleBan sample_config (sample_senv 1000) (ban_request "203.0.113.9" "-5m") (sample_daemon true (MkWorld emptyDb []))).2 in
  ext d = [Gate.Ban (sample_target (- (5 * Minute)))] ∧ Store.bans (tables (store d)) = ∅.
Proof. vm_compute. split; reflexivity. Qed.

(** Days overflow. *)
Lemma days_overflow : parseExtendedDuration "213504d" = Some (1526290448384) ∧ (parseExtendedDuration "106752d" ≫= λ d, Some (d <? 0)) = Some true.
Proof. vm_compute. split; reflexivity. Qed.
