(* ===== verification/Notify.v ===== *)
(** The notification dispatcher ([internal/notify/notify.go]): fan-out to the
    channels with a deduplication window, a quota per channel, and a quota of its
    own for critical messages. *)
From Stdlib Require Import Sorted.
From S2P Require Import Prelude GoStrings Netip NetipParse Sdk NotifySuppress.
Definition DefaultRateLimitPerMinute : Z := 5.
Definition DefaultDedupWindowSec : Z := 600.
Definition CriticalRateLimitPerMinute : Z := 20.
Definition SeverityCritical : string := "critical".

(** ** The rate limiter *)
Record rateLimiter := MkLim { maxN : Z; lim_window : duration; history : list time }.
Definition newRateLimiter (maxN : Z) (window : duration) : rateLimiter := MkLim maxN window [].

(** The entries from the first that is not before the cutoff. *)
Fixpoint slide (cutoff : time) (h : list time) : list time :=
  match h with
  | [] => []
  | t :: h' => if t <? cutoff then slide cutoff h' else h
  end.

Definition Allow (now : time) (r : rateLimiter) : bool * rateLimiter :=
  let h := slide (now - lim_window r) (history r) in
  if maxN r <=? Z.of_nat (length h) then (false, MkLim (maxN r) (lim_window r) h)
  else (true, MkLim (maxN r) (lim_window r) (h ++ [now])).

(** ** Channels *)
Record notifyChannel := MkChannel { ch_name : string; severity : option (gset string); rl : rateLimiter; rlCrit : rateLimiter }.

Record Dispatcher := MkDispatcher { channels : list notifyChannel; dedup : gmap string time; dedupWindow : duration; dropped : Z }.

Definition newChannel (name : string) (maxPerMinute : Z) (severities : list string) : notifyChannel :=
  MkChannel name (match severities with [] => None | _ => Some (list_to_set severities) end)
    (newRateLimiter maxPerMinute Minute) (newRateLimiter CriticalRateLimitPerMinute Minute).

Definition quota (maxPerMinute : Z) : Z := if maxPerMinute <=? 0 then DefaultRateLimitPerMinute else maxPerMinute.

Definition NewWithClock (notifiers : list string) (maxPerMinute : Z) (window : duration) (severities : gmap string (list string)) : Dispatcher :=
  MkDispatcher ((λ n, newChannel n (quota maxPerMinute) (default [] (severities !! n))) <$> notifiers) ∅
    (if window <=? 0 then DefaultDedupWindowSec * Second else window) 0.

Definition Register (name : string) (maxPerMinute : Z) (severities : list string) (d : Dispatcher) : Dispatcher :=
  MkDispatcher (channels d ++ [newChannel name (quota maxPerMinute) severities]) (dedup d) (dedupWindow d) (dropped d).

Definition acceptsSeverity (ch : notifyChannel) (sev : string) : bool :=
  match severity ch with None => true | Some l => bool_decide (sev ∈ l) end.
Definition AcceptsCritical (d : Dispatcher) : bool := existsb (λ ch, acceptsSeverity ch SeverityCritical) (channels d).

(** ** Deduplication *)
Definition dedupKey (msg : Notification) : string :=
  match n_Action msg with
  | Some a => if IsValid (act_IP a) then "ip:" +:+ show_addr (act_IP a) +:+ "|" +:+ act_Reason a
              else "sys:" +:+ Severity msg +:+ "|" +:+ Title msg
  | None => "sys:" +:+ Severity msg +:+ "|" +:+ Title msg
  end.

Definition dedup_gc : nat := 10000.

Definition with_dedup (m : gmap string time) (d : Dispatcher) : Dispatcher := MkDispatcher (channels d) m (dedupWindow d) (dropped d).

(** The stamp of a new claim, when the window was free. *)
Definition claimDedup (now : time) (key : string) (d : Dispatcher) : option time * Dispatcher :=
  match dedup d !! key with
  | Some last => if now - last <? dedupWindow d then (None, d) else
      let m := <[key := now]> (dedup d) in
      (Some now, with_dedup (if (dedup_gc <? size m)%nat then filter (λ p, now - dedupWindow d <= p.2) m else m) d)
  | None =>
      let m := <[key := now]> (dedup d) in
      (Some now, with_dedup (if (dedup_gc <? size m)%nat then filter (λ p, now - dedupWindow d <= p.2) m else m) d)
  end.

Definition releaseDedup (key : string) (claim : time) (d : Dispatcher) : Dispatcher :=
  if bool_decide (dedup d !! key = Some claim) then with_dedup (delete key (dedup d)) d else d.

(** ** Sending

    What a channel does with a message at [now], when its [Send] would answer
    [answer]. *)
Inductive outcome := Skipped | Dropped | Failed (err : string) | Delivered.

Definition is_critical (msg : Notification) : bool := bool_decide (Severity msg = SeverityCritical).

Definition with_limiter (crit : bool) (r : rateLimiter) (ch : notifyChannel) : notifyChannel :=
  if crit then MkChannel (ch_name ch) (severity ch) (rl ch) r else MkChannel (ch_name ch) (severity ch) r (rlCrit ch).
Definition limiter (crit : bool) (ch : notifyChannel) : rateLimiter := if crit then rlCrit ch else rl ch.

Definition offer (now : time) (answer : option string) (msg : Notification) (ch : notifyChannel) : outcome * notifyChannel :=
  if negb (acceptsSeverity ch (Severity msg)) then (Skipped, ch)
  else let '(ok, r) := Allow now (limiter (is_critical msg) ch) in
       (if ok then match answer with Some err => Failed err | None => Delivered end else Dropped, with_limiter (is_critical msg) r ch).

(** The [i]-th channel's turn. *)
Definition turn (now : time) (answer : option string) (msg : Notification) (i : nat) (d : Dispatcher) : outcome * Dispatcher :=
  match channels d !! i with
  | None => (Skipped, d)
  | Some ch =>
    let '(o, ch') := offer now answer msg ch in
    (o, MkDispatcher (<[i := ch']> (channels d)) (dedup d) (dedupWindow d) (match o with Dropped => dropped d + 1 | _ => dropped d end))
  end.

(** The turns from channel [i] on; [env j] is the clock and the channel's answer
    at turn [j].  Whether one delivered, and the failures. *)
Fixpoint turns (env : nat → time * option string) (msg : Notification) (n i : nat) (delivered : bool) (errs : list string) (d : Dispatcher) : bool * list string * Dispatcher :=
  match n with
  | O => (delivered, errs, d)
  | S n =>
    let name := default EmptyString (ch_name <$> channels d !! i) in
    let '(o, d') := turn (env i).1 (env i).2 msg i d in
    turns env msg n (S i) (match o with Delivered => true | _ => delivered end)
      (match o with Failed err => errs ++ [name +:+ ": " +:+ err] | _ => errs end) d'
  end.

Definition send_error (errs : list string) : option string :=
  match errs with
  | [] => None
  | [x] => Some ("notify: " +:+ x)
  | _ => Some ("notify: multiple errors: [" +:+ Join errs " " +:+ "]")
  end.

Definition Send (now : time) (env : nat → time * option string) (msg : Notification) (d : Dispatcher) : option string * Dispatcher :=
  let key := dedupKey msg in
  match claimDedup now key d with
  | (None, d) => (None, d)
  | (Some claim, d) =>
    let '(delivered, errs, d) := turns env msg (length (channels d)) 0 false [] d in
    (send_error errs, if delivered then d else releaseDedup key claim d)
  end.

(** ** Concurrent senders

    Sends interleave: a sender claims its window, takes the channels' turns one by
    one, and releases the window when nothing was delivered. *)
Record sender := MkSender { s_msg : Notification; s_claim : time; s_next : nat; s_delivered : bool }.

(** A turn that reached the channel's quota: who, when, and what came of it. *)
Record attempt := MkAttempt { a_sender : nat; a_key : string; a_claim : time; a_chan : nat; a_crit : bool; a_at : time; a_out : outcome }.

Record system := MkSystem { disp : Dispatcher; clock : time; senders : gmap nat sender; used : gset nat; attempts : list attempt }.

Inductive action :=
| Begin (id : nat) (msg : Notification)
| Turn (id : nat) (answer : option string)
| Finish (id : nat).

Definition act (now : time) (a : action) (s : system) : system :=
  match a with
  | Begin id msg =>
    if bool_decide (id ∈ used s) then s
    else let '(c, d) := claimDedup now (dedupKey msg) (disp s) in
         match c with
         | None => MkSystem d now (senders s) ({[id]} ∪ used s) (attempts s)
         | Some claim => MkSystem d now (<[id := MkSender msg claim 0 false]> (senders s)) ({[id]} ∪ used s) (attempts s)
         end
  | Turn id answer =>
    match senders s !! id with
    | Some x =>
      if (s_next x <? length (channels (disp s)))%nat then
        let '(o, d) := turn now answer (s_msg x) (s_next x) (disp s) in
        MkSystem d now
          (<[id := MkSender (s_msg x) (s_claim x) (S (s_next x)) (match o with Delivered => true | _ => s_delivered x end)]> (senders s)) (used s)
          (match o with
           | Skipped => attempts s
           | _ => MkAttempt id (dedupKey (s_msg x)) (s_claim x) (s_next x) (is_critical (s_msg x)) now o :: attempts s
           end)
      else s
    | None => s
    end
  | Finish id =>
    match senders s !! id with
    | Some x =>
      if (s_next x <? length (channels (disp s)))%nat then s
      else MkSystem (if s_delivered x then disp s else releaseDedup (dedupKey (s_msg x)) (s_claim x) (disp s)) (clock s) (delete id (senders s)) (used s) (attempts s)
    | None => s
    end
  end.

(** A run: each action at a reading of the clock, which does not go back. *)
Inductive reaches (s0 : system) : system → Prop :=
| reaches_start : reaches s0 s0
| reaches_act s now a : reaches s0 s → clock s <= now → reaches s0 (act now a s).

Definition start (t0 : time) (d : Dispatcher) : system := MkSystem d t0 ∅ ∅ [].

(** * What the dispatcher keeps to, however sends interleave: one alert per window,
    the quotas, and the critical messages' own one. *)
(** ** The rate limiter *)
Lemma slide_spec c h : StronglySorted Z.le h → ∃ old, h = old ++ slide c h ∧ Forall (λ t, t < c) old ∧ Forall (λ t, c <= t) (slide c h).
Proof.
  induction 1 as [|t h Hs IH Ht]; cbn; [by exists []|]. destruct (Z.ltb_spec t c).
  - destruct IH as (old & E & Ho & Hn). exists (t :: old). cbn. rewrite <- E. split; [done|]. split; [by constructor|done].
  - exists []. split; [done|]. split; [constructor|]. constructor; [lia|]. eapply Forall_impl; [exact Ht|]. cbn. lia.
Qed.

(** How many of the instants are in [[t, t+w]]. *)
Definition between (t u : time) (ts : list time) : nat := length (List.filter (λ x, (t <=? x) && (x <=? u)) ts).

Lemma between_app t u ts us : between t u (ts ++ us) = (between t u ts + between t u us)%nat.
Proof. unfold between. by rewrite List.filter_app, length_app. Qed.
Lemma between_none t u ts : Forall (λ x, x < t ∨ u < x) ts → between t u ts = O.
Proof.
  unfold between. induction 1 as [|x ts Hx _ IH]; [done|]. cbn. destruct (Z.leb_spec t x), (Z.leb_spec x u); cbn; try done; lia.
Qed.
Lemma between_all t u ts : Forall (λ x, t <= x <= u) ts → between t u ts = length ts.
Proof.
  unfold between. induction 1 as [|x ts Hx _ IH]; [done|]. cbn. destruct (Z.leb_spec t x), (Z.leb_spec x u); cbn; lia.
Qed.
Lemma between_le t u ts : (between t u ts ≤ length ts)%nat.
Proof. unfold between. induction ts as [|x ts IH]; cbn; [done|]. destruct (_ && _); cbn; lia. Qed.

(** The limiter let [ts] through, the last by [now], never more than its maximum in a window. *)
Record lim_ok (r : rateLimiter) (ts : list time) (now : time) : Prop := {
  lk_sorted : StronglySorted Z.le ts;
  lk_now : Forall (λ t, t <= now) ts;
  lk_hist : ∃ old, ts = old ++ history r ∧ Forall (λ t, t + lim_window r < now) old;
  lk_bound : ∀ t, Z.of_nat (between t (t + lim_window r) ts) <= Z.max 0 (maxN r)
}.

Lemma sorted_snoc ts now : StronglySorted Z.le ts → Forall (λ t, t <= now) ts → StronglySorted Z.le (ts ++ [now]).
Proof.
  intros Hs Hn. induction Hs as [|t ts Hs IH Ht]; [by repeat constructor|]. apply Forall_cons in Hn as [Htn Hn]. cbn.
  constructor; [by apply IH|]. apply Forall_app. split; [done|]. by repeat constructor.
Qed.
Lemma sorted_app_r (a b : list time) : StronglySorted Z.le (a ++ b) → StronglySorted Z.le b.
Proof. induction a as [|x a IH]; [done|]. cbn. intros [H _]%StronglySorted_inv. by apply IH. Qed.

Lemma lim_later r ts now now' : now <= now' → lim_ok r ts now → lim_ok r ts now'.
Proof.
  intros Hle [Hs Hn (old & E & Ho) Hb]. split; [done| | |done].
  - eapply Forall_impl; [exact Hn|]. cbn. lia.
  - exists old. split; [done|]. eapply Forall_impl; [exact Ho|]. cbn. lia.
Qed.

Lemma Allow_ok r ts now : 0 <= lim_window r → lim_ok r ts now →
  let '(ok, r') := Allow now r in
  maxN r' = maxN r ∧ lim_window r' = lim_window r ∧ lim_ok r' (if ok then ts ++ [now] else ts) now ∧
  (ok = false → maxN r <= Z.of_nat (between (now - lim_window r) now ts)).
Proof.
  intros Hw [Hs Hn (old & E & Ho) Hb]. unfold Allow. set (c := now - lim_window r).
  assert (StronglySorted Z.le (history r)) as Hh by (eapply sorted_app_r; by rewrite <- E).
  destruct (slide_spec c (history r) Hh) as (old' & E' & Ho' & Hn'). set (h := slide c (history r)) in *.
  assert (ts = (old ++ old') ++ h) as Ets by (by rewrite <- app_assoc, <- E').
  assert (Forall (λ t, t < c) (old ++ old')) as Hold.
  { apply Forall_app. split; [|done]. eapply Forall_impl; [exact Ho|]. cbn. unfold c. lia. }
  assert (Forall (λ t, c <= t <= now) h) as Hin.
  { rewrite Ets in Hn. apply Forall_app in Hn as [_ Hn2]. rewrite Forall_forall in *. intros x Hx. split; [by apply Hn'|by apply Hn2]. }
  assert (∀ b : bool, (if b then ts ++ [now] else ts) = (old ++ old') ++ (if b then h ++ [now] else h)) as Eb by (intros []; rewrite Ets, <- ?app_assoc; done).
  destruct (Z.leb_spec (maxN r) (Z.of_nat (length h))) as [Hfull|Hroom]; (split; [done|]; split; [done|]; split).
  - split; cbn; [done|done| |exact Hb]. exists (old ++ old'). split; [done|]. eapply Forall_impl; [exact Hold|]. cbn. unfold c. lia.
  - intros _. rewrite Ets, between_app, (between_all _ _ h) by exact Hin. lia.
  - split; cbn.
    + by apply sorted_snoc.
    + apply Forall_app. split; [done|]. repeat constructor. lia.
    + exists (old ++ old'). split; [by rewrite Ets, <- app_assoc|]. eapply Forall_impl; [exact Hold|]. cbn. unfold c. lia.
    + intros t. rewrite between_app. destruct (decide (t <= now <= t + lim_window r)) as [Ht|Ht].
      * rewrite Ets, between_app, (between_none _ _ (old ++ old')) by (eapply Forall_impl; [exact Hold|]; cbn; unfold c; lia).
        pose proof (between_le t (t + lim_window r) h). pose proof (between_le t (t + lim_window r) [now]) as H1. cbn [length] in H1. lia.
      * rewrite (between_none _ _ [now]) by (apply Forall_singleton; lia). specialize (Hb t). lia.
  - done.
Qed.

(** ** The quotas of a run *)

(** The instants at which channel [i] used its (critical or ordinary) quota. *)
Definition is_use (i : nat) (b : bool) (a : attempt) : bool :=
  bool_decide (a_chan a = i) && Bool.eqb (a_crit a) b && match a_out a with Dropped | Skipped => false | _ => true end.
Definition uses (i : nat) (b : bool) (l : list attempt) : list time := rev (a_at <$> List.filter (is_use i b) l).

#[local] Arguments uses : simpl never.
#[local] Arguments between : simpl never.

Lemma uses_cons i b a l : uses i b (a :: l) = uses i b l ++ (if is_use i b a then [a_at a] else []).
Proof. unfold uses. cbn. destruct (is_use i b a); cbn; [done|by rewrite app_nil_r]. Qed.

Section run.
Context (d0 : Dispatcher) (W : duration).

(** A channel is the one it was, its limiters in order. *)
Definition chan_ok (i : nat) (ch : notifyChannel) (s : system) : Prop :=
  ∃ ch0, channels d0 !! i = Some ch0 ∧ ch_name ch = ch_name ch0 ∧ severity ch = severity ch0 ∧
    ∀ b, maxN (limiter b ch) = maxN (limiter b ch0) ∧ lim_window (limiter b ch) = Minute ∧ lim_ok (limiter b ch) (uses i b (attempts s)) (clock s).
(** A dropped message found its quota used up. *)
Definition drop_ok (l : list attempt) (a : attempt) : Prop := a_out a = Dropped →
  ∃ ch0, channels d0 !! a_chan a = Some ch0 ∧ maxN (limiter (a_crit a) ch0) <= Z.of_nat (between (a_at a - Minute) (a_at a) (uses (a_chan a) (a_crit a) l)).
Definition quotas (s : system) : Prop :=
  (∀ i ch, channels (disp s) !! i = Some ch → chan_ok i ch s) ∧ ∀ a, a ∈ attempts s → drop_ok (attempts s) a.

Lemma between_mono t u ts us : (between t u ts ≤ between t u (ts ++ us))%nat.
Proof. rewrite between_app. lia. Qed.
Lemma drop_ok_cons l a b : drop_ok l a → drop_ok (b :: l) a.
Proof.
  intros H E. destruct (H E) as (ch0 & Hc & Hm). exists ch0. split; [done|]. rewrite uses_cons.
  pose proof (between_mono (a_at a - Minute) (a_at a) (uses (a_chan a) (a_crit a) l) (if is_use (a_chan a) (a_crit a) b then [a_at b] else [])). lia.
Qed.

Lemma quotas_same s s' : channels (disp s') = channels (disp s) → attempts s' = attempts s → clock s <= clock s' → quotas s → quotas s'.
Proof.
  intros Ec Ea Hle [Hc Hd]. unfold quotas. rewrite Ec, Ea. split; [|done]. intros i ch Hi. destruct (Hc i ch Hi) as (ch0 & H0 & En & Es & Hb).
  exists ch0. split; [done|]. split; [done|]. split; [done|]. intros b. destruct (Hb b) as (? & ? & ?). split; [done|]. split; [done|]. rewrite Ea. by eapply lim_later.
Qed.

Lemma claim_channels now k d : channels (claimDedup now k d).2 = channels d.
Proof. unfold claimDedup. destruct (dedup d !! k); [destruct (_ <? _)|]; done. Qed.
Lemma release_channels k c d : channels (releaseDedup k c d) = channels d.
Proof. unfold releaseDedup. by case_bool_decide. Qed.

Lemma limiter_other b b' r ch : limiter b (with_limiter b' r ch) = if Bool.eqb b b' then r else limiter b ch.
Proof. by destruct b, b'. Qed.

Lemma quotas_act s now a : clock s <= now → quotas s → quotas (act now a s).
Proof.
  intros Hle Hq. destruct a as [id msg|id answer|id]; cbn [act].
  - case_bool_decide; [done|]. pose proof (claim_channels now (dedupKey msg) (disp s)) as Ec. destruct (claimDedup now (dedupKey msg) (disp s)) as [[c|] d]; by eapply quotas_same.
  - destruct (senders s !! id) as [x|]; [|done]. destruct (s_next x <? length (channels (disp s)))%nat eqn:Hl; [|done]. apply Nat.ltb_lt in Hl.
    unfold turn. destruct (channels (disp s) !! s_next x) as [ch|] eqn:Ei; [|apply lookup_ge_None in Ei; lia].
    destruct Hq as [Hc Hd]. destruct (Hc _ _ Ei) as (ch0 & H0 & En & Es & Hb). unfold offer.
    destruct (acceptsSeverity ch (Severity (s_msg x))) eqn:Ea; cbn [negb].
    2: { eapply (quotas_same s); [|done|done|by split]. cbn. by rewrite list_insert_id. }
    set (b0 := is_critical (s_msg x)). destruct (Hb b0) as (Em & Ew & Hok).
    pose proof (Allow_ok (limiter b0 ch) (uses (s_next x) b0 (attempts s)) now) as HA. destruct (Allow now (limiter b0 ch)) as [ok r].
    destruct HA as (Em' & Ew' & Hok' & Hfull); [rewrite Ew; by vm_compute|by eapply lim_later|].
    set (o := if ok then match answer with Some err => Failed err | None => Delivered end else Dropped).
    assert (o ≠ Skipped) as Ho by (unfold o; destruct ok; [destruct answer|]; done).
    set (na := MkAttempt id (dedupKey (s_msg x)) (s_claim x) (s_next x) b0 now o).
    assert ((match o with Skipped => attempts s | _ => na :: attempts s end) = na :: attempts s) as -> by (destruct o; done).
    assert (is_use (s_next x) b0 na = ok) as Eu.
    { unfold is_use, na. cbn. rewrite bool_decide_true, Bool.eqb_reflx by done. unfold o. destruct ok; [destruct answer|]; done. }
    split; cbn.
    + intros i c. rewrite list_lookup_insert. destruct (decide (s_next x = i ∧ (s_next x < length (channels (disp s)))%nat)) as [[<- _]|Hne].
      * intros [= <-]. exists ch0. split; [done|]. split; [by destruct b0|]. split; [by destruct b0|]. intros b. rewrite limiter_other. cbn. rewrite uses_cons.
        destruct (Bool.eqb b b0) eqn:Eb.
        -- apply Bool.eqb_prop in Eb as ->. rewrite Em', Ew', Eu. split; [done|]. split; [done|]. destruct ok; [exact Hok'|by rewrite app_nil_r].
        -- destruct (Hb b) as (? & ? & ?). split; [done|]. split; [done|].
           assert (is_use (s_next x) b na = false) as -> by (unfold is_use, na; cbn; destruct b, b0; try done; by rewrite andb_false_r).
           rewrite app_nil_r. by eapply lim_later.
      * intros Hi. destruct (Hc i c Hi) as (c0 & ? & ? & ? & Hbb). exists c0. split; [done|]. split; [done|]. split; [done|]. intros b.
        destruct (Hbb b) as (? & ? & ?). split; [done|]. split; [done|]. cbn. rewrite uses_cons.
        assert (is_use i b na = false) as -> by (unfold is_use, na; cbn; rewrite bool_decide_false; [done|]; intros <-; by apply Hne).
        rewrite app_nil_r. by eapply lim_later.
    + intros a [->|Ha]%elem_of_cons; [|by apply drop_ok_cons, Hd]. intros Eo. exists ch0. split; [done|]. cbn. rewrite uses_cons, Eu.
      assert (ok = false) as -> by (unfold na, o in Eo; cbn in Eo; destruct ok; [destruct answer|]; done).
      rewrite app_nil_r. rewrite <- Em, <- Ew. by apply Hfull.
  - destruct (senders s !! id) as [x|]; [|done]. destruct (_ <? _)%nat; [done|]. eapply (quotas_same s); [|done|done|done]. cbn.
    destruct (s_delivered x); [done|apply release_channels].
Qed.
End run.

(** ** The window *)
Lemma claim_spec now k d : 0 < dedupWindow d →
  claimDedup now k d = (None, d) ∨
  ∃ d', claimDedup now k d = (Some now, d') ∧ dedupWindow d' = dedupWindow d ∧
    (∀ last, dedup d !! k = Some last → last + dedupWindow d <= now) ∧ dedup d' !! k = Some now ∧
    ∀ k', k' ≠ k → dedup d' !! k' = dedup d !! k' ∨ ∃ c, dedup d !! k' = Some c ∧ c + dedupWindow d < now ∧ dedup d' !! k' = None.
Proof.
  intros HW. set (m := <[k := now]> (dedup d)). set (m' := if (dedup_gc <? size m)%nat then filter (λ p, now - dedupWindow d <= p.2) m else m).
  assert (m' !! k = Some now ∧ ∀ k', k' ≠ k → m' !! k' = dedup d !! k' ∨ ∃ c, dedup d !! k' = Some c ∧ c + dedupWindow d < now ∧ m' !! k' = None) as [Hk Hr].
  { unfold m'. destruct (_ <? _)%nat.
    - split; [apply map_lookup_filter_Some; unfold m; rewrite lookup_insert_eq; cbn; split; [done|lia]|]. intros k' Hne.
      destruct (dedup d !! k') as [c|] eqn:E.
      + destruct (Z.leb_spec (now - dedupWindow d) c).
        * left. apply map_lookup_filter_Some. unfold m. rewrite lookup_insert_ne by done. done.
        * right. exists c. split; [done|]. split; [lia|]. apply map_lookup_filter_None. right. intros c0. unfold m. rewrite lookup_insert_ne by done. rewrite E. intros [= <-]. cbn. lia.
      + left. apply map_lookup_filter_None. left. unfold m. by rewrite lookup_insert_ne.
    - unfold m. split; [by rewrite lookup_insert_eq|]. intros k' Hne. left. by rewrite lookup_insert_ne. }
  unfold claimDedup. fold m. fold m'. destruct (dedup d !! k) as [last|] eqn:E; [destruct (Z.ltb_spec (now - last) (dedupWindow d)) as [|Hfar]; [by left|]|];
    right; exists (with_dedup m' d); (split; [done|]); (split; [done|]); (split; [|done]).
  - intros l [= <-]. lia.
  - done.
Qed.

Section window.
Context (W : duration) (HW : 0 < W).

Definition live (s : system) (id : nat) (k : string) (c : time) : Prop := ∃ x, senders s !! id = Some x ∧ dedupKey (s_msg x) = k ∧ s_claim x = c.
Definition told (s : system) (id : nat) (k : string) (c : time) : Prop :=
  ∃ a, a ∈ attempts s ∧ a_out a = Delivered ∧ a_sender a = id ∧ a_key a = k ∧ a_claim a = c.
Definition claimed (s : system) (id : nat) (k : string) (c : time) : Prop := live s id k c ∨ told s id k c.
(** The window of a claim is held by it or a later one, or is over. *)
Definition held (s : system) (k : string) (c : time) : Prop :=
  (∃ c', dedup (disp s) !! k = Some c' ∧ (c' = c ∨ c + W <= c')) ∨ c + W <= clock s.

Record window_ok (s : system) : Prop := {
  wo_window : dedupWindow (disp s) = W;
  wo_used : ∀ id k c, claimed s id k c → id ∈ used s;
  wo_flag : ∀ id k c x, told s id k c → senders s !! id = Some x → s_delivered x = true ∧ dedupKey (s_msg x) = k ∧ s_claim x = c;
  wo_dedup : ∀ k c, dedup (disp s) !! k = Some c → c <= clock s;
  wo_claim : ∀ id k c, claimed s id k c → c <= clock s ∧ held s k c;
  wo_far : ∀ id1 id2 k c1 c2, claimed s id1 k c1 → claimed s id2 k c2 → id1 ≠ id2 → c1 + W <= c2 ∨ c2 + W <= c1
}.

Lemma release_other k c d k' : k' ≠ k → dedup (releaseDedup k c d) !! k' = dedup d !! k'.
Proof. intros Hne. unfold releaseDedup. case_bool_decide; [|done]. cbn. by rewrite lookup_delete_ne. Qed.
Lemma release_same k c d c' : dedup d !! k = Some c' → c' ≠ c → dedup (releaseDedup k c d) !! k = Some c'.
Proof. intros E Hne. unfold releaseDedup. case_bool_decide as Hd; [|done]. rewrite E in Hd. injection Hd as ->. done. Qed.
Lemma release_window k c d : dedupWindow (releaseDedup k c d) = dedupWindow d.
Proof. unfold releaseDedup. by case_bool_decide. Qed.

(** Claims that were there, the window table as it was or moved on. *)
Lemma window_same s s' : window_ok s → dedupWindow (disp s') = W → clock s <= clock s' → used s ⊆ used s' →
  (∀ id k c, claimed s' id k c → claimed s id k c) →
  (∀ id k c x, told s' id k c → senders s' !! id = Some x → s_delivered x = true ∧ dedupKey (s_msg x) = k ∧ s_claim x = c) →
  dedup (disp s') = dedup (disp s) → window_ok s'.
Proof.
  intros [H1 H2 H3 H4 H5 H6] Hw Hle Hu Hc Hf Ed. split; [done| |done| | |].
  - intros id k c Hcl. apply Hu. by eapply H2, Hc.
  - rewrite Ed. intros k c Hk. specialize (H4 k c Hk). lia.
  - intros id k c Hcl. destruct (H5 id k c (Hc _ _ _ Hcl)) as [Hn Hh]. split; [lia|]. unfold held in *. rewrite Ed. destruct Hh as [?|?]; [by left|right; lia].
  - intros id1 id2 k c1 c2 A B. by apply (H6 id1 id2 k); apply Hc.
Qed.

Lemma window_begin s now id msg : clock s <= now → window_ok s → window_ok (act now (Begin id msg) s).
Proof.
  intros Hle Hok. cbn [act]. case_bool_decide as Hfresh; [done|]. destruct Hok as [H1 H2 H3 H4 H5 H6]. set (k := dedupKey msg).
  destruct (claim_spec now k (disp s)) as [E|(d' & E & Ew & Hlast & Hk & Hr)]; [by rewrite H1| |]; rewrite E.
  - eapply (window_same s); [by split|done|done|cbn; set_solver|intros ? ? ? [?|?]; [by left|by right]|done|done].
  - rewrite H1 in *. set (s' := MkSystem _ _ _ _ _).
    assert (∀ id1 k1 c1, claimed s' id1 k1 c1 → (id1 = id ∧ k1 = k ∧ c1 = now) ∨ (id1 ≠ id ∧ claimed s id1 k1 c1)) as Hcl.
    { intros id1 k1 c1 [(x & Hx & <- & <-)|Ht].
      - cbn in Hx. destruct (decide (id = id1)) as [<-|Hne]; [rewrite lookup_insert_eq in Hx; injection Hx as <-; by left|].
        rewrite lookup_insert_ne in Hx by done. right. split; [done|]. left. by exists x.
      - right. assert (claimed s id1 k1 c1) as Hc by by right. split; [|done]. intros ->. by apply Hfresh, (H2 _ _ _ Hc). }
    assert (∀ id1 c1, claimed s id1 k c1 → c1 + W <= now) as Hfar.
    { intros id1 c1 Hc. destruct (H5 _ _ _ Hc) as [? [(c' & Hd & Hcc)|?]]; [|lia]. specialize (Hlast _ Hd). destruct Hcc; lia. }
    split; cbn; [done| | | | |].
    + intros id1 k1 c1 [(-> & _ & _)|[_ Hc]]%Hcl; [set_solver|]. apply elem_of_union. right. by eapply H2.
    + intros id1 k1 c1 x Ht Hx. assert (id1 ≠ id) as Hne by (intros ->; apply Hfresh; eapply H2; by right).
      rewrite lookup_insert_ne in Hx by done. by eapply H3.
    + intros k1 c1 Hd. destruct (decide (k1 = k)) as [->|Hne]; [rewrite Hk in Hd; injection Hd as <-; lia|].
      destruct (Hr k1 Hne) as [E1|(c0 & _ & _ & E1)]; rewrite E1 in Hd; [|done]. specialize (H4 _ _ Hd). lia.
    + intros id1 k1 c1 [(-> & -> & ->)|[Hne Hc]]%Hcl; [split; [lia|left; exists now; cbn; by auto]|].
      destruct (H5 _ _ _ Hc) as [Hn Hh]. split; [lia|]. unfold held. cbn. destruct (decide (k1 = k)) as [->|Hnk].
      * left. exists now. split; [done|]. right. by eapply Hfar.
      * destruct Hh as [(c' & Hd & Hcc)|?]; [|right; lia]. destruct (Hr k1 Hnk) as [E1|(c0 & E0 & Hlt & E1)].
        -- left. exists c'. by rewrite E1.
        -- right. rewrite Hd in E0. injection E0 as ->. destruct Hcc; lia.
    + intros id1 id2 k1 c1 c2 [(-> & -> & ->)|[Hn1 Hc1]]%Hcl [(-> & E2 & ->)|[Hn2 Hc2]]%Hcl Hne; [done| | |by eapply H6].
      * right. by eapply Hfar.
      * left. subst k1. by eapply Hfar.
Qed.

Lemma turn_dedup now ans msg i d : dedup (turn now ans msg i d).2 = dedup d ∧ dedupWindow (turn now ans msg i d).2 = dedupWindow d.
Proof. unfold turn. destruct (channels d !! i); [|done]. by destruct (offer _ _ _ _). Qed.

Lemma window_turn s now id ans : clock s <= now → window_ok s → window_ok (act now (Turn id ans) s).
Proof.
  intros Hle Hok. cbn [act]. destruct (senders s !! id) as [x|] eqn:Ex; [|done]. destruct (_ <? _)%nat; [|done].
  destruct (turn_dedup now ans (s_msg x) (s_next x) (disp s)) as [Ed Ew]. destruct (turn now ans (s_msg x) (s_next x) (disp s)) as [o d]. cbn in Ed, Ew.
  set (x' := MkSender _ _ _ _). set (na := MkAttempt _ _ _ _ _ _ _). set (s' := MkSystem _ _ _ _ _).
  assert (∀ id1 k1 c1, live s' id1 k1 c1 → live s id1 k1 c1) as Hlive.
  { intros id1 k1 c1 (y & Hy & <- & <-). cbn in Hy. destruct (decide (id = id1)) as [<-|Hne]; [rewrite lookup_insert_eq in Hy; injection Hy as <-; by exists x|].
    rewrite lookup_insert_ne in Hy by done. by exists y. }
  assert (∀ id1 k1 c1, told s' id1 k1 c1 → told s id1 k1 c1 ∨ (o = Delivered ∧ id1 = id ∧ k1 = dedupKey (s_msg x) ∧ c1 = s_claim x)) as Htold.
  { intros id1 k1 c1 (a & Ha & Ho & Hrest). destruct o; cbn in Ha; [left; by exists a| | |];
      (apply elem_of_cons in Ha as [->|Ha]; [|left; by exists a]); cbn in *; try done. right. naive_solver. }
  eapply (window_same s); [done|cbn; rewrite Ew; apply Hok|done|done| | |exact Ed].
  - intros id1 k1 c1 [Hl|Ht]; [left; by apply Hlive|]. destruct (Htold _ _ _ Ht) as [?|(_ & -> & -> & ->)]; [by right|]. left. by exists x.
  - intros id1 k1 c1 y Ht Hy. cbn in Hy. destruct (Htold _ _ _ Ht) as [Hold|(-> & -> & -> & ->)].
    + destruct (decide (id = id1)) as [<-|Hne].
      * rewrite lookup_insert_eq in Hy. injection Hy as <-. destruct (wo_flag _ Hok _ _ _ _ Hold Ex) as (Hd & ? & ?). cbn. rewrite Hd. by destruct o.
      * rewrite lookup_insert_ne in Hy by done. by eapply (wo_flag _ Hok).
    + rewrite lookup_insert_eq in Hy. injection Hy as <-. done.
Qed.

Lemma window_finish s now id : window_ok s → window_ok (act now (Finish id) s).
Proof.
  intros Hok. cbn [act]. destruct (senders s !! id) as [x|] eqn:Ex; [|done]. destruct (_ <? _)%nat; [done|]. set (s' := MkSystem _ _ _ _ _).
  assert (∀ id1 k1 c1, claimed s' id1 k1 c1 → claimed s id1 k1 c1 ∧ (id1 = id → s_delivered x = true)) as Hcl.
  { intros id1 k1 c1 [(y & Hy & <- & <-)|Ht].
    - cbn in Hy. apply lookup_delete_Some in Hy as [Hne Hy]. split; [left; by exists y|]. intros ->. done.
    - split; [by right|]. intros ->. by eapply (wo_flag _ Hok). }
  assert (∀ id1 k1 c1 y, told s' id1 k1 c1 → senders s' !! id1 = Some y → s_delivered y = true ∧ dedupKey (s_msg y) = k1 ∧ s_claim y = c1) as Hflag.
  { intros id1 k1 c1 y Ht Hy. cbn in Hy. apply lookup_delete_Some in Hy as [_ Hy]. by eapply (wo_flag _ Hok). }
  destruct (s_delivered x) eqn:Edel.
  { eapply (window_same s); [done|apply Hok|done|done|by intros ? ? ? [? _]%Hcl|exact Hflag|done]. }
  destruct Hok as [H1 H2 H3 H4 H5 H6]. split; cbn; [by rewrite release_window| |exact Hflag| | |].
  - intros id1 k1 c1 [Hc _]%Hcl. by eapply H2.
  - intros k1 c1 Hd. apply (H4 k1). unfold releaseDedup in Hd. case_bool_decide; [|done]. cbn in Hd. by apply lookup_delete_Some in Hd as [_ Hd].
  - intros id1 k1 c1 [Hc Hid]%Hcl. destruct (H5 _ _ _ Hc) as [Hn Hh]. split; [done|]. unfold held in *. cbn.
    destruct Hh as [(c' & Hd & Hcc)|?]; [|by right]. destruct (decide (k1 = dedupKey (s_msg x))) as [->|Hne].
    2: { left. exists c'. by rewrite release_other. }
    destruct (decide (c' = s_claim x)) as [->|Hne]; [|left; exists c'; split; [by apply release_same|done]].
    right. assert (id1 ≠ id) as Hids by (intros ->; specialize (Hid eq_refl); congruence).
    assert (claimed s id (dedupKey (s_msg x)) (s_claim x)) as Hx by (left; by exists x). destruct (H5 _ _ _ Hx) as [Hnx _].
    destruct (H6 _ _ _ _ _ Hc Hx Hids); [lia|]. destruct Hcc; lia.
  - intros id1 id2 k1 c1 c2 [Hc1 _]%Hcl [Hc2 _]%Hcl. by eapply H6.
Qed.

Lemma window_act s now a : clock s <= now → window_ok s → window_ok (act now a s).
Proof. intros Hle Hok. destruct a; [by apply window_begin|by apply window_turn|by apply window_finish]. Qed.
End window.

(** ** The dispatcher as it is built *)
Lemma start_quotas t0 d : (∀ i ch, channels d !! i = Some ch → ∀ b, history (limiter b ch) = [] ∧ lim_window (limiter b ch) = Minute) → quotas d (start t0 d).
Proof.
  intros Hd. split; [|by intros a ?%elem_of_nil]. intros i ch Hi. exists ch. split; [done|]. split; [done|]. split; [done|]. intros b.
  destruct (Hd i ch Hi b) as [Hh Hw]. split; [done|]. split; [done|]. cbn. split; cbn; [constructor|constructor|exists []; by rewrite Hh|]. intros t. apply Z.le_max_l.
Qed.
Lemma start_window t0 d : window_ok (dedupWindow d) (start t0 (with_dedup ∅ d)).
Proof.
  assert (∀ id k c, ¬ claimed (start t0 (with_dedup ∅ d)) id k c) as Hno.
  { intros id k c [(x & Hx & _)|(a & Ha & _)]; cbn in *; [by rewrite lookup_empty in Hx|by apply elem_of_nil in Ha]. }
  split; cbn; [done| | | | |].
  - intros id k c Hc. by destruct (Hno id k c).
  - intros id k c x Ht. destruct (Hno id k c). by right.
  - intros k c. by rewrite lookup_empty.
  - intros id k c Hc. by destruct (Hno id k c).
  - intros id1 id2 k c1 c2 Hc. by destruct (Hno id1 k c1).
Qed.

Lemma new_channel_ok names maxPerMinute window sevs i ch : channels (NewWithClock names maxPerMinute window sevs) !! i = Some ch →
  ∀ b, history (limiter b ch) = [] ∧ lim_window (limiter b ch) = Minute ∧ maxN (limiter b ch) = if b then CriticalRateLimitPerMinute else quota maxPerMinute.
Proof. cbn. rewrite list_lookup_fmap. intros (n & _ & ->)%fmap_Some []; done. Qed.

Lemma run_ok names maxPerMinute window sevs t0 s : let d := NewWithClock names maxPerMinute window sevs in
  reaches (start t0 d) s → quotas d s ∧ window_ok (dedupWindow d) s.
Proof.
  intros d. assert (0 < dedupWindow d) as HW.
  { unfold d, NewWithClock. cbn [dedupWindow]. destruct (Z.leb_spec window 0); [by vm_compute|lia]. }
  induction 1 as [|s now a Hr [IHq IHw] Hle].
  - split; [|exact (start_window t0 d)]. apply start_quotas. intros i ch Hi b. by destruct (new_channel_ok _ _ _ _ _ _ Hi b) as (? & ? & _).
  - split; [by apply quotas_act|by apply window_act].
Qed.

(** C20. However sends interleave and whatever the channels answer: two messages of one key that were both delivered claimed instants at least the deduplication window apart; in any minute a channel is handed at most its quota of ordinary messages and twenty critical ones; and a message is dropped for its channel only when the quota of its kind was used up in the minute before, so warnings never crowd out a critical one. *)
Theorem alerts_kept (names : list string) (maxPerMinute : Z) (window : duration) (sevs : gmap string (list string)) (t0 : time) (s : system)
  (Hrun : reaches (start t0 (NewWithClock names maxPerMinute window sevs)) s) :
  let W := dedupWindow (NewWithClock names maxPerMinute window sevs) in
  let cap (crit : bool) := if crit then CriticalRateLimitPerMinute else quota maxPerMinute in
  (∀ a b, a ∈ attempts s → b ∈ attempts s → a_out a = Delivered → a_out b = Delivered → a_key a = a_key b → a_sender a ≠ a_sender b →
     a_claim a + W <= a_claim b ∨ a_claim b + W <= a_claim a) ∧
  (∀ i crit t, (i < length names)%nat → Z.of_nat (between t (t + Minute) (uses i crit (attempts s))) <= cap crit) ∧
  (∀ a, a ∈ attempts s → a_out a = Dropped → cap (a_crit a) <= Z.of_nat (between (a_at a - Minute) (a_at a) (uses (a_chan a) (a_crit a) (attempts s)))).
Proof.
  destruct (run_ok _ _ _ _ _ _ Hrun) as [[Hc Hd] Hw]. assert (∀ crit : bool, 0 < if crit then CriticalRateLimitPerMinute else quota maxPerMinute) as Hpos.
  { intros []; [done|]. unfold quota. destruct (Z.leb_spec maxPerMinute 0); [done|lia]. }
  split; [|split].
  - intros a b Ha Hb Oa Ob Ek Hne. eapply (wo_far _ _ Hw (a_sender a) (a_sender b) (a_key b)); [right; exists a|right; exists b|done]; auto.
  - intros i crit t Hi. assert (channels (disp s) !! i = channels (disp s) !! i) as _ by done.
    assert (length (channels (disp s)) = length names) as El.
    { clear -Hrun. induction Hrun as [|s now a Hr IH Hle]; [cbn; by rewrite length_fmap|]. destruct a as [id msg|id ans|id]; cbn [act].
      - case_bool_decide; [done|]. pose proof (claim_channels now (dedupKey msg) (disp s)) as E. destruct (claimDedup _ _ _) as [[?|] ?]; cbn in *; by rewrite E.
      - destruct (senders s !! id) as [x|]; [|done]. destruct (_ <? _)%nat; [|done]. unfold turn. destruct (channels (disp s) !! s_next x); [|done].
        destruct (offer _ _ _ _). cbn. by rewrite length_insert.
      - destruct (senders s !! id) as [x|]; [|done]. destruct (_ <? _)%nat; [done|]. cbn. destruct (s_delivered x); [done|by rewrite release_channels]. }
    destruct (lookup_lt_is_Some_2 (channels (disp s)) i) as [ch Hch]; [lia|]. destruct (Hc i ch Hch) as (ch0 & H0 & _ & _ & Hb). destruct (Hb crit) as (Em & Ew & Hok).
    destruct (new_channel_ok _ _ _ _ _ _ H0 crit) as (_ & _ & Emax). pose proof (lk_bound _ _ _ Hok t) as Hbound. rewrite Em, Emax, Ew in Hbound.
    specialize (Hpos crit). lia.
  - intros a Ha Ho. destruct (Hd a Ha Ho) as (ch0 & H0 & Hm). destruct (new_channel_ok _ _ _ _ _ _ H0 (a_crit a)) as (_ & _ & Emax). by rewrite Emax in Hm.
Qed.

(** ** [Send] is a run *)
Lemma reaches_trans s0 s1 s2 : reaches s0 s1 → reaches s1 s2 → reaches s0 s2.
Proof. intros H. induction 1; [done|by constructor]. Qed.
Lemma turn_length now ans msg i d : length (channels (turn now ans msg i d).2) = length (channels d).
Proof. unfold turn. destruct (channels d !! i); [|done]. destruct (offer _ _ _ _). cbn. by rewrite length_insert. Qed.

Lemma turns_run env msg id claim n : ∀ i b errs s, senders s !! id = Some (MkSender msg claim i b) → (i + n = length (channels (disp s)))%nat →
  clock s <= (env i).1 → (∀ j, (env j).1 <= (env (S j)).1) →
  ∃ s', reaches s s' ∧ disp s' = (turns env msg n i b errs (disp s)).2 ∧ senders s' !! id = Some (MkSender msg claim (i + n) (turns env msg n i b errs (disp s)).1.1) ∧
    length (channels (disp s')) = length (channels (disp s)).
Proof.
  induction n as [|n IH]; intros i b errs s Hx Hlen Hclk Hmono; cbn [turns].
  - exists s. rewrite Nat.add_0_r. split; [constructor|done].
  - set (s1 := act (env i).1 (Turn id (env i).2) s). assert (s1 = act (env i).1 (Turn id (env i).2) s) as E1 by done.
    cbn [act] in E1. rewrite Hx in E1. cbn [s_next s_msg s_claim s_delivered] in E1. rewrite (proj2 (Nat.ltb_lt i (length (channels (disp s))))) in E1 by lia.
    pose proof (turn_length (env i).1 (env i).2 msg i (disp s)) as El.
    destruct (turn (env i).1 (env i).2 msg i (disp s)) as [o d'] eqn:Et. cbn in El.
    set (b' := match o with Delivered => true | _ => b end) in *.
    destruct (IH (S i) b' (match o with Failed err => errs ++ [default EmptyString (ch_name <$> channels (disp s) !! i) +:+ ": " +:+ err] | _ => errs end) s1) as (s' & Hr & Hd & Hs & Hl).
    + rewrite E1. cbn. by rewrite lookup_insert_eq.
    + rewrite E1. cbn. lia.
    + rewrite E1. cbn. apply Hmono.
    + done.
    + rewrite E1 in Hd, Hs, Hl. cbn [disp] in Hd, Hs, Hl. exists s'. split.
      * eapply reaches_trans; [|exact Hr]. unfold s1. apply reaches_act; [constructor|done].
      * split; [exact Hd|]. replace (i + S n)%nat with (S i + n)%nat by lia. split; [exact Hs|]. congruence.
Qed.

(** Sending alone is such a run: claim, the channels' turns, release. *)
Lemma send_is_run now env msg s id : id ∉ used s → clock s <= now → now <= (env O).1 → (∀ j, (env j).1 <= (env (S j)).1) →
  ∃ s', reaches s s' ∧ disp s' = (Send now env msg (disp s)).2.
Proof.
  intros Hfresh Hclk Hnow Hmono. unfold Send. pose proof (reaches_act s s now (Begin id msg) (reaches_start s) Hclk) as Hb. cbn [act] in Hb.
  rewrite bool_decide_false in Hb by done. pose proof (claim_channels now (dedupKey msg) (disp s)) as Ec.
  destruct (claimDedup now (dedupKey msg) (disp s)) as [[claim|] d] eqn:E; [|by eexists].
  set (s1 := MkSystem d now _ _ _) in Hb.
  destruct (turns_run env msg id claim (length (channels d)) 0 false [] s1) as (s2 & Hr & Hd & Hs & Hl); [cbn; by rewrite lookup_insert_eq|done|done|done|].
  cbn [disp] in Hd, Hs, Hl. destruct (turns env msg (length (channels d)) 0 false [] d) as [[b errs] d'] eqn:Et. cbn in Hd, Hs, Hl.
  exists (act (clock s2) (Finish id) s2). split; [apply reaches_act; [by eapply reaches_trans|lia]|].
  cbn [act]. rewrite Hs. cbn [s_next s_delivered s_msg s_claim]. rewrite (proj2 (Nat.ltb_ge _ _)) by lia. cbn. rewrite Hd. rewrite Et. by destruct b.
Qed.

(** One channel with a quota of one: the second warning is dropped, the critical
    message in the same minute is not. *)
Definition one_channel : Dispatcher := NewWithClock ["telegram"%string] 1 0 ∅.
Definition note (severity title : string) : Notification := MkNotification severity title EmptyString None.
Definition busy_minute : system :=
  let send (now : time) (id : nat) (n : Notification) (s : system) := act now (Finish id) (act now (Turn id None) (act now (Begin id n) s)) in
  send 3 2%nat (note "critical" "enforcement DEGRADED") (send 2 1%nat (note "warn" "ban 2") (send 1 0%nat (note "warn" "ban 1") (start 0 one_channel))).

Theorem alerts_kept_witness : reaches (start 0 one_channel) busy_minute ∧
  a_out <$> attempts busy_minute = [Delivered; Dropped; Delivered] ∧
  ∀ a, a ∈ attempts busy_minute → a_out a = Dropped →
    (if a_crit a then 20 else 1) <= Z.of_nat (between (a_at a - Minute) (a_at a) (uses (a_chan a) (a_crit a) (attempts busy_minute))).
Proof.
  assert (reaches (start 0 one_channel) busy_minute) as Hrun by (unfold busy_minute; repeat (apply reaches_act; [|vm_compute; done]); apply reaches_start).
  split; [exact Hrun|]. split; [vm_compute; reflexivity|].
  exact (proj2 (proj2 (alerts_kept ["telegram"%string] 1 0 ∅ 0 busy_minute Hrun))).
Defined.
