(* ===== verification/DashAuth.v ===== *)
(** Who may use the dashboard ([internal/dashboard/throttle.go], [session.go],
    [rbac.go], [auth.go]): the brake on password guessing, sessions, roles and
    passwords.  PBKDF2, base64 and the random source are parameters. *)
From Stdlib Require Import Ascii.
From S2P Require Import Prelude GoStrings GoUtf8.
(** ** The login throttle *)
Definition throttleMaxFailures : nat := 5.
Definition throttleWindow : duration := Minute.
Definition throttleLockout : duration := Minute.
Definition throttleGlobalMax : nat := 100.

Record failWindow := MkFail { stamps : list time; lockedUntil : option time }.
Record loginThrottle := MkThrottle {
  max : nat; window : duration; lockout : duration; globalMax : nat;
  failures : gmap string failWindow; globalStamps : list time
}.
Definition newLoginThrottle : loginThrottle := MkThrottle throttleMaxFailures throttleWindow throttleLockout throttleGlobalMax ∅ [].

Definition with_failures (f : gmap string failWindow) (t : loginThrottle) : loginThrottle :=
  MkThrottle (max t) (window t) (lockout t) (globalMax t) f (globalStamps t).
Definition with_global (l : list time) (t : loginThrottle) : loginThrottle :=
  MkThrottle (max t) (window t) (lockout t) (globalMax t) (failures t) l.

Definition trimStamps (l : list time) (cutoff : time) : list time := List.filter (λ s, cutoff <? s) l.

Definition locked (now : time) (w : failWindow) : bool := match lockedUntil w with Some u => now <? u | None => false end.

Definition Allow (now : time) (username : string) (t : loginThrottle) : bool * loginThrottle :=
  if bool_decide (username = EmptyString) then (true, t)
  else
    let t := with_global (trimStamps (globalStamps t) (now - window t)) t in
    if (globalMax t <=? length (globalStamps t))%nat then (false, t)
    else match failures t !! username with
         | None => (true, t)
         | Some w =>
           if locked now w then (false, t)
           else (true, if bool_decide (is_Some (lockedUntil w)) then with_failures (delete username (failures t)) t else t)
         end.

Definition pruneLocked (now : time) (t : loginThrottle) : gmap string failWindow :=
  filter (λ p, stamps p.2 ≠ [] ∨ locked now p.2 = true) ((λ w, MkFail (trimStamps (stamps w) (now - window t)) (lockedUntil w)) <$> failures t).

Definition RecordFailure (now : time) (username : string) (t : loginThrottle) : loginThrottle :=
  if bool_decide (username = EmptyString) then t
  else
    let cutoff := now - window t in
    let t := with_global (trimStamps (globalStamps t) cutoff ++ [now]) t in
    let w := default (MkFail [] None) (failures t !! username) in
    let l := trimStamps (stamps w) cutoff ++ [now] in
    let t := with_failures (<[username := MkFail l (if (max t <=? length l)%nat then Some (now + lockout t) else lockedUntil w)]> (failures t)) t in
    if (globalMax t <? size (failures t))%nat then with_failures (pruneLocked now t) t else t.

Definition Clear (username : string) (t : loginThrottle) : loginThrottle :=
  if bool_decide (username = EmptyString) then t else with_failures (delete username (failures t)) t.

(** ** Sessions *)
Definition maxSessionsPerUser : nat := 3.

Record sessionEntry := MkEntry { username : string; csrf : string; createdAt : time; expiresAt : time }.
Record sessionStore := MkSessions { timeout : duration; entries : gmap string sessionEntry; perUser : gmap string (list string) }.
Definition newSessionStore (timeout : duration) : sessionStore := MkSessions timeout ∅ ∅.

Definition set_list (u : string) (l : list string) (m : gmap string (list string)) : gmap string (list string) :=
  match l with [] => delete u m | _ => <[u := l]> m end.
Definition tokens_of (u : string) (s : sessionStore) : list string := default [] (perUser s !! u).

(** The sessions over the cap, the oldest first. *)
Definition enforceCapLocked (u : string) (s : sessionStore) : sessionStore :=
  let l := tokens_of u s in
  let n := (length l + 1 - maxSessionsPerUser)%nat in
  MkSessions (timeout s) (foldl (λ m t, delete t m) (entries s) (take n l)) (set_list u (drop n l) (perUser s)).

(** A session with the tokens the random source gave. *)
Definition Create (now : time) (tok csrfTok : string) (u : string) (s : sessionStore) : sessionStore :=
  let s := enforceCapLocked u s in
  MkSessions (timeout s) (<[tok := MkEntry u csrfTok now (now + timeout s)]> (entries s)) (<[u := tokens_of u s ++ [tok]]> (perUser s)).

Fixpoint remove_token (tok : string) (l : list string) : list string :=
  match l with [] => [] | t :: l => if bool_decide (t = tok) then l else t :: remove_token tok l end.
Definition removeLocked (tok u : string) (s : sessionStore) : sessionStore :=
  MkSessions (timeout s) (delete tok (entries s)) (set_list u (remove_token tok (tokens_of u s)) (perUser s)).

Record sessionInfo := MkInfo { Username : string; CSRF : string }.

Definition Lookup (now : time) (tok : string) (s : sessionStore) : option sessionInfo * sessionStore :=
  if bool_decide (tok = EmptyString) then (None, s)
  else match entries s !! tok with
       | None => (None, s)
       | Some e =>
         if expiresAt e <=? now then (None, removeLocked tok (username e) s)
         else (Some (MkInfo (username e) (csrf e)),
               MkSessions (timeout s) (<[tok := MkEntry (username e) (csrf e) (createdAt e) (now + timeout s)]> (entries s)) (perUser s))
       end.

Definition Delete (tok : string) (s : sessionStore) : sessionStore :=
  match entries s !! tok with None => s | Some e => removeLocked tok (username e) s end.

(** *** A form-given name in a log line *)
Definition maxLogUserLen : nat := 64.
Definition rune_start (a : ascii) : bool := negb (cont (byte a)).
Fixpoint back_to_start (n : nat) (s : string) : nat :=
  match n with
  | O => O
  | S m => match String.get n s with Some a => if rune_start a then n else back_to_start m s | None => n end
  end.
Definition drop_controls (s : string) : string := encode_all (List.filter (λ r, negb ((r <? 0x20) || (r =? 0x7f))) (runes s)).
Definition logSafeUser (u : string) : string :=
  let u := drop_controls u in
  if (maxLogUserLen <? str_len u)%nat then str_take (back_to_start maxLogUserLen u) u else u.

(** ** Roles *)
Inductive Role := RoleViewer | RoleOperator | RoleAdmin.
#[export] Instance Role_eq_dec : EqDecision Role.
Proof. solve_decision. Defined.
Definition rank (r : Role) : Z := match r with RoleViewer => 0 | RoleOperator => 1 | RoleAdmin => 2 end.
Definition RoleString (r : Role) : string := match r with RoleViewer => "viewer" | RoleOperator => "operator" | RoleAdmin => "admin" end.
Definition ParseRole (s : string) : option Role :=
  if bool_decide (s = "viewer"%string) then Some RoleViewer
  else if bool_decide (s = "operator"%string) then Some RoleOperator
  else if bool_decide (s = "admin"%string) then Some RoleAdmin else None.

Definition actionRoles : list (string * Role) :=
  [("view", RoleViewer); ("ws", RoleViewer); ("metrics", RoleViewer); ("logout", RoleViewer);
   ("ban", RoleOperator); ("unban", RoleOperator);
   ("allow", RoleAdmin); ("unallow", RoleAdmin); ("arm", RoleAdmin); ("disarm", RoleAdmin); ("policy_edit", RoleAdmin)]%string.
Definition requiredRole (action : string) : Role :=
  match List.find (λ p, bool_decide (p.1 = action)) actionRoles with Some p => p.2 | None => RoleAdmin end.

Record AuthUser := MkAuthUser { au_Name : string; au_Role : string; au_Token : string }.
Record rbacUser := MkUser { u_name : string; u_role : Role; tokenDigest : option string }.

Definition pbkdf2Iterations : Z := 600000.
Definition pbkdf2KeyLen : nat := 32.
Definition pbkdf2SaltLen : nat := 16.
Definition pbkdf2Prefix : string := "pbkdf2-sha256".

Section crypto.
(** PBKDF2 with SHA-256 (secret, salt, iterations, length), and raw base64. *)
Context (pbkdf2_Key : string → string → Z → nat → option string) (EncodeToString : string → string) (DecodeString : string → option string).

Definition deriveTokenDigest (salt : option string) (token : string) : option string :=
  match salt with None => None | Some salt => pbkdf2_Key token salt pbkdf2Iterations pbkdf2KeyLen end.

Definition replace_users (salt : option string) (users : list AuthUser) : list rbacUser :=
  (λ u, MkUser (au_Name u) (default RoleViewer (ParseRole (au_Role u))) (deriveTokenDigest salt (au_Token u))) <$> users.

(** The last of the users whose name and digest match. *)
Definition authenticate (salt : option string) (users : list rbacUser) (name token : string) : option rbacUser :=
  match deriveTokenDigest salt token with
  | None => None
  | Some digest => foldl (λ m u, if bool_decide (tokenDigest u = Some digest) && bool_decide (u_name u = name) then Some u else m) None users
  end.

Definition roleOf (users : list rbacUser) (name : string) : option Role :=
  u_role <$> List.find (λ u, bool_decide (u_name u = name)) users.

Definition hashPassword (salt password : string) : option string :=
  key ← pbkdf2_Key password salt pbkdf2Iterations pbkdf2KeyLen;
  Some (pbkdf2Prefix +:+ "$" +:+ show_Z pbkdf2Iterations +:+ "$" +:+ EncodeToString salt +:+ "$" +:+ EncodeToString key).

Definition verifyPassword (stored password : string) : bool :=
  match split_on "$" stored with
  | [prefix; iter; salt; key] =>
    if negb (bool_decide (prefix = pbkdf2Prefix)) then false
    else match Atoi iter with
         | None => false
         | Some n =>
           if n <=? 0 then false
           else match DecodeString salt, DecodeString key with
                | Some salt, Some want =>
                  match pbkdf2_Key password salt n (str_len want) with Some got => bool_decide (got = want) | None => false end
                | _, _ => false
                end
         end
  | _ => false
  end.
End crypto.

(** * The session store's invariant: every live token is one that was handed to its
    user, and a user holds at most three. *)
#[local] Open Scope Z_scope.

Section sessions.
(** [handed u tok]: the token was given to [u] at a login. *)
Context (handed : string → string → Prop).

Record sessions_inv (s : sessionStore) : Prop := {
  si_live : ∀ tok e, entries s !! tok = Some e → handed (username e) tok ∧ tok ∈ tokens_of (username e) s;
  si_cap : ∀ u, (length (tokens_of u s) ≤ maxSessionsPerUser)%nat
}.

Lemma tokens_of_set u v l s : tokens_of v (MkSessions (timeout s) (entries s) (set_list u l (perUser s))) = if decide (u = v) then l else tokens_of v s.
Proof.
  unfold tokens_of, set_list. simpl. case_decide as Hu; [subst v|]; destruct l; simpl.
  - by rewrite lookup_delete_eq.
  - by rewrite lookup_insert_eq.
  - by rewrite lookup_delete_ne.
  - by rewrite lookup_insert_ne.
Qed.

Lemma tokens_of_entries d m v p : tokens_of v (MkSessions d m p) = default [] (p !! v).
Proof. done. Qed.

Lemma new_sessions d : sessions_inv (newSessionStore d).
Proof. constructor; simpl; [done|]. intros u. unfold tokens_of. simpl. rewrite lookup_empty. simpl. lia. Qed.

Lemma remove_token_elem tok t l : t ∈ l → t ≠ tok → t ∈ remove_token tok l.
Proof.
  induction l as [|x l IH]; [done|]. simpl. intros Ht Hne. case_bool_decide.
  - set_solver.
  - apply elem_of_cons in Ht as [->|Ht]; [by left|right; auto].
Qed.

Lemma remove_token_length tok l : (length (remove_token tok l) ≤ length l)%nat.
Proof. induction l as [|x l IH]; [done|]. simpl. case_bool_decide; simpl; lia. Qed.

Lemma removeLocked_inv tok u s : sessions_inv s → sessions_inv (removeLocked tok u s).
Proof.
  intros [Hl Hc]. constructor.
  - intros t e. simpl. rewrite lookup_delete_Some. intros [Hne He]. destruct (Hl t e He) as [Hh Ht]. split; [done|].
    unfold removeLocked. rewrite tokens_of_entries. change (default [] _) with
      (tokens_of (username e) (MkSessions (timeout s) (entries s) (set_list u (remove_token tok (tokens_of u s)) (perUser s)))).
    rewrite tokens_of_set. case_decide as Hu; [|done]. apply remove_token_elem; [by rewrite Hu|done].
  - intros v. unfold removeLocked. rewrite tokens_of_entries. change (default [] _) with
      (tokens_of v (MkSessions (timeout s) (entries s) (set_list u (remove_token tok (tokens_of u s)) (perUser s)))).
    rewrite tokens_of_set. case_decide; [|done]. etrans; [apply remove_token_length|apply Hc].
Qed.

Lemma Delete_inv tok s : sessions_inv s → sessions_inv (Delete tok s).
Proof. intros H. unfold Delete. destruct (entries s !! tok); [by apply removeLocked_inv|done]. Qed.

Lemma Lookup_spec now tok s info s' : sessions_inv s → Lookup now tok s = (info, s') →
  sessions_inv s' ∧
  match info with
  | None => True
  | Some i => ∃ e, entries s !! tok = Some e ∧ i = MkInfo (username e) (csrf e) ∧ now < expiresAt e ∧ handed (username e) tok
  end.
Proof.
  intros Hs. unfold Lookup. case_bool_decide; [by intros [= <- <-]|].
  destruct (entries s !! tok) as [e|] eqn:He; [|by intros [= <- <-]].
  destruct (Z.leb_spec (expiresAt e) now) as [|Hlt]; intros [= <- <-].
  - split; [by apply removeLocked_inv|done].
  - destruct Hs as [Hl Hc]. destruct (Hl tok e He) as [Hh Ht]. split; [|by exists e].
    constructor; [|done]. intros t e'. simpl. rewrite lookup_insert_Some. intros [[<- <-]|[_ He']]; [done|by apply Hl].
Qed.

Lemma enforceCap_inv u s : sessions_inv s →
  sessions_inv (enforceCapLocked u s) ∧ (length (tokens_of u (enforceCapLocked u s)) < maxSessionsPerUser)%nat.
Proof.
  intros [Hl Hc]. unfold enforceCapLocked. set (l := tokens_of u s) in *. set (n := (length l + 1 - maxSessionsPerUser)%nat).
  assert (Htok : ∀ v, tokens_of v (MkSessions (timeout s) (foldl (λ m t, delete t m) (entries s) (take n l)) (set_list u (drop n l) (perUser s)))
      = if decide (u = v) then drop n l else tokens_of v s) by (intros v; apply (tokens_of_set u v (drop n l) s)).
  assert (Hgone : ∀ ts (m : gmap string sessionEntry) t e, foldl (λ m t, delete t m) m ts !! t = Some e → t ∉ ts ∧ m !! t = Some e).
  { induction ts as [|x ts IH]; intros m t e; simpl; [by intros ->; split; [apply not_elem_of_nil|]|].
    intros [Hn He]%IH. rewrite lookup_delete_Some in He. destruct He. split; [set_solver|done]. }
  split.
  - constructor.
    + simpl. intros t e [Hn He]%Hgone. destruct (Hl t e He) as [Hh Ht]. split; [done|]. rewrite Htok.
      case_decide as Hu; [|done]. rewrite <- Hu in Ht. fold l in Ht. rewrite <- (take_drop n l) in Ht.
      apply elem_of_app in Ht as [|]; done.
    + intros v. rewrite Htok. case_decide; [|done]. rewrite length_drop. specialize (Hc u). fold l in Hc. lia.
  - rewrite Htok, decide_True by done. rewrite length_drop. unfold maxSessionsPerUser in *. lia.
Qed.

Lemma Create_inv now tok c u s : handed u tok → sessions_inv s → sessions_inv (Create now tok c u s).
Proof.
  intros Hh Hs. destruct (enforceCap_inv u s Hs) as [[Hl Hc] Hlt]. unfold Create.
  set (s1 := enforceCapLocked u s) in *.
  constructor.
  - intros t e. rewrite tokens_of_entries. cbn [entries]. rewrite lookup_insert_Some. intros [[<- <-]|[Hne He]].
    + simpl. split; [done|]. rewrite lookup_insert_eq. simpl. set_solver.
    + destruct (Hl t e He) as [? Ht]. split; [done|]. destruct (decide (u = username e)) as [->|Hu].
      * rewrite lookup_insert_eq. simpl. set_solver.
      * by rewrite lookup_insert_ne.
  - intros v. rewrite tokens_of_entries. destruct (decide (u = v)) as [->|Hu].
    + rewrite lookup_insert_eq. simpl. rewrite length_app. simpl. lia.
    + rewrite lookup_insert_ne by done. apply Hc.
Qed.

Lemma size_list_to_set_le (l : list string) : (size (list_to_set l : gset string) ≤ length l)%nat.
Proof.
  induction l as [|t l IH]; [done|]. rewrite list_to_set_cons, size_union_alt, size_singleton. simpl.
  assert (size ((list_to_set l : gset string) ∖ {[t]}) ≤ size (list_to_set l : gset string))%nat by (apply subseteq_size; set_solver).
  lia.
Qed.

(** At most three sessions of one user are live. *)
Lemma live_sessions_capped u s : sessions_inv s →
  (size (filter (λ p, username p.2 = u) (entries s)) ≤ maxSessionsPerUser)%nat.
Proof.
  intros [Hl Hc]. etrans; [|apply (Hc u)].
  rewrite <- size_dom.
  transitivity (size (list_to_set (tokens_of u s) : gset string)); [|apply size_list_to_set_le].
  apply subseteq_size. intros t Ht. apply elem_of_dom in Ht as [e He]. apply map_lookup_filter_Some in He as [He Hu].
  simpl in Hu. apply elem_of_list_to_set. destruct (Hl t e He) as [_ Ht]. by rewrite Hu in Ht.
Qed.
End sessions.

Lemma sessions_mono (P Q : string → string → Prop) s : (∀ u t, P u t → Q u t) → sessions_inv P s → sessions_inv Q s.
Proof. intros HPQ [Hl Hc]. constructor; [|done]. intros t e He. destruct (Hl t e He). split; auto. Qed.

(** * The login throttle's promise: attempts made one after the other fail at most
    five times a minute per name and a hundred times over all names. *)
#[local] Open Scope Z_scope.
#[local] Arguments throttleGlobalMax : simpl never.
#[local] Arguments throttleMaxFailures : simpl never.
#[local] Arguments Nat.leb : simpl never.

(** How many times of [l] lie after [x]. *)
Definition after_count (x : time) (l : list time) : nat := length (List.filter (λ t, x <? t) l).
(** How many lie in the minute that ends at [t]. *)
Definition in_minute (t : time) (l : list time) : nat := length (List.filter (λ f, (t - throttleWindow <? f) && (f <=? t)) l).

Lemma filter_trim l x y : y <= x → List.filter (λ t, x <? t) (trimStamps l y) = List.filter (λ t, x <? t) l.
Proof.
  intros Hxy. induction l as [|t l IH]; [done|]. unfold trimStamps in *. simpl.
  destruct (y <? t) eqn:E; simpl; [by rewrite IH|].
  destruct (x <? t) eqn:E'; [lia|done].
Qed.

Lemma after_count_trim l x y : y <= x → after_count x (trimStamps l y) = after_count x l.
Proof. intros. unfold after_count. by rewrite filter_trim. Qed.

Lemma after_count_app x l k : after_count x (l ++ k) = (after_count x l + after_count x k)%nat.
Proof. unfold after_count. by rewrite List.filter_app, length_app. Qed.

Lemma after_count_cons x t l : after_count x (t :: l) = (after_count x [t] + after_count x l)%nat.
Proof. unfold after_count. simpl. by destruct (x <? t). Qed.

Lemma after_count_le x l : (after_count x l ≤ length l)%nat.
Proof. unfold after_count. apply List.filter_length_le. Qed.

Lemma after_count_trim_len l y : length (trimStamps l y) = after_count y l.
Proof. done. Qed.

Lemma after_count_zero x l : Forall (λ t, t <= x) l → after_count x l = 0%nat.
Proof. unfold after_count. induction 1 as [|t l Ht _ IH]; [done|]. simpl. by replace (x <? t) with false by lia. Qed.

Lemma in_minute_le t l : (in_minute t l ≤ after_count (t - throttleWindow) l)%nat.
Proof.
  unfold in_minute, after_count. induction l as [|f l IH]; [done|]. simpl.
  destruct (t - throttleWindow <? f); simpl; [destruct (f <=? t)|]; simpl; lia.
Qed.

(** ** The throttle against what failed *)

(** A name's record mirrors [f], the failures since its last success. *)
Record mirrors (now : time) (w : failWindow) (f : list time) : Prop := {
  mr_count : ∀ x, now - throttleWindow <= x → after_count x (stamps w) = after_count x f;
  mr_open : lockedUntil w = None → (length (stamps w) < throttleMaxFailures)%nat;
  mr_locked : ∀ u, lockedUntil w = Some u → Forall (λ t, t <= u - throttleLockout) f
}.

Definition record_of (t : loginThrottle) (u : string) : failWindow := default (MkFail [] None) (failures t !! u).

Record throttle_inv (now : time) (t : loginThrottle) (f : string → list time) (all : list time) : Prop := {
  ti_max : max t = throttleMaxFailures; ti_window : window t = throttleWindow;
  ti_lock : lockout t = throttleLockout; ti_global : globalMax t = throttleGlobalMax;
  ti_names : ∀ u, u ≠ EmptyString → mirrors now (record_of t u) (f u);
  ti_all : ∀ x, now - throttleWindow <= x → after_count x (globalStamps t) = after_count x all
}.

Lemma mirrors_later now now' w f : now <= now' → mirrors now w f → mirrors now' w f.
Proof. intros Hle [H1 H2 H3]. constructor; [intros x Hx; apply H1; lia|done..]. Qed.

Lemma throttle_later now now' t f all : now <= now' → throttle_inv now t f all → throttle_inv now' t f all.
Proof.
  intros Hle []. constructor; [done..| |].
  - intros u Hu. by apply (mirrors_later now); [lia|apply ti_names0].
  - intros x Hx. apply ti_all0. lia.
Qed.

Lemma mirrors_empty now f : Forall (λ t, t <= now - throttleWindow) f → mirrors now (MkFail [] None) f.
Proof.
  intros Hf. constructor; [|vm_compute; lia|done].
  intros x Hx. rewrite (after_count_zero x f); [done|]. eapply Forall_impl; [exact Hf|]. simpl. lia.
Qed.

Lemma new_throttle now : throttle_inv now newLoginThrottle (λ _, []) [].
Proof. constructor; try done. intros u _. unfold record_of. simpl. rewrite lookup_empty. by apply mirrors_empty. Qed.

(** Letting an attempt in: there is room for one more failure. *)
Lemma Allow_inv now u t f all ok t' : throttle_inv now t f all → Allow now u t = (ok, t') →
  throttle_inv now t' f all ∧
  (ok = true → u ≠ EmptyString → lockedUntil (record_of t' u) = None ∧ (length (globalStamps t') < throttleGlobalMax)%nat).
Proof.
  intros [Hmax Hwin Hlock Hgl Hn Ha] E. unfold Allow in E.
  case_bool_decide as Hu; [by simplify_eq|].
  rewrite Hwin in E. cbn [globalMax globalStamps failures with_global] in E. rewrite Hgl in E.
  destruct (with_global (trimStamps (globalStamps t) (now - throttleWindow)) t) as [? ? ? ? fs gs] eqn:Et1.
  assert (Ht1 : throttle_inv now (with_global (trimStamps (globalStamps t) (now - throttleWindow)) t) f all).
  { constructor; try done. simpl. intros x Hx. rewrite after_count_trim by lia. by apply Ha. }
  rewrite Et1 in Ht1. destruct t as [? ? ? ? fs0 gs0]. injection Et1 as -> -> -> -> -> <-. simpl in *.
  destruct (Nat.leb_spec throttleGlobalMax (length (trimStamps gs0 (now - throttleWindow)))) as [|Hg];
    [by simplify_eq|].
  destruct (fs !! u) as [w|] eqn:Ew.
  2: { injection E as <- <-. split; [done|]. intros _ _. unfold record_of. simpl. by rewrite Ew. }
  destruct (locked now w) eqn:El; [by simplify_eq|].
  assert (Hw : mirrors now w (f u)) by (specialize (Hn u Hu); unfold record_of in Hn; simpl in Hn; by rewrite Ew in Hn).
  case_bool_decide as Hl; injection E as <- <-.
  - destruct Hl as [lim Hl]. unfold locked in El. rewrite Hl in El.
    split; [|intros _ _; unfold record_of; simpl; by rewrite lookup_delete_eq].
    destruct Ht1 as [? ? ? ? Hn1 ?]. constructor; try done.
    intros v Hv. unfold record_of. simpl. destruct (decide (u = v)) as [<-|Hne].
    + rewrite lookup_delete_eq. apply mirrors_empty.
      eapply Forall_impl; [exact (mr_locked _ _ _ Hw lim Hl)|]. simpl. unfold throttleWindow, throttleLockout. lia.
    + rewrite lookup_delete_ne by done. by apply Hn.
  - split; [done|]. intros _ _. unfold record_of. simpl. rewrite Ew. simpl. split; [|done].
    destruct (lockedUntil w); [destruct Hl; eauto|done].
Qed.

Lemma mirrors_prune now w f : mirrors now w f → mirrors now (MkFail (trimStamps (stamps w) (now - throttleWindow)) (lockedUntil w)) f.
Proof.
  intros [H1 H2 H3]. constructor; simpl; [|intros Hn; specialize (H2 Hn)|done].
  - intros x Hx. rewrite after_count_trim by lia. by apply H1.
  - pose proof (after_count_le (now - throttleWindow) (stamps w)). rewrite after_count_trim_len. lia.
Qed.

Lemma prune_inv now t f all : throttle_inv now t f all → throttle_inv now (with_failures (pruneLocked now t) t) f all.
Proof.
  intros [Hmax Hwin Hlock Hgl Hn Ha]. constructor; try done.
  intros u Hu. specialize (Hn u Hu). unfold record_of, pruneLocked in *. simpl. rewrite Hwin.
  destruct (failures t !! u) as [w|] eqn:Ew; simpl in Hn.
  2: { rewrite map_lookup_filter, lookup_fmap, Ew. simpl. done. }
  pose proof (mirrors_prune _ _ _ Hn) as Hp.
  rewrite map_lookup_filter, lookup_fmap, Ew. simpl.
  case_guard as Hg; simpl; [done|].
  assert (Hs : trimStamps (stamps w) (now - throttleWindow) = []).
  { destruct (decide (trimStamps (stamps w) (now - throttleWindow) = [])); [done|]. exfalso. apply Hg. by left. }
  destruct (lockedUntil w) as [lim|] eqn:El.
  - apply mirrors_empty. eapply Forall_impl; [exact (mr_locked _ _ _ Hn lim El)|]. simpl.
    intros x Hx. destruct (locked now w) eqn:Elk; [exfalso; apply Hg; right; unfold locked in *; by rewrite El in *|].
    unfold locked in Elk. rewrite El in Elk. unfold throttleWindow, throttleLockout in *. lia.
  - by rewrite Hs in Hp.
Qed.

(** A failure where there was room: the minute's counts stay within the limits. *)
Lemma RecordFailure_inv now u t f all : u ≠ EmptyString → throttle_inv now t f all →
  Forall (λ x, x <= now) (f u) →
  lockedUntil (record_of t u) = None → (length (globalStamps t) < throttleGlobalMax)%nat →
  throttle_inv now (RecordFailure now u t) (λ v, if decide (u = v) then now :: f v else f v) (now :: all) ∧
  (after_count (now - throttleWindow) (now :: f u) ≤ throttleMaxFailures)%nat ∧
  (after_count (now - throttleWindow) (now :: all) ≤ throttleGlobalMax)%nat.
Proof.
  intros Hu [Hmax Hwin Hlock Hgl Hn Ha] Hold Hopen Hroom.
  assert (Hone : ∀ x, after_count x [now] = if x <? now then 1%nat else 0%nat).
  { intros x. unfold after_count. simpl. by destruct (x <? now). }
  destruct (Hn u Hu) as [H1 H2 H3]. specialize (H2 Hopen).
  split_and!; last first.
  { rewrite after_count_cons, Hone, <- Ha by lia. pose proof (after_count_le (now - throttleWindow) (globalStamps t)).
    case_match; lia. }
  { rewrite after_count_cons, Hone, <- H1 by lia. pose proof (after_count_le (now - throttleWindow) (stamps (record_of t u))).
    case_match; lia. }
  unfold RecordFailure. rewrite bool_decide_eq_false_2 by done. rewrite Hwin. cbn [max lockout globalMax globalStamps failures with_global with_failures]. rewrite Hmax, Hlock.
  set (w := record_of t u) in *. change (default (MkFail [] None) (failures t !! u)) with w.
  set (st := trimStamps (stamps w) (now - throttleWindow) ++ [now]).
  match goal with |- context [pruneLocked now ?x] => set (t2 := x) end.
  assert (Hlen : (length st ≤ throttleMaxFailures)%nat).
  { unfold st. rewrite length_app, after_count_trim_len. simpl.
    pose proof (after_count_le (now - throttleWindow) (stamps w)). lia. }
  assert (Ht2 : throttle_inv now t2 (λ v, if decide (u = v) then now :: f v else f v) (now :: all)).
  { constructor; try done.
    - intros v Hv. unfold record_of, t2. simpl. case_decide as Huv.
      + subst v. rewrite lookup_insert_eq. simpl. constructor; simpl.
        * intros x Hx. unfold st. rewrite after_count_app, after_count_trim, H1, (after_count_cons x now (f u)) by lia. lia.
        * destruct (Nat.leb_spec throttleMaxFailures (length st)); [done|lia].
        * intros lim. destruct (Nat.leb_spec throttleMaxFailures (length st)); [|by rewrite Hopen].
          intros [= <-]. constructor; [lia|]. eapply Forall_impl; [exact Hold|]. simpl. lia.
      + rewrite lookup_insert_ne by done. by apply Hn.
    - intros x Hx. simpl. rewrite after_count_app, after_count_trim, Ha, (after_count_cons x now all) by lia. lia. }
  case_match; [by apply prune_inv|done].
Qed.

Lemma Clear_inv now u t f all : throttle_inv now t f all → throttle_inv now (Clear u t) (λ v, if decide (u = v) then [] else f v) all.
Proof.
  intros [Hmax Hwin Hlock Hgl Hn Ha]. unfold Clear. case_bool_decide as Hu.
  - constructor; try done. intros v Hv. case_decide; [congruence|]. by apply Hn.
  - constructor; try done. intros v Hv. unfold record_of. simpl. case_decide as Huv.
    + subst v. rewrite lookup_delete_eq. by apply mirrors_empty.
    + rewrite lookup_delete_ne by done. by apply Hn.
Qed.

Lemma in_minute_later t l n now : now <= t → (after_count (now - throttleWindow) l ≤ n)%nat → (in_minute t l ≤ n)%nat.
Proof.
  intros Ht H. etrans; [apply in_minute_le|]. etrans; [|exact H]. unfold after_count.
  clear H. induction l as [|f l IH]; [done|]. simpl.
  destruct (t - throttleWindow <? f) eqn:E1, (now - throttleWindow <? f) eqn:E2; simpl; lia.
Qed.

Lemma in_minute_before t x l : t < x → in_minute t (x :: l) = in_minute t l.
Proof. intros H. unfold in_minute. simpl. replace (x <=? t) with false by lia. by rewrite andb_false_r. Qed.
