(* ===== verification/DashServer.v ===== *)
(** The dashboard's request handling ([internal/dashboard/handlers.go],
    [pages.go], [csrf.go], [rpc.go], [metrics.go], [dashboard.go], [store.go]):
    routes, the session and role gates, login, the pages, the writes forwarded
    to the daemon.

    A request carries what the router, the cookie and the form give; paths are
    those the router has cleaned.  The daemon's answer to a call is part of the
    request's environment, HTML templates are left out: a page is its identity
    and its data.  [history] is a ghost: what happened, the newest first. *)
From Stdlib Require Import Ascii.
From Stdlib Require Import Sorted.
From S2P Require Import Prelude GoStrings GoUtf8 Netip NetipParse GoNet ControlSocket DashAuth.
#[local] Open Scope Z_scope.

(** ** What the daemon answers *)
Record EventEntry := MkEvent {
  ee_ID : Z; RecordedAt : string; ee_Op : string; ee_IP : string; TTLSeconds : Z; ee_Strike : Z; ee_Reason : string
}.

Inductive data :=
| DNothing | DStatus (s : StatusData) | DBans (l : list BanEntry) | DAllows (l : list ReportAllow)
| DEvents (l : list EventEntry) | DMetrics (text : string) | DOther.
Inductive rpc_error := ROffline | RFailed.
#[export] Instance rpc_error_eq_dec : EqDecision rpc_error.
Proof. solve_decision. Defined.

(** ** The metrics throttle *)
Record metricsThrottle := MkMetrics { mt_window : option time; count : Z; mt_max : Z; perSpan : duration }.
Definition newMetricsThrottle : metricsThrottle := MkMetrics None 0 120 Minute.
Definition mt_allow (now : time) (t : metricsThrottle) : bool * metricsThrottle :=
  let t := if match mt_window t with None => true | Some w => perSpan t <=? now - w end
           then MkMetrics (Some now) 0 (mt_max t) (perSpan t) else t in
  let t := MkMetrics (mt_window t) (count t + 1) (mt_max t) (perSpan t) in
  (count t <=? mt_max t, t).

(** ** Requests, responses, the server *)
Inductive method := GET | HEAD | POST | OtherMethod.
#[export] Instance method_eq_dec : EqDecision method.
Proof. solve_decision. Defined.

(** [rq_form] is [None] when the form does not parse. *)
Record Request := MkRq {
  Method : method; Path : string; rq_cookie : option string;
  rq_query : gmap string string; rq_form : option (gmap string string)
}.
Definition FormValue (k : string) (f : gmap string string) : string := default EmptyString (f !! k).

Record rbacDenial := MkDenial { Actor : string; Action : string; HeldRole : string }.

(** What happened: a call sent to the daemon, a wrong password checked, a right
    one, a session handed out. *)
Inductive happened :=
| Called (c : SocketRequest)
| Failed (u : string) (at_ : time)
| Passed (u : string)
| LoggedIn (u : string) (tok : string).

Record Server := MkServer {
  wired : bool; MetricsOpen : bool; sessions : sessionStore; throttle : loginThrottle; metricsLimit : metricsThrottle;
  decoyHash : string; salt : option string; users : list rbacUser;
  admins : gmap string string; denials : list rbacDenial; history : list happened
}.

Definition with_sessions (x : sessionStore) (s : Server) : Server :=
  MkServer (wired s) (MetricsOpen s) x (throttle s) (metricsLimit s) (decoyHash s) (salt s) (users s) (admins s) (denials s) (history s).
Definition with_throttle (x : loginThrottle) (s : Server) : Server :=
  MkServer (wired s) (MetricsOpen s) (sessions s) x (metricsLimit s) (decoyHash s) (salt s) (users s) (admins s) (denials s) (history s).
Definition with_metrics (x : metricsThrottle) (s : Server) : Server :=
  MkServer (wired s) (MetricsOpen s) (sessions s) (throttle s) x (decoyHash s) (salt s) (users s) (admins s) (denials s) (history s).
Definition with_users (x : list rbacUser) (s : Server) : Server :=
  MkServer (wired s) (MetricsOpen s) (sessions s) (throttle s) (metricsLimit s) (decoyHash s) (salt s) x (admins s) (denials s) (history s).
Definition with_denials (x : list rbacDenial) (s : Server) : Server :=
  MkServer (wired s) (MetricsOpen s) (sessions s) (throttle s) (metricsLimit s) (decoyHash s) (salt s) (users s) (admins s) x (history s).
Definition with_admins (x : gmap string string) (s : Server) : Server :=
  MkServer (wired s) (MetricsOpen s) (sessions s) (throttle s) (metricsLimit s) (decoyHash s) (salt s) (users s) x (denials s) (history s).
Definition note (h : happened) (s : Server) : Server :=
  MkServer (wired s) (MetricsOpen s) (sessions s) (throttle s) (metricsLimit s) (decoyHash s) (salt s) (users s) (admins s) (denials s) (h :: history s).

(** *** Pages *)
Record pageIdentity := MkIdent { id_CSRF : string; id_Actor : string; id_Role : string; CanBan : bool; CanAllow : bool }.
Record strikeCount := MkStrike { Bucket : string; Count : Z }.
Record statusPageData := MkStatusPage {
  sp_Daemon : string; Mode : string; sp_Uptime : string; sp_Version : string; sp_ActiveBans : Z;
  BansByStrike : list strikeCount; sp_Offline : bool; sp_Error : string; sp_Info : string
}.
Record listPage {A : Type} := MkListPage { Entries : list A; lp_Offline : bool; lp_Error : string; lp_Info : string }.
Arguments listPage A : clear implicits.
Record timelineStep := MkStep { Strike : Z; Reached : bool; st_RecordedAt : string; st_Reason : string }.
Record timelineEntry := MkTimeline {
  te_IP : string; te_Country : string; te_ASN : string; CurrentTTL : string; CurrentTier : Z; Steps : list timelineStep
}.

Inductive body :=
| ShowStatus (d : statusPageData) | ShowBans (d : listPage BanEntry) | ShowAllows (d : listPage ReportAllow)
| ShowEvents (d : listPage EventEntry) | ShowTimeline (d : listPage timelineEntry).

Inductive Resp :=
| Redirect (loc : string) (set_cookie : option string)
| Refuse (code : Z) (text : string)
| LoginForm (code : Z) (msg : string)
| Page (ident : pageIdentity) (b : body)
| MetricsText (text : string)
| Upgraded.

(** What the world answers to one request: the clock when it arrives and once
    the password has been checked, tokens from the random source, whether the
    auth database answers, the daemon. *)
Record env := MkEnv {
  arrived : time; checked : time; rand_tokens : option (string * string); db_ok : bool;
  daemon_Call : SocketRequest → result rpc_error data
}.

Definition request (verb ip reason : string) (limit : Z) : SocketRequest :=
  MkRequest verb ip EmptyString EmptyString false EmptyString EmptyString reason limit EmptyString false EmptyString false.

Definition sessionCookieName : string := "ezyshield_dashboard".
Definition maxLoginUsernameLen : nat := 64.
Definition csrfFormField : string := "csrf_token".

(** ** Flash messages *)
Definition flashMessages : list (string * string) :=
  [("invalid-ip", "Invalid IP or CIDR — nothing was sent to the daemon.");
   ("missing-ip", "IP or CIDR is required.");
   ("bad-form", "Malformed form submission.");
   ("bad-reason", "Reason contains disallowed characters or exceeds 500 characters.");
   ("daemon-error", "The daemon rejected the request. See the daemon log for details.");
   ("daemon-offline", "The daemon is not reachable right now.");
   ("ban-queued", "Ban queued.");
   ("unban-queued", "Unban queued.");
   ("allow-added", "Allowlist entry added.")]%string.
Definition flash_text (code : string) : option string := snd <$> List.find (λ p, bool_decide (p.1 = code)) flashMessages.
Definition flashFor (rq : Request) (key : string) : option string := code ← rq_query rq !! key; flash_text code.
Definition redirectFlash (base key code : string) : Resp :=
  Redirect (match flash_text code with Some _ => base +:+ "?" +:+ key +:+ "=" +:+ code | None => base end) None.

(** ** The form of a write *)
Definition ValidString (s : string) : bool := bool_decide (encode_all (runes s) = s).
Definition reason_byte (a : ascii) : bool := negb (((byte a <? 0x20) && negb (byte a =? 0x09)) || (byte a =? 0x7f)).
Definition validReason (reason : string) : bool :=
  ValidString reason && (length (runes reason) <=? 500)%nat && str_forall reason_byte reason.

Definition canonicalPrefix (raw : string) : option string :=
  match ParsePrefix raw with
  | Some p => Some (show_prefix (Masked p))
  | None => match ParseAddr raw with Some a => Some (show_prefix (PrefixFrom a (BitLen a))) | None => None end
  end.

Definition parseTargetForm (rq : Request) : result string (string * string) :=
  match rq_form rq with
  | None => Err "bad-form"%string
  | Some f =>
    let raw := UTrimSpace (FormValue "ip" f) in
    if bool_decide (raw = EmptyString) then Err "missing-ip"%string
    else match canonicalPrefix raw with
         | None => Err "invalid-ip"%string
         | Some target =>
           let reason := UTrimSpace (FormValue "reason" f) in
           if validReason reason then Ok (target, reason) else Err "bad-reason"%string
         end
  end.

Definition dashboardActionReason (actor userReason : string) : string :=
  let actor := if bool_decide (actor = EmptyString) then "admin"%string else actor in
  if bool_decide (userReason = EmptyString) then "dashboard:" +:+ actor
  else "dashboard:" +:+ actor +:+ ": " +:+ userReason.

Inductive csrf_outcome := CsrfOk | CsrfForbidden | CsrfBadRequest.
Definition checkCSRF (rq : Request) (expected : string) : csrf_outcome :=
  if bool_decide (expected = EmptyString) then CsrfForbidden
  else match rq_form rq with
       | None => CsrfBadRequest
       | Some f =>
         let got := FormValue csrfFormField f in
         if bool_decide (got = EmptyString) then CsrfForbidden
         else if bool_decide (got = expected) then CsrfOk else CsrfForbidden
       end.

(** ** The strike breakdown and the timeline *)
Definition strikeBucket (strike : Z) (ttl : string) : string :=
  if (strike =? 0) || bool_decide (ttl = "permanent"%string) then "permanent" else "strike " +:+ show_Z strike.
Definition bansByStrike (l : list BanEntry) : gmap string Z :=
  foldl (λ m e, let k := strikeBucket (be_Strike e) (be_TTL e) in <[k := get k m + 1]> m) ∅ l.
Definition strike_buckets : list string := ((λ n, "strike " +:+ show_Z n) <$> [1; 2; 3; 4; 5; 6; 7; 8]) ++ ["permanent"%string].
Definition sortedStrikeCounts (m : gmap string Z) : list strikeCount :=
  omap (λ k, MkStrike k <$> m !! k) strike_buckets.

Definition is_ban_op (op : string) : bool := bool_decide (op = "ban"%string) || bool_decide (op = "dry_ban"%string).
Definition perIP (events : list EventEntry) : gmap (string * Z) EventEntry :=
  foldl (λ m e, if negb (is_ban_op (ee_Op e)) then m
                else match m !! (ee_IP e, ee_Strike e) with
                     | None => <[(ee_IP e, ee_Strike e) := e]> m
                     | Some prev => if ee_ID prev <? ee_ID e then <[(ee_IP e, ee_Strike e) := e]> m else m
                     end) ∅ events.
Definition timeline_step (m : gmap (string * Z) EventEntry) (b : BanEntry) (tier : Z) : timelineStep :=
  match m !! (be_IP b, tier) with
  | Some hit => MkStep tier true (RecordedAt hit) (ee_Reason hit)
  | None => MkStep tier (tier <=? be_Strike b) EmptyString EmptyString
  end.
Definition buildTimeline (bans : list BanEntry) (events : list EventEntry) : list timelineEntry :=
  let m := perIP events in
  (λ b, MkTimeline (be_IP b) (be_Country b) (be_ASN b) (be_TTL b) (be_Strike b) (timeline_step m b <$> [1; 2; 3; 4; 5])) <$> bans.

Section server.
Context (pbkdf2_Key : string → string → Z → nat → option string) (DecodeString : string → option string).

(** ** Calls to the daemon *)
Definition callDaemon (e : env) (c : SocketRequest) (s : Server) : result rpc_error data * Server :=
  if wired s then (daemon_Call e c, note (Called c) s) else (Err ROffline, s).

Definition fetchStatus (e : env) (s : Server) : result rpc_error StatusData * Server :=
  let '(r, s) := callDaemon e (request "status" EmptyString EmptyString 0) s in
  (match r with Err x => Err x | Ok (DStatus d) => Ok d | Ok _ => Err RFailed end, s).
Definition fetchBans (e : env) (s : Server) : result rpc_error (list BanEntry) * Server :=
  let '(r, s) := callDaemon e (request "list" EmptyString EmptyString 0) s in
  (match r with Err x => Err x | Ok DNothing => Ok [] | Ok (DBans l) => Ok l | Ok _ => Err RFailed end, s).
Definition fetchEventsN (e : env) (limit : Z) (s : Server) : result rpc_error (list EventEntry) * Server :=
  let '(r, s) := callDaemon e (request "events" EmptyString EmptyString limit) s in
  (match r with Err x => Err x | Ok DNothing => Ok [] | Ok (DEvents l) => Ok l | Ok _ => Err RFailed end, s).
Definition fetchAllows (e : env) (s : Server) : result rpc_error (list ReportAllow) * Server :=
  let '(r, s) := callDaemon e (request "list_allow" EmptyString EmptyString 0) s in
  (match r with Err x => Err x | Ok DNothing => Ok [] | Ok (DAllows l) => Ok l | Ok _ => Err RFailed end, s).

Definition doWrite (e : env) (c : SocketRequest) (s : Server) : option string * Server :=
  let '(r, s) := callDaemon e c s in
  (match r with Ok _ => None | Err ROffline => Some "daemon-offline"%string | Err RFailed => Some "daemon-error"%string end, s).

(** ** Roles and the auth database *)
Inductive hash_outcome := HashFound (h : string) | HashNone | HashError.
Definition getAdminHash (e : env) (u : string) (s : Server) : hash_outcome :=
  if db_ok e then match admins s !! u with Some h => HashFound h | None => HashNone end else HashError.

Definition roleFor (e : env) (u : string) (s : Server) : option Role :=
  match roleOf (users s) u with
  | Some r => Some r
  | None => match getAdminHash e u s with HashFound _ => Some RoleAdmin | _ => None end
  end.

Definition auditDenied (e : env) (actor action : string) (held : Role) (s : Server) : Server :=
  if db_ok e then with_denials (denials s ++ [MkDenial actor action (RoleString held)]) s else s.

Definition handler : Type := env → Request → sessionInfo → Server → Resp * Server.

Definition requireAuth (h : handler) (e : env) (rq : Request) (s : Server) : Resp * Server :=
  match rq_cookie rq with
  | None => (Redirect "/login" None, s)
  | Some c =>
    let '(info, ss) := Lookup (arrived e) c (sessions s) in
    let s := with_sessions ss s in
    match info with None => (Redirect "/login" None, s) | Some info => h e rq info s end
  end.

Definition requireRole (action : string) (h : handler) : env → Request → Server → Resp * Server :=
  requireAuth (λ e rq info s,
    match roleFor e (Username info) s with
    | None =>
      (Redirect "/login" None, match rq_cookie rq with Some c => with_sessions (Delete c (sessions s)) s | None => s end)
    | Some role =>
      let need := requiredRole action in
      if rank role <? rank need then
        (Refuse 403 ("forbidden: this action requires the " +:+ RoleString need +:+ " role"), auditDenied e (Username info) action role s)
      else h e rq info s
    end).

Definition requireCSRF (h : handler) : handler := λ e rq info s,
  match checkCSRF rq (CSRF info) with
  | CsrfOk => h e rq info s
  | CsrfForbidden => (Refuse 403 "forbidden", s)
  | CsrfBadRequest => (Refuse 400 "bad request", s)
  end.

Definition identityFrom (e : env) (info : sessionInfo) (s : Server) : pageIdentity :=
  match roleFor e (Username info) s with
  | None => MkIdent (CSRF info) (Username info) "unknown" false false
  | Some role => MkIdent (CSRF info) (Username info) (RoleString role) (rank RoleOperator <=? rank role) (rank RoleAdmin <=? rank role)
  end.

(** ** Pages *)
Definition rpc_failed : string := "Daemon returned an error. See the daemon log.".
Definition is_offline {A} (r : result rpc_error A) : bool := match r with Err ROffline => true | _ => false end.
Definition rpc_text {A} (r : result rpc_error A) : string := match r with Err RFailed => rpc_failed | _ => EmptyString end.
Definition rpc_rows {A} (r : result rpc_error (list A)) : list A := match r with Ok l => l | Err _ => [] end.

Definition handleRootRedirect : handler := λ e rq info s, (Redirect "/dashboard" None, s).

Definition handleStatusPage : handler := λ e rq info s,
  let '(r, s) := fetchStatus e s in
  let '(rb, s) := fetchBans e s in
  let strikes := match rb with Ok l => sortedStrikeCounts (bansByStrike l) | Err _ => [] end in
  let flash := default EmptyString (flashFor rq "info") in
  let d := match r with
           | Ok sd => MkStatusPage "running" (if sd_Armed sd then "enforce" else "dry-run") (Uptime sd) (sd_Version sd) (sd_ActiveBans sd)
                        strikes false EmptyString flash
           | Err _ => MkStatusPage "stopped" "unknown" EmptyString EmptyString 0 strikes (is_offline r) (rpc_text r) flash
           end in
  (Page (identityFrom e info s) (ShowStatus d), s).

Definition list_page {A} (rq : Request) (r : result rpc_error (list A)) : listPage A :=
  MkListPage A (rpc_rows r) (is_offline r) (default (rpc_text r) (flashFor rq "err")) (default EmptyString (flashFor rq "ok")).

Definition handleBansPage : handler := λ e rq info s,
  let '(r, s) := fetchBans e s in (Page (identityFrom e info s) (ShowBans (list_page rq r)), s).
Definition handleAllowlistPage : handler := λ e rq info s,
  let '(r, s) := fetchAllows e s in (Page (identityFrom e info s) (ShowAllows (list_page rq r)), s).
Definition handleEventsPage : handler := λ e rq info s,
  let '(r, s) := fetchEventsN e 100 s in
  (Page (identityFrom e info s) (ShowEvents (MkListPage _ (rpc_rows r) (is_offline r) (rpc_text r) EmptyString)), s).

Definition handleTimelinePage : handler := λ e rq info s,
  let '(r, s) := fetchBans e s in
  let '(entries, s) :=
    match r with
    | Ok (b :: l) => let '(ev, s) := fetchEventsN e 500 s in (buildTimeline (b :: l) (rpc_rows ev), s)
    | _ => ([], s)
    end in
  (Page (identityFrom e info s) (ShowTimeline (MkListPage _ entries (is_offline r) (rpc_text r) EmptyString)), s).

(** ** Writes *)
Definition write_back (page : string) (done : string) (r : option string * Server) : Resp * Server :=
  (match r.1 with Some code => redirectFlash page "err" code | None => redirectFlash page "ok" done end, r.2).

Definition handleBanPost : handler := requireCSRF (λ e rq info s,
  match parseTargetForm rq with
  | Err code => (redirectFlash "/dashboard/bans" "err" code, s)
  | Ok (target, reason) =>
    write_back "/dashboard/bans" "ban-queued" (doWrite e (request "ban" target (dashboardActionReason (Username info) reason) 0) s)
  end).
Definition handleUnbanPost : handler := requireCSRF (λ e rq info s,
  match parseTargetForm rq with
  | Err code => (redirectFlash "/dashboard/bans" "err" code, s)
  | Ok (target, _) => write_back "/dashboard/bans" "unban-queued" (doWrite e (request "unban" target EmptyString 0) s)
  end).
Definition handleAllowPost : handler := requireCSRF (λ e rq info s,
  match parseTargetForm rq with
  | Err code => (redirectFlash "/dashboard/allowlist" "err" code, s)
  | Ok (target, reason) =>
    write_back "/dashboard/allowlist" "allow-added" (doWrite e (request "allow" target (dashboardActionReason (Username info) reason) 0) s)
  end).

(** ** Sessions: login and logout *)
Definition createSessionAndRedirect (e : env) (u : string) (s : Server) : Resp * Server :=
  match rand_tokens e with
  | None => (Refuse 500 "internal error", s)
  | Some (tok, csrfTok) =>
    (Redirect "/" (Some tok), note (LoggedIn u tok) (with_sessions (Create (checked e) tok csrfTok u (sessions s)) s))
  end.

Definition handleLoginGet (s : Server) : Resp * Server := (LoginForm 200 EmptyString, s).

Definition cleared (u : string) (s : Server) : Server := note (Passed u) (with_throttle (Clear u (throttle s)) s).

Definition handleLoginPost (e : env) (rq : Request) (s : Server) : Resp * Server :=
  match rq_form rq with
  | None => (Refuse 400 "bad request", s)
  | Some f =>
    let username := UTrimSpace (FormValue "username" f) in
    let password := FormValue "password" f in
    if (maxLoginUsernameLen <? str_len username)%nat then (LoginForm 401 "Invalid credentials.", s)
    else
      let '(allowed, t) := Allow (arrived e) username (throttle s) in
      let s := with_throttle t s in
      if negb allowed then (LoginForm 429 "Too many failed attempts. Try again in a minute.", s)
      else match authenticate pbkdf2_Key (salt s) (users s) username password with
           | Some u => createSessionAndRedirect e (u_name u) (cleared username s)
           | None =>
             match getAdminHash e username s with
             | HashError => (Refuse 500 "internal error", s)
             | h =>
               let hash := match h with HashFound x => x | _ => decoyHash s end in
               if verifyPassword pbkdf2_Key DecodeString hash password then createSessionAndRedirect e username (cleared username s)
               else (LoginForm 401 "Invalid credentials.",
                     note (Failed username (checked e)) (with_throttle (RecordFailure (checked e) username (throttle s)) s))
             end
           end
  end.

Definition handleLogout : handler := requireCSRF (λ e rq info s,
  (Redirect "/login" (Some EmptyString),
   match rq_cookie rq with Some c => with_sessions (Delete c (sessions s)) s | None => s end)).

(** ** Metrics and the live socket *)
Definition handleMetrics (e : env) (s : Server) : Resp * Server :=
  let '(ok, m) := mt_allow (arrived e) (metricsLimit s) in
  let s := with_metrics m s in
  if negb ok then (Refuse 429 "throttled", s)
  else
    let '(r, s) := callDaemon e (request "metrics" EmptyString EmptyString 0) s in
    (match r with Err _ => Refuse 503 "daemon unavailable" | Ok (DMetrics t) => MetricsText t | Ok _ => Refuse 502 "bad metrics payload" end, s).

(** The upgrade; pushing to the socket is the event bus's. *)
Definition handleWebSocket : handler := λ e rq info s, (Upgraded, s).

(** ** Routes: a GET pattern also takes HEAD, "GET /" takes every other path. *)
Definition is_get (m : method) : bool := match m with GET | HEAD => true | _ => false end.
Definition get_page (path : string) : option (string * handler) :=
  if bool_decide (path = "/dashboard"%string) then Some ("view"%string, handleStatusPage)
  else if bool_decide (path = "/dashboard/bans"%string) then Some ("view"%string, handleBansPage)
  else if bool_decide (path = "/dashboard/allowlist"%string) then Some ("view"%string, handleAllowlistPage)
  else if bool_decide (path = "/dashboard/events"%string) then Some ("view"%string, handleEventsPage)
  else if bool_decide (path = "/dashboard/timeline"%string) then Some ("view"%string, handleTimelinePage)
  else if bool_decide (path = "/dashboard/ws"%string) then Some ("ws"%string, handleWebSocket)
  else None.
Definition post_page (path : string) : option (string * handler) :=
  if bool_decide (path = "/logout"%string) then Some ("logout"%string, handleLogout)
  else if bool_decide (path = "/dashboard/ban"%string) then Some ("ban"%string, handleBanPost)
  else if bool_decide (path = "/dashboard/unban"%string) then Some ("unban"%string, handleUnbanPost)
  else if bool_decide (path = "/dashboard/allow"%string) then Some ("allow"%string, handleAllowPost)
  else None.

Definition routes (e : env) (rq : Request) (s : Server) : Resp * Server :=
  if is_get (Method rq) then
    if bool_decide (Path rq = "/login"%string) then handleLoginGet s
    else if bool_decide (Path rq = "/metrics"%string) then
      if MetricsOpen s then handleMetrics e s else requireRole "metrics" (λ e _ _ s, handleMetrics e s) e rq s
    else match get_page (Path rq) with
         | Some (action, h) => requireRole action h e rq s
         | None => requireRole "view" handleRootRedirect e rq s
         end
  else if bool_decide (Method rq = POST) then
    if bool_decide (Path rq = "/login"%string) then handleLoginPost e rq s
    else match post_page (Path rq) with Some (action, h) => requireRole action h e rq s | None => (Refuse 405 "Method Not Allowed", s) end
  else (Refuse 405 "Method Not Allowed", s).

(** ** The server's life *)
Definition DefaultSessionTimeout : duration := 30 * Minute.

Definition newServer (dsock metrics_open : bool) (timeout : duration) (decoy : string) (salt : option string)
    (us : list AuthUser) (admins : gmap string string) : Server :=
  MkServer dsock metrics_open (newSessionStore (if timeout =? 0 then DefaultSessionTimeout else timeout)) newLoginThrottle
    newMetricsThrottle decoy salt (replace_users pbkdf2_Key salt us) admins [] [].

Definition ReloadUsers (us : list AuthUser) (s : Server) : Server := with_users (replace_users pbkdf2_Key (salt s) us) s.

(** The first account: the generated password and its hash come in. *)
Definition EnsureAdmin (db : bool) (hash : option string) (s : Server) : Server :=
  if db && bool_decide (admins s = ∅) then
    match hash with Some h => with_admins (<["admin" := h]> (admins s))%string s | None => s end
  else s.

End server.

(** ** Where the dashboard may listen *)
Definition checkLoopback (a : string) : bool :=
  match SplitHostPort a with
  | None => false
  | Some (host, _) =>
    if bool_decide (host = EmptyString) then false
    else if bool_decide (host = "localhost"%string) then true
    else match ParseAddr host with Some ip => IsLoopback ip | None => false end
  end.
Definition checkListenerLoopback (a : option addr) : bool := match a with Some a => IsLoopback a | None => false end.

Definition DefaultAddr : string := "127.0.0.1:9090".

(** A server is made only for a loopback address and with an auth database. *)
Definition New (kdf : string → string → Z → nat → option string) (addr dbPath : string) (dsock metrics_open : bool) (timeout : duration)
    (decoy : string) (salt : option string) (us : list AuthUser) (admins : gmap string string) : option Server :=
  let addr := if bool_decide (addr = EmptyString) then DefaultAddr else addr in
  if bool_decide (dbPath = EmptyString) then None
  else if checkLoopback addr then Some (newServer kdf dsock metrics_open timeout decoy salt us admins) else None.

(** * The dashboard's live updates ([internal/dashboard/bus.go]): the daemon's audit
    rows are polled, the new ones pushed to every open socket.  A client's queue
    keeps what was pushed and not yet written. *)
#[local] Open Scope Z_scope.

Definition broadcastBurstCap : nat := 10.
Definition clientSendBuf : nat := 32.

Inductive wsMessage := WsHello | WsRefresh | WsAudit (e : EventEntry).
Record eventBus := MkBus { clients : gmap nat (list wsMessage); lastID : Z }.
Definition newEventBus : eventBus := MkBus ∅ 0.

Definition subscribe (c : nat) (b : eventBus) : eventBus := MkBus (<[c := []]> (clients b)) (lastID b).
Definition unsubscribe (c : nat) (b : eventBus) : eventBus := MkBus (delete c (clients b)) (lastID b).

Definition maxAuditID (events : list EventEntry) : Z := foldl (λ m e, if m <? ee_ID e then ee_ID e else m) 0 events.

(** The first poll of [Run]: rows already written are not replayed. *)
Definition seed (r : result rpc_error (list EventEntry)) (b : eventBus) : eventBus :=
  match r with Ok events => MkBus (clients b) (maxAuditID events) | Err _ => b end.

Definition freshEvents (events : list EventEntry) (b : eventBus) : list EventEntry * eventBus :=
  match rev (List.filter (λ e, negb (ee_ID e <=? lastID b)) events) with
  | [] => ([], b)
  | e :: out => (e :: out, MkBus (clients b) (ee_ID (List.last out e)))
  end.

Definition payloads (fresh : list EventEntry) : list wsMessage :=
  if (broadcastBurstCap <? length fresh)%nat then [WsRefresh] else WsAudit <$> fresh.

(** A full queue drops the message. *)
Definition push (q : list wsMessage) (m : wsMessage) : list wsMessage := if (length q <? clientSendBuf)%nat then q ++ [m] else q.
Definition broadcast (fresh : list EventEntry) (b : eventBus) : eventBus :=
  MkBus ((λ q, foldl push q (payloads fresh)) <$> clients b) (lastID b).

Definition tick (r : result rpc_error (list EventEntry)) (b : eventBus) : eventBus :=
  match r with
  | Err _ => b
  | Ok events => let '(fresh, b) := freshEvents events b in match fresh with [] => b | _ => broadcast fresh b end
  end.

(** ** Rows are shown once and in order *)
Definition shown (q : list wsMessage) : list Z := omap (λ m, match m with WsAudit e => Some (ee_ID e) | _ => None end) q.

(** What is queued for a client is in order, without repeats, and not ahead of the
    bus; a queue is never longer than its buffer. *)
Definition queue_ok (last : Z) (q : list wsMessage) : Prop :=
  StronglySorted Z.lt (shown q) ∧ Forall (λ i, i <= last) (shown q) ∧ (length q ≤ clientSendBuf)%nat.
Definition bus_ok (b : eventBus) : Prop := map_Forall (λ _, queue_ok (lastID b)) (clients b).

(** The daemon lists rows newest first. *)
Definition newest_first (events : list EventEntry) : Prop := StronglySorted Z.gt (ee_ID <$> events).

Lemma sorted_filter (R : Z → Z → Prop) (f : EventEntry → bool) l :
  StronglySorted R (ee_ID <$> l) → StronglySorted R (ee_ID <$> List.filter f l).
Proof.
  induction l as [|e l IH]; [done|]. simpl. intros [Hs Hf]%StronglySorted_inv. destruct (f e); [|auto].
  simpl. constructor; [auto|]. rewrite Forall_forall in Hf |- *. intros i (x & -> & Hx)%list_elem_of_fmap.
  apply Hf, list_elem_of_fmap. exists x. split; [done|]. apply list_elem_of_In in Hx. apply filter_In in Hx as [Hx _]. by apply list_elem_of_In.
Qed.

Lemma shown_snoc (l : list Z) x : StronglySorted Z.lt l → Forall (λ y, y < x) l → StronglySorted Z.lt (l ++ [x]).
Proof.
  induction l as [|y l IH]; intros Hs Hf; [by repeat constructor|]. apply StronglySorted_inv in Hs as [Hs Hy].
  apply Forall_cons in Hf as [Hyx Hf]. simpl. constructor; [auto|]. apply Forall_app. split; [done|by constructor].
Qed.

Lemma sorted_rev (l : list Z) : StronglySorted Z.gt l → StronglySorted Z.lt (rev l).
Proof.
  induction l as [|x l IH]; [by constructor|]. intros [Hs Hx]%StronglySorted_inv. simpl. apply shown_snoc; [auto|].
  rewrite Forall_forall in Hx |- *. intros y Hy. apply list_elem_of_In, in_rev, list_elem_of_In in Hy. specialize (Hx y Hy). lia.
Qed.

Lemma sorted_last (l : list Z) x : StronglySorted Z.lt (x :: l) → Forall (λ y, y <= List.last l x) (x :: l).
Proof.
  revert x. induction l as [|y l IH]; intros x Hs; [by repeat constructor|].
  apply StronglySorted_inv in Hs as [Hs Hx]. specialize (IH y Hs). apply Forall_cons in Hx as [Hxy _].
  assert (∀ k a b, List.last (y :: k) a = List.last (y :: k) b) as Hl.
  { clear. intros k. revert y. induction k as [|z k IH]; intros y a b; [done|]. apply (IH z). }
  assert (List.last (y :: l) x = List.last l y) as -> by (rewrite (Hl l x y); clear; by destruct l).
  constructor; [|done]. apply Forall_cons in IH as [IH _]. lia.
Qed.

Lemma push_ok last q m : queue_ok last q →
  match m with WsAudit e => Forall (λ i, i < ee_ID e) (shown q) | _ => True end →
  queue_ok (match m with WsAudit e => Z.max last (ee_ID e) | _ => last end) (push q m).
Proof.
  intros (Hs & Hf & Hl) Hm. unfold push. destruct (Nat.ltb_spec (length q) clientSendBuf) as [Hlt|Hge].
  - unfold queue_ok, shown. rewrite length_app, omap_app. simpl.
    destruct m as [| |e]; simpl; rewrite ?app_nil_r; [split_and!; [done|done|lia]..|].
    split_and!; [by apply shown_snoc| |lia]. apply Forall_app. split; [|repeat constructor; lia].
    eapply Forall_impl; [exact Hf|]. simpl. lia.
  - split_and!; [done| |done]. destruct m; [done..|]. eapply Forall_impl; [exact Hf|]. simpl. lia.
Qed.

Lemma push_events_ok (out : list EventEntry) last q : queue_ok last q →
  StronglySorted Z.lt (ee_ID <$> out) → Forall (λ i, last < i) (ee_ID <$> out) →
  ∀ top, last <= top → Forall (λ i, i <= top) (ee_ID <$> out) → queue_ok top (foldl push q (WsAudit <$> out)).
Proof.
  revert last q. induction out as [|e out IH]; intros last q Hq Hs Hf top Htop Ht; simpl.
  - destruct Hq as (? & Hq & ?). split_and!; [done| |done]. eapply Forall_impl; [exact Hq|]. simpl. lia.
  - apply Forall_cons in Hf as [He Hf]. apply Forall_cons in Ht as [Het Ht]. apply StronglySorted_inv in Hs as [Hs Hes].
    apply (IH (ee_ID e)); [|done|done|done|done].
    pose proof (push_ok last q (WsAudit e) Hq) as Hp. simpl in Hp. rewrite Z.max_r in Hp by lia. apply Hp.
    destruct Hq as (_ & Hq & _). eapply Forall_impl; [exact Hq|]. simpl. lia.
Qed.

(** Polls keep every socket's rows in order and without repeats, whatever bursts
    and stalled readers there are. *)
Lemma tick_ok r b : bus_ok b → match r with Ok events => newest_first events | Err _ => True end →
  bus_ok (tick r b) ∧ lastID b <= lastID (tick r b).
Proof.
  intros Hb Hr. destruct r as [events|]; [|split; [done|simpl; lia]]. unfold tick, freshEvents.
  destruct (rev _) as [|e out] eqn:E; [split; [done|simpl; lia]|].
  set (kept := List.filter _ events) in E.
  assert (Hs : StronglySorted Z.lt (ee_ID <$> e :: out)).
  { rewrite <- E. change (ee_ID <$> rev kept) with (map ee_ID (rev kept)). rewrite map_rev. apply sorted_rev. by apply sorted_filter. }
  assert (Hgt : Forall (λ i, lastID b < i) (ee_ID <$> e :: out)).
  { apply Forall_forall. intros i (x & -> & Hx)%list_elem_of_fmap. rewrite <- E in Hx.
    apply list_elem_of_In, in_rev, filter_In in Hx as [_ Hx]. lia. }
  assert (Hlast : ee_ID (List.last out e) = List.last (map ee_ID out) (ee_ID e)).
  { clear. induction out as [|x [|y out] IH]; done. }
  pose proof (sorted_last (map ee_ID out) (ee_ID e) Hs) as Htop. rewrite <- Hlast in Htop.
  assert (Hle : lastID b <= ee_ID (List.last out e)).
  { apply Forall_cons in Htop as [H1 _]. apply Forall_cons in Hgt as [H2 _]. lia. }
  split; [|simpl; lia]. intros c q. simpl. rewrite lookup_fmap. intros (q0 & Hq0 & ->)%fmap_Some. specialize (Hb c q0 Hq0). simpl in Hb.
  unfold payloads. case_match.
  - assert (queue_ok (lastID b) (push q0 WsRefresh)) as (? & Hf & ?) by (by apply (push_ok _ _ WsRefresh)).
    simpl. split_and!; [done| |done]. eapply Forall_impl; [exact Hf|]. simpl. lia.
  - by apply (push_events_ok (e :: out) (lastID b)).
Qed.
