(* ===== verification/DashSafety.v ===== *)
(** What the dashboard promises: password guessing is bounded, and only a session
    handed out for a right password, of a user who holds the role now, reaches the
    daemon. *)
From S2P Require Import Prelude GoStrings GoUtf8 Netip NetipParse NetipShow ControlSocket DashAuth DashServer.
#[local] Open Scope Z_scope.

(** ** What a history says *)

(** The wrong passwords checked for [u] since its last right one. *)
Fixpoint fails (u : string) (h : list happened) : list time :=
  match h with
  | [] => []
  | Failed v x :: h => if decide (v = u) then x :: fails u h else fails u h
  | Passed v :: h => if decide (v = u) then [] else fails u h
  | _ :: h => fails u h
  end.

(** All wrong passwords checked, of any name but the empty one. *)
Fixpoint all_fails (h : list happened) : list time :=
  match h with
  | [] => []
  | Failed v x :: h => if decide (v = EmptyString) then all_fails h else x :: all_fails h
  | _ :: h => all_fails h
  end.

Definition handed (h : list happened) (u tok : string) : Prop := LoggedIn u tok ∈ h.

Lemma fails_calls u cs h : fails u ((Called <$> cs) ++ h) = fails u h.
Proof. by induction cs. Qed.
Lemma all_fails_calls cs h : all_fails ((Called <$> cs) ++ h) = all_fails h.
Proof. by induction cs. Qed.

Section dashboard.
Context (pbkdf2_Key : string → string → Z → nat → option string) (DecodeString : string → option string).
Notation routes := (routes pbkdf2_Key DecodeString).

(** A server's life: requests served one after the other, the users reloaded, the
    first account made. *)
Inductive reach : time → Server → Prop :=
| reach_new c w open timeout decoy salt us db : reach c (newServer pbkdf2_Key w open timeout decoy salt us db)
| reach_serve c s e rq r s' : reach c s → c <= arrived e → arrived e <= checked e → routes e rq s = (r, s') → reach (checked e) s'
| reach_users c s us : reach c s → reach c (ReloadUsers pbkdf2_Key us s)
| reach_admin c s db h : reach c s → reach c (EnsureAdmin db h s).

(** ** What a handler does to the server: calls, and sessions that only go *)
Record effect (P : SocketRequest → Prop) (s s' : Server) : Prop := {
  ef_throttle : throttle s' = throttle s;
  ef_sessions : ∀ Q, sessions_inv Q (sessions s) → sessions_inv Q (sessions s');
  ef_history : ∃ cs, history s' = (Called <$> cs) ++ history s ∧ Forall P cs
}.

Lemma effect_refl P s : effect P s s.
Proof. constructor; [done|done|by exists []]. Qed.

Lemma effect_trans P s1 s2 s3 : effect P s1 s2 → effect P s2 s3 → effect P s1 s3.
Proof.
  intros [T1 S1 (c1 & H1 & F1)] [T2 S2 (c2 & H2 & F2)]. constructor; [congruence|auto|].
  exists (c2 ++ c1). rewrite fmap_app, <- app_assoc, <- H1, <- H2. split; [done|by apply Forall_app].
Qed.

Lemma effect_mono (P Q : SocketRequest → Prop) s s' : (∀ c, P c → Q c) → effect P s s' → effect Q s s'.
Proof. intros HPQ [T S (cs & H & F)]. constructor; [done|done|]. exists cs. split; [done|]. by eapply Forall_impl. Qed.

Lemma effect_call P e c s r s' : callDaemon e c s = (r, s') → P c → effect P s s'.
Proof.
  unfold callDaemon. case_match; intros [= <- <-] Hc; [|apply effect_refl].
  constructor; [done|done|]. exists [c]. split; [done|by constructor].
Qed.

Lemma effect_sessions P s ss : (∀ Q, sessions_inv Q (sessions s) → sessions_inv Q ss) → effect P s (with_sessions ss s).
Proof. intros H. constructor; [done|done|by exists []]. Qed.

(** ** Reads *)
Definition page_verbs : list string := ["status"; "list"; "list_allow"; "events"; "metrics"]%string.
Definition is_read (c : SocketRequest) : Prop := Verb c ∈ page_verbs ∧ c = request (Verb c) EmptyString EmptyString (Limit c).

Ltac read_call := eapply effect_call; [eassumption|split; [simpl; set_solver|done]].

Lemma fetchStatus_effect e s r s' : fetchStatus e s = (r, s') → effect is_read s s'.
Proof. unfold fetchStatus. destruct (callDaemon _ _ _) eqn:E. intros [= <- <-]. read_call. Qed.
Lemma fetchBans_effect e s r s' : fetchBans e s = (r, s') → effect is_read s s'.
Proof. unfold fetchBans. destruct (callDaemon _ _ _) eqn:E. intros [= <- <-]. read_call. Qed.
Lemma fetchEventsN_effect e n s r s' : fetchEventsN e n s = (r, s') → effect is_read s s'.
Proof. unfold fetchEventsN. destruct (callDaemon _ _ _) eqn:E. intros [= <- <-]. read_call. Qed.
Lemma fetchAllows_effect e s r s' : fetchAllows e s = (r, s') → effect is_read s s'.
Proof. unfold fetchAllows. destruct (callDaemon _ _ _) eqn:E. intros [= <- <-]. read_call. Qed.

Lemma get_page_effect path action h e rq info s r s' : get_page path = Some (action, h) → h e rq info s = (r, s') → effect is_read s s'.
Proof.
  unfold get_page. repeat case_bool_decide; intros [= <- <-];
    [unfold handleStatusPage|unfold handleBansPage|unfold handleAllowlistPage|unfold handleEventsPage|unfold handleTimelinePage|
     intros [= <- <-]; apply effect_refl].
  - destruct (fetchStatus e s) as [r1 s1] eqn:E1, (fetchBans e s1) as [r2 s2] eqn:E2. intros [= <- <-].
    eapply effect_trans; [by eapply fetchStatus_effect|by eapply fetchBans_effect].
  - destruct (fetchBans e s) eqn:E. intros [= <- <-]. by eapply fetchBans_effect.
  - destruct (fetchAllows e s) eqn:E. intros [= <- <-]. by eapply fetchAllows_effect.
  - destruct (fetchEventsN e 100 s) eqn:E. intros [= <- <-]. by eapply fetchEventsN_effect.
  - destruct (fetchBans e s) as [r1 s1] eqn:E1. destruct r1 as [[|b l]|]; [intros [= <- <-]; by eapply fetchBans_effect| |intros [= <- <-]; by eapply fetchBans_effect].
    destruct (fetchEventsN e 500 s1) as [r2 s2] eqn:E2. intros [= <- <-].
    eapply effect_trans; [by eapply fetchBans_effect|by eapply fetchEventsN_effect].
Qed.

Lemma handleMetrics_effect e s r s' : handleMetrics e s = (r, s') → effect is_read s s'.
Proof.
  unfold handleMetrics. destruct (mt_allow _ _) as [ok m]. destruct (negb ok).
  - intros [= <- <-]. constructor; [done|done|by exists []].
  - destruct (callDaemon _ _ _) as [r1 s1] eqn:E. intros [= <- <-].
    apply (effect_trans _ _ (with_metrics m s)); [constructor; [done|done|by exists []]|read_call].
Qed.

(** ** Writes *)

(** The prefix a text names: a CIDR's network, or an address alone. *)
Definition names_prefix (raw : string) (p : prefix) : Prop :=
  (∃ q, ParsePrefix raw = Some q ∧ p = Masked q) ∨
  (∃ a, ParsePrefix raw = None ∧ ParseAddr raw = Some a ∧ p = Prefix (withoutZone a) (BitLen a)).

Lemma canonicalPrefix_spec raw t : canonicalPrefix raw = Some t → ∃ p, names_prefix raw p ∧ wf_prefix p ∧ t = show_prefix p ∧ ParsePrefix t = Some p.
Proof.
  unfold canonicalPrefix. destruct (ParsePrefix raw) as [q|] eqn:Eq.
  - intros [= <-]. assert (wf_prefix (Masked q)) by (apply Masked_wf; by eapply ParsePrefix_wf).
    exists (Masked q). split_and!; [left; eauto|done|done|by apply ParsePrefix_show].
  - destruct (ParseAddr raw) as [a|] eqn:Ea; [|done]. intros [= <-].
    destruct (ParseAddr_wf _ _ Ea) as [Ha Hv].
    assert (Hf : PrefixFrom a (BitLen a) = Prefix (withoutZone a) (BitLen a)) by (unfold PrefixFrom; rewrite Hv; by destruct a).
    assert (wf_prefix (Prefix (withoutZone a) (BitLen a))) by (destruct a as [|v|v z]; [done|..]; repeat split; simpl in *; try done; lia).
    rewrite Hf. exists (Prefix (withoutZone a) (BitLen a)). split_and!; [right; by exists a|done|done|by apply ParsePrefix_show].
Qed.

(** A reason as it may reach the audit log. *)
Definition reason_safe (r : string) : Prop :=
  ValidString r = true ∧ (length (runes r) ≤ 500)%nat ∧ str_forall reason_byte r = true.

(** The reason of a write: none for an unban; for a ban or an allow the tag
    [dashboard:] and the user ([admin] for a session without a name), then the
    form's text, if it has one. *)
Definition write_reason (verb user text : string) : string :=
  if decide (verb = "unban"%string) then EmptyString
  else "dashboard:" +:+ (match user with EmptyString => "admin" | _ => user end) +:+
       (match text with EmptyString => EmptyString | _ => ": " +:+ text end).

(** A write the dashboard forwards for the session [info]: its form carries the
    session's CSRF token and names the prefix and the reason's text. *)
Definition is_write (verb : string) (rq : Request) (info : sessionInfo) (c : SocketRequest) : Prop :=
  ∃ f p text, rq_form rq = Some f ∧ FormValue csrfFormField f = CSRF info ∧ CSRF info ≠ EmptyString ∧
    names_prefix (UTrimSpace (FormValue "ip" f)) p ∧ wf_prefix p ∧ ParsePrefix (rq_IP c) = Some p ∧
    text = UTrimSpace (FormValue "reason" f) ∧ reason_safe text ∧
    c = request verb (show_prefix p) (write_reason verb (Username info) text) 0.

Lemma requireCSRF_spec h e rq info s r s' : requireCSRF h e rq info s = (r, s') →
  s' = s ∨ (h e rq info s = (r, s') ∧ ∃ f, rq_form rq = Some f ∧ FormValue csrfFormField f = CSRF info ∧ CSRF info ≠ EmptyString).
Proof.
  unfold requireCSRF, checkCSRF. case_bool_decide as He; [intros [= <- <-]; by left|].
  destruct (rq_form rq) as [f|]; [|intros [= <- <-]; by left].
  case_bool_decide as Hg; [intros [= <- <-]; by left|]. case_bool_decide as Hc; [|intros [= <- <-]; by left].
  intros E. right. split; [done|]. exists f. split_and!; done.
Qed.

Lemma parseTargetForm_spec rq t reason : parseTargetForm rq = Ok (t, reason) →
  ∃ f p, rq_form rq = Some f ∧ names_prefix (UTrimSpace (FormValue "ip" f)) p ∧ wf_prefix p ∧ ParsePrefix t = Some p ∧
    t = show_prefix p ∧ reason = UTrimSpace (FormValue "reason" f) ∧ reason_safe reason.
Proof.
  unfold parseTargetForm. destruct (rq_form rq) as [f|]; [|done]. case_bool_decide; [done|].
  destruct (canonicalPrefix _) as [t'|] eqn:Ec; [|done]. destruct (validReason _) eqn:Ev; [|done]. intros [= <- <-].
  destruct (canonicalPrefix_spec _ _ Ec) as (p & Hn & Hw & -> & Hp). exists f, p. do 5 (split; [done|]).
  unfold validReason in Ev. split; [done|]. apply andb_prop in Ev as [[Hv Hl]%andb_prop Hb]. split_and!; [done|by apply Nat.leb_le|done].
Qed.

Lemma doWrite_effect P e c s r s' : doWrite e c s = (r, s') → P c → effect P s s'.
Proof. unfold doWrite. destruct (callDaemon _ _ _) eqn:E. intros [= <- <-]. by eapply effect_call. Qed.

Lemma write_post verb page done_ h e rq info s r s' (mk : string → string → SocketRequest) :
  h = requireCSRF (λ e rq info s, match parseTargetForm rq with
        | Err code => (redirectFlash page "err" code, s)
        | Ok (target, reason) => write_back page done_ (doWrite e (mk target reason) s)
        end) →
  (∀ t reason, mk t reason = request verb t (write_reason verb (Username info) reason) 0) →
  h e rq info s = (r, s') → effect (is_write verb rq info) s s'.
Proof.
  intros -> Hmk. intros [->|[E (f & Hf & Hc & Hne)]]%requireCSRF_spec; [apply effect_refl|].
  destruct (parseTargetForm rq) as [[t reason]|] eqn:Ep; [|simplify_eq; apply effect_refl].
  unfold write_back in E. destruct (doWrite _ _ _) as [o s1] eqn:Ed. simpl in E. injection E as _ <-.
  destruct (parseTargetForm_spec _ _ _ Ep) as (f' & p & Hf' & Hn & Hw & Hp & -> & Ht & Hr). assert (f' = f) as -> by congruence.
  eapply doWrite_effect; [exact Ed|]. rewrite Hmk. exists f, p, reason. by split_and!.
Qed.

(** The writes, and the role each asks for. *)
Definition write_verbs : list (string * Role) := [("ban", RoleOperator); ("unban", RoleOperator); ("allow", RoleAdmin)]%string.

Definition post_call (rq : Request) (info : sessionInfo) (need : Role) (c : SocketRequest) : Prop :=
  (Verb c, need) ∈ write_verbs ∧ is_write (Verb c) rq info c.

Lemma is_write_verb verb rq info c : is_write verb rq info c → Verb c = verb.
Proof. by intros (f & p & text & _ & _ & _ & _ & _ & _ & _ & _ & ->). Qed.

Lemma actionReasonE verb user text : verb ≠ "unban"%string → dashboardActionReason user text = write_reason verb user text.
Proof.
  intros Hv. unfold dashboardActionReason, write_reason. rewrite decide_False by done.
  destruct user, text; simpl; by rewrite ?str_app_nil_r.
Qed.

Lemma post_page_effect path action h e rq info s r s' : post_page path = Some (action, h) → h e rq info s = (r, s') →
  effect (post_call rq info (requiredRole action)) s s'.
Proof.
  unfold post_page. repeat case_bool_decide; intros [= <- <-].
  - intros [->|[E _]]%requireCSRF_spec; [apply effect_refl|]. injection E as _ <-.
    destruct (rq_cookie rq); [|apply effect_refl]. apply effect_sessions. intros Q. apply Delete_inv.
  - intros E. apply (effect_mono (is_write "ban" rq info)).
    + intros c Hc. pose proof (is_write_verb _ _ _ _ Hc) as Hv. split; rewrite Hv; [by left|done].
    + eapply (write_post _ "/dashboard/bans" "ban-queued" _ _ _ _ _ _ _ (λ t reason, request "ban" t (dashboardActionReason (Username info) reason) 0)); [done|intros ? ?; by rewrite <- actionReasonE|exact E].
  - intros E. apply (effect_mono (is_write "unban" rq info)).
    + intros c Hc. pose proof (is_write_verb _ _ _ _ Hc) as Hv. split; rewrite Hv; [by right; left|done].
    + eapply (write_post _ "/dashboard/bans" "unban-queued" _ _ _ _ _ _ _ (λ t _, request "unban" t EmptyString 0)); [done|done|exact E].
  - intros E. apply (effect_mono (is_write "allow" rq info)).
    + intros c Hc. pose proof (is_write_verb _ _ _ _ Hc) as Hv. split; rewrite Hv; [by right; right; left|done].
    + eapply (write_post _ "/dashboard/allowlist" "allow-added" _ _ _ _ _ _ _ (λ t reason, request "allow" t (dashboardActionReason (Username info) reason) 0)); [done|intros ? ?; by rewrite <- actionReasonE|exact E].
Qed.

(** ** The gates *)

(** The role a name holds now: that of the first configured user of the name, or,
    when no configured user has it, an administrator's if the database has an
    account of that name. *)
Definition holds (e : env) (s : Server) (u : string) (role : Role) : Prop :=
  (∃ pre x post, users s = pre ++ x :: post ∧ Forall (λ y, u_name y ≠ u) pre ∧ u_name x = u ∧ u_role x = role) ∨
  (Forall (λ y, u_name y ≠ u) (users s) ∧ db_ok e = true ∧ is_Some (admins s !! u) ∧ role = RoleAdmin).

Lemma find_user (us : list rbacUser) u : match List.find (λ x, bool_decide (u_name x = u)) us with
  | Some x => ∃ pre post, us = pre ++ x :: post ∧ Forall (λ y, u_name y ≠ u) pre ∧ u_name x = u
  | None => Forall (λ y, u_name y ≠ u) us
  end.
Proof.
  induction us as [|x us IH]; simpl; [done|]. case_bool_decide as Hx; [by exists [], us|].
  destruct (List.find _ us) as [y|]; [|by constructor]. destruct IH as (pre & post & -> & Hp & Hy).
  exists (x :: pre), post. split_and!; [done|by constructor|done].
Qed.

Lemma roleFor_holds e u s role : roleFor e u s = Some role → holds e s u role.
Proof.
  unfold roleFor, roleOf, holds, getAdminHash. pose proof (find_user (users s) u) as Hf. destruct (List.find _ _) as [x|]; simpl.
  - intros [= <-]. left. destruct Hf as (pre & post & ? & ? & ?). by exists pre, x, post.
  - intros H. right. split; [done|]. destruct (db_ok e); [|done]. destruct (admins s !! u); [|done]. by simplify_eq.
Qed.

(** The session a request shows, and the role its user holds now. *)
Definition session_of (e : env) (rq : Request) (s : Server) (info : sessionInfo) (role : Role) : Prop :=
  ∃ tok ent, rq_cookie rq = Some tok ∧ entries (sessions s) !! tok = Some ent ∧ arrived e < expiresAt ent ∧
    info = MkInfo (username ent) (csrf ent) ∧ handed (history s) (username ent) tok ∧ holds e s (username ent) role.

Lemma requireRole_effect action (h : handler) (P : sessionInfo → SocketRequest → Prop) e rq s r s' :
  sessions_inv (handed (history s)) (sessions s) →
  (∀ info s1 r s2, h e rq info s1 = (r, s2) → effect (P info) s1 s2) →
  requireRole action h e rq s = (r, s') →
  effect (λ c, ∃ info role, session_of e rq s info role ∧ rank (requiredRole action) <= rank role ∧ P info c) s s'.
Proof.
  intros Hs Hh. unfold requireRole, requireAuth. destruct (rq_cookie rq) as [tok|] eqn:Ec; [|intros [= <- <-]; apply effect_refl].
  destruct (Lookup (arrived e) tok (sessions s)) as [info ss] eqn:El.
  assert (Hss : ∀ P, effect P s (with_sessions ss s)).
  { intros P'. apply effect_sessions. intros Q HQ. by destruct (Lookup_spec Q _ _ _ _ _ HQ El). }
  destruct (Lookup_spec _ _ _ _ _ _ Hs El) as [_ Hinfo].
  destruct info as [info|]; [|intros [= <- <-]; apply Hss].
  destruct Hinfo as (ent & Hent & -> & Hexp & Hhand). cbn [Username CSRF].
  change (roleFor e (username ent) (with_sessions ss s)) with (roleFor e (username ent) s).
  destruct (roleFor e (username ent) s) as [role|] eqn:Er.
  2: { intros [= <- <-]. eapply effect_trans; [apply Hss|]. apply effect_sessions. intros Q. apply Delete_inv. }
  destruct (Z.ltb_spec (rank role) (rank (requiredRole action))) as [|Hrank].
  - intros [= <- <-]. eapply effect_trans; [apply Hss|]. unfold auditDenied. destruct (db_ok e); [|apply effect_refl].
    constructor; [done|done|by exists []].
  - intros E. eapply effect_trans; [apply Hss|]. eapply effect_mono; [|by eapply Hh]. simpl. intros c Hc.
    exists (MkInfo (username ent) (csrf ent)), role. split; [|by split]. exists tok, ent. split_and!; try done. by apply roleFor_holds.
Qed.

(** ** What may happen while a request is served *)

(** The credentials of a login: a provisioned user's token, or the password of
    the database's account (of the decoy, when there is none). *)
Definition proved (s : Server) (u pw : string) : Prop :=
  (∃ w, authenticate pbkdf2_Key (salt s) (users s) u pw = Some w) ∨
  ∃ hash, (admins s !! u = Some hash ∨ admins s !! u = None ∧ hash = decoyHash s) ∧ verifyPassword pbkdf2_Key DecodeString hash pw = true.

Definition login_of (rq : Request) (u pw : string) : Prop :=
  Method rq = POST ∧ Path rq = "/login"%string ∧ ∃ f, rq_form rq = Some f ∧
    u = UTrimSpace (FormValue "username" f) ∧ pw = FormValue "password" f ∧ (str_len u ≤ maxLoginUsernameLen)%nat.

(** A daemon call is a read for a live session whose user holds a role (or the
    metrics, when they are open), or a write for one with the role it asks for
    and the session's CSRF token. *)
Definition warranted_call (e : env) (rq : Request) (s : Server) (c : SocketRequest) : Prop :=
  (MetricsOpen s = true ∧ Path rq = "/metrics"%string ∧ is_read c) ∨
  ∃ info role, session_of e rq s info role ∧
    (is_read c ∨ Method rq = POST ∧ ∃ need, rank need <= rank role ∧ post_call rq info need c).

Definition warranted (e : env) (rq : Request) (s : Server) (h : happened) : Prop :=
  match h with
  | Called c => warranted_call e rq s c
  | LoggedIn u tok => ∃ pw csrfTok, login_of rq u pw ∧ proved s u pw ∧ rand_tokens e = Some (tok, csrfTok)
  | Passed u => ∃ pw, login_of rq u pw ∧ proved s u pw
  | Failed u x => x = checked e ∧ ∃ pw, login_of rq u pw ∧ ¬ proved s u pw
  end.

(** Everything but a login. *)
Lemma routes_effect e rq s r s' : sessions_inv (handed (history s)) (sessions s) →
  ¬ (Method rq = POST ∧ Path rq = "/login"%string) → routes e rq s = (r, s') → effect (warranted_call e rq s) s s'.
Proof.
  intros Hs Hnl. unfold DashServer.routes. destruct (is_get (Method rq)).
  - case_bool_decide; [intros [= <- <-]; apply effect_refl|].
    case_bool_decide as Hm.
    + destruct (MetricsOpen s) eqn:Eo.
      * intros E. eapply effect_mono; [|by eapply handleMetrics_effect]. intros c Hc. left. done.
      * intros E. eapply effect_mono; [|eapply (requireRole_effect _ _ (λ _, is_read)); [done| |exact E]].
        { intros c (info & role & Hso & _ & Hc). right. exists info, role. split; [done|by left]. }
        intros info s1 r1 s2. apply handleMetrics_effect.
    + destruct (get_page (Path rq)) as [[action h]|] eqn:Eg; intros E;
        (eapply effect_mono; [|eapply (requireRole_effect _ _ (λ _, is_read)); [done| |exact E]];
         [intros c (info & role & Hso & _ & Hc); right; exists info, role; split; [done|by left]|]).
      * intros info s1 r1 s2. by eapply get_page_effect.
      * intros info s1 r1 s2 [= <- <-]. apply effect_refl.
  - case_bool_decide as Hp; [|intros [= <- <-]; apply effect_refl].
    case_bool_decide; [tauto|].
    destruct (post_page (Path rq)) as [[action h]|] eqn:Eg; [|intros [= <- <-]; apply effect_refl].
    intros E. eapply effect_mono; [|eapply (requireRole_effect _ _ (λ info, post_call rq info (requiredRole action))); [done| |exact E]].
    + intros c (info & role & Hso & Hr & Hc). right. exists info, role. split; [done|]. right. eauto.
    + intros info s1 r1 s2. by eapply post_page_effect.
Qed.

(** ** Login *)
Lemma authenticate_name slt us u pw w : authenticate pbkdf2_Key slt us u pw = Some w → u_name w = u.
Proof.
  unfold authenticate. destruct (deriveTokenDigest _ _ _) as [d|]; [|done].
  assert (∀ m, (∀ w, m = Some w → u_name w = u) → ∀ w,
    foldl (λ m x, if bool_decide (tokenDigest x = Some d) && bool_decide (u_name x = u) then Some x else m) m us = Some w → u_name w = u); [|by apply (H None)].
  induction us as [|x us IH]; simpl; intros m Hm v; [apply Hm|]. apply IH. intros y.
  destruct (bool_decide (tokenDigest x = Some d)); simpl; [|apply Hm]. case_bool_decide; [by intros [= <-]|apply Hm].
Qed.

Inductive login_step (e : env) (rq : Request) (s : Server) : Server → Prop :=
| login_same : login_step e rq s s
| login_turned u ok t : Allow (arrived e) u (throttle s) = (ok, t) → login_step e rq s (with_throttle t s)
| login_wrong u pw t : login_of rq u pw → Allow (arrived e) u (throttle s) = (true, t) → ¬ proved s u pw →
    login_step e rq s (note (Failed u (checked e)) (with_throttle (RecordFailure (checked e) u t) s))
| login_right u pw t : login_of rq u pw → Allow (arrived e) u (throttle s) = (true, t) → proved s u pw →
    login_step e rq s (cleared u (with_throttle t s))
| login_session u pw t tok c : login_of rq u pw → Allow (arrived e) u (throttle s) = (true, t) → proved s u pw →
    rand_tokens e = Some (tok, c) →
    login_step e rq s (note (LoggedIn u tok) (with_sessions (Create (checked e) tok c u (sessions s)) (cleared u (with_throttle t s)))).

Lemma login_cases e rq s r s' : Method rq = POST → Path rq = "/login"%string →
  handleLoginPost pbkdf2_Key DecodeString e rq s = (r, s') → login_step e rq s s'.
Proof.
  intros Hm Hp. unfold handleLoginPost. destruct (rq_form rq) as [f|] eqn:Ef; [|intros [= <- <-]; apply login_same].
  set (u := UTrimSpace (FormValue "username" f)). set (pw := FormValue "password" f).
  destruct (Nat.ltb_spec maxLoginUsernameLen (str_len u)) as [|Hlen]; [intros [= <- <-]; apply login_same|].
  assert (Hl : login_of rq u pw) by (split_and!; [done..|]; by exists f).
  destruct (Allow (arrived e) u (throttle s)) as [ok t] eqn:Ea. destruct ok; simpl; [|intros [= <- <-]; by eapply login_turned].
  assert (Hgo : proved s u pw → ∀ r s', createSessionAndRedirect e u (cleared u (with_throttle t s)) = (r, s') → login_step e rq s s').
  { intros Hpr r1 s1. unfold createSessionAndRedirect. destruct (rand_tokens e) as [[tok c]|] eqn:Et; intros [= <- <-].
    - by eapply login_session.
    - by eapply login_right. }
  destruct (authenticate _ _ _ _ _) as [w|] eqn:Eau.
  - rewrite (authenticate_name _ _ _ _ _ Eau). apply Hgo. left. by exists w.
  - assert (Hno : ∀ hash, (admins s !! u = Some hash ∨ admins s !! u = None ∧ hash = decoyHash s) → verifyPassword pbkdf2_Key DecodeString hash pw = false → ¬ proved s u pw).
    { intros hash Hh Hv [[w Hw]|(h & Hh' & Hv')]; [congruence|]. assert (h = hash) as -> by naive_solver congruence. congruence. }
    unfold getAdminHash. destruct (db_ok e); [|intros [= <- <-]; by eapply login_turned]. simpl.
    assert (Hend : ∀ hash, (admins s !! u = Some hash ∨ admins s !! u = None ∧ hash = decoyHash s) →
      (if verifyPassword pbkdf2_Key DecodeString hash pw then createSessionAndRedirect e u (cleared u (with_throttle t s))
       else (LoginForm 401 "Invalid credentials.", note (Failed u (checked e)) (with_throttle (RecordFailure (checked e) u t) (with_throttle t s)))) = (r, s') →
      login_step e rq s s').
    { intros hash Hh. destruct (verifyPassword _ _ _ _) eqn:Ev; [apply Hgo; right; eauto|].
      intros [= <- <-]. apply (login_wrong e rq s u pw t); [done|done|by apply (Hno hash)]. }
    destruct (admins s !! u) as [hash|] eqn:Ead; apply Hend; eauto.
Qed.

(** ** The invariant *)
Record invariant (now : time) (s : Server) : Prop := {
  in_throttle : throttle_inv now (throttle s) (λ u, fails u (history s)) (all_fails (history s));
  in_past : ∀ u x, Failed u x ∈ history s → x <= now;
  in_names : ∀ u t, u ≠ EmptyString → (in_minute t (fails u (history s)) ≤ throttleMaxFailures)%nat;
  in_all : ∀ t, (in_minute t (all_fails (history s)) ≤ throttleGlobalMax)%nat;
  in_sessions : sessions_inv (handed (history s)) (sessions s)
}.

Lemma fails_in u x h : x ∈ fails u h → Failed u x ∈ h.
Proof.
  induction h as [|[c|v y|v|v tok] h IH]; simpl; try (intros Hx; right; by auto); [set_solver| |].
  - case_decide as Hv; [subst v|intros; right; auto]. rewrite elem_of_cons. intros [->|]; [left|right; auto].
  - case_decide; [set_solver|]. intros; right; auto.
Qed.

Lemma handed_app new h u tok : handed h u tok → handed (new ++ h) u tok.
Proof. unfold handed. set_solver. Qed.

Lemma effect_inv P now s s' : invariant now s → effect P s s' → invariant now s'.
Proof.
  intros [Ht Hp Hn Ha Hs] [Et Es (cs & Eh & _)]. constructor; rewrite ?Eh.
  - rewrite Et, all_fails_calls. destruct Ht. constructor; try done. intros u Hu. rewrite fails_calls. auto.
  - intros u x. rewrite elem_of_app, list_elem_of_fmap. intros [(c & ? & _)|]; [done|eauto].
  - intros u t Hu. rewrite fails_calls. auto.
  - intros t. rewrite all_fails_calls. auto.
  - apply (sessions_mono (handed (history s))); [intros; by apply handed_app|by apply Es].
Qed.

Lemma throttle_ext now t f g all : (∀ u, u ≠ EmptyString → f u = g u) → throttle_inv now t f all → throttle_inv now t g all.
Proof. intros Hfg []. constructor; try done. intros u Hu. rewrite <- Hfg by done. auto. Qed.

Lemma invariant_later now now' s : now <= now' → invariant now s → invariant now' s.
Proof. intros Hle []. constructor; [by eapply throttle_later|intros u x Hx; specialize (in_past0 u x Hx); lia|done..]. Qed.

Lemma turned_inv now s t u ok : invariant now s → Allow now u (throttle s) = (ok, t) → invariant now (with_throttle t s).
Proof. intros [Ht Hp Hn Ha Hs] E. destruct (Allow_inv _ _ _ _ _ _ _ Ht E). constructor; done. Qed.

Lemma cleared_inv now s u : invariant now s → invariant now (cleared u s).
Proof.
  intros [Ht Hp Hn Ha Hs]. constructor; simpl.
  - eapply throttle_ext; [|apply Clear_inv, Ht]. done.
  - intros v x. rewrite elem_of_cons. intros [?|]; [done|eauto].
  - intros v t Hv. case_decide; [apply Nat.le_0_l|auto].
  - done.
  - eapply sessions_mono; [|exact Hs]. intros. by right.
Qed.

Lemma session_inv now s at_ u tok c : invariant now s →
  invariant now (note (LoggedIn u tok) (with_sessions (Create at_ tok c u (sessions s)) s)).
Proof.
  intros [Ht Hp Hn Ha Hs]. constructor; simpl; try done.
  - intros v x. rewrite elem_of_cons. intros [?|]; [done|eauto].
  - apply Create_inv; [by left|]. eapply sessions_mono; [|exact Hs]. intros. by right.
Qed.

Lemma failed_inv now s u : invariant now s →
  (u ≠ EmptyString → lockedUntil (record_of (throttle s) u) = None ∧ (length (globalStamps (throttle s)) < throttleGlobalMax)%nat) →
  invariant now (note (Failed u now) (with_throttle (RecordFailure now u (throttle s)) s)).
Proof.
  intros [Ht Hp Hn Ha Hs] Hroom.
  assert (Hs' : sessions_inv (handed (Failed u now :: history s)) (sessions s)) by (eapply sessions_mono; [|exact Hs]; intros; by right).
  assert (Hp' : ∀ v x, Failed v x ∈ Failed u now :: history s → x <= now).
  { intros v x. rewrite elem_of_cons. intros [[= -> ->]|]; [lia|eauto]. }
  destruct (decide (u = EmptyString)) as [->|Hu].
  - constructor; simpl; try done.
    eapply throttle_ext; [|exact Ht]. intros v Hv. by rewrite decide_False.
    intros v t Hv. rewrite decide_False by done. auto.
  - destruct (Hroom Hu) as [Hopen Hg].
    destruct (RecordFailure_inv now u _ _ _ Hu Ht) as (Ht' & H5 & H100); [|done|done|].
    { apply Forall_forall. intros x Hx. eapply Hp, fails_in, Hx. }
    constructor; simpl; try done; rewrite ?decide_False by done; [done| |].
    + intros v t Hv. case_decide as Huv; [subst v|auto]. destruct (Z.le_gt_cases now t).
      * by apply (in_minute_later _ _ _ now).
      * rewrite in_minute_before by done. auto.
    + intros t. destruct (Z.le_gt_cases now t).
      * by apply (in_minute_later _ _ _ now).
      * rewrite in_minute_before by done. auto.
Qed.

Lemma login_inv e rq s s' : invariant (arrived e) s → arrived e <= checked e → login_step e rq s s' → invariant (checked e) s'.
Proof.
  intros Hi Hle Hstep. destruct Hstep as [|u ok t Ha|u pw t Hl Ha Hp|u pw t Hl Ha Hp|u pw t tok c Hl Ha Hp Hr].
  - by eapply invariant_later.
  - eapply invariant_later, turned_inv; done.
  - apply (failed_inv _ (with_throttle t s)).
    + eapply invariant_later, turned_inv; done.
    + intros Hu. by apply (proj2 (Allow_inv _ _ _ _ _ _ _ (in_throttle _ _ Hi) Ha)).
  - apply cleared_inv. eapply invariant_later, turned_inv; done.
  - apply (session_inv _ (cleared u (with_throttle t s))), cleared_inv. eapply invariant_later, turned_inv; done.
Qed.

Lemma routes_login e rq s r s' : Method rq = POST → Path rq = "/login"%string → routes e rq s = (r, s') → login_step e rq s s'.
Proof. intros Hm Hp. unfold DashServer.routes. rewrite Hm, Hp. simpl. by apply login_cases. Qed.

Lemma reach_inv now s : reach now s → invariant now s.
Proof.
  induction 1 as [c w open timeout decoy slt us db|c s e rq r s' _ IH Hc Hle E|c s us _ IH|c s db h _ IH].
  - constructor; simpl; try done; [apply new_throttle|by intros ? ? ?%elem_of_nil|intros; apply Nat.le_0_l|intros; apply Nat.le_0_l|apply new_sessions].
  - assert (invariant (arrived e) s) by (by eapply invariant_later).
    destruct (decide (Method rq = POST ∧ Path rq = "/login"%string)) as [[Hm Hp]|Hnl].
    + eapply login_inv; [done|done|by eapply routes_login].
    + eapply invariant_later; [done|]. eapply effect_inv; [done|]. eapply routes_effect; [apply (in_sessions (arrived e)); done|done|done].
  - destruct IH. by constructor.
  - destruct IH. unfold EnsureAdmin. case_match; [|by constructor]. destruct h; by constructor.
Qed.

(** C19. Guessing a dashboard password is bounded: in any history of requests
    served one after the other, whatever they ask for, at most five wrong
    passwords are checked for one non-empty user name in any minute since its
    last right one, and at most a hundred over all non-empty names; attempts
    without a name are outside both bounds, and never counted. *)
Theorem guessing_bounded now s (Hreach : reach now s) :
  (∀ u t, u ≠ EmptyString → (in_minute t (fails u (history s)) ≤ 5)%nat) ∧ (∀ t, (in_minute t (all_fails (history s)) ≤ 100)%nat).
Proof. destruct (reach_inv _ _ Hreach) as [_ _ Hn Ha _]. by split. Qed.

End dashboard.

(** ** What the throttle does not stop *)

(** Attempts that arrive before the first is judged are all let in: the check and
    the count are apart. *)
Lemma concurrent_guesses now u n : fst <$> (List.seq 0 n ≫= λ _, [Allow now u newLoginThrottle]) = replicate n true.
Proof.
  assert (fst (Allow now u newLoginThrottle) = true) as H.
  { unfold Allow. case_bool_decide; [done|]. simpl. by rewrite lookup_empty. }
  generalize 0%nat. induction n as [|n IH]; intros k; [done|]. cbn [List.seq mbind list_bind]. rewrite fmap_app. simpl. by rewrite H, IH.
Qed.

(** The empty name is never turned away and never counted. *)
Lemma empty_name_unthrottled now t : Allow now EmptyString t = (true, t) ∧ RecordFailure now EmptyString t = t.
Proof. done. Qed.

(** A user removed from the configuration whose name the database's account has
    is an administrator from then on. *)
Lemma removed_user_promoted kdf e s h : db_ok e = true → admins s !! "admin"%string = Some h →
  roleFor e "admin" (ReloadUsers kdf [] s) = Some RoleAdmin.
Proof. intros Hd Ha. unfold roleFor, getAdminHash. simpl. by rewrite Hd, Ha. Qed.

(** ** Witnesses *)
Definition w_kdf (pw slt : string) (n : Z) (k : nat) : option string := Some (slt +:+ pw).
Definition w_env (t : time) : env :=
  MkEnv t (t + 1) (Some ("tok", "csrf")%string) true (λ _, Ok DNothing).
Definition w_post (path : string) (cookie : option string) (f : list (string * string)) : Request :=
  MkRq POST path cookie ∅ (Some (list_to_map f)).
Definition w_login (pw : string) : Request := w_post "/login" None [("username", " alice"); ("password", pw)]%string.
Definition w_server : Server :=
  newServer w_kdf true false 0 "x" (Some "salt"%string) [MkAuthUser "alice" "operator" "secret"] ∅.
Definition w_serve (s : Server) (p : time * Request) : Server := (routes w_kdf Some (w_env p.1) p.2 s).2.

Lemma w_reach now s p : reach w_kdf Some now s → now <= p.1 → reach w_kdf Some (p.1 + 1) (w_serve s p).
Proof.
  intros H Hle. unfold w_serve. destruct (routes w_kdf Some (w_env p.1) p.2 s) as [r s'] eqn:E.
  refine (reach_serve _ _ now s (w_env p.1) p.2 r s' H Hle _ E). simpl. lia.
Qed.

Definition w_ban : Request :=
  w_post "/dashboard/ban" (Some "tok"%string) [("csrf_token", "csrf"); ("ip", "203.0.113.9/24"); ("reason", "noisy")]%string.

(** Five wrong passwords in five seconds are counted, the sixth is turned away. *)
Lemma guessing_bounded_witness :
  ∃ now s, reach w_kdf Some now s ∧ length (fails "alice" (history s)) = 5%nat ∧
    (routes w_kdf Some (w_env (10 * Second)) (w_login "guess") s).1 = LoginForm 429 "Too many failed attempts. Try again in a minute." ∧
    (in_minute now (fails "alice" (history s)) ≤ 5)%nat.
Proof.
  set (s := foldl w_serve w_server [(0, w_login "a"); (Second, w_login "b"); (2 * Second, w_login "c"); (3 * Second, w_login "d"); (4 * Second, w_login "e")]).
  assert (Hr : reach w_kdf Some (4 * Second + 1) s).
  { subst s. cbn [foldl]. apply (w_reach (3 * Second + 1) _ (4 * Second, w_login "e")); [|vm_compute; congruence].
    apply (w_reach (2 * Second + 1) _ (3 * Second, w_login "d")); [|vm_compute; congruence].
    apply (w_reach (Second + 1) _ (2 * Second, w_login "c")); [|vm_compute; congruence].
    apply (w_reach (0 + 1) _ (Second, w_login "b")); [|vm_compute; congruence].
    apply (w_reach 0 _ (0, w_login "a")); [apply reach_new|simpl; lia]. }
  exists (4 * Second + 1), s. split; [exact Hr|]. split; [vm_compute; reflexivity|]. split; [vm_compute; reflexivity|].
  exact (proj1 (guessing_bounded w_kdf Some _ s Hr) "alice"%string (4 * Second + 1) ltac:(discriminate)).
Defined.

