(* ===== verification/Siem.v ===== *)
(** Audit events for a SIEM ([internal/siem]): the CEF and RFC 5424 formatters
    ([event.go], [severity.go], [cef.go], [rfc5424.go]), readers that honour the
    formats' escapes, and the forwarding queues ([transport.go]).  The JSON
    formatter is left out; sockets and files are the answers of each write.
    Seconds of a TTL are whole ones rounded towards zero (Go goes through a float,
    exact below 48 days). *)
From Stdlib Require Import Ascii.
From S2P Require Import Prelude GoStrings GoUtf8 Netip NetipParse NetipShow Rfc3339 GoNet Config.
#[local] Open Scope Z_scope.

(** ** Events *)
Definition maxFieldLen : nat := 512.
Definition defaultVendor : string := "ezy".
Definition defaultProduct : string := "EzyShield".
Definition defaultVersion : string := "unknown".

(** [Time] is [None] for Go's zero time. *)
Record Event := MkEvent {
  Time : option time; Action : string; IP : addr; Rule : string; Score : Z; Strike : Z; TTL : duration;
  Actor : string; Node : string; Product : string; Vendor : string; Version : string
}.

Definition orDefault (s def : string) : string := if bool_decide (s = EmptyString) then def else s.
Definition vendor (e : Event) : string := orDefault (Vendor e) defaultVendor.
Definition product (e : Event) : string := orDefault (Product e) defaultProduct.
Definition version (e : Event) : string := orDefault (Version e) defaultVersion.
Definition ipString (e : Event) : string := if IsValid (IP e) then show_addr (IP e) else EmptyString.

(** The cut goes back to the start of a rune. *)
Fixpoint cut_point (n : nat) (s : string) : nat :=
  match n with
  | O => O
  | S m => match String.get n s with Some a => if cont (byte a) then cut_point m s else n | None => n end
  end.
Definition capField (s : string) : string := if (str_len s <=? maxFieldLen)%nat then s else str_take (cut_point maxFieldLen s) s.

Definition rfc3339UTC (t : option time) : string := match t with None => EmptyString | Some t => FormatRFC3339 t end.

(** ** Severity *)
Inductive sevTier := sevInfo | sevLow | sevMedium | sevHigh | sevCritical.
Definition one_of (s : string) (l : list string) : bool := existsb (λ x, bool_decide (x = s)) l.
Definition tier (e : Event) : sevTier :=
  if one_of (Action e) ["ban"%string] then if 5 <=? Strike e then sevCritical else if 3 <=? Strike e then sevHigh else sevMedium
  else if one_of (Action e) ["dry_ban"; "notify_only"]%string then sevLow
  else if one_of (Action e) ["unban"; "expire"; "allow"; "allow_expire"; "arm"; "disarm"; "arm_revert"]%string then sevInfo
  else sevLow.
Definition cefSeverity (e : Event) : Z :=
  match tier e with sevCritical => 10 | sevHigh => 8 | sevMedium => 6 | sevLow => 4 | sevInfo => 2 end.
Definition syslogSeverity (e : Event) : Z :=
  match tier e with sevCritical => 2 | sevHigh => 3 | sevMedium => 4 | sevLow => 5 | sevInfo => 6 end.

(** ** Escaping: what is written for each rune *)
Definition is_control (r : Z) : bool := (r <? 0x20) || (r =? 0x7f).
Definition backslash : string := str1 0x5c.
Definition cef_rune (meta : Z) (r : Z) : string :=
  if r =? 0x5c then backslash +:+ backslash
  else if r =? meta then backslash +:+ str1 meta
  else if r =? 10 then backslash +:+ "n"
  else if r =? 13 then backslash +:+ "r"
  else if is_control r then " " else encode r.
Definition sd_rune (r : Z) : string :=
  if r =? 0x5c then backslash +:+ backslash
  else if r =? 0x22 then backslash +:+ str1 0x22
  else if r =? 0x5d then backslash +:+ "]"
  else if is_control r then " " else encode r.
Definition strip_rune (r : Z) : string := if is_control r then " " else encode r.

Fixpoint write_runes (f : Z → string) (rs : list Z) : string := match rs with [] => EmptyString | r :: rs => f r +:+ write_runes f rs end.
Definition cefEscapeHeader (s : string) : string := write_runes (cef_rune 0x7c) (runes s).
Definition cefEscapeExtension (s : string) : string := write_runes (cef_rune 0x3d) (runes s).
Definition sdEscape (s : string) : string := write_runes sd_rune (runes s).
Definition stripControls (s : string) : string := write_runes strip_rune (runes s).

(** ** CEF *)
Definition cefSignatureID (e : Event) : string := orDefault (Action e) "unknown".

Definition cef_names : list (string * string) :=
  [("ban", "IP banned"); ("dry_ban", "IP ban simulated"); ("unban", "IP unbanned"); ("expire", "Ban expired");
   ("allow", "IP allowlisted"); ("allow_expire", "Allowlist entry expired"); ("notify_only", "Threat noticed (no ban)");
   ("arm", "Enforcement armed"); ("disarm", "Enforcement disarmed"); ("arm_revert", "Enforcement auto-reverted")]%string.
Definition cefName (e : Event) : string :=
  match List.find (λ p, bool_decide (p.1 = Action e)) cef_names with
  | Some p => p.2
  | None => orDefault (Action e) "EzyShield event"
  end.

Definition opt_field (k l v : string) : list (string * string) :=
  if bool_decide (v = EmptyString) then [] else [(k +:+ "Label", l); (k, capField v)].

(** The extension's keys and values, in order. *)
Definition cef_fields (e : Event) : list (string * string) :=
  (if bool_decide (ipString e = EmptyString) then [] else [("src", ipString e)]) ++
  [("act", capField (Action e))] ++
  match Time e with None => [] | Some t => [("rt", show_Z (t `div` Millisecond))] end ++
  opt_field "cs1" "rule" (Rule e) ++ opt_field "cs2" "actor" (Actor e) ++
  [("cn1Label", "score"); ("cn1", show_Z (Score e)); ("cn2Label", "strike"); ("cn2", show_Z (Strike e));
   ("cn3Label", "ttlSeconds"); ("cn3", show_Z (dur_seconds (TTL e)))] ++
  (if bool_decide (Node e = EmptyString) then [] else [("dvchost", capField (Node e))]).

Definition cef_ext (fields : list (string * string)) : string :=
  Join ((λ p, p.1 +:+ "=" +:+ cefEscapeExtension p.2) <$> fields) " ".

Definition cef_header (e : Event) : list string :=
  [vendor e; product e; version e; cefSignatureID e; cefName e].

Definition FormatCEF (e : Event) : string :=
  Join (["CEF:0"] ++ ((λ s, cefEscapeHeader (capField s)) <$> cef_header e) ++ [show_Z (cefSeverity e)]) "|" +:+ "|" +:+ cef_ext (cef_fields e).

(** ** RFC 5424 *)
Definition facilityLocal0 : Z := 16.
Definition sdID : string := "ezyShield@32473".
Definition maxHostname : nat := 255.
Definition maxAppName : nat := 48.
Definition maxMsgID : nat := 32.

Definition token_rune (r : Z) : bool := (0x20 <? r) && (r <? 0x7f).
Definition syslogToken (s : string) (max : nat) : string :=
  match take max (List.filter token_rune (runes s)) with [] => "-" | rs => encode_all rs end.

Definition sd_params (e : Event) : list (string * string) :=
  [("action", capField (Action e))] ++
  (if bool_decide (ipString e = EmptyString) then [] else [("ip", ipString e)]) ++
  (if bool_decide (Rule e = EmptyString) then [] else [("rule", capField (Rule e))]) ++
  (if bool_decide (Actor e = EmptyString) then [] else [("actor", capField (Actor e))]) ++
  [("score", show_Z (Score e)); ("strike", show_Z (Strike e)); ("ttlSeconds", show_Z (dur_seconds (TTL e)))] ++
  (if bool_decide (Node e = EmptyString) then [] else [("node", capField (Node e))]).

Definition quote : string := str1 0x22.
Fixpoint write_params (l : list (string * string)) : string :=
  match l with
  | [] => "]"
  | (k, v) :: l => " " +:+ k +:+ "=" +:+ quote +:+ sdEscape v +:+ quote +:+ write_params l
  end.
Definition write_sd (l : list (string * string)) : string := "[" +:+ sdID +:+ write_params l.

Definition syslogMSG (e : Event) : string :=
  let parts := [orDefault (Action e) "event"] ++
    (if bool_decide (ipString e = EmptyString) then [] else [ipString e]) ++
    (if bool_decide (Rule e = EmptyString) then [] else ["rule=" +:+ Rule e]) in
  capField (stripControls (Join parts " ")).

Definition syslog_header (e : Event) : list string :=
  ["<" +:+ show_Z (facilityLocal0 * 8 + syslogSeverity e) +:+ ">1"; orDefault (rfc3339UTC (Time e)) "-";
   syslogToken (Node e) maxHostname; syslogToken (product e) maxAppName; "-"; syslogToken (Action e) maxMsgID].

Definition FormatRFC5424 (e : Event) : string :=
  let line := Join (syslog_header e ++ [write_sd (sd_params e)]) " " in
  let msg := syslogMSG e in
  if bool_decide (msg = EmptyString) then line else line +:+ " " +:+ msg.

Definition hostile : Event :=
  MkEvent (Some 0) "ban" (Addr4 0x01020304) ("a=b|c" +:+ str1 10 +:+ "d\ e") 90 5 (90 * Second + 5) "x" "n ode" EmptyString EmptyString EmptyString.
Example cef_hostile : FormatCEF hostile =
  "CEF:0|ezy|EzyShield|unknown|ban|IP banned|10|src=1.2.3.4 act=ban rt=0 cs1Label=rule cs1=a\=b|c\nd\\ e cs2Label=actor cs2=x cn1Label=score cn1=90 cn2Label=strike cn2=5 cn3Label=ttlSeconds cn3=90 dvchost=n ode"%string.
Proof. vm_compute. reflexivity. Qed.

(** * Reading back

    A SIEM reads exactly the fields that were written: hostile text can neither
    forge a line nor leave its field. *)

(** ** Reading back *)

(** A text with its control characters blanked (line ends apart, in CEF). *)
Definition cef_clean_rune (r : Z) : string := if (r =? 10) || (r =? 13) then str1 r else strip_rune r.
Definition cef_clean (s : string) : string := write_runes cef_clean_rune (runes s).

#[local] Notation bs := "\"%char.

(** Split at the separators no backslash stands before. *)
Fixpoint split_free (sep : ascii) (s : string) : list string :=
  match s with
  | EmptyString => [EmptyString]
  | String a t =>
    if bool_decide (a = sep) then EmptyString :: split_free sep t
    else if bool_decide (a = bs) then
      match t with
      | EmptyString => [String a EmptyString]
      | String b u => match split_free sep u with w :: ws => String a (String b w) :: ws | [] => [] end
      end
    else match split_free sep t with w :: ws => String a w :: ws | [] => [] end
  end.

(** What an escape stands for. *)
Fixpoint decode (meta : ascii) (s : string) : option string :=
  match s with
  | EmptyString => Some EmptyString
  | String a t =>
    if bool_decide (a = bs) then
      match t with
      | EmptyString => None
      | String b u =>
        if bool_decide (b = bs ∨ b = meta) then String b <$> decode meta u
        else if bool_decide (b = "n"%char) then String (chr 10) <$> decode meta u
        else if bool_decide (b = "r"%char) then String (chr 13) <$> decode meta u
        else None
      end
    else String a <$> decode meta t
  end.

Fixpoint read_values (key : string) (segs : list string) : option (list (string * string)) :=
  match segs with
  | [] => None
  | [v] => dv ← decode "=" v; Some [(key, dv)]
  | seg :: rest =>
    match cut_last " " seg with
    | None => None
    | Some (v, k) => dv ← decode "=" v; l ← read_values k rest; Some ((key, dv) :: l)
    end
  end.
Definition read_ext (s : string) : option (list (string * string)) :=
  match split_free "=" s with [] => None | key :: segs => read_values key segs end.

(** The header's fields and the extension of a CEF line. *)
Definition read_cef (line : string) : option (list string * list (string * string)) :=
  match split_free "|" line with
  | h0 :: h1 :: h2 :: h3 :: h4 :: h5 :: h6 :: x :: xs =>
    hs ← mapM (decode "|") [h0; h1; h2; h3; h4; h5; h6];
    ext ← read_ext (Join (x :: xs) "|");
    Some (hs, ext)
  | _ => None
  end.

(** *** RFC 5424 *)

(** Up to the closing quote. *)
Fixpoint read_quoted (s : string) : option (string * string) :=
  match s with
  | EmptyString => None
  | String a t =>
    if bool_decide (a = chr 0x22) then Some (EmptyString, t)
    else if bool_decide (a = bs) then
      match t with
      | EmptyString => None
      | String b u =>
        if bool_decide (b = bs ∨ b = chr 0x22 ∨ b = "]"%char) then p ← read_quoted u; Some (String b p.1, p.2) else None
      end
    else p ← read_quoted t; Some (String a p.1, p.2)
  end.

Fixpoint read_params (fuel : nat) (s : string) : option (list (string * string) * string) :=
  match fuel with
  | O => None
  | S fuel =>
    match s with
    | String a t =>
      if bool_decide (a = "]"%char) then Some ([], t)
      else if bool_decide (a = " "%char) then
        match cut "=" t with
        | (k, Some (String q u)) =>
          if bool_decide (q = chr 0x22) then
            p ← read_quoted u; l ← read_params fuel p.2; Some ((k, p.1) :: l.1, l.2)
          else None
        | _ => None
        end
      else None
    | EmptyString => None
    end
  end.

Fixpoint read_tokens (n : nat) (s : string) : option (list string * string) :=
  match n with
  | O => Some ([], s)
  | S n => match cut " " s with (w, Some t) => p ← read_tokens n t; Some (w :: p.1, p.2) | _ => None end
  end.

(** The header's tokens, the parameters and the message of a syslog line. *)
Definition read_syslog (line : string) : option (list string * list (string * string) * string) :=
  h ← read_tokens 6 line;
  sd ← CutPrefix ("[" +:+ sdID) h.2;
  p ← read_params (str_len sd) sd;
  Some (h.1, p.1, p.2).

(** ** Writing and reading a rune *)
Definition high (a : ascii) : bool := 0x80 <=? byte a.

Lemma encode_high r : valid_rune r = true → 0x80 <= r → str_forall high (encode r) = true.
Proof.
  intros Hv Hr. unfold encode. rewrite Hv. unfold valid_rune, MaxRune in Hv.
  assert (r <= 0x10FFFF) by lia.
  pose proof (Z.mod_pos_bound r 64 ltac:(lia)). pose proof (Z.mod_pos_bound (r / 64) 64 ltac:(lia)). pose proof (Z.mod_pos_bound (r / 4096) 64 ltac:(lia)).
  assert (∀ z, 0x80 <= z < 256 → str_forall high (str1 z) = true) as Hone.
  { intros z Hz. unfold str1. simpl. unfold high. rewrite byte_chr by lia. by replace (128 <=? z) with true by lia. }
  replace (r <? 128) with false by lia.
  destruct (Z.ltb_spec r 2048); [|destruct (Z.ltb_spec r 65536)]; rewrite ?str_forall_app, ?Hone; try done; Z.to_euclidean_division_equations; lia.
Qed.

Lemma rune_cases r : valid_rune r = true → (∃ a, 0 <= r < 0x80 ∧ byte a = r ∧ encode r = String a EmptyString ∧ str1 r = String a EmptyString) ∨
  (0x80 <= r ∧ str_forall high (encode r) = true).
Proof.
  intros Hv. destruct (Z.ltb_spec r 0x80) as [Hr|Hr]; [left|right; split; [lia|by apply encode_high]].
  assert (0 <= r) by (unfold valid_rune in Hv; lia). exists (chr r).
  split; [lia|]. split; [apply byte_chr; lia|]. by rewrite encode_ascii by lia.
Qed.

Lemma low_ne a b : high a = true → byte b < 0x80 → a ≠ b.
Proof. unfold high. intros Ha Hb ->. lia. Qed.

(** ** Texts that keep their separators escaped *)
Fixpoint closed (sep : ascii) (s : string) : bool :=
  match s with
  | EmptyString => true
  | String a t =>
    if bool_decide (a = bs) then match t with String _ u => closed sep u | EmptyString => false end
    else negb (bool_decide (a = sep)) && closed sep t
  end.

Lemma str_len_ind (P : string → Prop) : (∀ s, (∀ t, (str_len t < str_len s)%nat → P t) → P s) → ∀ s, P s.
Proof. intros H s. remember (str_len s) as n eqn:Hn. revert s Hn. induction (lt_wf n) as [n _ IH]. intros s ->. apply H. eauto. Qed.

Section sep.
Context (sep : ascii) (Hsep : sep ≠ bs).

Lemma closed_app x y : closed sep x = true → closed sep (x +:+ y) = closed sep y.
Proof.
  revert x. apply (str_len_ind (λ x, closed sep x = true → closed sep (x +:+ y) = closed sep y)). intros x IH.
  destruct x as [|a t]; [done|]. simpl. case_bool_decide.
  - destruct t as [|b u]; [done|]. simpl. apply IH. simpl. lia.
  - intros [Ha Ht]%andb_prop. rewrite Ha. simpl. apply IH; [simpl; lia|done].
Qed.

Lemma split_closed x t : closed sep x = true → split_free sep (x +:+ String sep t) = x :: split_free sep t.
Proof.
  revert x. apply (str_len_ind (λ x, closed sep x = true → split_free sep (x +:+ String sep t) = x :: split_free sep t)). intros x IH.
  destruct x as [|a u]; simpl.
  - by rewrite bool_decide_eq_true_2.
  - case_bool_decide as Hb.
    + subst a. rewrite bool_decide_eq_false_2 by done. destruct u as [|b v]; [done|]. intros Hc. simpl.
      by rewrite IH by (simpl; lia || done).
    + intros [Ha Hc]%andb_prop. apply negb_true_iff, bool_decide_eq_false in Ha. rewrite bool_decide_eq_false_2 by done.
      by rewrite IH by (simpl; lia || done).
Qed.

Lemma split_closed_end x : closed sep x = true → split_free sep x = [x].
Proof.
  revert x. apply (str_len_ind (λ x, closed sep x = true → split_free sep x = [x])). intros x IH.
  destruct x as [|a u]; simpl; [done|]. case_bool_decide as Hb.
  - subst a. rewrite bool_decide_eq_false_2 by done. destruct u as [|b v]; [done|]. intros Hc. by rewrite IH by (simpl; lia || done).
  - intros [Ha Hc]%andb_prop. apply negb_true_iff, bool_decide_eq_false in Ha. rewrite bool_decide_eq_false_2 by done.
    by rewrite IH by (simpl; lia || done).
Qed.

Lemma closed_plain s : str_forall (λ a, negb (bool_decide (a = bs)) && negb (bool_decide (a = sep))) s = true → closed sep s = true.
Proof. induction s as [|a s IH]; simpl; [done|]. intros [[Ha Hs]%andb_prop Ht]%andb_prop. rewrite Hs, (IH Ht). by destruct (bool_decide (a = bs)). Qed.
End sep.


(** Facts about a run of written runes that hold of each. *)
Lemma write_runes_forall (f : Z → string) (P : ascii → bool) rs :
  (∀ r, valid_rune r = true → str_forall P (f r) = true) → Forall (λ r, valid_rune r = true) rs → str_forall P (write_runes f rs) = true.
Proof. intros Hf. induction 1 as [|r rs Hr _ IH]; simpl; [done|]. by rewrite str_forall_app, Hf, IH. Qed.

Lemma write_runes_closed sep (f : Z → string) rs :
  (∀ r, valid_rune r = true → closed sep (f r) = true) → Forall (λ r, valid_rune r = true) rs → closed sep (write_runes f rs) = true.
Proof. intros Hf. induction 1 as [|r rs Hr _ IH]; simpl; [done|]. by rewrite closed_app, IH by auto. Qed.

(** ** CEF escapes *)
Section cef.
Context (meta : ascii) (Hlow : 0x20 < byte meta < 0x7f) (Hbs : meta ≠ bs) (Hn : meta ≠ "n"%char) (Hr : meta ≠ "r"%char).

Lemma high_closed x : str_forall high x = true → closed meta x = true.
Proof.
  intros H. apply closed_plain. eapply str_forall_impl; [|exact H]. intros a Ha.
  rewrite !bool_decide_eq_false_2; [done|apply (low_ne a meta Ha); lia|apply (low_ne a bs Ha); done].
Qed.

Lemma high_decode x t : str_forall high x = true → decode meta (x +:+ t) = String.append x <$> decode meta t.
Proof.
  induction x as [|a x IH]; simpl; [by destruct (decode meta t)|]. intros [Ha Hx]%andb_prop.
  rewrite bool_decide_eq_false_2 by (apply (low_ne a bs Ha); done). rewrite IH by done. by destruct (decode meta t).
Qed.

Lemma decode_esc b t : decode meta (String bs (String b t)) =
  if bool_decide (b = bs ∨ b = meta) then String b <$> decode meta t
  else if bool_decide (b = "n"%char) then String (chr 10) <$> decode meta t
  else if bool_decide (b = "r"%char) then String (chr 13) <$> decode meta t else None.
Proof. reflexivity. Qed.

Lemma byte_inj a b : byte a = byte b → a = b.
Proof. intros H. by rewrite <- (chr_byte a), H, chr_byte. Qed.

Lemma cef_rune_spec r : valid_rune r = true →
  closed meta (cef_rune (byte meta) r) = true ∧
  (∀ t, decode meta (cef_rune (byte meta) r +:+ t) = String.append (cef_clean_rune r) <$> decode meta t) ∧
  str_forall (λ a, negb (is_control (byte a))) (cef_rune (byte meta) r) = true.
Proof.
  intros Hv. unfold cef_rune, cef_clean_rune, strip_rune.
  assert (Hbyte : byte bs = 0x5c) by reflexivity.
  assert (Hmeta : str1 (byte meta) = String meta EmptyString) by (unfold str1; by rewrite chr_byte).
  assert (Hbo : (byte meta =? 0x5c) = false) by (apply Z.eqb_neq; intros E; apply Hbs, byte_inj; by rewrite E).
  assert (Hmc : is_control (byte meta) = false) by (unfold is_control; lia).
  destruct (Z.eqb_spec r 0x5c) as [->|Hr0].
  { split; [done|]. split; [|done]. intros t. change (decode meta (String bs (String bs t)) = String bs <$> decode meta t). rewrite decode_esc. by rewrite bool_decide_eq_true_2 by (by left). }
  destruct (Z.eqb_spec r (byte meta)) as [->|Hrm].
  { replace ((byte meta =? 10) || (byte meta =? 13)) with false by lia. rewrite Hmc, Hmeta.
    rewrite encode_ascii, Hmeta by lia.
    split; [done|]. split; [|simpl; by rewrite Hmc]. intros t. change (decode meta (String bs (String meta t)) = String meta <$> decode meta t). rewrite decode_esc. by rewrite bool_decide_eq_true_2 by (by right). }
  destruct (Z.eqb_spec r 10) as [->|Hr1].
  { split; [done|]. split; [|done]. intros t. change (decode meta (String bs (String "n" t)) = String (chr 10) <$> decode meta t). rewrite decode_esc. by rewrite bool_decide_eq_false_2 by (intros [?|?]; congruence). }
  destruct (Z.eqb_spec r 13) as [->|Hr2].
  { split; [done|]. split; [|done]. intros t. change (decode meta (String bs (String "r" t)) = String (chr 13) <$> decode meta t). rewrite decode_esc. by rewrite bool_decide_eq_false_2 by (intros [?|?]; congruence). }
  cbn [orb]. destruct (is_control r) eqn:Ec.
  { split; [|split; [intros t; change (decode meta (String " " t) = String " " <$> decode meta t); reflexivity|done]].
    assert (Hsp : " "%char ≠ meta) by (intros <-; vm_compute in Hlow; by destruct Hlow).
    cbn. by rewrite (bool_decide_eq_false_2 (" "%char = meta)). }
  destruct (rune_cases r Hv) as [(a & Hra & Ha & Hea & _)|[Hra Hh]].
  - rewrite Hea. assert (a ≠ bs) by (intros ->; done). assert (a ≠ meta) by (intros ->; done).
    split; [cbn; by rewrite !bool_decide_eq_false_2|]. split.
    + intros t. cbn. rewrite bool_decide_eq_false_2 by done. by destruct (decode meta t).
    + simpl. by rewrite Ha, Ec.
  - split; [by apply high_closed|]. split; [intros t; by apply high_decode|].
    eapply str_forall_impl; [|exact Hh]. intros a. unfold high, is_control. lia.
Qed.
End cef.

Definition printable (a : ascii) : bool := negb (is_control (byte a)).

Section cef_text.
Context (meta : ascii) (Hmeta : meta = "|"%char ∨ meta = "="%char).

Lemma cef_rune_facts r : valid_rune r = true →
  closed meta (cef_rune (byte meta) r) = true ∧
  (∀ t, decode meta (cef_rune (byte meta) r +:+ t) = String.append (cef_clean_rune r) <$> decode meta t) ∧
  str_forall printable (cef_rune (byte meta) r) = true.
Proof. apply cef_rune_spec; destruct Hmeta as [-> | ->]; vm_compute; split || idtac; congruence. Qed.

Definition esc (s : string) : string := write_runes (cef_rune (byte meta)) (runes s).

Lemma esc_closed s : closed meta (esc s) = true.
Proof. apply write_runes_closed; [intros r Hr; by apply cef_rune_facts|apply runes_valid]. Qed.

Lemma esc_printable s : str_forall printable (esc s) = true.
Proof. apply write_runes_forall; [intros r Hr; by apply cef_rune_facts|apply runes_valid]. Qed.

Lemma esc_decode s : decode meta (esc s) = Some (cef_clean s).
Proof.
  unfold esc, cef_clean. induction (runes_valid s) as [|r rs Hr _ IH]; [done|]. simpl.
  destruct (cef_rune_facts r Hr) as (_ & -> & _). by rewrite IH.
Qed.
End cef_text.

Lemma cefEscapeHeader_esc s : cefEscapeHeader s = esc "|" s.
Proof. done. Qed.
Lemma cefEscapeExtension_esc s : cefEscapeExtension s = esc "=" s.
Proof. done. Qed.

(** ** The extension reads back *)
Definition key_char (a : ascii) : bool := printable a && negb (bool_decide (a = bs)) && negb (bool_decide (a = "="%char)) && negb (bool_decide (a = " "%char)).
Definition key_ok (k : string) : Prop := str_forall key_char k = true.

Lemma key_closed k : key_ok k → closed "=" k = true.
Proof. intros H. apply closed_plain. eapply str_forall_impl; [|exact H]. intros a. unfold key_char. rewrite !andb_true_iff. tauto. Qed.
Lemma key_word k : key_ok k → no_char " " k = true.
Proof. intros H. rewrite <- str_forall_no_char. eapply str_forall_impl; [|exact H]. intros a. unfold key_char. rewrite !andb_true_iff. tauto. Qed.

Fixpoint more_fields (l : list (string * string)) : string :=
  match l with [] => EmptyString | p :: l => " " +:+ p.1 +:+ "=" +:+ cefEscapeExtension p.2 +:+ more_fields l end.

Lemma cef_ext_cons p l : cef_ext (p :: l) = p.1 +:+ "=" +:+ cefEscapeExtension p.2 +:+ more_fields l.
Proof.
  revert p. induction l as [|q l IH]; intros p; [unfold cef_ext; simpl; by rewrite str_app_nil_r|].
  unfold cef_ext in *. cbn [fmap list_fmap] in *. rewrite Join_cons by done. rewrite (IH q). simpl. by rewrite !str_app_assoc.
Qed.

Lemma read_values_more key seg rest : rest ≠ [] → read_values key (seg :: rest) =
  match cut_last " " seg with
  | None => None
  | Some (v, k) => dv ← decode "=" v; l ← read_values k rest; Some ((key, dv) :: l)
  end.
Proof. by destruct rest. Qed.

Lemma split_free_nonempty sep s : split_free sep s ≠ [].
Proof.
  revert s. apply (str_len_ind (λ s, split_free sep s ≠ [])). intros s IH. destruct s as [|a t]; [done|]. simpl.
  repeat case_bool_decide; [done| |].
  - destruct t as [|b u]; [done|]. specialize (IH u ltac:(simpl; lia)). by destruct (split_free sep u).
  - specialize (IH t ltac:(simpl; lia)). by destruct (split_free sep t).
Qed.

Lemma read_values_spec k v l : Forall (λ p, key_ok p.1) l →
  read_values k (split_free "=" (cefEscapeExtension v +:+ more_fields l)) = Some ((λ p, (p.1, cef_clean p.2)) <$> (k, v) :: l).
Proof.
  assert (He : "="%char = "|"%char ∨ "="%char = "="%char) by (by right).
  intros Hl. revert k v. induction Hl as [|p l Hp Hl IH]; intros k v; rewrite cefEscapeExtension_esc; cbn [more_fields].
  - rewrite str_app_nil_r, split_closed_end by (done || by apply esc_closed). simpl. by rewrite esc_decode by done.
  - assert (esc "=" v +:+ (" " +:+ p.1 +:+ "=" +:+ cefEscapeExtension p.2 +:+ more_fields l)
      = (esc "=" v +:+ String " " p.1) +:+ String "=" (cefEscapeExtension p.2 +:+ more_fields l)) as -> by (by rewrite !str_app_assoc).
    rewrite split_closed; [|done|rewrite closed_app by (by apply esc_closed); by apply (key_closed p.1)].
    rewrite read_values_more by apply split_free_nonempty.
    rewrite cut_last_app by (by apply key_word). rewrite esc_decode by done. cbn [mbind option_bind]. rewrite IH. done.
Qed.

Lemma read_ext_spec p l : key_ok p.1 → Forall (λ p, key_ok p.1) l → read_ext (cef_ext (p :: l)) = Some ((λ p, (p.1, cef_clean p.2)) <$> p :: l).
Proof.
  intros Hp Hl. unfold read_ext. rewrite cef_ext_cons.
  change (p.1 +:+ "=" +:+ ?t) with (p.1 +:+ String "=" t). rewrite split_closed by (done || by apply key_closed).
  rewrite read_values_spec by done. by destruct p.
Qed.

Lemma cef_fields_ok e : ∃ p l, cef_fields e = p :: l ∧ Forall (λ p, key_ok p.1) (p :: l).
Proof.
  assert (Forall (λ p, key_ok p.1) (cef_fields e)).
  { unfold cef_fields, opt_field. repeat case_bool_decide; destruct (Time e); simpl; repeat constructor. }
  destruct (cef_fields e) as [|p l] eqn:E; [|eauto]. unfold cef_fields in E. by case_bool_decide.
Qed.

(** ** The header reads back *)
Lemma Join_split_free sep s : Join (split_free sep s) (String sep EmptyString) = s.
Proof.
  revert s. apply (str_len_ind (λ s, Join (split_free sep s) (String sep EmptyString) = s)). intros s IH.
  assert (Hcons : ∀ x w ws, Join ((x +:+ w) :: ws) (String sep EmptyString) = x +:+ Join (w :: ws) (String sep EmptyString)).
  { intros x w [|y ws]; [done|]. rewrite !Join_cons by done. by rewrite !str_app_assoc. }
  destruct s as [|a t]; [done|]. simpl. case_bool_decide as Ha; [|case_bool_decide].
  - subst a. rewrite Join_cons by apply split_free_nonempty. by rewrite IH by (simpl; lia).
  - destruct t as [|b u]; [done|]. pose proof (split_free_nonempty sep u). specialize (IH u ltac:(simpl; lia)).
    destruct (split_free sep u) as [|w ws]; [done|]. etrans; [apply (Hcons (String a (String b EmptyString)) w ws)|]. by rewrite IH.
  - pose proof (split_free_nonempty sep t). specialize (IH t ltac:(simpl; lia)).
    destruct (split_free sep t) as [|w ws]; [done|]. etrans; [apply (Hcons (String a EmptyString) w ws)|]. by rewrite IH.
Qed.

Definition digit_char (a : ascii) : bool := (0x2d <=? byte a) && (byte a <=? 0x39).
Lemma is_digit_char a : is_digit a = true → digit_char a = true.
Proof. unfold is_digit, digit_val, digit_char, byte. cbv zeta. destruct (_ && _) eqn:E; [|done]. lia. Qed.

Lemma show_Z_digits n : str_forall digit_char (show_Z n) = true.
Proof.
  eapply str_forall_impl; [|apply show_Z_chars]. intros a. cbv beta. intros [H|H%bool_decide_eq_true_1]%orb_true_iff; [by apply is_digit_char|by subst a].
Qed.

Lemma digits_digits n v : str_forall digit_char (digits n v) = true.
Proof.
  revert v. induction n as [|n IH]; intros v; [done|]. simpl. rewrite str_forall_app, IH. simpl. rewrite andb_true_r.
  pose proof (Z.mod_pos_bound v 10 ltac:(lia)). unfold digit_char, byte.
  rewrite N_ascii_embedding by lia. rewrite Z2N.id by lia. apply andb_true_iff. rewrite !Z.leb_le. lia.
Qed.

(** Digits and the other characters of numbers and dates. *)
Definition word_char (a : ascii) : bool := printable a && negb (bool_decide (a = bs)) && negb (bool_decide (a = "|"%char)) && negb (bool_decide (a = " "%char)).

Lemma digit_word a : digit_char a = true → word_char a = true.
Proof.
  unfold digit_char, word_char, printable, is_control. intros H. replace (negb _) with true by lia.
  rewrite !bool_decide_eq_false_2; [done|intros ->; done..].
Qed.

Lemma show_Z_word n : str_forall word_char (show_Z n) = true.
Proof. eapply str_forall_impl; [apply digit_word|apply show_Z_digits]. Qed.
Lemma digits_word n v : str_forall word_char (digits n v) = true.
Proof. eapply str_forall_impl; [apply digit_word|apply digits_digits]. Qed.

Lemma word_closed w : str_forall word_char w = true → closed "|" w = true.
Proof. intros H. apply closed_plain. eapply str_forall_impl; [|exact H]. intros a. unfold word_char. rewrite !andb_true_iff. tauto. Qed.

Lemma word_decode w : str_forall word_char w = true → decode "|" w = Some w.
Proof.
  induction w as [|a w IH]; simpl; [done|]. intros [Ha Hw]%andb_prop. unfold word_char in Ha. rewrite !andb_true_iff in Ha.
  destruct Ha as [[[_ Ha%negb_true_iff] _] _]. rewrite Ha. by rewrite IH.
Qed.

Lemma read_cef_spec e : read_cef (FormatCEF e) =
  Some ("CEF:0" :: ((λ s, cef_clean (capField s)) <$> cef_header e) ++ [show_Z (cefSeverity e)], (λ p, (p.1, cef_clean p.2)) <$> cef_fields e)%string.
Proof.
  destruct (cef_fields_ok e) as (p & l & Ef & [Hp Hl]%Forall_cons). unfold read_cef, FormatCEF. rewrite Ef.
  assert (Hm : "|"%char = "|"%char ∨ "|"%char = "="%char) by (by left).
  assert (Hsplit : ∀ ws t, Forall (λ w, closed "|" w = true) ws → ws ≠ [] →
    split_free "|" (Join ws "|" +:+ String "|" t) = ws ++ split_free "|" t).
  { clear. intros ws t Hws Hne. induction Hws as [|w [|w' ws] Hw Hws IH]; [done| |].
    - simpl. by apply split_closed.
    - rewrite Join_cons by done. rewrite str_app_assoc. simpl.
      rewrite split_closed by done. f_equal. by apply IH. }
  change ("|" +:+ cef_ext (p :: l)) with (String "|" (cef_ext (p :: l))). rewrite Hsplit; [| |done].
  2: { unfold cef_header. simpl. repeat constructor; try (apply (esc_closed "|" Hm)). apply word_closed, show_Z_word. }
  unfold cef_header. cbn [fmap list_fmap app]. rewrite !cefEscapeHeader_esc.
  pose proof (split_free_nonempty "|" (cef_ext (p :: l))) as Hne. pose proof (Join_split_free "|" (cef_ext (p :: l))) as Hj.
  destruct (split_free "|" (cef_ext (p :: l))) as [|x xs]; [done|]. rewrite Hj. cbn [mapM].
  rewrite !(esc_decode "|" Hm), (word_decode (show_Z _)) by apply show_Z_word.
  cbn -[show_Z cef_clean capField read_ext cef_ext]. rewrite read_ext_spec by done. done.
Qed.

(** ** Structured data *)
Lemma read_quoted_plain a t : a ≠ chr 0x22 → a ≠ bs → read_quoted (String a t) = (p ← read_quoted t; Some (String a p.1, p.2)).
Proof. intros H1 H2. simpl. by rewrite !bool_decide_eq_false_2. Qed.
Lemma read_quoted_esc b t : b = bs ∨ b = chr 0x22 ∨ b = "]"%char → read_quoted (String bs (String b t)) = (p ← read_quoted t; Some (String b p.1, p.2)).
Proof.
  intros H. change (read_quoted (String bs (String b t))) with
    (if bool_decide (b = bs ∨ b = chr 0x22 ∨ b = "]"%char) then p ← read_quoted t; Some (String b p.1, p.2) else None).
  by rewrite bool_decide_eq_true_2.
Qed.

Lemma high_quoted x t : str_forall high x = true → read_quoted (x +:+ t) = (p ← read_quoted t; Some (x +:+ p.1, p.2)).
Proof.
  induction x as [|a x IH]; simpl String.append; [by destruct (read_quoted t) as [[]|]|]. intros [Ha Hx]%andb_prop.
  rewrite read_quoted_plain, IH by (done || by apply (low_ne a _ Ha)). by destruct (read_quoted t) as [[]|].
Qed.

Lemma sd_rune_spec r : valid_rune r = true →
  (∀ t, read_quoted (sd_rune r +:+ t) = (p ← read_quoted t; Some (strip_rune r +:+ p.1, p.2))) ∧
  str_forall printable (sd_rune r) = true ∧ str_forall printable (strip_rune r) = true.
Proof.
  intros Hv. unfold sd_rune, strip_rune.
  destruct (Z.eqb_spec r 0x5c) as [->|H1]; [split; [intros t; apply (read_quoted_esc bs); by left|done]|].
  destruct (Z.eqb_spec r 0x22) as [->|H2]; [split; [intros t; apply (read_quoted_esc (chr 0x22)); by right; left|done]|].
  destruct (Z.eqb_spec r 0x5d) as [->|H3]; [split; [intros t; apply (read_quoted_esc "]"); by right; right|done]|].
  destruct (is_control r) eqn:Ec; [split; [intros t; by apply (read_quoted_plain " ")|done]|].
  destruct (rune_cases r Hv) as [(a & Hra & Ha & Hea & _)|[Hra Hh]].
  - rewrite Hea. split; [|simpl; unfold printable; by rewrite Ha, Ec].
    intros t. apply (read_quoted_plain a); intros ->; by apply H1 || by apply H2.
  - split; [intros t; by apply high_quoted|]. assert (str_forall printable (encode r) = true); [|done].
    eapply str_forall_impl; [|exact Hh]. intros a. unfold high, printable, is_control. lia.
Qed.

Lemma sdEscape_read v t : read_quoted (sdEscape v +:+ quote +:+ t) = Some (stripControls v, t).
Proof.
  unfold sdEscape, stripControls. induction (runes_valid v) as [|r rs Hr _ IH]; [done|]. simpl write_runes. rewrite str_app_assoc.
  destruct (sd_rune_spec r Hr) as [-> _]. by rewrite IH.
Qed.

Lemma sdEscape_printable v : str_forall printable (sdEscape v) = true.
Proof. apply write_runes_forall; [intros r Hr; by apply sd_rune_spec|apply runes_valid]. Qed.
Lemma stripControls_printable v : str_forall printable (stripControls v) = true.
Proof. apply write_runes_forall; [intros r Hr; by apply sd_rune_spec|apply runes_valid]. Qed.

Lemma cut_at c k t : no_char c k = true → cut c (k +:+ String c t) = (k, Some t).
Proof.
  induction k as [|a k IH]; simpl; [by rewrite decide_True|]. intros [Ha Hk]%andb_prop.
  apply negb_true_iff, bool_decide_eq_false in Ha. rewrite decide_False by done. by rewrite IH.
Qed.

Lemma key_no_eq k : key_ok k → no_char "=" k = true.
Proof. intros H. rewrite <- str_forall_no_char. eapply str_forall_impl; [|exact H]. intros a. unfold key_char. rewrite !andb_true_iff. tauto. Qed.

Lemma read_params_spec l t fuel : Forall (λ p, key_ok p.1) l → (length l < fuel)%nat →
  read_params fuel (write_params l +:+ t) = Some ((λ p, (p.1, stripControls p.2)) <$> l, t).
Proof.
  intros Hl. revert fuel. induction Hl as [|[k v] l Hk Hl IH]; intros [|fuel] Hf; [simpl in Hf; lia|done|simpl in Hf; lia|].
  cbn [write_params]. rewrite !str_app_assoc. change (" " +:+ ?x) with (String " " x). cbn [read_params].
  rewrite (bool_decide_eq_false_2 (" "%char = "]"%char)), (bool_decide_eq_true_2 (" "%char = " "%char)) by done.
  change ("=" +:+ quote +:+ ?x) with (String "=" (String (chr 0x22) x)). rewrite cut_at by (by apply key_no_eq).
  rewrite (bool_decide_eq_true_2 (chr 0x22 = chr 0x22)) by done. rewrite sdEscape_read. cbn [mbind option_bind fst snd].
  rewrite IH by (simpl in Hf; lia). done.
Qed.

Lemma sd_params_ok e : Forall (λ p, key_ok p.1) (sd_params e).
Proof. unfold sd_params. repeat case_bool_decide; simpl; repeat constructor. Qed.

Lemma write_params_len l : (length l < str_len (write_params l))%nat.
Proof. induction l as [|[k v] l IH]; [simpl; lia|]. cbn [write_params length]. rewrite !str_length_app. cbn [String.length]. lia. Qed.

(** ** Header tokens *)
Lemma token_word s n : str_forall printable (syslogToken s n) = true ∧ no_char " " (syslogToken s n) = true.
Proof.
  unfold syslogToken. set (l := take n _).
  assert (H : Forall (λ r, token_rune r = true) l).
  { apply Forall_take, Forall_forall. intros r Hr. apply list_elem_of_In, filter_In in Hr as [_ Hr]. done. }
  assert (Hall : str_forall printable (encode_all l) = true ∧ no_char " " (encode_all l) = true).
  { induction H as [|r rs Hr _ [IH1 IH2]]; [done|]. simpl. unfold token_rune in Hr. rewrite encode_ascii by lia.
    unfold str1. simpl. rewrite IH1, IH2. unfold printable, is_control. rewrite byte_chr by lia. split.
    - replace (negb _) with true by lia. done.
    - rewrite bool_decide_eq_false_2; [done|]. intros E. assert (byte (chr r) = byte " ") as Hb by (by rewrite E).
      rewrite byte_chr in Hb by lia. vm_compute in Hb. lia. }
  destruct l; [done|exact Hall].
Qed.

Lemma word_token w : str_forall word_char w = true → str_forall printable w = true ∧ no_char " " w = true.
Proof.
  intros H. split; [eapply str_forall_impl; [|exact H]|rewrite <- str_forall_no_char; eapply str_forall_impl; [|exact H]];
    intros a; unfold word_char; rewrite !andb_true_iff; tauto.
Qed.

Lemma time_word t : str_forall word_char (orDefault (rfc3339UTC t) "-") = true.
Proof.
  unfold orDefault. case_bool_decide; [done|]. destruct t as [t|]; [|done]. unfold rfc3339UTC, FormatRFC3339.
  destruct (civil_from_days _) as [[y m] d]. rewrite !str_forall_app, !digits_word. done.
Qed.

Definition header_ok (w : string) : Prop := str_forall printable w = true ∧ no_char " " w = true.
Lemma syslog_header_ok e : Forall header_ok (syslog_header e).
Proof.
  unfold syslog_header. repeat constructor; try apply token_word; try apply (word_token _ (time_word _));
    try apply (word_token ("<" +:+ show_Z _ +:+ ">1")); try (rewrite !str_forall_app, show_Z_word; done); done.
Qed.

Lemma read_tokens_S n s : read_tokens (S n) s = match cut " " s with (w, Some t) => p ← read_tokens n t; Some (w :: p.1, p.2) | _ => None end.
Proof. done. Qed.

Lemma read_tokens_spec ws t : Forall header_ok ws → read_tokens (length ws) (Join ws " " +:+ String " " t) = Some (ws, t) ∨ ws = [].
Proof.
  intros H. induction H as [|w ws [_ Hw] _ IH]; [by right|left]. destruct ws as [|w' ws].
  - simpl. by rewrite cut_at.
  - destruct IH as [IH|]; [|done]. rewrite Join_cons by done. rewrite !str_app_assoc. change (length (w :: w' :: ws)) with (S (length (w' :: ws))).
    rewrite read_tokens_S. change (" " +:+ ?x) with (String " " x). rewrite cut_at by done. by rewrite IH.
Qed.

(** What follows the structured data. *)
Definition msg_part (e : Event) : string := if bool_decide (syslogMSG e = EmptyString) then EmptyString else " " +:+ syslogMSG e.

Lemma FormatRFC5424_shape e : FormatRFC5424 e = Join (syslog_header e) " " +:+ String " " (write_sd (sd_params e) +:+ msg_part e).
Proof.
  unfold FormatRFC5424, msg_part. assert (∀ ws x, ws ≠ [] → Join (ws ++ [x]) " " = Join ws " " +:+ String " " x) as Hj.
  { intros ws x. induction ws as [|w [|w' ws] IH]; [done|done|]. intros _. rewrite <- app_comm_cons, !Join_cons by done.
    rewrite IH by done. by rewrite !str_app_assoc. }
  rewrite Hj by done. case_bool_decide; rewrite ?str_app_nil_r, ?str_app_assoc; done.
Qed.

Lemma read_syslog_spec e : read_syslog (FormatRFC5424 e) = Some (syslog_header e, (λ p, (p.1, stripControls p.2)) <$> sd_params e, msg_part e).
Proof.
  rewrite FormatRFC5424_shape. unfold read_syslog.
  destruct (read_tokens_spec (syslog_header e) (write_sd (sd_params e) +:+ msg_part e) (syslog_header_ok e)) as [H|]; [|done].
  change (length (syslog_header e)) with 6%nat in H. rewrite H. cbn [mbind option_bind fst snd]. unfold write_sd.
  rewrite <- (str_app_assoc "[" sdID), str_app_assoc.
  rewrite (proj2 (CutPrefix_spec ("[" +:+ sdID) _ _) eq_refl). cbn [mbind option_bind].
  rewrite read_params_spec; [done|apply sd_params_ok|]. rewrite str_length_app. pose proof (write_params_len (sd_params e)). lia.
Qed.

(** ** One line *)
Lemma join_printable ws sep : Forall (λ w, str_forall printable w = true) ws → str_forall printable sep = true → str_forall printable (Join ws sep) = true.
Proof. apply str_forall_Join. Qed.

Lemma key_printable k : key_ok k → str_forall printable k = true.
Proof. intros H. eapply str_forall_impl; [|exact H]. intros a. unfold key_char. rewrite !andb_true_iff. tauto. Qed.

Lemma FormatCEF_printable e : str_forall printable (FormatCEF e) = true.
Proof.
  unfold FormatCEF. rewrite !str_forall_app. destruct (cef_fields_ok e) as (p & l & Ef & Hok). apply andb_true_iff. split.
  - apply join_printable; [|done]. unfold cef_header. simpl. repeat constructor; try (apply (esc_printable "|"); by left).
    apply (word_token _ (show_Z_word _)).
  - simpl. rewrite Ef. apply join_printable; [|done]. apply Forall_fmap. eapply Forall_impl; [exact Hok|]. intros q Hq. simpl.
    rewrite !str_forall_app, key_printable by done. simpl. apply (esc_printable "="). by right.
Qed.

Lemma str_take_forall P n s : str_forall P s = true → str_forall P (str_take n s) = true.
Proof. revert s. induction n as [|n IH]; intros [|a s]; simpl; try done. intros [-> H]%andb_prop. simpl. auto. Qed.

Lemma write_params_printable l : Forall (λ p, key_ok p.1) l → str_forall printable (write_params l) = true.
Proof.
  induction 1 as [|[k v] l Hk _ IH]; [done|]. cbn [write_params].
  rewrite !str_forall_app, (key_printable k) by done. rewrite sdEscape_printable, IH. vm_compute. done.
Qed.

Lemma FormatRFC5424_printable e : str_forall printable (FormatRFC5424 e) = true.
Proof.
  rewrite FormatRFC5424_shape, str_forall_app. apply andb_true_iff. split.
  { apply join_printable; [|done]. eapply Forall_impl; [apply syslog_header_ok|]. by intros w []. }
  cbn [str_forall]. change (printable " ") with true. cbn [andb]. rewrite str_forall_app. apply andb_true_iff. split.
  - unfold write_sd. by rewrite !str_forall_app, write_params_printable by apply sd_params_ok.
  - unfold msg_part. case_bool_decide; [done|]. simpl. unfold syslogMSG, capField. case_match; [|apply str_take_forall]; apply stripControls_printable.
Qed.

Lemma cut_point_le n s : (cut_point n s ≤ n)%nat.
Proof. induction n as [|n IH]; simpl; [done|]. destruct (String.get (S n) s); [|done]. destruct (cont _); lia. Qed.

Lemma take_prefix n s : ∃ t, s = str_take n s +:+ t.
Proof. revert s. induction n as [|n IH]; intros [|a s]; simpl; eauto. destruct (IH s) as [t Ht]. exists t. by rewrite Ht at 1. Qed.

Lemma capField_spec s : (str_len (capField s) ≤ maxFieldLen)%nat ∧ ∃ t, s = capField s +:+ t.
Proof.
  unfold capField. destruct (Nat.leb_spec (str_len s) maxFieldLen); [split; [done|]; exists EmptyString; by rewrite str_app_nil_r|].
  split; [|apply take_prefix]. etrans; [apply str_take_length|apply cut_point_le].
Qed.

(** C17. Hostile text cannot forge an audit line: whatever the event's fields hold,
    its CEF and its RFC 5424 line are one line without control characters, a
    reader that honours the formats' escapes gets back exactly the header columns
    and the keys and values that were written, in order, each the field's text
    (cut to its cap, control characters blanked, line ends kept in CEF), and the
    free text after the structured data is all that follows. *)
Theorem siem_reads_back (e : Event) :
  str_forall printable (FormatCEF e) = true ∧ str_forall printable (FormatRFC5424 e) = true ∧
  read_cef (FormatCEF e) = Some ("CEF:0" :: ((λ s, cef_clean (capField s)) <$> cef_header e) ++ [show_Z (cefSeverity e)],
    (λ p, (p.1, cef_clean p.2)) <$> cef_fields e)%string ∧
  read_syslog (FormatRFC5424 e) = Some (syslog_header e, (λ p, (p.1, stripControls p.2)) <$> sd_params e, msg_part e) ∧
  (∀ s, (str_len (capField s) ≤ maxFieldLen)%nat ∧ ∃ t, s = capField s +:+ t).
Proof.
  split; [apply FormatCEF_printable|]. split; [apply FormatRFC5424_printable|]. split; [apply read_cef_spec|].
  split; [apply read_syslog_spec|]. intros s. apply capField_spec.
Qed.

(** * Forwarding *)

Definition DefaultQueueSize : Z := 1024.
Definition MaxQueueSize : Z := 65536.
Definition flushDeadline : duration := 3 * Second.
Definition backoffMax : duration := 30 * Second.
Definition ValidFormats : list string := ["json"; "cef"; "rfc5424"]%string.

Record SinkConfig := MkSinkCfg { sc_Name : string; Address : string; Format : string; Events : list string; CAFile : string; QueueSize : Z }.
Record Identity := MkIdentity { id_Node : string; id_Vendor : string; id_Product : string; id_Version : string }.
Record endpoint := MkEndpoint { scheme : string; target : string }.

Section addresses.
(** [url.Parse]; [ParseAddress] is the one the configuration is checked with. *)
Context (url_parse : string → option url).

Definition address (a : string) : option endpoint :=
  match ParseAddress url_parse a with Ok (sch, t) => Some (MkEndpoint sch t) | Err _ => None end.

(** ** A sink: its filter, its queue, what was dropped, its backoff *)
Record sinkWorker := MkSink { sw_name : string; ep : endpoint; format : string; events : list string; caFile : string; cap : nat }.

Definition queue_size (n : Z) : Z := let n := if n <=? 0 then DefaultQueueSize else n in if MaxQueueSize <? n then MaxQueueSize else n.

Definition new_sink (c : SinkConfig) : option sinkWorker :=
  match address (Address c) with
  | None => None
  | Some ep =>
    let f := orDefault (Format c) "json" in
    if one_of f ValidFormats then Some (MkSink (sc_Name c) ep f (Events c) (CAFile c) (Z.to_nat (queue_size (QueueSize c)))) else None
  end.
Definition NewForwarder (cfgs : list SinkConfig) : option (list sinkWorker) := mapM new_sink cfgs.
End addresses.

Definition stamped (id : Identity) (e : Event) : Event :=
  MkEvent (Time e) (Action e) (IP e) (Rule e) (Score e) (Strike e) (TTL e) (Actor e)
    (orDefault (Node e) (id_Node id)) (orDefault (Product e) (id_Product id)) (orDefault (Vendor e) (id_Vendor id)) (orDefault (Version e) (id_Version id)).
Definition forwards (s : sinkWorker) (e : Event) : bool := bool_decide (events s = []) || one_of (Action e) (events s).

(** The sinks an event is queued on, and the event as it is queued. *)
Definition Emit (id : Identity) (sinks : list sinkWorker) (e : Event) : list (sinkWorker * Event) :=
  (λ s, (s, stamped id e)) <$> List.filter (λ s, forwards s (stamped id e)) sinks.

(** RFC 6587 octet counting for syslog, a line each otherwise. *)
Definition frame (fmt msg : string) : string :=
  if bool_decide (fmt = "rfc5424"%string) then show_Z (Z.of_nat (str_len msg)) +:+ " " +:+ msg else msg +:+ str1 10.

Definition next_backoff (b : duration) : duration :=
  if b =? 0 then Second else if b <? backoffMax then (if backoffMax <? b * 2 then backoffMax else b * 2) else b.

(** ** One sink at work

    Producers run through [enqueue]'s three attempts, each atomic on the channel;
    the worker takes an event, tries to write it until it is written or the
    context ends, and then flushes what is queued. *)
Inductive stage := TrySend | DropOldest | TryAgain.
Record sink := MkWork {
  queue : list Event; drops : nat; producers : gmap nat (Event * stage); inflight : option Event; backoff : duration; stopping : bool;
  written : list Event; pushed : list Event; emitted : nat
}.
Definition idle : sink := MkWork [] 0 ∅ None 0 false [] [] 0.

Section worker.
Context (qcap : nat).

Definition push_queue (p : nat) (e : Event) (s : sink) : sink :=
  MkWork (queue s ++ [e]) (drops s) (delete p (producers s)) (inflight s) (backoff s) (stopping s) (written s) (pushed s ++ [e]) (emitted s).
Definition drop (s : sink) : sink :=
  MkWork (queue s) (S (drops s)) (producers s) (inflight s) (backoff s) (stopping s) (written s) (pushed s) (emitted s).
Definition at_stage (p : nat) (e : Event) (g : stage) (s : sink) : sink :=
  MkWork (queue s) (drops s) (<[p := (e, g)]> (producers s)) (inflight s) (backoff s) (stopping s) (written s) (pushed s) (emitted s).
Definition gone (p : nat) (s : sink) : sink :=
  MkWork (queue s) (drops s) (delete p (producers s)) (inflight s) (backoff s) (stopping s) (written s) (pushed s) (emitted s).
Definition set_queue (q : list Event) (s : sink) : sink :=
  MkWork q (drops s) (producers s) (inflight s) (backoff s) (stopping s) (written s) (pushed s) (emitted s).
Definition hold (e : option Event) (b : duration) (s : sink) : sink :=
  MkWork (queue s) (drops s) (producers s) e b (stopping s) (written s) (pushed s) (emitted s).
Definition wrote (e : Event) (s : sink) : sink :=
  MkWork (queue s) (drops s) (producers s) (inflight s) (backoff s) (stopping s) (written s ++ [e]) (pushed s) (emitted s).

(** The next attempt of producer [p]. *)
Definition enqueue_step (p : nat) (s : sink) : sink :=
  match producers s !! p with
  | None => s
  | Some (e, TrySend) => if (length (queue s) <? qcap)%nat then push_queue p e s else at_stage p e DropOldest s
  | Some (e, DropOldest) =>
    at_stage p e TryAgain (match queue s with [] => s | _ :: q => drop (set_queue q s) end)
  | Some (e, TryAgain) => if (length (queue s) <? qcap)%nat then push_queue p e s else drop (gone p s)
  end.

Inductive sink_action :=
| Produce (p : nat) (e : Event)  (** a call of [Emit] reaches the sink *)
| Advance (p : nat)
| Take                           (** the worker receives from its queue *)
| Write (ok : bool)              (** one [writeOnce] of [deliver] *)
| Cancel                         (** the worker sees that the context ended *)
| Flush (ok : bool).             (** one event of [flush], written or given up *)

Definition sink_act (a : sink_action) (s : sink) : sink :=
  match a with
  | Produce p e =>
    match producers s !! p with
    | Some _ => s
    | None => MkWork (queue s) (drops s) (<[p := (e, TrySend)]> (producers s)) (inflight s) (backoff s) (stopping s) (written s) (pushed s) (S (emitted s))
    end
  | Advance p => enqueue_step p s
  | Take =>
    match stopping s, inflight s, queue s with
    | false, None, e :: q => hold (Some e) (backoff s) (set_queue q s)
    | _, _, _ => s
    end
  | Write ok =>
    match stopping s, inflight s with
    | false, Some e => if ok then hold None 0 (wrote e s) else hold (Some e) (next_backoff (backoff s)) s
    | _, _ => s
    end
  | Cancel =>
    match inflight s with
    | Some _ => drop (hold None (backoff s) s)
    | None => MkWork (queue s) (drops s) (producers s) (inflight s) (backoff s) true (written s) (pushed s) (emitted s)
    end
  | Flush ok =>
    match stopping s, queue s with
    | true, e :: q => if ok then wrote e (set_queue q s) else drop (set_queue q s)
    | _, _ => s
    end
  end.

Inductive works : sink → Prop :=
| works_idle : works idle
| works_act s a : works s → works (sink_act a s).

Definition held (s : sink) : list Event := match inflight s with Some e => [e] | None => [] end.

(** Nothing is lost unseen, the queue is bounded, what leaves leaves in order, and
    the worker never waits longer than the cap. *)
Record sink_ok (s : sink) : Prop := {
  so_count : emitted s = (length (written s) + drops s + length (queue s) + length (held s) + size (producers s))%nat;
  so_cap : (length (queue s) ≤ qcap)%nat;
  so_order : written s ++ held s ++ queue s `sublist_of` pushed s;
  so_backoff : backoff s = 0 ∨ Second <= backoff s <= backoffMax;
  so_stop : stopping s = true → inflight s = None
}.

Lemma sublist_drop_mid {A} (a b c l : list A) : a ++ b ++ c `sublist_of` l → a ++ c `sublist_of` l.
Proof. intros H. etrans; [|exact H]. apply sublist_app; [done|]. by apply sublist_inserts_l. Qed.

Lemma next_backoff_ok b : b = 0 ∨ Second <= b <= backoffMax → Second <= next_backoff b <= backoffMax.
Proof. unfold next_backoff, backoffMax, Second. intros H. repeat case_match; lia. Qed.

Lemma size_delete_some (m : gmap nat (Event * stage)) p x : m !! p = Some x → size m = S (size (delete p m)).
Proof. intros H. rewrite <- (insert_delete_id m p x H) at 1. by rewrite map_size_insert_None by apply lookup_delete_eq. Qed.

Lemma size_restage (m : gmap nat (Event * stage)) p x y : m !! p = Some x → size (<[p := y]> m) = size m.
Proof. intros H. by rewrite map_size_insert_Some by (by exists x). Qed.

Lemma push_ok_sink p e g s : sink_ok s → producers s !! p = Some (e, g) → (length (queue s) < qcap)%nat → sink_ok (push_queue p e s).
Proof.
  intros [Hc Hq Ho Hb Hst] Hp Hlt. constructor; simpl; [|rewrite length_app; simpl; lia| |done|done].
  - rewrite length_app, (size_delete_some _ _ _ Hp) in *. unfold held in *. simpl. lia.
  - unfold held in *. simpl. rewrite !app_assoc in *. by apply sublist_app.
Qed.

Lemma sink_act_ok a s : sink_ok s → sink_ok (sink_act a s).
Proof.
  intros Hok. pose proof Hok as [Hc Hq Ho Hb Hst]. destruct a as [p e|p| |ok| |ok]; simpl.
  - destruct (producers s !! p) eqn:Ep; [done|]. constructor; simpl; try done. unfold held in *. simpl.
    rewrite map_size_insert_None by done. lia.
  - unfold enqueue_step. destruct (producers s !! p) as [[e g]|] eqn:Ep; [|done].
    destruct g; [| |]; try (destruct (Nat.ltb_spec (length (queue s)) qcap); [by eapply push_ok_sink|]).
    + constructor; simpl; try done. unfold held in *. simpl. by rewrite (size_restage _ _ _ _ Ep).
    + destruct (queue s) as [|x q] eqn:Eq.
      * constructor; simpl; rewrite ?Eq; try done. unfold held in *. simpl. rewrite (size_restage _ _ _ _ Ep). done.
      * constructor; simpl; try done.
        -- unfold held in *. simpl in *. rewrite (size_restage _ _ _ _ Ep). lia.
        -- simpl in Hq. lia.
        -- unfold held in *. simpl in *. rewrite app_assoc in Ho |- *. by apply (sublist_drop_mid _ [x]).
    + constructor; simpl; try done. unfold held in *. simpl. rewrite (size_delete_some _ _ _ Ep) in Hc. lia.
  - destruct (stopping s) eqn:Es; [done|]. destruct (inflight s) eqn:Ei; [done|]. destruct (queue s) as [|e q] eqn:Eq; [done|].
    constructor; simpl; rewrite ?Es; try done; unfold held in *; rewrite ?Ei in *; simpl in *; [lia|lia|done].
  - destruct (stopping s) eqn:Es; [done|]. destruct (inflight s) as [e|] eqn:Ei; [|done]. unfold held in *. rewrite Ei in *. destruct ok.
    + constructor; simpl; rewrite ?Es; [|done| |by left|done]; unfold held; simpl.
      * rewrite length_app. simpl in *. lia.
      * by rewrite <- app_assoc.
    + constructor; simpl; rewrite ?Es; [done|done|done|right; by apply next_backoff_ok|done].
  - unfold held in *. destruct (inflight s) as [e|] eqn:Ei; constructor; simpl; unfold held; simpl; try done; rewrite ?Ei; simpl in *; try done; try lia.
    by apply (sublist_drop_mid _ [e]).
  - destruct (stopping s) eqn:Es; [|done]. destruct (queue s) as [|e q] eqn:Eq; [done|].
    unfold held in *. rewrite (Hst eq_refl) in *. simpl in *. destruct ok; constructor; simpl; unfold held; simpl; rewrite ?(Hst eq_refl), ?length_app; simpl; try done; try lia.
    + by rewrite <- app_assoc.
    + by apply (sublist_drop_mid _ [e]).
Qed.

Lemma works_ok s : works s → sink_ok s.
Proof.
  induction 1 as [|s a _ IH]; [|by apply sink_act_ok]. constructor; simpl; [|lia| |by left|done]; [by rewrite map_size_empty|done].
Qed.

(** Forwarding loses nothing unseen: however producers, the worker, failing writes
    and the shutdown interleave, every event that reached a sink is written,
    counted as dropped, or still held or being queued; the queue stays within its
    bound; what is written leaves in the order it was queued; and the worker never
    pauses longer than half a minute. *)
Theorem sink_conserves s (Hrun : works s) :
  emitted s = (length (written s) + drops s + length (queue s) + length (held s) + size (producers s))%nat ∧
  (length (queue s) ≤ qcap)%nat ∧ written s `sublist_of` pushed s ∧ 0 <= backoff s <= backoffMax.
Proof.
  destruct (works_ok s Hrun) as [Hc Hq Ho Hb _]. split; [done|]. split; [done|]. split.
  - etrans; [|exact Ho]. by apply sublist_inserts_r.
  - unfold backoffMax, Second in *. lia.
Qed.
End worker.

(** ** Framing *)
Lemma frame_line fmt msg t : fmt ≠ "rfc5424"%string → no_char (chr 10) msg = true → cut (chr 10) (frame fmt msg +:+ t) = (msg, Some t).
Proof.
  intros Hf Hm. unfold frame. rewrite bool_decide_eq_false_2 by done. rewrite str_app_assoc.
  change (str1 10 +:+ t) with (String (chr 10) t). revert Hm. induction msg as [|a msg IH]; cbn [no_char String.append cut].
  - intros _. by rewrite decide_True.
  - intros [Ha Hm]%andb_prop. apply negb_true_iff, bool_decide_eq_false in Ha. rewrite decide_False by done. by rewrite IH.
Qed.
